(* ===== verification/_CoqProject ===== *)
-Q . S2P
Prelude.v
Triples.v
OrderedMap.v
Checksum.v
Codec.v
Posix.v
FileSystem.v
Path.v
Store.v
InMemoryStore.v
MemTable.v
MemTableSet.v
WalFormat.v
WalReader.v
WalWriter.v
Recovery.v
BloomFilter.v
BlockCache.v
SstFormat.v
SstWriter.v
SstReader.v
Manifest.v
SstManager.v
TableView.v
OpenTables.v
Compaction.v
ManagerInv.v
ManagerCost.v
PersistentStore.v
StoreInv.v
StoreRefinement.v
StoreDisk.v
StoreOpen.v
StoreRestart.v
RaftTypes.v
RaftCodec.v
RaftStorage.v
RaftNode.v
RaftMachine.v
MachineStore.v
RaftElection.v
RaftCluster.v
RaftSafety.v
RaftLoops.v
RaftLog.v
LogMatching.v
RaftTransport.v
RaftRpc.v
Executor.v
RequestProcessor.v
GrpcService.v
GrpcServer.v
Observability.v
ClusterService.v
ClusterAnswers.v
ClusterClient.v
CommandLine.v
Programs.v
ClientPrograms.v
MetricsHttp.v
Statistics.v
ClusterServer.v
ServerMain.v
