(* ===== verification/Prelude.v ===== *)
(** * NebulaKV: verification of the storage engine, of Raft and of the server

    NebulaKV is a key-value store in C++20: a write-ahead log, in-memory
    tables and sorted tables on disk make up the persistent store
    (src/persistent_key_value_store.cpp); a Raft node replicates commands to
    it; a bounded executor, a request processor and gRPC services answer
    clients.  This library models the storage engine from single bytes up to
    the whole store, the Raft node with its storage, state machine and
    transports, the single-node server, the members and clients of a cluster,
    and the programs, and proves what makes them correct.

    ** The program and the files that model it

    Foundations.
    - [Prelude]: machine integers as [Z] with their wrap-around, byte strings,
      exceptions ([result]), the state-and-exception monad [stm] in which
      member functions are written, tactics and hints.  [Triples]: a weakest
      precondition for that monad.
    - [OrderedMap]: [std::map] as a list in key order.  [Path]: the part of
      [std::filesystem::path] that is used, and zero-padded numbers.
    - [Posix], [FileSystem]: the kernel.  Each system call takes its outcome
      from a script (interrupted, failed with an errno, done up to [k]
      bytes), so a theorem about all scripts is about every behaviour of the
      calls.  A file has the bytes written and the bytes that are durable; a
      directory may be thrown back by a crash to any state since it was last
      synced.
    - [Checksum]: src/checksum_calculator.cpp.  [Codec]: the byte loops and
      the [Decoder] classes of the formats.
    - [Store]: src/validation.cpp, entries, log records, and the abstract class
      [KeyValueStore] of include/nebulakv/key_value_store.hpp.  Its laws
      ([KeyValueLaws]) say that a store refines a finite map; clients
      (recovery) are proved against the laws, stores discharge them.

    Components.
    - [InMemoryStore]: src/in_memory_key_value_store.cpp.
    - [MemTable], [MemTableSet]: src/memtable.cpp, src/memtable_set.cpp.
    - [WalFormat], [WalReader], [WalWriter], [Recovery]: the log
      (src/wal_format.cpp, src/wal_reader.cpp, src/wal_writer.cpp with its
      background flusher, src/recovery_manager.cpp).
    - [BloomFilter], [BlockCache]: src/bloom_filter.cpp, src/block_cache.cpp.
    - [SstFormat], [SstWriter], [SstReader]: src/sstable_format.cpp,
      src/sstable_writer.cpp, src/sstable_reader.cpp.
    - [Manifest]: src/manifest.cpp.
    - [SstManager]: src/sstable_manager.cpp; [TableView] states what the
      manager needs of its readers and [OpenTables] discharges it;
      [Compaction] is about the selection of tables, [ManagerInv] holds the
      invariant of the manager, [ManagerCost] the counters it uses up.
    - [PersistentStore]: src/persistent_key_value_store.cpp; [StoreInv] holds
      its invariant, [StoreRefinement] its theorems, [StoreDisk] what it
      keeps on disk between two calls, [StoreOpen] the opening of a store on
      an empty directory and [StoreRestart] that of a store that was
      stopped.

    Raft.
    - [RaftTypes], [RaftCodec], [RaftStorage]: include/nebulakv/raft/types.hpp,
      src/raft/serialization.hpp and src/raft/storage.cpp; the classes
      [Storage], [StorageLaws] and [BallotLaws] are what a node needs of its
      storage, and [RaftStorage] discharges them for the files.
    - [RaftNode]: src/raft/node.cpp, each critical section of [mutex_] a
      function of the node.  [RaftElection]: what each of them does to the
      term and the vote.  [RaftCluster]: nodes and messages; a step is one
      section of one node, a crash or a restart, and messages may be lost,
      repeated and reordered.  [RaftSafety]: leaders, and a run of a cluster.
      [RaftLog]: what the sections do to the log, in memory and on disk
      ([LogLaws]).  [LogMatching]: the logs of a cluster.  [RaftLoops]: the
      member functions that are made of several sections (elections, rounds of
      replication, [submit], [confirm_leadership], the ticker), as programs
      over the cluster.
    - [RaftMachine]: src/raft/state_machine.cpp over any durable store
      ([DurableStore], [DurableStoreLaws], [StateMachineLaws]);
      [MachineStore] puts the persistent store underneath.
    - [RaftTransport]: src/raft/in_memory_transport.cpp and
      src/raft/fault_injecting_transport.cpp, with the interfaces
      [RaftEndpoint] and [RaftTransport] of
      include/nebulakv/raft/transport.hpp.  [RaftRpc]:
      src/distributed/grpc_raft_transport.cpp and
      src/distributed/raft_grpc_service.cpp.

    Server.
    - [Executor]: src/network/bounded_executor.cpp, with its threads, its
      condition variable and its notifications as interleaved steps.
    - [RequestProcessor]: src/network/request_processor.cpp.
    - [GrpcService]: src/network/grpc_service.cpp; handlers, workers and the
      single visits of tasks to the store interleave.
    - [GrpcServer]: src/network/grpc_server.cpp, from its constructor to the
      end of [finish_shutdown], and src/network/grpc_client.cpp.
    - [Observability]: src/observability/metrics.cpp and
      src/observability/json_logger.cpp.  [MetricsHttp]:
      src/observability/metrics_http_server.cpp.

    Cluster.
    - [ClusterService]: src/distributed/cluster_service.cpp, as steps that
      interleave with those of [RaftCluster]; [ClusterAnswers]: what its
      answers say and do not say.
    - [ClusterClient]: src/distributed/cluster_client.cpp and
      include/nebulakv/distributed/cluster_client.hpp.
    - [Statistics]: the statistics of the cache, the tables, the store and the
      state machine, and the calls that clear and reset them.
    - [ClusterServer]: src/distributed/cluster_server.cpp, around the service,
      the node and the HTTP server.

    Programs.
    - [CommandLine], [Programs]: the arguments of the four programs
      (server/main.cpp, cluster/main.cpp, client/main.cpp,
      tools/workload_main.cpp).  [ClientPrograms]: the client, and the turns and
      the report of the workload.  [ServerMain]: the main functions of the
      server and of a node, with the thread that waits for signals.

    A struct of the source is a [Record] with the same fields, a member
    function an operation of the same name (with a prefix such as [ms_] or
    [ps_] where two classes share a name).  Every class of the storage engine
    holds its mutex for the whole body of a member function, so a call is one
    step; where a thread runs on its own (the flusher of the log), each of its
    turns is a step ([WalWriter.batch_wakeup]).  Where member functions take
    and release a mutex several times (Raft node, executor, services), each
    section is a step of a relation and any other step may come in between.

    ** What the theorems show

    - Durability: [acknowledged_writes_recovered], [restart_keeps_contents],
      [clean_shutdown_keeps_everything], [server_program_restarts],
      [crash_leaves_log_prefix], [commit_crash_atomic],
      [sstable_publish_atomic], [raft_save_crash_atomic]: what a crash leaves
      at any moment, for every outcome of the system calls.
    - Refinement: [persistent_store_refines_map],
      [memtable_set_reachable], [block_cache_refines_lru], [table_write_read],
      [compaction_invisible], [flush_adds_entries].
    - Invariants under faults: [log_and_tables_hold_contents],
      [put_atomic_under_faults], [checkpoint_empties_log],
      [housekeeping_invisible].
    - Raft: [election_safety] (one leader per term, through crashes and
      failed system calls), [log_matching] (logs that share an entry share
      what comes before it), [node_functions_follow_cluster] (whatever the
      member functions of nodes do together is a run of the cluster model, so
      that what holds of all runs holds of them), [machine_follows_log] and [snapshot_transfers]
      (the replicated map is the replay of the log, in memory and in the
      store), [failed_apply_changes_nothing], and
      [transports_follow_cluster], [grpc_transport_follows_cluster] (the
      transports do what the cluster model takes a network to do).
    - Server: [executor_accounts_for_tasks], [executor_bounded],
      [shutdown_completes], [batch_limits_exact] and [service_linearizable]
      (an answer OK means that exactly the visits of the request were made by
      then).
    - Cluster: [cluster_answers_backed] (what the node was seen to have done
      by the time a member answers OK), [client_follows_redirects],
      [metrics_page_exact] (what a scrape of the metrics shows).
    - Programs: [command_lines_roundtrip], [arguments_typed],
      [client_exit_code], [node_setup_configured].
    - Formats: round trips ([scan_accepts_only_serialized],
      [manifest_codec_exact], [raft_files_exact]) and detection of damage
      ([data_block_damage_detected]).
    - Termination: [automatic_compaction_ends], [sstable_write_succeeds].
    - Defects: [torn_append_hides_acknowledged_write],
      [first_commit_crash_unopenable], [state_machine_safety_fails],
      [acknowledged_write_lost], [silent_client_blocks_shutdown].

    ** Bounds and fuel

    [log_matching] is for clusters whose nodes have a snapshot threshold of
    zero and whose log files stay below 2^64 bytes ([roomy]).

    Counters are 64 bits wide; theorems about writes ask for room in them
    ([capacity], [spare], [kv_budget]), since the source throws or wraps when
    they run out.  Loops that are not structural carry fuel: the binary search
    halves its range, so its length is enough; eviction removes a node each
    turn; a compaction shrinks level 0, so [compact_loop] has one turn per
    table of it ([automatic_compaction_ends] shows that more makes no
    difference); the retry loop of a flush has [kFlushTurns] turns, and only
    other writers, which the store's mutex keeps out, could ask for more; the
    256 attempts of a replication are those of the source; the turns of
    [submit] and [confirm_leadership] before their deadline are a number given
    to them, since a clock decides how many there are.

    ** Not modelled

    Floating point: the sizes of Bloom filters are functions given to the
    manager, a ratio is a fraction, a probability is compared with 0 and 1
    only, the registry of metrics and the workload work over any type with the
    operations of [Double].  Clocks and deadlines: a deadline may pass at any
    step.  Locks, beyond the atomicity they give.  The readers of a manager
    share one pair of lookup counters.  Random engines, signals, sockets and
    gRPC itself are parameters or choices of the steps.  The threads of the
    workload beyond the turns they make; the demonstration (app/main.cpp), the
    benchmarks and the tests.

    ** Open

    Log matching is proved for nodes that make no snapshots. *)

From Stdlib Require Export ZArith Lia Sorting.Sorted.
From Stdlib Require Export Strings.Byte.
From stdpp Require Export base numbers countable gmap.
From stdpp Require Export list.
From Stdlib Require Strings.String.
Export Strings.String.StringSyntax.
Delimit Scope string_scope with string.
Bind Scope string_scope with String.string.

Declare Scope nebula_scope.
Delimit Scope nebula_scope with nebula.
#[global] Open Scope Z_scope.
#[global] Open Scope nebula_scope.

Create HintDb nebula.
Create Rewrite HintDb nebula.

(** ** Machine integers

    [std::size_t] and [std::uint64_t] are 64 bits wide, [std::uint32_t] 32.
    A value of such a type is a [Z] in range; where the source computes with
    wrap-around, the wrap is written with [u64] or [u32]. *)

Definition u8_max : Z := 2 ^ 8 - 1.
Definition u16_max : Z := 2 ^ 16 - 1.
Definition u32_max : Z := 2 ^ 32 - 1.
Definition u64_max : Z := 2 ^ 64 - 1.

Definition u32 (z : Z) : Z := z mod 2 ^ 32.
Definition u64 (z : Z) : Z := z mod 2 ^ 64.

Definition is_u32 (z : Z) : Prop := 0 <= z <= u32_max.
Definition is_u64 (z : Z) : Prop := 0 <= z <= u64_max.

(** ** Bytes and strings

    [std::byte] is [byte]; [std::string] and [std::vector<std::byte>] are
    lists of bytes. *)

Abbreviation byte := Byte.byte.
Abbreviation str := (list byte).
Abbreviation string := String.string.

Definition b2z (b : byte) : Z := Z.of_N (Byte.to_N b).
Definition z2b (z : Z) : byte := default x00 (Byte.of_N (Z.to_N (z mod 256))).

(** [v.size()] as the machine integer the source computes with. *)
Definition zlen {A} (l : list A) : Z := Z.of_nat (length l).

(** A byte string written as a literal of the source. *)
Definition bytes_of (s : string) : str := String.list_byte_of_string s.

(** [operator==] and [operator<] on [std::string]: [char_traits<char>] compares
    characters as [unsigned char], and strings lexicographically. *)
Fixpoint str_compare (a b : str) : comparison :=
  match a, b with
  | [], [] => Eq
  | [], _ :: _ => Lt
  | _ :: _, [] => Gt
  | x :: a', y :: b' =>
      match Z.compare (b2z x) (b2z y) with
      | Eq => str_compare a' b'
      | c => c
      end
  end.

Definition str_ltb (a b : str) : bool :=
  match str_compare a b with Lt => true | _ => false end.
Definition str_leb (a b : str) : bool :=
  match str_compare a b with Gt => false | _ => true end.
Definition str_eqb (a b : str) : bool :=
  match str_compare a b with Eq => true | _ => false end.

Definition str_lt (a b : str) : Prop := str_compare a b = Lt.
Definition str_le (a b : str) : Prop := str_compare a b <> Gt.

Definition str_min (a b : str) : str := if str_ltb b a then b else a.
Definition str_max (a b : str) : str := if str_ltb a b then b else a.

(** ** Exceptions and results *)

(** The exception classes the code throws, with their message. *)
Inductive exn :=
| InvalidArgument (what : string)
| LengthError (what : string)
| LogicError (what : string)
| RuntimeError (what : string)
| OverflowError (what : string)
| SystemError (errno : Z) (what : string)
| CorruptionError (byte_offset : Z) (what : string).

(** What the exception was made with. *)
Definition what (e : exn) : string :=
  match e with
  | InvalidArgument w | LengthError w | LogicError w | RuntimeError w | OverflowError w | SystemError _ w | CorruptionError _ w => w
  end.

(** A call that returns or throws. *)
Inductive result (A : Type) :=
| Ok (a : A)
| Throw (e : exn).
Arguments Ok {A} a.
Arguments Throw {A} e.

#[export] Instance result_ret : MRet result := fun A a => Ok a.
#[export] Instance result_bind : MBind result :=
  fun A B f m => match m with Ok a => f a | Throw e => Throw e end.
#[export] Instance result_fmap : FMap result :=
  fun A B f m => match m with Ok a => Ok (f a) | Throw e => Throw e end.

Definition throw_if (b : bool) (e : exn) : result unit :=
  if b then Throw e else Ok tt.

Definition is_Ok {A} (r : result A) : bool :=
  match r with Ok _ => true | Throw _ => false end.

(** A member function that reads and writes the object: the state is kept
    when the call throws, as it is in the source. *)
Definition stm (S A : Type) : Type := S -> result A * S.

#[export] Instance stm_ret S : MRet (stm S) := fun A a s => (Ok a, s).
#[export] Instance stm_bind S : MBind (stm S) :=
  fun A B f m s =>
    match m s with
    | (Ok a, s') => f a s'
    | (Throw e, s') => (Throw e, s')
    end.

Definition sget {S} : stm S S := fun s => (Ok s, s).
Definition sput {S} (s' : S) : stm S unit := fun _ => (Ok tt, s').
Definition smodify {S} (f : S -> S) : stm S unit := fun s => (Ok tt, f s).
Definition slift {S A} (r : result A) : stm S A := fun s => (r, s).
(** A const member function, as a step that leaves the state. *)
Definition sread {S A} (f : S -> result A) : stm S A := fun s => (f s, s).
Definition sthrow {S A} (e : exn) : stm S A := fun s => (Throw e, s).

(** [try { c } catch (...) { h }] *)
Definition scatch {S A} (c : stm S A) (h : exn -> stm S A) : stm S A :=
  fun s => match c s with (Ok a, s') => (Ok a, s') | (Throw e, s') => h e s' end.

(** ** Decidable equality *)

#[export] Instance byte_eq_dec : EqDecision byte := Byte.byte_eq_dec.

Lemma byte_decode_encode b : default x00 (Byte.of_N (Byte.to_N b)) = b.
Proof. by destruct b. Qed.

#[export] Instance byte_countable : Countable byte :=
  inj_countable' Byte.to_N (fun n => default x00 (Byte.of_N n)) byte_decode_encode.

#[export] Instance exn_eq_dec : EqDecision exn.
Proof. solve_decision. Defined.
#[export] Instance result_eq_dec A `{EqDecision A} : EqDecision (result A).
Proof. solve_decision. Defined.
#[export] Instance comparison_eq_dec : EqDecision comparison.
Proof. solve_decision. Defined.

(** ** Tactics *)

(** Splits a hypothesis or a goal on the booleans it tests. *)
Ltac break_if :=
  match goal with
  | H : context [if ?b then _ else _] |- _ => destruct b eqn:?
  | |- context [if ?b then _ else _] => destruct b eqn:?
  end.

Ltac break_match :=
  match goal with
  | H : context [match ?x with _ => _ end] |- _ => destruct x eqn:?
  | |- context [match ?x with _ => _ end] => destruct x eqn:?
  end.

(** Turns boolean comparisons of [Z] in the context into propositions. *)
Ltac zbool :=
  repeat match goal with
  | H : (_ && _)%bool = true |- _ => apply andb_true_iff in H; destruct H
  | H : (_ || _)%bool = false |- _ => apply orb_false_iff in H; destruct H
  | H : (_ && _)%bool = false |- _ => apply andb_false_iff in H
  | H : (_ || _)%bool = true |- _ => apply orb_true_iff in H
  | H : negb _ = true |- _ => apply negb_true_iff in H
  | H : negb _ = false |- _ => apply negb_false_iff in H
  | H : (_ =? _)%Z = true |- _ => apply Z.eqb_eq in H
  | H : (_ =? _)%Z = false |- _ => apply Z.eqb_neq in H
  | H : (_ <? _)%Z = true |- _ => apply Z.ltb_lt in H
  | H : (_ <? _)%Z = false |- _ => apply Z.ltb_ge in H
  | H : (_ <=? _)%Z = true |- _ => apply Z.leb_le in H
  | H : (_ <=? _)%Z = false |- _ => apply Z.leb_gt in H
  | H : (_ >? _)%Z = true |- _ => rewrite Z.gtb_ltb in H; apply Z.ltb_lt in H
  | H : (_ >? _)%Z = false |- _ => rewrite Z.gtb_ltb in H; apply Z.ltb_ge in H
  end.

(** Runs the monadic binds whose first step is known, and nothing else. *)
Ltac mred :=
  cbv [mbind mret result_bind result_ret stm_bind stm_ret sget sput smodify slift sread sthrow throw_if
       orb andb negb].

(** Decides a closed boolean comparison of [Z] in the goal from the context. *)
Ltac zdecide :=
  repeat match goal with
  | |- context [(?a =? ?b)%Z] =>
      first [ rewrite (proj2 (Z.eqb_eq a b)) by lia
            | rewrite (proj2 (Z.eqb_neq a b)) by lia ]
  | |- context [(?a <? ?b)%Z] =>
      first [ rewrite (proj2 (Z.ltb_lt a b)) by lia
            | rewrite (proj2 (Z.ltb_ge a b)) by lia ]
  | |- context [(?a <=? ?b)%Z] =>
      first [ rewrite (proj2 (Z.leb_le a b)) by lia
            | rewrite (proj2 (Z.leb_gt a b)) by lia ]
  end.

(** ** Lemmas on results *)

Section result_lemmas.
Context {A B : Type}.

Lemma bind_Ok_inv (m : result A) (f : A -> result B) b :
  m ≫= f = Ok b -> exists a, m = Ok a /\ f a = Ok b.
Proof. destruct m as [a|e]; simpl; intros H; [by eauto | discriminate]. Qed.

Lemma bind_Throw_inv (m : result A) (f : A -> result B) e :
  m ≫= f = Throw e -> m = Throw e \/ exists a, m = Ok a /\ f a = Throw e.
Proof. destruct m as [a|e']; simpl; intros H; [by eauto | left; congruence]. Qed.

Lemma throw_if_Ok b e u : throw_if b e = Ok u -> b = false.
Proof. by destruct b. Qed.

Lemma throw_if_false b e : b = false -> throw_if b e = Ok tt.
Proof. by intros ->. Qed.
End result_lemmas.

(** Opens a successful sequence of calls into its steps. *)
Ltac inv_ok :=
  repeat match goal with
  | H : Ok _ = Ok _ |- _ => injection H as H; try subst
  | H : mret _ = Ok _ |- _ => unfold mret, result_ret in H
  | H : Throw _ = Ok _ |- _ => discriminate H
  | H : Ok _ = Throw _ |- _ => discriminate H
  | H : (_ ≫= _) = Ok _ |- _ =>
      let a := fresh "x" in
      let E := fresh "E" in
      apply bind_Ok_inv in H; destruct H as (a & E & H)
  | H : mbind _ _ = Ok _ |- _ =>
      let a := fresh "x" in
      let E := fresh "E" in
      apply bind_Ok_inv in H; destruct H as (a & E & H)
  | H : throw_if _ _ = Ok _ |- _ => apply throw_if_Ok in H
  end.

(** ** Lemmas on machine integers *)

Lemma u64_add_l a b : u64 (u64 a + b) = u64 (a + b).
Proof. unfold u64. by rewrite Zplus_mod_idemp_l. Qed.
Lemma u64_sub_l a b : u64 (u64 a - b) = u64 (a - b).
Proof. unfold u64. by rewrite Zminus_mod_idemp_l. Qed.
Lemma u64_idem z : u64 (u64 z) = u64 z.
Proof. unfold u64. by rewrite Zmod_mod. Qed.
Lemma u64_small z : 0 <= z <= u64_max -> u64 z = z.
Proof. unfold u64, u64_max. intros. by rewrite Z.mod_small by lia. Qed.
Lemma u64_range z : 0 <= u64 z <= u64_max.
Proof. unfold u64, u64_max. pose proof (Z.mod_pos_bound z (2 ^ 64)). lia. Qed.
#[export] Hint Resolve u64_range : nebula.

(** ** Lemmas on bytes *)

Lemma b2z_range b : 0 <= b2z b < 256.
Proof.
  unfold b2z. pose proof (Byte.to_N_bounded b). lia.
Qed.
#[export] Hint Resolve b2z_range : nebula.

Lemma b2z_inj b c : b2z b = b2z c -> b = c.
Proof.
  unfold b2z. intros H%N2Z.inj.
  pose proof (Byte.of_to_N b) as Hb. pose proof (Byte.of_to_N c) as Hc. congruence.
Qed.

Lemma b2z_z2b z : b2z (z2b z) = z mod 256.
Proof.
  unfold b2z, z2b. pose proof (Z.mod_pos_bound z 256 ltac:(lia)) as Hz.
  destruct (Byte.of_N (Z.to_N (z mod 256))) as [b|] eqn:E; simpl.
  - apply Byte.to_of_N in E. rewrite E. lia.
  - apply Byte.of_N_None_iff in E. lia.
Qed.

Lemma z2b_b2z b : z2b (b2z b) = b.
Proof.
  apply b2z_inj. rewrite b2z_z2b. pose proof (b2z_range b). by rewrite Z.mod_small by lia.
Qed.

(** ** The order on strings *)

Lemma str_compare_refl a : str_compare a a = Eq.
Proof. induction a as [|x a IH]; simpl; [done|]. by rewrite Z.compare_refl. Qed.

Lemma str_compare_eq a b : str_compare a b = Eq <-> a = b.
Proof.
  split; [|intros ->; apply str_compare_refl].
  revert b. induction a as [|x a IH]; intros [|y b]; simpl; try done.
  destruct (Z.compare_spec (b2z x) (b2z y)) as [E| |]; try done.
  intros H. apply b2z_inj in E as ->. f_equal. by apply IH.
Qed.

Lemma str_compare_antisym a b : str_compare b a = CompOpp (str_compare a b).
Proof.
  revert b. induction a as [|x a IH]; intros [|y b]; simpl; try done.
  rewrite (Z.compare_antisym (b2z x) (b2z y)).
  destruct (Z.compare (b2z x) (b2z y)); simpl; auto.
Qed.

Lemma str_lt_trans a b c : str_lt a b -> str_lt b c -> str_lt a c.
Proof.
  unfold str_lt. revert b c.
  induction a as [|x a IH]; intros [|y b] [|z c]; simpl; try done.
  destruct (Z.compare_spec (b2z x) (b2z y)) as [E1|E1|E1],
           (Z.compare_spec (b2z y) (b2z z)) as [E2|E2|E2]; intros H1 H2; try done;
  destruct (Z.compare_spec (b2z x) (b2z z)) as [E3|E3|E3]; try done; try lia.
  by eapply IH.
Qed.

Lemma str_lt_irrefl a : ~ str_lt a a.
Proof. unfold str_lt. by rewrite str_compare_refl. Qed.

Lemma str_lt_gt a b : str_compare a b = Gt <-> str_lt b a.
Proof.
  unfold str_lt. rewrite (str_compare_antisym a b).
  destruct (str_compare a b); simpl; split; congruence.
Qed.

Lemma str_ltb_lt a b : str_ltb a b = true <-> str_lt a b.
Proof. unfold str_ltb, str_lt. destruct (str_compare a b); split; congruence. Qed.

Lemma str_eqb_eq a b : str_eqb a b = true <-> a = b.
Proof.
  unfold str_eqb. rewrite <- str_compare_eq. destruct (str_compare a b); split; congruence.
Qed.

Lemma str_eqb_refl a : str_eqb a a = true.
Proof. by apply str_eqb_eq. Qed.

Lemma str_eqb_neq a b : str_eqb a b = false <-> a <> b.
Proof. rewrite <- str_eqb_eq. destruct (str_eqb a b); split; congruence. Qed.

Lemma str_leb_le a b : str_leb a b = true <-> str_le a b.
Proof. unfold str_leb, str_le. destruct (str_compare a b); split; congruence. Qed.

Lemma str_leb_ltb a b : str_leb a b = negb (str_ltb b a).
Proof.
  unfold str_leb, str_ltb. rewrite (str_compare_antisym a b). by destruct (str_compare a b).
Qed.

Lemma str_le_lteq a b : str_le a b <-> str_lt a b \/ a = b.
Proof.
  unfold str_le, str_lt. rewrite <- str_compare_eq.
  destruct (str_compare a b); intuition congruence.
Qed.

Lemma str_le_nlt a b : str_le a b <-> ~ str_lt b a.
Proof. unfold str_le. by rewrite str_lt_gt. Qed.

Lemma str_le_refl a : str_le a a.
Proof. apply str_le_lteq. by right. Qed.

Lemma str_le_trans a b c : str_le a b -> str_le b c -> str_le a c.
Proof.
  rewrite !str_le_lteq. intros [H1| ->] [H2| ->]; eauto using str_lt_trans.
Qed.

Lemma str_lt_le_trans a b c : str_lt a b -> str_le b c -> str_lt a c.
Proof. rewrite str_le_lteq. intros H1 [H2| ->]; eauto using str_lt_trans. Qed.

Lemma str_le_lt_trans a b c : str_le a b -> str_lt b c -> str_lt a c.
Proof. rewrite str_le_lteq. intros [H1| ->] H2; eauto using str_lt_trans. Qed.

Lemma str_lt_le a b : str_lt a b -> str_le a b.
Proof. rewrite str_le_lteq. auto. Qed.

Lemma str_ltb_irrefl a : str_ltb a a = false.
Proof. unfold str_ltb. by rewrite str_compare_refl. Qed.

Lemma str_ltb_ge a b : str_ltb a b = false <-> str_le b a.
Proof. rewrite <- str_leb_le, str_leb_ltb. by destruct (str_ltb a b). Qed.

#[export] Instance str_lt_strict : StrictOrder str_lt.
Proof. split; [exact str_lt_irrefl | exact str_lt_trans]. Qed.
#[export] Instance str_le_preorder : PreOrder str_le.
Proof. split; [exact str_le_refl | exact str_le_trans]. Qed.
#[export] Instance str_lt_dec a b : Decision (str_lt a b).
Proof. unfold str_lt. apply _. Defined.
#[export] Instance str_le_dec a b : Decision (str_le a b).
Proof. unfold str_le. apply _. Defined.

#[export] Hint Resolve str_le_refl str_lt_le : nebula.
#[export] Hint Rewrite str_compare_refl str_eqb_refl str_ltb_irrefl : nebula.

(** Turns boolean comparisons of strings in the context into propositions. *)
Ltac sbool :=
  repeat match goal with
  | H : str_ltb _ _ = true |- _ => apply str_ltb_lt in H
  | H : str_ltb _ _ = false |- _ => apply str_ltb_ge in H
  | H : str_leb _ _ = true |- _ => apply str_leb_le in H
  | H : str_eqb _ _ = true |- _ => apply str_eqb_eq in H
  | H : str_eqb _ _ = false |- _ => apply str_eqb_neq in H
  end.

Lemma str_min_le_l a b : str_le (str_min a b) a.
Proof. unfold str_min. destruct (str_ltb b a) eqn:E; sbool; eauto with nebula. Qed.
Lemma str_min_le_r a b : str_le (str_min a b) b.
Proof. unfold str_min. destruct (str_ltb b a) eqn:E; sbool; eauto with nebula. Qed.
Lemma str_max_ge_l a b : str_le a (str_max a b).
Proof. unfold str_max. destruct (str_ltb a b) eqn:E; sbool; eauto with nebula. Qed.
Lemma str_max_ge_r a b : str_le b (str_max a b).
Proof. unfold str_max. destruct (str_ltb a b) eqn:E; sbool; eauto with nebula. Qed.

(** ** Lemmas on lists *)

Lemma zlen_nonneg {A} (l : list A) : 0 <= zlen l.
Proof. unfold zlen. lia. Qed.
Lemma zlen_nil {A} : zlen (@nil A) = 0.
Proof. done. Qed.
Lemma zlen_cons {A} (x : A) l : zlen (x :: l) = 1 + zlen l.
Proof. unfold zlen. simpl. lia. Qed.
Lemma zlen_app {A} (l k : list A) : zlen (l ++ k) = zlen l + zlen k.
Proof. unfold zlen. rewrite length_app. lia. Qed.
Lemma zlen_0 {A} (l : list A) : zlen l = 0 <-> l = [].
Proof. unfold zlen. destruct l; simpl; split; intros; try done; lia. Qed.
#[export] Hint Resolve zlen_nonneg : nebula.
#[export] Hint Rewrite @zlen_nil @zlen_cons @zlen_app : nebula.

Lemma to_nat_zlen {A} (l : list A) : Z.to_nat (zlen l) = length l.
Proof. unfold zlen. lia. Qed.

(** [vector.empty()] *)
Definition is_nil {A} (l : list A) : bool :=
  match l with [] => true | _ => false end.

Lemma is_nil_true {A} (l : list A) : is_nil l = true <-> l = [].
Proof. by destruct l. Qed.
Lemma is_nil_false {A} (l : list A) : is_nil l = false <-> l <> [].
Proof. by destruct l. Qed.

Section filter_lemmas.
Context {A : Type}.

Lemma filter_ext_in (P Q : A -> Prop) `{!∀ x, Decision (P x)} `{!∀ x, Decision (Q x)} (l : list A) :
  (forall x, x ∈ l -> P x <-> Q x) -> filter P l = filter Q l.
Proof.
  induction l as [|x l IH]; intros HP; [done|]. rewrite !filter_cons.
  rewrite IH by (intros; apply HP; by right).
  pose proof (HP x ltac:(by left)). by repeat case_decide; try tauto.
Qed.

Lemma filter_all (P : A -> Prop) `{!∀ x, Decision (P x)} (l : list A) :
  (forall x, x ∈ l -> P x) -> filter P l = l.
Proof.
  induction l as [|x l IH]; intros HP; [done|]. rewrite filter_cons, decide_True by (apply HP; by left).
  f_equal. apply IH. intros. apply HP. by right.
Qed.

Lemma filter_none (P : A -> Prop) `{!∀ x, Decision (P x)} (l : list A) :
  (forall x, x ∈ l -> ~ P x) -> filter P l = [].
Proof.
  induction l as [|x l IH]; intros HP; [done|]. rewrite filter_cons, decide_False by (apply HP; by left).
  apply IH. intros. apply HP. by right.
Qed.

Lemma filter_fmap {B} (f : A -> B) (P : B -> Prop) `{!∀ x, Decision (P x)} (l : list A) :
  filter P (f <$> l) = f <$> filter (fun x => P (f x)) l.
Proof.
  induction l as [|x l IH]; [done|]. rewrite fmap_cons, !filter_cons, IH. by case_decide.
Qed.

Lemma Forall_filter (Q P : A -> Prop) `{!∀ x, Decision (P x)} (l : list A) :
  Forall Q l -> Forall Q (filter P l).
Proof. rewrite !Forall_forall. intros HQ x [_ Hx]%list_elem_of_filter. auto. Qed.
End filter_lemmas.

(** ** Sorting

    [std::sort] with a comparator.  Elements that the comparator does not
    separate may come out in any order in the source; here they keep the order
    they had. *)

Section sort.
Context {A : Type} (lt : A -> A -> bool).

Fixpoint sort_insert (x : A) (l : list A) : list A :=
  match l with
  | [] => [x]
  | y :: l' => if lt y x then y :: sort_insert x l' else x :: l
  end.

Fixpoint sort_by (l : list A) : list A :=
  match l with
  | [] => []
  | x :: l' => sort_insert x (sort_by l')
  end.

Lemma sort_insert_perm x l : sort_insert x l ≡ₚ x :: l.
Proof.
  induction l as [|y l IH]; simpl; [done|]. destruct (lt y x); [|done]. rewrite IH. apply Permutation_swap.
Qed.

Lemma sort_by_perm l : sort_by l ≡ₚ l.
Proof. induction l as [|x l IH]; simpl; [done|]. by rewrite sort_insert_perm, IH. Qed.

Lemma sort_by_sorted (R : A -> A -> Prop) l :
  Transitive R -> (forall x y, lt x y = true -> R x y) -> (forall x y, lt x y = false -> R y x) ->
  StronglySorted R (sort_by l).
Proof.
  intros Ht H1 H2. induction l as [|x l IH]; simpl; [constructor|].
  revert IH. generalize (sort_by l) as k. induction k as [|y k IHk]; intros Hs; simpl; [by repeat constructor|].
  apply StronglySorted_inv in Hs as [Hk Hy]. destruct (lt y x) eqn:E.
  - constructor; [by apply IHk|]. rewrite sort_insert_perm. constructor; [by apply H1|done].
  - constructor; [by constructor|]. constructor; [by apply H2|]. eapply Forall_impl; [exact Hy|].
    intros z Hz. etrans; [by apply H2|done].
Qed.
End sort.

(** ** Sizes of finite maps *)

Lemma size_insert_live (m : gmap str str) k v :
  Z.of_nat (size (<[k := v]> m)) =
  Z.of_nat (size m) + (if bool_decide (is_Some (m !! k)) then 0 else 1).
Proof.
  case_bool_decide as H.
  - destruct H as [x Hx]. rewrite map_size_insert, Hx. unfold id. lia.
  - apply eq_None_not_Some in H. rewrite map_size_insert, H. lia.
Qed.

Lemma size_delete_live (m : gmap str str) k :
  Z.of_nat (size (delete k m)) =
  Z.of_nat (size m) - (if bool_decide (is_Some (m !! k)) then 1 else 0).
Proof.
  case_bool_decide as H.
  - destruct H as [x Hx]. rewrite map_size_delete, Hx. unfold id.
    assert (size m <> 0%nat) by (intros ->%map_size_empty_inv; by rewrite lookup_empty in Hx). lia.
  - apply eq_None_not_Some in H. rewrite delete_id by done. lia.
Qed.
