(* ===== verification/Triples.v ===== *)
(** * Outcomes of stateful calls

    A weakest precondition for the state-and-exception monad of [Prelude]:
    [swp c Q E s] says that [c], run in the state [s], returns a value and a
    state in [Q], or throws and leaves a state in [E].  The rules follow the
    program text, so a proof about a member function reads in its order. *)

From S2P Require Import Prelude.

Definition swp {S A} (c : stm S A) (Q : A -> S -> Prop) (E : S -> Prop) (s : S) : Prop :=
  match c s with (Ok a, s') => Q a s' | (Throw _, s') => E s' end.

Section rules.
Context {S : Type}.

Lemma swp_run {A} (c : stm S A) Q E s : (forall r s', c s = (r, s') -> match r with Ok a => Q a s' | Throw _ => E s' end) <-> swp c Q E s.
Proof.
  unfold swp. split.
  - intros H. destruct (c s) as [[a|e] s'] eqn:E'; by apply (H _ _ eq_refl).
  - intros H r s' E'. rewrite E' in H. by destruct r.
Qed.

Lemma swp_elim {A} (c : stm S A) Q E s r s' : swp c Q E s -> c s = (r, s') -> match r with Ok a => Q a s' | Throw _ => E s' end.
Proof. intros H. by apply swp_run. Qed.

Lemma swp_mono {A} (c : stm S A) (Q Q' : A -> S -> Prop) (E E' : S -> Prop) s :
  swp c Q E s -> (forall a s', Q a s' -> Q' a s') -> (forall s', E s' -> E' s') -> swp c Q' E' s.
Proof. unfold swp. intros H HQ HE. destruct (c s) as [[a|e] s']; auto. Qed.

Lemma swp_bind {A B} (c : stm S A) (k : A -> stm S B) Q E s :
  swp c (fun a s' => swp (k a) Q E s') E s -> swp (c ≫= k) Q E s.
Proof. unfold swp, mbind, stm_bind. by destruct (c s) as [[a|e] s']. Qed.

Lemma swp_ret {A} (a : A) (Q : A -> S -> Prop) E s : Q a s -> swp (mret a) Q E s.
Proof. done. Qed.
Lemma swp_throw {A} e (Q : A -> S -> Prop) (E : S -> Prop) s : E s -> swp (sthrow e) Q E s.
Proof. done. Qed.
Lemma swp_get (Q : S -> S -> Prop) E s : Q s s -> swp sget Q E s.
Proof. done. Qed.
Lemma swp_put s' (Q : unit -> S -> Prop) E s : Q tt s' -> swp (sput s') Q E s.
Proof. done. Qed.
Lemma swp_modify f (Q : unit -> S -> Prop) E s : Q tt (f s) -> swp (smodify f) Q E s.
Proof. done. Qed.
Lemma swp_lift {A} (r : result A) (Q : A -> S -> Prop) (E : S -> Prop) s :
  (forall a, r = Ok a -> Q a s) -> (is_Ok r = false -> E s) -> swp (slift r) Q E s.
Proof. unfold swp, slift. destruct r; auto. Qed.

(** A call that must return. *)
Definition returns {A} (c : stm S A) (Q : A -> S -> Prop) : S -> Prop := swp c Q (fun _ => False).

Lemma returns_run {A} (c : stm S A) Q s : returns c Q s <-> exists a s', c s = (Ok a, s') /\ Q a s'.
Proof.
  unfold returns, swp. destruct (c s) as [[a|e] s']; split; [by eauto|by intros (? & ? & [= <- <-] & ?)|done|by intros (? & ? & ? & _)].
Qed.

Lemma returns_lift {A} (r : result A) (Q : A -> S -> Prop) s a : r = Ok a -> Q a s -> returns (slift r) Q s.
Proof. by intros ->. Qed.
End rules.

(** One rule of the text at a time; stops at a call it does not know. *)
Ltac swp_step :=
  lazymatch goal with
  | |- returns _ _ _ => unfold returns
  | |- swp (_ ≫= _) _ _ _ => apply swp_bind
  | |- swp (mret _) _ _ _ => apply swp_ret
  | |- swp (sthrow _) _ _ _ => apply swp_throw
  | |- swp sget _ _ _ => apply swp_get
  | |- swp (sput _) _ _ _ => apply swp_put
  | |- swp (smodify _) _ _ _ => apply swp_modify
  | |- swp (let '(_, _) := ?x in _) _ _ _ => destruct x eqn:?
  | |- swp (match ?x with _ => _ end) _ _ _ => destruct x eqn:?
  end.
