(* ===== verification/OrderedMap.v ===== *)
(** * Ordered maps keyed by strings

    [std::map<std::string, V, std::less<>>] as the list of its entries in
    iteration order, with the operations of it that the source uses: [find],
    [insert_or_assign], [emplace], [erase] and iteration.  The well-formedness
    invariant is that the keys are strictly increasing. *)

From S2P Require Import Prelude.

Section ordered_map.
Context {V : Type}.
Implicit Types (m : list (str * V)) (k : str) (v : V).

(** ** Operations *)

Fixpoint om_find k m : option V :=
  match m with
  | [] => None
  | (k', v) :: m' => if str_eqb k k' then Some v else om_find k m'
  end.

Fixpoint om_insert k v m : list (str * V) :=
  match m with
  | [] => [(k, v)]
  | (k', v') :: m' =>
      match str_compare k k' with
      | Lt => (k, v) :: m
      | Eq => (k', v) :: m'
      | Gt => (k', v') :: om_insert k v m'
      end
  end.

(** [emplace]: the pair of whether the key was inserted and the map after it. *)
Definition om_emplace k v m : bool * list (str * V) :=
  match om_find k m with
  | Some _ => (false, m)
  | None => (true, om_insert k v m)
  end.

Fixpoint om_erase k m : list (str * V) :=
  match m with
  | [] => []
  | (k', v') :: m' => if str_eqb k k' then m' else (k', v') :: om_erase k m'
  end.

(** The keys are strictly increasing. *)
Definition om_wf m : Prop := StronglySorted str_lt (m.*1).

(** Number of entries that satisfy a test, [std::count_if]. *)
Definition om_count (P : V -> bool) m : Z :=
  zlen (filter (fun kv => P kv.2 = true) m).

(** ** Well-formedness *)

Lemma om_wf_nil : om_wf [].
Proof. constructor. Qed.

Lemma om_wf_cons k v m :
  om_wf ((k, v) :: m) <-> om_wf m /\ Forall (fun kv => str_lt k kv.1) m.
Proof.
  unfold om_wf. rewrite fmap_cons. simpl. split.
  - intros H. apply StronglySorted_inv in H as [H1 H2]. by rewrite Forall_fmap in H2.
  - intros [H1 H2]. constructor; [done|]. by rewrite Forall_fmap.
Qed.

Lemma om_find_In k v m : om_find k m = Some v -> (k, v) ∈ m.
Proof.
  induction m as [|[k' v'] m IH]; simpl; [done|].
  destruct (str_eqb k k') eqn:E; intros H; sbool; simplify_eq; set_solver.
Qed.

Lemma om_find_None k m : om_find k m = None <-> k ∉ m.*1.
Proof.
  induction m as [|[k' v'] m IH]; simpl; [split; [intros _; apply not_elem_of_nil | done]|].
  rewrite not_elem_of_cons. destruct (str_eqb k k') eqn:E; sbool; naive_solver.
Qed.

Lemma om_find_Forall (P : str * V -> Prop) k v m :
  Forall P m -> om_find k m = Some v -> P (k, v).
Proof. intros H1 H2%om_find_In. rewrite Forall_forall in H1. auto. Qed.

Lemma om_find_lt k m : Forall (fun kv => str_lt k kv.1) m -> om_find k m = None.
Proof.
  intros H. apply om_find_None. intros ((k' & v') & -> & Hin)%list_elem_of_fmap.
  rewrite Forall_forall in H. apply (str_lt_irrefl k'). exact (H _ Hin).
Qed.

Lemma om_In_find k v m : om_wf m -> (k, v) ∈ m -> om_find k m = Some v.
Proof.
  induction m as [|[k' v'] m IH]; [set_solver|].
  rewrite om_wf_cons. intros [Hm Hlt] [Heq|Hin]%elem_of_cons; simpl.
  - simplify_eq. by rewrite str_eqb_refl.
  - destruct (str_eqb k k') eqn:E; sbool; [|by apply IH]. subst k'.
    rewrite Forall_forall in Hlt. exfalso. apply (str_lt_irrefl k). exact (Hlt _ Hin).
Qed.

(** ** Lookup after an update *)

Lemma om_find_insert k k' v m :
  om_find k' (om_insert k v m) = if str_eqb k' k then Some v else om_find k' m.
Proof.
  induction m as [|[k0 v0] m IH]; simpl; [done|].
  destruct (str_compare k k0) eqn:E; simpl.
  - apply str_compare_eq in E as ->. by destruct (str_eqb k' k0).
  - done.
  - rewrite IH. destruct (str_eqb k' k0) eqn:E0; [|done].
    sbool. subst k0. destruct (str_eqb k' k) eqn:E1; [|done].
    sbool. subst k'. by rewrite str_compare_refl in E.
Qed.

Lemma om_find_insert_eq k v m : om_find k (om_insert k v m) = Some v.
Proof. by rewrite om_find_insert, str_eqb_refl. Qed.

Lemma om_find_insert_ne k k' v m :
  k' <> k -> om_find k' (om_insert k v m) = om_find k' m.
Proof. intros H%str_eqb_neq. by rewrite om_find_insert, H. Qed.

Lemma om_insert_Forall (P : str * V -> Prop) k v m :
  P (k, v) -> Forall P m -> Forall P (om_insert k v m).
Proof.
  intros Hk. induction 1 as [|[k0 v0] m H0 Hm IH]; simpl; [by constructor|].
  destruct (str_compare k k0) eqn:E; auto. apply str_compare_eq in E as ->. auto.
Qed.

Lemma om_insert_elem k v k' v' m :
  (k', v') ∈ om_insert k v m -> (k', v') = (k, v) \/ (k', v') ∈ m.
Proof.
  induction m as [|[k0 v0] m IH]; simpl; [intros ->%list_elem_of_singleton; by left|].
  destruct (str_compare k k0) eqn:E.
  - apply str_compare_eq in E as ->. intros [->|H]%elem_of_cons; [by left|right; by right].
  - intros [->|H]%elem_of_cons; [by left|by right].
  - intros [->|H]%elem_of_cons; [right; by left|]. destruct (IH H); [by left|right; by right].
Qed.

Lemma om_find_list_to_map k m : (list_to_map m : gmap str V) !! k = om_find k m.
Proof.
  induction m as [|[k0 v0] m IH]; simpl; [apply lookup_empty|].
  rewrite lookup_insert. destruct (str_eqb k k0) eqn:E; sbool; case_decide; congruence.
Qed.

Lemma om_insert_wf k v m : om_wf m -> om_wf (om_insert k v m).
Proof.
  induction m as [|[k0 v0] m IH]; simpl; intros H.
  - apply om_wf_cons. split; [done|constructor].
  - pose proof H as H'. apply om_wf_cons in H as [Hm Hlt].
    destruct (str_compare k k0) eqn:E.
    + by apply om_wf_cons.
    + apply om_wf_cons. split; [done|]. constructor; [done|].
      eapply Forall_impl; [exact Hlt|]. intros [k1 v1] H1. by eapply str_lt_trans.
    + apply om_wf_cons. split; [by apply IH|]. apply om_insert_Forall; [|done].
      by apply str_lt_gt.
Qed.

Lemma om_erase_Forall (P : str * V -> Prop) k m : Forall P m -> Forall P (om_erase k m).
Proof.
  induction 1 as [|[k0 v0] m H0 Hm IH]; simpl; [constructor|]. destruct (str_eqb k k0); auto.
Qed.

Lemma om_erase_wf k m : om_wf m -> om_wf (om_erase k m).
Proof.
  induction m as [|[k0 v0] m IH]; simpl; [done|].
  rewrite om_wf_cons. intros [Hm Hlt]. destruct (str_eqb k k0); [done|].
  apply om_wf_cons. auto using om_erase_Forall.
Qed.

Lemma om_find_erase k k' m :
  om_wf m -> om_find k' (om_erase k m) = if str_eqb k' k then None else om_find k' m.
Proof.
  induction m as [|[k0 v0] m IH]; simpl; [by destruct (str_eqb k' k)|].
  rewrite om_wf_cons. intros [Hm Hlt]. destruct (str_eqb k k0) eqn:E; simpl.
  - sbool. subst k0. destruct (str_eqb k' k) eqn:E'; [|done]. sbool. subst k'.
    by apply om_find_lt.
  - rewrite IH by done. destruct (str_eqb k' k0) eqn:E0; [|done].
    sbool. subst k0. destruct (str_eqb k' k) eqn:E1; [|done]. sbool. congruence.
Qed.

(** ** Extensionality *)

Lemma om_ext m1 m2 :
  om_wf m1 -> om_wf m2 -> (forall k, om_find k m1 = om_find k m2) -> m1 = m2.
Proof.
  revert m2. induction m1 as [|[k1 v1] m1 IH]; intros [|[k2 v2] m2]; [done| | |].
  - intros _ _ H. specialize (H k2). simpl in H. by rewrite str_eqb_refl in H.
  - intros _ _ H. specialize (H k1). simpl in H. by rewrite str_eqb_refl in H.
  - rewrite !om_wf_cons. intros [Hw1 Hl1] [Hw2 Hl2] H.
    assert (k1 = k2) as ->.
    { pose proof (H k1) as H1. pose proof (H k2) as H2. simpl in H1, H2.
      rewrite str_eqb_refl in H1, H2.
      destruct (str_eqb k1 k2) eqn:E; [by sbool|].
      destruct (str_eqb k2 k1) eqn:E'; [by sbool|].
      symmetry in H1. pose proof (om_find_Forall _ _ _ _ Hl1 H2) as L1.
      pose proof (om_find_Forall _ _ _ _ Hl2 H1) as L2. simpl in L1, L2.
      exfalso. apply (str_lt_irrefl k1). by eapply str_lt_trans. }
    assert (v1 = v2) as ->.
    { specialize (H k2). simpl in H. rewrite str_eqb_refl in H. congruence. }
    f_equal. apply IH; [done..|]. intros k. specialize (H k). simpl in H.
    destruct (str_eqb k k2) eqn:E; [|done]. sbool. subst k.
    by rewrite !om_find_lt.
Qed.

(** ** Sizes and counts *)

Lemma om_count_cons P k v m :
  om_count P ((k, v) :: m) = (if P v then 1 else 0) + om_count P m.
Proof.
  unfold om_count. rewrite filter_cons. simpl.
  case_decide as H; destruct (P v); try done; by rewrite zlen_cons.
Qed.

Lemma om_count_insert P k v m :
  om_wf m ->
  om_count P (om_insert k v m) =
  om_count P m + (if P v then 1 else 0)
  - (match om_find k m with Some v0 => if P v0 then 1 else 0 | None => 0 end).
Proof.
  induction m as [|[k0 v0] m IH]; intros Hw; [simpl; rewrite om_count_cons; lia|].
  apply om_wf_cons in Hw as [Hw Hlt]. simpl. destruct (str_compare k k0) eqn:E.
  - apply str_compare_eq in E as ->. rewrite str_eqb_refl, !om_count_cons. lia.
  - rewrite !om_count_cons.
    destruct (str_eqb k k0) eqn:E0; [sbool; subst; by rewrite str_compare_refl in E|].
    rewrite om_find_lt; [lia|]. eapply Forall_impl; [exact Hlt|].
    intros [k1 v1] H1. by eapply str_lt_trans.
  - destruct (str_eqb k k0) eqn:E0; [sbool; subst; by rewrite str_compare_refl in E|].
    rewrite !om_count_cons, IH by done. lia.
Qed.

Lemma om_count_nonneg P m : 0 <= om_count P m.
Proof. apply zlen_nonneg. Qed.

Lemma om_insert_nonempty k v m : om_insert k v m <> [].
Proof. destruct m as [|[k' v'] m]; simpl; [done|]. by destruct (str_compare k k'). Qed.

Lemma om_insert_length k v m : zlen (om_insert k v m) <= zlen m + 1.
Proof.
  induction m as [|[k' v'] m IH]; simpl; [done|]. destruct (str_compare k k'); rewrite ?zlen_cons; lia.
Qed.
End ordered_map.
