(* ===== verification/Checksum.v ===== *)
(** * The CRC-32 of the storage formats

    [ChecksumCalculator::crc32] (src/checksum_calculator.cpp), bit by bit as
    the source computes it, and what makes it fit for detecting a damaged
    record: the register update is linear and injective, so a change confined
    to four consecutive bytes always changes the checksum. *)

From S2P Require Import Prelude.

(** ** Definitions *)

Definition kPolynomial : Z := 0xEDB88320.
Definition kAllOnes : Z := 0xFFFFFFFF.

(** One turn of the inner loop. *)
Definition crc_bit (checksum : Z) : Z :=
  let mask := u32 (0 - Z.land checksum 1) in
  Z.lxor (Z.shiftr checksum 1) (Z.land kPolynomial mask).

(** One turn of the outer loop. *)
Definition crc_byte (checksum : Z) (value : byte) : Z :=
  Nat.iter 8 crc_bit (Z.lxor checksum (b2z value)).

Definition crc32 (data : str) : Z :=
  Z.lxor (foldl crc_byte kAllOnes data) kAllOnes.

(** The register before the final complement. *)
Definition crc_state (data : str) : Z := foldl crc_byte kAllOnes data.

(** A run of bytes as the little-endian number it spells. *)
Fixpoint le_word (l : str) : Z :=
  match l with
  | [] => 0
  | b :: l' => Z.lxor (b2z b) (Z.shiftl (le_word l') 8)
  end.

(** ** The bit step *)

Lemma crc_bit_alt c :
  crc_bit c = Z.lxor (Z.shiftr c 1) (if Z.testbit c 0 then kPolynomial else 0).
Proof.
  unfold crc_bit. f_equal. change 1 with (Z.ones 1) at 1. rewrite Z.land_ones by lia.
  change (2 ^ 1) with 2. rewrite <- Z.bit0_mod. by destruct (Z.testbit c 0).
Qed.

Lemma range_testbit n z : 0 <= n -> (0 <= z < 2 ^ n <-> 0 <= z /\ forall i, n <= i -> Z.testbit z i = false).
Proof.
  intros Hn. split.
  - intros [H0 H1]. split; [done|]. intros i Hi.
    destruct (decide (z = 0)) as [->|Hz]; [apply Z.bits_0|].
    apply Z.bits_above_log2; [done|]. apply Z.log2_lt_pow2; [lia|].
    eapply Z.lt_le_trans; [done|]. by apply Z.pow_le_mono_r.
  - intros [H0 H1]. split; [done|]. destruct (decide (z = 0)) as [->|Hz]; [lia|].
    apply Z.log2_lt_pow2; [lia|]. destruct (Z.lt_ge_cases (Z.log2 z) n) as [|Hge]; [done|].
    specialize (H1 _ Hge). rewrite Z.bit_log2 in H1; [done|lia].
Qed.

Lemma lxor_range n a b : 0 <= n -> 0 <= a < 2 ^ n -> 0 <= b < 2 ^ n -> 0 <= Z.lxor a b < 2 ^ n.
Proof.
  intros Hn Ha Hb. apply range_testbit in Ha as [Ha0 Ha], Hb as [Hb0 Hb]; [|done..].
  apply range_testbit; [done|]. split; [by apply Z.lxor_nonneg|].
  intros i Hi. by rewrite Z.lxor_spec, Ha, Hb.
Qed.

Lemma crc_bit_range c : 0 <= c < 2 ^ 32 -> 0 <= crc_bit c < 2 ^ 32.
Proof.
  intros Hc. rewrite crc_bit_alt. apply lxor_range; [lia| |].
  - rewrite Z.shiftr_div_pow2 by lia. split; [apply Z.div_pos; lia|].
    apply Z.div_lt_upper_bound; lia.
  - unfold kPolynomial. destruct (Z.testbit c 0); lia.
Qed.

(** Bit 31 of the register after a step is the bit that was shifted out: the
    step loses nothing. *)
Lemma crc_bit_top c : 0 <= c < 2 ^ 32 -> Z.testbit (crc_bit c) 31 = Z.testbit c 0.
Proof.
  intros Hc. rewrite crc_bit_alt, Z.lxor_spec, Z.shiftr_spec by lia.
  apply range_testbit in Hc as [_ Hc]; [|lia]. rewrite Hc by lia.
  by destruct (Z.testbit c 0).
Qed.

Lemma crc_bit_inj c d :
  0 <= c < 2 ^ 32 -> 0 <= d < 2 ^ 32 -> crc_bit c = crc_bit d -> c = d.
Proof.
  intros Hc Hd E.
  assert (Hb : Z.testbit c 0 = Z.testbit d 0) by (rewrite <- !crc_bit_top by done; by rewrite E).
  assert (Hs : Z.shiftr c 1 = Z.shiftr d 1).
  { rewrite !crc_bit_alt, Hb in E.
    apply (f_equal (fun z => Z.lxor z (if Z.testbit d 0 then kPolynomial else 0))) in E.
    by rewrite !Z.lxor_assoc, !Z.lxor_nilpotent, !Z.lxor_0_r in E. }
  apply Z.bits_inj'. intros i Hi. destruct (decide (i = 0)) as [->|Hi0]; [done|].
  apply (f_equal (fun z => Z.testbit z (i - 1))) in Hs.
  rewrite !Z.shiftr_spec in Hs by lia. by replace (i - 1 + 1) with i in Hs by lia.
Qed.

Lemma crc_bit_linear a b : crc_bit (Z.lxor a b) = Z.lxor (crc_bit a) (crc_bit b).
Proof.
  rewrite !crc_bit_alt, Z.lxor_spec, Z.shiftr_lxor.
  apply Z.bits_inj'. intros i Hi. rewrite !Z.lxor_spec.
  destruct (Z.testbit a 0), (Z.testbit b 0); simpl;
    rewrite ?Z.bits_0, ?Z.lxor_0_r;
    destruct (Z.testbit (Z.shiftr a 1) i), (Z.testbit (Z.shiftr b 1) i),
      (Z.testbit kPolynomial i); done.
Qed.

(** ** Runs of bit steps *)

Lemma crc_iter_range n c : 0 <= c < 2 ^ 32 -> 0 <= Nat.iter n crc_bit c < 2 ^ 32.
Proof. intros Hc. induction n as [|n IH]; simpl; [done|]. by apply crc_bit_range. Qed.

Lemma crc_iter_inj n c d :
  0 <= c < 2 ^ 32 -> 0 <= d < 2 ^ 32 ->
  Nat.iter n crc_bit c = Nat.iter n crc_bit d -> c = d.
Proof.
  intros Hc Hd. induction n as [|n IH]; simpl; [done|].
  intros E. apply IH. apply crc_bit_inj; auto using crc_iter_range.
Qed.

Lemma crc_iter_linear n a b :
  Nat.iter n crc_bit (Z.lxor a b) = Z.lxor (Nat.iter n crc_bit a) (Nat.iter n crc_bit b).
Proof. induction n as [|n IH]; simpl; [done|]. by rewrite IH, crc_bit_linear. Qed.

(** A register whose low bits are zero is only shifted. *)
Lemma crc_iter_shift n z : Nat.iter n crc_bit (Z.shiftl z (Z.of_nat n)) = z.
Proof.
  revert z. induction n as [|n IH]; intros z; [by rewrite Z.shiftl_0_r|].
  rewrite Nat.iter_succ_r.
  assert (H : crc_bit (Z.shiftl z (Z.of_nat (S n))) = Z.shiftl z (Z.of_nat n)).
  { rewrite crc_bit_alt. rewrite Z.shiftl_spec_low by lia. rewrite Z.lxor_0_r.
    rewrite Z.shiftr_shiftl_l by lia. f_equal. lia. }
  rewrite H. apply IH.
Qed.

Lemma crc_byte_range c b : 0 <= c < 2 ^ 32 -> 0 <= crc_byte c b < 2 ^ 32.
Proof.
  intros Hc. unfold crc_byte. apply crc_iter_range. apply lxor_range; [lia|done|].
  pose proof (b2z_range b). lia.
Qed.

Lemma crc_fold_range l c : 0 <= c < 2 ^ 32 -> 0 <= foldl crc_byte c l < 2 ^ 32.
Proof.
  revert c. induction l as [|b l IH]; intros c Hc; simpl; [done|]. by apply IH, crc_byte_range.
Qed.

Lemma crc_fold_inj l c d :
  0 <= c < 2 ^ 32 -> 0 <= d < 2 ^ 32 ->
  foldl crc_byte c l = foldl crc_byte d l -> c = d.
Proof.
  revert c d. induction l as [|b l IH]; intros c d Hc Hd; simpl; [done|].
  intros E. apply IH in E; [|by apply crc_byte_range..]. unfold crc_byte in E.
  pose proof (b2z_range b) as Hb.
  apply crc_iter_inj in E; [|apply lxor_range; lia..].
  apply (f_equal (fun z => Z.lxor z (b2z b))) in E.
  by rewrite !Z.lxor_assoc, !Z.lxor_nilpotent, !Z.lxor_0_r in E.
Qed.

(** A run of bytes enters the register as one little-endian word. *)
Lemma crc_fold_word l c :
  foldl crc_byte c l = Nat.iter (8 * length l) crc_bit (Z.lxor c (le_word l)).
Proof.
  revert c. induction l as [|b l IH]; intros c; [simpl; by rewrite Z.lxor_0_r|].
  simpl foldl. rewrite IH. unfold crc_byte at 1.
  replace (8 * length (b :: l))%nat with (8 * length l + 8)%nat by (simpl; lia).
  rewrite Nat.iter_add. f_equal.
  simpl le_word. rewrite <- (Z.lxor_assoc c), (crc_iter_linear 8 (Z.lxor c (b2z b))).
  f_equal. symmetry. exact (crc_iter_shift 8 (le_word l)).
Qed.

(** ** Little-endian words *)

Lemma le_word_range l n : (length l <= n)%nat -> 0 <= le_word l < 2 ^ (8 * Z.of_nat n).
Proof.
  revert n. induction l as [|b l IH]; intros n Hn; simpl.
  - split; [lia|]. apply Z.pow_pos_nonneg; lia.
  - simpl in Hn. destruct n as [|n]; [lia|]. apply lxor_range; [lia| |].
    + pose proof (b2z_range b). split; [lia|]. eapply Z.lt_le_trans; [apply H|].
      change 256 with (2 ^ 8). apply Z.pow_le_mono_r; lia.
    + rewrite Z.shiftl_mul_pow2 by lia. destruct (IH n) as [H0 H1]; [lia|].
      replace (8 * Z.of_nat (S n)) with (8 * Z.of_nat n + 8) by lia.
      rewrite Z.pow_add_r by lia. nia.
Qed.

Lemma le_word_cons_low b l : Z.land (le_word (b :: l)) 255 = b2z b.
Proof.
  change 255 with (Z.ones 8). apply Z.bits_inj'. intros i Hi. simpl.
  rewrite Z.land_spec, Z.lxor_spec. pose proof (b2z_range b) as Hb.
  apply (range_testbit 8) in Hb as [_ Hb]; [|lia].
  destruct (Z.lt_ge_cases i 8) as [Hlt|Hge].
  - rewrite Z.ones_spec_low by lia. rewrite Z.shiftl_spec_low by lia.
    by destruct (Z.testbit (b2z b) i).
  - rewrite Z.ones_spec_high by lia. rewrite Hb by lia. by destruct (Z.testbit (Z.shiftl _ 8) i).
Qed.

Lemma le_word_inj l k : length l = length k -> le_word l = le_word k -> l = k.
Proof.
  revert k. induction l as [|b l IH]; intros [|c k] Hlen; try done. intros E.
  assert (b = c) as ->.
  { apply b2z_inj. rewrite <- (le_word_cons_low b l), <- (le_word_cons_low c k). by rewrite E. }
  f_equal. apply IH; [simpl in Hlen; lia|]. simpl in E.
  apply (f_equal (Z.lxor (b2z c))) in E.
  rewrite <- !Z.lxor_assoc, !Z.lxor_nilpotent, !Z.lxor_0_l in E.
  apply (f_equal (fun z => Z.shiftr z 8)) in E.
  by rewrite !Z.shiftr_shiftl_l, !Z.shiftl_0_r in E by lia.
Qed.

(** ** The checksum *)

Lemma crc_state_range data : 0 <= crc_state data < 2 ^ 32.
Proof. apply crc_fold_range. unfold kAllOnes. lia. Qed.

Lemma crc32_range data : 0 <= crc32 data < 2 ^ 32.
Proof.
  apply lxor_range; [lia|apply crc_state_range|unfold kAllOnes; lia].
Qed.
#[export] Hint Resolve crc32_range : nebula.

Lemma crc32_is_u32 data : is_u32 (crc32 data).
Proof. unfold is_u32, u32_max. pose proof (crc32_range data). lia. Qed.
#[export] Hint Resolve crc32_is_u32 : nebula.

Lemma crc32_state_inj d1 d2 : crc32 d1 = crc32 d2 -> crc_state d1 = crc_state d2.
Proof.
  intros E. apply (f_equal (fun z => Z.lxor z kAllOnes)) in E. unfold crc32 in E.
  by rewrite !Z.lxor_assoc, !Z.lxor_nilpotent, !Z.lxor_0_r in E.
Qed.

Lemma crc32_burst p x y s :
  length x = length y -> (length x <= 4)%nat ->
  crc32 (p ++ x ++ s) = crc32 (p ++ y ++ s) -> x = y.
Proof.
  intros Hlen H4 E%crc32_state_inj. unfold crc_state in E. rewrite !foldl_app in E.
  assert (Hp : 0 <= foldl crc_byte kAllOnes p < 2 ^ 32)
    by (apply crc_fold_range; unfold kAllOnes; lia).
  apply crc_fold_inj in E; [|by apply crc_fold_range..].
  revert Hp E. generalize (foldl crc_byte kAllOnes p) as c. intros c Hc E.
  rewrite !crc_fold_word, <- Hlen in E.
  pose proof (le_word_range x 4 ltac:(lia)) as Hx. pose proof (le_word_range y 4 ltac:(lia)) as Hy.
  change (8 * Z.of_nat 4) with 32 in Hx, Hy.
  apply crc_iter_inj in E; [|apply lxor_range; lia..].
  apply (f_equal (Z.lxor c)) in E.
  rewrite <- !Z.lxor_assoc, !Z.lxor_nilpotent, !Z.lxor_0_l in E. by apply le_word_inj.
Qed.

(** The published check value of CRC-32, on the digits 1 to 9. *)
Example crc32_check_value : crc32 (bytes_of "123456789") = 0xCBF43926.
Proof. vm_compute. reflexivity. Qed.
