(* ===== verification/Codec.v ===== *)
(** * Little-endian fields and decoders

    The byte-level vocabulary the four binary formats share: the loop that
    pushes the bytes of an unsigned field, the loop that reads it back, spans,
    and the cursor-driven [Decoder] class that src/manifest.cpp and
    src/raft/serialization.hpp each declare.  A decoder is a monad over the
    cursor; [decodes p bs a] says that [p] consumes exactly [bs] and yields
    [a], and composes along the monad. *)

From S2P Require Import Prelude.

(** ** Fields *)

(** [static_cast<std::byte>((value >> shift) & 0xFFU)] *)
Definition byte_at (value shift : Z) : byte := z2b (Z.land (Z.shiftr value shift) 0xFF).

(** [for (shift = 0; shift < 8 * n; shift += 8) push_back(...)] *)
Definition le_bytes (n : nat) (value : Z) : str :=
  map (fun i => byte_at value (8 * Z.of_nat i)) (seq 0 n).

(** [value |= byte << shift], for the bytes in turn. *)
Fixpoint le_read (bs : str) (shift value : Z) : Z :=
  match bs with
  | [] => value
  | b :: bs' => le_read bs' (shift + 8) (Z.lor value (Z.shiftl (b2z b) shift))
  end.

(** The number a little-endian run of bytes spells. *)
Fixpoint le_val (bs : str) : Z :=
  match bs with
  | [] => 0
  | b :: bs' => b2z b + 256 * le_val bs'
  end.

(** [bytes.subspan(off, n)] *)
Definition subspan (bs : str) (off n : Z) : str := take (Z.to_nat n) (drop (Z.to_nat off) bs).

(** ** Decoders *)

Record Decoder := mkDecoder { dec_bytes : str; dec_offset : Z }.

Definition dec (A : Type) : Type := Decoder -> result (A * Decoder).

#[export] Instance dec_ret : MRet dec := fun A a d => Ok (a, d).
#[export] Instance dec_bind : MBind dec :=
  fun A B f p d => match p d with Ok (a, d') => f a d' | Throw e => Throw e end.

Definition dec_throw_if (b : bool) (e : exn) : dec unit :=
  fun d => if b then Throw e else Ok (tt, d).

(** [require(count)] *)
Definition dec_require (e : exn) (count : Z) : dec unit :=
  fun d =>
    if Z.gtb count (u64 (zlen (dec_bytes d) - dec_offset d)) then Throw e else Ok (tt, d).

(** The bytes under the cursor, which then moves past them. *)
Definition dec_take (count : Z) : dec str :=
  fun d => Ok (subspan (dec_bytes d) (dec_offset d) count,
               mkDecoder (dec_bytes d) (dec_offset d + count)).

Definition dec_uint (e : exn) (n : nat) : dec Z :=
  _ ← dec_require e (Z.of_nat n);
  bs ← dec_take (Z.of_nat n);
  mret (le_read bs 0 0).

Definition dec_string (e : exn) (size : Z) : dec str :=
  _ ← dec_require e size;
  dec_take size.

Definition dec_at_end : dec bool :=
  fun d => Ok (dec_offset d =? zlen (dec_bytes d), d).

(** The cursor of [d] stands before [rest], the end of its bytes. *)
Definition dec_at (d : Decoder) (rest : str) : Prop :=
  exists pre, dec_bytes d = pre ++ rest /\ dec_offset d = zlen pre /\ zlen (dec_bytes d) <= u64_max.

Definition decodes {A} (p : dec A) (bs : str) (a : A) : Prop :=
  forall d rest, dec_at d (bs ++ rest) -> exists d', p d = Ok (a, d') /\ dec_at d' rest.

(** ** Fields: reading back what was written *)

Lemma le_bytes_length n v : length (le_bytes n v) = n.
Proof. unfold le_bytes. by rewrite length_map, length_seq. Qed.

Lemma le_bytes_zlen n v : zlen (le_bytes n v) = Z.of_nat n.
Proof. unfold zlen. by rewrite le_bytes_length. Qed.

Lemma byte_at_mod v s : 0 <= s -> b2z (byte_at v s) = (v / 2 ^ s) mod 256.
Proof.
  intros Hs. unfold byte_at. rewrite b2z_z2b. change 0xFF with (Z.ones 8).
  rewrite Z.land_ones by lia. rewrite Z.shiftr_div_pow2 by lia.
  change (2 ^ 8) with 256. by rewrite Z.mod_mod by lia.
Qed.

Lemma le_bytes_S n v : le_bytes (S n) v = z2b v :: le_bytes n (v / 256).
Proof.
  unfold le_bytes. simpl. f_equal.
  - apply b2z_inj. rewrite byte_at_mod, b2z_z2b by lia. simpl. by rewrite Z.div_1_r.
  - rewrite <- seq_shift, map_map. apply map_ext. intros i. apply b2z_inj.
    rewrite !byte_at_mod by lia. f_equal. rewrite Z.div_div by lia. f_equal.
    change 256 with (2 ^ 8). rewrite <- Z.pow_add_r by lia. f_equal. lia.
Qed.

Lemma le_val_range bs : 0 <= le_val bs < 256 ^ zlen bs.
Proof.
  induction bs as [|b bs IH]; simpl; [done|]. rewrite zlen_cons.
  pose proof (b2z_range b). pose proof (zlen_nonneg bs).
  rewrite Z.pow_add_r by lia. lia.
Qed.

Lemma le_val_bytes n v : le_val (le_bytes n v) = v mod 256 ^ Z.of_nat n.
Proof.
  revert v. induction n as [|n IH]; intros v; [by rewrite Z.mod_1_r|].
  rewrite le_bytes_S. simpl le_val. rewrite IH, b2z_z2b.
  rewrite Nat2Z.inj_succ, Z.pow_succ_r by lia.
  rewrite Z.rem_mul_r by lia. lia.
Qed.

Lemma le_bytes_val bs : le_bytes (length bs) (le_val bs) = bs.
Proof.
  induction bs as [|b bs IH]; simpl length; [done|]. rewrite le_bytes_S. simpl le_val.
  pose proof (b2z_range b) as Hb. f_equal.
  - apply b2z_inj. rewrite b2z_z2b. rewrite Z.mul_comm, Z.mod_add by lia.
    apply Z.mod_small. lia.
  - rewrite Z.mul_comm, Z.div_add by lia. by rewrite Z.div_small by lia.
Qed.

Lemma lor_add_disjoint a b s :
  0 <= s -> 0 <= a < 2 ^ s -> Z.lor a (Z.shiftl b s) = a + b * 2 ^ s.
Proof.
  intros Hs Ha. rewrite <- Z.shiftl_mul_pow2 by lia.
  assert (H : Z.land a (Z.shiftl b s) = 0); [|by rewrite Z.add_nocarry_lxor, Z.lxor_lor].
  apply Z.bits_inj'. intros i Hi. rewrite Z.land_spec, Z.bits_0.
  destruct (Z.lt_ge_cases i s) as [Hlt|Hge].
  - by rewrite Z.shiftl_spec_low, andb_false_r.
  - destruct (decide (a = 0)) as [->|]; [by rewrite Z.bits_0|].
    rewrite (Z.bits_above_log2 a); [done|lia|]. eapply Z.lt_le_trans; [|exact Hge].
    apply Z.log2_lt_pow2; lia.
Qed.

Lemma le_read_val bs s v :
  0 <= s -> 0 <= v < 2 ^ s -> le_read bs s v = v + 2 ^ s * le_val bs.
Proof.
  revert s v. induction bs as [|b bs IH]; intros s v Hs Hv; simpl; [lia|].
  pose proof (b2z_range b) as Hb. rewrite lor_add_disjoint by lia.
  rewrite IH; [rewrite Z.pow_add_r by lia; lia|lia|].
  rewrite Z.pow_add_r by lia. nia.
Qed.

Lemma le_read_0 bs : le_read bs 0 0 = le_val bs.
Proof. rewrite le_read_val by lia. lia. Qed.

Lemma le_read_bytes n v : 0 <= v < 256 ^ Z.of_nat n -> le_read (le_bytes n v) 0 0 = v.
Proof. intros Hv. rewrite le_read_0, le_val_bytes. by apply Z.mod_small. Qed.

Lemma u32_field v : is_u32 v -> 0 <= v < 256 ^ Z.of_nat 4.
Proof. unfold is_u32, u32_max. simpl. lia. Qed.
Lemma u64_field v : is_u64 v -> 0 <= v < 256 ^ Z.of_nat 8.
Proof. unfold is_u64, u64_max. simpl. lia. Qed.
#[export] Hint Resolve u32_field u64_field : nebula.

(** ** Spans *)

Lemma subspan_app pre mid rest off n :
  off = zlen pre -> n = zlen mid -> subspan (pre ++ mid ++ rest) off n = mid.
Proof.
  intros -> ->. unfold subspan. rewrite !to_nat_zlen, drop_app_length. apply take_app_length.
Qed.

Lemma subspan_zlen bs off n :
  0 <= off -> 0 <= n -> off + n <= zlen bs -> zlen (subspan bs off n) = n.
Proof.
  intros H0 H1 H2. unfold subspan, zlen in *. rewrite length_take, length_drop. lia.
Qed.

(** ** Decoders: composition *)

Lemma dec_at_start bs rest : zlen (bs ++ rest) <= u64_max -> dec_at (mkDecoder (bs ++ rest) 0) (bs ++ rest).
Proof. intros H. by exists []. Qed.

Lemma decodes_ret {A} (a : A) : decodes (mret a) [] a.
Proof. intros d rest H. by exists d. Qed.

Lemma decodes_bind {A B} (p : dec A) (f : A -> dec B) bs1 bs2 a b :
  decodes p bs1 a -> decodes (f a) bs2 b -> decodes (p ≫= f) (bs1 ++ bs2) b.
Proof.
  intros Hp Hf d rest Hd. rewrite <- app_assoc in Hd.
  destruct (Hp d _ Hd) as (d' & Hd1 & Hd2). destruct (Hf d' _ Hd2) as (d'' & He1 & He2).
  exists d''. split; [|done]. unfold mbind, dec_bind. by rewrite Hd1.
Qed.

(** A step that consumes nothing. *)
Lemma decodes_bind_nil {A B} (p : dec A) (f : A -> dec B) bs a b :
  decodes p [] a -> decodes (f a) bs b -> decodes (p ≫= f) bs b.
Proof. apply (decodes_bind p f [] bs a b). Qed.

(** The last step. *)
Lemma decodes_bind_last {A B} (p : dec A) (f : A -> dec B) bs a b :
  decodes p bs a -> decodes (f a) [] b -> decodes (p ≫= f) bs b.
Proof. intros Hp Hf. rewrite <- (app_nil_r bs). by eapply decodes_bind. Qed.

Lemma decodes_throw_if b e : b = false -> decodes (dec_throw_if b e) [] tt.
Proof. intros -> d rest H. by exists d. Qed.

Lemma dec_require_ok e n d bs rest :
  dec_at d (bs ++ rest) -> n = zlen bs -> dec_require e n d = Ok (tt, d).
Proof.
  intros (pre & Hb & Ho & Hmax) ->. unfold dec_require.
  rewrite Z.gtb_ltb. rewrite (proj2 (Z.ltb_ge _ _)); [done|].
  rewrite Ho, Hb in *. rewrite !zlen_app in *. unfold u64, u64_max in *.
  pose proof (zlen_nonneg pre). pose proof (zlen_nonneg bs). pose proof (zlen_nonneg rest).
  rewrite Z.mod_small by lia. lia.
Qed.

Lemma decodes_take n bs : n = zlen bs -> decodes (dec_take n) bs bs.
Proof.
  intros -> d rest (pre & Hb & Ho & Hmax). rewrite Hb in Hmax. eexists. split.
  - unfold dec_take. rewrite Hb, Ho, subspan_app; done.
  - exists (pre ++ bs). simpl. rewrite <- app_assoc, (zlen_app pre). done.
Qed.

Lemma decodes_string e n bs : n = zlen bs -> decodes (dec_string e n) bs bs.
Proof.
  intros Hn d rest Hd. destruct (decodes_take n bs Hn d rest Hd) as (d' & H1 & H2).
  exists d'. split; [|done]. unfold dec_string, mbind, dec_bind.
  by rewrite (dec_require_ok _ _ _ _ _ Hd Hn).
Qed.

Lemma decodes_uint e n v :
  0 <= v < 256 ^ Z.of_nat n -> decodes (dec_uint e n) (le_bytes n v) v.
Proof.
  intros Hv d rest Hd.
  assert (Hn : Z.of_nat n = zlen (le_bytes n v)) by by rewrite le_bytes_zlen.
  destruct (decodes_take _ _ Hn d rest Hd) as (d' & H1 & H2).
  exists d'. split; [|done]. unfold dec_uint, mbind, dec_bind.
  rewrite (dec_require_ok _ _ _ _ _ Hd Hn), H1. unfold mret, dec_ret. by rewrite le_read_bytes.
Qed.

(** A whole input decoded, the cursor at its end. *)
Lemma decodes_run {A} (p : dec A) bs a :
  zlen bs <= u64_max -> decodes p bs a ->
  exists d, p (mkDecoder bs 0) = Ok (a, d) /\ dec_offset d = zlen (dec_bytes d).
Proof.
  intros Hmax Hp. destruct (Hp (mkDecoder bs 0) []) as (d & H1 & (pre & H2 & H3 & _)).
  - rewrite app_nil_r. by exists [].
  - exists d. split; [done|]. by rewrite H2, H3, app_nil_r.
Qed.

(** ** What a decoder that returns has consumed *)

Lemma dec_take_inv n d all bs d' :
  dec_at d all -> 0 <= n <= zlen all -> dec_take n d = Ok (bs, d') ->
  exists rest, all = bs ++ rest /\ zlen bs = n /\ dec_at d' rest.
Proof.
  intros (pre & Hb & Ho & Hmax) Hn [= <- <-]. unfold subspan. rewrite Hb, Ho, to_nat_zlen, drop_app_length.
  exists (drop (Z.to_nat n) all). rewrite take_drop. split; [done|].
  assert (Hl : zlen (take (Z.to_nat n) all) = n) by (unfold zlen in *; rewrite length_take; lia).
  split; [done|]. exists (pre ++ take (Z.to_nat n) all). simpl.
  rewrite <- app_assoc, take_drop, zlen_app, Hl. split_and!; [done|lia|by rewrite <- Hb].
Qed.

Lemma dec_require_inv e n d all d' u :
  dec_at d all -> 0 <= n -> dec_require e n d = Ok (u, d') -> d' = d /\ 0 <= n <= zlen all.
Proof.
  intros (pre & Hb & Ho & Hmax) Hn. unfold dec_require. break_if; [done|]. intros [= _ ->]. zbool.
  rewrite Ho, Hb in *. rewrite !zlen_app in *. pose proof (zlen_nonneg pre). pose proof (zlen_nonneg all).
  rewrite u64_small in Heqb by lia. split; [done|lia].
Qed.

Lemma dec_bind_inv {A B} (p : dec A) (f : A -> dec B) d b d' :
  (p ≫= f) d = Ok (b, d') -> exists a d1, p d = Ok (a, d1) /\ f a d1 = Ok (b, d').
Proof. unfold mbind, dec_bind. destruct (p d) as [[a d1]|]; [eauto|done]. Qed.

Lemma dec_string_inv {e} n d all bs d' :
  dec_at d all -> 0 <= n -> dec_string e n d = Ok (bs, d') ->
  exists rest, all = bs ++ rest /\ zlen bs = n /\ dec_at d' rest.
Proof.
  intros Hd Hn ([] & d1 & H1 & H2)%dec_bind_inv.
  destruct (dec_require_inv _ _ _ _ _ _ Hd Hn H1) as [-> Hl]. by eapply dec_take_inv.
Qed.

Lemma dec_uint_inv {e} n d all v d' :
  dec_at d all -> dec_uint e n d = Ok (v, d') ->
  exists rest, all = le_bytes n v ++ rest /\ 0 <= v < 256 ^ Z.of_nat n /\ dec_at d' rest.
Proof.
  intros Hd ([] & d1 & H1 & (bs & d2 & H2 & H3)%dec_bind_inv)%dec_bind_inv.
  destruct (dec_require_inv _ _ _ _ _ _ Hd (Nat2Z.is_nonneg n) H1) as [-> Hl].
  destruct (dec_take_inv _ _ _ _ _ Hd Hl H2) as (rest & -> & Hz & Hd2). injection H3 as <- <-.
  exists rest. rewrite le_read_0. pose proof (le_val_range bs) as Hr. rewrite Hz in Hr. split_and!; [|lia..|done].
  f_equal. rewrite <- (le_bytes_val bs) at 1. f_equal. unfold zlen in Hz. lia.
Qed.

Lemma dec_throw_if_inv b e d u d' : dec_throw_if b e d = Ok (u, d') -> b = false /\ d' = d.
Proof. unfold dec_throw_if. destruct b; [done|]. by intros [= _ ->]. Qed.

Lemma dec_at_end_ok d : dec_at d [] -> dec_at_end d = Ok (true, d).
Proof.
  intros (pre & Hb & Ho & _). unfold dec_at_end. rewrite Hb, Ho, app_nil_r. by rewrite Z.eqb_refl.
Qed.

Lemma dec_at_end_inv d all : dec_at d all -> dec_at_end d = Ok (true, d) -> all = [].
Proof.
  intros (pre & Hb & Ho & _) [= H%Z.eqb_eq]. rewrite Ho, Hb, zlen_app in H. apply zlen_0. lia.
Qed.
