(* ===== verification/Posix.v ===== *)
(** * Files as the source uses them

    The kernel is not part of the program: a descriptor carries a script, the
    list of outcomes its next system calls will have.  [Interrupted] is a call
    that fails with EINTR, [Failed e] one that fails with another errno,
    [Done k] a call that succeeds having moved at most [k] bytes; when the
    script is used up every call succeeds in full.  On top of it stand the
    loops of the source: [write_all], the fsync and ftruncate retries, and
    [read_exact].  A file has the contents the process sees and the contents
    that survive a crash. *)

From S2P Require Import Prelude.

Inductive io_event :=
| Interrupted
| Failed (errno : Z)
| Done (count : Z).

#[export] Instance io_event_eq_dec : EqDecision io_event.
Proof. solve_decision. Defined.

(** An append-only descriptor: what the process has written, what has been
    made durable by fsync, and the outcomes of the calls to come. *)
Record WFile := mkWFile {
  f_data : str;
  f_durable : str;
  f_script : list io_event
}.

(** ** Writing *)

(** [while (written < bytes.size()) { ::write(...) ... }]: structural on the
    script, since each turn of the loop makes one call.  [on_error] and
    [on_zero] are the exceptions of the caller's copy of the loop; with
    [on_zero = None] a call that returns 0 is retried. *)
Fixpoint write_loop (on_error : Z -> exn) (on_zero : option exn)
    (script : list io_event) (bytes data : str) : result unit * str * list io_event :=
  match bytes with
  | [] => (Ok tt, data, script)
  | _ =>
      match script with
      | [] => (Ok tt, data ++ bytes, [])
      | Interrupted :: s => write_loop on_error on_zero s bytes data
      | Failed e :: s => (Throw (on_error e), data, s)
      | Done k :: s =>
          if k <=? 0 then
            match on_zero with
            | Some z => (Throw z, data, s)
            | None => write_loop on_error on_zero s bytes data
            end
          else write_loop on_error on_zero s (drop (Z.to_nat k) bytes)
                 (data ++ take (Z.to_nat k) bytes)
      end
  end.

Definition posix_write_all (on_error : Z -> exn) (on_zero : option exn) (bytes : str)
    : stm WFile unit :=
  fun f =>
    match write_loop on_error on_zero (f_script f) bytes (f_data f) with
    | (r, data, s) => (r, mkWFile data (f_durable f) s)
    end.

(** A call retried while it is interrupted: fsync and ftruncate. *)
Fixpoint retry_loop (on_error : Z -> exn) (script : list io_event)
    : result unit * list io_event :=
  match script with
  | [] => (Ok tt, [])
  | Interrupted :: s => retry_loop on_error s
  | Failed e :: s => (Throw (on_error e), s)
  | Done _ :: s => (Ok tt, s)
  end.

Definition posix_fsync (on_error : Z -> exn) : stm WFile unit :=
  fun f =>
    match retry_loop on_error (f_script f) with
    | (Ok _, s) => (Ok tt, mkWFile (f_data f) (f_data f) s)
    | (Throw e, s) => (Throw e, mkWFile (f_data f) (f_durable f) s)
    end.

(** [::ftruncate(fd, 0)] *)
Definition posix_truncate (on_error : Z -> exn) : stm WFile unit :=
  fun f =>
    match retry_loop on_error (f_script f) with
    | (Ok _, s) => (Ok tt, mkWFile [] (f_durable f) s)
    | (Throw e, s) => (Throw e, mkWFile (f_data f) (f_durable f) s)
    end.

(** ** Reading *)

(** A descriptor opened for reading: the bytes after its offset. *)
Record RFile := mkRFile { r_rest : str; r_script : list io_event }.

(** [read_exact] of src/wal_reader.cpp, with [acc] the bytes read so far and
    the flag [io_error].  A read of a regular file returns 0 only at its end,
    so [Done k] moves at least one byte. *)
Fixpoint read_loop (script : list io_event) (want : nat) (rest acc : str)
    : str * bool * RFile :=
  match want with
  | O => (acc, false, mkRFile rest script)
  | S _ =>
      match script with
      | [] => (acc ++ take want rest, false, mkRFile (drop want rest) [])
      | Interrupted :: s => read_loop s want rest acc
      | Failed e :: s => (acc, true, mkRFile rest s)
      | Done k :: s =>
          match rest with
          | [] => (acc, false, mkRFile rest s)
          | _ =>
              let n := Nat.min want (Nat.max 1 (Z.to_nat k)) in
              read_loop s (want - length (take n rest)) (drop n rest) (acc ++ take n rest)
          end
      end
  end.

Definition read_exact (want : Z) (f : RFile) : str * bool * RFile :=
  read_loop (r_script f) (Z.to_nat want) (r_rest f) [].

(** No call of the script fails for good. *)
Definition calm (script : list io_event) : bool :=
  forallb (fun e => match e with Failed _ => false | _ => true end) script.

(** No call of the script fails for good or returns 0. *)
Definition calm_write (script : list io_event) : bool :=
  forallb (fun e => match e with Failed _ => false | Done k => 0 <? k | Interrupted => true end)
    script.

(** ** What the loops guarantee *)

Section writing.
Context (on_error : Z -> exn) (on_zero : option exn).

(** However the kernel splits the call, success means every byte was appended
    in order, and failure leaves a prefix of them. *)
Lemma write_loop_spec script bytes data r data' s :
  write_loop on_error on_zero script bytes data = (r, data', s) ->
  exists n, data' = data ++ take n bytes /\ (r = Ok tt -> data' = data ++ bytes).
Proof.
  revert bytes data. induction script as [|e script IH]; intros bytes data H.
  - exists (length bytes). rewrite take_ge by lia.
    destruct bytes; simpl in H; simplify_eq; by rewrite ?app_nil_r.
  - destruct bytes as [|b bytes]; simpl in H.
    { simplify_eq. exists 0%nat. by rewrite !app_nil_r. }
    destruct e as [|e|k]; [by apply IH| |].
    { simplify_eq. exists 0%nat. simpl. rewrite app_nil_r. split; [done|]. discriminate. }
    destruct (k <=? 0) eqn:Hk; zbool.
    { destruct on_zero; [|by apply IH]. simplify_eq. exists 0%nat. simpl.
      rewrite app_nil_r. split; [done|]. discriminate. }
    apply IH in H as (n & Hn & Hok).
    exists (Z.to_nat k + n)%nat. split.
    + rewrite Hn, <- app_assoc. f_equal. by rewrite take_take_drop.
    + intros Hr. rewrite Hok by done. rewrite <- app_assoc. by rewrite take_drop.
Qed.

Lemma write_loop_calm script bytes data :
  calm_write script = true ->
  exists s, write_loop on_error on_zero script bytes data = (Ok tt, data ++ bytes, s)
            /\ calm_write s = true.
Proof.
  revert bytes data. induction script as [|e script IH]; intros bytes data Hc.
  - exists []. destruct bytes; simpl; by rewrite ?app_nil_r.
  - destruct bytes as [|b bytes]; [exists (e :: script); simpl; by rewrite app_nil_r|].
    simpl in Hc. apply andb_true_iff in Hc as [He Hc]. destruct e as [|e|k]; simpl; [by apply IH|done|].
    zbool. rewrite (proj2 (Z.leb_gt k 0)) by lia.
    destruct (IH (drop (Z.to_nat k) (b :: bytes)) (data ++ take (Z.to_nat k) (b :: bytes)) Hc)
      as (s & Hs & Hcs).
    exists s. split; [|done]. rewrite Hs. by rewrite <- app_assoc, take_drop.
Qed.

Lemma posix_write_all_spec bytes f r f' :
  posix_write_all on_error on_zero bytes f = (r, f') ->
  f_durable f' = f_durable f /\
  (exists n, f_data f' = f_data f ++ take n bytes) /\
  (r = Ok tt -> f_data f' = f_data f ++ bytes).
Proof.
  unfold posix_write_all.
  destruct (write_loop _ _ _ _ _) as [[r0 d0] s0] eqn:E. intros H; simplify_eq; simpl.
  apply write_loop_spec in E as (n & H1 & H2). eauto.
Qed.

Lemma posix_write_all_calm bytes f :
  calm_write (f_script f) = true ->
  exists s, posix_write_all on_error on_zero bytes f
            = (Ok tt, mkWFile (f_data f ++ bytes) (f_durable f) s) /\ calm_write s = true.
Proof.
  intros Hc. destruct (write_loop_calm (f_script f) bytes (f_data f) Hc) as (s & Hs & Hcs).
  exists s. split; [|done]. unfold posix_write_all. by rewrite Hs.
Qed.
End writing.

Section syncing.
Context (on_error : Z -> exn).

Lemma retry_loop_calm script :
  calm script = true -> exists s, retry_loop on_error script = (Ok tt, s) /\ calm s = true.
Proof.
  induction script as [|e script IH]; intros Hc; [by exists []|].
  destruct e; simpl in *; [by apply IH|done|by exists script].
Qed.

Lemma posix_fsync_spec f r f' :
  posix_fsync on_error f = (r, f') ->
  f_data f' = f_data f /\
  (r = Ok tt -> f_durable f' = f_data f) /\ (r <> Ok tt -> f_durable f' = f_durable f).
Proof.
  unfold posix_fsync. destruct (retry_loop _ _) as [[[]|e] s]; intros H; by simplify_eq.
Qed.

Lemma posix_truncate_spec f r f' :
  posix_truncate on_error f = (r, f') ->
  f_durable f' = f_durable f /\
  (r = Ok tt -> f_data f' = []) /\ (r <> Ok tt -> f_data f' = f_data f).
Proof.
  unfold posix_truncate. destruct (retry_loop _ _) as [[[]|e] s]; intros H; by simplify_eq.
Qed.
End syncing.

Lemma calm_write_calm s : calm_write s = true -> calm s = true.
Proof.
  induction s as [|e s IH]; simpl; [done|]. intros [He Hs]%andb_true_iff.
  destruct e; simpl in *; auto.
Qed.

(** Short and interrupted reads do not show: without a failing call,
    [read_exact] returns the next [want] bytes, or all there are. *)
Lemma read_loop_calm script want rest acc :
  calm script = true ->
  exists s, read_loop script want rest acc = (acc ++ take want rest, false, mkRFile (drop want rest) s)
            /\ calm s = true.
Proof.
  revert want rest acc. induction script as [|e script IH]; intros want rest acc Hc.
  { exists []. destruct want; simpl; by rewrite ?app_nil_r, ?drop_0. }
  destruct want as [|want]; [exists (e :: script); simpl; by rewrite app_nil_r, drop_0|].
  destruct e as [|e|k]; simpl in Hc; [by apply IH|done|].
  destruct rest as [|b rest]; [exists script; simpl; by rewrite app_nil_r|].
  set (n := Nat.min (S want) (Nat.max 1 (Z.to_nat k))).
  assert (Hn : (n <= S want)%nat) by lia.
  change (read_loop (Done k :: script) (S want) (b :: rest) acc)
    with (read_loop script (S want - length (take n (b :: rest))) (drop n (b :: rest))
            (acc ++ take n (b :: rest))).
  destruct (IH (S want - length (take n (b :: rest)))%nat (drop n (b :: rest))
              (acc ++ take n (b :: rest)) Hc) as (s & Hs & Hcs).
  exists s. split; [|done]. rewrite Hs. rewrite <- app_assoc.
  destruct (Nat.le_gt_cases n (length (b :: rest))) as [Hle|Hgt].
  - rewrite length_take, Nat.min_l by lia. rewrite take_take_drop, drop_drop.
    by replace (n + (S want - n))%nat with (S want) by lia.
  - rewrite (take_ge (b :: rest) n), (drop_ge (b :: rest) n) by lia.
    rewrite take_nil, drop_nil, app_nil_r. by rewrite (take_ge _ (S want)), (drop_ge _ (S want)) by lia.
Qed.

Lemma read_exact_calm want f :
  calm (r_script f) = true ->
  exists s, read_exact want f
            = (take (Z.to_nat want) (r_rest f), false, mkRFile (drop (Z.to_nat want) (r_rest f)) s)
            /\ calm s = true.
Proof. apply read_loop_calm. Qed.
