(* ===== verification/FileSystem.v ===== *)
(** * A directory of files

    The write-to-a-temporary, fsync, rename, fsync-the-directory protocol of
    src/sstable_writer.cpp, src/manifest.cpp and src/raft/storage.cpp, each of
    which has its own copy.  A directory maps names to files; a file has the
    bytes written and the bytes that are durable.  Until the directory itself
    is synced a crash may bring back any directory since the last sync.  The
    outcomes of the system calls come from a script, as in [Posix]; the ghost
    field [fs_history] keeps every state passed through, so that a crash in
    the middle of a call is a crash in one of them. *)

From S2P Require Import Prelude Posix.

(** ** Definitions *)

Record FileData := mkFileData { fd_data : str; fd_durable : str }.

Abbreviation Directory := (gmap str FileData).

(** What a crash can bring back: the directory now and those since the last
    sync of it. *)
Record Snapshot := mkSnapshot { sn_dir : Directory; sn_old : list Directory }.

Record Fs := mkFs {
  fs_dir : Directory;
  fs_old : list Directory;
  fs_script : list io_event;
  fs_history : list Snapshot
}.

(** The directory is changed by adding or removing names. *)
Definition fs_change (d : Directory) (f : Fs) : Fs :=
  mkFs d (fs_dir f :: fs_old f) (fs_script f)
    (fs_history f ++ [mkSnapshot d (fs_dir f :: fs_old f)]).

(** A file of it is changed in place. *)
Definition fs_update (name : str) (c : FileData) (f : Fs) : Fs :=
  let d := <[name := c]> (fs_dir f) in
  mkFs d (fs_old f) (fs_script f) (fs_history f ++ [mkSnapshot d (fs_old f)]).

Definition fs_set_script (s : list io_event) (f : Fs) : Fs :=
  mkFs (fs_dir f) (fs_old f) s (fs_history f).

(** A call that is made once: it fails or succeeds. *)
Definition fs_call (on_error : Z -> exn) : stm Fs unit :=
  fun f =>
    match fs_script f with
    | Failed e :: s => (Throw (on_error e), fs_set_script s f)
    | Interrupted :: s => (Throw (on_error 4), fs_set_script s f)
    | Done _ :: s => (Ok tt, fs_set_script s f)
    | [] => (Ok tt, f)
    end.

(** A call retried while it is interrupted. *)
Definition fs_retry (on_error : Z -> exn) : stm Fs unit :=
  fun f => match retry_loop on_error (fs_script f) with (r, s) => (r, fs_set_script s f) end.

(** [::open(name, O_CREAT | O_TRUNC | O_WRONLY)] *)
Definition fs_create (on_error : Z -> exn) (name : str) : stm Fs unit :=
  _ ← fs_call on_error;
  smodify (fun f => fs_change (<[name := mkFileData [] []]> (fs_dir f)) f).

(** The loop around [::write], on the open file [name]. *)
Definition fs_write (on_error : Z -> exn) (on_zero : option exn) (name bytes : str) : stm Fs unit :=
  fun f =>
    match fs_dir f !! name with
    | None => (Ok tt, f)
    | Some c =>
        match write_loop on_error on_zero (fs_script f) bytes (fd_data c) with
        | (r, data, s) => (r, fs_update name (mkFileData data (fd_durable c)) (fs_set_script s f))
        end
    end.

(** [::fsync] of the open file [name]. *)
Definition fs_fsync (on_error : Z -> exn) (name : str) : stm Fs unit :=
  _ ← fs_retry on_error;
  smodify (fun f => match fs_dir f !! name with
                    | Some c => fs_update name (mkFileData (fd_data c) (fd_data c)) f
                    | None => f
                    end).

Definition cannot_rename (e : Z) : exn := SystemError e "filesystem error: cannot rename".

(** [std::filesystem::rename] *)
Definition fs_rename (from to : str) : stm Fs unit :=
  _ ← fs_call cannot_rename;
  smodify (fun f => match fs_dir f !! from with
                    | Some c => fs_change (<[to := c]> (delete from (fs_dir f))) f
                    | None => f
                    end).

(** Opening the directory and syncing it. *)
Definition fs_sync_directory (on_open on_error : Z -> exn) : stm Fs unit :=
  _ ← fs_call on_open;
  _ ← fs_retry on_error;
  smodify (fun f => mkFs (fs_dir f) [] (fs_script f) (fs_history f ++ [mkSnapshot (fs_dir f) []])).

(** [std::filesystem::remove(name, ignored)] *)
Definition fs_remove_ignored (name : str) : stm Fs unit :=
  fun f =>
    match fs_call cannot_rename f with
    | (Ok _, f') => (Ok tt, fs_change (delete name (fs_dir f')) f')
    | (Throw _, f') => (Ok tt, f')
    end.

(** ** Crashes *)

(** What a crash in state [s] can leave under [name]. *)
Definition crash_leaves (s : Snapshot) (name : str) (contents : option str) : Prop :=
  exists d, (d = sn_dir s \/ d ∈ sn_old s) /\
    match d !! name, contents with
    | Some c, Some bs => fd_durable c `prefix_of` bs /\ bs `prefix_of` fd_data c
    | None, None => True
    | _, _ => False
    end.

(** ** Lemmas *)

(** [name] holds [old] or [new] in the directory. *)
Definition either (name : str) (old : option FileData) (new : FileData) (d : Directory) : Prop :=
  d !! name = old \/ d !! name = Some new.

Definition snap_either (name : str) (old : option FileData) (new : FileData) (s : Snapshot) : Prop :=
  either name old new (sn_dir s) /\ Forall (either name old new) (sn_old s).

(** Everything a crash could show now, or could have shown since, has [old] or
    [new] under [name]. *)
Definition fs_either (h : nat) (name : str) (old : option FileData) (new : FileData) (f : Fs) : Prop :=
  either name old new (fs_dir f) /\ Forall (either name old new) (fs_old f) /\
  Forall (snap_either name old new) (drop h (fs_history f)).

(** The names other than those listed keep their files. *)
Definition fs_same_except (names : list str) (f f' : Fs) : Prop :=
  forall n, n ∉ names -> fs_dir f' !! n = fs_dir f !! n.

Lemma fs_same_refl names f : fs_same_except names f f.
Proof. done. Qed.

Lemma fs_same_trans names f1 f2 f3 :
  fs_same_except names f1 f2 -> fs_same_except names f2 f3 -> fs_same_except names f1 f3.
Proof. intros H1 H2 n Hn. by rewrite H2, H1. Qed.

Section protocol.
Context (h : nat) (name : str) (old : option FileData) (new : FileData).

Lemma fs_either_history f s :
  (h <= length (fs_history f))%nat -> Forall (snap_either name old new) (drop h (fs_history f)) ->
  snap_either name old new s -> Forall (snap_either name old new) (drop h (fs_history f ++ [s])).
Proof. intros Hh H1 H2. rewrite drop_app_le by done. apply Forall_app. auto. Qed.

Lemma fs_either_change d f :
  (h <= length (fs_history f))%nat -> fs_either h name old new f -> either name old new d ->
  fs_either h name old new (fs_change d f).
Proof.
  intros Hh (H1 & H2 & H3) Hd. unfold fs_change. split_and!; simpl; [done|by constructor|].
  apply fs_either_history; [done..|]. split; simpl; [done|by constructor].
Qed.

Lemma fs_either_update n c f :
  (h <= length (fs_history f))%nat -> fs_either h name old new f -> n <> name ->
  fs_either h name old new (fs_update n c f).
Proof.
  intros Hh (H1 & H2 & H3) Hn. unfold fs_update.
  assert (either name old new (<[n := c]> (fs_dir f))) by (unfold either; by rewrite lookup_insert_ne).
  split_and!; simpl; [done|done|]. by apply fs_either_history.
Qed.
End protocol.

Lemma fs_call_inv on_error f r f' :
  fs_call on_error f = (r, f') ->
  fs_dir f' = fs_dir f /\ fs_old f' = fs_old f /\ fs_history f' = fs_history f.
Proof. unfold fs_call. destruct (fs_script f) as [|[] s]; intros H; by simplify_eq. Qed.

Lemma fs_retry_inv on_error f r f' :
  fs_retry on_error f = (r, f') ->
  fs_dir f' = fs_dir f /\ fs_old f' = fs_old f /\ fs_history f' = fs_history f.
Proof. unfold fs_retry. destruct (retry_loop _ _) as [r0 s]. intros H; by simplify_eq. Qed.

(** ** Calls that touch only the temporary file *)

Definition keeps (tmp : str) {A} (c : stm Fs A) : Prop :=
  forall f r f', c f = (r, f') ->
    fs_same_except [tmp] f f' /\ (length (fs_history f) <= length (fs_history f'))%nat /\
    forall h name old new, name <> tmp -> (h <= length (fs_history f))%nat ->
      fs_either h name old new f -> fs_either h name old new f'.

Section keeps.
Context (tmp : str).

Lemma keeps_unchanged {A} (c : stm Fs A) :
  (forall f r f', c f = (r, f') ->
     fs_dir f' = fs_dir f /\ fs_old f' = fs_old f /\ fs_history f' = fs_history f) -> keeps tmp c.
Proof.
  intros H f r f' (H1 & H2 & H3)%H. split; [intros n _; by rewrite H1|]. split; [by rewrite H3|].
  intros h name old new _ _ He. unfold fs_either. by rewrite H1, H2, H3.
Qed.

Lemma keeps_bind {A B} (c : stm Fs A) (k : A -> stm Fs B) :
  keeps tmp c -> (forall a, keeps tmp (k a)) -> keeps tmp (c ≫= k).
Proof.
  intros Hc Hk f r f' H. unfold mbind, stm_bind in H. destruct (c f) as [r1 f1] eqn:E.
  destruct (Hc _ _ _ E) as (S1 & L1 & P1). destruct r1 as [a|e].
  - destruct (Hk a _ _ _ H) as (S2 & L2 & P2). split; [by eapply fs_same_trans|]. split; [lia|].
    intros h name old new Hn Hh He. apply P2; [done|lia|]. by apply P1.
  - by simplify_eq.
Qed.

Lemma keeps_ret {A} (a : A) : keeps tmp (mret a).
Proof. apply keeps_unchanged. by intros f r f' [= <- <-]. Qed.

Lemma keeps_throw {A} e : keeps tmp (@sthrow Fs A e).
Proof. apply keeps_unchanged. by intros f r f' [= <- <-]. Qed.

Lemma keeps_lift {A} (r : result A) : keeps tmp (slift r).
Proof. apply keeps_unchanged. by intros f r' f' [= <- <-]. Qed.

Lemma keeps_call on_error : keeps tmp (fs_call on_error).
Proof. apply keeps_unchanged. intros f r f' H. by eapply fs_call_inv. Qed.

Lemma keeps_retry on_error : keeps tmp (fs_retry on_error).
Proof. apply keeps_unchanged. intros f r f' H. by eapply fs_retry_inv. Qed.

Lemma keeps_modify (g : Fs -> Fs) :
  (forall f, g f = f \/ (exists c, g f = fs_update tmp c f) \/
             (exists d, g f = fs_change d f /\ forall n, n <> tmp -> d !! n = fs_dir f !! n)) ->
  keeps tmp (smodify g).
Proof.
  intros Hg f r f' [= <- <-]. destruct (Hg f) as [->|[[c ->]|(d & -> & Hd)]].
  - split; [done|]. split; [lia|done].
  - split; [|split; [unfold fs_update; simpl; rewrite length_app; simpl; lia|]].
    + intros n Hn. unfold fs_update. simpl. rewrite lookup_insert_ne; [done|]. intros ->. apply Hn. by left.
    + intros h name old new Hn Hh He. by apply fs_either_update.
  - split; [|split; [unfold fs_change; simpl; rewrite length_app; simpl; lia|]].
    + intros n Hn. simpl. apply Hd. intros ->. apply Hn. by left.
    + intros h name old new Hn Hh He. apply fs_either_change; [done..|].
      destruct He as [He _]. unfold either in *. by rewrite Hd.
Qed.

Lemma keeps_create on_error : keeps tmp (fs_create on_error tmp).
Proof.
  apply keeps_bind; [apply keeps_call|]. intros _. apply keeps_modify. intros f. right. right.
  eexists. split; [done|]. intros n Hn. by rewrite lookup_insert_ne.
Qed.

Lemma keeps_write on_error on_zero bytes : keeps tmp (fs_write on_error on_zero tmp bytes).
Proof.
  intros f r f' H. unfold fs_write in H. destruct (fs_dir f !! tmp) as [c|] eqn:E.
  2:{ simplify_eq. split; [done|]. split; [lia|done]. }
  destruct (write_loop _ _ _ _ _) as [[r0 data] s]. simplify_eq.
  assert (Hk : keeps tmp (smodify (fs_update tmp (mkFileData data (fd_durable c))))).
  { apply keeps_modify. intros f0. right. left. eauto. }
  destruct (Hk (fs_set_script s f) _ _ eq_refl) as (S1 & L1 & P1). split; [done|]. split; [done|]. done.
Qed.

Lemma keeps_fsync on_error : keeps tmp (fs_fsync on_error tmp).
Proof.
  apply keeps_bind; [apply keeps_retry|]. intros _. apply keeps_modify. intros f.
  destruct (fs_dir f !! tmp); [|by left]. right. left. eauto.
Qed.

Lemma keeps_remove : keeps tmp (fs_remove_ignored tmp).
Proof.
  intros f r f' H. unfold fs_remove_ignored in H.
  destruct (fs_call cannot_rename f) as [r0 f0] eqn:E.
  destruct (keeps_call cannot_rename _ _ _ E) as (S1 & L1 & P1). destruct r0; simplify_eq; [|done].
  assert (Hk : keeps tmp (smodify (fun f => fs_change (delete tmp (fs_dir f)) f))).
  { apply keeps_modify. intros f1. right. right. eexists. split; [done|].
    intros n Hn. by rewrite lookup_delete_ne. }
  destruct (Hk f0 _ _ eq_refl) as (S2 & L2 & P2). split; [by eapply fs_same_trans|]. split; [lia|].
  intros h name old new Hn Hh He. apply P2; [done|lia|]. by apply P1.
Qed.

Lemma keeps_sync_directory on_open on_error : keeps tmp (fs_sync_directory on_open on_error).
Proof.
  apply keeps_bind; [apply keeps_call|]. intros _. apply keeps_bind; [apply keeps_retry|].
  intros _ f r f' [= <- <-]. split; [done|]. simpl. rewrite length_app. split; [simpl; lia|].
  intros h name old new Hn Hh (H1 & H2 & H3). split_and!; simpl; [done|constructor|].
  apply fs_either_history; [done..|]. split; simpl; [done|constructor].
Qed.

Lemma keeps_catch {A} (c : stm Fs A) (k : exn -> stm Fs A) :
  keeps tmp c -> (forall e, keeps tmp (k e)) -> keeps tmp (scatch c k).
Proof.
  intros Hc Hk f r f' H. unfold scatch in H. destruct (c f) as [r1 f1] eqn:E.
  destruct (Hc _ _ _ E) as (S1 & L1 & P1). destruct r1 as [a|e]; [by simplify_eq|].
  destruct (Hk e _ _ _ H) as (S2 & L2 & P2). split; [by eapply fs_same_trans|]. split; [lia|].
  intros h name old new Hn Hh He. apply P2; [done|lia|]. by apply P1.
Qed.
End keeps.

#[export] Hint Resolve keeps_ret keeps_throw keeps_lift keeps_call keeps_retry keeps_create keeps_write
  keeps_fsync keeps_remove keeps_sync_directory : nebula.

(** ** What the temporary file holds *)

Definition holds (tmp bs : str) (f : Fs) : Prop := fd_data <$> fs_dir f !! tmp = Some bs.

Lemma fs_create_ok on_error tmp f f' : fs_create on_error tmp f = (Ok tt, f') -> holds tmp [] f'.
Proof.
  unfold fs_create, mbind, stm_bind. destruct (fs_call on_error f) as [[[]|e] f1] eqn:E; [|done].
  intros [= <-]. unfold holds, fs_change. simpl. by rewrite lookup_insert_eq.
Qed.

Lemma fs_write_ok on_error on_zero tmp bs bytes f f' :
  holds tmp bs f -> fs_write on_error on_zero tmp bytes f = (Ok tt, f') -> holds tmp (bs ++ bytes) f'.
Proof.
  unfold holds, fs_write. destruct (fs_dir f !! tmp) as [c|]; [|done]. intros [= <-].
  destruct (write_loop _ _ _ _ _) as [[r data] s] eqn:E. intros [= -> <-]. simpl.
  rewrite lookup_insert_eq. apply write_loop_spec in E as (n & _ & H). by rewrite H.
Qed.

Lemma fs_fsync_ok on_error tmp bs f f' :
  holds tmp bs f -> fs_fsync on_error tmp f = (Ok tt, f') ->
  fs_dir f' !! tmp = Some (mkFileData bs bs).
Proof.
  unfold holds, fs_fsync, mbind, stm_bind. destruct (fs_retry on_error f) as [[[]|e] f1] eqn:E; [|done].
  apply fs_retry_inv in E as (E1 & _). intros Hh [= <-]. rewrite <- E1 in Hh.
  destruct (fs_dir f1 !! tmp) as [c|] eqn:Ec; [|done]. simpl in Hh. simplify_eq. simpl.
  by rewrite lookup_insert_eq.
Qed.

Lemma fs_call_same on_error f r f' name :
  fs_call on_error f = (r, f') -> fs_dir f' !! name = fs_dir f !! name.
Proof. intros (H & _)%fs_call_inv. by rewrite H. Qed.

(** ** Publishing *)

(** The rename puts the finished file under its name: before it the old file
    is there, after it the new one, and in no state anything else. *)
Lemma fs_rename_publishes tmp name bs f r f' :
  tmp <> name -> fs_rename tmp name f = (r, f') -> fs_dir f !! tmp = Some (mkFileData bs bs) ->
  fs_same_except [tmp; name] f f' /\ (length (fs_history f) <= length (fs_history f'))%nat /\
  (r = Ok tt -> fs_dir f' !! name = Some (mkFileData bs bs)) /\
  forall h old, (h <= length (fs_history f))%nat ->
    fs_either h name old (mkFileData bs bs) f -> fs_either h name old (mkFileData bs bs) f'.
Proof.
  intros Hne H Hc. unfold fs_rename, mbind, stm_bind in H.
  destruct (fs_call cannot_rename f) as [[[]|e] f1] eqn:E;
    destruct (keeps_call tmp _ _ _ _ E) as (S1 & L1 & P1).
  - apply fs_call_inv in E as (E1 & E2 & E3). unfold smodify in H. rewrite E1, Hc in H. simplify_eq. simpl.
    split; [|split; [rewrite length_app; lia|split]].
    + intros n Hn. simpl. rewrite !not_elem_of_cons in Hn. destruct Hn as (Hn1 & Hn2 & _).
      rewrite lookup_insert_ne, lookup_delete_ne by done. done.
    + intros _. apply lookup_insert_eq.
    + intros h old Hh He. apply fs_either_change; [by rewrite E3|by apply P1|].
      right. apply lookup_insert_eq.
  - simplify_eq. split; [|split; [done|split; [done|]]].
    + intros n [Hn _]%not_elem_of_cons. apply S1. by rewrite list_elem_of_singleton.
    + intros h old Hh He. by apply P1.
Qed.

(** What a crash can show of a file that is [old] or [new] throughout. *)
Lemma crash_either name old bs s c :
  snap_either name old (mkFileData bs bs) s -> crash_leaves s name c ->
  c = Some bs \/
  match old, c with
  | Some o, Some b => fd_durable o `prefix_of` b /\ b `prefix_of` fd_data o
  | None, None => True
  | _, _ => False
  end.
Proof.
  intros [H1 H2] (d & Hd & Hc).
  assert (He : either name old (mkFileData bs bs) d).
  { destruct Hd as [->|Hd]; [done|]. rewrite Forall_forall in H2. auto. }
  destruct He as [He|He]; rewrite He in Hc; [by right|]. left. destruct c as [b|]; [|done].
  destruct Hc as [Hc1 Hc2]. simpl in *. f_equal. by apply (anti_symm prefix).
Qed.

(** ** The protocol

    The exceptions of one copy of it, and the protocol around the calls that
    fill the temporary file. *)

Record PublishErrors := mkPublishErrors {
  pe_create : Z -> exn;
  pe_sync : Z -> exn;
  pe_close : Z -> exn;
  pe_open_directory : Z -> exn;
  pe_sync_directory : Z -> exn
}.

(** The [try] block. *)
Definition publish_body (e : PublishErrors) (tmp path : str) (fill : stm Fs unit) : stm Fs unit :=
  _ ← fill;
  _ ← fs_fsync (pe_sync e) tmp;
  _ ← fs_call (pe_close e);
  _ ← fs_rename tmp path;
  fs_sync_directory (pe_open_directory e) (pe_sync_directory e).

Definition publish (e : PublishErrors) (tmp path : str) (fill : stm Fs unit) : stm Fs unit :=
  _ ← fs_remove_ignored tmp;
  _ ← fs_create (pe_create e) tmp;
  scatch (publish_body e tmp path fill)
    (fun ex => _ ← fs_remove_ignored tmp; sthrow ex).

(** [f'] comes after [f], with [name] holding [old] or [new] throughout. *)
Definition moves (names : list str) (h : nat) (name : str) (old : option FileData) (new : FileData)
    (f f' : Fs) : Prop :=
  fs_same_except names f f' /\ (length (fs_history f) <= length (fs_history f'))%nat /\
  (fs_either h name old new f -> fs_either h name old new f').

Lemma moves_trans names h name old new f1 f2 f3 :
  moves names h name old new f1 f2 -> moves names h name old new f2 f3 ->
  moves names h name old new f1 f3.
Proof. intros (S1 & L1 & P1) (S2 & L2 & P2). split_and!; [by eapply fs_same_trans|lia|auto]. Qed.

Lemma keeps_moves {A} (c : stm Fs A) tmp name old new h f r f' :
  keeps tmp c -> tmp <> name -> c f = (r, f') -> (h <= length (fs_history f))%nat ->
  moves [tmp; name] h name old new f f'.
Proof.
  intros Hk Hne H Hh. destruct (Hk _ _ _ H) as (S1 & L1 & P1). split_and!; [|done|auto].
  intros n [Hn _]%not_elem_of_cons. apply S1. by rewrite list_elem_of_singleton.
Qed.

Section publish.
Context (e : PublishErrors) (tmp path bs : str) (fill : stm Fs unit).
Hypothesis Hne : tmp <> path.
Hypothesis Hkeeps : keeps tmp fill.
Hypothesis Hfill : forall f f', holds tmp [] f -> fill f = (Ok tt, f') -> holds tmp bs f'.

Let new := mkFileData bs bs.

Lemma publish_body_spec h old f r f' :
  holds tmp [] f -> (h <= length (fs_history f))%nat ->
  publish_body e tmp path fill f = (r, f') ->
  moves [tmp; path] h path old new f f' /\
  (r = Ok tt -> fs_dir f' !! path = Some new /\ fs_old f' = []).
Proof.
  intros Hh Hle. unfold publish_body, mbind, stm_bind.
  destruct (fill f) as [r1 f1] eqn:E1.
  pose proof (keeps_moves _ _ path old new h _ _ _ Hkeeps Hne E1 Hle) as M1.
  destruct r1 as [[]|e1]; [|by intros [= <- <-]]. pose proof (Hfill _ _ Hh E1) as Hh1.
  assert (L1 : (h <= length (fs_history f1))%nat) by (destruct M1 as (_ & ? & _); lia).
  destruct (fs_fsync (pe_sync e) tmp f1) as [r2 f2] eqn:E2.
  pose proof (keeps_moves _ _ path old new h _ _ _ (keeps_fsync tmp _) Hne E2 L1) as M2.
  pose proof (moves_trans _ _ _ _ _ _ _ _ M1 M2) as M12. clear M1 M2.
  destruct r2 as [[]|e2]; [|by intros [= <- <-]]. pose proof (fs_fsync_ok _ _ _ _ _ Hh1 E2) as H2.
  assert (L2 : (h <= length (fs_history f2))%nat) by (destruct M12 as (_ & ? & _); lia).
  destruct (fs_call (pe_close e) f2) as [r3 f3] eqn:E3.
  pose proof (keeps_moves _ _ path old new h _ _ _ (keeps_call tmp _) Hne E3 L2) as M3.
  pose proof (moves_trans _ _ _ _ _ _ _ _ M12 M3) as M123. clear M12 M3.
  destruct r3 as [[]|e3]; [|by intros [= <- <-]]. rewrite <- (fs_call_same _ _ _ _ _ E3) in H2.
  assert (L3 : (h <= length (fs_history f3))%nat) by (destruct M123 as (_ & ? & _); lia).
  destruct (fs_rename tmp path f3) as [r4 f4] eqn:E4.
  destruct (fs_rename_publishes _ _ _ _ _ _ Hne E4 H2) as (S4 & L4 & D4 & P4).
  assert (M4 : moves [tmp; path] h path old new f3 f4) by (split_and!; auto).
  pose proof (moves_trans _ _ _ _ _ _ _ _ M123 M4) as M1234. clear M123 M4.
  destruct r4 as [[]|e4]; [|by intros [= <- <-]]. specialize (D4 eq_refl).
  intros E5. assert (L5 : (h <= length (fs_history f4))%nat) by lia.
  pose proof (keeps_moves _ _ path old new h _ _ _ (keeps_sync_directory tmp _ _) Hne E5 L5) as M5.
  split; [by eapply moves_trans|]. intros ->. split.
  - destruct (keeps_sync_directory tmp _ _ _ _ _ E5) as (S5 & _). rewrite S5; [done|].
    rewrite list_elem_of_singleton. auto.
  - unfold fs_sync_directory, mbind, stm_bind in E5.
    destruct (fs_call _ f4) as [[[]|?] ?]; [|done]. destruct (fs_retry _ _) as [[[]|?] ?]; [|done].
    unfold smodify in E5. by simplify_eq.
Qed.

(** Whatever the calls return, the name holds the old file or the new one at
    every moment; when the protocol returns, it holds the new one for good. *)
Lemma publish_spec old f r f' :
  publish e tmp path fill f = (r, f') ->
  moves [tmp; path] (length (fs_history f)) path old new f f' /\
  (r = Ok tt -> fs_dir f' !! path = Some new /\ fs_old f' = []).
Proof.
  set (h := length (fs_history f)). unfold publish, mbind, stm_bind.
  destruct (fs_remove_ignored tmp f) as [r0 f0] eqn:E0.
  pose proof (keeps_moves _ _ path old new h _ _ _ (keeps_remove tmp) Hne E0 (le_n _)) as M0.
  destruct r0 as [[]|e0]; [|by intros [= <- <-]].
  assert (L0 : (h <= length (fs_history f0))%nat) by (destruct M0 as (_ & ? & _); lia).
  destruct (fs_create (pe_create e) tmp f0) as [r1 f1] eqn:E1.
  pose proof (keeps_moves _ _ path old new h _ _ _ (keeps_create tmp _) Hne E1 L0) as M1.
  pose proof (moves_trans _ _ _ _ _ _ _ _ M0 M1) as M01. clear M0 M1.
  destruct r1 as [[]|e1]; [|by intros [= <- <-]]. pose proof (fs_create_ok _ _ _ _ E1) as Hh.
  assert (L1 : (h <= length (fs_history f1))%nat) by (destruct M01 as (_ & ? & _); lia).
  unfold scatch. destruct (publish_body e tmp path fill f1) as [r2 f2] eqn:E2.
  destruct (publish_body_spec h old _ _ _ Hh L1 E2) as [M2 Hok].
  pose proof (moves_trans _ _ _ _ _ _ _ _ M01 M2) as M012. clear M01 M2.
  destruct r2 as [[]|e2]; [by intros [= <- <-]; auto|].
  destruct (fs_remove_ignored tmp f2) as [r3 f3] eqn:E3.
  assert (L2 : (h <= length (fs_history f2))%nat) by (destruct M012 as (_ & ? & _); lia).
  pose proof (keeps_moves _ _ path old new h _ _ _ (keeps_remove tmp) Hne E3 L2) as M3.
  pose proof (moves_trans _ _ _ _ _ _ _ _ M012 M3) as M. destruct r3; by intros [= <- <-].
Qed.
End publish.

(** ** Calls that cannot fail when the kernel lets every call succeed *)

Definition quiet {A} (c : stm Fs A) : Prop :=
  forall f, fs_script f = [] -> exists a f', c f = (Ok a, f') /\ fs_script f' = [].

Lemma quiet_bind {A B} (c : stm Fs A) (k : A -> stm Fs B) :
  quiet c -> (forall a, quiet (k a)) -> quiet (c ≫= k).
Proof.
  intros Hc Hk f Hf. destruct (Hc f Hf) as (a & f1 & E & Hf1). unfold mbind, stm_bind. rewrite E. by apply Hk.
Qed.
Lemma quiet_ret {A} (a : A) : quiet (mret a).
Proof. intros f Hf. by exists a, f. Qed.
Lemma quiet_lift {A} (r : result A) a : r = Ok a -> quiet (slift r).
Proof. intros -> f Hf. by exists a, f. Qed.
Lemma quiet_call on_error : quiet (fs_call on_error).
Proof. intros f Hf. unfold fs_call. rewrite Hf. by exists tt, f. Qed.
Lemma quiet_retry on_error : quiet (fs_retry on_error).
Proof. intros f Hf. unfold fs_retry. rewrite Hf. simpl. by eexists _, _. Qed.
Lemma quiet_modify (g : Fs -> Fs) : (forall f, fs_script (g f) = fs_script f) -> quiet (smodify g).
Proof. intros Hg f Hf. exists tt, (g f). by rewrite Hg. Qed.
Lemma quiet_create on_error name : quiet (fs_create on_error name).
Proof. apply quiet_bind; [apply quiet_call|]. intros _. by apply quiet_modify. Qed.
Lemma quiet_write on_error on_zero name bytes : quiet (fs_write on_error on_zero name bytes).
Proof.
  intros f Hf. unfold fs_write. destruct (fs_dir f !! name); [|by exists tt, f]. rewrite Hf.
  destruct bytes; simpl; by eexists _, _.
Qed.
Lemma quiet_fsync on_error name : quiet (fs_fsync on_error name).
Proof.
  apply quiet_bind; [apply quiet_retry|]. intros _. apply quiet_modify. intros f. by destruct (fs_dir f !! name).
Qed.
Lemma quiet_rename from to : quiet (fs_rename from to).
Proof.
  apply quiet_bind; [apply quiet_call|]. intros _. apply quiet_modify. intros f. by destruct (fs_dir f !! from).
Qed.
Lemma quiet_sync_directory on_open on_error : quiet (fs_sync_directory on_open on_error).
Proof.
  apply quiet_bind; [apply quiet_call|]. intros _. apply quiet_bind; [apply quiet_retry|]. intros _.
  by apply quiet_modify.
Qed.
Lemma quiet_remove name : quiet (fs_remove_ignored name).
Proof. intros f Hf. unfold fs_remove_ignored, fs_call. rewrite Hf. by eexists _, _. Qed.
Lemma quiet_catch {A} (c : stm Fs A) k : quiet c -> quiet (scatch c k).
Proof. intros Hc f Hf. destruct (Hc f Hf) as (a & f1 & E & Hf1). unfold scatch. rewrite E. by eexists _, _. Qed.

Lemma quiet_publish e tmp path fill : quiet fill -> quiet (publish e tmp path fill).
Proof.
  intros Hf. unfold publish, publish_body.
  apply quiet_bind; [apply quiet_remove|]. intros _. apply quiet_bind; [apply quiet_create|]. intros _.
  apply quiet_catch. apply quiet_bind; [done|]. intros _. apply quiet_bind; [apply quiet_fsync|]. intros _.
  apply quiet_bind; [apply quiet_call|]. intros _. apply quiet_bind; [apply quiet_rename|]. intros _.
  apply quiet_sync_directory.
Qed.

(** A directory whose changes are all durable. *)
Definition settled (f : Fs) : Prop :=
  fs_old f = [] /\ forall name c, fs_dir f !! name = Some c -> fd_durable c = fd_data c.

Definition contents (f : Fs) (name : str) : option str := fd_data <$> fs_dir f !! name.

(** Publishing under a name of a settled directory: at every moment since, a
    crash leaves the old contents or the new. *)
Lemma moves_atomic names name bs f f' s c :
  moves names (length (fs_history f)) name (fs_dir f !! name) (mkFileData bs bs) f f' ->
  settled f -> s ∈ drop (length (fs_history f)) (fs_history f') -> crash_leaves s name c ->
  c = Some bs \/ c = contents f name.
Proof.
  intros (_ & _ & Hm) [Ho Hs] Hin Hc.
  destruct Hm as (_ & _ & H3).
  { split_and!; [by left|rewrite Ho; constructor|by rewrite drop_all]. }
  rewrite Forall_forall in H3. specialize (H3 s Hin).
  destruct (crash_either _ _ _ _ _ H3 Hc) as [->|Hcase]; [by left|right].
  unfold contents. destruct (fs_dir f !! name) as [o|] eqn:E; destruct c as [b|]; try done.
  rewrite (Hs name o E) in Hcase. simpl. f_equal. destruct Hcase. by apply (anti_symm prefix).
Qed.

(** ... and once it has returned, the directory is settled again. *)
Lemma moves_settled tmp name bs f f' :
  moves [tmp; name] (length (fs_history f)) name (fs_dir f !! name) (mkFileData bs bs) f f' ->
  fs_dir f' !! tmp = None -> fs_dir f' !! name = Some (mkFileData bs bs) -> fs_old f' = [] ->
  settled f -> settled f'.
Proof.
  intros (Hsame & _) Htmp Hname Ho [_ Hs]. split; [done|]. intros n c Hn.
  destruct (decide (n = name)) as [->|Hne]; [rewrite Hname in Hn; by simplify_eq|].
  destruct (decide (n = tmp)) as [->|Hne']; [congruence|].
  rewrite Hsame in Hn; [by eapply Hs|]. rewrite !not_elem_of_cons. split_and!; [done..|apply not_elem_of_nil].
Qed.

(** ** Names a computation leaves alone

    Every name but those listed has, throughout, what it had. *)
Definition touches (names : list str) {A} (c : stm Fs A) : Prop :=
  forall f r f', c f = (r, f') ->
    (length (fs_history f) <= length (fs_history f'))%nat /\
    forall h name old new, name ∉ names -> (h <= length (fs_history f))%nat ->
      fs_either h name old new f -> fs_either h name old new f'.

Section touches.
Context (names : list str).

Lemma touches_keeps {A} (c : stm Fs A) tmp : tmp ∈ names -> keeps tmp c -> touches names c.
Proof.
  intros Hin Hk f r f' H. destruct (Hk _ _ _ H) as (_ & L & P). split; [done|].
  intros h name old new Hn. apply P. by intros ->.
Qed.

Lemma touches_bind {A B} (c : stm Fs A) (k : A -> stm Fs B) :
  touches names c -> (forall a, touches names (k a)) -> touches names (c ≫= k).
Proof.
  intros Hc Hk f r f' H. unfold mbind, stm_bind in H. destruct (c f) as [r1 f1] eqn:E.
  destruct (Hc _ _ _ E) as (L1 & P1). destruct r1 as [a|e]; [|by simplify_eq].
  destruct (Hk a _ _ _ H) as (L2 & P2). split; [lia|].
  intros h name old new Hn Hh He. apply P2; [done|lia|]. by apply P1.
Qed.

Lemma touches_catch {A} (c : stm Fs A) (k : exn -> stm Fs A) :
  touches names c -> (forall e, touches names (k e)) -> touches names (scatch c k).
Proof.
  intros Hc Hk f r f' H. unfold scatch in H. destruct (c f) as [r1 f1] eqn:E.
  destruct (Hc _ _ _ E) as (L1 & P1). destruct r1 as [a|e]; [by simplify_eq|].
  destruct (Hk e _ _ _ H) as (L2 & P2). split; [lia|].
  intros h name old new Hn Hh He. apply P2; [done|lia|]. by apply P1.
Qed.

Lemma touches_rename from to : from ∈ names -> to ∈ names -> touches names (fs_rename from to).
Proof.
  intros Hf Ht. apply touches_bind; [by eapply touches_keeps, keeps_call|]. intros _ f r f' [= <- <-].
  destruct (fs_dir f !! from) as [c|] eqn:E; [|split; [lia|done]].
  split; [simpl; rewrite length_app; lia|]. intros h name old new Hn Hh He.
  apply fs_either_change; [done..|]. destruct He as [He _]. unfold either in *.
  rewrite lookup_insert_ne, lookup_delete_ne by (intros ->; done). done.
Qed.

Lemma touches_publish e tmp path fill :
  tmp ∈ names -> path ∈ names -> keeps tmp fill -> touches names (publish e tmp path fill).
Proof.
  intros Ht Hp Hf. unfold publish, publish_body.
  assert (K : forall A (c : stm Fs A), keeps tmp c -> touches names c) by (intros A c; by apply touches_keeps).
  repeat first [ apply touches_rename; done | apply K; solve [auto with nebula]
               | apply touches_bind; [|intros _] | apply touches_catch; [|intros ?] ].
Qed.
End touches.

(** ** Crashes of the whole directory *)

(** The files a crash can leave. *)
Definition crash_state (s : Snapshot) (files : gmap str str) : Prop :=
  exists d, (d = sn_dir s \/ d ∈ sn_old s) /\
    forall name, match d !! name, files !! name with
                 | Some c, Some bs => fd_durable c `prefix_of` bs /\ bs `prefix_of` fd_data c
                 | None, None => True
                 | _, _ => False
                 end.

(** The files of the directory, as they read. *)
Definition all_contents (f : Fs) : gmap str str := fd_data <$> fs_dir f.

Lemma crash_state_leaves s files name : crash_state s files -> crash_leaves s name (files !! name).
Proof. intros (d & Hd & H). exists d. split; [done|]. apply H. Qed.

(** A file that no crash can change. *)
Definition fixed_file (h : nat) (name : str) (c : option str) (f : Fs) : Prop :=
  fs_either h name ((fun bs => mkFileData bs bs) <$> c)
    (mkFileData (default [] c) (default [] c)) f /\ is_Some c.

Lemma fixed_file_crash h name c f s files :
  fixed_file h name c f -> s ∈ drop h (fs_history f) -> crash_state s files -> files !! name = c.
Proof.
  intros [(_ & _ & H3) [bs ->]] Hs Hc. simpl in *. rewrite Forall_forall in H3. specialize (H3 s Hs).
  apply crash_state_leaves with (name := name) in Hc.
  destruct (crash_either _ _ _ _ _ H3 Hc) as [->|Hcase]; [done|]. destruct (files !! name) as [b|]; [|done].
  simpl in Hcase. f_equal. destruct Hcase. by apply (anti_symm prefix).
Qed.

Lemma fixed_file_start f name bs :
  settled f -> contents f name = Some bs -> fixed_file (length (fs_history f)) name (Some bs) f.
Proof.
  intros [Ho Hs] Hc. split; [|by eexists]. unfold contents in Hc.
  destruct (fs_dir f !! name) as [[da du]|] eqn:E; [|done]. pose proof (Hs _ _ E) as Hd. simpl in *. simplify_eq.
  split_and!; [by left|rewrite Ho; constructor|by rewrite drop_all].
Qed.

Lemma fixed_file_touches names {A} (c : stm Fs A) h name bs f r f' :
  touches names c -> c f = (r, f') -> name ∉ names -> (h <= length (fs_history f))%nat ->
  fixed_file h name bs f -> fixed_file h name bs f'.
Proof.
  intros Ht H Hn Hh [He Hs]. split; [|done]. destruct (Ht _ _ _ H) as (_ & P). by apply P.
Qed.

(** ** The states passed through are only added to *)

Definition extends {A} (c : stm Fs A) : Prop :=
  forall f r f', c f = (r, f') -> fs_history f `prefix_of` fs_history f'.

Lemma extends_bind {A B} (c : stm Fs A) (k : A -> stm Fs B) :
  extends c -> (forall a, extends (k a)) -> extends (c ≫= k).
Proof.
  intros Hc Hk f r f' H. unfold mbind, stm_bind in H. destruct (c f) as [[a|e] f1] eqn:E.
  - etrans; [by eapply Hc|by eapply Hk].
  - simplify_eq. by eapply Hc.
Qed.
Lemma extends_catch {A} (c : stm Fs A) (k : exn -> stm Fs A) :
  extends c -> (forall e, extends (k e)) -> extends (scatch c k).
Proof.
  intros Hc Hk f r f' H. unfold scatch in H. destruct (c f) as [[a|e] f1] eqn:E.
  - simplify_eq. by eapply Hc.
  - etrans; [by eapply Hc|by eapply Hk].
Qed.
Lemma extends_modify (g : Fs -> Fs) :
  (forall f, fs_history f `prefix_of` fs_history (g f)) -> extends (smodify g).
Proof. intros Hg f r f' [= <- <-]. apply Hg. Qed.
Lemma extends_throw {A} e : extends (@sthrow Fs A e).
Proof. by intros f r f' [= <- <-]. Qed.
Lemma extends_call on_error : extends (fs_call on_error).
Proof. intros f r f' (_ & _ & ->)%fs_call_inv. done. Qed.
Lemma extends_retry on_error : extends (fs_retry on_error).
Proof. intros f r f' (_ & _ & ->)%fs_retry_inv. done. Qed.
Lemma extends_create on_error name : extends (fs_create on_error name).
Proof. apply extends_bind; [apply extends_call|]. intros _. apply extends_modify. intros f. by eexists. Qed.
Lemma extends_write on_error on_zero name bytes : extends (fs_write on_error on_zero name bytes).
Proof.
  intros f r f' H. unfold fs_write in H. destruct (fs_dir f !! name); [|by simplify_eq].
  destruct (write_loop _ _ _ _ _) as [[r0 data] s]. simplify_eq. by eexists.
Qed.
Lemma extends_fsync on_error name : extends (fs_fsync on_error name).
Proof.
  apply extends_bind; [apply extends_retry|]. intros _. apply extends_modify. intros f.
  destruct (fs_dir f !! name); [by eexists|done].
Qed.
Lemma extends_rename from to : extends (fs_rename from to).
Proof.
  apply extends_bind; [apply extends_call|]. intros _. apply extends_modify. intros f.
  destruct (fs_dir f !! from); [by eexists|done].
Qed.
Lemma extends_sync_directory on_open on_error : extends (fs_sync_directory on_open on_error).
Proof.
  apply extends_bind; [apply extends_call|]. intros _. apply extends_bind; [apply extends_retry|].
  intros _. apply extends_modify. intros f. by eexists.
Qed.
Lemma extends_remove name : extends (fs_remove_ignored name).
Proof.
  intros f r f' H. unfold fs_remove_ignored in H. destruct (fs_call _ f) as [r0 f0] eqn:E.
  apply fs_call_inv in E as (_ & _ & E). destruct r0; simplify_eq; simpl; rewrite E; [by eexists|done].
Qed.

Lemma extends_publish e tmp path fill : extends fill -> extends (publish e tmp path fill).
Proof.
  intros Hf. unfold publish, publish_body.
  repeat first [ apply extends_rename | apply extends_create | apply extends_remove | apply extends_fsync
               | apply extends_sync_directory | apply extends_throw | apply extends_call | exact Hf
               | apply extends_bind; [|intros _] | apply extends_catch; [|intros ?] ].
Qed.
