(* ===== verification/Path.v ===== *)
(** * File names

    What the storage code uses of [std::filesystem::path], and the zero-padded
    decimal numbers ([std::setw(20) << std::setfill('0')]) in the names of its
    files.  A path is its byte string, with '/' as the separator. *)

From S2P Require Import Prelude.

(** ** Paths *)

Definition slash : byte := x2f.

(** [path.is_absolute()] *)
Definition path_is_absolute (p : str) : bool :=
  match p with b :: _ => bool_decide (b = slash) | [] => false end.

(** [path.has_parent_path()] *)
Definition path_has_parent_path (p : str) : bool := bool_decide (slash ∈ p).

(** [path.filename()]: what follows the last separator. *)
Fixpoint path_filename (p : str) : str :=
  match p with
  | [] => []
  | b :: p' =>
      if path_has_parent_path p' then path_filename p'
      else if bool_decide (b = slash) then p' else p
  end.

(** [directory / name] *)
Definition path_join (directory name : str) : str :=
  if path_is_absolute name then name
  else if is_nil (path_filename directory) then directory ++ name
  else directory ++ [slash] ++ name.

(** [path.parent_path()]: what precedes the last component, without the
    separators before it unless they are the root. *)
Fixpoint strip_slashes (p : str) : str :=
  match p with
  | [] => []
  | b :: p' => match strip_slashes p' with
               | [] => if bool_decide (b = slash) then [] else [b]
               | q => b :: q
               end
  end.

Definition path_parent (p : str) : str :=
  let before := take (length p - length (path_filename p)) p in
  match strip_slashes before with
  | [] => if is_nil before then [] else [slash]
  | q => q
  end.

Definition dot : byte := x2e.

(** The characters from the last dot on. *)
Fixpoint from_last_dot (p : str) : str :=
  match p with
  | [] => []
  | b :: p' => if bool_decide (dot ∈ p') then from_last_dot p'
               else if bool_decide (b = dot) then p else []
  end.

(** [path.extension()]: a leading dot starts no extension, and "." and ".."
    have none. *)
Definition path_extension (p : str) : str :=
  let name := path_filename p in
  if bool_decide (name = [dot]) || bool_decide (name = [dot; dot]) then []
  else match name with
       | [] => []
       | _ :: rest => from_last_dot rest
       end.

(** [path.stem()] *)
Definition path_stem (p : str) : str :=
  let name := path_filename p in
  take (length name - length (path_extension p)) name.

(** [text.rfind(prefix, 0U) == 0U] *)
Definition starts_with (prefix text : str) : bool := bool_decide (take (length prefix) text = prefix).

(** ** Numbers in names *)

(** The decimal digits of [n], the most significant first; 20 of them are
    enough for a 64-bit number. *)
Fixpoint digits (fuel : nat) (n : Z) : str :=
  match fuel with
  | O => []
  | S fuel' => (if n <? 10 then [] else digits fuel' (n / 10)) ++ [z2b (48 + n mod 10)]
  end.

(** [std::setw(width) << std::setfill('0')] *)
Definition pad_left (width : nat) (s : str) : str := replicate (width - length s) x30 ++ s.

Definition pad20 (n : Z) : str := pad_left 20 (digits 20 n).

(** The number a run of decimal digits spells. *)
Definition dec_val (s : str) : Z := foldl (fun a b => a * 10 + (b2z b - 48)) 0 s.

(** ** Lemmas on paths *)

Lemma has_parent_false p : path_has_parent_path p = false <-> slash ∉ p.
Proof. unfold path_has_parent_path. by rewrite bool_decide_eq_false. Qed.

Lemma no_parent_relative p : path_has_parent_path p = false -> path_is_absolute p = false.
Proof.
  rewrite has_parent_false. destruct p as [|b p]; [done|]. rewrite not_elem_of_cons. intros [H _].
  simpl. by apply bool_decide_eq_false.
Qed.

Lemma path_filename_bare p : path_has_parent_path p = false -> path_filename p = p.
Proof.
  destruct p as [|b p]; [done|]. rewrite has_parent_false, not_elem_of_cons. intros [H1 H2]. simpl.
  apply has_parent_false in H2. rewrite H2. by rewrite bool_decide_eq_false_2.
Qed.

Lemma path_filename_slash d n :
  path_has_parent_path n = false -> path_filename (d ++ slash :: n) = n.
Proof.
  intros Hn. induction d as [|b d IH]; cbn [app path_filename].
  - by rewrite Hn, bool_decide_eq_true_2.
  - rewrite IH. assert (path_has_parent_path (d ++ slash :: n) = true) as ->; [|done].
    apply bool_decide_eq_true. apply elem_of_app. right. by left.
Qed.

Lemma path_filename_nil d : path_filename d = [] -> d = [] \/ exists d', d = d' ++ [slash].
Proof.
  induction d as [|b d IH]; [by left|]. cbn [path_filename]. right.
  destruct (path_has_parent_path d) eqn:E.
  - destruct (IH ltac:(done)) as [->|[d' ->]]; [done|]. by exists (b :: d').
  - destruct (bool_decide (b = slash)) eqn:Eb; [|done]. apply bool_decide_eq_true in Eb as ->.
    subst d. by exists [].
Qed.

Section join.
Context (directory : str).

(** The directory with its separator. *)
Lemma path_join_prefix :
  exists pre, forall n, path_has_parent_path n = false -> path_join directory n = pre ++ n.
Proof.
  unfold path_join. destruct (is_nil (path_filename directory)); [exists directory|exists (directory ++ [slash])];
    intros n Hn; rewrite no_parent_relative by done; [done|]. by rewrite <- app_assoc.
Qed.

Lemma path_join_inj a b :
  path_has_parent_path a = false -> path_has_parent_path b = false ->
  path_join directory a = path_join directory b -> a = b.
Proof.
  destruct path_join_prefix as [pre H]. intros Ha Hb. rewrite !H by done. by intros ?%app_inv_head.
Qed.

Lemma path_filename_join n : path_has_parent_path n = false -> path_filename (path_join directory n) = n.
Proof.
  intros Hn. unfold path_join. rewrite no_parent_relative by done.
  destruct (is_nil (path_filename directory)) eqn:E.
  - apply is_nil_true, path_filename_nil in E as [->|[d' ->]]; [by apply path_filename_bare|].
    rewrite <- app_assoc. by apply path_filename_slash.
  - by apply path_filename_slash.
Qed.
End join.

Lemma starts_with_app p t : starts_with p (p ++ t) = true.
Proof. unfold starts_with. rewrite take_app_length. by apply bool_decide_eq_true_2. Qed.

(** ** Lemmas on numbers *)

Lemma dec_val_app a b : dec_val (a ++ [b]) = dec_val a * 10 + (b2z b - 48).
Proof. unfold dec_val. by rewrite foldl_app. Qed.

Lemma digit_val d : 0 <= d < 10 -> b2z (z2b (48 + d)) - 48 = d.
Proof. intros Hd. rewrite b2z_z2b, Z.mod_small by lia. lia. Qed.

Lemma dec_val_digits fuel n : 0 <= n < 10 ^ Z.of_nat fuel -> dec_val (digits fuel n) = n.
Proof.
  revert n. induction fuel as [|fuel IH]; intros n Hn; [simpl in *; unfold dec_val; simpl; lia|].
  rewrite Nat2Z.inj_succ, Z.pow_succ_r in Hn by lia. cbn [digits]. rewrite dec_val_app.
  pose proof (Z.mod_pos_bound n 10 ltac:(lia)) as Hm. rewrite digit_val by lia.
  destruct (n <? 10) eqn:E; zbool.
  - unfold dec_val. simpl. rewrite Z.mod_small by lia. lia.
  - rewrite IH; [pose proof (Z.div_mod n 10 ltac:(lia)); lia|]. split; [apply Z.div_pos; lia|].
    apply Z.div_lt_upper_bound; lia.
Qed.

Lemma digits_length fuel n : (length (digits fuel n) <= fuel)%nat.
Proof.
  revert n. induction fuel as [|fuel IH]; intros n; [done|]. cbn [digits]. rewrite length_app. simpl.
  destruct (n <? 10); simpl; [lia|]. specialize (IH (n / 10)). lia.
Qed.

Lemma dec_val_zeros k s : dec_val (replicate k x30 ++ s) = dec_val s.
Proof. unfold dec_val. induction k as [|k IH]; simpl; [done|]. apply IH. Qed.

Lemma dec_val_pad20 n : is_u64 n -> dec_val (pad20 n) = n.
Proof.
  intros Hn. unfold pad20, pad_left. rewrite dec_val_zeros, dec_val_digits; [done|].
  unfold is_u64, u64_max in Hn. change (10 ^ Z.of_nat 20) with 100000000000000000000. lia.
Qed.

Lemma pad20_length n : length (pad20 n) = 20%nat.
Proof. unfold pad20, pad_left. rewrite length_app, length_replicate. pose proof (digits_length 20 n). lia. Qed.

Lemma pad20_inj a b : is_u64 a -> is_u64 b -> pad20 a = pad20 b -> a = b.
Proof. intros Ha Hb H. rewrite <- (dec_val_pad20 a), <- (dec_val_pad20 b) by done. by rewrite H. Qed.

Lemma digits_no c fuel n :
  ~ (48 <= b2z c < 58) -> c ∉ digits fuel n.
Proof.
  intros Hc. revert n. induction fuel as [|fuel IH]; intros n; [apply not_elem_of_nil|]. cbn [digits].
  rewrite not_elem_of_app, list_elem_of_singleton. split.
  - destruct (n <? 10); [apply not_elem_of_nil|apply IH].
  - intros ->. apply Hc. pose proof (Z.mod_pos_bound n 10 ltac:(lia)). rewrite b2z_z2b, Z.mod_small by lia. lia.
Qed.

Lemma pad20_no c n : ~ (48 <= b2z c < 58) -> c ∉ pad20 n.
Proof.
  intros Hc. unfold pad20, pad_left. rewrite not_elem_of_app. split; [|by apply digits_no].
  intros [-> _]%elem_of_replicate. apply Hc. vm_compute. split; congruence.
Qed.

(** ** Normal form

    [path.lexically_normal().string()]: the components without "." and empty
    ones, with ".." cancelling the component before it. *)

Fixpoint split_path (p : str) : list str :=
  match p with
  | [] => [[]]
  | b :: p' =>
      if bool_decide (b = slash) then [] :: split_path p'
      else match split_path p' with
           | c :: cs => (b :: c) :: cs
           | [] => [[b]]
           end
  end.

(** The components kept so far, the last one first. *)
Definition normal_step (absolute : bool) (stack : list str) (c : str) : list str :=
  if bool_decide (c = []) || bool_decide (c = [dot]) then stack
  else if bool_decide (c = [dot; dot]) then
    match stack with
    | [] => if absolute then [] else [c]
    | top :: stack' => if bool_decide (top = [dot; dot]) then c :: stack else stack'
    end
  else c :: stack.

Fixpoint join_path (cs : list str) : str :=
  match cs with
  | [] => []
  | [c] => c
  | c :: cs' => c ++ [slash] ++ join_path cs'
  end.

Definition lexically_normal (p : str) : str :=
  if is_nil p then []
  else
    let cs := split_path p in
    let stack := foldl (normal_step (path_is_absolute p)) [] cs in
    let trailing :=
      match last cs, stack with
      | Some c, top :: _ =>
          (bool_decide (c = []) || bool_decide (c = [dot]) || bool_decide (c = [dot; dot])) &&
          negb (bool_decide (top = [dot; dot]))
      | _, _ => false
      end in
    let text := (if path_is_absolute p then [slash] else []) ++ join_path (rev stack) ++
                (if trailing then [slash] else []) in
    if is_nil text then [dot] else text.

(** A file name proper. *)
Definition plain_name (n : str) : Prop :=
  n <> [] /\ n <> [dot] /\ n <> [dot; dot] /\ path_has_parent_path n = false.

Lemma split_path_bare n : path_has_parent_path n = false -> split_path n = [n].
Proof.
  rewrite has_parent_false. induction n as [|b n IH]; [done|]. rewrite not_elem_of_cons. intros [H1 H2].
  simpl. rewrite bool_decide_eq_false_2 by done. by rewrite IH.
Qed.

Lemma split_path_slash d n :
  path_has_parent_path n = false -> split_path (d ++ slash :: n) = split_path d ++ [n].
Proof.
  intros Hn. induction d as [|b d IH]; cbn [app split_path].
  - rewrite bool_decide_eq_true_2 by done. by rewrite split_path_bare.
  - destruct (bool_decide (b = slash)); [by rewrite IH|]. rewrite IH.
    destruct (split_path d) as [|c cs] eqn:E; [|done].
    exfalso. clear -E. destruct d as [|b d]; [done|]. simpl in E. destruct (bool_decide _); [done|].
    by destruct (split_path d).
Qed.

Lemma join_path_last cs n : exists pre, join_path (cs ++ [n]) = pre ++ n /\ (pre = [] \/ exists q, pre = q ++ [slash]).
Proof.
  induction cs as [|c cs IH]; [exists []; by split; [|left]|]. destruct IH as (pre & E & Hp). cbn [app].
  exists (c ++ [slash] ++ pre). split.
  - destruct (cs ++ [n]) eqn:El; [by destruct cs|]. rewrite <- El in *. rewrite <- !app_assoc, <- E.
    cbn [join_path app]. by rewrite El.
  - right. destruct Hp as [->|[q ->]]; [exists c; by rewrite app_nil_r|]. exists (c ++ [slash] ++ q).
    by rewrite <- !app_assoc.
Qed.

Lemma lexically_normal_split p cs n :
  split_path p = cs ++ [n] -> plain_name n -> path_filename (lexically_normal p) = n.
Proof.
  intros Hs (N1 & N2 & N3 & N4).
  assert (Hp : is_nil p = false).
  { destruct p; [|done]. apply (f_equal last) in Hs. rewrite last_app in Hs. simpl in Hs. congruence. }
  unfold lexically_normal. rewrite Hp, Hs, foldl_app, last_app. cbn [foldl last].
  set (st := foldl _ [] cs). unfold normal_step at 1. unfold normal_step.
  rewrite !bool_decide_eq_false_2 by done. cbn [orb andb rev]. rewrite app_nil_r.
  destruct (join_path_last (rev st) n) as (pre & -> & Hpre).
  set (lead := if path_is_absolute p then [slash] else []).
  assert (Hn : is_nil (lead ++ pre ++ n) = false).
  { apply is_nil_false. intros [_ [_ E]%app_eq_nil]%app_eq_nil. done. }
  rewrite Hn, app_assoc.
  assert (Hlead : lead ++ pre = [] \/ exists q, lead ++ pre = q ++ [slash]).
  { destruct Hpre as [->|[q ->]]; [rewrite app_nil_r|right; exists (lead ++ q); by rewrite app_assoc].
    unfold lead. destruct (path_is_absolute p); [right; by exists []|by left]. }
  destruct Hlead as [->|[q ->]]; [by apply path_filename_bare|]. rewrite <- app_assoc. by apply path_filename_slash.
Qed.

Lemma normal_join directory n :
  plain_name n -> path_filename (lexically_normal (path_join directory n)) = n.
Proof.
  intros Hn. pose proof Hn as (_ & _ & _ & Hb). unfold path_join. rewrite no_parent_relative by done.
  destruct (is_nil (path_filename directory)) eqn:E.
  - apply is_nil_true, path_filename_nil in E as [->|[d ->]].
    + apply (lexically_normal_split _ []); [by apply split_path_bare|done].
    + rewrite <- app_assoc. eapply lexically_normal_split; [by apply split_path_slash|done].
  - eapply lexically_normal_split; [by apply split_path_slash|done].
Qed.

(** Files of one directory that have the same normal form are the same. *)
Lemma normal_join_inj directory a b :
  plain_name a -> plain_name b ->
  lexically_normal (path_join directory a) = lexically_normal (path_join directory b) -> a = b.
Proof. intros Ha Hb H. rewrite <- (normal_join directory a), <- (normal_join directory b) by done. by rewrite H. Qed.

Example lexically_normal_examples :
  lexically_normal (bytes_of "./data//x/../sst/a.sst") = bytes_of "data/sst/a.sst" /\
  lexically_normal (bytes_of "/a/../../b/.") = bytes_of "/b/" /\
  lexically_normal (bytes_of "a/..") = bytes_of "." /\ lexically_normal (bytes_of "../x") = bytes_of "../x".
Proof. by vm_compute. Qed.
