(* ===== verification/Store.v ===== *)
(** * Keys, values, entries and the key-value interface

    Size limits and validation (src/validation.cpp), the entry and record
    types, and [KeyValueStore] (include/nebulakv/key_value_store.hpp): its
    operations as a class, and what a store promises to its clients as a
    second class, against which clients such as crash recovery are proved. *)

From S2P Require Import Prelude.

(** ** Limits and validation *)

Definition kMaxKeySize : Z := 1024.
Definition kMaxValueSize : Z := 1024 * 1024.

Definition validate_key (key : str) : result unit :=
  _ ← throw_if (is_nil key) (InvalidArgument "NebulaKV keys must not be empty");
  throw_if (kMaxKeySize <? zlen key) (LengthError "NebulaKV key exceeds the maximum size").

Definition validate_value (value : str) : result unit :=
  throw_if (kMaxValueSize <? zlen value) (LengthError "NebulaKV value exceeds the maximum size").

(** The predicates the two checks decide. *)
Definition valid_key (key : str) : Prop := 0 < zlen key <= kMaxKeySize.
Definition valid_value (value : str) : Prop := zlen value <= kMaxValueSize.

(** ** Entries and records *)

Record Entry := mkEntry {
  e_value : str;
  e_seq : Z;
  e_deleted : bool
}.

(** [DataBlock]: records in key order. *)
Record DataBlock := mkDataBlock { records : list (str * Entry) }.

Definition db_empty (b : DataBlock) : bool := is_nil (records b).

(** [records.front().first] and [records.back().first]; undefined when empty. *)
Definition first_key (b : DataBlock) : str := default [] (fst <$> head (records b)).
Definition last_key (b : DataBlock) : str := default [] (fst <$> last (records b)).

(** [enum class OperationType : std::uint8_t]; [OpOther] stands for the values
    of the underlying type that name no enumerator. *)
Inductive OperationType :=
| OpPut
| OpDelete
| OpOther (raw : Z).

Definition op_code (op : OperationType) : Z :=
  match op with OpPut => 1 | OpDelete => 2 | OpOther raw => raw end.

Record WalRecord := mkWalRecord {
  w_op : OperationType;
  w_key : str;
  w_value : str
}.

Inductive DurabilityMode := Sync | Batch | NoSync.

#[export] Instance Entry_eq_dec : EqDecision Entry.
Proof. solve_decision. Defined.
#[export] Instance DataBlock_eq_dec : EqDecision DataBlock.
Proof. solve_decision. Defined.
#[export] Instance OperationType_eq_dec : EqDecision OperationType.
Proof. solve_decision. Defined.
#[export] Instance WalRecord_eq_dec : EqDecision WalRecord.
Proof. solve_decision. Defined.
#[export] Instance DurabilityMode_eq_dec : EqDecision DurabilityMode.
Proof. solve_decision. Defined.

(** ** The interface *)

Class KeyValueStore (S : Type) := {
  kv_put : str -> str -> stm S unit;
  kv_get : str -> stm S (option str);
  kv_remove : str -> stm S bool;
  kv_exists : str -> stm S bool
}.

(** What a store promises: it refines a finite map.  [kv_budget] is a number
    of writes that cannot fail for want of sequence numbers. *)
Class KeyValueLaws (S : Type) `{KeyValueStore S} := {
  kv_inv : S -> Prop;
  kv_abs : S -> gmap str str;
  kv_budget : S -> Z;
  kv_put_ok : forall s key value,
    kv_inv s -> valid_key key -> valid_value value -> 0 < kv_budget s ->
    exists s', kv_put key value s = (Ok tt, s') /\ kv_inv s' /\
               kv_abs s' = <[key := value]> (kv_abs s) /\ kv_budget s - 1 <= kv_budget s';
  kv_get_ok : forall s key,
    kv_inv s -> valid_key key ->
    exists s', kv_get key s = (Ok (kv_abs s !! key), s') /\ kv_inv s' /\ kv_abs s' = kv_abs s /\ kv_budget s' = kv_budget s;
  kv_remove_ok : forall s key,
    kv_inv s -> valid_key key -> 0 < kv_budget s ->
    exists s', kv_remove key s = (Ok (bool_decide (is_Some (kv_abs s !! key))), s') /\ kv_inv s' /\
               kv_abs s' = delete key (kv_abs s) /\ kv_budget s - 1 <= kv_budget s';
  kv_exists_ok : forall s key,
    kv_inv s -> valid_key key ->
    exists s', kv_exists key s = (Ok (bool_decide (is_Some (kv_abs s !! key))), s') /\ kv_inv s' /\
               kv_abs s' = kv_abs s /\ kv_budget s' = kv_budget s;
  kv_put_rejects : forall s key value e,
    kv_inv s -> (validate_key key ≫= fun _ => validate_value value) = Throw e ->
    exists s', kv_put key value s = (Throw e, s') /\ kv_inv s' /\ kv_abs s' = kv_abs s /\ kv_budget s' = kv_budget s;
  kv_get_rejects : forall s key e, validate_key key = Throw e -> kv_get key s = (Throw e, s);
  kv_remove_rejects : forall s key e, validate_key key = Throw e -> kv_remove key s = (Throw e, s);
  kv_exists_rejects : forall s key e, validate_key key = Throw e -> kv_exists key s = (Throw e, s)
}.

(** ** Clients of the interface

    A client's calls, what they answer, and the finite map they are specified
    by. *)

Inductive kv_op := KPut (key value : str) | KGet (key : str) | KRemove (key : str) | KExists (key : str).

Inductive kv_answer :=
| APut (r : result unit)
| AGet (r : result (option str))
| ARemove (r : result bool)
| AExists (r : result bool).

Definition kv_exec {S} `{KeyValueStore S} (op : kv_op) (s : S) : kv_answer * S :=
  match op with
  | KPut key value => let '(r, s') := kv_put key value s in (APut r, s')
  | KGet key => let '(r, s') := kv_get key s in (AGet r, s')
  | KRemove key => let '(r, s') := kv_remove key s in (ARemove r, s')
  | KExists key => let '(r, s') := kv_exists key s in (AExists r, s')
  end.

Fixpoint kv_execs {S} `{KeyValueStore S} (ops : list kv_op) (s : S) : list kv_answer * S :=
  match ops with
  | [] => ([], s)
  | op :: ops' =>
      let '(a, s1) := kv_exec op s in
      let '(l, s2) := kv_execs ops' s1 in (a :: l, s2)
  end.

Definition spec_exec (op : kv_op) (m : gmap str str) : kv_answer * gmap str str :=
  match op with
  | KPut key value =>
      match (validate_key key ≫= fun _ => validate_value value) with
      | Ok _ => (APut (Ok tt), <[key := value]> m)
      | Throw e => (APut (Throw e), m)
      end
  | KGet key => (AGet ((fun _ => m !! key) <$> validate_key key), m)
  | KRemove key =>
      match validate_key key with
      | Ok _ => (ARemove (Ok (bool_decide (is_Some (m !! key)))), delete key m)
      | Throw e => (ARemove (Throw e), m)
      end
  | KExists key => (AExists ((fun _ => bool_decide (is_Some (m !! key))) <$> validate_key key), m)
  end.

Fixpoint spec_execs (ops : list kv_op) (m : gmap str str) : list kv_answer * gmap str str :=
  match ops with
  | [] => ([], m)
  | op :: ops' =>
      let '(a, m1) := spec_exec op m in
      let '(l, m2) := spec_execs ops' m1 in (a :: l, m2)
  end.

(** What a log record does to the contents of a store. *)
Definition apply_record (m : gmap str str) (r : WalRecord) : gmap str str :=
  match w_op r with
  | OpPut => <[w_key r := w_value r]> m
  | _ => delete (w_key r) m
  end.

Definition apply_records (m : gmap str str) (rs : list WalRecord) : gmap str str :=
  foldl apply_record m rs.

(** ** Lemmas *)

Lemma validate_key_ok key : valid_key key -> validate_key key = Ok tt.
Proof.
  unfold valid_key, validate_key. intros H. destruct key as [|b key]; [by destruct H|].
  simpl. apply throw_if_false, Z.ltb_ge. lia.
Qed.

Lemma validate_key_inv key u : validate_key key = Ok u -> valid_key key.
Proof.
  unfold validate_key, valid_key. intros H. inv_ok. zbool.
  destruct key as [|b key]; [done|]. rewrite zlen_cons in *. pose proof (zlen_nonneg key). lia.
Qed.

Lemma validate_value_ok value : valid_value value -> validate_value value = Ok tt.
Proof. unfold valid_value, validate_value. intros H. apply throw_if_false, Z.ltb_ge. lia. Qed.

Lemma validate_value_inv value u : validate_value value = Ok u -> valid_value value.
Proof. unfold validate_value, valid_value. intros H. inv_ok. zbool. lia. Qed.

Lemma valid_key_nonempty key : valid_key key -> is_nil key = false.
Proof. destruct key; [by intros [? _]|done]. Qed.

Lemma valid_key_zlen key : valid_key key -> 0 < zlen key <= kMaxKeySize.
Proof. done. Qed.

#[export] Hint Resolve validate_key_ok validate_value_ok validate_key_inv validate_value_inv
  valid_key_nonempty : nebula.

#[export] Instance valid_key_dec key : Decision (valid_key key).
Proof. unfold valid_key. apply _. Defined.
#[export] Instance valid_value_dec value : Decision (valid_value value).
Proof. unfold valid_value. apply _. Defined.

(** ** Every store that keeps its promises answers like the map *)

Lemma validate_both_inv key value u :
  (validate_key key ≫= fun _ => validate_value value) = Ok u -> valid_key key /\ valid_value value.
Proof. intros H. inv_ok. eauto with nebula. Qed.

Lemma validate_both_throw key value e :
  (validate_key key ≫= fun _ => validate_value value) = Throw e ->
  validate_key key = Throw e \/ (validate_key key = Ok tt /\ validate_value value = Throw e).
Proof.
  intros [H|(u & H1 & H2)]%bind_Throw_inv; [by left|right]. by destruct u.
Qed.

Section refinement.
Context {S : Type} `{KeyValueLaws S}.

Lemma kv_exec_refines op s :
  kv_inv s -> 0 < kv_budget s ->
  exists s', kv_exec op s = ((spec_exec op (kv_abs s)).1, s') /\ kv_inv s' /\
    kv_abs s' = (spec_exec op (kv_abs s)).2 /\ kv_budget s - 1 <= kv_budget s'.
Proof.
  intros Hi Hb. destruct op as [key value|key|key|key]; simpl.
  - destruct (validate_key key ≫= _) as [u|e] eqn:E.
    + apply validate_both_inv in E as [Hk Hv].
      destruct (kv_put_ok s key value) as (s' & -> & H1 & H2 & H3); eauto.
    + destruct (kv_put_rejects s key value e) as (s' & -> & H1 & H2 & H3); [done..|]. exists s'. split_and!; [done..|lia].
  - destruct (validate_key key) as [u|e] eqn:E.
    + destruct (kv_get_ok s key) as (s' & -> & H1 & H2 & H3); [eauto with nebula..|]. exists s'. split_and!; [done..|lia].
    + rewrite (kv_get_rejects s key e) by done. exists s. split_and!; [done..|lia].
  - destruct (validate_key key) as [u|e] eqn:E.
    + destruct (kv_remove_ok s key) as (s' & -> & H1 & H2 & H3); eauto with nebula.
    + rewrite (kv_remove_rejects s key e) by done. exists s. split_and!; [done..|lia].
  - destruct (validate_key key) as [u|e] eqn:E.
    + destruct (kv_exists_ok s key) as (s' & -> & H1 & H2 & H3); [eauto with nebula..|]. exists s'. split_and!; [done..|lia].
    + rewrite (kv_exists_rejects s key e) by done. exists s. split_and!; [done..|lia].
Qed.

Lemma kv_execs_refine ops s :
  kv_inv s -> zlen ops <= kv_budget s ->
  exists s', kv_execs ops s = ((spec_execs ops (kv_abs s)).1, s') /\ kv_inv s' /\
    kv_abs s' = (spec_execs ops (kv_abs s)).2.
Proof.
  revert s. induction ops as [|op ops IH]; intros s Hi Hb; [by exists s|].
  rewrite zlen_cons in Hb. pose proof (zlen_nonneg ops).
  destruct (kv_exec_refines op s) as (s1 & E1 & Hi1 & Ha1 & Hb1); [done|lia|].
  destruct (IH s1) as (s2 & E2 & Hi2 & Ha2); [done|lia|].
  exists s2. simpl. rewrite E1, E2. rewrite Ha1 in *.
  destruct (spec_exec op (kv_abs s)) as [a m]. simpl in *. by destruct (spec_execs ops m) as [l m'].
Qed.
End refinement.
