(* ===== verification/InMemoryStore.v ===== *)
(** * The in-memory store

    [InMemoryKeyValueStore] (src/in_memory_key_value_store.cpp): a hash map
    behind a reader-writer lock.  Each member function takes the lock for its
    whole body, so it is one atomic step on the map. *)

From S2P Require Import Prelude Store.

(** ** Definitions *)

(** [Storage entries_], an [unordered_map]: nothing of it depends on order. *)
Record InMemory := mkInMemory { entries_ : gmap str str }.

Definition im_put (key value : str) : stm InMemory unit :=
  _ ← slift (validate_key key);
  _ ← slift (validate_value value);
  smodify (fun s => mkInMemory (<[key := value]> (entries_ s))).

Definition im_get (key : str) (s : InMemory) : result (option str) :=
  _ ← validate_key key;
  mret (entries_ s !! key).

Definition im_remove (key : str) : stm InMemory bool :=
  _ ← slift (validate_key key);
  s ← sget;
  match entries_ s !! key with
  | None => mret false
  | Some _ => _ ← sput (mkInMemory (delete key (entries_ s))); mret true
  end.

Definition im_exists (key : str) (s : InMemory) : result bool :=
  _ ← validate_key key;
  mret (bool_decide (is_Some (entries_ s !! key))).

Definition im_size (s : InMemory) : Z := Z.of_nat (size (entries_ s)).

#[export] Instance InMemory_store : KeyValueStore InMemory := {|
  kv_put := im_put;
  kv_get := fun key => sread (im_get key);
  kv_remove := im_remove;
  kv_exists := fun key => sread (im_exists key)
|}.

(** ** The store refines a finite map *)

#[export] Program Instance InMemory_laws : KeyValueLaws InMemory := {|
  kv_inv := fun _ => True;
  kv_abs := entries_;
  kv_budget := fun _ => u64_max
|}.
Next Obligation.
  intros s key value _ Hk Hv _. exists (mkInMemory (<[key := value]> (entries_ s))).
  split; [|repeat split; lia]. simpl. unfold im_put, mbind, stm_bind, slift.
  by rewrite validate_key_ok, validate_value_ok.
Qed.
Next Obligation.
  intros s key _ Hk. exists s. simpl. unfold sread, im_get. by rewrite validate_key_ok.
Qed.
Next Obligation.
  intros s key _ Hk _. simpl. unfold im_remove, mbind, stm_bind, slift.
  rewrite validate_key_ok by done. simpl. destruct (entries_ s !! key) as [v|] eqn:E; simpl.
  - eexists. split; [done|]. simpl. repeat split; lia.
  - exists s. rewrite delete_id by done. split; [done|]. repeat split; lia.
Qed.
Next Obligation.
  intros s key _ Hk. exists s. simpl. unfold sread, im_exists. by rewrite validate_key_ok.
Qed.

Next Obligation.
  intros s key value e _ [E|[Ek Ev]]%validate_both_throw; exists s; simpl;
    unfold im_put, mbind, stm_bind, slift; [by rewrite E|by rewrite Ek, Ev].
Qed.
Next Obligation. intros s key e E. simpl. unfold sread, im_get. by rewrite E. Qed.
Next Obligation. intros s key e E. simpl. unfold im_remove, mbind, stm_bind, slift. by rewrite E. Qed.
Next Obligation. intros s key e E. simpl. unfold sread, im_exists. by rewrite E. Qed.

(** A rejected write leaves the store as it was. *)
Lemma im_put_rejects key value s e s' :
  im_put key value s = (Throw e, s') -> s' = s /\ (~ valid_key key \/ ~ valid_value value).
Proof.
  unfold im_put, mbind, stm_bind, slift.
  destruct (validate_key key) as [u|e'] eqn:Ek.
  - destruct (validate_value value) as [u'|e'] eqn:Ev; [by intros|].
    intros H; simplify_eq. split; [done|]. right. intros Hv. by rewrite validate_value_ok in Ev.
  - intros H; simplify_eq. split; [done|]. left. intros Hv. by rewrite validate_key_ok in Ek.
Qed.

(** The in-memory store is a finite map. Any sequence of calls is answered
    exactly as the specification map answers it, rejected keys and values
    included, and the store ends with the map's contents. *)
Theorem in_memory_refines_map ops m :
  zlen ops <= u64_max ->
  kv_execs ops (mkInMemory m) = ((spec_execs ops m).1, mkInMemory (spec_execs ops m).2).
Proof.
  intros H. destruct (kv_execs_refine ops (mkInMemory m)) as ([m'] & -> & _ & Hm); [done..|].
  simpl in Hm. by rewrite Hm.
Qed.

Lemma in_memory_refines_map_witness :
  kv_execs [KPut (bytes_of "a") (bytes_of "1"); KGet (bytes_of "a"); KGet []] (mkInMemory ∅)
  = ([APut (Ok tt); AGet (Ok (Some (bytes_of "1")));
      AGet (Throw (InvalidArgument "NebulaKV keys must not be empty"))],
     mkInMemory {[ bytes_of "a" := bytes_of "1" ]}).
Proof.
  rewrite (in_memory_refines_map
             [KPut (bytes_of "a") (bytes_of "1"); KGet (bytes_of "a"); KGet []] ∅).
  - reflexivity.
  - unfold zlen, u64_max. simpl. lia.
Defined.
