(* ===== verification/MemTable.v ===== *)
(** * The sorted in-memory table

    src/memtable.cpp: entries in key order with their sequence numbers, an
    estimate of the memory they take, and a flag that freezes the table.
    Every member function holds the table's lock for its whole body. *)

From S2P Require Import Prelude OrderedMap Store.

(** ** Definitions *)

Record MemTable := mkMemTable {
  generation_ : Z;
  entries_ : list (str * Entry);
  approximate_memory_usage_ : Z;
  immutable_ : bool
}.

Inductive LookupState := LValue | LTombstone.

#[export] Instance LookupState_eq_dec : EqDecision LookupState.
Proof. solve_decision. Defined.

Definition mt_new (generation : Z) : MemTable := mkMemTable generation [] 0 false.

(** [sizeof(std::pair<const std::string, Entry>)] on a 64-bit platform with
    32-byte strings, and four pointers per tree node. *)
Definition kValueTypeSize : Z := 80.
Definition kTreeNodeOverhead : Z := 8 * 4.

Definition estimated_entry_size (key : str) (entry : Entry) : Z :=
  kValueTypeSize + kTreeNodeOverhead + zlen key + zlen (e_value entry).

Definition ensure_mutable (t : MemTable) : result unit :=
  throw_if (immutable_ t) (LogicError "cannot modify an immutable MemTable").

Definition set_entries (m : list (str * Entry)) (usage : Z) (t : MemTable) : MemTable :=
  mkMemTable (generation_ t) m usage (immutable_ t).

Definition mt_insert_or_assign (key : str) (entry : Entry) : stm MemTable unit :=
  t ← sget;
  _ ← slift (ensure_mutable t);
  match om_find key (entries_ t) with
  | Some existing =>
      _ ← slift (throw_if (e_seq entry <=? e_seq existing)
             (InvalidArgument "MemTable updates require a newer sequence number"));
      let usage := u64 (approximate_memory_usage_ t - estimated_entry_size key existing) in
      let m := om_insert key entry (entries_ t) in
      let usage := u64 (usage + estimated_entry_size key entry) in
      sput (set_entries m usage t)
  | None =>
      let '(was_inserted, m) := om_emplace key entry (entries_ t) in
      _ ← slift (throw_if (negb was_inserted) (LogicError "failed to insert MemTable entry"));
      sput (set_entries m (u64 (approximate_memory_usage_ t + estimated_entry_size key entry)) t)
  end.

Definition mt_put (key value : str) (sequence_number : Z) : stm MemTable unit :=
  _ ← slift (validate_key key);
  _ ← slift (validate_value value);
  _ ← slift (throw_if (sequence_number =? 0)
         (InvalidArgument "MemTable sequence numbers must be greater than zero"));
  mt_insert_or_assign key (mkEntry value sequence_number false).

Definition mt_add_tombstone (key : str) (sequence_number : Z) : stm MemTable unit :=
  _ ← slift (validate_key key);
  _ ← slift (throw_if (sequence_number =? 0)
         (InvalidArgument "MemTable sequence numbers must be greater than zero"));
  mt_insert_or_assign key (mkEntry [] sequence_number true).

Definition mt_get_entry (key : str) (t : MemTable) : result (option Entry) :=
  _ ← validate_key key;
  mret (om_find key (entries_ t)).

Definition mt_lookup_state (key : str) (t : MemTable) : result (option LookupState) :=
  _ ← validate_key key;
  match om_find key (entries_ t) with
  | None => mret None
  | Some e => mret (Some (if e_deleted e then LTombstone else LValue))
  end.

Definition mt_snapshot (t : MemTable) : list (str * Entry) := entries_ t.

Definition mt_freeze (t : MemTable) : MemTable :=
  mkMemTable (generation_ t) (entries_ t) (approximate_memory_usage_ t) true.

Definition mt_empty (t : MemTable) : bool := is_nil (entries_ t).

Definition mt_entry_count (t : MemTable) : Z := zlen (entries_ t).

(** ** The table's invariant *)

Definition entries_size (m : list (str * Entry)) : Z :=
  foldr (fun kv n => estimated_entry_size kv.1 kv.2 + n) 0 m.

(** An entry as the engine makes it. *)
Definition wf_entry (kv : str * Entry) : Prop :=
  valid_key kv.1 /\ valid_value (e_value kv.2) /\ 0 < e_seq kv.2 <= u64_max /\
  (e_deleted kv.2 = true -> e_value kv.2 = []).

Record mt_inv (t : MemTable) : Prop := {
  mt_sorted : om_wf (entries_ t);
  mt_entries : Forall wf_entry (entries_ t);
  mt_usage : approximate_memory_usage_ t = u64 (entries_size (entries_ t))
}.

(** ** Lemmas *)

Lemma mt_new_inv g : mt_inv (mt_new g).
Proof. split; [apply om_wf_nil|constructor|done]. Qed.

Lemma entries_size_insert k e m :
  om_wf m ->
  entries_size (om_insert k e m) =
  entries_size m + estimated_entry_size k e
  - (match om_find k m with Some e0 => estimated_entry_size k e0 | None => 0 end).
Proof.
  induction m as [|[k0 e0] m IH]; intros Hw; [simpl; lia|].
  apply om_wf_cons in Hw as [Hw Hlt]. simpl. destruct (str_compare k k0) eqn:E.
  - apply str_compare_eq in E as ->. rewrite str_eqb_refl. simpl. lia.
  - destruct (str_eqb k k0) eqn:E0; [sbool; subst; by rewrite str_compare_refl in E|].
    rewrite om_find_lt; [simpl; lia|]. eapply Forall_impl; [exact Hlt|].
    intros [k1 v1] H1. by eapply str_lt_trans.
  - destruct (str_eqb k k0) eqn:E0; [sbool; subst; by rewrite str_compare_refl in E|].
    simpl. rewrite IH by done. lia.
Qed.

(** An update with a newer sequence number goes through; the estimate stays
    exact modulo 2^64. *)
Lemma mt_insert_ok key entry t :
  mt_inv t -> immutable_ t = false -> wf_entry (key, entry) ->
  (forall e, om_find key (entries_ t) = Some e -> e_seq e < e_seq entry) ->
  exists t', mt_insert_or_assign key entry t = (Ok tt, t') /\ mt_inv t' /\
    entries_ t' = om_insert key entry (entries_ t) /\ generation_ t' = generation_ t /\
    immutable_ t' = false.
Proof.
  intros [Hs He Hu] Hi Hwf Hseq. exists (set_entries (om_insert key entry (entries_ t))
            (u64 (entries_size (om_insert key entry (entries_ t)))) t).
  split; [|split; [|done]].
  - unfold mt_insert_or_assign, ensure_mutable. mred. rewrite Hi.
    destruct (om_find key (entries_ t)) as [e0|] eqn:E.
    + rewrite (proj2 (Z.leb_gt _ _)) by auto. do 2 f_equal.
      rewrite Hu, u64_sub_l, u64_add_l, entries_size_insert, E by done. f_equal. lia.
    + unfold om_emplace. rewrite E. do 2 f_equal.
      rewrite Hu, u64_add_l, entries_size_insert, E by done. f_equal. lia.
  - split; [by apply om_insert_wf|by apply om_insert_Forall|done].
Qed.

Lemma mt_freeze_inv t : mt_inv t -> mt_inv (mt_freeze t).
Proof. intros [H1 H2 H3]. by split. Qed.

(** A frozen table refuses every update and stays as it is. *)
Lemma mt_insert_frozen key entry t :
  immutable_ t = true ->
  mt_insert_or_assign key entry t = (Throw (LogicError "cannot modify an immutable MemTable"), t).
Proof. intros Hi. unfold mt_insert_or_assign, ensure_mutable. mred. by rewrite Hi. Qed.

Lemma mt_get_entry_ok key t : valid_key key -> mt_get_entry key t = Ok (om_find key (entries_ t)).
Proof. intros H. unfold mt_get_entry. by rewrite validate_key_ok. Qed.

Lemma mt_lookup_state_ok key t :
  valid_key key ->
  mt_lookup_state key t
  = Ok ((fun e => if e_deleted e then LTombstone else LValue) <$> om_find key (entries_ t)).
Proof.
  intros H. unfold mt_lookup_state. rewrite validate_key_ok by done. mred.
  by destruct (om_find key (entries_ t)).
Qed.
