(* ===== verification/MemTableSet.v ===== *)
(** * The set of in-memory tables

    src/memtable_set.cpp: one active table, the immutable tables behind it
    (newest first), the sequence counter and the count of live keys.  Writers
    hold [write_mutex_] throughout, so a write is one step; a reader takes the
    list of tables under [state_mutex_] and the tables themselves only change
    by writes, so a read is one step too.  [table] in the source is the active
    table, shared with the set: it is updated in place here. *)

From S2P Require Import Prelude OrderedMap Store MemTable.

(** ** Definitions *)

Record MemTableOptions := mkMemTableOptions {
  max_memory_bytes : Z;
  initial_sequence_number : Z;
  initial_generation : Z
}.

Record MemTableSet := mkMemTableSet {
  max_memory_bytes_ : Z;
  active_ : MemTable;
  immutable_tables_ : list MemTable;
  next_generation_ : Z;
  live_key_count_ : Z;
  last_sequence_number_ : Z
}.

Definition ms_new (options : MemTableOptions) : result MemTableSet :=
  _ ← throw_if (max_memory_bytes options =? 0)
        (InvalidArgument "MemTable memory limit must be greater than zero");
  mret (mkMemTableSet (max_memory_bytes options) (mt_new (initial_generation options)) []
          (u64 (initial_generation options + 1)) 0 (initial_sequence_number options)).

Definition set_active (t : MemTable) (s : MemTableSet) : MemTableSet :=
  mkMemTableSet (max_memory_bytes_ s) t (immutable_tables_ s) (next_generation_ s)
    (live_key_count_ s) (last_sequence_number_ s).
Definition set_live (n : Z) (s : MemTableSet) : MemTableSet :=
  mkMemTableSet (max_memory_bytes_ s) (active_ s) (immutable_tables_ s) (next_generation_ s)
    n (last_sequence_number_ s).
Definition set_last (n : Z) (s : MemTableSet) : MemTableSet :=
  mkMemTableSet (max_memory_bytes_ s) (active_ s) (immutable_tables_ s) (next_generation_ s)
    (live_key_count_ s) n.
Definition set_immutable (ts : list MemTable) (s : MemTableSet) : MemTableSet :=
  mkMemTableSet (max_memory_bytes_ s) (active_ s) ts (next_generation_ s)
    (live_key_count_ s) (last_sequence_number_ s).

(** The first table that knows the key, newest first. *)
Fixpoint first_entry (key : str) (tables : list MemTable) : result (option Entry) :=
  match tables with
  | [] => mret None
  | t :: ts =>
      e ← mt_get_entry key t;
      match e with Some _ => mret e | None => first_entry key ts end
  end.

Fixpoint first_state (key : str) (tables : list MemTable) : result (option LookupState) :=
  match tables with
  | [] => mret None
  | t :: ts =>
      e ← mt_lookup_state key t;
      match e with Some _ => mret e | None => first_state key ts end
  end.

Definition latest_entry_without_validation (key : str) (s : MemTableSet) : result (option Entry) :=
  first_entry key (active_ s :: immutable_tables_ s).

Definition latest_state_without_validation (key : str) (s : MemTableSet)
    : result (option LookupState) :=
  first_state key (active_ s :: immutable_tables_ s).

Definition next_sequence_number (s : MemTableSet) : result Z :=
  let current := last_sequence_number_ s in
  _ ← throw_if (current =? u64_max)
        (OverflowError "MemTable sequence number space is exhausted");
  mret (current + 1).

(** The active table is frozen and put first; a fresh one takes its place. *)
Definition rotate (s : MemTableSet) : MemTableSet :=
  mkMemTableSet (max_memory_bytes_ s) (mt_new (next_generation_ s))
    (mt_freeze (active_ s) :: immutable_tables_ s) (u64 (next_generation_ s + 1))
    (live_key_count_ s) (last_sequence_number_ s).

Definition rotate_if_required : stm MemTableSet unit :=
  s ← sget;
  if approximate_memory_usage_ (active_ s) <? max_memory_bytes_ s then mret tt
  else if mt_empty (active_ s) then mret tt
  else sput (rotate s).

Definition rotate_active : stm MemTableSet (option MemTable) :=
  s ← sget;
  if mt_empty (active_ s) then mret None
  else _ ← sput (rotate s); mret (Some (mt_freeze (active_ s))).

(** A call on the active table. *)
Definition on_active {A} (c : stm MemTable A) : stm MemTableSet A :=
  fun s => match c (active_ s) with (r, t) => (r, set_active t s) end.

Definition ms_put (key value : str) : stm MemTableSet unit :=
  _ ← slift (validate_key key);
  _ ← slift (validate_value value);
  s ← sget;
  previous_state ← slift (latest_state_without_validation key s);
  let was_live := bool_decide (previous_state = Some LValue) in
  sequence_number ← slift (next_sequence_number s);
  _ ← on_active (mt_put key value sequence_number);
  _ ← smodify (fun s => if was_live then s else set_live (u64 (live_key_count_ s + 1)) s);
  _ ← smodify (set_last sequence_number);
  rotate_if_required.

Definition ms_latest_entry (key : str) (s : MemTableSet) : result (option Entry) :=
  _ ← validate_key key;
  latest_entry_without_validation key s.

Definition ms_get (key : str) (s : MemTableSet) : result (option str) :=
  entry ← ms_latest_entry key s;
  match entry with
  | None => mret None
  | Some e => if e_deleted e then mret None else mret (Some (e_value e))
  end.

Definition ms_remove (key : str) : stm MemTableSet bool :=
  _ ← slift (validate_key key);
  s ← sget;
  previous_state ← slift (latest_state_without_validation key s);
  if negb (bool_decide (previous_state = Some LValue)) then mret false
  else
    sequence_number ← slift (next_sequence_number s);
    _ ← on_active (mt_add_tombstone key sequence_number);
    _ ← smodify (fun s => set_live (u64 (live_key_count_ s - 1)) s);
    _ ← smodify (set_last sequence_number);
    _ ← rotate_if_required;
    mret true.

Definition ms_add_tombstone (key : str) : stm MemTableSet unit :=
  _ ← slift (validate_key key);
  s ← sget;
  previous_state ← slift (latest_state_without_validation key s);
  let was_live := bool_decide (previous_state = Some LValue) in
  sequence_number ← slift (next_sequence_number s);
  _ ← on_active (mt_add_tombstone key sequence_number);
  _ ← smodify (fun s => if was_live then set_live (u64 (live_key_count_ s - 1)) s else s);
  _ ← smodify (set_last sequence_number);
  rotate_if_required.

Definition ms_exists (key : str) (s : MemTableSet) : result bool :=
  _ ← validate_key key;
  state ← latest_state_without_validation key s;
  mret (bool_decide (state = Some LValue)).

Definition ms_size (s : MemTableSet) : Z := live_key_count_ s.
Definition immutable_table_count (s : MemTableSet) : Z := zlen (immutable_tables_ s).
Definition active_memory_usage (s : MemTableSet) : Z := approximate_memory_usage_ (active_ s).
Definition active_entry_count (s : MemTableSet) : Z := mt_entry_count (active_ s).
Definition immutable_tables (s : MemTableSet) : list MemTable := immutable_tables_ s.

(** [find_if] on the generation, then [erase]. *)
Fixpoint erase_generation (generation : Z) (ts : list MemTable) : option (list MemTable) :=
  match ts with
  | [] => None
  | t :: ts' =>
      if generation_ t =? generation then Some ts'
      else match erase_generation generation ts' with
           | Some r => Some (t :: r)
           | None => None
           end
  end.

Definition discard_immutable (generation : Z) : stm MemTableSet bool :=
  s ← sget;
  match erase_generation generation (immutable_tables_ s) with
  | None => mret false
  | Some ts => _ ← sput (set_immutable ts s); mret true
  end.

#[export] Instance MemTableSet_store : KeyValueStore MemTableSet := {|
  kv_put := ms_put;
  kv_get := fun key => sread (ms_get key);
  kv_remove := ms_remove;
  kv_exists := fun key => sread (ms_exists key)
|}.

(** ** The set's invariant *)

Definition ms_tables (s : MemTableSet) : list MemTable := active_ s :: immutable_tables_ s.

(** Every entry of [t1] is newer than every entry of [t2]. *)
Definition newer (t1 t2 : MemTable) : Prop :=
  forall k1 e1 k2 e2, (k1, e1) ∈ entries_ t1 -> (k2, e2) ∈ entries_ t2 -> e_seq e2 < e_seq e1.

(** Newer data and a larger generation. *)
Definition table_gt (t1 t2 : MemTable) : Prop :=
  newer t1 t2 /\ generation_ t2 < generation_ t1.

Record ms_inv (s : MemTableSet) : Prop := {
  ms_tables_inv : Forall mt_inv (ms_tables s);
  ms_active_mutable : immutable_ (active_ s) = false;
  ms_frozen : Forall (fun t => immutable_ t = true /\ entries_ t <> []) (immutable_tables_ s);
  ms_ordered : StronglySorted table_gt (ms_tables s);
  ms_seq_bound : Forall (fun t => Forall (fun kv => e_seq kv.2 <= last_sequence_number_ s) (entries_ t))
                   (ms_tables s);
  ms_last : 0 <= last_sequence_number_ s <= u64_max;
  ms_gen : 0 <= generation_ (active_ s) < next_generation_ s;
  ms_next_gen : next_generation_ s <= u64_max;
  ms_gen_pos : Forall (fun t => 0 <= generation_ t) (ms_tables s)
}.

(** The contents: the newest entry of each key, and the live values. *)
Definition find_in (key : str) (ts : list MemTable) : option Entry :=
  foldr (fun t acc => match om_find key (entries_ t) with Some e => Some e | None => acc end) None ts.

Definition table_map (t : MemTable) : gmap str Entry := list_to_map (entries_ t).

Definition ms_map (s : MemTableSet) : gmap str Entry :=
  foldr (fun t m => table_map t ∪ m) ∅ (ms_tables s).

(** Every entry of every table, overwritten ones included. *)
Definition ms_entries (s : MemTableSet) : list (str * Entry) := concat (map entries_ (ms_tables s)).

Definition live_value (e : Entry) : option str := if e_deleted e then None else Some (e_value e).

Definition ms_abs (s : MemTableSet) : gmap str str := omap live_value (ms_map s).

(** ** Lookups *)

Lemma ms_map_lookup key s : ms_map s !! key = find_in key (ms_tables s).
Proof.
  unfold ms_map. induction (ms_tables s) as [|t ts IH]; simpl; [apply lookup_empty|].
  rewrite lookup_union, IH. unfold table_map. rewrite om_find_list_to_map.
  destruct (om_find key (entries_ t)) as [e|]; simpl; [|by destruct (find_in key ts)].
  by destruct (find_in key ts).
Qed.

Lemma ms_abs_lookup key s : ms_abs s !! key = find_in key (ms_tables s) ≫= live_value.
Proof. unfold ms_abs. by rewrite lookup_omap, ms_map_lookup. Qed.

Lemma first_entry_ok key ts : valid_key key -> first_entry key ts = Ok (find_in key ts).
Proof.
  intros Hk. induction ts as [|t ts IH]; [done|]. simpl. rewrite mt_get_entry_ok by done. mred.
  by destruct (om_find key (entries_ t)).
Qed.

Definition state_of (e : Entry) : LookupState := if e_deleted e then LTombstone else LValue.

Lemma first_state_ok key ts : valid_key key -> first_state key ts = Ok (state_of <$> find_in key ts).
Proof.
  intros Hk. induction ts as [|t ts IH]; [done|]. simpl. rewrite mt_lookup_state_ok by done. mred.
  by destruct (om_find key (entries_ t)).
Qed.

Lemma latest_entry_ok key s :
  valid_key key -> latest_entry_without_validation key s = Ok (find_in key (ms_tables s)).
Proof. apply first_entry_ok. Qed.

Lemma latest_state_ok key s :
  valid_key key ->
  latest_state_without_validation key s = Ok (state_of <$> find_in key (ms_tables s)).
Proof. apply first_state_ok. Qed.

Lemma state_live (o : option Entry) :
  bool_decide (state_of <$> o = Some LValue) = bool_decide (is_Some (o ≫= live_value)).
Proof.
  apply bool_decide_ext. destruct o as [e|]; simpl; unfold state_of, live_value.
  - destruct (e_deleted e); split; try done; by intros [? ?].
  - by split; [|intros [? ?]].
Qed.

Lemma ms_latest_entry_ok key s :
  valid_key key -> ms_latest_entry key s = Ok (find_in key (ms_tables s)).
Proof. intros Hk. unfold ms_latest_entry. rewrite validate_key_ok by done. by apply latest_entry_ok. Qed.

Lemma ms_get_abs key s : valid_key key -> ms_get key s = Ok (ms_abs s !! key).
Proof.
  intros Hk. unfold ms_get. rewrite ms_latest_entry_ok, ms_abs_lookup by done. mred.
  destruct (find_in key (ms_tables s)) as [e|]; [|done]. simpl. unfold live_value.
  by destruct (e_deleted e).
Qed.

Lemma ms_exists_abs key s :
  valid_key key -> ms_exists key s = Ok (bool_decide (is_Some (ms_abs s !! key))).
Proof.
  intros Hk. unfold ms_exists. rewrite validate_key_ok, latest_state_ok, ms_abs_lookup by done.
  mred. by rewrite state_live.
Qed.

(** ** Writes *)

(** The set after an entry with the next sequence number went into the active
    table [t']. *)
Definition after_write (live : Z) (t' : MemTable) (s : MemTableSet) : MemTableSet :=
  set_last (last_sequence_number_ s + 1) (set_live live (set_active t' s)).

Lemma after_write_inv live key e t' s :
  ms_inv s -> wf_entry (key, e) -> e_seq e = last_sequence_number_ s + 1 ->
  last_sequence_number_ s < u64_max ->
  mt_inv t' -> entries_ t' = om_insert key e (entries_ (active_ s)) ->
  generation_ t' = generation_ (active_ s) -> immutable_ t' = false ->
  ms_inv (after_write live t' s) /\ ms_map (after_write live t' s) = <[key := e]> (ms_map s).
Proof.
  intros [Ht Ha Hf Ho Hb Hl Hg Hng Hgp] Hwf Hseq Hmax Hti Hte Htg Htm. split.
  - unfold ms_tables in *. apply Forall_cons in Ht as [Ht0 Ht], Hb as [Hb0 Hb].
    apply StronglySorted_inv in Ho as [Ho0 Ho].
    split; unfold ms_tables; simpl; try done; try lia.
    + by constructor.
    + constructor; [done|]. rewrite Forall_forall in Ho, Hb. apply Forall_forall.
      intros t Hin. destruct (Ho t Hin) as [Hn Hgt]. split; [|lia].
      intros k1 e1 k2 e2 H1 H2. rewrite Hte in H1. apply om_insert_elem in H1 as [H1|H1]; [|by eapply Hn].
      simplify_eq. specialize (Hb t Hin). rewrite Forall_forall in Hb. specialize (Hb _ H2). simpl in Hb. lia.
    + constructor.
      * rewrite Hte. apply om_insert_Forall; [simpl; lia|]. eapply Forall_impl; [exact Hb0|]. simpl. lia.
      * eapply Forall_impl; [exact Hb|]. intros t Hx. eapply Forall_impl; [exact Hx|]. simpl. lia.
    + apply Forall_cons in Hgp as [_ Hgp]. constructor; [lia|done].
  - apply map_eq. intros k. rewrite ms_map_lookup, lookup_insert, ms_map_lookup.
    unfold ms_tables. simpl. rewrite Hte, om_find_insert.
    destruct (str_eqb k key) eqn:E; sbool; case_decide; congruence.
Qed.

(** How a write of [kv] may change the tables. *)
Definition grew (kv : str * Entry) (s s' : MemTableSet) : Prop :=
  (forall x, x ∈ ms_entries s' -> x = kv \/ x ∈ ms_entries s) /\
  zlen (ms_entries s') <= zlen (ms_entries s) + 1 /\
  zlen (immutable_tables_ s') <= zlen (immutable_tables_ s) + 1.

Lemma after_write_entries live key e t' s :
  entries_ t' = om_insert key e (entries_ (active_ s)) ->
  (forall x, x ∈ ms_entries (after_write live t' s) -> x = (key, e) \/ x ∈ ms_entries s) /\
  zlen (ms_entries (after_write live t' s)) <= zlen (ms_entries s) + 1.
Proof.
  intros Hte. unfold ms_entries, ms_tables, after_write. simpl. rewrite Hte, !zlen_app. split.
  - intros [k0 e0] [[Hx|Hx]%om_insert_elem|Hx]%elem_of_app; [by left|right; apply elem_of_app; by left|].
    right. apply elem_of_app. by right.
  - pose proof (om_insert_length key e (entries_ (active_ s))). lia.
Qed.

Lemma ms_entries_rotate s : ms_entries (rotate s) = ms_entries s.
Proof. done. Qed.

Lemma ms_map_rotate s : ms_map (rotate s) = ms_map s.
Proof. unfold ms_map, ms_tables, rotate, table_map. simpl. by rewrite (left_id_L ∅ (∪)). Qed.

Lemma rotate_inv s :
  ms_inv s -> mt_empty (active_ s) = false -> next_generation_ s < u64_max -> ms_inv (rotate s).
Proof.
  intros [Ht Ha Hf Ho Hb Hl Hg Hng Hgp] He Hn. unfold ms_tables in *.
  apply Forall_cons in Ht as [Ht0 Ht], Hb as [Hb0 Hb].
  pose proof (StronglySorted_inv Ho) as [Ho0 Ho1].
  assert (Hu : u64 (next_generation_ s + 1) = next_generation_ s + 1)
    by (unfold u64, u64_max in *; apply Z.mod_small; lia).
  split; unfold ms_tables; simpl; try done; try lia.
  - constructor; [apply mt_new_inv|]. constructor; [by apply mt_freeze_inv|done].
  - constructor; [|done]. split; [done|]. by apply is_nil_false.
  - constructor; [by constructor|]. constructor.
    + split; [intros k1 e1 k2 e2 H1; by apply not_elem_of_nil in H1|simpl; lia].
    + eapply Forall_impl; [exact Ho1|]. intros t [_ Hgt]. split; [|simpl; lia].
      intros k1 e1 k2 e2 H1; by apply not_elem_of_nil in H1.
  - constructor; [constructor|]. by constructor.
  - constructor; [simpl; lia|]. apply Forall_cons in Hgp as [Hg0 Hgp]. by constructor.
Qed.

(** What may happen to the tables after a write. *)
Lemma rotate_if_required_spec s :
  ms_inv s -> next_generation_ s < u64_max ->
  exists s', rotate_if_required s = (Ok tt, s') /\ ms_inv s' /\ ms_map s' = ms_map s /\
    live_key_count_ s' = live_key_count_ s /\ last_sequence_number_ s' = last_sequence_number_ s /\
    next_generation_ s <= next_generation_ s' <= next_generation_ s + 1 /\ ms_entries s' = ms_entries s /\
    zlen (immutable_tables_ s') <= zlen (immutable_tables_ s) + 1.
Proof.
  intros Hi Hn. unfold rotate_if_required. mred.
  destruct (_ <? _); [exists s; split_and!; try done; lia|].
  destruct (mt_empty (active_ s)) eqn:E; [exists s; split_and!; try done; lia|].
  exists (rotate s). split_and!; try done; [by apply rotate_inv|apply ms_map_rotate|..];
    try (simpl; destruct Hi; unfold u64, u64_max in *; rewrite Z.mod_small by lia; lia).
  simpl. rewrite zlen_cons. lia.
Qed.

(** An entry with the next sequence number enters the set. *)
Lemma write_spec (c : Z -> stm MemTable unit) (live : Z -> Z) upd key e s :
  ms_inv s -> wf_entry (key, e) -> e_seq e = last_sequence_number_ s + 1 ->
  last_sequence_number_ s < u64_max -> next_generation_ s < u64_max ->
  c (last_sequence_number_ s + 1) (active_ s) = mt_insert_or_assign key e (active_ s) ->
  (forall s, upd s = set_live (live (live_key_count_ s)) s) ->
  exists s',
    (_ ← on_active (c (last_sequence_number_ s + 1));
     _ ← smodify upd;
     _ ← smodify (set_last (last_sequence_number_ s + 1));
     rotate_if_required) s = (Ok tt, s') /\
    ms_inv s' /\ ms_map s' = <[key := e]> (ms_map s) /\
    live_key_count_ s' = live (live_key_count_ s) /\
    last_sequence_number_ s' = last_sequence_number_ s + 1 /\
    next_generation_ s <= next_generation_ s' <= next_generation_ s + 1 /\ grew (key, e) s s'.
Proof.
  intros Hi Hwf Hseq Hmax Hgen Hc Hupd. pose proof Hi as [Ht Ha _ _ Hb _ _ _ _].
  apply Forall_cons in Ht as [Ht0 _], Hb as [Hb0 _].
  destruct (mt_insert_ok key e (active_ s)) as (t' & Et & Hti & Hte & Htg & Htm); [done..| |].
  { intros e0 He0. apply (om_find_Forall _ _ _ _ Hb0) in He0. simpl in He0. lia. }
  edestruct (after_write_inv (live (live_key_count_ s)) key e t' s) as [Hi' Hm']; try done.
  edestruct (rotate_if_required_spec (after_write (live (live_key_count_ s)) t' s))
    as (s' & Er & Hi2 & Hm2 & Hl2 & Hq2 & Hg2 & He2 & Hz2); [done|done|].
  destruct (after_write_entries (live (live_key_count_ s)) key e t' s Hte) as [Ha1 Ha2].
  exists s'. rewrite Hm2, Hl2, Hq2. split_and!; try done; try apply Hg2; [|unfold grew; rewrite He2; by split_and!].
  mred. unfold on_active. by rewrite Hc, Et, Hupd.
Qed.

(** Room for one more write: a sequence number and a generation are left. *)
Definition ms_room (s : MemTableSet) : Prop :=
  last_sequence_number_ s < u64_max /\ next_generation_ s < u64_max.

(** What the three writes have in common: the entry, the counters, the room. *)
Definition wrote (key : str) (e : Entry) (live : Z) (s s' : MemTableSet) : Prop :=
  ms_inv s' /\ ms_map s' = <[key := e]> (ms_map s) /\ live_key_count_ s' = live /\
  last_sequence_number_ s' = last_sequence_number_ s + 1 /\
  next_generation_ s <= next_generation_ s' <= next_generation_ s + 1 /\ grew (key, e) s s'.

Definition is_live (key : str) (s : MemTableSet) : bool := bool_decide (is_Some (ms_abs s !! key)).

Lemma next_sequence_ok s :
  ms_inv s -> ms_room s -> next_sequence_number s = Ok (last_sequence_number_ s + 1).
Proof.
  intros Hi [H1 _]. unfold next_sequence_number. mred. destruct Hi. zdecide. done.
Qed.

Lemma ms_put_spec key value s :
  ms_inv s -> valid_key key -> valid_value value -> ms_room s ->
  exists s', ms_put key value s = (Ok tt, s') /\
    wrote key (mkEntry value (last_sequence_number_ s + 1) false)
      (if is_live key s then live_key_count_ s else u64 (live_key_count_ s + 1)) s s'.
Proof.
  intros Hi Hk Hv Hr. pose proof Hr as [Hr1 Hr2]. pose proof Hi as [_ _ _ _ _ Hl _ _ _].
  edestruct (write_spec (mt_put key value)
    (fun n => if is_live key s then n else u64 (n + 1))
    (fun s0 => if is_live key s then s0 else set_live (u64 (live_key_count_ s0 + 1)) s0)
    key (mkEntry value (last_sequence_number_ s + 1) false) s) as (s' & E & H); try done.
  - split_and!; simpl; done || lia.
  - unfold mt_put. rewrite validate_key_ok, validate_value_ok by done. mred. zdecide. done.
  - intros s0. destruct (is_live key s); [by destruct s0|done].
  - exists s'. split; [|exact H]. rewrite <- E. unfold ms_put.
    rewrite validate_key_ok, validate_value_ok by done.
    cbv [mbind stm_bind slift sget]. rewrite latest_state_ok by done. rewrite state_live, <- ms_abs_lookup.
    fold (is_live key s). by rewrite next_sequence_ok.
Qed.

Lemma mt_tombstone_insert key n t :
  valid_key key -> 0 < n -> mt_add_tombstone key n t = mt_insert_or_assign key (mkEntry [] n true) t.
Proof. intros Hk Hn. unfold mt_add_tombstone. rewrite validate_key_ok by done. mred. zdecide. done. Qed.

Lemma tombstone_wf key n : valid_key key -> 0 < n <= u64_max -> wf_entry (key, mkEntry [] n true).
Proof. intros Hk Hn. split_and!; simpl; done || lia. Qed.

Lemma ms_add_tombstone_spec key s :
  ms_inv s -> valid_key key -> ms_room s ->
  exists s', ms_add_tombstone key s = (Ok tt, s') /\
    wrote key (mkEntry [] (last_sequence_number_ s + 1) true)
      (if is_live key s then u64 (live_key_count_ s - 1) else live_key_count_ s) s s'.
Proof.
  intros Hi Hk Hr. pose proof Hr as [Hr1 Hr2]. pose proof Hi as [_ _ _ _ _ Hl _ _ _].
  edestruct (write_spec (mt_add_tombstone key)
    (fun n => if is_live key s then u64 (n - 1) else n)
    (fun s0 => if is_live key s then set_live (u64 (live_key_count_ s0 - 1)) s0 else s0)
    key (mkEntry [] (last_sequence_number_ s + 1) true) s) as (s' & E & H); try done.
  - apply tombstone_wf; [done|lia].
  - apply mt_tombstone_insert; [done|lia].
  - intros s0. destruct (is_live key s); [done|by destruct s0].
  - exists s'. split; [|exact H]. rewrite <- E. unfold ms_add_tombstone.
    rewrite validate_key_ok by done.
    cbv [mbind stm_bind slift sget]. rewrite latest_state_ok by done. rewrite state_live, <- ms_abs_lookup.
    fold (is_live key s). by rewrite next_sequence_ok.
Qed.

Lemma ms_remove_spec key s :
  ms_inv s -> valid_key key -> ms_room s ->
  exists s', ms_remove key s = (Ok (is_live key s), s') /\
    (if is_live key s
     then wrote key (mkEntry [] (last_sequence_number_ s + 1) true) (u64 (live_key_count_ s - 1)) s s'
     else s' = s).
Proof.
  intros Hi Hk Hr. pose proof Hr as [Hr1 Hr2]. pose proof Hi as [_ _ _ _ _ Hl _ _ _].
  unfold ms_remove. rewrite validate_key_ok by done.
  cbv [mbind stm_bind slift sget]. rewrite latest_state_ok by done. rewrite state_live, <- ms_abs_lookup.
  fold (is_live key s). destruct (is_live key s); cbn [negb]; [|by exists s].
  edestruct (write_spec (mt_add_tombstone key) (fun n => u64 (n - 1))
    (fun s0 => set_live (u64 (live_key_count_ s0 - 1)) s0)
    key (mkEntry [] (last_sequence_number_ s + 1) true) s) as (s' & E & H); try done.
  - apply tombstone_wf; [done|lia].
  - apply mt_tombstone_insert; [done|lia].
  - exists s'. split; [|exact H]. rewrite next_sequence_ok by done.
    cbv [mbind stm_bind smodify] in E |- *. destruct (on_active _ s) as [[[]|e0] s0]; [|done].
    by rewrite E.
Qed.

(** ** The set refines a finite map *)

Lemma wrote_put_abs key value n live s s' :
  wrote key (mkEntry value n false) live s s' -> ms_abs s' = <[key := value]> (ms_abs s).
Proof. intros (_ & H & _). unfold ms_abs. by rewrite H, (omap_insert_Some _ _ _ _ value). Qed.

Lemma wrote_delete_abs key n live s s' :
  wrote key (mkEntry [] n true) live s s' -> ms_abs s' = delete key (ms_abs s).
Proof. intros (_ & H & _). unfold ms_abs. by rewrite H, omap_insert_None. Qed.

Definition ms_budget (s : MemTableSet) : Z :=
  Z.min (u64_max - last_sequence_number_ s) (u64_max - next_generation_ s).

Lemma wrote_budget key e live s s' : wrote key e live s s' -> ms_budget s - 1 <= ms_budget s'.
Proof. intros (_ & _ & _ & H1 & H2 & _). unfold ms_budget. lia. Qed.

Lemma budget_room s : 0 < ms_budget s -> ms_room s.
Proof. unfold ms_budget, ms_room. lia. Qed.

Lemma ms_put_rejects key value s e :
  (validate_key key ≫= fun _ => validate_value value) = Throw e -> ms_put key value s = (Throw e, s).
Proof.
  intros [E|[Ek Ev]]%validate_both_throw; unfold ms_put, mbind, stm_bind, slift; [by rewrite E|by rewrite Ek, Ev].
Qed.

#[export] Program Instance MemTableSet_laws : KeyValueLaws MemTableSet := {|
  kv_inv := ms_inv;
  kv_abs := ms_abs;
  kv_budget := ms_budget
|}.
Next Obligation.
  intros s key value Hi Hk Hv Hb. destruct (ms_put_spec key value s) as (s' & E & H); auto using budget_room.
  exists s'. split_and!; [done|apply H|by eapply wrote_put_abs|by eapply wrote_budget].
Qed.
Next Obligation. intros s key Hi Hk. exists s. simpl. unfold sread. by rewrite ms_get_abs. Qed.
Next Obligation.
  intros s key Hi Hk Hb. destruct (ms_remove_spec key s) as (s' & E & H); auto using budget_room.
  exists s'. unfold is_live in *. case_bool_decide as Hlive.
  - split_and!; [done|apply H|by eapply wrote_delete_abs|by eapply wrote_budget].
  - subst s'. rewrite delete_id by by apply eq_None_not_Some. split_and!; [done|done|done|lia].
Qed.
Next Obligation. intros s key Hi Hk. exists s. simpl. unfold sread. by rewrite ms_exists_abs. Qed.
Next Obligation.
  intros s key value e Hi E. exists s. simpl. by rewrite (ms_put_rejects key value s e).
Qed.
Next Obligation. intros s key e E. simpl. unfold sread, ms_get, ms_latest_entry. by rewrite E. Qed.
Next Obligation. intros s key e E. simpl. unfold ms_remove, mbind, stm_bind, slift. by rewrite E. Qed.
Next Obligation. intros s key e E. simpl. unfold sread, ms_exists. by rewrite E. Qed.

(** ** Reachable sets *)

(** The steps of a set in use; a write needs room, as [ms_room] says. *)
Inductive ms_run : MemTableSet -> Prop :=
| run_new options s :
    ms_new options = Ok s -> 0 <= initial_generation options < u64_max ->
    0 <= initial_sequence_number options <= u64_max -> ms_run s
| run_put key value s r s' : ms_run s -> ms_room s -> ms_put key value s = (r, s') -> ms_run s'
| run_remove key s r s' : ms_run s -> ms_room s -> ms_remove key s = (r, s') -> ms_run s'
| run_tombstone key s r s' : ms_run s -> ms_room s -> ms_add_tombstone key s = (r, s') -> ms_run s'
| run_rotate s r s' : ms_run s -> ms_room s -> rotate_active s = (r, s') -> ms_run s'.

(** The count of live keys is the size of the contents, modulo 2^64. *)
Definition ms_live (s : MemTableSet) : Prop :=
  live_key_count_ s = u64 (Z.of_nat (size (ms_abs s))).

Lemma ms_new_inv options s :
  ms_new options = Ok s -> 0 <= initial_generation options < u64_max ->
  0 <= initial_sequence_number options <= u64_max -> ms_inv s /\ ms_live s /\ ms_abs s = ∅.
Proof.
  unfold ms_new. intros H Hg Hs. inv_ok.
  assert (Hm : forall a b c d e, ms_map (mkMemTableSet a (mt_new b) [] c d e) = ∅).
  { intros. unfold ms_map, table_map. simpl. by rewrite (right_id_L ∅ (∪)). }
  split_and!.
  - split; unfold ms_tables; simpl; try done; unfold u64, u64_max in *; rewrite ?Z.mod_small; try lia.
    + constructor; [apply mt_new_inv|constructor].
    + repeat constructor.
    + repeat constructor.
    + repeat constructor. simpl. lia.
  - unfold ms_live, ms_abs. rewrite Hm. by rewrite omap_empty, map_size_empty.
  - unfold ms_abs. by rewrite Hm, omap_empty.
Qed.

Lemma wrote_put_live key value n s s' :
  ms_live s ->
  wrote key (mkEntry value n false)
    (if is_live key s then live_key_count_ s else u64 (live_key_count_ s + 1)) s s' -> ms_live s'.
Proof.
  intros Hl H. pose proof (wrote_put_abs _ _ _ _ _ _ H) as Ha. destruct H as (_ & _ & Hc & _).
  unfold ms_live in *. rewrite Hc, Ha, size_insert_live. unfold is_live.
  case_bool_decide; rewrite Hl; [f_equal; lia|by rewrite u64_add_l].
Qed.

Lemma wrote_delete_live key n s s' :
  ms_live s ->
  wrote key (mkEntry [] n true)
    (if is_live key s then u64 (live_key_count_ s - 1) else live_key_count_ s) s s' -> ms_live s'.
Proof.
  intros Hl H. pose proof (wrote_delete_abs _ _ _ _ _ H) as Ha. destruct H as (_ & _ & Hc & _).
  unfold ms_live in *. rewrite Hc, Ha, size_delete_live. unfold is_live.
  case_bool_decide; rewrite Hl; [by rewrite u64_sub_l|f_equal; lia].
Qed.

Lemma rotate_active_spec s r s' :
  ms_inv s -> ms_room s -> rotate_active s = (r, s') ->
  ms_inv s' /\ ms_map s' = ms_map s /\ live_key_count_ s' = live_key_count_ s /\
  last_sequence_number_ s' = last_sequence_number_ s.
Proof.
  intros Hi [_ Hr]. unfold rotate_active. mred. destruct (mt_empty (active_ s)) eqn:E.
  - by intros [= <- <-].
  - intros [= <- <-]. split_and!; [by apply rotate_inv|apply ms_map_rotate|done..].
Qed.

Lemma ms_put_step key value s r s' :
  ms_inv s -> ms_live s -> ms_room s -> ms_put key value s = (r, s') -> ms_inv s' /\ ms_live s'.
Proof.
  intros Hi Hl Hr H. destruct (validate_key key ≫= fun _ => validate_value value) as [u|e] eqn:E.
  - apply validate_both_inv in E as [Hk Hv].
    destruct (ms_put_spec key value s) as (s1 & E1 & Hw); [done..|]. rewrite E1 in H. simplify_eq.
    split; [apply Hw|by eapply wrote_put_live].
  - pose proof (ms_put_rejects key value s e E) as HR.
    simpl in HR. rewrite HR in H. by simplify_eq.
Qed.

Lemma ms_remove_step key s r s' :
  ms_inv s -> ms_live s -> ms_room s -> ms_remove key s = (r, s') -> ms_inv s' /\ ms_live s'.
Proof.
  intros Hi Hl Hr H. destruct (validate_key key) as [u|e] eqn:E.
  - destruct (ms_remove_spec key s) as (s1 & E1 & Hw); [eauto with nebula..|].
    rewrite E1 in H. simplify_eq. destruct (is_live key s) eqn:El; [|by subst].
    split; [apply Hw|]. eapply (wrote_delete_live key); [done|]. by rewrite El.
  - pose proof (@kv_remove_rejects _ _ MemTableSet_laws s key e E) as HR.
    simpl in HR. rewrite HR in H. by simplify_eq.
Qed.

Lemma ms_tombstone_step key s r s' :
  ms_inv s -> ms_live s -> ms_room s -> ms_add_tombstone key s = (r, s') -> ms_inv s' /\ ms_live s'.
Proof.
  intros Hi Hl Hr H. destruct (validate_key key) as [u|e] eqn:E.
  - destruct (ms_add_tombstone_spec key s) as (s1 & E1 & Hw); [eauto with nebula..|].
    rewrite E1 in H. simplify_eq. split; [apply Hw|by eapply wrote_delete_live].
  - unfold ms_add_tombstone, mbind, stm_bind, slift in H. rewrite E in H. by simplify_eq.
Qed.

Lemma ms_run_inv s : ms_run s -> ms_inv s /\ ms_live s.
Proof.
  induction 1 as [options s H H1 H2|key value s r s' _ [Hi Hl] Hr H|key s r s' _ [Hi Hl] Hr H
    |key s r s' _ [Hi Hl] Hr H|s r s' _ [Hi Hl] Hr H].
  - by apply ms_new_inv in H as (? & ? & _).
  - by eapply ms_put_step.
  - by eapply ms_remove_step.
  - by eapply ms_tombstone_step.
  - apply rotate_active_spec in H as (H1 & H2 & H3 & _); [|done..]. split; [done|].
    unfold ms_live, ms_abs in *. by rewrite H2, H3.
Qed.

(** The entry found first is the newest one. *)
Lemma find_in_newest key s e t e' :
  ms_inv s -> find_in key (ms_tables s) = Some e -> t ∈ ms_tables s ->
  om_find key (entries_ t) = Some e' -> e_seq e' <= e_seq e.
Proof.
  intros [_ _ _ Ho _ _ _ _ _]. induction Ho as [|t0 ts Ho IH Hgt]; [done|]. simpl.
  destruct (om_find key (entries_ t0)) as [e0|] eqn:E0.
  - intros [= <-] [->|Hin]%elem_of_cons H; [rewrite E0 in H; simplify_eq; lia|].
    rewrite Forall_forall in Hgt. destruct (Hgt t Hin) as [Hn _].
    apply Z.lt_le_incl. eapply Hn; by apply om_find_In.
  - intros Hf [->|Hin]%elem_of_cons H; [congruence|]. by apply IH.
Qed.

(** In every reachable set the number of live keys reported is the number
    of keys that read back a value, the tables stay sorted, frozen behind the
    active one and ordered by age, and a lookup answers with the entry of the
    largest sequence number among all tables. *)
Theorem memtable_set_reachable s key e :
  ms_run s -> ms_latest_entry key s = Ok (Some e) ->
  ms_inv s /\ ms_size s = u64 (Z.of_nat (size (ms_abs s))) /\
  ms_get key s = Ok (ms_abs s !! key) /\
  forall t e', t ∈ ms_tables s -> mt_get_entry key t = Ok (Some e') -> e_seq e' <= e_seq e.
Proof.
  intros Hrun He. apply ms_run_inv in Hrun as [Hi Hl]. split; [done|]. split; [done|].
  unfold ms_latest_entry in He. inv_ok. apply validate_key_inv in E.
  rewrite latest_entry_ok in He by done. split; [by apply ms_get_abs|].
  intros t e' Ht. rewrite mt_get_entry_ok by done. intros H. inv_ok.
  by eapply (find_in_newest key s e t e' Hi).
Qed.

Definition sample_options : MemTableOptions := mkMemTableOptions 200 0 1.

(** Two writes of a key on either side of a rotation. *)
Definition sample_new : MemTableSet :=
  Eval vm_compute in match ms_new sample_options with Ok s => s | Throw _ => mkMemTableSet 0 (mt_new 0) [] 0 0 0 end.
Definition sample_put : MemTableSet :=
  Eval vm_compute in (ms_put (bytes_of "k") (bytes_of "v") sample_new).2.
Definition sample_rotated : MemTableSet := Eval vm_compute in (rotate_active sample_put).2.
Definition sample_set : MemTableSet :=
  Eval vm_compute in (ms_put (bytes_of "k") (bytes_of "w") sample_rotated).2.

Lemma sample_run : ms_run sample_set.
Proof.
  eapply (run_put (bytes_of "k") (bytes_of "w") sample_rotated (Ok tt)); [|by vm_compute|by vm_compute].
  eapply (run_rotate sample_put); [|by vm_compute|by vm_compute].
  eapply (run_put (bytes_of "k") (bytes_of "v") sample_new (Ok tt)); [|by vm_compute|by vm_compute].
  by apply (run_new sample_options).
Qed.

Lemma memtable_set_reachable_witness :
  immutable_table_count sample_set = 1 /\ ms_inv sample_set /\ ms_size sample_set = 1 /\
  ms_get (bytes_of "k") sample_set = Ok (Some (bytes_of "w")).
Proof.
  destruct (memtable_set_reachable sample_set (bytes_of "k") (mkEntry (bytes_of "w") 2 false) sample_run
              ltac:(by vm_compute)) as (Hi & _).
  split; [by vm_compute|]. split; [exact Hi|]. by vm_compute.
Defined.
