(* ===== verification/WalFormat.v ===== *)
(** * The write-ahead-log record format

    src/wal_format.hpp and src/wal_format.cpp: a record is a 16-byte header
    (magic, version, operation, a zero byte, key and value sizes), the key, the
    value, and the CRC-32 of all of it. *)

From S2P Require Import Prelude Codec Checksum Store.

(** ** Definitions *)

Definition kMagic : str := bytes_of "NKVW".
Definition kVersion : Z := 1.
Definition kHeaderSize : Z := 16.
Definition kChecksumSize : Z := 4.

Definition append_uint16_le (destination : str) (value : Z) : str :=
  destination ++ [z2b (Z.land value 0xFF); z2b (Z.land (Z.shiftr value 8) 0xFF)].

Definition append_uint32_le (destination : str) (value : Z) : str :=
  destination ++ [z2b (Z.land value 0xFF); z2b (Z.land (Z.shiftr value 8) 0xFF);
                  z2b (Z.land (Z.shiftr value 16) 0xFF); z2b (Z.land (Z.shiftr value 24) 0xFF)].

Definition read_uint16_le (bytes : str) : result Z :=
  _ ← throw_if (zlen bytes <? 2) (InvalidArgument "insufficient bytes for uint16");
  let low := b2z (nth 0 bytes x00) in
  let high := b2z (nth 1 bytes x00) in
  mret (Z.lor low (Z.shiftl high 8 mod 2 ^ 16)).

Definition read_uint32_le (bytes : str) : result Z :=
  _ ← throw_if (zlen bytes <? 4) (InvalidArgument "insufficient bytes for uint32");
  mret (le_read (take 4 bytes) 0 0).

Definition serialize (record : WalRecord) : result str :=
  _ ← validate_key (w_key record);
  _ ← match w_op record with
      | OpPut => validate_value (w_value record)
      | OpDelete =>
          throw_if (negb (is_nil (w_value record)))
            (InvalidArgument "delete WAL records must not contain a value")
      | OpOther _ => Throw (InvalidArgument "unsupported WAL operation")
      end;
  _ ← throw_if ((u32_max <? zlen (w_key record)) || (u32_max <? zlen (w_value record)))
        (LengthError "WAL record length exceeds the binary format");
  let key_size := u32 (zlen (w_key record)) in
  let value_size := u32 (zlen (w_value record)) in
  let encoded := kMagic in
  let encoded := append_uint16_le encoded kVersion in
  let encoded := encoded ++ [z2b (op_code (w_op record))] in
  let encoded := encoded ++ [x00] in
  let encoded := append_uint32_le encoded key_size in
  let encoded := append_uint32_le encoded value_size in
  let encoded := encoded ++ w_key record in
  let encoded := encoded ++ w_value record in
  let checksum := crc32 encoded in
  mret (append_uint32_le encoded checksum).

(** ** Specification *)

(** The records the format can carry. *)
Definition valid_record (r : WalRecord) : Prop :=
  valid_key (w_key r) /\
  match w_op r with
  | OpPut => valid_value (w_value r)
  | OpDelete => w_value r = []
  | OpOther _ => False
  end.

Definition wal_header (op : Z) (key_size value_size : Z) : str :=
  kMagic ++ le_bytes 2 kVersion ++ [z2b op] ++ [x00] ++ le_bytes 4 key_size ++ le_bytes 4 value_size.

(** The bytes of a record, as a concatenation of its fields. *)
Definition encode (r : WalRecord) : str :=
  let body := wal_header (op_code (w_op r)) (zlen (w_key r)) (zlen (w_value r))
                ++ w_key r ++ w_value r in
  body ++ le_bytes 4 (crc32 body).

#[export] Instance valid_record_dec r : Decision (valid_record r).
Proof. unfold valid_record. destruct (w_op r); apply _. Defined.

(** ** Lemmas *)

Lemma append_uint16_le_spec d v : append_uint16_le d v = d ++ le_bytes 2 v.
Proof. unfold append_uint16_le, le_bytes, byte_at. simpl. by rewrite Z.shiftr_0_r. Qed.

Lemma append_uint32_le_spec d v : append_uint32_le d v = d ++ le_bytes 4 v.
Proof. unfold append_uint32_le, le_bytes, byte_at. simpl. by rewrite Z.shiftr_0_r. Qed.

Lemma wal_header_zlen op k v : zlen (wal_header op k v) = kHeaderSize.
Proof. done. Qed.

Lemma encode_zlen r :
  zlen (encode r) = kHeaderSize + zlen (w_key r) + zlen (w_value r) + kChecksumSize.
Proof.
  unfold encode. rewrite !zlen_app, wal_header_zlen, le_bytes_zlen. unfold kChecksumSize. lia.
Qed.

Lemma valid_record_sizes r :
  valid_record r -> 0 < zlen (w_key r) <= kMaxKeySize /\ 0 <= zlen (w_value r) <= kMaxValueSize.
Proof.
  intros [Hk Hv]. split; [done|]. pose proof (zlen_nonneg (w_value r)).
  destruct (w_op r); unfold valid_value in *; [lia| |done]. rewrite Hv. unfold kMaxValueSize, zlen. simpl. lia.
Qed.

(** [serialize] accepts exactly the valid records, and writes their fields. *)
Lemma serialize_valid r : valid_record r -> serialize r = Ok (encode r).
Proof.
  intros Hr. pose proof (valid_record_sizes r Hr) as [Hk Hv].
  destruct Hr as [Hkey Hop]. unfold serialize. rewrite validate_key_ok by done.
  assert (E : match w_op r with
      | OpPut => validate_value (w_value r)
      | OpDelete => throw_if (negb (is_nil (w_value r)))
            (InvalidArgument "delete WAL records must not contain a value")
      | OpOther _ => Throw (InvalidArgument "unsupported WAL operation")
      end = Ok tt).
  { destruct (w_op r); [by apply validate_value_ok|by rewrite Hop|done]. }
  rewrite E. unfold kMaxKeySize, kMaxValueSize in *. unfold u32.
  rewrite !Z.mod_small by lia. unfold u32_max. zdecide. mred.
  rewrite !append_uint16_le_spec, !append_uint32_le_spec. unfold encode, wal_header.
  by rewrite !app_assoc.
Qed.

Lemma serialize_inv r bs : serialize r = Ok bs -> valid_record r.
Proof.
  unfold serialize. intros H. inv_ok. split; [by eapply validate_key_inv|].
  destruct (w_op r); [by eapply validate_value_inv| |done].
  inv_ok. zbool. by apply is_nil_true.
Qed.

Lemma serialize_iff r bs : serialize r = Ok bs <-> valid_record r /\ bs = encode r.
Proof.
  split.
  - intros H. pose proof (serialize_inv _ _ H) as Hr. split; [done|].
    rewrite serialize_valid in H by done. by simplify_eq.
  - intros [Hr ->]. by apply serialize_valid.
Qed.

Lemma read_uint16_le_bytes v rest :
  0 <= v < 2 ^ 16 -> read_uint16_le (le_bytes 2 v ++ rest) = Ok v.
Proof.
  intros Hv. unfold read_uint16_le. rewrite zlen_app, le_bytes_zlen.
  rewrite (proj2 (Z.ltb_ge _ _)); [|pose proof (zlen_nonneg rest); lia]. simpl.
  f_equal. rewrite !byte_at_mod by lia. rewrite Z.div_1_r, Z.shiftl_mul_pow2 by lia.
  change (2 ^ 8) with 256. rewrite (Z.mod_small (v / 256)) by (split; [apply Z.div_pos|apply Z.div_lt_upper_bound]; lia).
  rewrite (Z.mod_small (v / 256 * 256)).
  - rewrite <- (Z.shiftl_mul_pow2 _ 8) by lia. rewrite lor_add_disjoint; [|lia|].
    + rewrite Z.add_comm, Z.mul_comm. symmetry. apply Z.div_mod. lia.
    + apply Z.mod_pos_bound. lia.
  - pose proof (Z.div_mod v 256). pose proof (Z.mod_pos_bound v 256). lia.
Qed.

Lemma read_uint32_le_bytes v rest :
  is_u32 v -> read_uint32_le (le_bytes 4 v ++ rest) = Ok v.
Proof.
  intros Hv. unfold read_uint32_le. rewrite zlen_app, le_bytes_zlen.
  rewrite (proj2 (Z.ltb_ge _ _)); [|pose proof (zlen_nonneg rest); lia]. simpl.
  f_equal. change (le_read (le_bytes 4 v) 0 0 = v). apply le_read_bytes. auto with nebula.
Qed.

Lemma read_uint32_le_len bs : zlen bs = 4 -> read_uint32_le bs = Ok (le_val bs).
Proof.
  intros H. unfold read_uint32_le. rewrite H. simpl.
  rewrite take_ge by (unfold zlen in H; lia). by rewrite le_read_0.
Qed.

Lemma read_uint16_le_len bs : zlen bs = 2 -> read_uint16_le bs = Ok (le_val bs).
Proof.
  intros H. unfold zlen in H. destruct bs as [|a [|b [|c bs]]]; simpl in H; try lia.
  pose proof (b2z_range a). pose proof (b2z_range b).
  rewrite <- (le_bytes_val [a; b]) at 1. simpl length.
  rewrite <- (app_nil_r (le_bytes _ _)). rewrite read_uint16_le_bytes; [done|]. simpl. lia.
Qed.
