(* ===== verification/WalReader.v ===== *)
(** * Scanning the write-ahead log

    src/wal_reader.cpp: [WalReader::scan] reads records until the end of the
    file or the first byte sequence that is not a record, and calls a visitor
    on each.  The scan is fuelled by the length of the file: a record takes at
    least 21 bytes, so the fuel never runs out ([scan_loop_fuel]). *)

From S2P Require Import Prelude Codec Checksum Posix Store WalFormat.

(** ** Definitions *)

Inductive WalReadIssueCode :=
| IncompleteRecord
| InvalidMagic
| UnsupportedVersion
| InvalidOperation
| InvalidRecordLength
| InvalidDeleteRecord
| ChecksumMismatch
| IoError.

#[export] Instance WalReadIssueCode_eq_dec : EqDecision WalReadIssueCode.
Proof. solve_decision. Defined.

Definition issue_to_string (code : WalReadIssueCode) : string :=
  match code with
  | IncompleteRecord => "incomplete_record"
  | InvalidMagic => "invalid_magic"
  | UnsupportedVersion => "unsupported_version"
  | InvalidOperation => "invalid_operation"
  | InvalidRecordLength => "invalid_record_length"
  | InvalidDeleteRecord => "invalid_delete_record"
  | ChecksumMismatch => "checksum_mismatch"
  | IoError => "io_error"
  end.

Record WalReadIssue := mkIssue { i_code : WalReadIssueCode; i_offset : Z }.

Record WalScanResult := mkScan {
  records_read : Z;
  valid_bytes : Z;
  issue : option WalReadIssue
}.

Definition make_issue (current : WalScanResult) (code : WalReadIssueCode) (offset : Z)
    : WalScanResult :=
  mkScan (records_read current) (valid_bytes current) (Some (mkIssue code offset)).

Definition has_valid_magic (header : str) : bool := bool_decide (take 4 header = kMagic).

(** What one turn of the loop comes to: the scan ends, with or without an
    issue, or a record of [size] bytes was read. *)
Inductive scan_outcome :=
| ScanEnd
| ScanIssue (code : WalReadIssueCode)
| ScanRecord (r : WalRecord) (size : Z) (f : RFile).

(** The operation byte. *)
Definition operation_of (operation_value : Z) : option OperationType :=
  if operation_value =? 1 then Some OpPut
  else if operation_value =? 2 then Some OpDelete
  else None.

(** The body of the loop after the header has been read and accepted. *)
Definition scan_payload (header : str) (operation : OperationType) (key_size value_size : Z)
    (f : RFile) : result scan_outcome :=
  let '(payload, io_error, f2) := read_exact (key_size + value_size) f in
  if io_error then mret (ScanIssue IoError)
  else if negb (zlen payload =? key_size + value_size) then mret (ScanIssue IncompleteRecord)
  else
    let '(checksum_bytes, io_error, f3) := read_exact kChecksumSize f2 in
    if io_error then mret (ScanIssue IoError)
    else if negb (zlen checksum_bytes =? kChecksumSize) then mret (ScanIssue IncompleteRecord)
    else
      let checksum_input := header ++ payload in
      expected_checksum ← read_uint32_le checksum_bytes;
      let actual_checksum := crc32 checksum_input in
      if negb (actual_checksum =? expected_checksum) then mret (ScanIssue ChecksumMismatch)
      else
        mret (ScanRecord
                (mkWalRecord operation (take (Z.to_nat key_size) payload)
                   (subspan payload key_size value_size))
                (zlen header + zlen payload + zlen checksum_bytes) f3).

(** One turn of the loop. *)
Definition scan_one (f : RFile) : result scan_outcome :=
  let '(header, io_error, f1) := read_exact kHeaderSize f in
  if io_error then mret (ScanIssue IoError)
  else if zlen header =? 0 then mret ScanEnd
  else if negb (zlen header =? kHeaderSize) then mret (ScanIssue IncompleteRecord)
  else if negb (has_valid_magic header) then mret (ScanIssue InvalidMagic)
  else
    version ← read_uint16_le (subspan header 4 2);
    if negb (version =? kVersion) then mret (ScanIssue UnsupportedVersion)
    else
      match operation_of (b2z (nth 6 header x00)) with
      | None => mret (ScanIssue InvalidOperation)
      | Some operation =>
          if negb (b2z (nth 7 header x00) =? 0) then mret (ScanIssue InvalidRecordLength)
          else
            key_size ← read_uint32_le (subspan header 8 4);
            value_size ← read_uint32_le (subspan header 12 4);
            if (key_size =? 0) || (kMaxKeySize <? key_size) || (kMaxValueSize <? value_size)
            then mret (ScanIssue InvalidRecordLength)
            else if bool_decide (operation = OpDelete) && negb (value_size =? 0)
            then mret (ScanIssue InvalidDeleteRecord)
            else scan_payload header operation key_size value_size f1
      end.

Section scan.
Context {S : Type} (visitor : WalRecord -> stm S unit).

(** [while (true) { ... }]; the visitor may throw, and the scan with it. *)
Fixpoint scan_loop (fuel : nat) (f : RFile) (res : WalScanResult) : stm S WalScanResult :=
  match fuel with
  | O => mret (make_issue res IoError (valid_bytes res))
  | Datatypes.S fuel' =>
      o ← slift (scan_one f);
      match o with
      | ScanEnd => mret res
      | ScanIssue code => mret (make_issue res code (valid_bytes res))
      | ScanRecord r size f' =>
          _ ← visitor r;
          scan_loop fuel' f' (mkScan (records_read res + 1) (valid_bytes res + size) None)
      end
  end.

(** The result of [::open(path, O_RDONLY)]. *)
Inductive open_result :=
| Opened (f : RFile)
| OpenNoEntry
| OpenFailed.

Definition scan_fuel (f : RFile) : nat := Datatypes.S (length (r_rest f)).

Definition scan (o : open_result) : stm S WalScanResult :=
  let res := mkScan 0 0 None in
  match o with
  | OpenNoEntry => mret res
  | OpenFailed => mret (make_issue res IoError 0)
  | Opened f => scan_loop (scan_fuel f) f res
  end.
End scan.

(** The visitor that collects the records. *)
Definition collect (r : WalRecord) : stm (list WalRecord) unit := smodify (fun l => l ++ [r]).

(** The records of a file and the result of scanning it. *)
Definition scan_file (f : RFile) : result WalScanResult * list WalRecord :=
  scan collect (Opened f) [].

(** A log of records, as the writer leaves it. *)
Definition encode_all (rs : list WalRecord) : str := concat (map encode rs).

(** ** One record *)

Lemma list_len16 {A} (l : list A) : zlen l = 16 ->
  exists a0 a1 a2 a3 a4 a5 a6 a7 a8 a9 a10 a11 a12 a13 a14 a15,
    l = [a0; a1; a2; a3; a4; a5; a6; a7; a8; a9; a10; a11; a12; a13; a14; a15].
Proof.
  unfold zlen. intros H.
  do 16 (destruct l as [|? l]; [simpl in H; lia|]).
  destruct l; [|simpl in H; lia]. repeat eexists.
Qed.

Lemma take_header (h rest : str) : zlen h = kHeaderSize -> take (Z.to_nat kHeaderSize) (h ++ rest) = h.
Proof. intros H. rewrite <- H, to_nat_zlen. apply take_app_length. Qed.

Lemma drop_header (h rest : str) : zlen h = kHeaderSize -> drop (Z.to_nat kHeaderSize) (h ++ rest) = rest.
Proof. intros H. rewrite <- H, to_nat_zlen. apply drop_app_length. Qed.

(** The sizes and the operation a header may announce. *)
Definition header_ok (op : OperationType) (key_size value_size : Z) : Prop :=
  0 < key_size <= kMaxKeySize /\ 0 <= value_size <= kMaxValueSize /\
  match op with OpPut => True | OpDelete => value_size = 0 | OpOther _ => False end.

Lemma valid_record_header r :
  valid_record r -> header_ok (w_op r) (zlen (w_key r)) (zlen (w_value r)).
Proof.
  intros Hr. pose proof (valid_record_sizes r Hr) as [Hk Hv]. destruct Hr as [_ Hop].
  split; [done|]. split; [done|]. destruct (w_op r); try done. by rewrite Hop.
Qed.

Lemma operation_of_code op k v : header_ok op k v -> operation_of (b2z (z2b (op_code op))) = Some op.
Proof. intros (_ & _ & H). by destruct op. Qed.

Lemma scan_one_header op k v rest script :
  header_ok op k v -> calm script = true ->
  exists s, calm s = true /\
    scan_one (mkRFile (wal_header (op_code op) k v ++ rest) script)
    = scan_payload (wal_header (op_code op) k v) op k v (mkRFile rest s).
Proof.
  intros Hh Hc. set (h := wal_header (op_code op) k v).
  destruct (read_exact_calm kHeaderSize (mkRFile (h ++ rest) script) Hc) as (s & Hs & Hcs).
  exists s. split; [done|]. unfold scan_one. rewrite Hs. cbn [r_rest].
  rewrite take_header, drop_header by done.
  change (zlen h =? 0) with false. change (zlen h =? kHeaderSize) with true.
  change (has_valid_magic h) with true. cbn [negb].
  change (read_uint16_le (subspan h 4 2)) with (Ok (A:=Z) 1). cbv [mbind result_bind].
  change (nth 6 h x00) with (z2b (op_code op)). rewrite (operation_of_code _ _ _ Hh).
  change (b2z (nth 7 h x00) =? 0) with true.
  change (subspan h 8 4) with (le_bytes 4 k). change (subspan h 12 4) with (le_bytes 4 v).
  destruct Hh as (Hk & Hv & Hop). unfold kMaxKeySize, kMaxValueSize in *.
  rewrite <- (app_nil_r (le_bytes 4 k)), <- (app_nil_r (le_bytes 4 v)).
  rewrite !read_uint32_le_bytes by (unfold is_u32, u32_max; lia).
  change (1 =? kVersion) with true. cbn [negb]. zdecide. cbn [orb].
  destruct op; [done| |done]. subst v. done.
Qed.

Lemma scan_payload_full h op key value rest script sum :
  calm script = true -> zlen sum = kChecksumSize ->
  exists s, calm s = true /\
    scan_payload h op (zlen key) (zlen value) (mkRFile ((key ++ value) ++ sum ++ rest) script)
    = Ok (if crc32 (h ++ key ++ value) =? le_val sum
          then ScanRecord (mkWalRecord op key value) (zlen h + zlen (key ++ value) + zlen sum)
                 (mkRFile rest s)
          else ScanIssue ChecksumMismatch).
Proof.
  intros Hc Hsum. unfold scan_payload. rewrite <- (zlen_app key value).
  edestruct read_exact_calm as (s1 & -> & Hc1); [exact Hc|]. cbn [r_rest].
  rewrite to_nat_zlen, take_app_length, drop_app_length, Z.eqb_refl. cbn [negb].
  edestruct read_exact_calm as (s2 & -> & Hc2); [exact Hc1|]. cbn [r_rest].
  rewrite <- Hsum, to_nat_zlen, take_app_length, drop_app_length, Z.eqb_refl. cbn [negb].
  exists s2. split; [done|]. rewrite read_uint32_le_len by done. cbv [mbind result_bind].
  destruct (crc32 (h ++ key ++ value) =? le_val sum); cbn [negb]; [|done].
  assert (Hv : subspan (key ++ value) (zlen key) (zlen value) = value).
  { rewrite <- (app_nil_r value) at 1. by apply subspan_app. }
  by rewrite Hv, !to_nat_zlen, take_app_length.
Qed.

Lemma scan_one_encode r rest script :
  valid_record r -> calm script = true ->
  exists s, calm s = true /\
    scan_one (mkRFile (encode r ++ rest) script)
    = Ok (ScanRecord r (zlen (encode r)) (mkRFile rest s)).
Proof.
  intros Hr Hc. pose proof (valid_record_header r Hr) as Hh.
  set (body := wal_header (op_code (w_op r)) (zlen (w_key r)) (zlen (w_value r)) ++ w_key r ++ w_value r).
  assert (E : encode r ++ rest = wal_header (op_code (w_op r)) (zlen (w_key r)) (zlen (w_value r))
                ++ ((w_key r ++ w_value r) ++ le_bytes 4 (crc32 body) ++ rest)).
  { unfold encode. fold body. unfold body at 1. by rewrite <- !app_assoc. }
  rewrite E. edestruct scan_one_header as (s1 & Hc1 & ->); [done|exact Hc|].
  edestruct (scan_payload_full (wal_header (op_code (w_op r)) (zlen (w_key r)) (zlen (w_value r)))
    (w_op r) (w_key r) (w_value r) rest s1 (le_bytes 4 (crc32 body)) Hc1) as (s2 & Hc2 & ->); [done|].
  exists s2. split; [done|]. rewrite le_val_bytes, Z.mod_small by apply crc32_range.
  fold body. rewrite Z.eqb_refl. rewrite encode_zlen, wal_header_zlen, le_bytes_zlen, zlen_app.
  destruct r as [op key value]. do 2 f_equal. unfold kChecksumSize. simpl. lia.
Qed.

(** Only the writer's bytes are accepted: what the scan takes for a record is
    the encoding of that record. *)
Lemma scan_payload_sound h op k v f r size f' :
  header_ok op k v -> h = wal_header (op_code op) k v -> calm (r_script f) = true ->
  scan_payload h op k v f = Ok (ScanRecord r size f') ->
  h ++ r_rest f = encode r ++ r_rest f' /\ valid_record r /\ size = zlen (encode r) /\
  calm (r_script f') = true.
Proof.
  intros (Hk & Hv & Hop) Hh Hc. unfold scan_payload.
  edestruct read_exact_calm as (s1 & -> & Hc1); [exact Hc|].
  destruct (zlen (take _ (r_rest f)) =? k + v) eqn:El; cbn [negb]; [|done].
  edestruct read_exact_calm as (s2 & -> & Hc2); [exact Hc1|]. cbn [r_rest].
  set (rest1 := drop (Z.to_nat (k + v)) (r_rest f)).
  set (payload := take (Z.to_nat (k + v)) (r_rest f)) in *.
  set (sum := take (Z.to_nat kChecksumSize) rest1).
  destruct (zlen sum =? kChecksumSize) eqn:Es; cbn [negb]; [|done]. zbool.
  rewrite read_uint32_le_len by done. cbv [mbind result_bind].
  destruct (crc32 (h ++ payload) =? le_val sum) eqn:Ec; cbn [negb]; [|done]. zbool.
  intros H. unfold mret, result_ret in H. simplify_eq. cbn [r_rest r_script].
  assert (Hp : take (Z.to_nat k) payload ++ subspan payload k v = payload).
  { unfold subspan. rewrite (take_ge (drop _ payload)), take_drop; [done|].
    rewrite length_drop. unfold zlen in El. lia. }
  assert (Hlk : zlen (take (Z.to_nat k) payload) = k)
    by (unfold zlen in *; rewrite length_take; lia).
  assert (Hlv : zlen (subspan payload k v) = v) by (apply subspan_zlen; lia).
  assert (He : encode (mkWalRecord op (take (Z.to_nat k) payload) (subspan payload k v))
               = wal_header (op_code op) k v ++ payload ++ sum).
  { unfold encode. cbn [w_op w_key w_value]. rewrite Hlk, Hlv, Hp, <- app_assoc, Ec.
    do 2 f_equal. replace 4%nat with (length sum) by (unfold zlen, kChecksumSize in Es; lia).
    apply le_bytes_val. }
  split; [|split; [|split]]; [| | |done].
  - rewrite He, <- !app_assoc. do 2 f_equal. unfold sum. rewrite take_drop.
    unfold payload, rest1. by rewrite take_drop.
  - split; [unfold valid_key; cbn [w_key]; rewrite Hlk; done|]. cbn [w_op w_value].
    destruct op; [unfold valid_value; lia| |done]. subst v. apply zlen_0. lia.
  - rewrite He, !zlen_app, wal_header_zlen. lia.
Qed.

Lemma header_rebuild h op :
  zlen h = kHeaderSize -> has_valid_magic h = true -> le_val (subspan h 4 2) = kVersion ->
  operation_of (b2z (nth 6 h x00)) = Some op -> b2z (nth 7 h x00) = 0 ->
  h = wal_header (op_code op) (le_val (subspan h 8 4)) (le_val (subspan h 12 4)).
Proof.
  intros Hl Hm Hver Hop H7. unfold wal_header.
  assert (Em : take 4 h = kMagic) by by apply bool_decide_eq_true_1 in Hm.
  assert (Ev : subspan h 4 2 = le_bytes 2 kVersion).
  { rewrite <- Hver, <- (le_bytes_val (subspan h 4 2)) at 1. f_equal.
    enough (zlen (subspan h 4 2) = 2) by (unfold zlen in *; lia).
    apply subspan_zlen; rewrite ?Hl; unfold kHeaderSize; lia. }
  assert (Eo : nth 6 h x00 = z2b (op_code op)).
  { rewrite <- (z2b_b2z (nth 6 h x00)). f_equal. unfold operation_of in Hop.
    repeat break_if; simplify_eq; zbool; done. }
  assert (E7 : nth 7 h x00 = x00) by by apply b2z_inj.
  apply list_len16 in Hl as (a0&a1&a2&a3&a4&a5&a6&a7&a8&a9&a10&a11&a12&a13&a14&a15&->).
  cbn in Eo, E7. change (subspan _ 4 2) with [a4; a5] in Ev.
  change (subspan _ 8 4) with [a8; a9; a10; a11]. change (subspan _ 12 4) with [a12; a13; a14; a15].
  change (take 4 _) with [a0; a1; a2; a3] in Em.
  rewrite <- Em, <- Ev, <- Eo, E7.
  pose proof (le_bytes_val [a8; a9; a10; a11]) as Ek.
  pose proof (le_bytes_val [a12; a13; a14; a15]) as Ew.
  cbn [length] in Ek, Ew. by rewrite Ek, Ew.
Qed.

Lemma scan_one_sound f r size f' :
  calm (r_script f) = true -> scan_one f = Ok (ScanRecord r size f') ->
  r_rest f = encode r ++ r_rest f' /\ valid_record r /\ size = zlen (encode r) /\
  calm (r_script f') = true.
Proof.
  intros Hc. unfold scan_one. edestruct read_exact_calm as (s1 & -> & Hc1); [exact Hc|].
  set (h := take _ (r_rest f)).
  destruct (zlen h =? 0); [done|]. destruct (zlen h =? kHeaderSize) eqn:El; cbn [negb]; [|done].
  destruct (has_valid_magic h) eqn:Em; cbn [negb]; [|done]. zbool.
  assert (H2 : zlen (subspan h 4 2) = 2) by (apply subspan_zlen; rewrite ?El; unfold kHeaderSize; lia).
  assert (H8 : zlen (subspan h 8 4) = 4) by (apply subspan_zlen; rewrite ?El; unfold kHeaderSize; lia).
  assert (H12 : zlen (subspan h 12 4) = 4) by (apply subspan_zlen; rewrite ?El; unfold kHeaderSize; lia).
  rewrite (read_uint16_le_len _ H2), (read_uint32_le_len _ H8), (read_uint32_le_len _ H12).
  cbv [mbind result_bind].
  destruct (le_val (subspan h 4 2) =? kVersion) eqn:Ev; cbn [negb]; [|done]. zbool.
  destruct (operation_of _) as [op|] eqn:Eo; [|done].
  destruct (b2z (nth 7 h x00) =? 0) eqn:E7; cbn [negb]; [|done]. zbool.
  destruct (_ || _ || _) eqn:Esz; [done|].
  destruct (bool_decide (op = OpDelete) && _) eqn:Edel; [done|]. zbool.
  pose proof (le_val_range (subspan h 12 4)). pose proof (le_val_range (subspan h 8 4)).
  intros Hp. apply scan_payload_sound in Hp.
  - cbn [r_rest] in Hp. unfold h in Hp at 1. by rewrite take_drop in Hp.
  - split; [lia|]. split; [lia|]. unfold operation_of in Eo.
    destruct op; [done| |by repeat break_if].
    destruct Edel as [Edel|Edel]; [by apply bool_decide_eq_false_1 in Edel|]. by zbool.
  - by apply header_rebuild.
  - done.
Qed.

(** ** The outcome does not depend on how the kernel splits the reads *)

Definition with_script (s : list io_event) (o : scan_outcome) : scan_outcome :=
  match o with
  | ScanRecord r size f => ScanRecord r size (mkRFile (r_rest f) s)
  | o => o
  end.

Lemma scan_payload_indep h op k v bs s1 s2 :
  calm s1 = true -> calm s2 = true ->
  exists s, calm s = true /\
    scan_payload h op k v (mkRFile bs s1) = with_script s <$> scan_payload h op k v (mkRFile bs s2).
Proof.
  intros H1 H2. unfold scan_payload.
  edestruct (read_exact_calm (k + v) (mkRFile bs s1)) as (s1' & -> & H1'); [exact H1|].
  edestruct (read_exact_calm (k + v) (mkRFile bs s2)) as (s2' & -> & H2'); [exact H2|].
  cbn [r_rest]. destruct (negb _); [by exists s1'|].
  edestruct (read_exact_calm kChecksumSize (mkRFile (drop (Z.to_nat (k + v)) bs) s1'))
    as (s1'' & -> & H1''); [exact H1'|].
  edestruct (read_exact_calm kChecksumSize (mkRFile (drop (Z.to_nat (k + v)) bs) s2'))
    as (s2'' & -> & H2''); [exact H2'|].
  exists s1''. split; [done|]. cbn [r_rest]. destruct (negb _); [done|].
  destruct (read_uint32_le _); [|done]. cbv [mbind result_bind]. by destruct (negb _).
Qed.

Lemma scan_one_indep bs s1 s2 :
  calm s1 = true -> calm s2 = true ->
  exists s, calm s = true /\
    scan_one (mkRFile bs s1) = with_script s <$> scan_one (mkRFile bs s2).
Proof.
  intros H1 H2. unfold scan_one.
  edestruct (read_exact_calm kHeaderSize (mkRFile bs s1)) as (s1' & -> & H1'); [exact H1|].
  edestruct (read_exact_calm kHeaderSize (mkRFile bs s2)) as (s2' & -> & H2'); [exact H2|].
  cbn [r_rest]. cbv [mbind result_bind].
  repeat (match goal with |- context [if ?b then _ else _] => destruct b end; [by exists []|]).
  destruct (read_uint16_le _); [|by exists []].
  match goal with |- context [if ?b then _ else _] => destruct b end; [by exists []|].
  destruct (operation_of _); [|by exists []].
  match goal with |- context [if ?b then _ else _] => destruct b end; [by exists []|].
  destruct (read_uint32_le _); [|by exists []]. destruct (read_uint32_le _); [|by exists []].
  repeat (match goal with |- context [if ?b then _ else _] => destruct b end; [by exists []|]).
  by apply scan_payload_indep.
Qed.

(** Every outcome is a value: the length checks keep the field readers from
    throwing. *)
Lemma scan_one_total f : exists o, scan_one f = Ok o.
Proof.
  unfold scan_one. destruct (read_exact kHeaderSize f) as [[h io] f1].
  destruct io; [by eexists|]. destruct (zlen h =? 0); [by eexists|].
  destruct (zlen h =? kHeaderSize) eqn:El; cbn [negb]; [|by eexists]. zbool.
  destruct (negb _); [by eexists|].
  rewrite (read_uint16_le_len (subspan h 4 2)) by (apply subspan_zlen; rewrite ?El; unfold kHeaderSize; lia).
  rewrite (read_uint32_le_len (subspan h 8 4)) by (apply subspan_zlen; rewrite ?El; unfold kHeaderSize; lia).
  rewrite (read_uint32_le_len (subspan h 12 4)) by (apply subspan_zlen; rewrite ?El; unfold kHeaderSize; lia).
  cbv [mbind result_bind]. repeat (break_match; try by eexists).
  unfold scan_payload. destruct (read_exact _ f1) as [[p io] f2].
  destruct io; [by eexists|]. destruct (negb (zlen p =? _)); [by eexists|].
  destruct (read_exact kChecksumSize f2) as [[c io] f3]. destruct io; [by eexists|].
  destruct (zlen c =? kChecksumSize) eqn:Ec; cbn [negb]; [|by eexists]. zbool.
  rewrite (read_uint32_le_len c) by done. cbv [mbind result_bind]. destruct (negb (crc32 _ =? _)); by eexists.
Qed.

(** ** The whole scan *)

(** The visitor called on each record in turn. *)
Fixpoint visit_all {S} (visitor : WalRecord -> stm S unit) (rs : list WalRecord) : stm S unit :=
  match rs with
  | [] => mret tt
  | r :: rs' => _ ← visitor r; visit_all visitor rs'
  end.

Definition outcome_of (c : option WalReadIssueCode) : scan_outcome :=
  match c with None => ScanEnd | Some code => ScanIssue code end.

Definition issue_of (c : option WalReadIssueCode) (offset : Z) : option WalReadIssue :=
  match c with None => None | Some code => Some (mkIssue code offset) end.

(** The bytes [tail] hold no record at their start, and the scan ends there
    with outcome [c]. *)
Definition scan_stops (tail : str) (c : option WalReadIssueCode) : Prop :=
  forall script, calm script = true -> scan_one (mkRFile tail script) = Ok (outcome_of c).

Lemma encode_all_cons r rs : encode_all (r :: rs) = encode r ++ encode_all rs.
Proof. done. Qed.

Lemma encode_all_app rs1 rs2 : encode_all (rs1 ++ rs2) = encode_all rs1 ++ encode_all rs2.
Proof. unfold encode_all. by rewrite map_app, concat_app. Qed.

Lemma encode_length_pos r : (0 < length (encode r))%nat.
Proof.
  enough (0 < zlen (encode r)) by (unfold zlen in *; lia). rewrite encode_zlen.
  pose proof (zlen_nonneg (w_key r)). pose proof (zlen_nonneg (w_value r)).
  unfold kHeaderSize, kChecksumSize. lia.
Qed.

Lemma scan_stops_nil : scan_stops [] None.
Proof.
  intros script Hc. unfold scan_one. by edestruct read_exact_calm as (s & -> & _); [exact Hc|].
Qed.

Lemma scan_payload_outcome h op k v f o :
  calm (r_script f) = true -> scan_payload h op k v f = Ok o ->
  o <> ScanEnd /\ o <> ScanIssue IoError.
Proof.
  intros Hc. unfold scan_payload. edestruct read_exact_calm as (s1 & -> & Hc1); [exact Hc|].
  destruct (negb (zlen _ =? _)); [by intros [= <-]|].
  edestruct read_exact_calm as (s2 & -> & Hc2); [exact Hc1|].
  destruct (negb (zlen _ =? _)); [by intros [= <-]|].
  destruct (read_uint32_le _); [|done]. cbv [mbind result_bind].
  destruct (negb (crc32 _ =? _)); by intros [= <-].
Qed.

(** Without a failing call the scan reports no I/O error, and ends silently
    only at the end of the file. *)
Lemma scan_one_outcome f o :
  calm (r_script f) = true -> scan_one f = Ok o ->
  o <> ScanIssue IoError /\ (o = ScanEnd -> r_rest f = []).
Proof.
  intros Hc. unfold scan_one. edestruct read_exact_calm as (s1 & -> & Hc1); [exact Hc|].
  destruct (zlen (take _ _) =? 0) eqn:E0.
  { intros [= <-]. split; [done|]. intros _. zbool. apply zlen_0 in E0.
    destruct (r_rest f); [done|]. by unfold kHeaderSize in E0. }
  destruct (negb (_ =? kHeaderSize)); [by intros [= <-]|].
  destruct (negb (has_valid_magic _)); [by intros [= <-]|].
  destruct (read_uint16_le _); [|done]. cbv [mbind result_bind].
  destruct (negb (_ =? kVersion)); [by intros [= <-]|].
  destruct (operation_of _); [|by intros [= <-]].
  destruct (negb (_ =? 0)); [by intros [= <-]|].
  destruct (read_uint32_le _); [|done]. destruct (read_uint32_le _); [|done].
  destruct (_ || _); [by intros [= <-]|]. destruct (_ && _); [by intros [= <-]|].
  intros H. by apply scan_payload_outcome in H as [H1 H2].
Qed.

(** At any point of a file there is a record or there is not. *)
Lemma scan_cases bs :
  (exists r rest, bs = encode r ++ rest /\ valid_record r) \/
  (exists c, scan_stops bs c /\ (c = None <-> bs = []) /\ c <> Some IoError).
Proof.
  destruct (scan_one_total (mkRFile bs [])) as [o Ho].
  pose proof (scan_one_outcome (mkRFile bs []) o eq_refl Ho) as [Hio Hend].
  assert (Hany : forall script, calm script = true ->
            exists s, scan_one (mkRFile bs script) = Ok (with_script s o)).
  { intros script Hc. destruct (scan_one_indep bs script []) as (s & _ & ->); [done..|].
    rewrite Ho. by eexists. }
  destruct o as [|code|r size f'].
  - right. exists None. split; [|by specialize (Hend eq_refl); simpl in Hend; subst bs].
    intros script Hc. by destruct (Hany script Hc) as [s ->].
  - right. exists (Some code). split; [|split; [split; [done|]|congruence]].
    + intros script Hc. by destruct (Hany script Hc) as [s ->].
    + intros ->. by rewrite (scan_stops_nil [] eq_refl) in Ho.
  - left. apply scan_one_sound in Ho as (E & Hr & _ & _); [|done]. simpl in E. by exists r, (r_rest f').
Qed.

Section scan_spec.
Context {S : Type} (visitor : WalRecord -> stm S unit).

(** The loop visits the records at the front of the file, in order, and goes
    on from the first byte after them. *)
Lemma scan_loop_records rs tail fuel script res st :
  Forall valid_record rs -> calm script = true ->
  (length (encode_all rs ++ tail) < fuel)%nat -> issue res = None ->
  exists fuel' script', (length tail < fuel')%nat /\ calm script' = true /\
    scan_loop visitor fuel (mkRFile (encode_all rs ++ tail) script) res st =
    (_ ← visit_all visitor rs;
     scan_loop visitor fuel' (mkRFile tail script')
       (mkScan (records_read res + zlen rs) (valid_bytes res + zlen (encode_all rs)) None)) st.
Proof.
  revert fuel script res st. induction rs as [|r rs IH]; intros fuel script res st Hv Hc Hf Hi.
  - exists fuel, script. split; [done|]. split; [done|]. cbv [mbind stm_bind visit_all mret stm_ret].
    destruct res as [n vb i]. simpl in *. subst i. do 2 f_equal; unfold zlen; simpl; lia.
  - rewrite encode_all_cons, <- app_assoc in *. apply Forall_cons in Hv as [Hr Hv].
    pose proof (encode_length_pos r) as Hpos. rewrite length_app in Hf.
    destruct fuel as [|fuel]; [lia|].
    destruct (scan_one_encode r (encode_all rs ++ tail) script Hr Hc) as (s & Hs & E).
    destruct (visitor r st) as [[[]|e] st'] eqn:Ev.
    + destruct (IH fuel s (mkScan (records_read res + 1) (valid_bytes res + zlen (encode r)) None) st'
        Hv Hs ltac:(lia) eq_refl) as (fuel' & s' & Hf' & Hs' & E').
      exists fuel', s'. split; [done|]. split; [done|].
      cbn [scan_loop visit_all]. cbv [mbind stm_bind slift] in *. rewrite E, Ev, E'.
      cbn [records_read valid_bytes]. rewrite (zlen_cons r rs), (zlen_app (encode r)).
      by rewrite !Z.add_assoc.
    + exists (Datatypes.S (length tail)), []. split; [lia|]. split; [done|].
      cbn [scan_loop visit_all]. cbv [mbind stm_bind slift]. by rewrite E, Ev.
Qed.

Lemma scan_loop_stops tail c fuel script res st :
  scan_stops tail c -> calm script = true -> (0 < fuel)%nat -> issue res = None ->
  scan_loop visitor fuel (mkRFile tail script) res st =
  (Ok (mkScan (records_read res) (valid_bytes res) (issue_of c (valid_bytes res))), st).
Proof.
  intros Hs Hc Hf Hi. destruct fuel as [|fuel]; [lia|]. cbn [scan_loop].
  cbv [mbind stm_bind slift]. rewrite Hs by done. destruct res. simpl in Hi. subst. by destruct c.
Qed.

(** The scan of a log with tail [tail], for any visitor. *)
Lemma scan_log rs tail c script st :
  Forall valid_record rs -> scan_stops tail c -> calm script = true ->
  scan visitor (Opened (mkRFile (encode_all rs ++ tail) script)) st =
  (_ ← visit_all visitor rs;
   mret (mkScan (zlen rs) (zlen (encode_all rs)) (issue_of c (zlen (encode_all rs))))) st.
Proof.
  intros Hv Ht Hc. unfold scan.
  edestruct (scan_loop_records rs tail (scan_fuel (mkRFile (encode_all rs ++ tail) script))
    script (mkScan 0 0 None) st) as (fuel' & s' & Hf & Hs & ->);
    [done|done|unfold scan_fuel; simpl; lia|done|].
  cbv [mbind stm_bind]. destruct (visit_all visitor rs st) as [[]]; [|done].
  by rewrite (scan_loop_stops tail c) by (done || lia).
Qed.
End scan_spec.

Lemma visit_all_collect rs l : visit_all collect rs l = (Ok tt, l ++ rs).
Proof.
  revert l. induction rs as [|r rs IH]; intros l; [by rewrite app_nil_r|].
  cbn [visit_all]. cbv [mbind stm_bind collect smodify] in *. rewrite IH. by rewrite <- app_assoc.
Qed.

(** A file splits in one way into records and a tail without one. *)
Lemma split_log bs :
  exists rs tail c, bs = encode_all rs ++ tail /\ Forall valid_record rs /\
    scan_stops tail c /\ (c = None <-> tail = []) /\ c <> Some IoError.
Proof.
  remember (length bs) as n eqn:Hn. revert bs Hn.
  induction n as [n IH] using lt_wf_ind. intros bs Hn.
  destruct (scan_cases bs) as [(r & rest & -> & Hr)|(c & Hc)].
  - rewrite length_app in Hn. pose proof (encode_length_pos r).
    destruct (IH (length rest) ltac:(lia) rest eq_refl) as (rs & tail & c & -> & Hv & Ht).
    exists (r :: rs), tail, c. rewrite encode_all_cons, <- app_assoc. auto.
  - by exists [], bs, c.
Qed.

Lemma scan_file_log rs tail c script :
  Forall valid_record rs -> scan_stops tail c -> calm script = true ->
  scan_file (mkRFile (encode_all rs ++ tail) script) =
  (Ok (mkScan (zlen rs) (zlen (encode_all rs)) (issue_of c (zlen (encode_all rs)))), rs).
Proof.
  intros Hv Ht Hc. unfold scan_file. rewrite (scan_log _ rs tail c) by done.
  cbv [mbind stm_bind]. by rewrite visit_all_collect.
Qed.

(** ** Torn and damaged records *)

Lemma scan_payload_short h op k v bs script :
  0 <= k -> 0 <= v -> calm script = true -> zlen bs < k + v + kChecksumSize ->
  scan_payload h op k v (mkRFile bs script) = Ok (ScanIssue IncompleteRecord).
Proof.
  intros Hk Hv Hc Hl. unfold scan_payload.
  edestruct read_exact_calm as (s1 & -> & Hc1); [exact Hc|]. cbn [r_rest].
  destruct (zlen _ =? k + v) eqn:El; cbn [negb]; [|done]. zbool.
  edestruct read_exact_calm as (s2 & -> & Hc2); [exact Hc1|]. cbn [r_rest].
  destruct (zlen _ =? kChecksumSize) eqn:Es; cbn [negb]; [|done]. zbool. exfalso.
  unfold zlen, kChecksumSize in *. rewrite length_take in El, Es. rewrite length_drop in Es. lia.
Qed.

Lemma scan_torn r n :
  valid_record r -> (0 < n < length (encode r))%nat ->
  scan_stops (take n (encode r)) (Some IncompleteRecord).
Proof.
  intros Hr Hn script Hc. cbn [outcome_of]. pose proof (encode_zlen r) as Hl.
  pose proof (valid_record_sizes r Hr) as [Hk Hv].
  destruct (Nat.lt_ge_cases n 16) as [Hlt|Hge].
  - unfold scan_one. edestruct read_exact_calm as (s1 & -> & _); [exact Hc|]. cbn [r_rest].
    rewrite take_take. change (Z.to_nat kHeaderSize) with 16%nat. rewrite Nat.min_r by lia.
    assert (E : zlen (take n (encode r)) = Z.of_nat n) by (unfold zlen; rewrite length_take; lia).
    rewrite E. unfold kHeaderSize. zdecide. done.
  - assert (E : exists p, encode r = wal_header (op_code (w_op r)) (zlen (w_key r)) (zlen (w_value r)) ++ p
        /\ zlen p = zlen (w_key r) + zlen (w_value r) + kChecksumSize).
    { unfold encode. eexists. rewrite <- !app_assoc. split; [done|].
      rewrite !zlen_app, le_bytes_zlen. unfold kChecksumSize. lia. }
    destruct E as (p & -> & Hp). rewrite take_app_ge by (simpl; lia).
    change (length (wal_header _ _ _)) with 16%nat.
    edestruct scan_one_header as (s & Hs & ->); [by apply valid_record_header|exact Hc|].
    apply scan_payload_short; try lia; [done|].
    unfold zlen, kHeaderSize in *. rewrite length_take. lia.
Qed.

(** A log cut at any byte: the complete records before the cut, and nothing
    else, are read. *)
Lemma log_prefix rs n :
  Forall valid_record rs ->
  exists j tail c, take n (encode_all rs) = encode_all (take j rs) ++ tail /\ scan_stops tail c /\
    (c = None \/ c = Some IncompleteRecord) /\
    (forall m, (length (encode_all (take m rs)) <= n)%nat -> take m rs `prefix_of` take j rs).
Proof.
  revert n. induction rs as [|r rs IH]; intros n Hv.
  { exists 0%nat, [], None. split; [by destruct n|]. split; [apply scan_stops_nil|].
    split; [by left|]. intros m _. rewrite !take_nil. apply prefix_nil. }
  apply Forall_cons in Hv as [Hr Hv]. rewrite encode_all_cons.
  destruct (Nat.le_gt_cases (length (encode r)) n) as [Hle|Hgt].
  - destruct (IH (n - length (encode r))%nat Hv) as (j & tail & c & Ht & Hs & Hc & Hmax).
    exists (S j), tail, c. rewrite take_app_ge by lia. rewrite Ht. split.
    { cbn [take]. rewrite encode_all_cons. by rewrite <- app_assoc. }
    split; [done|]. split; [done|]. intros [|m] Hm; cbn [take] in *; [apply prefix_nil|].
    apply prefix_cons, Hmax. rewrite encode_all_cons, length_app in Hm. lia.
  - exists 0%nat. rewrite take_app_le by lia.
    destruct n as [|n].
    + exists [], None. split; [done|]. split; [apply scan_stops_nil|]. split; [by left|].
      intros [|m] Hm; [apply prefix_nil|]. cbn [take] in Hm. rewrite encode_all_cons, length_app in Hm. lia.
    + exists (take (S n) (encode r)), (Some IncompleteRecord).
      split; [done|]. split; [by apply scan_torn; [|lia]|]. split; [by right|].
      intros [|m] Hm; [apply prefix_nil|]. cbn [take] in Hm. rewrite encode_all_cons, length_app in Hm. lia.
Qed.

(** A burst of at most four damaged payload bytes is noticed. *)
Lemma scan_damaged r p x y q rest :
  valid_record r -> w_key r ++ w_value r = p ++ x ++ q -> length x = length y ->
  (length x <= 4)%nat -> x <> y ->
  let h := wal_header (op_code (w_op r)) (zlen (w_key r)) (zlen (w_value r)) in
  scan_stops (h ++ (p ++ y ++ q) ++ le_bytes 4 (crc32 (h ++ w_key r ++ w_value r)) ++ rest)
    (Some ChecksumMismatch).
Proof.
  intros Hr Hp Hlen H4 Hne h script Hc. cbn [outcome_of].
  edestruct (scan_one_header (w_op r) (zlen (w_key r)) (zlen (w_value r))) as (s & Hs & Eh);
    [by apply valid_record_header|exact Hc|]. fold h in Eh. rewrite Eh. clear Eh.
  assert (El : length (p ++ y ++ q) = length (w_key r ++ w_value r)).
  { rewrite Hp, !length_app. lia. }
  set (k' := take (length (w_key r)) (p ++ y ++ q)). set (v' := drop (length (w_key r)) (p ++ y ++ q)).
  assert (Ekv : p ++ y ++ q = k' ++ v') by by unfold k', v'; rewrite take_drop.
  assert (Ek : zlen (w_key r) = zlen k').
  { unfold zlen, k'. rewrite length_take, El, length_app. lia. }
  assert (Ev : zlen (w_value r) = zlen v').
  { unfold zlen, v'. rewrite length_drop, El, length_app. lia. }
  clearbody h. rewrite Ekv, Ek, Ev.
  edestruct (scan_payload_full h (w_op r) k' v' rest s) as (s2 & Hc2 & E); [exact Hs|apply (le_bytes_zlen 4)|]. rewrite E.
  rewrite le_val_bytes, Z.mod_small by apply crc32_range.
  rewrite (proj2 (Z.eqb_neq _ _)); [done|]. rewrite <- Ekv, Hp. intros Hcrc.
  apply Hne. symmetry. apply (crc32_burst (h ++ p) y x q); [done|lia|].
  by rewrite <- !app_assoc.
Qed.
