(* ===== verification/WalWriter.v ===== *)
(** * Appending to the write-ahead log

    src/wal_writer.cpp: the descriptor, the dirty flag, the durability mode
    and the background flusher of Batch mode.  Every member function holds
    [mutex_] for its whole body, and the flusher holds it except while it
    waits, so each call and each wake-up of the flusher is one step. *)

From S2P Require Import Prelude Codec Checksum Posix Store WalFormat WalReader.

(** ** Definitions *)

Record WalWriter := mkWalWriter {
  ww_file : WFile;
  durability_mode_ : DurabilityMode;
  dirty_ : bool;
  stopping_ : bool;
  background_flush_error_ : option exn;
  bytes_appended_ : Z
}.

Definition set_file (f : WFile) (w : WalWriter) : WalWriter :=
  mkWalWriter f (durability_mode_ w) (dirty_ w) (stopping_ w) (background_flush_error_ w)
    (bytes_appended_ w).
Definition set_dirty (b : bool) (w : WalWriter) : WalWriter :=
  mkWalWriter (ww_file w) (durability_mode_ w) b (stopping_ w) (background_flush_error_ w)
    (bytes_appended_ w).
Definition set_bytes (n : Z) (w : WalWriter) : WalWriter :=
  mkWalWriter (ww_file w) (durability_mode_ w) (dirty_ w) (stopping_ w)
    (background_flush_error_ w) n.
Definition set_stopping (b : bool) (w : WalWriter) : WalWriter :=
  mkWalWriter (ww_file w) (durability_mode_ w) (dirty_ w) b (background_flush_error_ w)
    (bytes_appended_ w).
Definition set_flush_error (e : exn) (w : WalWriter) : WalWriter :=
  mkWalWriter (ww_file w) (durability_mode_ w) (dirty_ w) (stopping_ w) (Some e)
    (bytes_appended_ w).

(** A call on the descriptor, as a call on the writer. *)
Definition on_file {A} (c : stm WFile A) : stm WalWriter A :=
  fun w => match c (ww_file w) with (r, f) => (r, set_file f w) end.

Definition write_all (bytes : str) : stm WFile unit :=
  posix_write_all (fun e => SystemError e "failed to append WAL record")
    (Some (RuntimeError "WAL write returned zero bytes")) bytes.

Definition sync_file : stm WFile unit :=
  posix_fsync (fun e => SystemError e "failed to fsync WAL file").

Definition truncate_file : stm WFile unit :=
  posix_truncate (fun e => SystemError e "failed to truncate WAL file").

(** The constructor, after the file has been opened for append with contents
    [existing]: they have been read back at recovery, so they are on disk. *)
Definition wal_open (path_empty : bool) (interval_ms : Z) (mode : DurabilityMode)
    (existing : str) (script : list io_event) : result WalWriter :=
  _ ← throw_if path_empty (InvalidArgument "WAL path must not be empty");
  _ ← throw_if (interval_ms <=? 0)
        (InvalidArgument "batch flush interval must be greater than zero");
  mret (mkWalWriter (mkWFile existing existing script) mode false false None 0).

Definition flush_locked : stm WalWriter unit :=
  w ← sget;
  if negb (dirty_ w) then mret tt
  else
    _ ← on_file sync_file;
    smodify (set_dirty false).

Definition throw_if_background_flush_failed_locked : stm WalWriter unit :=
  w ← sget;
  match background_flush_error_ w with
  | Some e => sthrow e
  | None => mret tt
  end.

Definition append (record : WalRecord) : stm WalWriter unit :=
  encoded ← slift (serialize record);
  _ ← throw_if_background_flush_failed_locked;
  _ ← on_file (write_all encoded);
  _ ← smodify (fun w => set_bytes (u64 (bytes_appended_ w + zlen encoded)) w);
  _ ← smodify (set_dirty true);
  w ← sget;
  match durability_mode_ w with
  | Sync => flush_locked
  | Batch | NoSync => mret tt
  end.

Definition flush : stm WalWriter unit :=
  _ ← throw_if_background_flush_failed_locked;
  flush_locked.

Definition reset : stm WalWriter unit :=
  _ ← throw_if_background_flush_failed_locked;
  _ ← flush_locked;
  _ ← on_file truncate_file;
  _ ← on_file sync_file;
  _ ← smodify (set_bytes 0);
  smodify (set_dirty false).

(** One wake-up of [batch_flush_loop] while it runs. *)
Definition batch_wakeup : stm WalWriter unit :=
  w ← sget;
  if negb (dirty_ w) then mret tt
  else
    scatch flush_locked (fun e => smodify (fun w => set_stopping true (set_flush_error e w))).

(** The code after the loop. *)
Definition batch_finish : stm WalWriter unit :=
  w ← sget;
  if dirty_ w && negb (bool_decide (is_Some (background_flush_error_ w))) then
    scatch flush_locked (fun e => smodify (set_flush_error e))
  else mret tt.

(** The destructor: the flusher is told to stop and joined, then what is
    still dirty is flushed and a failure ignored. *)
Definition wal_close : stm WalWriter unit :=
  w ← sget;
  _ ← (match durability_mode_ w with
       | Batch => _ ← smodify (set_stopping true); batch_finish
       | _ => mret tt
       end);
  w ← sget;
  if dirty_ w && negb (bool_decide (durability_mode_ w = NoSync)) then
    scatch flush_locked (fun _ => mret tt)
  else mret tt.

(** ** The writer's invariant

    What is durable is a part of the file, always.  What is not dirty is
    durable, as long as no [::write] of a record failed half way: such a call
    leaves bytes behind without setting [dirty_]. *)

Definition wal_prefix (w : WalWriter) : Prop :=
  f_durable (ww_file w) `prefix_of` f_data (ww_file w).

Definition wal_clean (w : WalWriter) : Prop :=
  dirty_ w = false -> f_durable (ww_file w) = f_data (ww_file w).

(** The steps of a writer in use: calls of its clients and wake-ups of the
    flusher, in any order.  The list is of the records whose append returned. *)
Inductive wal_run : WalWriter -> list WalRecord -> WalWriter -> Prop :=
| run_nil w : wal_run w [] w
| run_append w0 rs w rec w' :
    wal_run w0 rs w -> append rec w = (Ok tt, w') -> wal_run w0 (rs ++ [rec]) w'
| run_flush w0 rs w r w' : wal_run w0 rs w -> flush w = (r, w') -> wal_run w0 rs w'
| run_wakeup w0 rs w r w' : wal_run w0 rs w -> batch_wakeup w = (r, w') -> wal_run w0 rs w'
| run_finish w0 rs w r w' : wal_run w0 rs w -> batch_finish w = (r, w') -> wal_run w0 rs w'
| run_close w0 rs w r w' : wal_run w0 rs w -> wal_close w = (r, w') -> wal_run w0 rs w'.

(** What a crash can leave of the file: everything durable, and any part of
    what was written after it. *)
Definition crash_image (w : WalWriter) (file : str) : Prop :=
  f_durable (ww_file w) `prefix_of` file /\ file `prefix_of` f_data (ww_file w).

(** ** Lemmas *)

Ltac wstep := cbv [mbind mret stm_bind stm_ret sget sput smodify slift sthrow on_file].

Definition wal_inv (w : WalWriter) : Prop := wal_prefix w /\ wal_clean w.

Lemma wal_open_inv b i m ex sc w : wal_open b i m ex sc = Ok w -> wal_inv w.
Proof. unfold wal_open. intros H. inv_ok. split; [by unfold wal_prefix|done]. Qed.

Lemma flush_locked_spec w r w' :
  wal_inv w -> flush_locked w = (r, w') ->
  wal_inv w' /\ f_data (ww_file w') = f_data (ww_file w) /\
  durability_mode_ w' = durability_mode_ w /\
  bytes_appended_ w' = bytes_appended_ w /\
  (r = Ok tt -> dirty_ w' = false) /\ (dirty_ w = false -> dirty_ w' = false).
Proof.
  intros [Hp Hd]. unfold flush_locked. wstep. destruct (dirty_ w) eqn:E; cbn [negb].
  - destruct (sync_file (ww_file w)) as [r0 f] eqn:Ef.
    pose proof (posix_fsync_spec _ _ _ _ Ef) as (H1 & H2 & H3).
    destruct r0 as [[]|e]; intros [= <- <-]; simpl.
    + repeat split; try done; unfold wal_prefix, wal_clean; simpl; rewrite H1, H2 by done; done.
    + split; [|done]. split; [unfold wal_prefix|unfold wal_clean]; simpl; rewrite H1, H3 by done; [done|congruence].
  - by intros [= <- <-].
Qed.

(** A record that was appended is in the file, whole, after what was there. *)
Lemma append_spec rec w w' :
  wal_inv w -> append rec w = (Ok tt, w') ->
  valid_record rec /\ wal_inv w' /\ f_data (ww_file w') = f_data (ww_file w) ++ encode rec /\
  durability_mode_ w' = durability_mode_ w /\
  (durability_mode_ w = Sync -> dirty_ w' = false).
Proof.
  intros [Hp Hc]. unfold append, throw_if_background_flush_failed_locked. wstep.
  destruct (serialize rec) as [bs|e] eqn:Es; [|done]. apply serialize_iff in Es as [Hr ->].
  destruct (background_flush_error_ w); [done|].
  destruct (write_all (encode rec) (ww_file w)) as [r0 f] eqn:Ew.
  pose proof (posix_write_all_spec _ _ _ _ _ _ Ew) as (H1 & _ & H2).
  destruct r0 as [[]|e]; [|done]. specialize (H2 eq_refl).
  set (w1 := set_dirty true _).
  assert (Hw1 : wal_inv w1).
  { split; [|done]. unfold wal_prefix, w1. simpl. rewrite H1, H2. by apply prefix_app_r. }
  destruct (durability_mode_ w1) eqn:Em.
  - intros H. apply flush_locked_spec in H as (Hi & Hd & Hm & _ & Hok & _); [|done].
    unfold w1 in *. simpl in *. rewrite Hd, Hm, H2. split_and!; auto.
  - unfold w1 in *. simpl in *. intros [= <-]. rewrite Em. by split_and!.
  - unfold w1 in *. simpl in *. intros [= <-]. rewrite Em. by split_and!.
Qed.

(** The other steps leave the file and the mode alone. *)
Definition same_log (w w' : WalWriter) : Prop :=
  wal_inv w' /\ f_data (ww_file w') = f_data (ww_file w) /\
  durability_mode_ w' = durability_mode_ w /\ (dirty_ w = false -> dirty_ w' = false).

Lemma flush_locked_same w r w' : wal_inv w -> flush_locked w = (r, w') -> same_log w w'.
Proof. intros Hi H. by apply flush_locked_spec in H as (? & ? & ? & _ & _ & ?). Qed.

Lemma flush_same w r w' : wal_inv w -> flush w = (r, w') -> same_log w w'.
Proof.
  intros Hi. unfold flush, throw_if_background_flush_failed_locked. wstep.
  destruct (background_flush_error_ w); [by intros [= <- <-]|]. by apply flush_locked_same.
Qed.

Lemma catch_flush_same h w r w' :
  (forall e w1, same_log w w1 -> same_log w (h e w1).2) ->
  wal_inv w -> scatch flush_locked h w = (r, w') -> same_log w w'.
Proof.
  intros Hh Hi. unfold scatch. destruct (flush_locked w) as [r0 w1] eqn:E.
  apply flush_locked_same in E; [|done]. destruct r0; [by intros [= <- <-]|].
  intros H. specialize (Hh e w1 E). by rewrite H in Hh.
Qed.

Lemma batch_wakeup_same w r w' : wal_inv w -> batch_wakeup w = (r, w') -> same_log w w'.
Proof.
  intros Hi. unfold batch_wakeup. wstep. destruct (negb _); [by intros [= <- <-]|].
  by apply catch_flush_same.
Qed.

Lemma batch_finish_same w r w' : wal_inv w -> batch_finish w = (r, w') -> same_log w w'.
Proof.
  intros Hi. unfold batch_finish. wstep. destruct (_ && _); [|by intros [= <- <-]].
  by apply catch_flush_same.
Qed.

Lemma same_log_trans w1 w2 w3 : same_log w1 w2 -> same_log w2 w3 -> same_log w1 w3.
Proof. intros (? & ? & ? & ?) (? & ? & ? & ?). split_and!; auto; congruence. Qed.

Lemma wal_close_same w r w' : wal_inv w -> wal_close w = (r, w') -> same_log w w'.
Proof.
  intros Hi. unfold wal_close. wstep.
  assert (Hfin : forall w1 r w', same_log w w1 ->
    (if dirty_ w1 && negb (bool_decide (durability_mode_ w1 = NoSync))
     then scatch flush_locked (fun _ => fun s => (Ok tt, s)) else fun s => (Ok tt, s)) w1 = (r, w') ->
    same_log w w').
  { intros w1 r1 w1' Hs. destruct (_ && _); [|by intros [= <- <-]].
    intros H. eapply same_log_trans; [exact Hs|]. eapply catch_flush_same in H; [exact H|done|].
    apply Hs. }
  destruct (durability_mode_ w).
  - by apply Hfin.
  - destruct (batch_finish (set_stopping true w)) as [r0 w1] eqn:E.
    apply batch_finish_same in E; [|done]. destruct r0; [by apply Hfin|by intros [= <- <-]].
  - by apply Hfin.
Qed.

Lemma wal_run_spec w0 rs w :
  wal_inv w0 -> wal_run w0 rs w ->
  wal_inv w /\ Forall valid_record rs /\
  f_data (ww_file w) = f_data (ww_file w0) ++ encode_all rs /\
  durability_mode_ w = durability_mode_ w0 /\
  (durability_mode_ w0 = Sync -> dirty_ w0 = false -> dirty_ w = false).
Proof.
  intros Hi. induction 1 as [w|w0 rs w rec w' _ IH H|w0 rs w r w' _ IH H|w0 rs w r w' _ IH H
    |w0 rs w r w' _ IH H|w0 rs w r w' _ IH H].
  { by rewrite app_nil_r. }
  all: destruct (IH Hi) as (Hw & Hv & Hd & Hm & Hs).
  - apply append_spec in H as (Hr & Hw' & Hd' & Hm' & Hs'); [|done].
    split; [done|]. split; [by apply Forall_app; auto|].
    split; [|split; [congruence|rewrite Hm in Hs'; auto]].
    rewrite Hd', Hd, encode_all_app, <- app_assoc. by rewrite encode_all_cons, app_nil_r.
  - apply flush_same in H as (? & ? & ? & ?); [|done]. split_and!; auto; congruence.
  - apply batch_wakeup_same in H as (? & ? & ? & ?); [|done]. split_and!; auto; congruence.
  - apply batch_finish_same in H as (? & ? & ? & ?); [|done]. split_and!; auto; congruence.
  - apply wal_close_same in H as (? & ? & ? & ?); [|done]. split_and!; auto; congruence.
Qed.

(** ** What the log guarantees *)

(** The log round-trips. Records serialized one after the other are read
    back in order, all of them and nothing else, whatever sizes the kernel
    gives to the reads and however often it interrupts them. *)
Lemma wal_roundtrip rs chunks script :
  Forall2 (fun r bs => serialize r = Ok bs) rs chunks -> calm script = true ->
  scan_file (mkRFile (concat chunks) script)
  = (Ok (mkScan (zlen rs) (zlen (concat chunks)) None), rs).
Proof.
  intros Hs Hc.
  assert (E : concat chunks = encode_all rs /\ Forall valid_record rs).
  { clear Hc. induction Hs as [|r bs rs chunks Hr _ [IH1 IH2]]; [done|].
    apply serialize_iff in Hr as [Hr ->]. simpl. rewrite IH1. auto. }
  destruct E as [-> Hv]. rewrite <- (app_nil_r (encode_all rs)) at 1.
  by rewrite (scan_file_log rs [] None) by auto using scan_stops_nil.
Qed.

Definition demo_put : WalRecord := mkWalRecord OpPut (bytes_of "user:1") (bytes_of "Ansh").
Definition demo_delete : WalRecord := mkWalRecord OpDelete (bytes_of "user:2") [].



(** In Sync mode an acknowledged record survives a crash. Start from a
    clean log of records [rs0], append in Sync mode with flushes and
    flusher wake-ups in between; whatever file a crash leaves, scanning it
    yields all of [rs0] and all records whose append returned, in order, and
    no issue. *)
Lemma sync_appends_survive_crash rs0 interval script0 w0 rs w file script :
  Forall valid_record rs0 ->
  wal_open false interval Sync (encode_all rs0) script0 = Ok w0 ->
  wal_run w0 rs w ->
  crash_image w file -> calm script = true ->
  scan_file (mkRFile file script)
  = (Ok (mkScan (zlen (rs0 ++ rs)) (zlen (encode_all (rs0 ++ rs))) None), rs0 ++ rs).
Proof.
  intros Hv0 Ho Hrun [H1 H2] Hc. pose proof (wal_open_inv _ _ _ _ _ _ Ho) as Hi0.
  apply wal_run_spec in Hrun as ([_ Hcl] & Hv & Hd & Hm & Hs); [|done].
  unfold wal_open in Ho. inv_ok. simpl in Hd.
  assert (file = encode_all (rs0 ++ rs)) as ->.
  { rewrite (Hcl (Hs eq_refl eq_refl)) in H1. rewrite encode_all_app, <- Hd.
    by apply (anti_symm prefix). }
  rewrite <- (app_nil_r (encode_all (rs0 ++ rs))) at 1.
  rewrite (scan_file_log (rs0 ++ rs) [] None); [done| |apply scan_stops_nil|done].
  by apply Forall_app.
Qed.

Definition demo_writer : WalWriter :=
  mkWalWriter (mkWFile [] [] [Done 10; Interrupted]) Sync false false None 0.


Definition demo_batch : WalWriter := mkWalWriter (mkWFile [] [] []) Batch false false None 0.


(** Damage confined to four consecutive payload bytes of a record is
    reported as a checksum mismatch, and the scan stops before the record. *)
Theorem damaged_payload_detected rs r p x y q rest script :
  Forall valid_record rs -> valid_record r ->
  w_key r ++ w_value r = p ++ x ++ q -> length x = length y -> (length x <= 4)%nat -> x <> y ->
  calm script = true ->
  let h := wal_header (op_code (w_op r)) (zlen (w_key r)) (zlen (w_value r)) in
  scan_file (mkRFile (encode_all rs ++ h ++ (p ++ y ++ q)
                        ++ le_bytes 4 (crc32 (h ++ w_key r ++ w_value r)) ++ rest) script)
  = (Ok (mkScan (zlen rs) (zlen (encode_all rs))
           (Some (mkIssue ChecksumMismatch (zlen (encode_all rs))))), rs).
Proof.
  intros Hv Hr Hp Hl H4 Hne Hc h.
  by rewrite (scan_file_log rs _ (Some ChecksumMismatch)) by (try done; by eapply scan_damaged).
Qed.

Lemma damaged_payload_detected_witness :
  let h := wal_header 1 6 4 in
  scan_file (mkRFile (encode demo_delete ++ h ++ (bytes_of "user" ++ bytes_of ";" ++ bytes_of "1Ansh")
                        ++ le_bytes 4 (crc32 (h ++ bytes_of "user:1" ++ bytes_of "Ansh")) ++ []) [])
  = (Ok (mkScan 1 26 (Some (mkIssue ChecksumMismatch 26))), [demo_delete]).
Proof.
  apply (damaged_payload_detected [demo_delete] demo_put (bytes_of "user") (bytes_of ":")
           (bytes_of ";") (bytes_of "1Ansh") [] []);
    try (apply (bool_decide_unpack _); vm_compute; exact I); reflexivity.
Defined.

(** C28: a failed append can lose later acknowledged writes. When [::write]
    stops half way through a record and then fails, [append] throws but the
    half record stays in the file; the next append returns, in Sync mode and
    after an fsync, and yet a scan of the durable file stops at the half
    record and never reaches it. *)
Theorem torn_append_hides_acknowledged_write :
  exists w w1 w2 e res,
    wal_inv w /\ durability_mode_ w = Sync /\
    append demo_put w = (Throw e, w1) /\
    append demo_delete w1 = (Ok tt, w2) /\ dirty_ w2 = false /\
    scan_file (mkRFile (f_durable (ww_file w2)) []) = (Ok res, []) /\
    issue res <> None.
Proof.
  set (w := mkWalWriter (mkWFile [] [] [Done 20; Failed 28]) Sync false false None 0).
  exists w, (append demo_put w).2, (append demo_delete (append demo_put w).2).2.
  eexists _, _. split; [split; [by exists []|done]|]. split; [done|].
  split; [vm_compute; reflexivity|]. split; [vm_compute; reflexivity|].
  split; [vm_compute; reflexivity|]. split; [vm_compute; reflexivity|]. done.
Qed.
