(* ===== verification/Recovery.v ===== *)
(** * Crash recovery

    src/recovery_manager.cpp: the records of the log are replayed into a store,
    and what follows the last whole record is cut off.  The store is any
    implementation of [KeyValueStore]; the theorems hold for every one that
    satisfies [KeyValueLaws]. *)

From S2P Require Import Prelude Codec Posix Store WalFormat WalReader WalWriter InMemoryStore.

(** ** Definitions *)

Record RecoveryOptions := mkRecoveryOptions {
  truncate_invalid_tail : bool;
  diagnostics : bool
}.

Record RecoveryReport := mkRecoveryReport {
  records_applied : Z;
  puts_applied : Z;
  deletes_applied : Z;
  valid_wal_bytes : Z;
  invalid_tail_truncated : bool;
  rr_issue : option WalReadIssue
}.

Definition empty_report : RecoveryReport := mkRecoveryReport 0 0 0 0 false None.

Definition completed_cleanly (report : RecoveryReport) : bool :=
  match rr_issue report with None => true | Some _ => false end.

(** The log as recovery finds it: its contents, the outcomes of the reads to
    come, and whether it can be opened and, later, resized. *)
Record WalOnDisk := mkWalOnDisk {
  wd_bytes : str;
  wd_script : list io_event;
  wd_open : bool;
  wd_resize : option Z
}.

(** A line on the diagnostics stream shows an offset and an error name. *)
Definition diagnostic_line : Type := Z * string.

Section recover.
Context {S : Type} `{KeyValueStore S}.

Definition bump (puts deletes : Z) (r : RecoveryReport) : RecoveryReport :=
  mkRecoveryReport (records_applied r) (u64 (puts_applied r + puts))
    (u64 (deletes_applied r + deletes)) (valid_wal_bytes r) (invalid_tail_truncated r) (rr_issue r).

Definition bump_records (r : RecoveryReport) : RecoveryReport :=
  mkRecoveryReport (u64 (records_applied r + 1)) (puts_applied r) (deletes_applied r)
    (valid_wal_bytes r) (invalid_tail_truncated r) (rr_issue r).

(** A call on the destination, and an update of the report. *)
Definition on_destination {A} (c : stm S A) : stm (S * RecoveryReport) A :=
  fun '(s, report) => match c s with (r, s') => (r, (s', report)) end.
Definition on_report (f : RecoveryReport -> RecoveryReport) : stm (S * RecoveryReport) unit :=
  smodify (fun '(s, report) => (s, f report)).

(** The visitor handed to the scan. *)
Definition replay_record (record : WalRecord) : stm (S * RecoveryReport) unit :=
  _ ← (if bool_decide (w_op record = OpPut) then
         _ ← on_destination (kv_put (w_key record) (w_value record));
         on_report (bump 1 0)
       else
         _ ← on_destination (kv_remove (w_key record));
         on_report (bump 0 1));
  on_report bump_records.

Definition finish_report (res : WalScanResult) (r : RecoveryReport) : RecoveryReport :=
  mkRecoveryReport (records_applied r) (puts_applied r) (deletes_applied r) (valid_bytes res)
    (invalid_tail_truncated r) (issue res).

Definition truncated_report (r : RecoveryReport) : RecoveryReport :=
  mkRecoveryReport (records_applied r) (puts_applied r) (deletes_applied r) (valid_wal_bytes r)
    true (rr_issue r).

(** [std::filesystem::resize_file] *)
Definition resize_file (size : Z) (w : WalOnDisk) : result WalOnDisk :=
  match wd_resize w with
  | Some errno => Throw (SystemError errno "filesystem error: cannot resize file")
  | None => Ok (mkWalOnDisk (take (Z.to_nat size) (wd_bytes w)) (wd_script w) (wd_open w) None)
  end.

(** Answers the report, the destination, the log and the diagnostics. *)
Definition recover (wal : option WalOnDisk) (destination : S) (options : RecoveryOptions)
    : result RecoveryReport * S * option WalOnDisk * list diagnostic_line :=
  match wal with
  | None => (Ok empty_report, destination, None, [])
  | Some w =>
      let source := if wd_open w then Opened (mkRFile (wd_bytes w) (wd_script w)) else OpenFailed in
      match scan replay_record source (destination, empty_report) with
      | (Throw e, (s, _)) => (Throw e, s, wal, [])
      | (Ok res, (s, report)) =>
          let report := finish_report res report in
          let log := match issue res with
                     | Some i => if diagnostics options
                                 then [(i_offset i, issue_to_string (i_code i))] else []
                     | None => []
                     end in
          match issue res with
          | Some i =>
              if negb (bool_decide (i_code i = IoError)) && truncate_invalid_tail options then
                match resize_file (valid_bytes res) w with
                | Throw e => (Throw e, s, wal, log)
                | Ok w' => (Ok (truncated_report report), s, Some w', log)
                end
              else (Ok report, s, wal, log)
          | None => (Ok report, s, wal, log)
          end
      end
  end.
End recover.

(** ** Lemmas *)

Definition is_put (r : WalRecord) : bool := bool_decide (w_op r = OpPut).

(** The report after [rs] were replayed. *)
Definition report_after (rs : list WalRecord) (r : RecoveryReport) : RecoveryReport :=
  mkRecoveryReport (u64 (records_applied r + zlen rs))
    (u64 (puts_applied r + zlen (filter (fun x => is_put x = true) rs)))
    (u64 (deletes_applied r + zlen (filter (fun x => is_put x = false) rs)))
    (valid_wal_bytes r) (invalid_tail_truncated r) (rr_issue r).

Definition report_wf (r : RecoveryReport) : Prop :=
  u64 (records_applied r) = records_applied r /\ u64 (puts_applied r) = puts_applied r /\
  u64 (deletes_applied r) = deletes_applied r.

Lemma report_after_one r report :
  report_after [r] report
  = bump_records (bump (if is_put r then 1 else 0) (if is_put r then 0 else 1) report).
Proof.
  unfold report_after. rewrite !filter_cons. destruct (is_put r) eqn:E; by do 2 case_decide.
Qed.

Section replay.
Context {S : Type} `{KeyValueLaws S}.

Lemma replay_record_ok r s report :
  valid_record r -> kv_inv s -> 0 < kv_budget s ->
  exists s', replay_record r (s, report) = (Ok tt, (s', report_after [r] report)) /\ kv_inv s' /\
    kv_abs s' = apply_record (kv_abs s) r /\ kv_budget s - 1 <= kv_budget s'.
Proof.
  intros [Hk Hop] Hi Hb. unfold replay_record, on_destination, on_report, apply_record.
  rewrite report_after_one. unfold is_put. mred. destruct (w_op r) eqn:Eop; [| |done].
  - rewrite bool_decide_true by done.
    destruct (kv_put_ok s (w_key r) (w_value r)) as (s' & -> & H1 & H2 & H3); [done..|].
    exists s'. by split_and!.
  - rewrite bool_decide_false by done.
    destruct (kv_remove_ok s (w_key r)) as (s' & -> & H1 & H2 & H3); [done..|].
    exists s'. by split_and!.
Qed.

Lemma report_after_wf rs r : report_wf (report_after rs r).
Proof. unfold report_wf, report_after. simpl. by rewrite !u64_idem. Qed.

Lemma report_after_cons r rs report :
  report_after rs (report_after [r] report) = report_after (r :: rs) report.
Proof.
  unfold report_after. simpl. rewrite !u64_add_l, zlen_cons, !filter_cons.
  do 2 case_decide; simpl; rewrite ?zlen_cons, ?zlen_nil, ?Z.add_0_r; f_equal; f_equal; lia.
Qed.

Lemma replay_all_ok rs s report :
  Forall valid_record rs -> kv_inv s -> zlen rs <= kv_budget s -> report_wf report ->
  exists s', visit_all replay_record rs (s, report) = (Ok tt, (s', report_after rs report)) /\
    kv_inv s' /\ kv_abs s' = apply_records (kv_abs s) rs.
Proof.
  revert s report. induction rs as [|r rs IH]; intros s report Hv Hi Hb Hw.
  - exists s. split; [|done]. unfold report_after. simpl. destruct Hw as (W1 & W2 & W3).
    destruct report; simpl in *. rewrite zlen_nil, !Z.add_0_r in *. by rewrite W1, W2, W3.
  - apply Forall_cons in Hv as [Hr Hv]. rewrite zlen_cons in Hb. pose proof (zlen_nonneg rs).
    destruct (replay_record_ok r s report) as (s1 & E1 & Hi1 & Ha1 & Hb1); [done|done|lia|].
    destruct (IH s1 (report_after [r] report)) as (s2 & E2 & Hi2 & Ha2);
      [done|done|lia|apply report_after_wf|].
    exists s2. simpl. unfold mbind, stm_bind. rewrite E1, E2, report_after_cons.
    split; [done|]. split; [done|]. by rewrite Ha2, Ha1.
Qed.
End replay.

(** ** What recovery guarantees *)

Section recovery.
Context {S : Type} `{KeyValueLaws S}.

(** The report on a log of [rs] that stops with [c]. *)
Definition log_report (rs : list WalRecord) (c : option WalReadIssueCode) (cut : bool)
    : RecoveryReport :=
  let r := report_after rs empty_report in
  mkRecoveryReport (records_applied r) (puts_applied r) (deletes_applied r)
    (zlen (encode_all rs)) cut (issue_of c (zlen (encode_all rs))).

(** The diagnostics on such a log. *)
Definition log_lines (rs : list WalRecord) (c : option WalReadIssueCode) (options : RecoveryOptions)
    : list diagnostic_line :=
  match c with
  | Some code =>
      if diagnostics options then [(zlen (encode_all rs), issue_to_string code)] else []
  | None => []
  end.

Lemma recover_log rs tail c script s options :
  Forall valid_record rs -> scan_stops tail c -> c <> Some IoError -> calm script = true ->
  kv_inv s -> zlen rs <= kv_budget s ->
  let cut := bool_decide (is_Some c) && truncate_invalid_tail options in
  exists s',
    recover (Some (mkWalOnDisk (encode_all rs ++ tail) script true None)) s options
    = (Ok (log_report rs c cut), s',
       Some (mkWalOnDisk (if cut then encode_all rs else encode_all rs ++ tail) script true None),
       log_lines rs c options) /\
    kv_inv s' /\ kv_abs s' = apply_records (kv_abs s) rs.
Proof.
  intros Hv Hs Hio Hc Hi Hb cut.
  destruct (replay_all_ok rs s empty_report) as (s' & E & Hi' & Ha'); [done..|].
  exists s'. unfold recover, log_lines. cbn [wd_open wd_bytes wd_script].
  rewrite (scan_log _ rs tail c) by done. unfold mbind, stm_bind. rewrite E.
  unfold mret, stm_ret. cbn [issue valid_bytes]. unfold cut.
  destruct c as [code|]; cbn [issue_of i_code i_offset]; [|done].
  rewrite (bool_decide_true (is_Some _)) by done.
  rewrite (bool_decide_false (code = IoError)) by congruence. cbn [negb andb].
  destruct (truncate_invalid_tail options); [|done].
  unfold resize_file. cbn [wd_resize wd_bytes wd_script wd_open].
  by rewrite to_nat_zlen, take_app_length.
Qed.

(** Recovery replays the log into any store that keeps its promises. On
    any readable file there are records [rs], written as the first bytes of
    it, such that the store ends with the effect of [rs] in order on what it
    held, the report counts them, an issue is reported exactly when bytes
    follow them, and with truncation enabled the file is cut back to them. *)
Theorem recovery_replays_log file script s options :
  calm script = true -> kv_inv s -> zlen file <= kv_budget s ->
  exists rs tail c s' lines,
    file = encode_all rs ++ tail /\ Forall valid_record rs /\ (c = None <-> tail = []) /\
    recover (Some (mkWalOnDisk file script true None)) s options
    = (Ok (log_report rs c (negb (is_nil tail) && truncate_invalid_tail options)), s',
       Some (mkWalOnDisk (if truncate_invalid_tail options then encode_all rs else file)
               script true None), lines) /\
    kv_inv s' /\ kv_abs s' = apply_records (kv_abs s) rs /\
    (lines = [] <-> (tail = [] \/ diagnostics options = false)).
Proof.
  intros Hc Hi Hb. destruct (split_log file) as (rs & tail & c & -> & Hv & Hs & Hnil & Hio).
  assert (Hlen : zlen rs <= zlen (encode_all rs)).
  { clear. induction rs as [|r rs IH]; [done|]. rewrite encode_all_cons, zlen_cons, zlen_app.
    pose proof (encode_length_pos r). unfold zlen in *. lia. }
  rewrite zlen_app in Hb. pose proof (zlen_nonneg tail).
  destruct (recover_log rs tail c script s options) as (s' & E & Hi' & Ha'); [done..|lia|].
  exists rs, tail, c, s', (log_lines rs c options). split_and!; [done..| |done|done|].
  - rewrite E. destruct c as [code|].
    + assert (tail <> []) by (intros Ht; by apply (proj2 Hnil) in Ht).
      rewrite bool_decide_true by done. rewrite (proj2 (is_nil_false tail)) by done. simpl.
      by destruct (truncate_invalid_tail options).
    + rewrite (proj1 Hnil) by done. rewrite app_nil_r. simpl. by destruct (truncate_invalid_tail options).
  - unfold log_lines. destruct c as [code|].
    + assert (tail <> []) by (intros Ht; by apply (proj2 Hnil) in Ht).
      destruct (diagnostics options); [split; [done|by intros [?|?]]|by split; auto].
    + split; [|done]. left. by apply Hnil.
Qed.

End recovery.

Definition im_empty : InMemory := mkInMemory ∅.

Lemma recovery_replays_log_witness :
  exists report s', recover (Some (mkWalOnDisk (encode demo_put ++ bytes_of "NKVW") [Done 7] true None))
    im_empty (mkRecoveryOptions true true)
    = (Ok report, s', Some (mkWalOnDisk (encode demo_put) [Done 7] true None),
       [(30, "incomplete_record"%string)]) /\
    records_applied report = 1 /\ (kv_get (bytes_of "user:1") s').1 = Ok (Some (bytes_of "Ansh")).
Proof.
  destruct (recovery_replays_log (encode demo_put ++ bytes_of "NKVW") [Done 7] im_empty
              (mkRecoveryOptions true true)) as (rs & tail & c & s' & lines & _ & _ & _ & E & _).
  - reflexivity.
  - exact I.
  - vm_compute. discriminate.
  - set (r := recover _ _ _) in E. set (t := r) in E. vm_compute in t. subst t.
    eexists _, _. split; [vm_compute; reflexivity|]. split; vm_compute; reflexivity.
Defined.

