(* ===== verification/BloomFilter.v ===== *)
(** * The Bloom filter of a table

    src/bloom_filter.cpp, with its 64-bit hashes and its bit array in words.
    The two sizes that the constructor computes in floating point are given to
    it as numbers: [ceil_bits], the value of [std::ceil] in
    [checked_bit_count] ([None] when it is not finite, not positive or out of
    range), and [rounded], the value of [std::max(1.0, std::round(...))] in
    [checked_hash_count] for the bit count passed to it. *)

From S2P Require Import Prelude.

(** ** Definitions *)

Definition kBitsPerWord : Z := 64.
Definition kMaximumHashCount : Z := 32.

Definition mix64 (value : Z) : Z :=
  let value := Z.lxor value (Z.shiftr value 30) in
  let value := u64 (value * 0xBF58476D1CE4E5B9) in
  let value := Z.lxor value (Z.shiftr value 27) in
  let value := u64 (value * 0x94D049BB133111EB) in
  Z.lxor value (Z.shiftr value 31).

Definition primary_hash (key : str) : Z :=
  mix64 (foldl (fun hash character => u64 (Z.lxor hash (b2z character) * 1099511628211))
           14695981039346656037 key).

Definition secondary_hash (key : str) : Z :=
  let hash :=
    foldl (fun hash character =>
             Z.lxor hash (u64 (b2z character + 0x9E3779B97F4A7C15 + u64 (Z.shiftl hash 6)
                               + Z.shiftr hash 2)))
      0x9E3779B97F4A7C15 key in
  let hash := mix64 (Z.lxor hash 0xD6E8FEB86659FD93) in
  if hash =? 0 then 0xA0761D6478BD642F else hash.

Record BloomFilter := mkBloomFilter {
  words_ : list Z;
  bit_count_ : Z;
  hash_count_ : Z;
  inserted_keys_ : Z
}.

Definition checked_bit_count (ceil_bits : option Z) : result Z :=
  match ceil_bits with
  | None => Throw (LengthError "Bloom filter size exceeds process limits")
  | Some bits => Ok (Z.max bits kBitsPerWord)
  end.

Definition checked_hash_count (rounded : Z -> Z) (bit_count : Z) : Z :=
  Z.min (rounded bit_count) kMaximumHashCount.

(** [rate_ok]: the rate is finite and strictly between zero and one. *)
Definition bf_new (expected_entries : Z) (rate_ok : bool) (ceil_bits : option Z) (rounded : Z -> Z)
    : result BloomFilter :=
  _ ← throw_if (expected_entries =? 0)
        (InvalidArgument "Bloom filter expected entry count must be positive");
  _ ← throw_if (negb rate_ok)
        (InvalidArgument "Bloom filter false-positive rate must be between zero and one");
  bit_count ← checked_bit_count ceil_bits;
  let hash_count := checked_hash_count rounded bit_count in
  let word_count := u64 (bit_count + kBitsPerWord - 1) / kBitsPerWord in
  mret (mkBloomFilter (replicate (Z.to_nat word_count) 0) (u64 (word_count * kBitsPerWord))
          hash_count 0).

Definition bit_index (f : BloomFilter) (first second hash_index : Z) : Z :=
  u64 (first + u64 (hash_index * second)) mod bit_count_ f.

Definition word_at (words : list Z) (i : Z) : Z := nth (Z.to_nat i) words 0.

(** [words_[bit / 64] |= 1 << (bit % 64)] *)
Definition set_bit (words : list Z) (bit : Z) : list Z :=
  let i := bit / kBitsPerWord in
  <[Z.to_nat i := Z.lor (word_at words i) (u64 (Z.shiftl 1 (bit mod kBitsPerWord)))]> words.

Definition test_bit (words : list Z) (bit : Z) : bool :=
  negb (Z.land (word_at words (bit / kBitsPerWord)) (u64 (Z.shiftl 1 (bit mod kBitsPerWord))) =? 0).

Definition set_words (words : list Z) (f : BloomFilter) : BloomFilter :=
  mkBloomFilter words (bit_count_ f) (hash_count_ f) (inserted_keys_ f).

(** The loop over [index < hash_count_], with the remaining turns counted. *)
Fixpoint add_loop (turns : nat) (index first second : Z) (f : BloomFilter) : BloomFilter :=
  match turns with
  | O => f
  | S turns' =>
      add_loop turns' (index + 1) first second
        (set_words (set_bit (words_ f) (bit_index f first second index)) f)
  end.

Definition bf_add (key : str) (f : BloomFilter) : BloomFilter :=
  let f' := add_loop (Z.to_nat (hash_count_ f)) 0 (primary_hash key) (secondary_hash key) f in
  mkBloomFilter (words_ f') (bit_count_ f') (hash_count_ f') (u64 (inserted_keys_ f' + 1)).

Fixpoint contain_loop (turns : nat) (index first second : Z) (f : BloomFilter) : bool :=
  match turns with
  | O => true
  | S turns' =>
      if negb (test_bit (words_ f) (bit_index f first second index)) then false
      else contain_loop turns' (index + 1) first second f
  end.

Definition may_contain (key : str) (f : BloomFilter) : bool :=
  contain_loop (Z.to_nat (hash_count_ f)) 0 (primary_hash key) (secondary_hash key) f.

Definition memory_bytes (f : BloomFilter) : Z := u64 (zlen (words_ f) * 8).

Definition bf_add_all (keys : list str) (f : BloomFilter) : BloomFilter :=
  foldl (fun f key => bf_add key f) f keys.

(** ** The filter's invariant *)

Record bf_inv (f : BloomFilter) : Prop := {
  bf_bits : bit_count_ f = zlen (words_ f) * kBitsPerWord;
  bf_some : 0 < zlen (words_ f);
  bf_hashes : 1 <= hash_count_ f <= kMaximumHashCount;
  bf_words : Forall is_u64 (words_ f)
}.

(** ** Single bits *)

Lemma mask_pow k : 0 <= k < 64 -> u64 (Z.shiftl 1 k) = 2 ^ k.
Proof.
  intros Hk. rewrite Z.shiftl_1_l. apply u64_small. unfold u64_max.
  pose proof (Z.pow_lt_mono_r 2 k 64). pose proof (Z.pow_nonneg 2 k). lia.
Qed.

Lemma land_mask_zero w k : 0 <= k < 64 -> (Z.land w (u64 (Z.shiftl 1 k)) =? 0) = negb (Z.testbit w k).
Proof.
  intros Hk. rewrite mask_pow by done. destruct (Z.testbit w k) eqn:E; simpl.
  - apply Z.eqb_neq. intros H. assert (Hb : Z.testbit (Z.land w (2 ^ k)) k = false) by (rewrite H; apply Z.bits_0).
    rewrite Z.land_spec, E, Z.pow2_bits_true in Hb by lia. done.
  - apply Z.eqb_eq. apply Z.bits_inj'. intros n Hn. rewrite Z.land_spec, Z.bits_0.
    destruct (Z.eq_dec n k) as [->|Hne]; [by rewrite E|]. by rewrite Z.pow2_bits_false, andb_false_r by lia.
Qed.

Definition bit_on (words : list Z) (bit : Z) : bool :=
  Z.testbit (word_at words (bit / 64)) (bit mod 64).

Lemma test_bit_on words bit : test_bit words bit = bit_on words bit.
Proof.
  unfold test_bit, bit_on, kBitsPerWord. rewrite land_mask_zero by (apply Z.mod_pos_bound; lia).
  by rewrite negb_involutive.
Qed.

Lemma word_at_insert words i j w :
  0 <= i < zlen words -> 0 <= j ->
  word_at (<[Z.to_nat i := w]> words) j = if j =? i then w else word_at words j.
Proof.
  intros Hi Hj. unfold word_at, zlen in *. rewrite !nth_lookup.
  destruct (Z.eqb_spec j i) as [->|Hne].
  - rewrite list_lookup_insert_eq by lia. done.
  - by rewrite list_lookup_insert_ne by lia.
Qed.

(** Setting a bit turns it on and leaves the others alone. *)
Lemma bit_on_set words b b' :
  0 <= b < zlen words * 64 -> 0 <= b' ->
  bit_on (set_bit words b) b' = (b' =? b) || bit_on words b'.
Proof.
  intros Hb Hb'. unfold bit_on, set_bit, kBitsPerWord.
  assert (Hi : 0 <= b / 64 < zlen words).
  { split; [apply Z.div_pos; lia|]. apply Z.div_lt_upper_bound; lia. }
  rewrite word_at_insert by (try apply Z.div_pos; lia).
  pose proof (Z.mod_pos_bound b 64 ltac:(lia)). pose proof (Z.mod_pos_bound b' 64 ltac:(lia)).
  destruct (Z.eqb_spec (b' / 64) (b / 64)) as [E|E].
  - rewrite E, Z.lor_spec, mask_pow, Z.pow2_bits_eqb by lia. rewrite orb_comm. f_equal.
    pose proof (Z.div_mod b 64 ltac:(lia)). pose proof (Z.div_mod b' 64 ltac:(lia)).
    destruct (Z.eqb_spec (b mod 64) (b' mod 64)), (Z.eqb_spec b' b); try done; subst; lia.
  - destruct (Z.eqb_spec b' b) as [->|]; [done|]. done.
Qed.

Lemma set_bit_length words b : length (set_bit words b) = length words.
Proof. unfold set_bit. apply length_insert. Qed.

Lemma word_at_range words i : Forall is_u64 words -> is_u64 (word_at words i).
Proof.
  intros H. unfold word_at. destruct (nth_in_or_default (Z.to_nat i) words 0) as [Hin| ->].
  - apply list_elem_of_In in Hin. rewrite Forall_forall in H. auto.
  - unfold is_u64, u64_max. lia.
Qed.

Lemma lor_u64 a b : is_u64 a -> is_u64 b -> is_u64 (Z.lor a b).
Proof.
  unfold is_u64, u64_max. intros Ha Hb. split; [apply Z.lor_nonneg; lia|].
  apply Z.lt_succ_r. change (Z.succ (2 ^ 64 - 1)) with (2 ^ 64). destruct (Z.eq_dec (Z.lor a b) 0) as [->|Hne]; [lia|].
  pose proof (proj2 (Z.lor_nonneg a b) ltac:(lia)).
  apply Z.log2_lt_pow2; [lia|]. rewrite Z.log2_lor by lia.
  apply Z.max_lub_lt.
  - destruct (Z.eq_dec a 0) as [->|]; [done|]. apply Z.log2_lt_pow2; lia.
  - destruct (Z.eq_dec b 0) as [->|]; [done|]. apply Z.log2_lt_pow2; lia.
Qed.

Lemma set_bit_range words b : Forall is_u64 words -> Forall is_u64 (set_bit words b).
Proof.
  intros H. unfold set_bit. apply Forall_insert; [done|]. apply lor_u64; [by apply word_at_range|].
  apply u64_range.
Qed.

(** ** Adding keys *)

(** The bits of a key. *)
Definition key_bit (f : BloomFilter) (key : str) (i : Z) : Z :=
  bit_index f (primary_hash key) (secondary_hash key) i.

Lemma bit_index_range f a b i : bf_inv f -> 0 <= bit_index f a b i < zlen (words_ f) * 64.
Proof.
  intros [Hb Hs _ _]. unfold bit_index, kBitsPerWord in *. rewrite Hb. apply Z.mod_pos_bound. lia.
Qed.

Lemma set_words_inv f b : bf_inv f -> bf_inv (set_words (set_bit (words_ f) b) f).
Proof.
  intros [Hb Hs Hh Hw]. split; simpl; auto using set_bit_range.
  all: unfold zlen in *; by rewrite set_bit_length.
Qed.

(** The loop turns on the bits of its hash values, and no others. *)
Lemma add_loop_spec turns i a b f :
  bf_inv f ->
  let f' := add_loop turns i a b f in
  bf_inv f' /\ bit_count_ f' = bit_count_ f /\ hash_count_ f' = hash_count_ f /\
  inserted_keys_ f' = inserted_keys_ f /\
  forall bit, 0 <= bit ->
    (bit_on (words_ f') bit = true <->
     bit_on (words_ f) bit = true \/
     exists j, i <= j < i + Z.of_nat turns /\ bit = bit_index f a b j).
Proof.
  revert i f. induction turns as [|turns IH]; intros i f Hi; simpl.
  { split_and!; [done..|]. intros bit _. split; [auto|]. intros [?|(j & ? & _)]; [done|lia]. }
  set (f1 := set_words _ f). destruct (IH (i + 1) f1) as (Hi' & H1 & H2 & H3 & H4);
    [by apply set_words_inv|].
  split_and!; [done..|]. intros bit Hbit. rewrite (H4 bit Hbit). unfold f1. simpl.
  rewrite bit_on_set by (try apply bit_index_range; done). rewrite orb_true_iff, Z.eqb_eq.
  split.
  - intros [[->|?]|(j & Hj & ->)]; [|by auto|].
    + right. exists i. split; [lia|done].
    + right. exists j. split; [lia|done].
  - intros [?|(j & Hj & ->)]; [by auto|]. destruct (Z.eq_dec j i) as [->|]; [by auto|].
    right. exists j. split; [lia|done].
Qed.

Lemma contain_loop_spec turns i a b f :
  contain_loop turns i a b f = true <->
  forall j, i <= j < i + Z.of_nat turns -> bit_on (words_ f) (bit_index f a b j) = true.
Proof.
  revert i. induction turns as [|turns IH]; intros i; simpl; [split; [lia|done]|].
  rewrite test_bit_on. destruct (bit_on _ (bit_index f a b i)) eqn:E; simpl.
  - rewrite IH. split.
    + intros H j Hj. destruct (Z.eq_dec j i) as [->|]; [done|]. apply H. lia.
    + intros H j Hj. apply H. lia.
  - split; [done|]. intros H. rewrite <- E. apply H. lia.
Qed.

Lemma may_contain_spec key f :
  bf_inv f ->
  may_contain key f = true <->
  forall j, 0 <= j < hash_count_ f -> bit_on (words_ f) (key_bit f key j) = true.
Proof.
  intros [_ _ Hh _]. unfold may_contain. rewrite contain_loop_spec. unfold key_bit.
  rewrite Z2Nat.id by lia. done.
Qed.

(** The bits that are on are those of the keys that were added. *)
Lemma bf_add_all_spec keys f :
  bf_inv f ->
  let f' := bf_add_all keys f in
  bf_inv f' /\ bit_count_ f' = bit_count_ f /\ hash_count_ f' = hash_count_ f /\
  forall bit, 0 <= bit ->
    (bit_on (words_ f') bit = true <->
     bit_on (words_ f) bit = true \/
     exists key j, key ∈ keys /\ 0 <= j < hash_count_ f /\ bit = key_bit f key j).
Proof.
  revert f. induction keys as [|key keys IH]; intros f Hi; simpl.
  { split_and!; [done..|]. intros bit _. split; [auto|].
    intros [?|(k & j & Hk & _)]; [done|]. by apply not_elem_of_nil in Hk. }
  destruct (add_loop_spec (Z.to_nat (hash_count_ f)) 0 (primary_hash key) (secondary_hash key) f Hi)
    as ([A1 A2 A3 A4] & E1 & E2 & _ & E4).
  assert (G1 : bit_count_ (bf_add key f) = bit_count_ f) by exact E1.
  assert (G2 : hash_count_ (bf_add key f) = hash_count_ f) by exact E2.
  destruct (IH (bf_add key f)) as (Hi' & F1 & F2 & F4); [by split|].
  split_and!; [done|congruence|congruence|]. intros bit Hbit. rewrite (F4 bit Hbit). simpl.
  rewrite (E4 bit Hbit). rewrite Z2Nat.id by (destruct Hi; lia).
  assert (Hkb : forall k j, key_bit (bf_add key f) k j = key_bit f k j).
  { intros k j. unfold key_bit, bit_index. simpl. by rewrite E1. }
  split.
  - intros [[?|(j & Hj & ->)]|(k & j & Hk & Hj & ->)]; [by auto| |].
    + right. exists key, j. split; [by left|]. split; [lia|done].
    + right. exists k, j. rewrite Hkb. split; [by right|]. split; [lia|done].
  - intros [?|(k & j & [->|Hk]%elem_of_cons & Hj & ->)]; [by auto| |].
    + left. right. exists j. split; [lia|done].
    + right. exists k, j. rewrite Hkb. split; [done|]. split; [lia|done].
Qed.

Lemma bf_new_inv n ok ceil_bits rounded f :
  bf_new n ok ceil_bits rounded = Ok f ->
  (forall bits, ceil_bits = Some bits -> 0 < bits <= u64_max - 63) -> (forall b, 1 <= rounded b) ->
  bf_inv f /\ Forall (fun w => w = 0) (words_ f) /\
  (forall bits, ceil_bits = Some bits -> bits <= bit_count_ f < Z.max bits 64 + 64).
Proof.
  unfold bf_new. intros H Hc Hr. inv_ok.
  destruct ceil_bits as [bits|]; [|done]. simpl in E1. inv_ok. specialize (Hc bits eq_refl).
  unfold kBitsPerWord, u64_max in *. set (c := Z.max bits 64).
  assert (Hu : u64 (c + 64 - 1) = c + 63) by (rewrite u64_small; unfold u64_max; lia).
  rewrite Hu. pose proof (Z.div_mod (c + 63) 64 ltac:(lia)) as Hd.
  pose proof (Z.mod_pos_bound (c + 63) 64 ltac:(lia)) as Hm.
  assert (Hq : 1 <= (c + 63) / 64) by lia.
  assert (Hlen : zlen (replicate (Z.to_nat ((c + 63) / 64)) 0) = (c + 63) / 64)
    by (unfold zlen; rewrite length_replicate; lia).
  assert (Hw : u64 ((c + 63) / 64 * 64) = (c + 63) / 64 * 64) by (apply u64_small; unfold u64_max; lia).
  rewrite Hw. split; [|split].
  - split; simpl; rewrite ?Hlen; unfold kBitsPerWord; try lia.
    + unfold checked_hash_count, kMaximumHashCount. specialize (Hr c). lia.
    + apply Forall_replicate. unfold is_u64, u64_max. lia.
  - by apply Forall_replicate.
  - intros b [= <-]. simpl. lia.
Qed.

(** A filter with the sizes of the constructor knows every key given to it. *)
Lemma bf_built_contains n ok ceil_bits rounded f keys key :
  bf_new n ok ceil_bits rounded = Ok f ->
  (forall bits, ceil_bits = Some bits -> 0 < bits <= u64_max - 63) -> (forall b, 1 <= rounded b) ->
  key ∈ keys -> may_contain key (bf_add_all keys f) = true.
Proof.
  intros Hf Hc Hr Hk. destruct (bf_new_inv _ _ _ _ _ Hf Hc Hr) as (Hi & _).
  destruct (bf_add_all_spec keys f Hi) as (Hi' & E1 & E2 & E3). set (f' := bf_add_all keys f) in *.
  apply may_contain_spec; [done|]. intros j Hj.
  pose proof (bit_index_range f' (primary_hash key) (secondary_hash key) j Hi').
  unfold key_bit. apply E3; [lia|]. right. exists key, j. split; [done|]. split; [congruence|].
  unfold key_bit, bit_index. by rewrite E1.
Qed.

(** A Bloom filter never denies a key it was given. Whatever sizes the
    constructor computed, after any sequence of additions every added key is
    reported as possibly present; every bit touched lies inside the word
    array, the words stay 64 bits wide, and an empty filter denies every key. *)
Theorem bloom_no_false_negatives n ok ceil_bits rounded f keys key :
  bf_new n ok ceil_bits rounded = Ok f ->
  (forall bits, ceil_bits = Some bits -> 0 < bits <= u64_max - 63) -> (forall b, 1 <= rounded b) ->
  let f' := bf_add_all keys f in
  bf_inv f' /\ may_contain key f = false /\
  (key ∈ keys -> may_contain key f' = true) /\
  (forall i, 0 <= bit_index f' (primary_hash key) (secondary_hash key) i / 64 < zlen (words_ f')).
Proof.
  intros Hf Hc Hr f'. destruct (bf_new_inv _ _ _ _ _ Hf Hc Hr) as (Hi & Hz & _).
  destruct (bf_add_all_spec keys f Hi) as (Hi' & E1 & E2 & E3). fold f' in Hi', E1, E2, E3.
  split; [done|]. split; [|split].
  - apply not_true_is_false. rewrite may_contain_spec by done. intros H.
    destruct Hi as [_ _ Hh _]. specialize (H 0 ltac:(lia)). unfold bit_on in H.
    assert (Hw : word_at (words_ f) (key_bit f key 0 / 64) = 0).
    { unfold word_at. destruct (nth_in_or_default (Z.to_nat (key_bit f key 0 / 64)) (words_ f) 0)
        as [Hin| ->]; [|done]. apply list_elem_of_In in Hin. rewrite Forall_forall in Hz. by apply Hz. }
    rewrite Hw in H. by rewrite Z.bits_0 in H.
  - intros Hk. by eapply bf_built_contains.
  - intros i. pose proof (bit_index_range f' (primary_hash key) (secondary_hash key) i Hi').
    split; [apply Z.div_pos; lia|]. apply Z.div_lt_upper_bound; lia.
Qed.

Lemma bloom_no_false_negatives_witness :
  may_contain (bytes_of "b") (bf_add_all [bytes_of "a"; bytes_of "b"]
    (mkBloomFilter [0; 0] 128 7 0)) = true /\
  may_contain (bytes_of "b") (mkBloomFilter [0; 0] 128 7 0) = false.
Proof.
  destruct (bloom_no_false_negatives 10 true (Some 96) (fun _ => 7) (mkBloomFilter [0; 0] 128 7 0)
    [bytes_of "a"; bytes_of "b"] (bytes_of "b")) as (_ & H1 & H2 & _).
  - reflexivity.
  - intros bits [= <-]. unfold u64_max. lia.
  - lia.
  - split; [|exact H1]. apply H2. right. left.
Defined.
