(* ===== verification/BlockCache.v ===== *)
(** * The block cache

    src/block_cache.cpp: data blocks by table and offset, kept in order of
    use, with the memory they take counted against a capacity.  A list node
    carries the address [n_id] that the iterators of the index hold, so that
    the index and the list are separate and their agreement is proved.  Every
    member function holds the mutex for its whole body. *)

From S2P Require Import Prelude Store.

(** ** Definitions *)

Definition CacheKey : Type := str * Z.

Record Node := mkNode { n_id : nat; n_key : CacheKey; n_block : DataBlock; n_charge : Z }.

Record BlockCache := mkBlockCache {
  capacity_bytes_ : Z;
  lru_ : list Node;
  index_ : gmap CacheKey nat;
  current_bytes_ : Z;
  hits_ : Z;
  misses_ : Z;
  evictions_ : Z;
  next_node : nat
}.

Definition bc_new (capacity_bytes : Z) : result BlockCache :=
  _ ← throw_if (capacity_bytes =? 0) (InvalidArgument "block cache capacity must be positive");
  mret (mkBlockCache capacity_bytes [] ∅ 0 0 0 0 0%nat).

(** [sizeof(DataBlock)] and [sizeof(DataBlock::Record)] on a 64-bit platform. *)
Definition kDataBlockSize : Z := 24.
Definition kRecordSize : Z := 80.

Definition estimate_charge (block : DataBlock) : Z :=
  foldl (fun result kv => u64 (u64 (result + zlen kv.1) + zlen (e_value kv.2)))
    (u64 (kDataBlockSize + u64 (zlen (records block) * kRecordSize))) (records block).

(** Dereferencing an iterator, and removing its node from the list. *)
Definition node_at (id : nat) (l : list Node) : option Node :=
  head (filter (fun n => n_id n = id) l).
Definition erase_node (id : nat) (l : list Node) : list Node :=
  filter (fun n => n_id n <> id) l.

Definition bc_get (table_id : str) (block_offset : Z) (c : BlockCache)
    : option DataBlock * BlockCache :=
  let key := (table_id, block_offset) in
  match index_ c !! key with
  | None =>
      (None, mkBlockCache (capacity_bytes_ c) (lru_ c) (index_ c) (current_bytes_ c) (hits_ c)
               (u64 (misses_ c + 1)) (evictions_ c) (next_node c))
  | Some id =>
      match node_at id (lru_ c) with
      | Some n =>
          (Some (n_block n),
           mkBlockCache (capacity_bytes_ c) (n :: erase_node id (lru_ c)) (index_ c)
             (current_bytes_ c) (u64 (hits_ c + 1)) (misses_ c) (evictions_ c) (next_node c))
      | None => (None, c)
      end
  end.

(** [while (!lru_.empty() && current_bytes_ > capacity_bytes_ - incoming)]:
    a turn removes a node, so the length of the list bounds the turns. *)
Fixpoint evict_loop (turns : nat) (incoming_charge : Z) (c : BlockCache) : BlockCache :=
  match turns with
  | O => c
  | S turns' =>
      match last (lru_ c) with
      | None => c
      | Some n =>
          if u64 (capacity_bytes_ c - incoming_charge) <? current_bytes_ c then
            evict_loop turns' incoming_charge
              (mkBlockCache (capacity_bytes_ c) (take (length (lru_ c) - 1) (lru_ c))
                 (delete (n_key n) (index_ c)) (u64 (current_bytes_ c - n_charge n)) (hits_ c)
                 (misses_ c) (u64 (evictions_ c + 1)) (next_node c))
          else c
      end
  end.

Definition evict_until_fits (incoming_charge : Z) (c : BlockCache) : BlockCache :=
  evict_loop (length (lru_ c)) incoming_charge c.

(** The first part of [put]: the block cached under the key goes. *)
Definition drop_existing (key : CacheKey) (c : BlockCache) : BlockCache :=
  match index_ c !! key with
  | None => c
  | Some id =>
      let charge := match node_at id (lru_ c) with Some n => n_charge n | None => 0 end in
      mkBlockCache (capacity_bytes_ c) (erase_node id (lru_ c)) (delete key (index_ c))
        (u64 (current_bytes_ c - charge)) (hits_ c) (misses_ c) (evictions_ c) (next_node c)
  end.

Definition push_front (key : CacheKey) (block : DataBlock) (charge : Z) (c : BlockCache) : BlockCache :=
  let id := next_node c in
  mkBlockCache (capacity_bytes_ c) (mkNode id key block charge :: lru_ c)
    (match index_ c !! key with Some _ => index_ c | None => <[key := id]> (index_ c) end)
    (u64 (current_bytes_ c + charge)) (hits_ c) (misses_ c) (evictions_ c) (S id).

Definition bc_put (table_id : str) (block_offset : Z) (block : option DataBlock) : stm BlockCache unit :=
  fun c =>
    match block with
    | None => (Throw (InvalidArgument "cannot cache a null data block"), c)
    | Some block =>
        let charge := estimate_charge block in
        let key := (table_id, block_offset) in
        let c1 := drop_existing key c in
        if capacity_bytes_ c1 <? charge then (Ok tt, c1)
        else (Ok tt, push_front key block charge (evict_until_fits charge c1))
    end.

Definition bc_clear (c : BlockCache) : BlockCache :=
  mkBlockCache (capacity_bytes_ c) [] ∅ 0 (hits_ c) (misses_ c) (evictions_ c) (next_node c).

Definition reset_statistics (c : BlockCache) : BlockCache :=
  mkBlockCache (capacity_bytes_ c) (lru_ c) (index_ c) (current_bytes_ c) 0 0 0 (next_node c).

Definition entry_count (c : BlockCache) : Z := Z.of_nat (size (index_ c)).

(** ** The reference cache

    Blocks by key, most recently used first. *)

Definition charges (l : list (CacheKey * DataBlock)) : Z :=
  foldr (fun kb n => estimate_charge kb.2 + n) 0 l.

Definition lru_find (key : CacheKey) (l : list (CacheKey * DataBlock)) : option DataBlock :=
  snd <$> head (filter (fun kb => kb.1 = key) l).

Definition lru_remove (key : CacheKey) (l : list (CacheKey * DataBlock)) : list (CacheKey * DataBlock) :=
  filter (fun kb => kb.1 <> key) l.

(** The least recently used blocks go until the rest fits the room; the list
    is given least recently used first. *)
Fixpoint shed (room : Z) (oldest_first : list (CacheKey * DataBlock)) : list (CacheKey * DataBlock) :=
  match oldest_first with
  | [] => []
  | kb :: l => if room <? charges oldest_first then shed room l else oldest_first
  end.

Definition fit (room : Z) (l : list (CacheKey * DataBlock)) : list (CacheKey * DataBlock) :=
  reverse (shed room (reverse l)).

Definition lru_get (key : CacheKey) (l : list (CacheKey * DataBlock))
    : option DataBlock * list (CacheKey * DataBlock) :=
  match lru_find key l with
  | Some b => (Some b, (key, b) :: lru_remove key l)
  | None => (None, l)
  end.

Definition lru_put (capacity : Z) (key : CacheKey) (b : DataBlock) (l : list (CacheKey * DataBlock))
    : list (CacheKey * DataBlock) :=
  if capacity <? estimate_charge b then lru_remove key l
  else (key, b) :: fit (capacity - estimate_charge b) (lru_remove key l).

(** ** The cache's invariant *)

Definition node_kb (n : Node) : CacheKey * DataBlock := (n_key n, n_block n).

Definition bc_abs (c : BlockCache) : list (CacheKey * DataBlock) :=
  node_kb <$> lru_ c.

Record bc_inv (c : BlockCache) : Prop := {
  bc_keys : NoDup (n_key <$> lru_ c);
  bc_ids : NoDup (n_id <$> lru_ c);
  bc_fresh : Forall (fun n => (n_id n < next_node c)%nat) (lru_ c);
  bc_charge : Forall (fun n => n_charge n = estimate_charge (n_block n)) (lru_ c);
  bc_index : forall key id, index_ c !! key = Some id <->
      exists n, n ∈ lru_ c /\ n_key n = key /\ n_id n = id;
  bc_bytes : current_bytes_ c = charges (bc_abs c);
  bc_capacity : 0 < capacity_bytes_ c <= u64_max;
  bc_fits : current_bytes_ c <= capacity_bytes_ c
}.

(** ** Lemmas *)

Lemma estimate_charge_range b : 0 <= estimate_charge b <= u64_max.
Proof.
  unfold estimate_charge.
  assert (H : forall l n, 0 <= n <= u64_max -> 0 <= foldl (fun result (kv : str * Entry) =>
      u64 (u64 (result + zlen kv.1) + zlen (e_value kv.2))) n l <= u64_max).
  { induction l as [|kv l IH]; simpl; [done|]. intros n _. apply IH, u64_range. }
  apply H, u64_range.
Qed.
#[export] Hint Resolve estimate_charge_range : nebula.

Lemma charges_cons kb l : charges (kb :: l) = estimate_charge kb.2 + charges l.
Proof. done. Qed.

Lemma charges_app l k : charges (l ++ k) = charges l + charges k.
Proof. induction l as [|kb l IH]; simpl; [done|]. rewrite IH. lia. Qed.

Lemma charges_nonneg l : 0 <= charges l.
Proof.
  induction l as [|kb l IH]; simpl; [done|]. pose proof (estimate_charge_range kb.2). lia.
Qed.

Lemma charges_reverse l : charges (reverse l) = charges l.
Proof.
  induction l as [|kb l IH]; [done|]. rewrite reverse_cons, charges_app, IH. simpl. lia.
Qed.

(** Nodes are determined by their address, and by their key. *)
Lemma NoDup_fmap_inj {A B} (f : A -> B) l x y : NoDup (f <$> l) -> x ∈ l -> y ∈ l -> f x = f y -> x = y.
Proof.
  induction l as [|z l IH]; simpl; [by intros _ ?%not_elem_of_nil|].
  intros [Hz Hn]%NoDup_cons [->|Hx]%elem_of_cons [->|Hy]%elem_of_cons E; auto.
  - exfalso. apply Hz. rewrite E. by apply list_elem_of_fmap_2.
  - exfalso. apply Hz. rewrite <- E. by apply list_elem_of_fmap_2.
Qed.

Lemma filter_unique {A B} `{EqDecision B} (f : A -> B) l x :
  NoDup (f <$> l) -> x ∈ l -> filter (fun y => f y = f x) l = [x].
Proof.
  induction l as [|z l IH]; simpl; [by intros _ ?%not_elem_of_nil|].
  intros [Hz Hn]%NoDup_cons [->|Hx]%elem_of_cons; rewrite filter_cons.
  - rewrite decide_True by done. f_equal. clear IH Hn. induction l as [|y l IH]; [done|].
    rewrite filter_cons. simpl in Hz. apply not_elem_of_cons in Hz as [Hz1 Hz2].
    rewrite decide_False by congruence. by apply IH.
  - rewrite decide_False; [by apply IH|]. intros E. apply Hz. rewrite E. by apply list_elem_of_fmap_2.
Qed.

Lemma node_at_elem l n : NoDup (n_id <$> l) -> n ∈ l -> node_at (n_id n) l = Some n.
Proof. intros Hd Hn. unfold node_at. by rewrite (filter_unique n_id l n). Qed.

(** Erasing the node of a key is removing the key from the contents. *)
Lemma erase_abs l n :
  NoDup (n_id <$> l) -> NoDup (n_key <$> l) -> n ∈ l ->
  node_kb <$> erase_node (n_id n) l
  = lru_remove (n_key n) (node_kb <$> l).
Proof.
  intros Hi Hk Hn. unfold erase_node, lru_remove. rewrite filter_fmap. f_equal.
  apply filter_ext_in. intros m Hm. simpl. split; intros Hne E; apply Hne.
  - apply (NoDup_fmap_inj n_key l) in E as ->; done.
  - apply (NoDup_fmap_inj n_id l) in E as ->; done.
Qed.

Lemma charges_remove l n :
  NoDup (n_id <$> l) -> NoDup (n_key <$> l) -> n ∈ l ->
  charges (node_kb <$> l)
  = estimate_charge (n_block n) + charges (node_kb <$> erase_node (n_id n) l).
Proof.
  unfold erase_node. induction l as [|m l IH]; [by intros _ _ ?%not_elem_of_nil|].
  rewrite !fmap_cons, charges_cons. cbn [snd node_kb].
  intros [Hi1 Hi2]%NoDup_cons [Hk1 Hk2]%NoDup_cons Hn. rewrite filter_cons.
  apply elem_of_cons in Hn as [->|Hn].
  - rewrite decide_False by (intros H; by apply H). f_equal.
    rewrite filter_all; [done|]. intros x Hx E. apply Hi1. rewrite <- E. by apply list_elem_of_fmap_2.
  - rewrite decide_True; [rewrite fmap_cons, charges_cons, IH by done; simpl; lia|].
    intros E. apply Hi1. rewrite E. by apply list_elem_of_fmap_2.
Qed.

(** ** Each operation refines the reference *)

(** The list and the index agree; the room may be in the course of being
    made. *)
Record bc_linked (c : BlockCache) : Prop := {
  bl_keys : NoDup (n_key <$> lru_ c);
  bl_ids : NoDup (n_id <$> lru_ c);
  bl_fresh : Forall (fun n => (n_id n < next_node c)%nat) (lru_ c);
  bl_charge : Forall (fun n => n_charge n = estimate_charge (n_block n)) (lru_ c);
  bl_index : forall key id, index_ c !! key = Some id <->
      exists n, n ∈ lru_ c /\ n_key n = key /\ n_id n = id;
  bl_bytes : current_bytes_ c = charges (bc_abs c);
  bl_small : current_bytes_ c <= u64_max
}.

Lemma bc_inv_linked c :
  bc_inv c <-> bc_linked c /\ 0 < capacity_bytes_ c <= u64_max /\ current_bytes_ c <= capacity_bytes_ c.
Proof.
  split.
  - intros []. split; [split; try done; lia|done].
  - intros [[] [? ?]]. by split.
Qed.

Lemma erase_linked c n :
  bc_linked c -> n ∈ lru_ c ->
  bc_linked (mkBlockCache (capacity_bytes_ c) (erase_node (n_id n) (lru_ c)) (delete (n_key n) (index_ c))
        (u64 (current_bytes_ c - n_charge n)) (hits_ c) (misses_ c) (evictions_ c) (next_node c)).
Proof.
  intros [Hk Hi Hf Hc Hx Hb Hs] Hn. pose proof (charges_remove _ _ Hi Hk Hn) as Hr.
  fold (bc_abs c) in Hr. rewrite Forall_forall in Hc.
  assert (Hu : u64 (current_bytes_ c - n_charge n)
    = charges (node_kb <$> erase_node (n_id n) (lru_ c))).
  { rewrite Hb, Hr, (Hc n Hn). match goal with |- u64 (?a + ?b - ?a) = _ => replace (a + b - a) with b by lia end.
    apply u64_small. split; [apply charges_nonneg|]. pose proof (estimate_charge_range (n_block n)). lia. }
  split; simpl.
  - eapply sublist_NoDup; [exact Hk|]. apply fmap_sublist. apply sublist_filter.
  - eapply sublist_NoDup; [exact Hi|]. apply fmap_sublist. apply sublist_filter.
  - by apply Forall_filter.
  - apply Forall_filter. by apply Forall_forall.
  - intros key id. rewrite lookup_delete. unfold erase_node. setoid_rewrite list_elem_of_filter.
    case_decide as E; split.
    + done.
    + intros (m & [Hm1 Hm2] & Hmk & _). exfalso. apply Hm1. f_equal.
      apply (NoDup_fmap_inj n_key (lru_ c)); [done..|congruence].
    + intros (m & Hm & <- & <-)%Hx. exists m. split_and!; try done. intros Hid. apply E.
      f_equal. symmetry. by apply (NoDup_fmap_inj n_id (lru_ c)).
    + intros (m & [Hm1 Hm2] & <- & <-). apply Hx. eauto.
  - exact Hu.
  - rewrite Hu. pose proof (estimate_charge_range (n_block n)). lia.
Qed.

Lemma index_None c key : bc_linked c -> index_ c !! key = None -> key ∉ (bc_abs c).*1.
Proof.
  intros Hl E. unfold bc_abs. rewrite <- list_fmap_compose.
  intros (n & -> & Hn)%list_elem_of_fmap. simpl in E.
  assert (index_ c !! n_key n = Some (n_id n)) by (apply (bl_index _ Hl); eauto). congruence.
Qed.

Lemma lru_remove_id key l : key ∉ l.*1 -> lru_remove key l = l.
Proof.
  intros H. apply filter_all. intros kb Hkb E. apply H. subst. by apply list_elem_of_fmap_2.
Qed.

Lemma lru_find_None key l : key ∉ l.*1 -> lru_find key l = None.
Proof.
  intros H. unfold lru_find. rewrite filter_none; [done|].
  intros kb Hkb E. apply H. subst. by apply list_elem_of_fmap_2.
Qed.

Lemma lru_find_node c n : bc_linked c -> n ∈ lru_ c -> lru_find (n_key n) (bc_abs c) = Some (n_block n).
Proof.
  intros Hl Hn. unfold lru_find, bc_abs. rewrite filter_fmap. simpl.
  by rewrite (filter_unique n_key) by (try apply Hl; done).
Qed.

Lemma index_node c key id :
  bc_linked c -> index_ c !! key = Some id ->
  exists n, n ∈ lru_ c /\ n_key n = key /\ n_id n = id /\ node_at id (lru_ c) = Some n.
Proof.
  intros Hl E. apply (bl_index _ Hl) in E as (n & Hn & <- & <-). exists n. split_and!; try done.
  apply node_at_elem; [apply Hl|done].
Qed.

Lemma drop_existing_spec key c :
  bc_linked c ->
  bc_linked (drop_existing key c) /\ bc_abs (drop_existing key c) = lru_remove key (bc_abs c) /\
  capacity_bytes_ (drop_existing key c) = capacity_bytes_ c /\
  index_ (drop_existing key c) !! key = None.
Proof.
  intros Hl. unfold drop_existing. destruct (index_ c !! key) as [id|] eqn:E.
  - destruct (index_node c key id Hl E) as (n & Hn & <- & <- & ->). split_and!; [by apply erase_linked| |done|].
    + unfold bc_abs at 1. simpl. by apply erase_abs; try apply Hl.
    + simpl. apply lookup_delete_eq.
  - split_and!; try done. symmetry. by apply lru_remove_id, index_None.
Qed.

Lemma bc_get_spec table_id block_offset c :
  bc_inv c ->
  bc_inv (bc_get table_id block_offset c).2 /\
  ((bc_get table_id block_offset c).1, bc_abs (bc_get table_id block_offset c).2)
  = lru_get (table_id, block_offset) (bc_abs c).
Proof.
  intros Hi. pose proof (proj1 (bc_inv_linked c) Hi) as (Hl & _). unfold bc_get, lru_get.
  destruct (index_ c !! (table_id, block_offset)) as [id|] eqn:E.
  - destruct (index_node c _ id Hl E) as (n & Hn & Hk & <- & ->). simpl.
    rewrite <- Hk, lru_find_node by done. unfold bc_abs at 1. simpl.
    rewrite erase_abs by (done || apply Hl). fold (bc_abs c). split; [|done].
    destruct Hi as [H1 H2 H3 H4 H5 H6 H7 H8].
    assert (Hp : n :: erase_node (n_id n) (lru_ c) ≡ₚ lru_ c).
    { apply NoDup_Permutation.
      - constructor; [|by apply NoDup_filter; eapply NoDup_fmap_1].
        unfold erase_node. rewrite list_elem_of_filter. by intros [Hne _].
      - by eapply NoDup_fmap_1.
      - intros m. rewrite elem_of_cons. unfold erase_node. rewrite list_elem_of_filter.
        split; [by intros [->|[_ Hm]]|].
        intros Hm. destruct (decide (n_id m = n_id n)) as [Heq|]; [|auto].
        left. by apply (NoDup_fmap_inj n_id (lru_ c)). }
    split; cbn [lru_ next_node index_ current_bytes_ capacity_bytes_]; try done.
    + by rewrite Hp.
    + by rewrite Hp.
    + by rewrite Hp.
    + by rewrite Hp.
    + intros key id. rewrite H5. by setoid_rewrite Hp.
    + rewrite H6. unfold bc_abs. simpl. rewrite <- charges_remove; done.
  - simpl. rewrite lru_find_None by by apply index_None. split; [|done]. by destruct Hi.
Qed.

Lemma fit_snoc room l x :
  fit room (l ++ [x]) = if room <? charges (l ++ [x]) then fit room l else l ++ [x].
Proof.
  unfold fit. rewrite reverse_snoc. cbn [shed].
  rewrite <- (charges_reverse (l ++ [x])), reverse_snoc.
  destruct (_ <? _); [done|]. by rewrite reverse_cons, reverse_involutive.
Qed.

Lemma fit_charges room l : 0 <= room -> charges (fit room l) <= room.
Proof.
  intros Hr. unfold fit. rewrite charges_reverse. induction (reverse l) as [|x k IH]; [done|].
  cbn [shed]. destruct (room <? charges (x :: k)) eqn:E; [done|]. zbool. lia.
Qed.

Lemma fit_sublist room l : fit room l `sublist_of` l.
Proof.
  induction l as [|x l IH] using rev_ind; [done|]. rewrite fit_snoc. destruct (_ <? _); [|done].
  etrans; [exact IH|]. by apply sublist_inserts_r.
Qed.

Lemma erase_last l n : NoDup (n_id <$> (l ++ [n])) -> erase_node (n_id n) (l ++ [n]) = l.
Proof.
  rewrite fmap_app. intros (_ & Hd & _)%NoDup_app. unfold erase_node. rewrite filter_app, filter_cons.
  rewrite decide_False by (intros H; by apply H). rewrite app_nil_r. apply filter_all.
  intros m Hm E. apply (Hd (n_id m)); [by apply list_elem_of_fmap_2|]. rewrite E. by left.
Qed.

Lemma evict_loop_spec turns inc c :
  bc_linked c -> 0 <= inc <= capacity_bytes_ c -> capacity_bytes_ c <= u64_max ->
  (length (lru_ c) <= turns)%nat ->
  let c' := evict_loop turns inc c in
  bc_linked c' /\ bc_abs c' = fit (capacity_bytes_ c - inc) (bc_abs c) /\
  capacity_bytes_ c' = capacity_bytes_ c /\
  (forall key, index_ c !! key = None -> index_ c' !! key = None).
Proof.
  revert c. induction turns as [|turns IH]; intros c Hl Hinc Hcap Hlen; simpl.
  { assert (E : lru_ c = []) by (destruct (lru_ c); [done|simpl in Hlen; lia]).
    unfold bc_abs. rewrite E. by split_and!. }
  destruct (last (lru_ c)) as [n|] eqn:Elast.
  2:{ apply last_None in Elast. unfold bc_abs. rewrite Elast. by split_and!. }
  apply last_Some in Elast as [l El].
  assert (Hn : n ∈ lru_ c) by (rewrite El; apply elem_of_app; right; by left).
  rewrite (u64_small (capacity_bytes_ c - inc)) by lia.
  assert (Habs : bc_abs c = (node_kb <$> l) ++ [node_kb n]) by (unfold bc_abs; by rewrite El, fmap_app).
  rewrite Habs, fit_snoc, <- Habs, <- (bl_bytes _ Hl).
  destruct (capacity_bytes_ c - inc <? current_bytes_ c) eqn:E; [|by split_and!].
  set (c1 := mkBlockCache _ _ _ _ _ _ _ _).
  assert (Hlru : lru_ c1 = l).
  { unfold c1. simpl. rewrite El, length_app. simpl.
    replace (length l + 1 - 1)%nat with (length l) by lia. apply take_app_length. }
  assert (H1 : bc_linked c1).
  { pose proof (erase_linked c n Hl Hn) as Hx.
    assert (Ee : erase_node (n_id n) (lru_ c) = lru_ c1).
    { rewrite Hlru, El. apply erase_last. rewrite <- El. apply Hl. }
    rewrite Ee in Hx. destruct Hx. by split. }
  destruct (IH c1) as (G1 & G2 & G3 & G4); [done|done|done|rewrite Hlru|].
  { rewrite El, length_app in Hlen. simpl in Hlen. lia. }
  split; [done|]. split; [|split; [done|]].
  - rewrite G2. unfold bc_abs. by rewrite Hlru.
  - intros key Hk. apply G4. unfold c1. simpl. rewrite lookup_delete. by case_decide.
Qed.

Lemma push_front_linked key b c :
  bc_linked c -> index_ c !! key = None ->
  current_bytes_ c + estimate_charge b <= u64_max ->
  bc_linked (push_front key b (estimate_charge b) c) /\
  bc_abs (push_front key b (estimate_charge b) c) = (key, b) :: bc_abs c /\
  current_bytes_ (push_front key b (estimate_charge b) c) = current_bytes_ c + estimate_charge b.
Proof.
  intros Hl Hk Hb. pose proof (index_None c key Hl Hk) as Hnew. destruct Hl as [H1 H2 H3 H4 H5 H6 H7].
  pose proof (charges_nonneg (bc_abs c)). pose proof (estimate_charge_range b).
  assert (Hu : u64 (current_bytes_ c + estimate_charge b) = current_bytes_ c + estimate_charge b)
    by (apply u64_small; lia).
  split; [|split; [done|exact Hu]].
  split; unfold push_front; cbn [lru_ next_node index_ current_bytes_ capacity_bytes_]; rewrite ?Hk, ?Hu.
  - rewrite fmap_cons. constructor; [|done]. intros Hin. apply Hnew.
    unfold bc_abs. by rewrite <- list_fmap_compose.
  - rewrite fmap_cons. constructor; [|done]. intros (n & E & Hn)%list_elem_of_fmap. simpl in E.
    rewrite Forall_forall in H3. specialize (H3 n Hn). lia.
  - constructor; [simpl; lia|]. eapply Forall_impl; [exact H3|]. simpl. lia.
  - by constructor.
  - intros key' id. rewrite lookup_insert. case_decide as E; split.
    + intros [= <-]. subst. eexists. split; [by left|done].
    + intros (n & [->|Hn]%elem_of_cons & Hkn & Hid); [by rewrite <- Hid|].
      exfalso. subst key' key. assert (index_ c !! n_key n = Some (n_id n)) by (apply H5; eauto). congruence.
    + intros (n & Hn & ? & ?)%H5. exists n. split; [by right|done].
    + intros (n & [->|Hn]%elem_of_cons & Hkn & Hid); [done|]. apply H5. eauto.
  - change (bc_abs _) with ((key, b) :: bc_abs c). rewrite charges_cons. simpl. lia.
  - done.
Qed.

Lemma bc_put_spec table_id block_offset b c :
  bc_inv c ->
  exists c', bc_put table_id block_offset (Some b) c = (Ok tt, c') /\ bc_inv c' /\
    bc_abs c' = lru_put (capacity_bytes_ c) (table_id, block_offset) b (bc_abs c) /\
    capacity_bytes_ c' = capacity_bytes_ c.
Proof.
  intros Hi. pose proof (proj1 (bc_inv_linked c) Hi) as (Hl & Hcap & Hfit).
  set (key := (table_id, block_offset)).
  destruct (drop_existing_spec key c Hl) as (Hl1 & Ha1 & Hc1 & Hx1).
  set (c1 := drop_existing key c) in *. pose proof (estimate_charge_range b) as Hb.
  assert (Hsub : charges (bc_abs c1) <= charges (bc_abs c)).
  { rewrite Ha1. unfold lru_remove. clear. induction (bc_abs c) as [|kb l IH]; [done|].
    rewrite filter_cons. pose proof (estimate_charge_range kb.2). case_decide; simpl; lia. }
  unfold bc_put. cbn zeta. fold key c1. rewrite Hc1. unfold lru_put.
  destruct (capacity_bytes_ c <? estimate_charge b) eqn:E; zbool.
  - exists c1. split; [done|]. split; [|done]. apply bc_inv_linked. split; [done|]. rewrite Hc1.
    split; [done|]. rewrite (bl_bytes _ Hl1). pose proof (bc_bytes _ Hi). lia.
  - destruct (evict_loop_spec (length (lru_ c1)) (estimate_charge b) c1) as (G1 & G2 & G3 & G4);
      [done|lia|lia|done|]. fold (evict_until_fits (estimate_charge b) c1) in G1, G2, G3, G4.
    set (c2 := evict_until_fits (estimate_charge b) c1) in *. rewrite Hc1 in *.
    assert (Hroom : current_bytes_ c2 <= capacity_bytes_ c - estimate_charge b).
    { rewrite (bl_bytes _ G1), G2. apply fit_charges. lia. }
    destruct (push_front_linked key b c2) as (P1 & P2 & P3); [done|by apply G4|lia|].
    eexists. split; [done|]. split; [|split; [|done]].
    + apply bc_inv_linked. split; [done|]. rewrite P3. cbn [push_front capacity_bytes_]. rewrite G3. lia.
    + by rewrite P2, G2, Ha1.
Qed.

(** ** Sequences of calls *)

Inductive cache_call :=
| CGet (table_id : str) (block_offset : Z)
| CPut (table_id : str) (block_offset : Z) (block : option DataBlock)
| CClear
| CReset.

Definition cache_step (c : BlockCache) (op : cache_call) : BlockCache :=
  match op with
  | CGet t o => (bc_get t o c).2
  | CPut t o b => (bc_put t o b c).2
  | CClear => bc_clear c
  | CReset => reset_statistics c
  end.

Definition lru_step (capacity : Z) (l : list (CacheKey * DataBlock)) (op : cache_call)
    : list (CacheKey * DataBlock) :=
  match op with
  | CGet t o => (lru_get (t, o) l).2
  | CPut t o (Some b) => lru_put capacity (t, o) b l
  | CPut t o None => l
  | CClear => []
  | CReset => l
  end.

Lemma cache_step_spec c op :
  bc_inv c ->
  bc_inv (cache_step c op) /\ bc_abs (cache_step c op) = lru_step (capacity_bytes_ c) (bc_abs c) op /\
  capacity_bytes_ (cache_step c op) = capacity_bytes_ c.
Proof.
  intros Hi. destruct op as [t o|t o [b|]| |]; cbn [cache_step lru_step].
  - destruct (bc_get_spec t o c Hi) as [H1 H2]. split; [done|]. split.
    + destruct (lru_get (t, o) (bc_abs c)). by simplify_eq/=.
    + unfold bc_get. destruct (index_ c !! _); [|done]. by destruct (node_at _ _).
  - destruct (bc_put_spec t o b c Hi) as (c' & -> & H1 & H2 & H3). done.
  - done.
  - split; [|done]. destruct Hi as [H1 H2 H3 H4 H5 H6 H7 H8]. split; simpl; try done; try lia.
    + constructor.
    + constructor.
    + intros key id. rewrite lookup_empty. split; [done|]. by intros (n & Hn%not_elem_of_nil & _).
  - split; [|done]. destruct Hi. by split.
Qed.

(** One index entry per node. *)
Lemma index_size c : bc_inv c -> entry_count c = zlen (bc_abs c).
Proof.
  intros [H1 H2 H3 H4 H5 H6 H7 H8]. unfold entry_count, zlen, bc_abs. rewrite length_fmap. f_equal.
  assert (E : index_ c = list_to_map ((fun n => (n_key n, n_id n)) <$> lru_ c)).
  { apply map_eq. intros key. apply option_eq. intros id. rewrite H5, <- elem_of_list_to_map.
    - rewrite list_elem_of_fmap. split; [intros (n & Hn & <- & <-)|intros (n & [= -> ->] & Hn)]; eauto.
    - by rewrite <- list_fmap_compose. }
  rewrite E, map_size_list_to_map; [by rewrite length_fmap|]. by rewrite <- list_fmap_compose.
Qed.

Definition empty_cache (capacity : Z) : BlockCache := mkBlockCache capacity [] ∅ 0 0 0 0 0%nat.

Lemma empty_cache_inv capacity : 0 < capacity <= u64_max -> bc_inv (empty_cache capacity).
Proof.
  intros Hc. split; simpl; try done; try constructor; try lia.
  - by rewrite lookup_empty.
  - by intros (n & Hn%not_elem_of_nil & _).
Qed.

(** C25: the cache is a least-recently-used cache of bounded size. After any
    sequence of calls its contents are those of the reference cache, the bytes
    it counts are those of the blocks it holds and never exceed the capacity,
    the index has one entry per node, and a lookup answers what the reference
    answers. *)
Theorem block_cache_refines_lru capacity c ops table_id block_offset :
  bc_new capacity = Ok c -> 0 <= capacity <= u64_max ->
  let c' := foldl cache_step c ops in
  let l := foldl (lru_step capacity) [] ops in
  bc_abs c' = l /\ current_bytes_ c' = charges l /\ current_bytes_ c' <= capacity /\
  entry_count c' = zlen l /\
  (bc_get table_id block_offset c').1 = lru_find (table_id, block_offset) l.
Proof.
  unfold bc_new. intros H Hcap. inv_ok. zbool.
  set (c := mkBlockCache _ _ _ _ _ _ _ _).
  assert (Hc : bc_inv c) by (apply empty_cache_inv; lia).
  assert (Hrun : forall ops c0, bc_inv c0 -> capacity_bytes_ c0 = capacity ->
    bc_inv (foldl cache_step c0 ops) /\ capacity_bytes_ (foldl cache_step c0 ops) = capacity /\
    bc_abs (foldl cache_step c0 ops) = foldl (lru_step capacity) (bc_abs c0) ops).
  { clear. induction ops as [|op ops IH]; intros c0 Hi Hc; simpl; [done|].
    destruct (cache_step_spec c0 op Hi) as (H1 & H2 & H3).
    destruct (IH (cache_step c0 op)) as (G1 & G2 & G3); [done|congruence|]. split; [done|]. split; [done|].
    by rewrite G3, H2, Hc. }
  destruct (Hrun ops c Hc eq_refl) as (Hi & Hcp & Ha). cbn zeta. change (bc_abs c) with (@nil (CacheKey * DataBlock)) in Ha.
  set (c' := foldl cache_step c ops) in *. split; [done|]. split; [rewrite <- Ha; apply Hi|].
  split; [pose proof (bc_fits _ Hi); lia|]. split.
  - rewrite <- Ha. pose proof (index_size c' Hi). done.
  - rewrite <- Ha. pose proof (bc_get_spec table_id block_offset c' Hi) as [_ Hg].
    unfold lru_get in Hg. destruct (lru_find _ (bc_abs c')); by simplify_eq.
Qed.

Definition small_block (v : string) : DataBlock := mkDataBlock [(bytes_of "k", mkEntry (bytes_of v) 1 false)].

(** Room for two blocks: a use of the first makes the second the one to go. *)
Lemma block_cache_refines_lru_witness :
  let ops := [CPut (bytes_of "t") 0 (Some (small_block "a")); CPut (bytes_of "t") 1 (Some (small_block "b"));
              CGet (bytes_of "t") 0; CPut (bytes_of "t") 2 (Some (small_block "c"))] in
  exists c, bc_new 220 = Ok c /\
    (bc_get (bytes_of "t") 1 (foldl cache_step c ops)).1 = None /\
    (bc_get (bytes_of "t") 0 (foldl cache_step c ops)).1 = Some (small_block "a").
Proof.
  intros ops. eexists. split; [reflexivity|].
  destruct (block_cache_refines_lru 220 _ ops (bytes_of "t") 1 eq_refl) as (_ & _ & _ & _ & H1);
    [unfold u64_max; lia|].
  destruct (block_cache_refines_lru 220 _ ops (bytes_of "t") 0 eq_refl) as (_ & _ & _ & _ & H2);
    [unfold u64_max; lia|].
  split; [rewrite H1; vm_compute; reflexivity|rewrite H2; vm_compute; reflexivity].
Defined.

(** ** What a lookup can find after a call *)

Lemma lru_find_elem key l b : lru_find key l = Some b -> (key, b) ∈ l.
Proof.
  unfold lru_find. destruct (filter _ l) as [|[k b'] l'] eqn:E; [done|]. simpl. intros [= <-].
  assert (Hin : (k, b') ∈ filter (fun kb : CacheKey * DataBlock => kb.1 = key) l) by (rewrite E; by left).
  apply list_elem_of_filter in Hin as [<- Hin]. done.
Qed.

Lemma lru_elem_find key l b : NoDup l.*1 -> (key, b) ∈ l -> lru_find key l = Some b.
Proof.
  intros Hd Hin. unfold lru_find. by rewrite (filter_unique fst l (key, b)).
Qed.

Lemma bc_abs_keys c : bc_inv c -> NoDup (bc_abs c).*1.
Proof. intros Hi. unfold bc_abs. rewrite <- list_fmap_compose. apply Hi. Qed.

Lemma lru_get_elem key l kb : kb ∈ (lru_get key l).2 -> kb ∈ l.
Proof.
  unfold lru_get. destruct (lru_find key l) as [b|] eqn:E; simpl; [|done].
  intros [->|H]%elem_of_cons; [by apply lru_find_elem|]. by apply list_elem_of_filter in H as [_ H].
Qed.

Lemma lru_put_elem cap key b l kb : kb ∈ lru_put cap key b l -> kb = (key, b) \/ kb ∈ l.
Proof.
  assert (Hr : kb ∈ lru_remove key l -> kb ∈ l) by (intros H; by apply list_elem_of_filter in H as [_ H]).
  unfold lru_put. destruct (cap <? _); [auto|]. intros [->|H]%elem_of_cons; [by left|].
  right. apply Hr. eapply elem_of_sublist; [exact H|apply fit_sublist].
Qed.
