(* ===== verification/SstFormat.v ===== *)
(** * The table file format

    src/sstable_format.cpp: the header, data blocks, the index block and the
    footer, each sealed with the CRC-32 of its bytes, with the checks the
    parsers make in their order and the offsets the errors carry. *)

From Stdlib Require Strings.String.
From S2P Require Import Prelude OrderedMap Codec Checksum Store MemTable.

(** ** Definitions *)

Definition kHeaderMagic : str := bytes_of "NBLSST01".
Definition kDataBlockMagic : str := bytes_of "NBLDAT01".
Definition kIndexMagic : str := bytes_of "NBLIDX01".
Definition kFooterMagic : str := bytes_of "NBLFTR01".
Definition kVersion : Z := 1.
Definition kHeaderSize : Z := 56.
Definition kFooterSize : Z := 64.
Definition kChecksumSize : Z := 4.
Definition kRecordFixedSize : Z := 20.
Definition kPrefixSize : Z := 12.
Definition kEntryFixedSize : Z := 24.

Record Header := mkHeader {
  h_generation : Z;
  h_entry_count : Z;
  h_block_count : Z;
  h_target_data_block_bytes : Z;
  h_min_sequence_number : Z;
  h_max_sequence_number : Z
}.

Record IndexEntry := mkIndexEntry {
  ie_first_key : str;
  ie_last_key : str;
  ie_block_offset : Z;
  ie_block_size : Z
}.

Record SSTableFooter := mkFooter {
  ft_index_offset : Z;
  ft_index_size : Z;
  ft_entry_count : Z;
  ft_block_count : Z;
  ft_min_sequence_number : Z;
  ft_max_sequence_number : Z
}.

Definition append_uint16 (destination : str) (value : Z) : str := destination ++ le_bytes 2 value.
Definition append_uint32 (destination : str) (value : Z) : str := destination ++ le_bytes 4 value.
Definition append_uint64 (destination : str) (value : Z) : str := destination ++ le_bytes 8 value.

Definition read_uint (n : nat) (what : string) (bytes : str) : result Z :=
  _ ← throw_if (zlen bytes <? Z.of_nat n) (InvalidArgument what);
  mret (le_read (take n bytes) 0 0).
Definition read_uint16 : str -> result Z := read_uint 2 "insufficient bytes for uint16".
Definition read_uint32 : str -> result Z := read_uint 4 "insufficient bytes for uint32".
Definition read_uint64 : str -> result Z := read_uint 8 "insufficient bytes for uint64".

Definition has_magic (bytes magic : str) : bool :=
  (zlen magic <=? zlen bytes) && bool_decide (take (length magic) bytes = magic).

Definition validate_checksum (bytes : str) (file_offset : Z) (component : string) : result unit :=
  _ ← throw_if (zlen bytes <? kChecksumSize)
        (CorruptionError file_offset (String.append component " is shorter than its checksum"));
  let payload := take (length bytes - 4) bytes in
  expected ← read_uint32 (drop (length bytes - 4) bytes);
  throw_if (negb (expected =? crc32 payload))
    (CorruptionError (u64 (file_offset + zlen bytes - kChecksumSize))
       (String.append component " checksum mismatch")).

(** Answers the string and the cursor after it. *)
Definition read_string (bytes : str) (cursor length file_offset : Z) (component : string)
    : result (str * Z) :=
  _ ← throw_if ((zlen bytes <? cursor) || (zlen bytes - cursor <? length))
        (CorruptionError (u64 (file_offset + cursor)) (String.append component " contains a truncated string"));
  mret (subspan bytes cursor length, cursor + length).

Definition require_size (bytes : str) (expected file_offset : Z) (component : string) : result unit :=
  throw_if (negb (zlen bytes =? expected))
    (CorruptionError file_offset (String.append component " has an invalid size")).

Definition serialize_header (header : Header) : str :=
  let bytes := kHeaderMagic in
  let bytes := append_uint16 bytes kVersion in
  let bytes := append_uint16 bytes kHeaderSize in
  let bytes := append_uint64 bytes (h_generation header) in
  let bytes := append_uint64 bytes (h_entry_count header) in
  let bytes := append_uint32 bytes (h_block_count header) in
  let bytes := append_uint32 bytes (h_target_data_block_bytes header) in
  let bytes := append_uint64 bytes (h_min_sequence_number header) in
  let bytes := append_uint64 bytes (h_max_sequence_number header) in
  append_uint32 bytes (crc32 bytes).

Definition parse_header (bytes : str) (file_offset : Z) : result Header :=
  _ ← require_size bytes kHeaderSize file_offset "SSTable header";
  _ ← validate_checksum bytes file_offset "SSTable header";
  _ ← throw_if (negb (has_magic bytes kHeaderMagic))
        (CorruptionError file_offset "SSTable header magic mismatch");
  version ← read_uint16 (subspan bytes 8 2);
  _ ← throw_if (negb (version =? kVersion))
        (CorruptionError (u64 (file_offset + 8)) "unsupported SSTable version");
  size ← read_uint16 (subspan bytes 10 2);
  _ ← throw_if (negb (size =? kHeaderSize))
        (CorruptionError (u64 (file_offset + 10)) "invalid SSTable header size");
  generation ← read_uint64 (subspan bytes 12 8);
  entry_count ← read_uint64 (subspan bytes 20 8);
  block_count ← read_uint32 (subspan bytes 28 4);
  target ← read_uint32 (subspan bytes 32 4);
  min_sequence ← read_uint64 (subspan bytes 36 8);
  max_sequence ← read_uint64 (subspan bytes 44 8);
  _ ← throw_if ((entry_count =? 0) || (block_count =? 0) || (min_sequence =? 0)
                || (max_sequence <? min_sequence))
        (CorruptionError file_offset "SSTable header metadata is invalid");
  mret (mkHeader generation entry_count block_count target min_sequence max_sequence).

(** The test that a key follows the previous one, unless that is empty. *)
Definition follows (previous_key key : str) : bool :=
  is_nil previous_key || negb (str_leb key previous_key).

Definition bad_entry (key : str) (entry : Entry) : bool :=
  is_nil key || (kMaxKeySize <? zlen key) || (kMaxValueSize <? zlen (e_value entry))
  || (e_seq entry =? 0) || (e_deleted entry && negb (is_nil (e_value entry))).

Fixpoint serialize_records (rs : list (str * Entry)) (previous_key bytes : str) : result str :=
  match rs with
  | [] => mret bytes
  | (key, entry) :: rs' =>
      _ ← throw_if (bad_entry key entry)
            (InvalidArgument "invalid entry supplied to SSTable data block");
      _ ← throw_if (negb (follows previous_key key))
            (InvalidArgument "SSTable data block keys must be strictly sorted");
      let bytes := append_uint32 bytes (u32 (zlen key)) in
      let bytes := append_uint32 bytes (u32 (zlen (e_value entry))) in
      let bytes := append_uint64 bytes (e_seq entry) in
      let bytes := bytes ++ [if e_deleted entry then x01 else x00] in
      let bytes := bytes ++ [x00; x00; x00] in
      let bytes := bytes ++ key in
      let bytes := bytes ++ e_value entry in
      serialize_records rs' key bytes
  end.

Definition serialize_data_block (block : DataBlock) : result str :=
  _ ← throw_if (is_nil (records block))
        (InvalidArgument "cannot serialize an empty SSTable data block");
  _ ← throw_if (u32_max <? zlen (records block))
        (LengthError "SSTable data block contains too many records");
  let bytes := append_uint32 kDataBlockMagic (u32 (zlen (records block))) in
  bytes ← serialize_records (records block) [] bytes;
  mret (append_uint32 bytes (crc32 bytes)).

(** The loop over [index < record_count], the turns counted down. *)
Fixpoint parse_records (turns : nat) (bytes : str) (payload_end file_offset cursor : Z)
    (previous_key : str) (acc : list (str * Entry)) : result (list (str * Entry) * Z) :=
  match turns with
  | O => mret (acc, cursor)
  | S turns' =>
      _ ← throw_if ((payload_end <? cursor) || (payload_end - cursor <? kRecordFixedSize))
            (CorruptionError (u64 (file_offset + cursor))
               "SSTable data block record header is truncated");
      key_size ← read_uint32 (subspan bytes cursor 4);
      value_size ← read_uint32 (subspan bytes (cursor + 4) 4);
      sequence_number ← read_uint64 (subspan bytes (cursor + 8) 8);
      let flags := b2z (nth (Z.to_nat (cursor + 16)) bytes x00) in
      let cursor := cursor + kRecordFixedSize in
      _ ← throw_if ((key_size =? 0) || (kMaxKeySize <? key_size) || (kMaxValueSize <? value_size)
                    || (sequence_number =? 0) || (1 <? flags))
            (CorruptionError (u64 (file_offset + cursor - kRecordFixedSize))
               "SSTable data block record metadata is invalid");
      let deleted := flags =? 1 in
      _ ← throw_if (deleted && negb (value_size =? 0))
            (CorruptionError (u64 (file_offset + cursor - 4)) "SSTable tombstone contains a value");
      key_cursor ← read_string (take (Z.to_nat payload_end) bytes) cursor key_size file_offset
                     "SSTable data block";
      let '(key, cursor) := key_cursor in
      value_cursor ← read_string (take (Z.to_nat payload_end) bytes) cursor value_size file_offset
                       "SSTable data block";
      let '(value, cursor) := value_cursor in
      _ ← throw_if (negb (follows previous_key key))
            (CorruptionError (u64 (file_offset + cursor))
               "SSTable data block keys are not strictly sorted");
      parse_records turns' bytes payload_end file_offset cursor key
        (acc ++ [(key, mkEntry value sequence_number deleted)])
  end.

Definition parse_data_block (bytes : str) (file_offset : Z) : result DataBlock :=
  _ ← throw_if (zlen bytes <? kPrefixSize + kChecksumSize)
        (CorruptionError file_offset "SSTable data block is truncated");
  _ ← validate_checksum bytes file_offset "SSTable data block";
  _ ← throw_if (negb (has_magic bytes kDataBlockMagic))
        (CorruptionError file_offset "SSTable data block magic mismatch");
  record_count ← read_uint32 (subspan bytes 8 4);
  _ ← throw_if (record_count =? 0)
        (CorruptionError (u64 (file_offset + 8)) "SSTable data block is empty");
  let payload_end := zlen bytes - kChecksumSize in
  res ← parse_records (Z.to_nat record_count) bytes payload_end file_offset kPrefixSize [] [];
  let '(rs, cursor) := res in
  _ ← throw_if (negb (cursor =? payload_end))
        (CorruptionError (u64 (file_offset + cursor)) "SSTable data block contains trailing bytes");
  mret (mkDataBlock rs).

Definition bad_index_entry (e : IndexEntry) (previous_last_key : str) : bool :=
  is_nil (ie_first_key e) || is_nil (ie_last_key e) || str_ltb (ie_last_key e) (ie_first_key e)
  || (ie_block_size e =? 0) || negb (follows previous_last_key (ie_first_key e)).

Fixpoint serialize_index_entries (es : list IndexEntry) (previous_last_key bytes : str) : result str :=
  match es with
  | [] => mret bytes
  | e :: es' =>
      _ ← throw_if (bad_index_entry e previous_last_key) (InvalidArgument "invalid SSTable index entry");
      let bytes := append_uint64 bytes (ie_block_offset e) in
      let bytes := append_uint64 bytes (ie_block_size e) in
      let bytes := append_uint32 bytes (u32 (zlen (ie_first_key e))) in
      let bytes := append_uint32 bytes (u32 (zlen (ie_last_key e))) in
      let bytes := bytes ++ ie_first_key e in
      let bytes := bytes ++ ie_last_key e in
      serialize_index_entries es' (ie_last_key e) bytes
  end.

Definition serialize_index_block (entries : list IndexEntry) : result str :=
  _ ← throw_if (is_nil entries) (InvalidArgument "cannot serialize an empty SSTable index");
  _ ← throw_if (u32_max <? zlen entries) (LengthError "SSTable index contains too many blocks");
  let bytes := append_uint32 kIndexMagic (u32 (zlen entries)) in
  bytes ← serialize_index_entries entries [] bytes;
  mret (append_uint32 bytes (crc32 bytes)).

Fixpoint parse_index_entries (turns : nat) (bytes : str) (payload_end file_offset cursor : Z)
    (previous_last_key : str) (acc : list IndexEntry) : result (list IndexEntry * Z) :=
  match turns with
  | O => mret (acc, cursor)
  | S turns' =>
      _ ← throw_if ((payload_end <? cursor) || (payload_end - cursor <? kEntryFixedSize))
            (CorruptionError (u64 (file_offset + cursor)) "SSTable index entry is truncated");
      block_offset ← read_uint64 (subspan bytes cursor 8);
      block_size ← read_uint64 (subspan bytes (cursor + 8) 8);
      first_size ← read_uint32 (subspan bytes (cursor + 16) 4);
      last_size ← read_uint32 (subspan bytes (cursor + 20) 4);
      let cursor := cursor + kEntryFixedSize in
      _ ← throw_if ((first_size =? 0) || (kMaxKeySize <? first_size) || (last_size =? 0)
                    || (kMaxKeySize <? last_size) || (block_size =? 0))
            (CorruptionError (u64 (file_offset + cursor - kEntryFixedSize))
               "SSTable index metadata is invalid");
      first_cursor ← read_string (take (Z.to_nat payload_end) bytes) cursor first_size file_offset
                       "SSTable index";
      let '(first, cursor) := first_cursor in
      last_cursor ← read_string (take (Z.to_nat payload_end) bytes) cursor last_size file_offset
                      "SSTable index";
      let '(last, cursor) := last_cursor in
      _ ← throw_if (str_ltb last first || negb (follows previous_last_key first))
            (CorruptionError (u64 (file_offset + cursor)) "SSTable index key ranges are invalid");
      parse_index_entries turns' bytes payload_end file_offset cursor last
        (acc ++ [mkIndexEntry first last block_offset block_size])
  end.

Definition parse_index_block (bytes : str) (file_offset : Z) : result (list IndexEntry) :=
  _ ← throw_if (zlen bytes <? kPrefixSize + kChecksumSize)
        (CorruptionError file_offset "SSTable index block is truncated");
  _ ← validate_checksum bytes file_offset "SSTable index block";
  _ ← throw_if (negb (has_magic bytes kIndexMagic))
        (CorruptionError file_offset "SSTable index magic mismatch");
  entry_count ← read_uint32 (subspan bytes 8 4);
  _ ← throw_if (entry_count =? 0)
        (CorruptionError (u64 (file_offset + 8)) "SSTable index is empty");
  let payload_end := zlen bytes - kChecksumSize in
  res ← parse_index_entries (Z.to_nat entry_count) bytes payload_end file_offset kPrefixSize [] [];
  let '(es, cursor) := res in
  _ ← throw_if (negb (cursor =? payload_end))
        (CorruptionError (u64 (file_offset + cursor)) "SSTable index contains trailing bytes");
  mret es.

Definition serialize_footer (footer : SSTableFooter) : str :=
  let bytes := kFooterMagic in
  let bytes := append_uint16 bytes kVersion in
  let bytes := append_uint16 bytes kFooterSize in
  let bytes := append_uint64 bytes (ft_index_offset footer) in
  let bytes := append_uint64 bytes (ft_index_size footer) in
  let bytes := append_uint64 bytes (ft_entry_count footer) in
  let bytes := append_uint32 bytes (ft_block_count footer) in
  let bytes := append_uint32 bytes 0 in
  let bytes := append_uint64 bytes (ft_min_sequence_number footer) in
  let bytes := append_uint64 bytes (ft_max_sequence_number footer) in
  append_uint32 bytes (crc32 bytes).

Definition parse_footer (bytes : str) (file_offset : Z) : result SSTableFooter :=
  _ ← require_size bytes kFooterSize file_offset "SSTable footer";
  _ ← validate_checksum bytes file_offset "SSTable footer";
  _ ← throw_if (negb (has_magic bytes kFooterMagic))
        (CorruptionError file_offset "SSTable footer magic mismatch");
  version ← read_uint16 (subspan bytes 8 2);
  _ ← throw_if (negb (version =? kVersion))
        (CorruptionError (u64 (file_offset + 8)) "unsupported SSTable footer version");
  size ← read_uint16 (subspan bytes 10 2);
  _ ← throw_if (negb (size =? kFooterSize))
        (CorruptionError (u64 (file_offset + 10)) "invalid SSTable footer size");
  index_offset ← read_uint64 (subspan bytes 12 8);
  index_size ← read_uint64 (subspan bytes 20 8);
  entry_count ← read_uint64 (subspan bytes 28 8);
  block_count ← read_uint32 (subspan bytes 36 4);
  min_sequence ← read_uint64 (subspan bytes 44 8);
  max_sequence ← read_uint64 (subspan bytes 52 8);
  _ ← throw_if ((index_size =? 0) || (entry_count =? 0) || (block_count =? 0) || (min_sequence =? 0)
                || (max_sequence <? min_sequence))
        (CorruptionError file_offset "SSTable footer metadata is invalid");
  mret (mkFooter index_offset index_size entry_count block_count min_sequence max_sequence).

Definition encoded_record_size (record : str * Entry) : Z :=
  kRecordFixedSize + zlen record.1 + zlen (e_value record.2).

(** ** Specification of the encoding *)

(** A component followed by its checksum. *)
Definition seal (payload : str) : str := payload ++ le_bytes 4 (crc32 payload).

Definition record_fixed (key_size value_size sequence_number : Z) (deleted : bool) : str :=
  le_bytes 4 key_size ++ le_bytes 4 value_size ++ le_bytes 8 sequence_number
  ++ [if deleted then x01 else x00; x00; x00; x00].

Definition enc_record (r : str * Entry) : str :=
  record_fixed (zlen r.1) (zlen (e_value r.2)) (e_seq r.2) (e_deleted r.2) ++ r.1 ++ e_value r.2.

Definition enc_records (rs : list (str * Entry)) : str := concat (map enc_record rs).

Definition enc_block (rs : list (str * Entry)) : str :=
  seal (kDataBlockMagic ++ le_bytes 4 (zlen rs) ++ enc_records rs).

Definition enc_index_entry (e : IndexEntry) : str :=
  le_bytes 8 (ie_block_offset e) ++ le_bytes 8 (ie_block_size e)
  ++ le_bytes 4 (zlen (ie_first_key e)) ++ le_bytes 4 (zlen (ie_last_key e))
  ++ ie_first_key e ++ ie_last_key e.

Definition enc_index_entries (es : list IndexEntry) : str := concat (map enc_index_entry es).

Definition enc_index (es : list IndexEntry) : str :=
  seal (kIndexMagic ++ le_bytes 4 (zlen es) ++ enc_index_entries es).

(** Records a block can hold. *)
Definition block_wf (rs : list (str * Entry)) : Prop :=
  rs <> [] /\ zlen rs <= u32_max /\ om_wf rs /\ Forall wf_entry rs.

Definition wf_index_entry (e : IndexEntry) : Prop :=
  valid_key (ie_first_key e) /\ valid_key (ie_last_key e) /\ str_le (ie_first_key e) (ie_last_key e) /\
  is_u64 (ie_block_offset e) /\ 0 < ie_block_size e <= u64_max.

(** Key ranges that do not overlap, in order. *)
Definition index_sorted (es : list IndexEntry) : Prop :=
  StronglySorted (fun e1 e2 => str_lt (ie_last_key e1) (ie_first_key e2)) es.

Definition index_wf (es : list IndexEntry) : Prop :=
  es <> [] /\ zlen es <= u32_max /\ index_sorted es /\ Forall wf_index_entry es.

Definition header_wf (h : Header) : Prop :=
  is_u64 (h_generation h) /\ 0 < h_entry_count h <= u64_max /\ 0 < h_block_count h <= u32_max /\
  is_u32 (h_target_data_block_bytes h) /\ 0 < h_min_sequence_number h /\
  h_min_sequence_number h <= h_max_sequence_number h <= u64_max.

Definition footer_wf (f : SSTableFooter) : Prop :=
  is_u64 (ft_index_offset f) /\ 0 < ft_index_size f <= u64_max /\ 0 < ft_entry_count f <= u64_max /\
  0 < ft_block_count f <= u32_max /\ 0 < ft_min_sequence_number f /\
  ft_min_sequence_number f <= ft_max_sequence_number f <= u64_max.

(** ** Fields at known places *)

Lemma subspan_skip (a b : str) off n m r :
  zlen a = m -> off = m + r -> 0 <= r -> subspan (a ++ b) off n = subspan b r n.
Proof.
  intros <- -> Hr. unfold subspan. pose proof (zlen_nonneg a). rewrite Z2Nat.inj_add by lia.
  rewrite to_nat_zlen, <- drop_drop, drop_app_length. done.
Qed.

Lemma subspan_here (a b : str) n : zlen a = n -> subspan (a ++ b) 0 n = a.
Proof. intros <-. unfold subspan. rewrite to_nat_zlen. apply take_app_length. Qed.

Lemma read_uint_le n what v : 0 <= v < 256 ^ Z.of_nat n -> read_uint n what (le_bytes n v) = Ok v.
Proof.
  intros Hv. unfold read_uint. rewrite le_bytes_zlen, Z.ltb_irrefl. mred.
  rewrite take_ge by by rewrite le_bytes_length. by rewrite le_read_bytes.
Qed.

Lemma read_uint_inv n what bs v :
  read_uint n what bs = Ok v -> 0 <= v < 256 ^ Z.of_nat n.
Proof.
  unfold read_uint. intros H. inv_ok. zbool. rewrite le_read_0.
  pose proof (le_val_range (take n bs)) as Hr. unfold zlen in *. rewrite length_take in Hr.
  by rewrite Nat.min_l in Hr by lia.
Qed.

Lemma zlen_seal p : zlen (seal p) = zlen p + 4.
Proof. unfold seal. by rewrite zlen_app, le_bytes_zlen. Qed.

Lemma seal_parts (p : str) v :
  take (length (p ++ le_bytes 4 v) - 4) (p ++ le_bytes 4 v) = p /\
  drop (length (p ++ le_bytes 4 v) - 4) (p ++ le_bytes 4 v) = le_bytes 4 v.
Proof.
  rewrite length_app, le_bytes_length. replace (length p + 4 - 4)%nat with (length p) by lia.
  by rewrite take_app_length, drop_app_length.
Qed.

(** Checking a payload against a stored checksum. *)
Lemma validate_checksum_app p v off c :
  is_u32 v ->
  validate_checksum (p ++ le_bytes 4 v) off c
  = throw_if (negb (v =? crc32 p))
      (CorruptionError (u64 (off + zlen p)) (String.append c " checksum mismatch")).
Proof.
  intros Hv. unfold validate_checksum. destruct (seal_parts p v) as [-> ->].
  rewrite zlen_app, le_bytes_zlen. pose proof (zlen_nonneg p). unfold kChecksumSize. zdecide. mred.
  unfold read_uint32. rewrite read_uint_le by auto with nebula.
  replace (off + (zlen p + Z.of_nat 4) - 4) with (off + zlen p) by lia. done.
Qed.

Lemma validate_checksum_seal p off c : validate_checksum (seal p) off c = Ok tt.
Proof.
  unfold seal. rewrite validate_checksum_app by auto with nebula. by rewrite Z.eqb_refl.
Qed.

(** What passes the check is sealed. *)
Lemma validate_checksum_inv bs off c u :
  validate_checksum bs off c = Ok u -> exists p, bs = seal p.
Proof.
  unfold validate_checksum. intros H. inv_ok. zbool. exists (take (length bs - 4) bs).
  unfold seal. unfold read_uint32, read_uint in E0. inv_ok. zbool. rewrite <- H, le_read_0.
  rewrite <- (take_drop (length bs - 4) bs) at 1. f_equal.
  assert (Hl : length (drop (length bs - 4) bs) = 4%nat).
  { rewrite length_drop. unfold zlen, kChecksumSize in *. lia. }
  rewrite take_ge by lia. rewrite <- Hl at 2. by rewrite le_bytes_val.
Qed.

(** A burst of up to four changed bytes is caught. *)
Lemma validate_checksum_burst a x y b off c :
  length x = length y -> (length x <= 4)%nat -> x <> y ->
  validate_checksum ((a ++ y ++ b) ++ le_bytes 4 (crc32 (a ++ x ++ b))) off c
  = Throw (CorruptionError (u64 (off + zlen (a ++ y ++ b))) (String.append c " checksum mismatch")).
Proof.
  intros Hl H4 Hne. rewrite validate_checksum_app by auto with nebula.
  destruct (Z.eqb_spec (crc32 (a ++ x ++ b)) (crc32 (a ++ y ++ b))) as [E|]; [|done].
  by apply crc32_burst in E.
Qed.

Lemma has_magic_app m rest : has_magic (m ++ rest) m = true.
Proof.
  unfold has_magic. rewrite take_app_length, zlen_app. pose proof (zlen_nonneg rest). zdecide.
  by rewrite bool_decide_true.
Qed.

(** Moves the span under the cursor past the next field, or onto it. *)
Ltac skip_field :=
  match goal with
  | |- context [subspan (?a ++ ?b) ?off ?n] =>
      let m := match a with
               | le_bytes ?k _ => eval vm_compute in (Z.of_nat k)
               | _ => eval vm_compute in (zlen a)
               end in
      let r := eval vm_compute in (off - m) in
      match r with
      | Z.neg _ => rewrite (subspan_here a b n) by (first [apply le_bytes_zlen | reflexivity])
      | _ => rewrite (subspan_skip a b off n m r)
               by (first [apply le_bytes_zlen | reflexivity | lia])
      end
  end.

Ltac read_field := repeat skip_field; rewrite read_uint_le by (auto with nebula; unfold is_u64, is_u32, u64_max, u32_max, kVersion, kHeaderSize, kFooterSize in *; simpl; lia).

(** ** Header and footer *)

Lemma serialize_header_seal h :
  serialize_header h = seal (kHeaderMagic ++ le_bytes 2 kVersion ++ le_bytes 2 kHeaderSize
    ++ le_bytes 8 (h_generation h) ++ le_bytes 8 (h_entry_count h) ++ le_bytes 4 (h_block_count h)
    ++ le_bytes 4 (h_target_data_block_bytes h) ++ le_bytes 8 (h_min_sequence_number h)
    ++ le_bytes 8 (h_max_sequence_number h)).
Proof.
  unfold serialize_header, append_uint16, append_uint32, append_uint64, seal. by rewrite <- !app_assoc.
Qed.

Lemma serialize_header_zlen h : zlen (serialize_header h) = kHeaderSize.
Proof. rewrite serialize_header_seal, zlen_seal, !zlen_app, !le_bytes_zlen. done. Qed.

Lemma header_roundtrip_at h off : header_wf h -> parse_header (serialize_header h) off = Ok h.
Proof.
  intros (H1 & H2 & H3 & H4 & H5 & H6). unfold parse_header, require_size.
  rewrite serialize_header_zlen. rewrite serialize_header_seal, validate_checksum_seal.
  unfold seal. rewrite <- !app_assoc, has_magic_app. unfold read_uint16, read_uint32, read_uint64.
  mred. do 8 (read_field; cbn zeta iota beta). zdecide. by destruct h.
Qed.

Lemma serialize_footer_seal f :
  serialize_footer f = seal (kFooterMagic ++ le_bytes 2 kVersion ++ le_bytes 2 kFooterSize
    ++ le_bytes 8 (ft_index_offset f) ++ le_bytes 8 (ft_index_size f) ++ le_bytes 8 (ft_entry_count f)
    ++ le_bytes 4 (ft_block_count f) ++ le_bytes 4 0 ++ le_bytes 8 (ft_min_sequence_number f)
    ++ le_bytes 8 (ft_max_sequence_number f)).
Proof.
  unfold serialize_footer, append_uint16, append_uint32, append_uint64, seal. by rewrite <- !app_assoc.
Qed.

Lemma serialize_footer_zlen f : zlen (serialize_footer f) = kFooterSize.
Proof. rewrite serialize_footer_seal, zlen_seal, !zlen_app, !le_bytes_zlen. done. Qed.

Lemma footer_roundtrip_at f off : footer_wf f -> parse_footer (serialize_footer f) off = Ok f.
Proof.
  intros (H1 & H2 & H3 & H4 & H5 & H6). unfold parse_footer, require_size.
  rewrite serialize_footer_zlen. rewrite serialize_footer_seal, validate_checksum_seal.
  unfold seal. rewrite <- !app_assoc, has_magic_app. unfold read_uint16, read_uint32, read_uint64.
  mred. do 8 (read_field; cbn zeta iota beta). zdecide. by destruct f.
Qed.

(** What the parsers accept is well formed. *)
Lemma parse_header_wf bs off h : parse_header bs off = Ok h -> header_wf h.
Proof.
  unfold parse_header. intros H. inv_ok. zbool.
  repeat match goal with E : _ (subspan _ _ _) = Ok _ |- _ => apply read_uint_inv in E; simpl in E end.
  unfold header_wf, is_u64, is_u32, u64_max, u32_max. simpl. lia.
Qed.

Lemma parse_footer_wf bs off f : parse_footer bs off = Ok f -> footer_wf f.
Proof.
  unfold parse_footer. intros H. inv_ok. zbool.
  repeat match goal with E : _ (subspan _ _ _) = Ok _ |- _ => apply read_uint_inv in E; simpl in E end.
  unfold footer_wf, is_u64, is_u32, u64_max, u32_max. simpl. lia.
Qed.

(** ** Order of keys as the loops check it *)

Lemma follows_spec prev key : follows prev key = true <-> prev = [] \/ str_lt prev key.
Proof.
  unfold follows. rewrite orb_true_iff, is_nil_true, str_leb_ltb, negb_involutive, str_ltb_lt. done.
Qed.

(** Each key follows the one before; the first follows [prev]. *)
Fixpoint chain (prev : str) (rs : list (str * Entry)) : Prop :=
  match rs with
  | [] => True
  | r :: rs' => follows prev r.1 = true /\ chain r.1 rs'
  end.

Lemma chain_wf rs prev :
  Forall (fun r => r.1 <> []) rs -> prev <> [] ->
  chain prev rs <-> om_wf rs /\ Forall (fun r => str_lt prev r.1) rs.
Proof.
  revert prev. induction rs as [|[k e] rs IH]; intros prev Hne Hp; simpl.
  { split; [intros _; split; [apply om_wf_nil|constructor]|done]. }
  apply Forall_cons in Hne as [Hk Hne]. simpl in Hk. rewrite om_wf_cons, follows_spec, (IH k) by done.
  split.
  - intros [[?|Hlt] [Hw Hf]]; [done|]. split; [done|]. constructor; [done|].
    eapply Forall_impl; [exact Hf|]. intros r Hr. by eapply str_lt_trans.
  - intros [[Hw Hf] Hlt]. apply Forall_cons in Hlt as [? ?]. auto.
Qed.

Lemma chain_nil rs : Forall (fun r => r.1 <> []) rs -> chain [] rs <-> om_wf rs.
Proof.
  destruct rs as [|[k e] rs]; [intros _; split; [intros; apply om_wf_nil|done]|].
  intros [Hk Hne]%Forall_cons. simpl in *. rewrite om_wf_cons, chain_wf by done. by intuition.
Qed.

Lemma wf_entry_nonempty r : wf_entry r -> r.1 <> [].
Proof. intros (Hk & _) E. rewrite E in Hk. by destruct Hk. Qed.

Lemma chain_om_wf rs : Forall wf_entry rs -> chain [] rs <-> om_wf rs.
Proof.
  intros H. apply chain_nil. eapply Forall_impl; [exact H|]. intros r. apply wf_entry_nonempty.
Qed.

(** ** Data blocks *)

Lemma enc_records_cons r rs : enc_records (r :: rs) = enc_record r ++ enc_records rs.
Proof. done. Qed.

Lemma bad_entry_spec r : e_seq r.2 <= u64_max -> 0 <= e_seq r.2 -> bad_entry r.1 r.2 = false <-> wf_entry r.
Proof.
  intros H1 H2. unfold bad_entry, wf_entry, valid_key, valid_value.
  pose proof (zlen_nonneg r.1). split.
  - intros E. zbool. split; [split; [|lia]|split; [lia|split; [lia|]]].
    + destruct (r.1) as [|b l]; [done|]. rewrite zlen_cons. pose proof (zlen_nonneg l). lia.
    + intros Hd. rewrite Hd in *. simpl in *. destruct (e_value r.2); [done|]. by intuition.
  - intros ((Hk1 & Hk2) & Hv & Hs & Hd). rewrite (proj2 (is_nil_false r.1)) by (intros E; by rewrite E in Hk1).
    zdecide. simpl. destruct (e_deleted r.2); [|done]. by rewrite Hd.
Qed.

Lemma wf_entry_sizes r : wf_entry r -> 0 < zlen r.1 <= kMaxKeySize /\ 0 <= zlen (e_value r.2) <= kMaxValueSize.
Proof. intros ((H1 & H2) & H3 & _). pose proof (zlen_nonneg (e_value r.2)). by unfold valid_value in *. Qed.

Lemma u32_id z : 0 <= z <= u32_max -> u32 z = z.
Proof. unfold u32, u32_max. intros. by rewrite Z.mod_small by lia. Qed.

Lemma serialize_records_ok rs prev bs :
  Forall wf_entry rs -> chain prev rs -> serialize_records rs prev bs = Ok (bs ++ enc_records rs).
Proof.
  revert prev bs. induction rs as [|[k e] rs IH]; intros prev bs Hw Hc.
  { unfold enc_records. simpl. by rewrite app_nil_r. }
  apply Forall_cons in Hw as [Hr Hw]. destruct Hc as [Hf Hc]. cbn [serialize_records].
  pose proof Hr as (_ & _ & Hs & _). simpl in Hs. pose proof (wf_entry_sizes _ Hr) as [S1 S2]. simpl in S1, S2.
  pose proof (proj2 (bad_entry_spec (k, e) ltac:(simpl; lia) ltac:(simpl; lia)) Hr) as Hb.
  simpl in Hb. rewrite Hb.
  simpl in Hf. rewrite Hf. mred. rewrite IH by done. f_equal. rewrite enc_records_cons.
  unfold enc_record, record_fixed, append_uint32, append_uint64. simpl.
  rewrite !u32_id by (unfold u32_max, kMaxKeySize, kMaxValueSize in *; lia).
  by rewrite <- !app_assoc.
Qed.

Lemma serialize_records_inv rs prev bs out :
  Forall (fun r => 0 <= e_seq r.2 <= u64_max) rs ->
  serialize_records rs prev bs = Ok out -> Forall wf_entry rs /\ chain prev rs.
Proof.
  revert prev bs. induction rs as [|[k e] rs IH]; intros prev bs Ht H; [by split|].
  apply Forall_cons in Ht as [Hr Ht]. cbn [serialize_records] in H. inv_ok. zbool.
  apply IH in H as [Hw Hc]; [|done]. split; [|by split]. constructor; [|done].
  by apply (bad_entry_spec (k, e)); simpl in *; try lia.
Qed.

(** [serialize_data_block] accepts exactly the well-formed blocks. *)
Lemma serialize_data_block_iff rs bs :
  Forall (fun r => 0 <= e_seq r.2 <= u64_max) rs ->
  serialize_data_block (mkDataBlock rs) = Ok bs <-> block_wf rs /\ bs = enc_block rs.
Proof.
  intros Ht. unfold serialize_data_block, block_wf, enc_block. cbn [records]. split.
  - intros H. inv_ok. zbool. apply is_nil_false in E.
    pose proof E1 as E2. apply serialize_records_inv in E2 as [Hw Hc]; [|done].
    split; [split_and!; [done|lia|by apply chain_om_wf|done]|].
    rewrite serialize_records_ok in E1 by done. inv_ok. unfold append_uint32.
    rewrite u32_id by (pose proof (zlen_nonneg rs); lia). unfold seal. by rewrite <- !app_assoc.
  - intros [(Hne & Hl & Hw & Hf) ->]. rewrite (proj2 (is_nil_false rs)) by done. mred. zdecide.
    rewrite serialize_records_ok by (try apply chain_om_wf; done). f_equal. unfold append_uint32, seal.
    rewrite u32_id by (pose proof (zlen_nonneg rs); lia). by rewrite <- !app_assoc.
Qed.

Lemma record_fixed_zlen k v s d : zlen (record_fixed k v s d) = kRecordFixedSize.
Proof. unfold record_fixed. by rewrite !zlen_app, !le_bytes_zlen. Qed.

Lemma record_fields pre k v s d rest :
  is_u32 k -> is_u32 v -> is_u64 s ->
  let bytes := pre ++ record_fixed k v s d ++ rest in
  read_uint32 (subspan bytes (zlen pre) 4) = Ok k /\
  read_uint32 (subspan bytes (zlen pre + 4) 4) = Ok v /\
  read_uint64 (subspan bytes (zlen pre + 8) 8) = Ok s /\
  b2z (nth (Z.to_nat (zlen pre + 16)) bytes x00) = if d then 1 else 0.
Proof.
  intros Hk Hv Hs bytes. unfold bytes, record_fixed, read_uint32, read_uint64. rewrite <- !app_assoc.
  rewrite (subspan_skip pre _ (zlen pre) 4 (zlen pre) 0) by lia.
  rewrite (subspan_skip pre _ (zlen pre + 4) 4 (zlen pre) 4) by lia.
  rewrite (subspan_skip pre _ (zlen pre + 8) 8 (zlen pre) 8) by lia.
  split; [by read_field|]. split; [by read_field|]. split; [by read_field|].
  pose proof (zlen_nonneg pre). rewrite Z2Nat.inj_add, to_nat_zlen by lia.
  rewrite app_nth2 by lia. replace (length pre + Z.to_nat 16 - length pre)%nat with 16%nat by lia.
  rewrite app_nth2; rewrite le_bytes_length; [|lia].
  rewrite app_nth2; rewrite le_bytes_length; [|lia].
  rewrite app_nth2; rewrite le_bytes_length; [|lia]. by destruct d.
Qed.

Lemma read_string_at pre s rest cursor n off c :
  cursor = zlen pre -> n = zlen s ->
  read_string (pre ++ s ++ rest) cursor n off c = Ok (s, zlen (pre ++ s)).
Proof.
  intros -> ->. unfold read_string. rewrite !zlen_app.
  pose proof (zlen_nonneg s). pose proof (zlen_nonneg rest). mred. zdecide. cbn [orb].
  by rewrite subspan_app.
Qed.

Lemma parse_records_ok rs pre post off prev acc :
  Forall wf_entry rs -> chain prev rs ->
  parse_records (length rs) ((pre ++ enc_records rs) ++ post) (zlen (pre ++ enc_records rs)) off
    (zlen pre) prev acc
  = Ok (acc ++ rs, zlen (pre ++ enc_records rs)).
Proof.
  revert pre prev acc. induction rs as [|[k e] rs IH]; intros pre prev acc Hw Hc.
  { unfold enc_records. simpl. by rewrite !app_nil_r. }
  apply Forall_cons in Hw as [Hr Hw]. destruct Hc as [Hf Hc]. cbn [length parse_records].
  pose proof (wf_entry_sizes _ Hr) as [S1 S2]. simpl in S1, S2, Hf. destruct Hr as (_ & _ & Hs & Hd). simpl in Hs, Hd.
  set (all := pre ++ enc_records ((k, e) :: rs)).
  set (fixed := record_fixed (zlen k) (zlen (e_value e)) (e_seq e) (e_deleted e)).
  assert (Eall : all = pre ++ fixed ++ k ++ e_value e ++ enc_records rs).
  { unfold all. rewrite enc_records_cons. unfold enc_record. simpl. by rewrite <- !app_assoc. }
  assert (Hfl : zlen fixed = kRecordFixedSize) by apply record_fixed_zlen.
  assert (Hlen : zlen all = zlen pre + (20 + (zlen k + (zlen (e_value e) + zlen (enc_records rs))))).
  { rewrite Eall, !zlen_app, Hfl. unfold kRecordFixedSize. lia. }
  pose proof (zlen_nonneg pre). pose proof (zlen_nonneg (enc_records rs)).
  unfold kRecordFixedSize, kMaxKeySize, kMaxValueSize in *.
  destruct (record_fields pre (zlen k) (zlen (e_value e)) (e_seq e) (e_deleted e)
              ((k ++ e_value e ++ enc_records rs) ++ post)) as (F1 & F2 & F3 & F4);
    [unfold is_u32, u32_max; lia|unfold is_u32, u32_max; lia|unfold is_u64; lia|].
  assert (Ebs : all ++ post = pre ++ fixed ++ (k ++ e_value e ++ enc_records rs) ++ post).
  { rewrite Eall. by rewrite <- !app_assoc. }
  fold fixed in F1, F2, F3, F4. rewrite <- Ebs in F1, F2, F3, F4. rewrite F1, F2, F3, F4.
  rewrite to_nat_zlen, take_app_length. mred. zdecide. cbn [orb].
  assert (Hflag : (1 <? (if e_deleted e then 1 else 0)) = false) by by destruct (e_deleted e). rewrite Hflag.
  assert (Hdel : ((if e_deleted e then 1 else 0) =? 1) = e_deleted e) by by destruct (e_deleted e). rewrite Hdel.
  assert (Htomb : (if e_deleted e then if zlen (e_value e) =? 0 then false else true else false) = false).
  { destruct (e_deleted e) eqn:E; [|done]. by rewrite Hd. }
  rewrite Htomb. rewrite Eall.
  rewrite (app_assoc pre fixed), (read_string_at (pre ++ fixed)) by (rewrite ?zlen_app; lia).
  rewrite (app_assoc (pre ++ fixed) k), (read_string_at ((pre ++ fixed) ++ k)) by done.
  rewrite Hf. rewrite app_assoc.
  set (pre' := ((pre ++ fixed) ++ k) ++ e_value e).
  rewrite (IH pre' k) by done. by rewrite <- app_assoc; destruct e.
Qed.

Lemma enc_records_nonempty rs : 0 <= zlen (enc_records rs).
Proof. apply zlen_nonneg. Qed.

(** ** A block reads back as it was written *)

Lemma block_roundtrip_at rs off : block_wf rs -> parse_data_block (enc_block rs) off = Ok (mkDataBlock rs).
Proof.
  intros (Hne & Hl & Hw & Hf). unfold parse_data_block, enc_block.
  set (p := kDataBlockMagic ++ le_bytes 4 (zlen rs) ++ enc_records rs).
  assert (Hp : zlen p = 12 + zlen (enc_records rs)) by (unfold p; rewrite !zlen_app, le_bytes_zlen; change (zlen kDataBlockMagic) with 8; lia).
  pose proof (zlen_nonneg (enc_records rs)). pose proof (zlen_nonneg rs).
  assert (Hlp : zlen rs <> 0) by by rewrite zlen_0.
  rewrite validate_checksum_seal, zlen_seal, Hp. unfold kPrefixSize, kChecksumSize. mred. zdecide.
  unfold seal. assert (Hm : has_magic (p ++ le_bytes 4 (crc32 p)) kDataBlockMagic = true).
  { unfold p. rewrite <- app_assoc. apply has_magic_app. }
  rewrite Hm. assert (Hc : read_uint32 (subspan (p ++ le_bytes 4 (crc32 p)) 8 4) = Ok (zlen rs)).
  { unfold p. rewrite <- !app_assoc. unfold read_uint32. by read_field. }
  rewrite Hc. zdecide. rewrite to_nat_zlen.
  pose proof (parse_records_ok rs (kDataBlockMagic ++ le_bytes 4 (zlen rs)) (le_bytes 4 (crc32 p)) off [] [] Hf) as HP.
  rewrite <- (app_assoc kDataBlockMagic) in HP. fold p in HP.
  rewrite (zlen_app kDataBlockMagic), le_bytes_zlen in HP.
  change (zlen kDataBlockMagic + Z.of_nat 4) with 12 in HP.
  replace (12 + zlen (enc_records rs) + 4 - 4) with (zlen p) by lia.
  rewrite HP by by apply chain_om_wf. cbv beta iota. by rewrite Z.eqb_refl.
Qed.

(** Opens a successful sequence of calls, pairs included. *)
Ltac inv_pairs :=
  inv_ok;
  repeat (match goal with
          | H : (let '(_, _) := ?x in _) = Ok _ |- _ => destruct x
          end; inv_ok).

Lemma read_string_inv bs cursor n off c s cursor' :
  read_string bs cursor n off c = Ok (s, cursor') -> 0 <= cursor -> 0 <= n ->
  zlen s = n /\ cursor' = cursor + n /\ cursor' <= zlen bs.
Proof.
  unfold read_string. intros H H1 H2. inv_ok. zbool. split; [|split; [done|lia]].
  apply subspan_zlen; lia.
Qed.

(** What the parser accepts is a well-formed block, whatever the bytes. *)
Lemma parse_records_sound turns bs pe off cursor prev acc rs' cursor' :
  parse_records turns bs pe off cursor prev acc = Ok (rs', cursor') -> 0 <= cursor ->
  exists rs, rs' = acc ++ rs /\ length rs = turns /\ Forall wf_entry rs /\ chain prev rs.
Proof.
  revert cursor prev acc. induction turns as [|turns IH]; intros cursor prev acc H H0; cbn [parse_records] in H.
  { inv_ok. exists []. rewrite app_nil_r. by split_and!. }
  inv_pairs. apply read_uint_inv in E0, E1, E2. zbool. simpl in E0, E1, E2.
  apply read_string_inv in E5 as (L1 & -> & _); [|unfold kRecordFixedSize; lia..].
  apply read_string_inv in E6 as (L2 & -> & _); [|unfold kRecordFixedSize; lia..].
  apply IH in H as (rs & -> & Hn & Hw & Hc); [|unfold kRecordFixedSize; lia].
  exists ((l, mkEntry l0 x2 (b2z (nth (Z.to_nat (cursor + 16)) bs x00) =? 1)) :: rs).
  rewrite <- app_assoc. split; [done|]. split; [by simpl; rewrite Hn|]. split; [|done].
  constructor; [|done]. unfold wf_entry, valid_key, valid_value, u64_max. cbn [fst snd e_value e_seq e_deleted].
  split; [lia|]. split; [lia|]. split; [lia|]. intros Hd. rewrite Hd in E4.
  apply zlen_0. destruct E4 as [?|E4]; [done|]. zbool. lia.
Qed.

Lemma parse_data_block_wf bs off b : parse_data_block bs off = Ok b -> block_wf (records b).
Proof.
  unfold parse_data_block. intros H. inv_pairs. zbool. apply read_uint_inv in E2. simpl in E2.
  apply parse_records_sound in E4 as (rs & -> & Hn & Hw & Hc); [|unfold kPrefixSize; lia].
  cbn [app records]. split; [intros ->; simpl in Hn; lia|]. split; [unfold zlen, u32_max; lia|].
  split; [by apply chain_om_wf|done].
Qed.

(** ** The index *)

Fixpoint ichain (prev : str) (es : list IndexEntry) : Prop :=
  match es with
  | [] => True
  | e :: es' => follows prev (ie_first_key e) = true /\ ichain (ie_last_key e) es'
  end.

Lemma wf_index_last e : wf_index_entry e -> ie_last_key e <> [].
Proof. intros (_ & Hk & _) E. rewrite E in Hk. by destruct Hk. Qed.

Lemma ichain_sorted es prev :
  Forall wf_index_entry es -> prev <> [] ->
  ichain prev es <-> index_sorted es /\ Forall (fun e => str_lt prev (ie_first_key e)) es.
Proof.
  unfold index_sorted. revert prev. induction es as [|e es IH]; intros prev Hw Hp; simpl.
  { split; [intros _; split; constructor|done]. }
  apply Forall_cons in Hw as [He Hw]. rewrite follows_spec, (IH (ie_last_key e)) by (try apply wf_index_last; done).
  pose proof He as (_ & _ & Hle & _). split.
  - intros [[?|Hlt] [Hs Hf]]; [done|]. split; [by constructor|]. constructor; [done|].
    eapply Forall_impl; [exact Hf|]. intros e' Hlt'. eapply str_lt_trans; [exact Hlt|].
    by eapply str_le_lt_trans.
  - intros [Hs Hf]. apply StronglySorted_inv in Hs as [Hs Hall]. apply Forall_cons in Hf as [Hlt _]. auto.
Qed.

Lemma ichain_nil es : Forall wf_index_entry es -> ichain [] es <-> index_sorted es.
Proof.
  unfold index_sorted. destruct es as [|e es]; [intros _; split; [constructor|done]|].
  intros [He Hw]%Forall_cons. cbn [ichain].
  rewrite (ichain_sorted es (ie_last_key e)) by (try apply wf_index_last; done). split.
  - intros [_ [Hs Hf]]. by constructor.
  - intros Hs. by apply StronglySorted_inv in Hs.
Qed.

Lemma serialize_index_entries_ok es prev bs :
  Forall wf_index_entry es -> ichain prev es ->
  serialize_index_entries es prev bs = Ok (bs ++ enc_index_entries es).
Proof.
  revert prev bs. induction es as [|e es IH]; intros prev bs Hw Hc.
  { unfold enc_index_entries. simpl. by rewrite app_nil_r. }
  apply Forall_cons in Hw as [He Hw]. destruct Hc as [Hf Hc]. cbn [serialize_index_entries].
  pose proof He as ([K1 K2] & [K3 K4] & Hle & Ho & Hs).
  assert (Hb : bad_index_entry e prev = false).
  { unfold bad_index_entry. rewrite Hf, !(proj2 (is_nil_false _))
      by (intros E; rewrite E in *; by compute in K1, K3).
    rewrite (proj2 (str_ltb_ge _ _)) by done. zdecide. done. }
  rewrite Hb. mred. rewrite IH by done. f_equal. unfold enc_index_entries. cbn [map concat].
  unfold enc_index_entry, append_uint32, append_uint64. unfold kMaxKeySize in *.
  rewrite !u32_id by (unfold u32_max; lia). by rewrite <- !app_assoc.
Qed.

Lemma index_fields pre o s f l rest :
  is_u64 o -> is_u64 s -> is_u32 f -> is_u32 l ->
  let bytes := pre ++ (le_bytes 8 o ++ le_bytes 8 s ++ le_bytes 4 f ++ le_bytes 4 l) ++ rest in
  read_uint64 (subspan bytes (zlen pre) 8) = Ok o /\
  read_uint64 (subspan bytes (zlen pre + 8) 8) = Ok s /\
  read_uint32 (subspan bytes (zlen pre + 16) 4) = Ok f /\
  read_uint32 (subspan bytes (zlen pre + 20) 4) = Ok l.
Proof.
  intros Ho Hs Hf Hl bytes. unfold bytes, read_uint32, read_uint64. rewrite <- !app_assoc.
  rewrite (subspan_skip pre _ (zlen pre) 8 (zlen pre) 0) by lia.
  rewrite (subspan_skip pre _ (zlen pre + 8) 8 (zlen pre) 8) by lia.
  rewrite (subspan_skip pre _ (zlen pre + 16) 4 (zlen pre) 16) by lia.
  rewrite (subspan_skip pre _ (zlen pre + 20) 4 (zlen pre) 20) by lia.
  split; [by read_field|]. split; [by read_field|]. split; by read_field.
Qed.

Lemma parse_index_entries_ok es pre post off prev acc :
  Forall wf_index_entry es -> ichain prev es ->
  parse_index_entries (length es) ((pre ++ enc_index_entries es) ++ post)
    (zlen (pre ++ enc_index_entries es)) off (zlen pre) prev acc
  = Ok (acc ++ es, zlen (pre ++ enc_index_entries es)).
Proof.
  revert pre prev acc. induction es as [|e es IH]; intros pre prev acc Hw Hc.
  { unfold enc_index_entries. simpl. by rewrite !app_nil_r. }
  apply Forall_cons in Hw as [He Hw]. destruct Hc as [Hf Hc]. cbn [length parse_index_entries].
  destruct He as ([K1 K2] & [K3 K4] & Hle & Ho & Hs). destruct e as [fk lk o s]. simpl in *.
  set (all := pre ++ enc_index_entries (mkIndexEntry fk lk o s :: es)).
  set (fixed := le_bytes 8 o ++ le_bytes 8 s ++ le_bytes 4 (zlen fk) ++ le_bytes 4 (zlen lk)).
  assert (Eall : all = pre ++ fixed ++ fk ++ lk ++ enc_index_entries es).
  { unfold all, enc_index_entries, fixed. cbn [map concat]. unfold enc_index_entry. simpl. by rewrite <- !app_assoc. }
  assert (Hfl : zlen fixed = 24) by (unfold fixed; by rewrite !zlen_app, !le_bytes_zlen).
  assert (Hlen : zlen all = zlen pre + (24 + (zlen fk + (zlen lk + zlen (enc_index_entries es))))).
  { rewrite Eall, !zlen_app, Hfl. lia. }
  pose proof (zlen_nonneg pre). pose proof (zlen_nonneg (enc_index_entries es)).
  unfold kEntryFixedSize, kMaxKeySize in *.
  destruct (index_fields pre o s (zlen fk) (zlen lk) ((fk ++ lk ++ enc_index_entries es) ++ post))
    as (F1 & F2 & F3 & F4); [done|unfold is_u64; lia|unfold is_u32, u32_max; lia|unfold is_u32, u32_max; lia|].
  assert (Ebs : all ++ post = pre ++ fixed ++ (fk ++ lk ++ enc_index_entries es) ++ post).
  { rewrite Eall. by rewrite <- !app_assoc. }
  fold fixed in F1, F2, F3, F4. rewrite <- Ebs in F1, F2, F3, F4. rewrite F1, F2, F3, F4.
  rewrite to_nat_zlen, take_app_length. mred. zdecide. cbn [orb]. rewrite Eall.
  rewrite (app_assoc pre fixed), (read_string_at (pre ++ fixed)) by (rewrite ?zlen_app; lia).
  rewrite (app_assoc (pre ++ fixed) fk), (read_string_at ((pre ++ fixed) ++ fk)) by done.
  rewrite Hf, (proj2 (str_ltb_ge _ _)) by done. rewrite app_assoc.
  set (pre' := ((pre ++ fixed) ++ fk) ++ lk).
  rewrite (IH pre' lk) by done. by rewrite <- app_assoc.
Qed.

Lemma index_roundtrip_at es off :
  index_wf es -> serialize_index_block es = Ok (enc_index es) /\ parse_index_block (enc_index es) off = Ok es.
Proof.
  intros (Hne & Hl & Hs & Hf). pose proof (zlen_nonneg es) as Hnn.
  assert (Hlp : zlen es <> 0) by by rewrite zlen_0. split.
  { unfold serialize_index_block. rewrite (proj2 (is_nil_false es)) by done. mred. zdecide.
    rewrite serialize_index_entries_ok by (try apply ichain_nil; done). f_equal.
    unfold append_uint32, enc_index, seal. rewrite u32_id by lia. by rewrite <- !app_assoc. }
  unfold parse_index_block, enc_index.
  set (p := kIndexMagic ++ le_bytes 4 (zlen es) ++ enc_index_entries es).
  assert (Hp : zlen p = 12 + zlen (enc_index_entries es))
    by (unfold p; rewrite !zlen_app, le_bytes_zlen; change (zlen kIndexMagic) with 8; lia).
  pose proof (zlen_nonneg (enc_index_entries es)).
  rewrite validate_checksum_seal, zlen_seal, Hp. unfold kPrefixSize, kChecksumSize. mred. zdecide.
  unfold seal. assert (Hm : has_magic (p ++ le_bytes 4 (crc32 p)) kIndexMagic = true).
  { unfold p. rewrite <- app_assoc. apply has_magic_app. }
  rewrite Hm. assert (Hc : read_uint32 (subspan (p ++ le_bytes 4 (crc32 p)) 8 4) = Ok (zlen es)).
  { unfold p. rewrite <- !app_assoc. unfold read_uint32. by read_field. }
  rewrite Hc. zdecide. rewrite to_nat_zlen.
  pose proof (parse_index_entries_ok es (kIndexMagic ++ le_bytes 4 (zlen es)) (le_bytes 4 (crc32 p)) off [] [] Hf) as HP.
  rewrite <- (app_assoc kIndexMagic) in HP. fold p in HP.
  rewrite (zlen_app kIndexMagic), le_bytes_zlen in HP.
  change (zlen kIndexMagic + Z.of_nat 4) with 12 in HP.
  replace (12 + zlen (enc_index_entries es) + 4 - 4) with (zlen p) by lia.
  rewrite HP by by apply ichain_nil. cbv beta iota. by rewrite Z.eqb_refl.
Qed.

Lemma parse_index_entries_sound turns bs pe off cursor prev acc es' cursor' :
  parse_index_entries turns bs pe off cursor prev acc = Ok (es', cursor') -> 0 <= cursor ->
  exists es, es' = acc ++ es /\ length es = turns /\ Forall wf_index_entry es /\ ichain prev es.
Proof.
  revert cursor prev acc. induction turns as [|turns IH]; intros cursor prev acc H H0;
    cbn [parse_index_entries] in H.
  { inv_ok. exists []. rewrite app_nil_r. by split_and!. }
  inv_pairs. apply read_uint_inv in E0, E1, E2, E3. zbool. simpl in E0, E1, E2, E3.
  apply read_string_inv in E5 as (L1 & -> & _); [|unfold kEntryFixedSize; lia..].
  apply read_string_inv in E6 as (L2 & -> & _); [|unfold kEntryFixedSize; lia..].
  apply IH in H as (es & -> & Hn & Hw & Hc); [|unfold kEntryFixedSize; lia].
  exists (mkIndexEntry l l0 x0 x1 :: es).
  rewrite <- app_assoc. split; [done|]. split; [by simpl; rewrite Hn|]. split; [|done].
  constructor; [|done]. unfold wf_index_entry, valid_key, is_u64, u64_max. simpl.
  split; [lia|]. split; [lia|]. split; [by apply str_ltb_ge|lia].
Qed.

Lemma parse_index_block_wf bs off es : parse_index_block bs off = Ok es -> index_wf es.
Proof.
  unfold parse_index_block. intros H. inv_pairs. zbool. apply read_uint_inv in E2. simpl in E2.
  apply parse_index_entries_sound in E4 as (es' & -> & Hn & Hw & Hc); [|unfold kPrefixSize; lia].
  cbn [app]. split; [intros ->; simpl in Hn; lia|]. split; [unfold zlen, u32_max; lia|].
  split; [by apply ichain_nil|done].
Qed.

(** ** What the format guarantees *)

(** The sequence numbers are [std::uint64_t]. *)
Definition typed_block (b : DataBlock) : Prop := Forall (fun r => 0 <= e_seq r.2 <= u64_max) (records b).

(** Data blocks round-trip. What [serialize_data_block] writes,
    [parse_data_block] reads back as the same records; and whatever bytes the
    parser accepts, the block it answers has strictly increasing valid keys,
    non-zero sequence numbers and empty tombstones, and can be written again
    and read back unchanged. *)
Theorem data_block_roundtrip b bs off :
  typed_block b -> serialize_data_block b = Ok bs ->
  parse_data_block bs off = Ok b /\
  forall bs' off' b', parse_data_block bs' off' = Ok b' ->
    om_wf (records b') /\ Forall wf_entry (records b') /\
    exists bs2, serialize_data_block b' = Ok bs2 /\ parse_data_block bs2 off = Ok b'.
Proof.
  destruct b as [rs]. intros Ht [Hw ->]%serialize_data_block_iff; [|done].
  split; [by apply block_roundtrip_at|]. intros bs' off' [rs'] H. apply parse_data_block_wf in H.
  simpl in *. pose proof H as (_ & _ & H1 & H2). split; [done|]. split; [done|]. exists (enc_block rs').
  split; [|by apply block_roundtrip_at]. apply serialize_data_block_iff; [|done].
  eapply Forall_impl; [exact H2|]. intros r (_ & _ & ? & _). lia.
Qed.

Definition demo_block : DataBlock :=
  mkDataBlock [(bytes_of "a", mkEntry (bytes_of "1") 7 false); (bytes_of "b", mkEntry [] 9 true)].

Lemma data_block_roundtrip_witness :
  exists bs, serialize_data_block demo_block = Ok bs /\ parse_data_block bs 56 = Ok demo_block.
Proof.
  destruct (serialize_data_block demo_block) as [bs|e] eqn:E; [|discriminate E].
  exists bs. split; [reflexivity|].
  apply (data_block_roundtrip demo_block bs 56); [|exact E].
  apply (bool_decide_unpack _). vm_compute. exact I.
Defined.

(** Damage to a data block is detected. Up to four consecutive payload
    bytes of a written block changed in any way make the parser throw the
    checksum mismatch, at the offset of the stored checksum. *)
Theorem data_block_damage_detected rs a x y b off :
  block_wf rs ->
  kDataBlockMagic ++ le_bytes 4 (zlen rs) ++ enc_records rs = a ++ x ++ b ->
  length x = length y -> (length x <= 4)%nat -> x <> y ->
  exists bs, serialize_data_block (mkDataBlock rs) = Ok bs /\
    bs = (a ++ x ++ b) ++ le_bytes 4 (crc32 (a ++ x ++ b)) /\
    parse_data_block ((a ++ y ++ b) ++ le_bytes 4 (crc32 (a ++ x ++ b))) off
    = Throw (CorruptionError (u64 (off + zlen (a ++ y ++ b))) "SSTable data block checksum mismatch").
Proof.
  intros Hw Hp Hl H4 Hne. exists (enc_block rs). split; [|split].
  - apply serialize_data_block_iff; [|done]. destruct Hw as (_ & _ & _ & Hf).
    eapply Forall_impl; [exact Hf|]. intros r (_ & _ & ? & _). lia.
  - unfold enc_block, seal. by rewrite Hp.
  - unfold parse_data_block. rewrite validate_checksum_burst by done.
    assert (Hlen : zlen (a ++ y ++ b) = 12 + zlen (enc_records rs)).
    { transitivity (zlen (a ++ x ++ b)); [rewrite !zlen_app; unfold zlen; lia|].
      rewrite <- Hp, !zlen_app, le_bytes_zlen. change (zlen kDataBlockMagic) with 8. lia. }
    pose proof (zlen_nonneg (enc_records rs)).
    rewrite (zlen_app (a ++ y ++ b)), le_bytes_zlen, Hlen. unfold kPrefixSize, kChecksumSize. mred. zdecide. done.
Qed.

Lemma data_block_damage_detected_witness :
  exists bs, serialize_data_block demo_block = Ok bs /\
    parse_data_block (((kDataBlockMagic ++ le_bytes 4 2 ++ take 20 (enc_records (records demo_block)))
                       ++ bytes_of "zz" ++ drop 22 (enc_records (records demo_block))) ++ drop 55 bs) 56
    = Throw (CorruptionError 111 "SSTable data block checksum mismatch").
Proof.
  destruct (data_block_damage_detected (records demo_block)
    (kDataBlockMagic ++ le_bytes 4 2 ++ take 20 (enc_records (records demo_block)))
    (bytes_of "a1") (bytes_of "zz") (drop 22 (enc_records (records demo_block))) 56) as (bs & H1 & H2 & H3).
  - split; [discriminate|]. split; [vm_compute; discriminate|].
    split; [repeat constructor|]. repeat constructor; apply (bool_decide_unpack _); vm_compute; exact I.
  - vm_compute. reflexivity.
  - reflexivity.
  - vm_compute. lia.
  - discriminate.
  - exists bs. split; [exact H1|]. subst bs. exact H3.
Defined.

(** The table's metadata round-trips. A well-formed header, index and
    footer are written in full and read back field by field, and what the
    three parsers accept from any bytes is well formed: counts and sequence
    ranges are consistent, and the key ranges of the index are ordered and
    disjoint. *)
Theorem table_metadata_roundtrip h es f off :
  header_wf h -> index_wf es -> footer_wf f ->
  parse_header (serialize_header h) off = Ok h /\
  (exists bs, serialize_index_block es = Ok bs /\ parse_index_block bs off = Ok es) /\
  parse_footer (serialize_footer f) off = Ok f /\
  (forall bs h', parse_header bs off = Ok h' -> header_wf h') /\
  (forall bs es', parse_index_block bs off = Ok es' -> index_wf es') /\
  (forall bs f', parse_footer bs off = Ok f' -> footer_wf f').
Proof.
  intros Hh Hi Hf. split; [by apply header_roundtrip_at|]. split.
  { exists (enc_index es). by apply index_roundtrip_at. }
  split; [by apply footer_roundtrip_at|]. split_and!.
  - intros bs h'. apply parse_header_wf.
  - intros bs es'. apply parse_index_block_wf.
  - intros bs f'. apply parse_footer_wf.
Qed.

Lemma table_metadata_roundtrip_witness :
  parse_header (serialize_header (mkHeader 3 2 1 4096 7 9)) 0 = Ok (mkHeader 3 2 1 4096 7 9) /\
  parse_footer (serialize_footer (mkFooter 115 40 2 1 7 9)) 155 = Ok (mkFooter 115 40 2 1 7 9).
Proof.
  assert (Hi : index_wf [mkIndexEntry (bytes_of "a") (bytes_of "b") 56 59]).
  { split; [discriminate|]. split; [vm_compute; discriminate|].
    split; [repeat constructor|]. repeat constructor; apply (bool_decide_unpack _); vm_compute; exact I. }
  assert (Hh : header_wf (mkHeader 3 2 1 4096 7 9))
    by (repeat split; apply (bool_decide_unpack _); vm_compute; exact I).
  assert (Hf : footer_wf (mkFooter 115 40 2 1 7 9))
    by (repeat split; apply (bool_decide_unpack _); vm_compute; exact I).
  split.
  - apply (table_metadata_roundtrip (mkHeader 3 2 1 4096 7 9) _ (mkFooter 115 40 2 1 7 9) 0 Hh Hi Hf).
  - apply (table_metadata_roundtrip (mkHeader 3 2 1 4096 7 9) _ (mkFooter 115 40 2 1 7 9) 155 Hh Hi Hf).
Defined.
