(* ===== verification/SstWriter.v ===== *)
(** * Writing a table

    src/sstable_writer.cpp: the entries of a snapshot are checked, split into
    data blocks of about the target size, and written with their index and
    footer to a temporary file that is synced and renamed into place. *)

From S2P Require Import Prelude OrderedMap Codec Checksum Posix FileSystem Store MemTable SstFormat.

(** ** Definitions *)

Inductive SSTableLevel := Level0 | Level1.

#[export] Instance SSTableLevel_eq_dec : EqDecision SSTableLevel.
Proof. solve_decision. Defined.

Record SSTableMetadata := mkMetadata {
  md_path : str;
  md_generation : Z;
  md_entry_count : Z;
  md_block_count : Z;
  md_min_sequence_number : Z;
  md_max_sequence_number : Z;
  md_smallest_key : str;
  md_largest_key : str;
  md_level : SSTableLevel
}.

#[export] Instance SSTableMetadata_eq_dec : EqDecision SSTableMetadata.
Proof. solve_decision. Defined.

Record SSTableWriterOptions := mkWriterOptions {
  output_path : str;
  wo_generation : Z;
  target_data_block_bytes : Z
}.

Definition temporary_path_for (output_path : str) : str := output_path ++ bytes_of ".tmp".

Definition narrow_block_size (value : Z) : result Z :=
  _ ← throw_if ((value =? 0) || (u32_max <? value))
        (InvalidArgument "SSTable target data block size must fit in a 32-bit field");
  mret (u32 value).

Definition on_write_error (e : Z) : exn := SystemError e "failed to write SSTable file".

Definition write_all (tmp bytes : str) : stm Fs unit :=
  fs_write on_write_error (Some (RuntimeError "SSTable write returned zero bytes")) tmp bytes.

(** The first loop: order, sequence numbers, and their least and greatest. *)
Fixpoint check_entries (entries : list (str * Entry)) (previous_key : str) (min_sequence max_sequence : Z)
    : result (Z * Z) :=
  match entries with
  | [] => mret (min_sequence, max_sequence)
  | (key, entry) :: rest =>
      _ ← throw_if (negb (follows previous_key key))
            (InvalidArgument "SSTable input keys must be strictly sorted");
      _ ← throw_if (e_seq entry =? 0)
            (InvalidArgument "SSTable entries require non-zero sequence numbers");
      check_entries rest key (Z.min min_sequence (e_seq entry)) (Z.max max_sequence (e_seq entry))
  end.

Definition kEmptyBlockSize : Z := 12 + kChecksumSize.

(** The second loop: a record that would make a non-empty block exceed the
    target starts a new one. *)
Fixpoint split_blocks (target : Z) (entries : list (str * Entry)) (blocks : list DataBlock)
    (current : list (str * Entry)) (current_size : Z) : list DataBlock :=
  match entries with
  | [] => if is_nil current then blocks else blocks ++ [mkDataBlock current]
  | record :: rest =>
      let record_size := encoded_record_size record in
      if negb (is_nil current) && (target <? u64 (current_size + record_size)) then
        split_blocks target rest (blocks ++ [mkDataBlock current]) [record]
          (u64 (kEmptyBlockSize + record_size))
      else
        split_blocks target rest blocks (current ++ [record]) (u64 (current_size + record_size))
  end.

(** The loop that writes the blocks: answers the index and the offset after
    the last one. *)
Fixpoint write_blocks (tmp : str) (blocks : list DataBlock) (current_offset : Z) (index : list IndexEntry)
    : stm Fs (list IndexEntry * Z) :=
  match blocks with
  | [] => mret (index, current_offset)
  | block :: rest =>
      encoded ← slift (serialize_data_block block);
      let index := index ++ [mkIndexEntry (first_key block) (last_key block) current_offset (zlen encoded)] in
      _ ← write_all tmp encoded;
      write_blocks tmp rest (u64 (current_offset + zlen encoded)) index
  end.

(** The writes of the [try] block. *)
Definition write_contents (tmp : str) (header : Header) (blocks : list DataBlock) (entries_size : Z)
    : stm Fs unit :=
  _ ← write_all tmp (serialize_header header);
  res ← write_blocks tmp blocks kHeaderSize [];
  let '(index, current_offset) := res in
  encoded_index ← slift (serialize_index_block index);
  let index_offset := current_offset in
  _ ← write_all tmp encoded_index;
  let footer := mkFooter index_offset (zlen encoded_index) entries_size (u32 (zlen blocks))
                  (h_min_sequence_number header) (h_max_sequence_number header) in
  write_all tmp (serialize_footer footer).

Definition writer_errors : PublishErrors := {|
  pe_create := fun e => SystemError e "failed to create temporary SSTable";
  pe_sync := fun e => SystemError e "failed to fsync temporary SSTable";
  pe_close := fun e => SystemError e "failed to close temporary SSTable";
  pe_open_directory := fun e => SystemError e "failed to open SSTable directory for fsync";
  pe_sync_directory := fun e => SystemError e "failed to fsync SSTable directory"
|}.

Definition sst_write (entries : list (str * Entry)) (options : SSTableWriterOptions)
    : stm Fs SSTableMetadata :=
  _ ← slift (throw_if (is_nil (output_path options))
               (InvalidArgument "SSTable output path must not be empty"));
  _ ← slift (throw_if (is_nil entries) (InvalidArgument "cannot write an empty SSTable"));
  target_block_size ← slift (narrow_block_size (target_data_block_bytes options));
  range ← slift (check_entries entries [] u64_max 0);
  let '(min_sequence, max_sequence) := range in
  let blocks := split_blocks (target_data_block_bytes options) entries [] [] kEmptyBlockSize in
  _ ← slift (throw_if (u32_max <? zlen blocks) (LengthError "SSTable contains too many data blocks"));
  _ ← fs_call (fun e => SystemError e "filesystem error: cannot create directories");
  let tmp := temporary_path_for (output_path options) in
  let header := mkHeader (wo_generation options) (zlen entries) (u32 (zlen blocks)) target_block_size
                  min_sequence max_sequence in
  _ ← publish writer_errors tmp (output_path options) (write_contents tmp header blocks (zlen entries));
  mret (mkMetadata (output_path options) (wo_generation options) (zlen entries) (u32 (zlen blocks))
          min_sequence max_sequence (default [] (fst <$> head entries)) (default [] (fst <$> last entries))
          Level0).

(** ** Splitting *)

Definition block_records (bs : list DataBlock) : list (str * Entry) := concat (map records bs).

Lemma block_records_app a b : block_records (a ++ b) = block_records a ++ block_records b.
Proof. unfold block_records. by rewrite map_app, concat_app. Qed.

(** The blocks are the entries, cut, and none is empty. *)
Lemma split_blocks_spec target entries blocks current size :
  let bs := split_blocks target entries blocks current size in
  block_records bs = block_records blocks ++ current ++ entries /\
  (Forall (fun b => records b <> []) blocks -> Forall (fun b => records b <> []) bs).
Proof.
  revert blocks current size. induction entries as [|r entries IH]; intros blocks current size; simpl.
  - destruct current as [|c current]; simpl; [by rewrite !app_nil_r|].
    rewrite block_records_app. unfold block_records at 2. simpl. rewrite !app_nil_r. split; [done|].
    intros H. apply Forall_app. split; [done|]. by constructor.
  - destruct current as [|c current]; cbn [is_nil negb andb].
    + destruct (IH blocks ([] ++ [r]) (u64 (size + encoded_record_size r))) as [H1 H2]. split; [|done].
      rewrite H1. done.
    + destruct (target <? _).
      * destruct (IH (blocks ++ [mkDataBlock (c :: current)]) [r] (u64 (kEmptyBlockSize + encoded_record_size r)))
          as [H1 H2]. split.
        -- rewrite H1, block_records_app. unfold block_records at 2. simpl.
           rewrite app_nil_r, <- app_assoc. done.
        -- intros H. apply H2. apply Forall_app. split; [done|]. by constructor.
      * destruct (IH blocks ((c :: current) ++ [r]) (u64 (size + encoded_record_size r))) as [H1 H2].
        split; [|done]. rewrite H1. by rewrite <- app_assoc.
Qed.

(** The records of the table, block by block. *)
Record blocks_of (entries : list (str * Entry)) (bs : list DataBlock) : Prop := {
  bo_concat : block_records bs = entries;
  bo_nonempty : Forall (fun b => records b <> []) bs;
  bo_sorted : om_wf entries;
  bo_wf : Forall wf_entry entries
}.

Lemma split_blocks_of target entries :
  om_wf entries -> Forall wf_entry entries ->
  blocks_of entries (split_blocks target entries [] [] kEmptyBlockSize).
Proof.
  intros H1 H2. destruct (split_blocks_spec target entries [] [] kEmptyBlockSize) as [E1 E2].
  split; [done|by apply E2|done|done].
Qed.

Lemma om_wf_app (a b : list (str * Entry)) :
  om_wf (a ++ b) <-> om_wf a /\ om_wf b /\ forall x y, x ∈ a -> y ∈ b -> str_lt x.1 y.1.
Proof.
  induction a as [|[k v] a IH]; cbn [app].
  { split; [intros H; split; [apply om_wf_nil|]; split; [done|]; intros x y Hx; by apply not_elem_of_nil in Hx|].
    by intros (_ & H & _). }
  rewrite !om_wf_cons, IH, Forall_app. split.
  - intros [(H1 & H2 & H3) [H4 H5]]. split_and!; try done. intros x y [->|Hx]%elem_of_cons Hy.
    + rewrite Forall_forall in H5. by apply H5.
    + by apply H3.
  - intros ((H1 & H2) & H3 & H4). split_and!; try done.
    + intros x y Hx Hy. apply H4; [by right|done].
    + apply Forall_forall. intros y Hy. by apply (H4 (k, v) y); [left|].
Qed.

Lemma blocks_of_cons entries b bs :
  blocks_of entries (b :: bs) ->
  block_wf (records b) \/ u32_max < zlen (records b).
Proof.
  intros [H1 H2 H3 H4]. unfold block_records in H1. simpl in H1. subst entries.
  apply om_wf_app in H3 as (H3 & _). apply Forall_app in H4 as [H4 _]. apply Forall_cons in H2 as [H2 _].
  destruct (Z.le_gt_cases (zlen (records b)) u32_max); [left; by split_and!|by right].
Qed.

Lemma blocks_of_tail entries b bs :
  blocks_of entries (b :: bs) -> blocks_of (block_records bs) bs.
Proof.
  intros [H1 H2 H3 H4]. unfold block_records in H1. simpl in H1. subst entries.
  apply om_wf_app in H3 as (_ & H3 & _). apply Forall_app in H4 as [_ H4]. apply Forall_cons in H2 as [_ H2].
  by split.
Qed.

(** ** First and last keys *)

Lemma first_key_elem b : records b <> [] -> exists e, (first_key b, e) ∈ records b.
Proof. unfold first_key. destruct (records b) as [|[k e] rs]; [done|]. intros _. exists e. by left. Qed.

Lemma last_key_elem b : records b <> [] -> exists e, (last_key b, e) ∈ records b.
Proof.
  unfold last_key. destruct (last (records b)) as [[k e]|] eqn:E; intros H.
  - exists e. apply last_Some in E as [l ->]. apply elem_of_app. right. by left.
  - by apply last_None in E.
Qed.

Lemma first_key_le b x : om_wf (records b) -> x ∈ records b -> str_le (first_key b) x.1.
Proof.
  unfold first_key. destruct (records b) as [|[k e] rs]; [intros _ H; by apply not_elem_of_nil in H|].
  rewrite om_wf_cons. intros [_ Hf] [->|Hx]%elem_of_cons; [apply str_le_refl|].
  rewrite Forall_forall in Hf. apply str_lt_le. by apply Hf.
Qed.

Lemma last_key_ge b x : om_wf (records b) -> x ∈ records b -> str_le x.1 (last_key b).
Proof.
  unfold last_key. destruct (last (records b)) as [[k e]|] eqn:E.
  - apply last_Some in E as [l ->]. rewrite om_wf_app. intros (_ & _ & H).
    intros [Hx|Hx%list_elem_of_singleton]%elem_of_app; [|subst; apply str_le_refl].
    apply str_lt_le. apply (H x (k, e)); [done|by left].
  - apply last_None in E. rewrite E. intros _ H. by apply not_elem_of_nil in H.
Qed.

Lemma block_elem b bs x : b ∈ bs -> x ∈ records b -> x ∈ block_records bs.
Proof.
  intros Hb Hx. unfold block_records. apply list_elem_of_In.
  apply in_concat. exists (records b). split; [apply in_map; by apply list_elem_of_In|by apply list_elem_of_In].
Qed.

Lemma blocks_of_sorted entries bs b : blocks_of entries bs -> b ∈ bs -> om_wf (records b).
Proof.
  intros [<- _ Hs _]. induction bs as [|b' bs IH]; [by intros ?%not_elem_of_nil|].
  unfold block_records in Hs. simpl in Hs. apply om_wf_app in Hs as (H1 & H2 & _).
  intros [->|Hb]%elem_of_cons; auto.
Qed.

(** ** The file *)

Definition enc_blocks (bs : list DataBlock) : str := concat (map (fun b => enc_block (records b)) bs).

Fixpoint index_of (bs : list DataBlock) (offset : Z) : list IndexEntry :=
  match bs with
  | [] => []
  | b :: bs' =>
      mkIndexEntry (first_key b) (last_key b) offset (zlen (enc_block (records b)))
        :: index_of bs' (offset + zlen (enc_block (records b)))
  end.

Definition footer_of (h : Header) (bs : list DataBlock) : SSTableFooter :=
  mkFooter (kHeaderSize + zlen (enc_blocks bs)) (zlen (enc_index (index_of bs kHeaderSize)))
    (h_entry_count h) (h_block_count h) (h_min_sequence_number h) (h_max_sequence_number h).

Definition table_file (h : Header) (bs : list DataBlock) : str :=
  serialize_header h ++ enc_blocks bs ++ enc_index (index_of bs kHeaderSize)
  ++ serialize_footer (footer_of h bs).

Lemma enc_block_pos rs : 0 < zlen (enc_block rs).
Proof. unfold enc_block. rewrite zlen_seal, zlen_app. pose proof (zlen_nonneg (le_bytes 4 (zlen rs) ++ enc_records rs)). change (zlen kDataBlockMagic) with 8. lia. Qed.

Lemma enc_blocks_cons b bs : enc_blocks (b :: bs) = enc_block (records b) ++ enc_blocks bs.
Proof. done. Qed.

Lemma index_of_length bs off : zlen (index_of bs off) = zlen bs.
Proof. revert off. induction bs as [|b bs IH]; intros off; [done|]. simpl. rewrite !zlen_cons. by rewrite IH. Qed.

Lemma index_of_elem bs off e :
  e ∈ index_of bs off -> exists b, b ∈ bs /\ ie_first_key e = first_key b /\ ie_last_key e = last_key b.
Proof.
  revert off. induction bs as [|b bs IH]; intros off; simpl; [by intros ?%not_elem_of_nil|].
  intros [->|He]%elem_of_cons; [exists b; split; [by left|done]|].
  destruct (IH _ He) as (b' & Hb & H). exists b'. split; [by right|done].
Qed.

Lemma index_of_sorted entries bs off : blocks_of entries bs -> index_sorted (index_of bs off).
Proof.
  unfold index_sorted. revert entries off. induction bs as [|b bs IH]; intros entries off Hb; [constructor|].
  simpl. constructor; [by eapply IH, blocks_of_tail|]. apply Forall_forall. intros e He. simpl.
  apply index_of_elem in He as (b' & Hb' & -> & _). destruct Hb as [<- Hne Hs _].
  apply Forall_cons in Hne as [Hn1 Hn2]. rewrite Forall_forall in Hn2.
  destruct (last_key_elem b Hn1) as [e1 H1]. destruct (first_key_elem b' (Hn2 b' Hb')) as [e2 H2].
  unfold block_records in Hs. simpl in Hs. apply om_wf_app in Hs as (_ & _ & Hs).
  apply (Hs (last_key b, e1) (first_key b', e2)); [done|]. by eapply block_elem.
Qed.

Lemma index_of_wf_entries entries bs off :
  blocks_of entries bs -> 0 <= off -> off + zlen (enc_blocks bs) <= u64_max ->
  Forall wf_index_entry (index_of bs off).
Proof.
  revert entries off. induction bs as [|b bs IH]; intros entries off Hb Ho Hu; [constructor|].
  rewrite enc_blocks_cons, zlen_app in Hu. pose proof (enc_block_pos (records b)).
  pose proof (zlen_nonneg (enc_blocks bs)). simpl. constructor.
  - pose proof (blocks_of_sorted _ _ b Hb ltac:(by left)) as Hs. destruct Hb as [<- Hne _ Hw].
    apply Forall_cons in Hne as [Hn1 _]. rewrite Forall_forall in Hw.
    destruct (first_key_elem b Hn1) as [e1 H1]. destruct (last_key_elem b Hn1) as [e2 H2].
    unfold wf_index_entry. simpl. split_and!.
    + apply (Hw (first_key b, e1)). by eapply block_elem; [left|].
    + apply (Hw (last_key b, e2)). by eapply block_elem; [left|].
    + apply (first_key_le b _ Hs H2).
    + unfold is_u64. lia.
    + done.
    + lia.
  - eapply IH; [by eapply blocks_of_tail|lia|lia].
Qed.

Lemma index_of_wf entries bs :
  blocks_of entries bs -> bs <> [] -> zlen bs <= u32_max -> kHeaderSize + zlen (enc_blocks bs) <= u64_max ->
  index_wf (index_of bs kHeaderSize).
Proof.
  intros Hb Hne Hl Hu. unfold index_wf. rewrite index_of_length. split_and!; [by destruct bs|done| |].
  - by eapply index_of_sorted.
  - eapply index_of_wf_entries; [done|done|done].
Qed.

(** ** What is written *)

Lemma write_all_ok tmp bs bytes f f' :
  holds tmp bs f -> write_all tmp bytes f = (Ok tt, f') -> holds tmp (bs ++ bytes) f'.
Proof. apply fs_write_ok. Qed.

Lemma write_blocks_keeps tmp bs off idx : keeps tmp (write_blocks tmp bs off idx).
Proof.
  revert off idx. induction bs as [|b bs IH]; intros off idx; simpl; [apply keeps_ret|].
  apply keeps_bind; [apply keeps_lift|]. intros enc. apply keeps_bind; [apply keeps_write|]. auto.
Qed.

Lemma write_contents_keeps tmp h bs n : keeps tmp (write_contents tmp h bs n).
Proof.
  unfold write_contents. apply keeps_bind; [apply keeps_write|]. intros _.
  apply keeps_bind; [apply write_blocks_keeps|]. intros [idx off].
  apply keeps_bind; [apply keeps_lift|]. intros enc. apply keeps_bind; [apply keeps_write|].
  intros _. apply keeps_write.
Qed.

Lemma write_blocks_ok tmp pre bs off idx entries f idx' off' f' :
  blocks_of entries bs -> 0 <= off -> off + zlen (enc_blocks bs) <= u64_max ->
  write_blocks tmp bs off idx f = (Ok (idx', off'), f') ->
  (holds tmp pre f -> holds tmp (pre ++ enc_blocks bs) f') /\ idx' = idx ++ index_of bs off /\
  off' = off + zlen (enc_blocks bs) /\ Forall (fun b => block_wf (records b)) bs.
Proof.
  revert pre off idx entries f. induction bs as [|b bs IH]; intros pre off idx entries f Hb Ho Hu.
  { simpl. intros [= <- <- <-]. unfold enc_blocks. simpl. rewrite !app_nil_r, zlen_nil.
    split_and!; [done..|lia|constructor]. }
  rewrite enc_blocks_cons, zlen_app in Hu. pose proof (enc_block_pos (records b)).
  pose proof (zlen_nonneg (enc_blocks bs)). cbn [write_blocks]. unfold mbind, stm_bind, slift.
  destruct (serialize_data_block b) as [enc|e] eqn:Es; [|done]. destruct b as [rs].
  apply serialize_data_block_iff in Es as [Hw ->].
  2:{ destruct Hb as [<- _ _ Hw]. unfold block_records in Hw. simpl in Hw. apply Forall_app in Hw as [Hw _].
      eapply Forall_impl; [exact Hw|]. intros r (_ & _ & ? & _). lia. }
  destruct (write_all tmp (enc_block rs) f) as [[[]|e] f1] eqn:Ew; [|done]. intros H'.
  rewrite u64_small in H' by (simpl in *; lia).
  eapply (IH (pre ++ enc_block rs)) in H' as (H1 & H2 & H3 & H4).
  - rewrite <- app_assoc in H1. split; [intros Hh; apply H1; by eapply write_all_ok|]. split; [by rewrite H2, <- app_assoc|].
    split; [rewrite enc_blocks_cons, zlen_app; simpl in *; lia|]. by constructor.
  - by eapply blocks_of_tail.
  - simpl in *. lia.
  - simpl in *. lia.
Qed.

Lemma write_contents_ok tmp h bs entries f f' :
  holds tmp [] f -> blocks_of entries bs -> bs <> [] -> zlen bs <= u32_max ->
  kHeaderSize + zlen (enc_blocks bs) <= u64_max ->
  h_entry_count h = zlen entries -> h_block_count h = zlen bs ->
  write_contents tmp h bs (zlen entries) f = (Ok tt, f') ->
  holds tmp (table_file h bs) f' /\ Forall (fun b => block_wf (records b)) bs.
Proof.
  intros Hh Hb Hne Hl Hu He Hc. unfold write_contents, mbind, stm_bind.
  destruct (write_all tmp (serialize_header h) f) as [[[]|e] f1] eqn:E1; [|done].
  apply (write_all_ok _ [] _ _ _ Hh) in E1.
  destruct (write_blocks tmp bs kHeaderSize [] f1) as [[[idx off]|e] f2] eqn:E2; [|done].
  eapply write_blocks_ok in E2 as (H2 & -> & -> & Hw); [|done|done|done]. specialize (H2 E1).
  destruct (index_roundtrip_at (index_of bs kHeaderSize) 0 (index_of_wf _ _ Hb Hne Hl Hu)) as [Es _].
  cbn [app]. unfold slift. rewrite Es.
  destruct (write_all tmp (enc_index _) f2) as [[[]|e] f3] eqn:E3; [|done].
  eapply write_all_ok in E3; [|exact H2]. intros E4. eapply write_all_ok in E4; [|exact E3].
  split; [|done]. unfold table_file, footer_of. rewrite He, Hc. rewrite u32_id in E4 by (pose proof (zlen_nonneg bs); lia).
  by rewrite <- !app_assoc in E4.
Qed.

(** ** Sequence ranges *)

Lemma check_entries_ok entries prev lo hi :
  Forall wf_entry entries -> chain prev entries ->
  exists lo' hi', check_entries entries prev lo hi = Ok (lo', hi') /\ lo' <= lo /\ hi <= hi' /\
    Forall (fun r => lo' <= e_seq r.2 <= hi') entries /\
    (0 < lo -> 0 < lo') /\ (hi <= u64_max -> hi' <= u64_max).
Proof.
  revert prev lo hi. induction entries as [|[k e] entries IH]; intros prev lo hi Hw Hc; simpl.
  { exists lo, hi. split; [done|]. split_and!; [lia|lia|constructor|lia|lia]. }
  apply Forall_cons in Hw as [Hr Hw]. destruct Hc as [Hf Hc]. destruct Hr as (_ & _ & Hs & _). simpl in Hs, Hf.
  destruct (IH k (Z.min lo (e_seq e)) (Z.max hi (e_seq e)) Hw Hc) as (lo' & hi' & E & H1 & H2 & H3 & H4 & H5).
  exists lo', hi'. rewrite Hf. mred. zdecide. split; [done|]. split_and!; [lia|lia| |lia|lia].
  constructor; [simpl; lia|done].
Qed.

Lemma check_entries_range entries lo hi :
  om_wf entries -> Forall wf_entry entries -> entries <> [] ->
  check_entries entries [] u64_max 0 = Ok (lo, hi) ->
  0 < lo /\ lo <= hi <= u64_max /\ Forall (fun r => lo <= e_seq r.2 <= hi) entries.
Proof.
  intros Hs Hw Hne E. destruct (check_entries_ok entries [] u64_max 0 Hw) as (lo' & hi' & E' & H1 & H2 & H3 & H4 & H5).
  { by apply chain_om_wf. }
  rewrite E in E'. simplify_eq. unfold u64_max in *. split; [lia|]. split; [|done].
  destruct entries as [|r entries]; [done|]. apply Forall_cons in H3 as [H3 _]. lia.
Qed.

(** ** Writing a table *)

(** The file [sst_write] makes of these entries. *)
Definition blocks_for (entries : list (str * Entry)) (options : SSTableWriterOptions) : list DataBlock :=
  split_blocks (target_data_block_bytes options) entries [] [] kEmptyBlockSize.

Definition header_for (entries : list (str * Entry)) (options : SSTableWriterOptions) (lo hi : Z) : Header :=
  mkHeader (wo_generation options) (zlen entries) (zlen (blocks_for entries options))
    (target_data_block_bytes options) lo hi.

Definition metadata_for (entries : list (str * Entry)) (options : SSTableWriterOptions) (lo hi : Z)
    : SSTableMetadata :=
  mkMetadata (output_path options) (wo_generation options) (zlen entries)
    (zlen (blocks_for entries options)) lo hi (default [] (fst <$> head entries))
    (default [] (fst <$> last entries)) Level0.

(** Entries and options a table can be written for: what a frozen memory table
    holds, a valid path and block size, and a file within the platform range. *)
Definition kOffMax : Z := 2 ^ 63 - 1.

Record writable (entries : list (str * Entry)) (options : SSTableWriterOptions) : Prop := {
  wr_path : output_path options <> [];
  wr_entries : entries <> [];
  wr_count : zlen entries <= u32_max;
  wr_sorted : om_wf entries;
  wr_wf : Forall wf_entry entries;
  wr_target : 0 < target_data_block_bytes options <= u32_max;
  wr_generation : is_u64 (wo_generation options);
  wr_size : kHeaderSize + zlen (enc_blocks (blocks_for entries options))
            + zlen (enc_index (index_of (blocks_for entries options) kHeaderSize)) + kFooterSize <= kOffMax
}.

Lemma tmp_ne p : temporary_path_for p <> p.
Proof.
  unfold temporary_path_for. intros E. apply (f_equal length) in E. rewrite length_app in E. simpl in E. lia.
Qed.

Lemma block_records_len bs : Forall (fun b => records b <> []) bs -> zlen bs <= zlen (block_records bs).
Proof.
  induction 1 as [|b bs Hb _ IH]; [done|]. unfold block_records in *. simpl. rewrite zlen_cons, zlen_app.
  enough (zlen (records b) <> 0) by (pose proof (zlen_nonneg (records b)); lia). by rewrite zlen_0.
Qed.

Section write.
Context (entries : list (str * Entry)) (options : SSTableWriterOptions).
Hypothesis W : writable entries options.

Lemma writable_blocks : blocks_of entries (blocks_for entries options).
Proof. apply split_blocks_of; apply W. Qed.

Lemma writable_block_count : 0 < zlen (blocks_for entries options) <= u32_max.
Proof.
  pose proof writable_blocks as B. pose proof (block_records_len _ (bo_nonempty _ _ B)) as Hl.
  rewrite (bo_concat _ _ B) in Hl. pose proof (wr_count _ _ W). pose proof (zlen_nonneg (blocks_for entries options)).
  enough (zlen (blocks_for entries options) <> 0) by lia. rewrite zlen_0. intros E.
  apply (wr_entries _ _ W). rewrite <- (bo_concat _ _ B), E. done.
Qed.

Lemma writable_size : kHeaderSize + zlen (enc_blocks (blocks_for entries options)) <= u64_max.
Proof.
  pose proof (wr_size _ _ W). pose proof (zlen_nonneg (enc_index (index_of (blocks_for entries options) kHeaderSize))).
  unfold kOffMax, kFooterSize, u64_max in *. lia.
Qed.

Lemma writable_range : exists lo hi, check_entries entries [] u64_max 0 = Ok (lo, hi).
Proof.
  destruct (check_entries_ok entries [] u64_max 0 (wr_wf _ _ W)) as (lo & hi & E & _); [|by eauto].
  apply chain_om_wf; apply W.
Qed.

(** The protocol run on the contents, after the checks. *)
Lemma sst_write_publish lo hi f :
  check_entries entries [] u64_max 0 = Ok (lo, hi) ->
  sst_write entries options f =
  (_ ← fs_call (fun e => SystemError e "filesystem error: cannot create directories");
   _ ← publish writer_errors (temporary_path_for (output_path options)) (output_path options)
         (write_contents (temporary_path_for (output_path options)) (header_for entries options lo hi)
            (blocks_for entries options) (zlen entries));
   mret (metadata_for entries options lo hi)) f.
Proof.
  intros E. unfold sst_write. rewrite (proj2 (is_nil_false _)) by apply W.
  rewrite (proj2 (is_nil_false _)) by apply W. pose proof (wr_target _ _ W).
  unfold narrow_block_size, mbind, mret, stm_bind, result_bind, result_ret, slift, throw_if. zdecide.
  cbn [orb]. rewrite E. pose proof writable_block_count. fold (blocks_for entries options). zdecide.
  rewrite !u32_id by lia. done.
Qed.

Lemma blocks_block_wf b : b ∈ blocks_for entries options -> block_wf (records b).
Proof.
  intros Hb. pose proof writable_blocks as B. unfold block_wf. split_and!.
  - pose proof (bo_nonempty _ _ B) as Hn. rewrite Forall_forall in Hn. auto.
  - assert (zlen (records b) <= zlen entries); [|pose proof (wr_count _ _ W); lia].
    rewrite <- (bo_concat _ _ B). clear B. induction (blocks_for entries options) as [|b' bs IH].
    + by apply not_elem_of_nil in Hb.
    + unfold block_records in *. simpl. rewrite zlen_app. apply elem_of_cons in Hb as [->|Hb].
      * pose proof (zlen_nonneg (concat (map records bs))). lia.
      * specialize (IH Hb). pose proof (zlen_nonneg (records b')). lia.
  - by eapply blocks_of_sorted.
  - apply Forall_forall. intros r Hr. pose proof (bo_wf _ _ B) as Hw. rewrite Forall_forall in Hw. apply Hw.
    rewrite <- (bo_concat _ _ B). by eapply block_elem.
Qed.

Lemma write_blocks_quiet tmp bs off idx :
  (forall b, b ∈ bs -> block_wf (records b)) -> quiet (write_blocks tmp bs off idx).
Proof.
  revert off idx. induction bs as [|[rs] bs IH]; intros off idx Hw; simpl; [apply quiet_ret|].
  assert (Hb : block_wf rs) by (apply (Hw (mkDataBlock rs)); by left).
  apply quiet_bind; [eapply (quiet_lift _ (enc_block rs)); apply serialize_data_block_iff; [|done]|].
  - destruct Hb as (_ & _ & _ & Hb). eapply Forall_impl; [exact Hb|]. intros r (_ & _ & ? & _). lia.
  - intros enc. apply quiet_bind; [apply quiet_write|]. intros _. apply IH. intros b Hin. apply Hw. by right.
Qed.

Lemma write_contents_quiet tmp h : quiet (write_contents tmp h (blocks_for entries options) (zlen entries)).
Proof.
  unfold write_contents. apply quiet_bind; [apply quiet_write|]. intros _ f Hf.
  destruct (write_blocks_quiet tmp (blocks_for entries options) kHeaderSize [] blocks_block_wf f Hf)
    as ([idx off] & f1 & E & Hf1).
  unfold mbind at 1, stm_bind at 1. rewrite E. pose proof writable_blocks as B.
  eapply (write_blocks_ok tmp []) in E as (_ & -> & -> & _); [|done|done|apply writable_size].
  pose proof writable_block_count as Hc.
  destruct (index_roundtrip_at (index_of (blocks_for entries options) kHeaderSize) 0) as [Es _].
  { eapply index_of_wf; [done| |lia|apply writable_size]. intros E. rewrite E in Hc. by destruct Hc. }
  apply quiet_bind; [by eapply quiet_lift| |done]. intros enc.
  apply quiet_bind; [apply quiet_write|]. intros _. apply quiet_write.
Qed.

Lemma sst_write_quiet : quiet (sst_write entries options).
Proof.
  destruct writable_range as (lo & hi & E). intros f Hf. rewrite (sst_write_publish lo hi) by done.
  apply quiet_bind; [apply quiet_call| |done]. intros _.
  apply quiet_bind; [by apply quiet_publish, write_contents_quiet|]. intros _. apply quiet_ret.
Qed.

(** Whatever the calls of the kernel return. *)
Lemma sst_write_spec f r f' (H : sst_write entries options f = (r, f')) :
  exists lo hi, check_entries entries [] u64_max 0 = Ok (lo, hi) /\
    let bs := table_file (header_for entries options lo hi) (blocks_for entries options) in
    moves [temporary_path_for (output_path options); output_path options] (length (fs_history f))
      (output_path options) (fs_dir f !! output_path options) (mkFileData bs bs) f f' /\
    (forall m, r = Ok m -> m = metadata_for entries options lo hi /\
       fs_dir f' !! output_path options = Some (mkFileData bs bs) /\ fs_old f' = []).
Proof.
  destruct writable_range as (lo & hi & E). exists lo, hi. split; [done|]. cbn zeta.
  set (bs := table_file _ _). set (tmp := temporary_path_for (output_path options)).
  assert (Hne : tmp <> output_path options) by apply tmp_ne.
  rewrite (sst_write_publish lo hi) in H by done. unfold mbind, stm_bind in H. fold tmp in H.
  destruct (fs_call _ f) as [r0 f0] eqn:E0.
  pose proof (keeps_moves _ _ _ (fs_dir f !! output_path options) (mkFileData bs bs) (length (fs_history f))
                _ _ _ (keeps_call tmp _) Hne E0 (le_n _)) as M0.
  destruct r0 as [[]|e0]; [|by simplify_eq].
  pose proof (fs_call_inv _ _ _ _ E0) as (D0 & _ & H0).
  destruct (publish _ _ _ _ f0) as [r1 f1] eqn:E1. pose proof writable_block_count as Hc.
  edestruct (publish_spec writer_errors tmp (output_path options) bs) as [M1 Hok];
    [exact Hne|apply write_contents_keeps| |exact E1|].
  { intros g g' Hg Hw.
    assert (Hbs : blocks_for entries options <> []) by (intros Eb; rewrite Eb in Hc; by destruct Hc).
    by apply (write_contents_ok tmp (header_for entries options lo hi) _ entries g g' Hg writable_blocks Hbs
                (proj2 Hc) writable_size eq_refl eq_refl Hw). }
  rewrite H0 in M1. pose proof (moves_trans _ _ _ _ _ _ _ _ M0 M1) as M. clear M0 M1.
  unfold mret, stm_ret in H.
  destruct r1 as [[]|e1]; simplify_eq; (split; [exact M|]); [|done].
  intros m [= <-]. split; [done|]. by apply Hok.
Qed.
End write.

(** C22: a table appears whole or not at all. For any outcome of the system
    calls, and a crash at any moment of [SSTableWriter::write] on a settled
    directory, the name holds what it held before or the complete new table;
    no other file of the directory changes but the temporary one; and when the
    call returns, the complete table is durable under its name and the
    metadata answered describes it. *)
Theorem sstable_publish_atomic entries options f r f' :
  writable entries options -> settled f -> sst_write entries options f = (r, f') ->
  exists lo hi, check_entries entries [] u64_max 0 = Ok (lo, hi) /\
    let table := table_file (header_for entries options lo hi) (blocks_for entries options) in
    (forall s c, s ∈ drop (length (fs_history f)) (fs_history f') ->
       crash_leaves s (output_path options) c -> c = Some table \/ c = contents f (output_path options)) /\
    (forall n, n <> output_path options -> n <> temporary_path_for (output_path options) ->
       fs_dir f' !! n = fs_dir f !! n) /\
    (forall m, r = Ok m -> m = metadata_for entries options lo hi /\
       fs_dir f' !! output_path options = Some (mkFileData table table) /\ fs_old f' = []).
Proof.
  intros W Hs H. destruct (sst_write_spec entries options W f r f' H) as (lo & hi & E & M & Hok).
  exists lo, hi. split; [done|]. split_and!.
  - intros s c Hin Hc. by eapply moves_atomic.
  - intros n H1 H2. destruct M as (Hsame & _). apply Hsame. rewrite !not_elem_of_cons.
    split_and!; [done|done|apply not_elem_of_nil].
  - exact Hok.
Qed.

(** Writing a table succeeds when the system calls do, for any non-empty
    sorted snapshot. *)
Theorem sstable_write_succeeds entries options f :
  writable entries options -> fs_script f = [] ->
  exists m f', sst_write entries options f = (Ok m, f') /\
    md_smallest_key m = default [] (fst <$> head entries) /\
    md_largest_key m = default [] (fst <$> last entries) /\ md_entry_count m = zlen entries /\
    Forall (fun r => md_min_sequence_number m <= e_seq r.2 <= md_max_sequence_number m) entries.
Proof.
  intros W Hf. destruct (sst_write_quiet entries options W f Hf) as (m & f' & H & _). exists m, f'. split; [done|].
  destruct (sst_write_spec entries options W f _ f' H) as (lo' & hi' & E' & _ & Hok).
  destruct (Hok m eq_refl) as (-> & _). split_and!; try done.
  by apply check_entries_range in E' as (_ & _ & HF); try apply W.
Qed.

Definition demo_entries : list (str * Entry) :=
  [(bytes_of "a", mkEntry (bytes_of "1") 7 false); (bytes_of "b", mkEntry [] 9 true);
   (bytes_of "c", mkEntry (bytes_of "3") 8 false)].

Definition demo_options : SSTableWriterOptions := mkWriterOptions (bytes_of "l0.sst") 3 64.

Lemma demo_writable : writable demo_entries demo_options.
Proof.
  split; [discriminate|discriminate|vm_compute; discriminate|repeat constructor| |vm_compute; split; congruence
         |vm_compute; split; congruence|vm_compute; discriminate].
  repeat constructor; apply (bool_decide_unpack _); vm_compute; exact I.
Qed.

Definition empty_fs (script : list io_event) : Fs := mkFs ∅ [] script [].

Lemma empty_fs_settled script : settled (empty_fs script).
Proof. split; [done|]. intros name c H. simpl in H. by rewrite lookup_empty in H. Qed.

(** A write cut short, and the temporary file removed. *)
Lemma sstable_publish_atomic_witness :
  exists e f', sst_write demo_entries demo_options (empty_fs [Done 0; Done 0; Done 0; Done 30; Failed 28])
    = (Throw e, f') /\
    forall s c, s ∈ fs_history f' -> crash_leaves s (bytes_of "l0.sst") c ->
      c = None \/ (exists t, c = Some t /\ zlen t = 285).
Proof.
  set (f := empty_fs _). destruct (sst_write demo_entries demo_options f) as [r f'] eqn:E.
  destruct (sstable_publish_atomic demo_entries demo_options f r f' demo_writable (empty_fs_settled _) E)
    as (lo & hi & Er & Hc & _ & _).
  assert (Hr : exists e, r = Throw e) by (vm_compute in E; simplify_eq; eauto).
  destruct Hr as [e ->]. exists e, f'. split; [reflexivity|]. intros s c Hin Hl.
  destruct (Hc s c Hin Hl) as [->| ->]; [right|by left]. eexists. split; [reflexivity|].
  vm_compute in Er. simplify_eq. vm_compute. reflexivity.
Defined.

Lemma sstable_write_succeeds_witness :
  exists m f', sst_write demo_entries demo_options (empty_fs []) = (Ok m, f') /\
    md_smallest_key m = bytes_of "a" /\ md_largest_key m = bytes_of "c" /\ md_entry_count m = 3.
Proof.
  destruct (sstable_write_succeeds demo_entries demo_options (empty_fs []) demo_writable eq_refl)
    as (m & f' & H & H1 & H2 & H3 & _).
  exists m, f'. split; [exact H|]. split; [exact H1|]. split; [exact H2|exact H3].
Defined.
