(* ===== verification/SstReader.v ===== *)
(** * Reading a table

    src/sstable_reader.cpp: opening a table checks the header, the footer and
    the index against each other; a lookup finds the block by binary search in
    the index, asks the Bloom filter, takes the block from the cache or the
    file, and searches it.  [std::lower_bound] is the halving loop of the
    standard library. *)

From S2P Require Import Prelude OrderedMap Codec Checksum Posix FileSystem Store MemTable BloomFilter BlockCache SstFormat SstWriter.

(** ** Binary search *)

(** The loop of [std::lower_bound]: [len] elements from [first] on are left;
    a turn at least halves them. *)
Fixpoint lower_bound_loop {A} (fuel : nat) (comp : A -> bool) (l : list A) (first len : nat) : nat :=
  match fuel with
  | O => first
  | S fuel' =>
      match len with
      | O => first
      | S _ =>
          let half := Nat.div2 len in
          let middle := (first + half)%nat in
          match l !! middle with
          | Some x =>
              if comp x then lower_bound_loop fuel' comp l (S middle) (len - half - 1)
              else lower_bound_loop fuel' comp l first half
          | None => first
          end
      end
  end.

Definition lower_bound {A} (comp : A -> bool) (l : list A) : nat :=
  lower_bound_loop (length l) comp l 0 (length l).

(** ** Reading the file *)

Definition on_read_error (e : Z) : exn := SystemError e "failed to read SSTable file".
Definition truncated_at (offset : Z) : exn := CorruptionError offset "SSTable file is truncated".

(** The loop around [::pread], with [acc] the bytes completed. *)
Fixpoint pread_loop (script : list io_event) (file : str) (offset size : Z) (acc : str)
    : result str * list io_event :=
  let completed := zlen acc in
  if size <=? completed then (Ok acc, script)
  else
    let absolute_offset := offset + completed in
    if kOffMax <? absolute_offset then
      (Throw (OverflowError "SSTable read offset exceeds the platform file range"), script)
    else
      let rest := drop (Z.to_nat absolute_offset) file in
      match script with
      | [] =>
          if size - completed <=? zlen rest then (Ok (acc ++ take (Z.to_nat (size - completed)) rest), [])
          else (Throw (truncated_at (absolute_offset + zlen rest)), [])
      | Interrupted :: s => pread_loop s file offset size acc
      | Failed e :: s => (Throw (on_read_error e), s)
      | Done k :: s =>
          match rest with
          | [] => (Throw (truncated_at absolute_offset), s)
          | _ => pread_loop s file offset size
                   (acc ++ take (Nat.min (Z.to_nat (size - completed)) (Nat.max 1 (Z.to_nat k))) rest)
          end
      end.

Definition read_exact (file : str) (offset size : Z) (script : list io_event)
    : result str * list io_event :=
  if kOffMax <? offset then
    (Throw (OverflowError "SSTable offset exceeds the platform file range"), script)
  else pread_loop script file offset size [].

(** ** The reader *)

(** What the lookups of a reader change: the outcomes of the reads to come, the
    cache it shares with other readers, and its two counters. *)
Record RState := mkRState {
  rs_script : list io_event;
  rs_cache : option BlockCache;
  bloom_checks_ : Z;
  bloom_negatives_ : Z
}.

Record SSTableReader := mkReader {
  rd_file : str;
  cache_table_id_ : str;
  metadata_ : SSTableMetadata;
  rd_index : list IndexEntry;
  footer_ : SSTableFooter;
  bloom_filter_ : option BloomFilter
}.

Definition set_rs_script (s : list io_event) (st : RState) : RState :=
  mkRState s (rs_cache st) (bloom_checks_ st) (bloom_negatives_ st).
Definition set_rs_cache (c : option BlockCache) (st : RState) : RState :=
  mkRState (rs_script st) c (bloom_checks_ st) (bloom_negatives_ st).

Definition rs_read (file : str) (offset size : Z) : stm RState str :=
  fun st => match read_exact file offset size (rs_script st) with (r, s) => (r, set_rs_script s st) end.

(** The loop that checks the blocks' places. *)
Fixpoint check_index (es : list IndexEntry) (index_offset previous_end : Z) : result Z :=
  match es with
  | [] => mret previous_end
  | e :: es' =>
      _ ← throw_if ((ie_block_offset e <? kHeaderSize) || (ie_block_offset e <? previous_end)
                    || (index_offset <? ie_block_offset e)
                    || (index_offset - ie_block_offset e <? ie_block_size e))
            (CorruptionError index_offset "SSTable index references an invalid data block");
      check_index es' index_offset (ie_block_offset e + ie_block_size e)
  end.

(** The constructor.  [file] is [None] when the size of the path cannot be
    had; [normal] is the path in normal form, the name used in the cache. *)
Definition sst_open (path normal : str) (file : option str) (bloom : option BloomFilter)
    : stm RState SSTableReader :=
  _ ← slift (throw_if (is_nil path) (InvalidArgument "SSTable path must not be empty"));
  match file with
  | None => sthrow (SystemError 2 "filesystem error: cannot get file size")
  | Some file =>
      let size := zlen file in
      let minimum_size := kHeaderSize + kFooterSize in
      _ ← slift (throw_if (size <? minimum_size) (CorruptionError 0 "SSTable file is too small"));
      header_bytes ← rs_read file 0 kHeaderSize;
      header ← slift (parse_header header_bytes 0);
      let footer_offset := size - kFooterSize in
      footer_bytes ← rs_read file footer_offset kFooterSize;
      footer ← slift (parse_footer footer_bytes footer_offset);
      _ ← slift (throw_if ((ft_index_offset footer <? kHeaderSize)
                           || (footer_offset <? ft_index_offset footer)
                           || (footer_offset - ft_index_offset footer <? ft_index_size footer))
            (CorruptionError footer_offset "SSTable footer references an invalid index range"));
      _ ← slift (throw_if (negb (h_entry_count header =? ft_entry_count footer)
                           || negb (h_block_count header =? ft_block_count footer)
                           || negb (h_min_sequence_number header =? ft_min_sequence_number footer)
                           || negb (h_max_sequence_number header =? ft_max_sequence_number footer))
            (CorruptionError footer_offset "SSTable header and footer metadata disagree"));
      index_bytes ← rs_read file (ft_index_offset footer) (ft_index_size footer);
      index ← slift (parse_index_block index_bytes (ft_index_offset footer));
      _ ← slift (throw_if (negb (zlen index =? ft_block_count footer))
            (CorruptionError (ft_index_offset footer) "SSTable block count does not match the index"));
      previous_end ← slift (check_index index (ft_index_offset footer) kHeaderSize);
      _ ← slift (throw_if (negb (previous_end =? ft_index_offset footer))
            (CorruptionError (ft_index_offset footer) "SSTable data blocks do not end at the index"));
      mret (mkReader file normal
              (mkMetadata path (h_generation header) (h_entry_count header) (h_block_count header)
                 (h_min_sequence_number header) (h_max_sequence_number header)
                 (default [] (ie_first_key <$> head index)) (default [] (ie_last_key <$> last index)) Level0)
              index footer bloom)
  end.

Definition cache_get (table_id : str) (block_offset : Z) : stm RState (option DataBlock) :=
  fun st => match rs_cache st with
            | None => (Ok None, st)
            | Some c => match bc_get table_id block_offset c with
                        (b, c') => (Ok b, set_rs_cache (Some c') st)
                        end
            end.

Definition cache_put (table_id : str) (block_offset : Z) (b : DataBlock) : stm RState unit :=
  fun st => match rs_cache st with
            | None => (Ok tt, st)
            | Some c => match bc_put table_id block_offset (Some b) c with
                        (r, c') => (r, set_rs_cache (Some c') st)
                        end
            end.

Definition read_data_block (rd : SSTableReader) (e : IndexEntry) : stm RState DataBlock :=
  cached ← cache_get (cache_table_id_ rd) (ie_block_offset e);
  match cached with
  | Some b => mret b
  | None =>
      bytes ← rs_read (rd_file rd) (ie_block_offset e) (ie_block_size e);
      block ← slift (parse_data_block bytes (ie_block_offset e));
      _ ← slift (throw_if (negb (str_eqb (first_key block) (ie_first_key e))
                           || negb (str_eqb (last_key block) (ie_last_key e)))
            (CorruptionError (ie_block_offset e) "SSTable data block does not match its index range"));
      _ ← cache_put (cache_table_id_ rd) (ie_block_offset e) block;
      mret block
  end.

Definition count_check (negative : bool) (st : RState) : RState :=
  mkRState (rs_script st) (rs_cache st) (u64 (bloom_checks_ st + 1))
    (if negative then u64 (bloom_negatives_ st + 1) else bloom_negatives_ st).

(** The filter's answer, counted: whether the key is denied. *)
Definition bloom_denies (rd : SSTableReader) (key : str) : stm RState bool :=
  match bloom_filter_ rd with
  | None => mret false
  | Some f => let negative := negb (may_contain key f) in
              _ ← smodify (count_check negative); mret negative
  end.

Definition sst_get (rd : SSTableReader) (key : str) : stm RState (option Entry) :=
  _ ← slift (validate_key key);
  if str_ltb key (md_smallest_key (metadata_ rd)) || str_ltb (md_largest_key (metadata_ rd)) key then mret None
  else
    match rd_index rd !! lower_bound (fun e => str_ltb (ie_last_key e) key) (rd_index rd) with
    | None => mret None
    | Some candidate =>
        if str_ltb key (ie_first_key candidate) then mret None
        else
          denied ← bloom_denies rd key;
          if (denied : bool) then mret None
          else
            block ← read_data_block rd candidate;
            match records block !! lower_bound (fun r => str_ltb r.1 key) (records block) with
            | None => mret None
            | Some r => if negb (str_eqb r.1 key) then mret None else mret (Some r.2)
            end
    end.

Fixpoint read_blocks (rd : SSTableReader) (es : list IndexEntry) (acc : list (str * Entry))
    : stm RState (list (str * Entry)) :=
  match es with
  | [] => mret acc
  | e :: es' => block ← read_data_block rd e; read_blocks rd es' (acc ++ records block)
  end.

Definition sst_read_all (rd : SSTableReader) : stm RState (list (str * Entry)) :=
  res ← read_blocks rd (rd_index rd) [];
  _ ← slift (throw_if (negb (zlen res =? md_entry_count (metadata_ rd)))
        (CorruptionError 0 "SSTable entry count does not match its metadata"));
  mret res.

(** ** Binary search finds the partition point *)

(** The first element that fails the test, by a linear scan. *)
Fixpoint partition_point {A} (comp : A -> bool) (l : list A) : nat :=
  match l with
  | [] => 0
  | x :: l' => if comp x then S (partition_point comp l') else 0
  end.

(** The elements that pass come first. *)
Definition partitioned {A} (comp : A -> bool) (l : list A) : Prop :=
  forall i j x y, l !! i = Some x -> l !! j = Some y -> (i <= j)%nat -> comp y = true -> comp x = true.

Lemma partition_point_le {A} (comp : A -> bool) l : (partition_point comp l <= length l)%nat.
Proof. induction l as [|x l IH]; simpl; [done|]. destruct (comp x); lia. Qed.

Lemma partition_point_before {A} (comp : A -> bool) l i x :
  l !! i = Some x -> (i < partition_point comp l)%nat -> comp x = true.
Proof.
  revert i. induction l as [|y l IH]; intros i Hi; simpl; [lia|]. destruct (comp y) eqn:E; [|lia].
  destruct i as [|i]; simpl in Hi; [by simplify_eq|]. intros H. apply (IH i Hi). lia.
Qed.

Lemma partition_point_at {A} (comp : A -> bool) l x :
  l !! partition_point comp l = Some x -> comp x = false.
Proof.
  induction l as [|y l IH]; simpl; [done|]. destruct (comp y) eqn:E; [done|]. simpl. by intros [= <-].
Qed.

Lemma partitioned_after {A} (comp : A -> bool) l i x :
  partitioned comp l -> l !! i = Some x -> (partition_point comp l <= i)%nat -> comp x = false.
Proof.
  intros Hp Hi Hle. destruct (comp x) eqn:E; [|done].
  assert (Hlt : (partition_point comp l < length l)%nat) by (apply lookup_lt_Some in Hi; lia).
  apply lookup_lt_is_Some in Hlt as [y Hy]. pose proof (partition_point_at _ _ _ Hy) as Hf.
  by rewrite (Hp _ _ _ _ Hy Hi Hle E) in Hf.
Qed.

Lemma lower_bound_loop_spec {A} fuel (comp : A -> bool) l first len :
  partitioned comp l -> (len <= fuel)%nat -> (first + len <= length l)%nat ->
  (first <= partition_point comp l <= first + len)%nat ->
  lower_bound_loop fuel comp l first len = partition_point comp l.
Proof.
  intros Hp. revert first len. induction fuel as [|fuel IH]; intros first len Hf Hl Hb; simpl; [lia|].
  destruct len as [|len]; [lia|]. set (half := Nat.div2 (S len)).
  assert (Hhalf : (half <= len)%nat) by (unfold half; pose proof (Nat.lt_div2 (S len)); lia).
  assert (Hm : (first + half < length l)%nat) by lia.
  destruct (lookup_lt_is_Some_2 l _ Hm) as [x Hx]. rewrite Hx. destruct (comp x) eqn:E.
  - apply IH; [lia|lia|]. split; [|lia].
    destruct (Nat.le_gt_cases (S (first + half)) (partition_point comp l)) as [|Hgt]; [done|].
    rewrite (partitioned_after _ _ _ _ Hp Hx) in E by lia. done.
  - apply IH; [lia|lia|]. split; [lia|].
    destruct (Nat.le_gt_cases (partition_point comp l) (first + half)) as [|Hgt]; [done|].
    rewrite (partition_point_before _ _ _ _ Hx) in E by lia. done.
Qed.

Lemma lower_bound_partition {A} (comp : A -> bool) l :
  partitioned comp l -> lower_bound comp l = partition_point comp l.
Proof.
  intros Hp. apply lower_bound_loop_spec; [done|lia|lia|]. pose proof (partition_point_le comp l). lia.
Qed.

Lemma StronglySorted_lookup {A} (R : A -> A -> Prop) l i j x y :
  StronglySorted R l -> l !! i = Some x -> l !! j = Some y -> (i < j)%nat -> R x y.
Proof.
  intros Hs. revert i j. induction Hs as [|z l _ IH Hz]; intros i j Hi Hj Hlt; [done|].
  destruct j as [|j]; [lia|]. destruct i as [|i]; simpl in *.
  - simplify_eq. rewrite Forall_forall in Hz. apply Hz. by eapply list_elem_of_lookup_2.
  - apply (IH i j); [done..|lia].
Qed.

(** Sorted by keys that the test cuts. *)
Lemma partitioned_sorted {A} (R : A -> A -> Prop) (comp : A -> bool) l :
  StronglySorted R l -> (forall x y, R x y -> comp y = true -> comp x = true) -> partitioned comp l.
Proof.
  intros Hs HR i j x y Hi Hj Hle Hy. destruct (decide (i = j)) as [->|Hne]; [congruence|].
  apply (HR x y); [|done]. eapply StronglySorted_lookup; [done..|lia].
Qed.

(** ** Reads *)

Lemma pread_loop_calm script file offset size acc :
  calm script = true -> 0 <= offset -> 0 <= size -> offset + size <= zlen file -> zlen file <= kOffMax ->
  acc = take (length acc) (drop (Z.to_nat offset) file) -> zlen acc <= size ->
  exists s, pread_loop script file offset size acc = (Ok (subspan file offset size), s) /\ calm s = true.
Proof.
  intros Hc Ho Hsz Hle Hmax. unfold subspan. revert acc Hc.
  assert (Hdone : forall acc : str, acc = take (length acc) (drop (Z.to_nat offset) file) -> size <= zlen acc ->
            zlen acc <= size -> acc = take (Z.to_nat size) (drop (Z.to_nat offset) file)).
  { intros acc Ha H1 H2. rewrite Ha. unfold zlen in *. f_equal. lia. }
  assert (Hext : forall (acc : str) n, acc = take (length acc) (drop (Z.to_nat offset) file) ->
            acc ++ take n (drop (Z.to_nat (offset + zlen acc)) file)
            = take (length acc + n) (drop (Z.to_nat offset) file)).
  { intros acc n Ha. rewrite Ha at 1. unfold zlen. rewrite Z2Nat.inj_add, Nat2Z.id by lia.
    rewrite <- drop_drop. by rewrite take_take_drop. }
  assert (Hrest : forall acc : str, zlen acc <= size ->
            zlen (drop (Z.to_nat (offset + zlen acc)) file) = zlen file - offset - zlen acc).
  { intros acc Ha. unfold zlen in *. rewrite length_drop. lia. }
  induction script as [|ev script IH]; intros acc Hc Ha Hlen; cbn [pread_loop].
  - destruct (size <=? zlen acc) eqn:E; zbool; [exists []; by rewrite (Hdone acc)|].
    zdecide. rewrite Hrest by done. zdecide. exists []. split; [|done]. rewrite Hext by done. do 2 f_equal.
    f_equal. unfold zlen in *. lia.
  - destruct (size <=? zlen acc) eqn:E; zbool; [exists (ev :: script); by rewrite (Hdone acc)|].
    zdecide. simpl in Hc. destruct ev as [|e|k]; [by apply IH|done|].
    pose proof (Hrest acc Hlen) as Hr. destruct (drop (Z.to_nat (offset + zlen acc)) file) as [|b rest] eqn:Ed.
    { rewrite zlen_nil in Hr. lia. }
    rewrite <- Ed. set (n := Nat.min _ _). rewrite Hext by done.
    assert (Hn : (length acc + n <= length (drop (Z.to_nat offset) file))%nat).
    { rewrite length_drop. subst n. unfold zlen in *. lia. }
    apply IH; [done| |].
    + f_equal. rewrite length_take. lia.
    + unfold zlen in *. rewrite length_take. unfold n. lia.
Qed.

Lemma read_exact_ok script file offset size :
  calm script = true -> 0 <= offset -> 0 <= size -> offset + size <= zlen file -> zlen file <= kOffMax ->
  exists s, read_exact file offset size script = (Ok (subspan file offset size), s) /\ calm s = true.
Proof.
  intros Hc Ho Hs Hle Hmax. unfold read_exact. zdecide. apply pread_loop_calm; try done.
Qed.

Lemma rs_read_ok file offset size st :
  calm (rs_script st) = true -> 0 <= offset -> 0 <= size -> offset + size <= zlen file -> zlen file <= kOffMax ->
  exists s, rs_read file offset size st = (Ok (subspan file offset size), set_rs_script s st) /\ calm s = true.
Proof.
  intros Hc Ho Hs Hle Hmax. unfold rs_read.
  destruct (read_exact_ok (rs_script st) file offset size) as (s & -> & Hs'); [done..|]. eauto.
Qed.

(** ** A table as the writer leaves it *)

Record good_table (entries : list (str * Entry)) (h : Header) (bs : list DataBlock) : Prop := {
  gt_blocks : blocks_of entries bs;
  gt_some : bs <> [];
  gt_wf : forall b, b ∈ bs -> block_wf (records b);
  gt_header : header_wf h;
  gt_entries : h_entry_count h = zlen entries;
  gt_count : h_block_count h = zlen bs;
  gt_size : zlen (table_file h bs) <= kOffMax
}.

Lemma writable_good entries options lo hi :
  writable entries options -> check_entries entries [] u64_max 0 = Ok (lo, hi) ->
  good_table entries (header_for entries options lo hi) (blocks_for entries options).
Proof.
  intros W E. pose proof (writable_block_count _ _ W) as Hc.
  pose proof (check_entries_range entries lo hi (wr_sorted _ _ W) (wr_wf _ _ W) (wr_entries _ _ W) E)
    as (H1 & H2 & _).
  split; try done.
  - by apply writable_blocks.
  - intros Eb. rewrite Eb in Hc. by destruct Hc.
  - intros b. by apply blocks_block_wf.
  - unfold header_wf. simpl. pose proof (wr_count _ _ W). pose proof (wr_target _ _ W).
    assert (zlen entries <> 0) by (rewrite zlen_0; apply W). pose proof (zlen_nonneg entries).
    split; [apply W|]. unfold is_u32, u32_max, u64_max in *. lia.
  - unfold table_file. rewrite !zlen_app, serialize_header_zlen, serialize_footer_zlen.
    pose proof (wr_size _ _ W). lia.
Qed.

Lemma index_of_lookup bs off i e :
  index_of bs off !! i = Some e ->
  exists b, bs !! i = Some b /\
    e = mkIndexEntry (first_key b) (last_key b) (off + zlen (enc_blocks (take i bs))) (zlen (enc_block (records b))).
Proof.
  revert off i. induction bs as [|b bs IH]; intros off i; simpl; [done|]. destruct i as [|i]; simpl.
  - intros [= <-]. exists b. split; [done|]. f_equal. unfold enc_blocks. simpl. rewrite zlen_nil. lia.
  - intros H. apply IH in H as (b' & Hb & ->). exists b'. split; [done|]. f_equal.
    rewrite enc_blocks_cons, zlen_app. lia.
Qed.

Lemma enc_blocks_app a b : enc_blocks (a ++ b) = enc_blocks a ++ enc_blocks b.
Proof. unfold enc_blocks. by rewrite map_app, concat_app. Qed.

(** Different blocks have different offsets. *)
Lemma index_of_offset_inj bs off i j e e' :
  index_of bs off !! i = Some e -> index_of bs off !! j = Some e' ->
  ie_block_offset e = ie_block_offset e' -> i = j.
Proof.
  intros Hi Hj. apply index_of_lookup in Hi as (b & Hb & ->), Hj as (b' & Hb' & ->). simpl. intros E.
  assert (Hlt : forall m n c, (m < n)%nat -> bs !! m = Some c ->
            zlen (enc_blocks (take m bs)) < zlen (enc_blocks (take n bs))).
  { intros m n c Hmn Hm. assert (En : take n bs = take m bs ++ c :: drop (S m) (take n bs)).
    { rewrite <- (take_drop m (take n bs)) at 1. rewrite take_take, Nat.min_l by lia. f_equal.
      apply drop_S. by rewrite lookup_take_lt. }
    rewrite En, enc_blocks_app, enc_blocks_cons, !zlen_app. pose proof (enc_block_pos (records c)).
    pose proof (zlen_nonneg (enc_blocks (drop (S m) (take n bs)))). lia. }
  destruct (Nat.lt_trichotomy i j) as [H|[H|H]]; [|done|].
  - specialize (Hlt i j b H Hb). lia.
  - specialize (Hlt j i b' H Hb'). lia.
Qed.

Section table.
Context (entries : list (str * Entry)) (h : Header) (bs : list DataBlock).
Hypothesis G : good_table entries h bs.

Let file := table_file h bs.
Let index := index_of bs kHeaderSize.

Lemma table_zlen :
  zlen file = kHeaderSize + zlen (enc_blocks bs) + zlen (enc_index index) + kFooterSize.
Proof.
  unfold file, table_file. rewrite !zlen_app, serialize_header_zlen, serialize_footer_zlen. unfold index. lia.
Qed.

Lemma table_sizes :
  0 <= zlen (enc_blocks bs) /\ 0 < zlen (enc_index index) /\ zlen file <= kOffMax /\
  0 < zlen bs <= u32_max.
Proof.
  pose proof (zlen_nonneg (enc_blocks bs)). pose proof (gt_size _ _ _ G). split; [done|]. split.
  - unfold enc_index. rewrite zlen_seal. pose proof (zlen_nonneg (kIndexMagic ++ le_bytes 4 (zlen index) ++ enc_index_entries index)). lia.
  - split; [done|]. pose proof (gt_count _ _ _ G) as Hc. pose proof (gt_header _ _ _ G) as (_ & _ & Hh & _). lia.
Qed.

Lemma table_index_wf : index_wf index.
Proof.
  pose proof table_sizes as (S1 & S2 & S3 & S4). pose proof table_zlen as Hz.
  eapply index_of_wf; [apply G|apply G|lia|]. unfold kOffMax, kFooterSize, u64_max in *. lia.
Qed.

Lemma span_header : subspan file 0 kHeaderSize = serialize_header h.
Proof. unfold file, table_file. apply subspan_here. apply serialize_header_zlen. Qed.

Lemma span_index : subspan file (kHeaderSize + zlen (enc_blocks bs)) (zlen (enc_index index)) = enc_index index.
Proof.
  unfold file, table_file. fold index. rewrite app_assoc. apply subspan_app; [|done].
  by rewrite zlen_app, serialize_header_zlen.
Qed.

Lemma span_footer : subspan file (zlen file - kFooterSize) kFooterSize = serialize_footer (footer_of h bs).
Proof.
  rewrite table_zlen. unfold file, table_file. fold index.
  rewrite <- (app_nil_r (serialize_footer (footer_of h bs))) at 1. rewrite !app_assoc, <- (app_assoc _ _ []).
  apply subspan_app; [|by rewrite serialize_footer_zlen].
  rewrite !zlen_app, serialize_header_zlen. lia.
Qed.

Lemma span_block i b :
  bs !! i = Some b ->
  subspan file (kHeaderSize + zlen (enc_blocks (take i bs))) (zlen (enc_block (records b))) = enc_block (records b)
  /\ kHeaderSize + zlen (enc_blocks (take i bs)) + zlen (enc_block (records b)) <= zlen file.
Proof.
  intros Hb. assert (Eb : bs = take i bs ++ b :: drop (S i) bs) by (by rewrite take_drop_middle).
  assert (Ee : enc_blocks bs = enc_blocks (take i bs) ++ enc_block (records b) ++ enc_blocks (drop (S i) bs)).
  { rewrite Eb at 1. by rewrite enc_blocks_app, enc_blocks_cons. }
  split.
  - unfold file, table_file. rewrite Ee, <- !app_assoc, app_assoc. apply subspan_app; [|done].
    by rewrite zlen_app, serialize_header_zlen.
  - rewrite table_zlen, Ee, !zlen_app. pose proof (zlen_nonneg (enc_blocks (drop (S i) bs))).
    pose proof (zlen_nonneg (enc_index index)). unfold kFooterSize. lia.
Qed.

Lemma check_index_ok bs' off ioff :
  kHeaderSize <= off -> off + zlen (enc_blocks bs') <= ioff ->
  check_index (index_of bs' off) ioff off = Ok (off + zlen (enc_blocks bs')).
Proof.
  revert off. induction bs' as [|b bs' IH]; intros off Ho Hle.
  { simpl. unfold enc_blocks. simpl. rewrite zlen_nil. f_equal. lia. }
  rewrite enc_blocks_cons, zlen_app in *. pose proof (enc_block_pos (records b)).
  pose proof (zlen_nonneg (enc_blocks bs')). cbn [index_of check_index ie_block_offset ie_block_size].
  mred. zdecide. cbn [orb]. rewrite IH by lia. f_equal. lia.
Qed.

Lemma footer_of_wf : footer_wf (footer_of h bs).
Proof.
  pose proof table_sizes as (S1 & S2 & S3 & S4). pose proof table_zlen as Hz.
  pose proof (gt_header _ _ _ G) as (H1 & H2 & H3 & H4 & H5 & H6).
  unfold footer_wf, footer_of. simpl. fold index. unfold is_u64, kOffMax, kFooterSize, kHeaderSize, u64_max in *. lia.
Qed.

Lemma smallest_key_of : default [] (ie_first_key <$> head index) = default [] (fst <$> head entries).
Proof.
  destruct (gt_blocks _ _ _ G) as [Hc Hn _ _]. unfold index. pose proof (gt_some _ _ _ G).
  destruct bs as [|b bs0]; [done|]. simpl. unfold first_key. rewrite <- Hc. unfold block_records. simpl.
  apply Forall_cons in Hn as [Hn _]. by destruct (records b).
Qed.

Lemma index_of_last bs' b off :
  last (index_of (bs' ++ [b]) off)
  = Some (mkIndexEntry (first_key b) (last_key b) (off + zlen (enc_blocks bs')) (zlen (enc_block (records b)))).
Proof.
  revert off. induction bs' as [|b' bs' IH]; intros off.
  - simpl. do 2 f_equal. unfold enc_blocks. simpl. rewrite zlen_nil. lia.
  - cbn [app index_of]. rewrite last_cons, IH, enc_blocks_cons, zlen_app. do 2 f_equal. lia.
Qed.

Lemma largest_key_of : default [] (ie_last_key <$> last index) = default [] (fst <$> last entries).
Proof.
  destruct (gt_blocks _ _ _ G) as [Hc Hn _ _]. unfold index. pose proof (gt_some _ _ _ G) as Hs.
  destruct (last bs) as [b|] eqn:El; [|by apply last_None in El]. apply last_Some in El as [bs0 Eb].
  rewrite Eb, index_of_last. simpl. rewrite <- Hc, Eb, block_records_app, last_app.
  unfold block_records at 1. simpl. rewrite app_nil_r. unfold last_key.
  rewrite Eb in Hn. apply Forall_app in Hn as [_ Hn]. apply Forall_cons in Hn as [Hn _].
  destruct (last (records b)) eqn:E; [done|]. by apply last_None in E.
Qed.

(** ** Opening *)

Definition reader_of (path normal : str) (bloom : option BloomFilter) : SSTableReader :=
  mkReader file normal
    (mkMetadata path (h_generation h) (zlen entries) (zlen bs) (h_min_sequence_number h)
       (h_max_sequence_number h) (default [] (fst <$> head entries)) (default [] (fst <$> last entries)) Level0)
    index (footer_of h bs) bloom.

Lemma sst_open_ok path normal bloom st :
  path <> [] -> calm (rs_script st) = true ->
  exists s, sst_open path normal (Some file) bloom st = (Ok (reader_of path normal bloom), set_rs_script s st)
    /\ calm s = true.
Proof.
  intros Hp Hc. pose proof table_sizes as (S1 & S2 & S3 & S4). pose proof table_zlen as Hz.
  unfold sst_open, mbind, stm_bind, slift, throw_if, mret, stm_ret.
  rewrite (proj2 (is_nil_false path)) by done.
  assert (HkH : kHeaderSize = 56) by done. assert (HkF : kFooterSize = 64) by done. zdecide.
  destruct (rs_read_ok file 0 kHeaderSize st) as (s1 & -> & C1); [done|lia|lia|lia|done|].
  rewrite span_header, header_roundtrip_at by apply G.
  destruct (rs_read_ok file (zlen file - kFooterSize) kFooterSize (set_rs_script s1 st)) as (s2 & -> & C2);
    [done|lia|lia|lia|done|].
  rewrite span_footer, footer_roundtrip_at by apply footer_of_wf.
  cbn [footer_of ft_index_offset ft_index_size ft_entry_count ft_block_count ft_min_sequence_number
       ft_max_sequence_number]. fold index. rewrite !Z.eqb_refl. zdecide. cbn [orb negb].
  edestruct (rs_read_ok file (kHeaderSize + zlen (enc_blocks bs)) (zlen (enc_index index))) as (s3 & -> & C3);
    [exact C2|lia|lia|lia|done|].
  rewrite span_index.
  destruct (index_roundtrip_at index (kHeaderSize + zlen (enc_blocks bs)) table_index_wf) as [_ ->].
  unfold index at 1. rewrite index_of_length, (gt_count _ _ _ G), Z.eqb_refl. cbn [negb].
  unfold index at 1. rewrite check_index_ok by lia. rewrite Z.eqb_refl. cbn [negb].
  exists s3. split; [|done]. unfold reader_of. rewrite smallest_key_of, largest_key_of.
  by rewrite (gt_entries _ _ _ G).
Qed.

(** ** Blocks *)

Context (others : CacheKey * DataBlock -> Prop).

(** What the cache holds under this table's name are its blocks, and what it
    holds under other names satisfies [others]. *)
Definition cache_ok (table_id : str) (c : BlockCache) : Prop :=
  (forall i e b, index !! i = Some e -> ((table_id, ie_block_offset e), b) ∈ bc_abs c -> bs !! i = Some b) /\
  (forall kb, kb ∈ bc_abs c -> kb.1.1 <> table_id -> others kb).

Definition state_ok (table_id : str) (st : RState) : Prop :=
  calm (rs_script st) = true /\
  match rs_cache st with Some c => bc_inv c /\ cache_ok table_id c | None => True end.

Lemma cache_get_ok table_id i e st :
  state_ok table_id st -> index !! i = Some e ->
  exists o st', cache_get table_id (ie_block_offset e) st = (Ok o, st') /\ state_ok table_id st' /\
    (forall b, o = Some b -> bs !! i = Some b).
Proof.
  intros [Hc Hs] Hi. unfold cache_get. destruct (rs_cache st) as [c|] eqn:E.
  - destruct Hs as [Hinv Hok]. destruct (bc_get_spec table_id (ie_block_offset e) c Hinv) as [H1 H2].
    destruct (bc_get table_id (ie_block_offset e) c) as [o c'] eqn:Eg. simpl in H1, H2.
    assert (Hsub : forall kb, kb ∈ bc_abs c' -> kb ∈ bc_abs c).
    { intros kb Hkb. apply (lru_get_elem (table_id, ie_block_offset e)). by rewrite <- H2. }
    exists o, (set_rs_cache (Some c') st). split; [done|]. split.
    + split; [done|]. simpl. split; [done|]. destruct Hok as [Hok Hoth].
      split; [intros j e' b Hj Hin; eapply Hok; [exact Hj|]; auto|auto].
    + intros b ->. apply (proj1 Hok i e b Hi). apply lru_find_elem.
      unfold lru_get in H2. destruct (lru_find _ (bc_abs c)); by simplify_eq.
  - exists None, st. split; [done|]. split; [by split; [|rewrite E]|done].
Qed.

Lemma cache_put_ok table_id i e b st :
  state_ok table_id st -> index !! i = Some e -> bs !! i = Some b ->
  exists st', cache_put table_id (ie_block_offset e) b st = (Ok tt, st') /\ state_ok table_id st'.
Proof.
  intros [Hc Hs] Hi Hb. unfold cache_put. destruct (rs_cache st) as [c|] eqn:E.
  - destruct Hs as [Hinv Hok]. destruct (bc_put_spec table_id (ie_block_offset e) b c Hinv) as (c' & -> & H1 & H2 & _).
    exists (set_rs_cache (Some c') st). split; [done|]. split; [done|]. simpl. split; [done|].
    split.
    + intros j e' b' Hj Hin. rewrite H2 in Hin. apply lru_put_elem in Hin as [Hin|Hin]; [|by eapply Hok].
      simplify_eq. by rewrite (index_of_offset_inj bs kHeaderSize j i e' e).
    + intros kb Hin Hne. rewrite H2 in Hin. apply lru_put_elem in Hin as [->|Hin]; [done|by apply Hok].
  - exists st. split; [done|]. by split; [|rewrite E].
Qed.

Lemma read_data_block_ok path normal bloom i e b st :
  state_ok normal st -> index !! i = Some e -> bs !! i = Some b ->
  exists st', read_data_block (reader_of path normal bloom) e st = (Ok b, st') /\ state_ok normal st'.
Proof.
  intros Hs Hi Hb. unfold read_data_block, mbind, stm_bind. cbn [cache_table_id_ reader_of rd_file].
  destruct (cache_get_ok normal i e st Hs Hi) as (o & st1 & -> & Hs1 & Ho).
  destruct o as [b0|]; [exists st1; split; [|done]; unfold mret, stm_ret; specialize (Ho b0 eq_refl); congruence|].
  pose proof Hi as Hi'. apply index_of_lookup in Hi' as (b1 & Hb1 & ->). assert (b1 = b) as -> by congruence.
  destruct (span_block i b Hb) as [Hspan Hle]. pose proof table_sizes as (_ & _ & S3 & _).
  pose proof (zlen_nonneg (enc_blocks (take i bs))). pose proof (zlen_nonneg (enc_block (records b))).
  cbn [ie_block_offset ie_block_size ie_first_key ie_last_key].
  edestruct (rs_read_ok file (kHeaderSize + zlen (enc_blocks (take i bs))) (zlen (enc_block (records b))) st1)
    as (s2 & -> & C2); [apply Hs1|unfold kHeaderSize; lia|lia|done|done|].
  rewrite Hspan. unfold slift. rewrite block_roundtrip_at by (apply G; by eapply list_elem_of_lookup_2).
  destruct b as [rs]. cbn [records]. rewrite !str_eqb_refl. cbn [negb orb throw_if].
  assert (Hs2 : state_ok normal (set_rs_script s2 st1)) by (split; [done|apply Hs1]).
  destruct (cache_put_ok normal i _ _ _ Hs2 Hi Hb) as (st3 & E3 & Hs3). cbn [ie_block_offset] in E3.
  rewrite E3. exists st3. by split.
Qed.

(** ** Searching *)

Lemma om_find_app k (a b : list (str * Entry)) :
  om_find k (a ++ b) = match om_find k a with Some v => Some v | None => om_find k b end.
Proof. induction a as [|[k' v] a IH]; simpl; [done|]. by destruct (str_eqb k k'). Qed.

Lemma om_find_None_lt k (a : list (str * Entry)) : (forall r, r ∈ a -> r.1 <> k) -> om_find k a = None.
Proof.
  intros H. apply om_find_None. intros ([k' e] & -> & Hin)%list_elem_of_fmap. by apply (H (k', e)).
Qed.

Lemma block_records_elem bs' x : x ∈ block_records bs' -> exists b, b ∈ bs' /\ x ∈ records b.
Proof.
  intros Hx. apply list_elem_of_In in Hx. unfold block_records in Hx. apply in_concat in Hx as (l & Hl & Hx).
  apply in_map_iff in Hl as (b & <- & Hb). exists b. by rewrite !list_elem_of_In.
Qed.

(** The block the index points at is the only one that can hold the key. *)
Lemma index_search key :
  let i := partition_point (fun e => str_ltb (ie_last_key e) key) index in
  om_find key entries = match bs !! i with Some b => om_find key (records b) | None => None end.
Proof.
  intros i. pose proof (gt_blocks _ _ _ G) as B. pose proof B as [Hc Hn Hs Hw].
  assert (Hlt : forall j b x, (j < i)%nat -> bs !! j = Some b -> x ∈ records b -> x.1 <> key).
  { intros j b x Hj Hb Hx Ek. assert (Hlen : (j < length index)%nat).
    { pose proof (partition_point_le (fun e => str_ltb (ie_last_key e) key) index). unfold i in Hj. lia. }
    apply lookup_lt_is_Some in Hlen as [e He]. pose proof (partition_point_before _ _ _ _ He Hj) as Hcomp.
    apply index_of_lookup in He as (b' & Hb' & ->). simpl in Hcomp. assert (b' = b) as -> by congruence.
    sbool. assert (Hin : b ∈ bs) by by eapply list_elem_of_lookup_2.
    pose proof (last_key_ge b x (blocks_of_sorted _ _ _ B Hin) Hx) as Hle. rewrite Ek in Hle.
    apply (str_lt_irrefl key). by eapply str_le_lt_trans. }
  rewrite <- Hc. rewrite <- (take_drop i bs) at 1. rewrite block_records_app, om_find_app.
  rewrite (om_find_None_lt key (block_records (take i bs))).
  2:{ intros r Hr. apply block_records_elem in Hr as (b & Hb & Hx). apply list_elem_of_lookup in Hb as [j Hj].
      pose proof (lookup_lt_Some _ _ _ Hj) as Hjl. rewrite length_take in Hjl.
      rewrite lookup_take_lt in Hj by lia. by apply (Hlt j b r); [lia|..]. }
  destruct (bs !! i) as [b|] eqn:Eb.
  2:{ apply lookup_ge_None in Eb. by rewrite drop_ge. }
  rewrite (drop_S _ _ _ Eb). unfold block_records. simpl. rewrite om_find_app.
  destruct (om_find key (records b)) eqn:Ef; [done|]. apply om_find_None_lt. intros r Hr Ek.
  assert (Hidx : (i < length index)%nat).
  { apply lookup_lt_Some in Eb. pose proof (index_of_length bs kHeaderSize) as Hl. fold index in Hl.
    unfold zlen in Hl. lia. }
  apply lookup_lt_is_Some in Hidx as [e He]. pose proof (partition_point_at _ _ _ He) as Hcomp.
  apply index_of_lookup in He as (b' & Hb' & ->). assert (b' = b) as -> by congruence. simpl in Hcomp. sbool.
  rewrite <- Hc, <- (take_drop i bs), block_records_app in Hs. apply om_wf_app in Hs as (_ & Hs & _).
  rewrite (drop_S _ _ _ Eb) in Hs. unfold block_records in Hs. simpl in Hs. apply om_wf_app in Hs as (_ & _ & Hs).
  rewrite Forall_forall in Hn. assert (Hbne : records b <> []) by (apply Hn; by eapply list_elem_of_lookup_2).
  destruct (last_key_elem b Hbne) as [el Hel]. specialize (Hs _ _ Hel Hr). simpl in Hs. rewrite Ek in Hs.
  apply (str_lt_irrefl key). by eapply str_le_lt_trans.
Qed.

Lemma block_search b key :
  om_wf (records b) ->
  om_find key (records b)
  = match records b !! partition_point (fun r => str_ltb r.1 key) (records b) with
    | None => None
    | Some r => if negb (str_eqb r.1 key) then None else Some r.2
    end.
Proof.
  induction (records b) as [|[k e] rs IH]; [done|]. rewrite om_wf_cons. intros [Hw Hf]. simpl.
  destruct (str_ltb k key) eqn:E.
  - destruct (str_eqb key k) eqn:Ek; [sbool; subst; exfalso; by eapply str_lt_irrefl|]. simpl. by apply IH.
  - simpl. destruct (str_eqb key k) eqn:Ek.
    + sbool. subst k. by rewrite str_eqb_refl.
    + destruct (str_eqb k key) eqn:Ek2; [sbool; congruence|]. simpl. apply om_find_lt. sbool.
      eapply Forall_impl; [exact Hf|]. intros r Hr. simpl in Hr. by eapply str_le_lt_trans.
Qed.

Lemma index_partitioned key : partitioned (fun e => str_ltb (ie_last_key e) key) index.
Proof.
  pose proof table_index_wf as (_ & _ & Hs & Hw). unfold partitioned.
  intros i j x y Hi Hj Hle Hy. destruct (decide (i = j)) as [->|Hne]; [congruence|].
  pose proof (StronglySorted_lookup _ _ _ _ _ _ Hs Hi Hj ltac:(lia)) as Hlt. simpl in Hlt.
  rewrite Forall_forall in Hw. destruct (Hw y) as (_ & _ & Hyy & _); [by eapply list_elem_of_lookup_2|].
  sbool. apply str_ltb_lt. eapply str_lt_trans; [exact Hlt|]. by eapply str_le_lt_trans.
Qed.

Lemma block_partitioned b key : om_wf (records b) -> partitioned (fun r => str_ltb r.1 key) (records b).
Proof.
  intros Hw. apply (partitioned_sorted (fun x y => str_lt x.1 y.1)).
  - induction (records b) as [|[k e] rs IH]; [constructor|]. apply om_wf_cons in Hw as [H1 H2].
    constructor; [by apply IH|exact H2].
  - intros x y Hxy Hy. sbool. apply str_ltb_lt. by eapply str_lt_trans.
Qed.

(** A filter that denies none of the table's keys. *)
Definition bloom_ok (bloom : option BloomFilter) : Prop :=
  match bloom with
  | None => True
  | Some f => forall key e, om_find key entries = Some e -> may_contain key f = true
  end.

Lemma bloom_denies_ok path normal bloom key st :
  bloom_ok bloom -> state_ok normal st ->
  exists d st', bloom_denies (reader_of path normal bloom) key st = (Ok d, st') /\ state_ok normal st' /\
    (d = true -> om_find key entries = None).
Proof.
  intros Hb Hs. unfold bloom_denies. cbn [bloom_filter_ reader_of]. destruct bloom as [f|].
  - eexists _, _. split; [done|]. split; [exact Hs|]. intros Hd. zbool.
    destruct (om_find key entries) eqn:E; [|done]. simpl in Hb. by rewrite (Hb _ _ E) in Hd.
  - exists false, st. by split_and!.
Qed.

Lemma sst_get_ok path normal bloom key st :
  bloom_ok bloom -> state_ok normal st -> valid_key key ->
  exists st', sst_get (reader_of path normal bloom) key st = (Ok (om_find key entries), st') /\
    state_ok normal st'.
Proof.
  intros Hbl Hs Hk. unfold sst_get, mbind, stm_bind, slift. rewrite validate_key_ok by done.
  cbn [metadata_ md_smallest_key md_largest_key rd_index reader_of].
  pose proof (gt_blocks _ _ _ G) as B. pose proof B as [Hc Hn Hso Hw].
  destruct (_ || _) eqn:Erange.
  { exists st. split; [|done]. unfold mret, stm_ret. do 2 f_equal. symmetry. apply om_find_None_lt.
    intros r Hr Ek. apply orb_true_iff in Erange as [E|E]; sbool; apply (str_lt_irrefl key).
    - eapply str_lt_le_trans; [exact E|]. rewrite <- Ek. by apply (first_key_le (mkDataBlock entries)).
    - eapply str_le_lt_trans; [|exact E]. rewrite <- Ek. by apply (last_key_ge (mkDataBlock entries)). }
  rewrite lower_bound_partition by apply index_partitioned.
  rewrite index_search. set (i := partition_point _ index).
  destruct (index !! i) as [e|] eqn:Ei.
  2:{ exists st. split; [|done]. unfold mret, stm_ret. do 2 f_equal. destruct (bs !! i) eqn:Eb; [|done].
      apply lookup_ge_None in Ei. apply lookup_lt_Some in Eb.
      pose proof (index_of_length bs kHeaderSize) as Hl. fold index in Hl. unfold zlen in Hl. lia. }
  pose proof Ei as Ei'. apply index_of_lookup in Ei' as (b & Hb & ->). cbn [ie_first_key]. rewrite Hb.
  assert (Hwf : om_wf (records b)).
  { eapply blocks_of_sorted; [exact B|]. by eapply list_elem_of_lookup_2. }
  destruct (str_ltb key (first_key b)) eqn:Ef.
  { exists st. split; [|done]. unfold mret, stm_ret. do 2 f_equal. symmetry. apply om_find_None_lt.
    intros r Hr Ek. sbool. apply (str_lt_irrefl key). eapply str_lt_le_trans; [exact Ef|]. rewrite <- Ek.
    by apply first_key_le. }
  destruct (bloom_denies_ok path normal bloom key st Hbl Hs) as (d & st1 & -> & Hs1 & Hd).
  destruct d.
  { exists st1. split; [|done]. unfold mret, stm_ret. do 2 f_equal. symmetry.
    rewrite <- Hd by done. rewrite index_search. fold i. by rewrite Hb. }
  destruct (read_data_block_ok path normal bloom i _ b st1 Hs1 Ei Hb) as (st2 & -> & Hs2).
  exists st2. split; [|done]. rewrite lower_bound_partition by by apply block_partitioned.
  rewrite block_search by done. destruct (records b !! _) as [r|]; [|done]. by destruct (negb _).
Qed.

Lemma read_blocks_ok path normal bloom n acc st :
  state_ok normal st ->
  exists st', read_blocks (reader_of path normal bloom) (drop n index) acc st
    = (Ok (acc ++ block_records (drop n bs)), st') /\ state_ok normal st'.
Proof.
  intros Hs. remember (length bs - n)%nat as m eqn:Em. revert n acc st Hs Em.
  assert (Hlen : length index = length bs).
  { pose proof (index_of_length bs kHeaderSize) as Hl. fold index in Hl. unfold zlen in Hl. lia. }
  induction m as [|m IH]; intros n acc st Hs Em.
  - rewrite !drop_ge by lia. simpl. rewrite app_nil_r. by exists st.
  - assert (Hi : (n < length bs)%nat) by lia.
    destruct (lookup_lt_is_Some_2 bs n Hi) as [b Hb].
    destruct (lookup_lt_is_Some_2 index n) as [e He]; [lia|].
    rewrite (drop_S _ _ _ He), (drop_S _ _ _ Hb). cbn [read_blocks]. unfold mbind, stm_bind.
    destruct (read_data_block_ok path normal bloom n e b st Hs He Hb) as (st1 & -> & Hs1).
    destruct (IH (S n) (acc ++ records b) st1 Hs1) as (st2 & -> & Hs2); [lia|].
    exists st2. split; [|done]. rewrite <- app_assoc. done.
Qed.

Lemma sst_read_all_ok path normal bloom st :
  state_ok normal st ->
  exists st', sst_read_all (reader_of path normal bloom) st = (Ok entries, st') /\ state_ok normal st'.
Proof.
  intros Hs. unfold sst_read_all, mbind, stm_bind. cbn [rd_index reader_of metadata_ md_entry_count].
  destruct (read_blocks_ok path normal bloom 0 [] st Hs) as (st1 & E & Hs1).
  rewrite !drop_0 in E. rewrite E. rewrite (bo_concat _ _ (gt_blocks _ _ _ G)). cbn [app].
  unfold slift, throw_if. rewrite Z.eqb_refl. by exists st1.
Qed.
End table.

(** ** What a reader guarantees *)

Fixpoint sst_gets (rd : SSTableReader) (keys : list str) : stm RState (list (option Entry)) :=
  match keys with
  | [] => mret []
  | key :: keys' => r ← sst_get rd key; rs ← sst_gets rd keys'; mret (r :: rs)
  end.

(** Nothing is cached under the table's name yet. *)
Definition fresh_state (table_id : str) (st : RState) : Prop :=
  calm (rs_script st) = true /\
  match rs_cache st with
  | Some c => bc_inv c /\ forall kb, kb ∈ bc_abs c -> kb.1.1 <> table_id
  | None => True
  end.

Lemma fresh_state_ok bs table_id st s :
  fresh_state table_id st -> calm s = true -> state_ok bs (fun _ => True) table_id (set_rs_script s st).
Proof.
  intros [Hc Hf] Hs. split; [done|]. simpl. destruct (rs_cache st) as [c|]; [|done]. destruct Hf as [Hi Hf].
  split; [done|]. split; [|done]. intros i e b _ Hin. exfalso. by apply (Hf _ Hin).
Qed.

Lemma sst_gets_ok entries h bs others path normal bloom keys st :
  good_table entries h bs -> bloom_ok entries bloom -> state_ok bs others normal st -> Forall valid_key keys ->
  exists st', sst_gets (reader_of entries h bs path normal bloom) keys st
    = (Ok ((fun k => om_find k entries) <$> keys), st') /\ state_ok bs others normal st'.
Proof.
  intros G Hb. revert st. induction keys as [|key keys IH]; intros st Hs Hk; [by exists st|].
  apply Forall_cons in Hk as [Hk1 Hk2]. cbn [sst_gets]. unfold mbind, stm_bind.
  destruct (sst_get_ok entries h bs G others path normal bloom key st Hb Hs Hk1) as (st1 & -> & Hs1).
  destruct (IH st1 Hs1 Hk2) as (st2 & -> & Hs2). by exists st2.
Qed.

(** C20: a written table reads back as it was written. Once
    [SSTableWriter::write] has returned, the file opens with the same
    metadata; every sequence of lookups answers exactly the entry of each key
    (tombstones included) or its absence, however the kernel splits the
    reads, with or without a block cache of any capacity shared with other
    tables, and with or without a Bloom filter that knows the keys; and
    reading everything answers the entries in order. *)
Theorem table_write_read entries options f m f' normal bloom st keys :
  writable entries options -> sst_write entries options f = (Ok m, f') ->
  bloom_ok entries bloom -> fresh_state normal st -> Forall valid_key keys ->
  exists rd st1 st2 st3,
    sst_open (output_path options) normal (contents f' (output_path options)) bloom st = (Ok rd, st1) /\
    metadata_ rd = m /\
    sst_gets rd keys st1 = (Ok ((fun k => om_find k entries) <$> keys), st2) /\
    sst_read_all rd st2 = (Ok entries, st3).
Proof.
  intros W Hw Hb Hf Hk. destruct (sst_write_spec entries options W f _ f' Hw) as (lo & hi & E & _ & Hok).
  destruct (Hok m eq_refl) as (-> & Hdir & _). pose proof (writable_good _ _ _ _ W E) as G.
  unfold contents. rewrite Hdir. cbn [fmap option_fmap option_map fd_data].
  destruct (sst_open_ok _ _ _ G (output_path options) normal bloom st) as (s & Ho & Hs);
    [apply W|apply Hf|].
  pose proof (fresh_state_ok (blocks_for entries options) normal st s Hf Hs) as Hs1.
  destruct (sst_gets_ok _ _ _ _ (output_path options) normal bloom keys _ G Hb Hs1 Hk) as (st2 & E2 & Hs2).
  destruct (sst_read_all_ok _ _ _ G _ (output_path options) normal bloom st2 Hs2) as (st3 & E3 & _).
  eexists _, _, st2, st3. split; [exact Ho|]. split; [done|]. split; [exact E2|exact E3].
Qed.

(** Three entries in two blocks, a filter, and a cache too small for both. *)
Lemma table_write_read_witness :
  exists m f' rd st1 st2,
    sst_write demo_entries demo_options (empty_fs []) = (Ok m, f') /\
    sst_open (bytes_of "l0.sst") (bytes_of "l0.sst") (contents f' (bytes_of "l0.sst"))
      (Some (bf_add_all [bytes_of "a"; bytes_of "b"; bytes_of "c"] (mkBloomFilter [0; 0] 128 7 0)))
      (mkRState [Done 7; Interrupted; Done 9] (Some (empty_cache 200)) 0 0) = (Ok rd, st1) /\
    sst_gets rd [bytes_of "c"; bytes_of "b"; bytes_of "bb"] st1
    = (Ok [Some (mkEntry (bytes_of "3") 8 false); Some (mkEntry [] 9 true); None], st2).
Proof.
  assert (Hr : is_Ok (sst_write demo_entries demo_options (empty_fs [])).1 = true) by (vm_compute; reflexivity).
  destruct (sst_write demo_entries demo_options (empty_fs [])) as [[m|ex] f'] eqn:E; [|discriminate Hr].
  clear Hr. exists m, f'.
  destruct (table_write_read demo_entries demo_options (empty_fs []) m f' (bytes_of "l0.sst")
    (Some (bf_add_all [bytes_of "a"; bytes_of "b"; bytes_of "c"] (mkBloomFilter [0; 0] 128 7 0)))
    (mkRState [Done 7; Interrupted; Done 9] (Some (empty_cache 200)) 0 0)
    [bytes_of "c"; bytes_of "b"; bytes_of "bb"]) as (rd & st1 & st2 & st3 & H1 & _ & H2 & _).
  - exact demo_writable.
  - exact E.
  - intros key e H. unfold demo_entries in H. cbn [om_find] in H.
    repeat (match type of H with context [str_eqb key ?k] => destruct (str_eqb key k) eqn:? end;
            [match goal with K : str_eqb key _ = true |- _ => apply str_eqb_eq in K; subst key end;
             vm_compute; reflexivity|]). discriminate H.
  - split; [reflexivity|]. split; [apply empty_cache_inv; unfold u64_max; lia|].
    intros kb Hkb. inversion Hkb.
  - repeat constructor; apply (bool_decide_unpack _); vm_compute; exact I.
  - exists rd, st1, st2. split; [reflexivity|]. split; [exact H1|exact H2].
Defined.
