(* ===== verification/Manifest.v ===== *)
(** * The manifest

    src/manifest.cpp: a manifest lists the tables of the store; the file
    CURRENT names the manifest in force.  Both are written whole to a temporary
    file and renamed into place, the manifest first.  [load] reads the files of
    the directory, given as a map from paths to bytes: a stream that fails to
    open is a file that is absent. *)

From S2P Require Import Prelude OrderedMap Codec Checksum Posix FileSystem Path Store SstFormat SstWriter.

(** ** The files *)

Definition kManifestMagic : str := bytes_of "NBLMAN01".
Definition kCurrentMagic : str := bytes_of "NBLCUR01".
Definition kManifestVersion : Z := 1.
Definition kMaximumMetadataFileBytes : Z := 64 * 1024 * 1024.
Definition kMaximumManifestTables : Z := Z.shiftl 1 20.
Definition kMaximumFilenameBytes : Z := 4096.

Record ManifestSnapshot := mkManifest {
  mf_generation : Z;
  mf_next_file_id : Z;
  mf_tables : list SSTableMetadata
}.

(** *** The decoder *)

Definition truncated : exn := RuntimeError "metadata file is truncated".

Definition read_uint8 : dec Z := dec_uint truncated 1.
Definition read_uint16 : dec Z := dec_uint truncated 2.
Definition read_uint32 : dec Z := dec_uint truncated 4.
Definition read_uint64 : dec Z := dec_uint truncated 8.
Definition read_string (size : Z) : dec str := dec_string truncated size.

Definition expect_magic (magic : str) : dec unit :=
  _ ← dec_require truncated (zlen magic);
  bs ← dec_take (zlen magic);
  dec_throw_if (negb (bool_decide (bs = magic))) (RuntimeError "metadata file has an invalid magic value").

(** *** Checksums *)

Definition checked_uint32 (value : Z) (context : string) : result Z :=
  _ ← throw_if (u32_max <? value) (LengthError context);
  mret (u32 value).

Definition append_checksum (bytes : str) : str := bytes ++ le_bytes 4 (crc32 bytes).

Definition verified_payload (bytes : str) : result str :=
  _ ← throw_if (zlen bytes <? 4) (RuntimeError "metadata file is too small");
  let payload_size := zlen bytes - 4 in
  match read_uint32 (mkDecoder (drop (Z.to_nat payload_size) bytes) 0) with
  | Throw e => Throw e
  | Ok (expected, _) =>
      let payload := take (Z.to_nat payload_size) bytes in
      _ ← throw_if (negb (crc32 payload =? expected)) (RuntimeError "metadata checksum mismatch");
      mret payload
  end.

(** Runs a decoder on the payload of a file. *)
Definition run_decoder {A} (p : dec A) (bytes : str) : result A :=
  payload ← verified_payload bytes;
  match p (mkDecoder payload 0) with Ok (a, _) => Ok a | Throw e => Throw e end.

Definition read_file (files : gmap str str) (path : str) : result str :=
  match files !! path with
  | None => Throw (RuntimeError "failed to open metadata file")
  | Some bytes =>
      _ ← throw_if (kMaximumMetadataFileBytes <? zlen bytes)
            (RuntimeError "metadata file exceeds the supported size limit");
      mret bytes
  end.

(** *** Writing *)

Definition manifest_errors : PublishErrors := {|
  pe_create := fun e => SystemError e "failed to create temporary metadata file";
  pe_sync := fun e => SystemError e "failed to fsync metadata file";
  pe_close := fun e => SystemError e "failed to close metadata file";
  pe_open_directory := fun e => SystemError e "failed to open metadata directory for fsync";
  pe_sync_directory := fun e => SystemError e "failed to fsync metadata directory"
|}.

Definition metadata_tmp (path : str) : str := path ++ bytes_of ".tmp".

Definition metadata_write_all (tmp bytes : str) : stm Fs unit :=
  fs_write (fun e => SystemError e "failed to write metadata file")
    (Some (RuntimeError "metadata write returned zero bytes")) tmp bytes.

Definition atomic_write (path bytes : str) : stm Fs unit :=
  publish manifest_errors (metadata_tmp path) path (metadata_write_all (metadata_tmp path) bytes).

(** *** CURRENT *)

Definition serialize_current (manifest_filename : str) : result str :=
  _ ← throw_if (is_nil manifest_filename || (kMaximumFilenameBytes <? zlen manifest_filename))
        (InvalidArgument "manifest filename is invalid");
  size ← checked_uint32 (zlen manifest_filename) "manifest filename is too large";
  mret (append_checksum
          (kCurrentMagic ++ le_bytes 2 kManifestVersion ++ le_bytes 2 0 ++ le_bytes 4 size ++
           manifest_filename)).

Definition manifest_prefix : str := bytes_of "MANIFEST-".

Definition decode_current : dec str :=
  _ ← expect_magic kCurrentMagic;
  version ← read_uint16;
  _ ← dec_throw_if (negb (version =? kManifestVersion))
        (RuntimeError "CURRENT references an unsupported metadata version");
  flags ← read_uint16;
  _ ← dec_throw_if (negb (flags =? 0)) (RuntimeError "CURRENT contains unsupported flags");
  size ← read_uint32;
  _ ← dec_throw_if ((size =? 0) || (kMaximumFilenameBytes <? size))
        (RuntimeError "CURRENT contains an invalid manifest filename length");
  filename ← read_string size;
  end_ ← dec_at_end;
  _ ← dec_throw_if (negb end_) (RuntimeError "CURRENT contains trailing data");
  _ ← dec_throw_if (path_is_absolute filename || path_has_parent_path filename ||
                    negb (starts_with manifest_prefix filename))
        (RuntimeError "CURRENT contains an unsafe manifest filename");
  mret filename.

Definition parse_current (bytes : str) : result str := run_decoder decode_current bytes.

(** *** The list of tables *)

Definition level_code (level : SSTableLevel) : Z :=
  match level with Level0 => 0 | Level1 => 1 end.

(** The loop over the tables. *)
Fixpoint serialize_tables (tables : list SSTableMetadata) (filenames : gset str) (bytes : str) : result str :=
  match tables with
  | [] => mret bytes
  | table :: rest =>
      let filename := path_filename (md_path table) in
      _ ← throw_if (is_nil filename || (kMaximumFilenameBytes <? zlen filename) ||
                    path_is_absolute (md_path table) || path_has_parent_path (md_path table))
            (InvalidArgument "manifest SSTable path must be a filename");
      _ ← throw_if (bool_decide (filename ∈ filenames))
            (InvalidArgument "manifest contains duplicate SSTable filenames");
      _ ← throw_if (is_nil (md_smallest_key table) || is_nil (md_largest_key table) ||
                    str_ltb (md_largest_key table) (md_smallest_key table))
            (InvalidArgument "manifest contains an invalid SSTable key range");
      filename_size ← checked_uint32 (zlen filename) "SSTable filename is too large";
      smallest_size ← checked_uint32 (zlen (md_smallest_key table)) "SSTable smallest key is too large";
      largest_size ← checked_uint32 (zlen (md_largest_key table)) "SSTable largest key is too large";
      serialize_tables rest ({[filename]} ∪ filenames)
        (bytes ++ le_bytes 1 (level_code (md_level table)) ++ le_bytes 1 0 ++ le_bytes 2 0 ++
         le_bytes 8 (md_generation table) ++ le_bytes 8 (md_entry_count table) ++
         le_bytes 4 (md_block_count table) ++ le_bytes 8 (md_min_sequence_number table) ++
         le_bytes 8 (md_max_sequence_number table) ++ le_bytes 4 filename_size ++
         le_bytes 4 smallest_size ++ le_bytes 4 largest_size ++
         filename ++ md_smallest_key table ++ md_largest_key table)
  end.

Definition serialize_manifest (snapshot : ManifestSnapshot) : result str :=
  _ ← throw_if ((mf_generation snapshot =? 0) || (mf_next_file_id snapshot =? 0))
        (InvalidArgument "manifest counters must be non-zero");
  _ ← throw_if (kMaximumManifestTables <? zlen (mf_tables snapshot))
        (LengthError "manifest contains too many SSTables");
  table_count ← checked_uint32 (zlen (mf_tables snapshot)) "manifest table count is too large";
  bytes ← serialize_tables (mf_tables snapshot) ∅
            (kManifestMagic ++ le_bytes 2 kManifestVersion ++ le_bytes 2 0 ++
             le_bytes 8 (mf_generation snapshot) ++ le_bytes 8 (mf_next_file_id snapshot) ++
             le_bytes 4 table_count ++ le_bytes 4 0);
  mret (append_checksum bytes).

Definition decode_level (raw_level : Z) : dec SSTableLevel :=
  if raw_level =? 0 then mret Level0
  else if raw_level =? 1 then mret Level1
  else fun _ => Throw (RuntimeError "manifest contains an unsupported SSTable level").

(** One record: its table and its file name. *)
Definition decode_table (directory : str) (filenames : gset str) : dec (SSTableMetadata * str) :=
  raw_level ← read_uint8;
  flags ← read_uint8;
  _ ← dec_throw_if (negb (flags =? 0)) (RuntimeError "manifest table record contains unsupported flags");
  flags ← read_uint16;
  _ ← dec_throw_if (negb (flags =? 0)) (RuntimeError "manifest table record contains unsupported flags");
  level ← decode_level raw_level;
  generation ← read_uint64;
  entry_count ← read_uint64;
  block_count ← read_uint32;
  min_sequence ← read_uint64;
  max_sequence ← read_uint64;
  filename_size ← read_uint32;
  smallest_size ← read_uint32;
  largest_size ← read_uint32;
  _ ← dec_throw_if ((filename_size =? 0) || (kMaximumFilenameBytes <? filename_size) ||
                    (smallest_size =? 0) || (largest_size =? 0))
        (RuntimeError "manifest contains invalid variable-length fields");
  filename ← read_string filename_size;
  _ ← dec_throw_if (path_is_absolute filename || path_has_parent_path filename ||
                    bool_decide (filename ∈ filenames))
        (RuntimeError "manifest contains an unsafe or duplicate SSTable filename");
  smallest_key ← read_string smallest_size;
  largest_key ← read_string largest_size;
  _ ← dec_throw_if (str_ltb largest_key smallest_key || (entry_count =? 0) || (block_count =? 0) ||
                    (min_sequence =? 0) || (max_sequence <? min_sequence))
        (RuntimeError "manifest contains invalid SSTable metadata");
  mret (mkMetadata (path_join directory filename) generation entry_count block_count min_sequence
          max_sequence smallest_key largest_key level, filename).

Fixpoint decode_tables (directory : str) (table_count : nat) (filenames : gset str)
    (tables : list SSTableMetadata) : dec (list SSTableMetadata) :=
  match table_count with
  | O => mret tables
  | S n =>
      res ← decode_table directory filenames;
      let '(table, filename) := res in
      decode_tables directory n ({[filename]} ∪ filenames) (tables ++ [table])
  end.

Definition decode_manifest (directory : str) : dec ManifestSnapshot :=
  _ ← expect_magic kManifestMagic;
  version ← read_uint16;
  _ ← dec_throw_if (negb (version =? kManifestVersion)) (RuntimeError "manifest uses an unsupported version");
  flags ← read_uint16;
  _ ← dec_throw_if (negb (flags =? 0)) (RuntimeError "manifest contains unsupported flags");
  generation ← read_uint64;
  next_file_id ← read_uint64;
  table_count ← read_uint32;
  flags ← read_uint32;
  _ ← dec_throw_if (negb (flags =? 0)) (RuntimeError "manifest header contains unsupported flags");
  _ ← dec_throw_if ((generation =? 0) || (next_file_id =? 0) || (kMaximumManifestTables <? table_count))
        (RuntimeError "manifest header contains invalid counters");
  tables ← decode_tables directory (Z.to_nat table_count) ∅ [];
  end_ ← dec_at_end;
  _ ← dec_throw_if (negb end_) (RuntimeError "manifest contains trailing data");
  mret (mkManifest generation next_file_id tables).

Definition parse_manifest (bytes directory : str) : result ManifestSnapshot :=
  run_decoder (decode_manifest directory) bytes.

(** ** The manager *)

Record ManifestManager := mkManifestManager {
  directory_ : str;
  active_manifest_path_ : str;
  current_generation_ : Z
}.

Definition current_path_ (m : ManifestManager) : str := path_join (directory_ m) (bytes_of "CURRENT").

Definition manifest_filename (generation : Z) : str := manifest_prefix ++ pad20 generation.

Definition manifest_path (m : ManifestManager) (generation : Z) : str :=
  path_join (directory_ m) (manifest_filename generation).

(** The constructor. *)
Definition new_manifest_manager (directory : str) : stm Fs ManifestManager :=
  _ ← slift (throw_if (is_nil directory) (InvalidArgument "manifest directory must not be empty"));
  _ ← fs_call (fun e => SystemError e "filesystem error: cannot create directories");
  mret (mkManifestManager directory [] 0).

(** A versioned manifest that is not a temporary file. *)
Definition versioned_manifest (path : str) : bool :=
  starts_with manifest_prefix (path_filename path) &&
  negb (bool_decide (path_extension path = bytes_of ".tmp")).

(** The tables the manifest names are there. *)
Definition check_present (files : gmap str str) (tables : list SSTableMetadata) : result unit :=
  throw_if (existsb (fun t => negb (bool_decide (is_Some (files !! md_path t)))) tables)
    (RuntimeError "manifest references a missing SSTable").

Definition load (m : ManifestManager) (files : gmap str str)
    : result (option ManifestSnapshot * ManifestManager) :=
  if negb (bool_decide (is_Some (files !! current_path_ m))) then
    _ ← throw_if (existsb versioned_manifest (map fst (map_to_list files)))
          (RuntimeError "CURRENT is missing while versioned manifests are present");
    mret (None, m)
  else
    bytes ← read_file files (current_path_ m);
    filename ← parse_current bytes;
    let path := path_join (directory_ m) filename in
    _ ← throw_if (negb (bool_decide (is_Some (files !! path))))
          (RuntimeError "CURRENT references a missing manifest");
    bytes ← read_file files path;
    snapshot ← parse_manifest bytes (directory_ m);
    _ ← throw_if (negb (bool_decide (filename = manifest_filename (mf_generation snapshot))))
          (RuntimeError "manifest filename does not match its generation");
    _ ← check_present files (mf_tables snapshot);
    mret (Some snapshot, mkManifestManager (directory_ m) path (mf_generation snapshot)).

(** The paths reduced to their file names. *)
Definition bare (t : SSTableMetadata) : SSTableMetadata :=
  mkMetadata (path_filename (md_path t)) (md_generation t) (md_entry_count t) (md_block_count t)
    (md_min_sequence_number t) (md_max_sequence_number t) (md_smallest_key t) (md_largest_key t) (md_level t).

Definition commit (m : ManifestManager) (tables : list SSTableMetadata) (next_file_id : Z)
    : stm Fs (ManifestSnapshot * ManifestManager) :=
  _ ← slift (throw_if (current_generation_ m =? u64_max)
               (OverflowError "manifest generation space is exhausted"));
  let snapshot := mkManifest (u64 (current_generation_ m + 1)) next_file_id (map bare tables) in
  let path := manifest_path m (mf_generation snapshot) in
  bytes ← slift (serialize_manifest snapshot);
  _ ← atomic_write path bytes;
  current ← slift (serialize_current (path_filename path));
  _ ← atomic_write (current_path_ m) current;
  mret (snapshot, mkManifestManager (directory_ m) path (mf_generation snapshot)).

(** ** Decoding what was encoded *)

Lemma decodes_magic magic : zlen magic <= u64_max -> decodes (expect_magic magic) magic tt.
Proof.
  intros Hm d rest Hd. destruct (decodes_take _ _ eq_refl d rest Hd) as (d' & H1 & H2).
  exists d'. split; [|done]. unfold expect_magic, mbind, dec_bind.
  rewrite (dec_require_ok _ _ _ _ _ Hd eq_refl), H1. by rewrite bool_decide_eq_true_2.
Qed.

Lemma u8_field v : 0 <= v < 256 -> 0 <= v < 256 ^ Z.of_nat 1.
Proof. done. Qed.
Lemma u16_field v : 0 <= v < 65536 -> 0 <= v < 256 ^ Z.of_nat 2.
Proof. done. Qed.

Lemma verified_payload_ok payload :
  zlen payload <= u64_max -> verified_payload (append_checksum payload) = Ok payload.
Proof.
  intros Hp. unfold verified_payload, append_checksum.
  assert (Hl : zlen (payload ++ le_bytes 4 (crc32 payload)) = zlen payload + 4)
    by by rewrite zlen_app, le_bytes_zlen.
  pose proof (zlen_nonneg payload). rewrite Hl. rewrite throw_if_false by (apply Z.ltb_ge; lia).
  mred. replace (zlen payload + 4 - 4) with (zlen payload) by lia. rewrite to_nat_zlen.
  rewrite drop_app_length, take_app_length.
  unfold read_uint32.
  destruct (decodes_uint truncated 4 (crc32 payload)) with (d := mkDecoder (le_bytes 4 (crc32 payload)) 0) (rest := @nil byte)
    as (d' & -> & _).
  - apply u32_field, crc32_is_u32.
  - rewrite app_nil_r. exists []. split_and!; [done..|]. simpl. rewrite le_bytes_zlen. unfold u64_max. lia.
  - by rewrite Z.eqb_refl.
Qed.

Lemma run_decoder_ok {A} (p : dec A) payload a :
  zlen payload <= u64_max ->
  (forall d, dec_at d payload -> exists d', p d = Ok (a, d')) ->
  run_decoder p (append_checksum payload) = Ok a.
Proof.
  intros Hl Hp. unfold run_decoder. rewrite verified_payload_ok by done. mred.
  destruct (Hp (mkDecoder payload 0)) as (d' & ->); [by exists []|done].
Qed.

(** One step of a decoder at a known position. *)
Lemma dec_step {A B} (p : dec A) (f : A -> dec B) bs rest a d r :
  decodes p bs a -> dec_at d (bs ++ rest) ->
  (forall d', dec_at d' rest -> exists d'', f a d' = Ok (r, d'')) ->
  exists d'', (p ≫= f) d = Ok (r, d'').
Proof.
  intros Hp Hd Hf. destruct (Hp d rest Hd) as (d' & H1 & H2). destruct (Hf d' H2) as (d'' & H3).
  exists d''. unfold mbind, dec_bind. by rewrite H1.
Qed.

Lemma dec_guard {B} b e (f : unit -> dec B) d r :
  b = false -> (exists d', f tt d = Ok (r, d')) -> exists d', (dec_throw_if b e ≫= f) d = Ok (r, d').
Proof. by intros -> [d' H]; exists d'. Qed.

(** A field read back. *)
Ltac dec_field :=
  match goal with
  | |- exists d, (dec_throw_if _ _ ≫= _) _ = _ => apply dec_guard; [|]
  | H : dec_at ?d ?bs |- exists d', (_ ≫= _) ?d = _ =>
      eapply dec_step; [|exact H|clear H; let d' := fresh "d" in let H' := fresh "Hd" in intros d' H'];
      [first [apply decodes_magic; vm_compute; congruence
             |apply decodes_uint; first [by apply u64_field|by apply u32_field|vm_compute; split; congruence]
             |apply decodes_string; done]|]
  end.

(** ** CURRENT *)

(** A file name that CURRENT accepts. *)
Definition manifest_name_ok (n : str) : Prop :=
  0 < zlen n <= kMaximumFilenameBytes /\ path_has_parent_path n = false /\
  starts_with manifest_prefix n = true.

Definition current_payload (n : str) : str :=
  kCurrentMagic ++ le_bytes 2 kManifestVersion ++ le_bytes 2 0 ++ le_bytes 4 (zlen n) ++ n.

Lemma serialize_current_ok n :
  manifest_name_ok n -> serialize_current n = Ok (append_checksum (current_payload n)).
Proof.
  intros ((H1 & H2) & _). unfold serialize_current, checked_uint32. unfold kMaximumFilenameBytes in *.
  assert (is_nil n = false) as -> by by destruct n.
  rewrite !throw_if_false by (cbn [orb]; apply Z.ltb_ge; unfold u32_max, kMaximumFilenameBytes; lia). mred.
  rewrite u32_id by (unfold u32_max; lia). done.
Qed.

Lemma parse_current_ok n : manifest_name_ok n -> parse_current (append_checksum (current_payload n)) = Ok n.
Proof.
  intros ((H1 & H2) & H3 & H4). unfold kMaximumFilenameBytes in *.
  assert (Hn : is_u32 (zlen n)) by (unfold is_u32, u32_max; lia).
  apply run_decoder_ok.
  { unfold current_payload. rewrite !zlen_app, !le_bytes_zlen. change (zlen kCurrentMagic) with 8.
    unfold u64_max. lia. }
  intros d Hd. unfold current_payload in Hd. unfold decode_current. dec_field. dec_field.
  dec_field; [done|]. dec_field. dec_field; [done|]. dec_field.
  dec_field; [apply orb_false_iff; split; [apply Z.eqb_neq; lia|apply Z.ltb_ge; unfold kMaximumFilenameBytes; lia]|].
  rewrite <- (app_nil_r n) in Hd. dec_field. unfold mbind at 1, dec_bind at 1. rewrite (dec_at_end_ok _ Hd).
  dec_field; [done|]. dec_field; [by rewrite no_parent_relative, H3, H4|]. by eexists.
Qed.

(** ** The list of tables *)

(** What a record of the manifest must satisfy to be read back; the path is a
    bare file name. *)
Record table_wf (t : SSTableMetadata) : Prop := {
  tw_name : 0 < zlen (md_path t) <= kMaximumFilenameBytes;
  tw_bare : path_has_parent_path (md_path t) = false;
  tw_smallest : 0 < zlen (md_smallest_key t) <= u32_max;
  tw_largest : 0 < zlen (md_largest_key t) <= u32_max;
  tw_range : str_le (md_smallest_key t) (md_largest_key t);
  tw_generation : is_u64 (md_generation t);
  tw_entries : is_u64 (md_entry_count t) /\ md_entry_count t <> 0;
  tw_blocks : is_u32 (md_block_count t) /\ md_block_count t <> 0;
  tw_min : is_u64 (md_min_sequence_number t) /\ md_min_sequence_number t <> 0;
  tw_max : is_u64 (md_max_sequence_number t) /\ md_min_sequence_number t <= md_max_sequence_number t
}.

Record snapshot_wf (s : ManifestSnapshot) : Prop := {
  sw_generation : is_u64 (mf_generation s) /\ mf_generation s <> 0;
  sw_next : is_u64 (mf_next_file_id s) /\ mf_next_file_id s <> 0;
  sw_count : zlen (mf_tables s) <= kMaximumManifestTables;
  sw_tables : Forall table_wf (mf_tables s);
  sw_nodup : NoDup (map md_path (mf_tables s))
}.

Definition enc_table (t : SSTableMetadata) : str :=
  le_bytes 1 (level_code (md_level t)) ++ le_bytes 1 0 ++ le_bytes 2 0 ++
  le_bytes 8 (md_generation t) ++ le_bytes 8 (md_entry_count t) ++ le_bytes 4 (md_block_count t) ++
  le_bytes 8 (md_min_sequence_number t) ++ le_bytes 8 (md_max_sequence_number t) ++
  le_bytes 4 (zlen (md_path t)) ++ le_bytes 4 (zlen (md_smallest_key t)) ++
  le_bytes 4 (zlen (md_largest_key t)) ++ md_path t ++ md_smallest_key t ++ md_largest_key t.

Definition enc_tables (ts : list SSTableMetadata) : str := concat (map enc_table ts).

Definition manifest_payload (s : ManifestSnapshot) : str :=
  (kManifestMagic ++ le_bytes 2 kManifestVersion ++ le_bytes 2 0 ++ le_bytes 8 (mf_generation s) ++
   le_bytes 8 (mf_next_file_id s) ++ le_bytes 4 (zlen (mf_tables s)) ++ le_bytes 4 0) ++
  enc_tables (mf_tables s).

(** The table as it is found in [directory]. *)
Definition placed (directory : str) (t : SSTableMetadata) : SSTableMetadata :=
  mkMetadata (path_join directory (md_path t)) (md_generation t) (md_entry_count t) (md_block_count t)
    (md_min_sequence_number t) (md_max_sequence_number t) (md_smallest_key t) (md_largest_key t) (md_level t).

Definition placed_snapshot (directory : str) (s : ManifestSnapshot) : ManifestSnapshot :=
  mkManifest (mf_generation s) (mf_next_file_id s) (map (placed directory) (mf_tables s)).

Lemma checked_uint32_ok v c : 0 <= v <= u32_max -> checked_uint32 v c = Ok v.
Proof.
  intros H. unfold checked_uint32. rewrite throw_if_false by (apply Z.ltb_ge; lia). mred. by rewrite u32_id.
Qed.

Lemma zlen_pos_nil (s : str) : 0 < zlen s -> is_nil s = false.
Proof. by destruct s. Qed.

Lemma serialize_tables_ok ts names bs :
  Forall table_wf ts -> NoDup (map md_path ts) -> (forall t, t ∈ ts -> md_path t ∉ names) ->
  serialize_tables ts names bs = Ok (bs ++ enc_tables ts).
Proof.
  revert names bs. induction ts as [|t ts IH]; intros names bs Hwf Hnd Hn.
  { unfold enc_tables. simpl. by rewrite app_nil_r. }
  apply Forall_cons in Hwf as [Ht Hwf]. cbn [map] in Hnd. apply NoDup_cons in Hnd as [Hnot Hnd].
  destruct Ht. unfold kMaximumFilenameBytes in *. cbn [serialize_tables].
  rewrite path_filename_bare by done.
  rewrite (throw_if_false (is_nil (md_path t) || _ || _ || _)).
  2:{ rewrite zlen_pos_nil, tw_bare0, no_parent_relative by (done || lia). cbn [orb].
      rewrite !orb_false_r. apply Z.ltb_ge. unfold kMaximumFilenameBytes. lia. }
  rewrite (throw_if_false (bool_decide _)) by (apply bool_decide_eq_false_2, Hn; by left).
  rewrite (throw_if_false (is_nil _ || _ || _)).
  2:{ rewrite !zlen_pos_nil by lia. cbn [orb]. by apply str_ltb_ge. }
  rewrite !checked_uint32_ok by (unfold u32_max in *; lia). mred. rewrite IH.
  - unfold enc_tables, enc_table. cbn [map concat]. by rewrite <- !app_assoc.
  - done.
  - done.
  - intros t' Ht'. rewrite not_elem_of_union, not_elem_of_singleton. split.
    + intros E. apply Hnot. rewrite <- E. apply list_elem_of_In, in_map. by apply list_elem_of_In.
    + apply Hn. by right.
Qed.

Lemma serialize_manifest_ok s :
  snapshot_wf s -> serialize_manifest s = Ok (append_checksum (manifest_payload s)).
Proof.
  intros []. unfold serialize_manifest. pose proof (zlen_nonneg (mf_tables s)).
  rewrite (throw_if_false (_ || _)) by (apply orb_false_iff; split; apply Z.eqb_neq; tauto).
  rewrite throw_if_false by (by apply Z.ltb_ge).
  rewrite checked_uint32_ok by (change kMaximumManifestTables with 1048576 in *; unfold u32_max; lia). mred.
  by rewrite serialize_tables_ok by (try done; intros t _; apply not_elem_of_empty).
Qed.

Lemma decode_table_ok directory names t d rest :
  table_wf t -> md_path t ∉ names -> dec_at d (enc_table t ++ rest) ->
  exists d', decode_table directory names d = Ok ((placed directory t, md_path t), d') /\ dec_at d' rest.
Proof.
  intros [] Hn Hd. unfold kMaximumFilenameBytes in *.
  cut (decodes (decode_table directory names) (enc_table t) (placed directory t, md_path t)); [intros H; by apply H|].
  clear d Hd rest. unfold decode_table, enc_table. destruct tw_entries0, tw_blocks0, tw_min0, tw_max0.
  assert (U : forall z, 0 < z <= u32_max -> 0 <= z < 256 ^ Z.of_nat 4) by (intros; apply u32_field; split; lia).
  eapply decodes_bind; [apply (decodes_uint _ 1 (level_code (md_level t))); by destruct (md_level t)|].
  eapply decodes_bind; [by apply (decodes_uint _ 1 0)|].
  eapply decodes_bind_nil; [by apply decodes_throw_if|].
  eapply decodes_bind; [by apply (decodes_uint _ 2 0)|].
  eapply decodes_bind_nil; [by apply decodes_throw_if|].
  eapply decodes_bind_nil with (a := md_level t).
  { destruct (md_level t); simpl; apply decodes_ret. }
  eapply decodes_bind; [apply decodes_uint; by apply u64_field|].
  eapply decodes_bind; [apply decodes_uint; by apply u64_field|].
  eapply decodes_bind; [apply decodes_uint; by apply u32_field|].
  eapply decodes_bind; [apply decodes_uint; by apply u64_field|].
  eapply decodes_bind; [apply decodes_uint; by apply u64_field|].
  eapply decodes_bind; [apply decodes_uint, U; unfold u32_max; lia|].
  eapply decodes_bind; [apply decodes_uint, U; done|].
  eapply decodes_bind; [apply decodes_uint, U; done|].
  eapply decodes_bind_nil; [apply decodes_throw_if|].
  { unfold kMaximumFilenameBytes. zdecide. done. }
  eapply decodes_bind; [by apply decodes_string|].
  eapply decodes_bind_nil; [apply decodes_throw_if|].
  { rewrite tw_bare0, no_parent_relative by done. by apply bool_decide_eq_false_2. }
  eapply decodes_bind; [by apply decodes_string|].
  eapply decodes_bind_last; [by apply decodes_string|].
  eapply decodes_bind_nil; [apply decodes_throw_if|apply decodes_ret].
  rewrite (proj2 (str_ltb_ge _ _)) by done. zdecide. done.
Qed.

Lemma decode_tables_ok directory ts names acc d rest :
  Forall table_wf ts -> NoDup (map md_path ts) -> (forall t, t ∈ ts -> md_path t ∉ names) ->
  dec_at d (enc_tables ts ++ rest) ->
  exists d', decode_tables directory (length ts) names acc d = Ok (acc ++ map (placed directory) ts, d') /\
    dec_at d' rest.
Proof.
  revert names acc d. induction ts as [|t ts IH]; intros names acc d Hwf Hnd Hn Hd.
  { exists d. cbn [length decode_tables map]. by rewrite app_nil_r. }
  apply Forall_cons in Hwf as [Ht Hwf]. cbn [map] in Hnd. apply NoDup_cons in Hnd as [Hnot Hnd].
  unfold enc_tables in Hd. cbn [map concat] in Hd. rewrite <- app_assoc in Hd.
  destruct (decode_table_ok directory names t d _ Ht (Hn t ltac:(by left)) Hd) as (d1 & E1 & Hd1).
  cbn [length decode_tables map]. unfold mbind, dec_bind. rewrite E1.
  destruct (IH ({[md_path t]} ∪ names) (acc ++ [placed directory t]) d1 Hwf Hnd) as (d2 & E2 & Hd2); [|done|].
  - intros t' Ht'. rewrite not_elem_of_union, not_elem_of_singleton. split.
    + intros E. apply Hnot. rewrite <- E. apply list_elem_of_In, in_map. by apply list_elem_of_In.
    + apply Hn. by right.
  - exists d2. by rewrite E2, <- app_assoc.
Qed.

Lemma parse_manifest_ok s directory :
  snapshot_wf s -> zlen (manifest_payload s) <= u64_max ->
  parse_manifest (append_checksum (manifest_payload s)) directory = Ok (placed_snapshot directory s).
Proof.
  intros [] Hl. apply run_decoder_ok; [done|]. intros d Hd. unfold manifest_payload in Hd.
  pose proof (zlen_nonneg (mf_tables s)). change kMaximumManifestTables with 1048576 in *.
  assert (is_u32 (zlen (mf_tables s))) by (split; unfold u32_max; lia).
  destruct sw_generation0, sw_next0. unfold decode_manifest. rewrite <- !app_assoc in Hd.
  dec_field. dec_field. dec_field; [done|]. dec_field. dec_field; [done|].
  do 4 dec_field. dec_field; [done|].
  dec_field. { change kMaximumManifestTables with 1048576. zdecide. done. }
  rewrite to_nat_zlen. rewrite <- (app_nil_r (enc_tables _)) in Hd.
  match type of Hd with dec_at ?d0 _ =>
    destruct (decode_tables_ok directory (mf_tables s) ∅ [] d0 []) as (d' & E & Hd'); try done end.
  unfold mbind at 1, dec_bind at 1. rewrite E. unfold mbind at 1, dec_bind at 1. rewrite (dec_at_end_ok _ Hd').
  dec_field; [done|]. by eexists.
Qed.

(** ** Only what is written is accepted *)

Lemma expect_magic_inv magic d all u d' :
  dec_at d all -> expect_magic magic d = Ok (u, d') -> exists rest, all = magic ++ rest /\ dec_at d' rest.
Proof.
  intros Hd ([] & d1 & H1 & (bs & d2 & H2 & H3)%dec_bind_inv)%dec_bind_inv.
  destruct (dec_require_inv _ _ _ _ _ _ Hd (zlen_nonneg _) H1) as [-> Hl].
  destruct (dec_take_inv _ _ _ _ _ Hd Hl H2) as (rest & -> & Hz & Hd2).
  unfold dec_throw_if in H3. break_if; [done|]. injection H3 as <- <-. zbool. apply bool_decide_eq_true in Heqb as ->.
  by exists rest.
Qed.

Lemma verified_payload_inv bytes payload :
  verified_payload bytes = Ok payload -> bytes = append_checksum payload.
Proof.
  unfold verified_payload. intros H. inv_ok. zbool.
  set (n := Z.to_nat (zlen bytes - 4)) in *.
  destruct (read_uint32 _) as [[v d']|] eqn:E1; [|done]. inv_ok. zbool. 
  assert (Hl : zlen (drop n bytes) = 4) by (unfold n, zlen in *; rewrite length_drop; lia).
  apply (dec_uint_inv 4 _ (drop n bytes)) in E1 as (rest & E1 & _ & _).
  2:{ exists []. split_and!; [done..|]. simpl. rewrite Hl. unfold u64_max. lia. }
  assert (rest = []) as ->.
  { apply zlen_0. rewrite E1, zlen_app, le_bytes_zlen in Hl. lia. }
  unfold append_checksum. rewrite app_nil_r in E1. rewrite <- (take_drop n bytes) at 1. rewrite E1. by f_equal; f_equal.
Qed.

Lemma run_decoder_inv {A} (p : dec A) bytes a :
  zlen bytes <= u64_max -> run_decoder p bytes = Ok a ->
  exists payload d d', bytes = append_checksum payload /\ dec_at d payload /\ p d = Ok (a, d').
Proof.
  intros Hl H. unfold run_decoder in H. inv_ok. apply verified_payload_inv in E as ->.
  destruct (p _) as [[a' d']|] eqn:Ep; [|done]. inv_ok. exists x, (mkDecoder x 0), d'. split_and!; [done| |done].
  exists []. split_and!; [done..|]. simpl. unfold append_checksum in Hl. rewrite zlen_app, le_bytes_zlen in Hl. lia.
Qed.

(** Opens a successful run of a decoder, one step at a time. *)
Ltac dec_inv :=
  match goal with
  | H : (_ ≫= _) ?d = Ok (_, _) |- _ =>
      let a := fresh "v" in let d1 := fresh "d" in let E := fresh "E" in
      apply dec_bind_inv in H; destruct H as (a & d1 & E & H)
  end;
  match goal with
  | E : dec_throw_if _ _ _ = Ok _ |- _ => apply dec_throw_if_inv in E as [? ->]
  | Hd : dec_at ?d _, E : expect_magic _ ?d = Ok _ |- _ =>
      apply (expect_magic_inv _ _ _ _ _ Hd) in E; clear Hd; destruct E as (? & -> & Hd)
  | Hd : dec_at ?d _, E : _ ?d = Ok _ |- _ =>
      apply (dec_uint_inv _ _ _ _ _ Hd) in E; clear Hd; destruct E as (? & -> & ? & Hd)
  | Hd : dec_at ?d _, E : read_string _ ?d = Ok _ |- _ =>
      apply (dec_string_inv _ _ _ _ _ Hd) in E; [|lia]; clear Hd; destruct E as (? & -> & ? & Hd)
  end.

Lemma decode_level_inv raw d level d' :
  decode_level raw d = Ok (level, d') -> d' = d /\ raw = level_code level.
Proof.
  unfold decode_level, mret, dec_ret. intros H. by repeat break_if; zbool; simplify_eq.
Qed.

Lemma decode_table_inv directory names d all t n d' :
  dec_at d all -> decode_table directory names d = Ok ((t, n), d') ->
  exists t0 rest, table_wf t0 /\ n = md_path t0 /\ (n ∉ names) /\ t = placed directory t0 /\
    all = enc_table t0 ++ rest /\ dec_at d' rest.
Proof.
  intros Hd H. unfold decode_table in H. do 5 dec_inv.
  apply dec_bind_inv in H as (level & d6 & E & H).
  apply decode_level_inv in E as [-> ->]. do 14 dec_inv. unfold mret, dec_ret in H. simplify_eq. zbool.
  repeat match goal with H : _ = false \/ _ = false |- _ => clear H end.
  sbool. repeat match goal with H : bool_decide _ = false |- _ => apply bool_decide_eq_false in H end.
match goal with
  | |- context [mkMetadata (path_join directory ?f) ?g ?e ?b ?lo ?hi ?s ?l ?lv] =>
      exists (mkMetadata f g e b lo hi s l lv)
  end.
  eexists. split; [|split_and!; [done..| |done]].
  - change (256 ^ Z.of_nat 4) with (u32_max + 1) in *. change (256 ^ Z.of_nat 8) with (u64_max + 1) in *.
    split; simpl; try done; unfold is_u64, is_u32; lia.
  - unfold enc_table. simpl. subst. by rewrite <- !app_assoc.
Qed.

Lemma decode_tables_inv directory k names acc d all ts d' :
  dec_at d all -> decode_tables directory k names acc d = Ok (ts, d') ->
  exists ts0 rest, length ts0 = k /\ Forall table_wf ts0 /\ NoDup (map md_path ts0) /\
    (forall t, t ∈ ts0 -> md_path t ∉ names) /\ ts = acc ++ map (placed directory) ts0 /\
    all = enc_tables ts0 ++ rest /\ dec_at d' rest.
Proof.
  revert names acc d all. induction k as [|k IH]; intros names acc d all Hd H.
  { injection H as <- <-. exists [], all. rewrite app_nil_r. split_and!; try done; [constructor|].
    intros t Ht. by apply not_elem_of_nil in Ht. }
  cbn [decode_tables] in H. apply dec_bind_inv in H as ([t n] & d1 & E & H).
  destruct (decode_table_inv _ _ _ _ _ _ _ Hd E) as (t0 & rest & Hwf & -> & Hn & -> & -> & Hd1).
  destruct (IH _ _ _ _ Hd1 H) as (ts0 & rest' & Hlen & Hwfs & Hnd & Hns & -> & -> & Hd').
  exists (t0 :: ts0), rest'. split_and!.
  - by rewrite <- Hlen.
  - by constructor.
  - cbn [map]. constructor; [|done]. intros (t' & Ht' & Hin%list_elem_of_In)%list_elem_of_In%in_map_iff.
    apply (Hns t' Hin). rewrite Ht'. set_solver.
  - intros t' [->|Hin]%elem_of_cons; [done|]. specialize (Hns t' Hin). set_solver.
  - by rewrite <- app_assoc.
  - unfold enc_tables. cbn [map concat]. by rewrite <- app_assoc.
  - done.
Qed.

Lemma parse_manifest_inv bytes directory s :
  zlen bytes <= u64_max -> parse_manifest bytes directory = Ok s ->
  exists s0, snapshot_wf s0 /\ bytes = append_checksum (manifest_payload s0) /\
    s = placed_snapshot directory s0.
Proof.
  intros Hl (payload & d & d' & -> & Hd & H)%run_decoder_inv; [|done]. unfold decode_manifest in H.
  do 11 dec_inv. apply dec_bind_inv in H as (ts & d9 & E & H).
  destruct (decode_tables_inv _ _ _ _ _ _ _ _ Hd E) as (ts0 & rest & Hlen & Hwf & Hnd & _ & -> & -> & Hd9).
  apply dec_bind_inv in H as (b & d10 & E2 & H). dec_inv. unfold mret, dec_ret in H. simplify_eq. zbool. subst.
  injection E2 as E2 <-. apply Z.eqb_eq in E2. 
  assert (rest = []) as -> by (apply (dec_at_end_inv d9); [done|unfold dec_at_end; by rewrite E2, Z.eqb_refl]).
  match goal with |- exists _, _ /\ _ /\ mkManifest ?g ?n _ = _ => exists (mkManifest g n ts0) end.
  change (256 ^ Z.of_nat 4) with (u32_max + 1) in *. change (256 ^ Z.of_nat 8) with (u64_max + 1) in *.
  assert (Hz : zlen ts0 = v6) by (unfold zlen; lia).
  split_and!; [split; simpl; try done; unfold is_u64, is_u32; lia| |done].
  unfold manifest_payload. cbn [mf_generation mf_next_file_id mf_tables].
  rewrite Hz, app_nil_r, <- !app_assoc. done.
Qed.

(** ** Loading *)

Definition fresh_manager (directory : str) : ManifestManager := mkManifestManager directory [] 0.

(** The files hold the snapshot [s]: CURRENT names its manifest, which lists
    it, and its tables are there. *)
Record holds_snapshot (directory : str) (files : gmap str str) (s : ManifestSnapshot) (cb pb : str) : Prop := {
  hs_current : files !! path_join directory (bytes_of "CURRENT") = Some cb;
  hs_current_size : zlen cb <= kMaximumMetadataFileBytes;
  hs_current_parse : parse_current cb = Ok (manifest_filename (mf_generation s));
  hs_manifest : files !! path_join directory (manifest_filename (mf_generation s)) = Some pb;
  hs_manifest_size : zlen pb <= kMaximumMetadataFileBytes;
  hs_manifest_parse : parse_manifest pb directory = Ok s;
  hs_tables : forall t, t ∈ mf_tables s -> is_Some (files !! md_path t)
}.

Lemma check_present_iff files ts u :
  check_present files ts = Ok u <-> forall t, t ∈ ts -> is_Some (files !! md_path t).
Proof.
  unfold check_present. destruct u. split.
  - intros H%throw_if_Ok t Ht. destruct (decide (is_Some (files !! md_path t))) as [|Hn]; [done|].
    apply not_true_iff_false in H. destruct H. apply existsb_exists. exists t.
    split; [by apply list_elem_of_In|]. by rewrite bool_decide_eq_false_2.
  - intros H. apply throw_if_false, not_true_iff_false. intros (t & Hin%list_elem_of_In & Hb)%existsb_exists.
    zbool. apply bool_decide_eq_false in Hb. by apply Hb, H.
Qed.

Lemma read_file_iff files path bs :
  read_file files path = Ok bs <-> files !! path = Some bs /\ zlen bs <= kMaximumMetadataFileBytes.
Proof.
  unfold read_file. destruct (files !! path) as [b|]; [|split; [done|by intros []]]. split.
  - intros H. inv_ok. zbool. done.
  - intros [[= ->] H]. rewrite throw_if_false by by apply Z.ltb_ge. done.
Qed.

Lemma load_Some m files s m' :
  load m files = Ok (Some s, m') <->
  (exists cb pb, holds_snapshot (directory_ m) files s cb pb) /\
  m' = mkManifestManager (directory_ m) (manifest_path m (mf_generation s)) (mf_generation s).
Proof.
  unfold load. split.
  - destruct (negb _) eqn:E0; intros H; [inv_ok; by simplify_eq|].
    apply bind_Ok_inv in H as (cb & [H1 H2]%read_file_iff & H).
    apply bind_Ok_inv in H as (n & H3 & H). cbv zeta in H. apply bind_Ok_inv in H as ([] & _ & H).
    apply bind_Ok_inv in H as (pb & [H4 H5]%read_file_iff & H).
    apply bind_Ok_inv in H as (s0 & H6 & H). apply bind_Ok_inv in H as ([] & H7%throw_if_Ok & H).
    apply bind_Ok_inv in H as ([] & H8 & H). injection H as <- <-. zbool. apply bool_decide_eq_true in H7 as ->.
    split; [|done]. exists cb, pb. split; try done. by eapply check_present_iff.
  - intros [(cb & pb & []) ->]. unfold current_path_. rewrite hs_current0.
    rewrite bool_decide_eq_true_2 by by eexists. cbn [negb].
    rewrite (proj2 (read_file_iff _ _ cb)) by done. mred. rewrite hs_current_parse0, hs_manifest0.
    rewrite bool_decide_eq_true_2 by by eexists. cbn [negb]. rewrite (proj2 (read_file_iff _ _ pb)) by done.
    rewrite hs_manifest_parse0. rewrite bool_decide_eq_true_2 by done. cbn [negb].
    by rewrite (proj2 (check_present_iff _ _ tt)).
Qed.

Lemma manifest_filename_ok g : manifest_name_ok (manifest_filename g).
Proof.
  unfold manifest_filename. split_and!.
  - unfold zlen. rewrite length_app, pad20_length. vm_compute. split; congruence.
  - unfold zlen. rewrite length_app, pad20_length. vm_compute. congruence.
  - apply has_parent_false. rewrite not_elem_of_app. split; [by apply has_parent_false|].
    apply pad20_no. vm_compute. intros []. congruence.
  - apply starts_with_app.
Qed.

Lemma manifest_filename_bare g : path_has_parent_path (manifest_filename g) = false.
Proof. apply manifest_filename_ok. Qed.

Lemma manifest_filename_inj a b : is_u64 a -> is_u64 b -> manifest_filename a = manifest_filename b -> a = b.
Proof. intros Ha Hb H%app_inv_head. by apply pad20_inj. Qed.

(** ** The names of the files *)

Lemma join_tmp directory n :
  path_has_parent_path n = false -> metadata_tmp (path_join directory n) = path_join directory (n ++ bytes_of ".tmp").
Proof.
  intros Hn. destruct (path_join_prefix directory) as [pre Hp]. unfold metadata_tmp.
  rewrite !Hp, <- app_assoc; [done| |done]. apply has_parent_false. rewrite not_elem_of_app.
  split; by apply has_parent_false.
Qed.

(** The name of a table's file. *)
Definition sst_path (p : str) : Prop := exists base, p = base ++ bytes_of ".sst".

Lemma sst_last p : sst_path p -> last p = Some x74.
Proof. intros [base ->]. by rewrite last_app. Qed.

Lemma join_last directory n : path_has_parent_path n = false -> n <> [] -> last (path_join directory n) = last n.
Proof.
  intros Hn Hne. destruct (path_join_prefix directory) as [pre Hp]. rewrite Hp, last_app by done.
  destruct (last n) eqn:E; [done|]. by apply last_None in E.
Qed.

Section names.
Context (directory : str) (g : Z).

Let cur := path_join directory (bytes_of "CURRENT").
Let path := path_join directory (manifest_filename g).

Lemma tmp_bare n : path_has_parent_path n = false -> path_has_parent_path (n ++ bytes_of ".tmp") = false.
Proof. rewrite !has_parent_false, not_elem_of_app. intros H. split; [done|]. by apply has_parent_false. Qed.

Lemma manifest_not_current n g' : manifest_filename g' ++ n <> bytes_of "CURRENT".
Proof. done. Qed.

Lemma current_untouched : cur ∉ [metadata_tmp path; path].
Proof.
  pose proof (manifest_filename_bare g) as Hb. unfold cur, path. rewrite join_tmp by done.
  rewrite !not_elem_of_cons. split_and!; [| |apply not_elem_of_nil];
    intros H%path_join_inj; try done; by apply tmp_bare.
Qed.

Lemma manifest_untouched g' :
  is_u64 g -> is_u64 g' -> g' <> g -> path_join directory (manifest_filename g') ∉ [metadata_tmp path; path].
Proof.
  intros Hg Hg' Hne. pose proof (manifest_filename_bare g) as Hb. pose proof (manifest_filename_bare g') as Hb'.
  unfold path. rewrite join_tmp by done. rewrite !not_elem_of_cons. split_and!; [| |apply not_elem_of_nil].
  - intros H%path_join_inj; [|done|by apply tmp_bare]. unfold manifest_filename in H.
    rewrite <- app_assoc in H. apply app_inv_head, (f_equal length) in H.
    rewrite length_app, !pad20_length in H. done.
  - intros H%path_join_inj%manifest_filename_inj; done.
Qed.

Lemma manifest_not_current_file : path ∉ [metadata_tmp cur; cur].
Proof.
  pose proof (manifest_filename_bare g) as Hb. unfold cur, path. rewrite join_tmp by done.
  rewrite !not_elem_of_cons. split_and!; [| |apply not_elem_of_nil]; intros H%path_join_inj; done.
Qed.

Lemma table_untouched p : sst_path p -> (p ∉ [metadata_tmp path; path]) /\ (p ∉ [metadata_tmp cur; cur]).
Proof.
  intros Hp%sst_last. pose proof (manifest_filename_bare g) as Hb.
  assert (Hne : manifest_filename g <> []) by done.
  unfold cur, path, metadata_tmp. rewrite !not_elem_of_cons.
  split_and!; try apply not_elem_of_nil; intros ->; try (rewrite last_app in Hp; done).
  - rewrite join_last in Hp by done. unfold manifest_filename in Hp. rewrite last_app in Hp.
    destruct (last (pad20 g)) as [b|] eqn:E; [|done]. simplify_eq.
    apply last_Some in E as [l E]. apply (pad20_no x74 g); [by vm_compute; intros []|].
    rewrite E. apply elem_of_app. right. by left.
  - rewrite join_last in Hp by done. done.
Qed.
End names.

(** ** The two writes of a commit *)

Lemma metadata_tmp_ne p : metadata_tmp p <> p.
Proof. apply tmp_ne. Qed.

Lemma atomic_write_keeps path bytes : keeps (metadata_tmp path) (metadata_write_all (metadata_tmp path) bytes).
Proof. apply keeps_write. Qed.

Lemma atomic_write_touches path bytes : touches [metadata_tmp path; path] (atomic_write path bytes).
Proof. apply touches_publish; [by left|by right; left|apply atomic_write_keeps]. Qed.

Lemma atomic_write_extends path bytes : extends (atomic_write path bytes).
Proof. apply extends_publish, extends_write. Qed.

Lemma atomic_write_quiet path bytes : quiet (atomic_write path bytes).
Proof. apply quiet_publish, quiet_write. Qed.

Lemma atomic_write_spec path bytes f r f' :
  atomic_write path bytes f = (r, f') ->
  moves [metadata_tmp path; path] (length (fs_history f)) path (fs_dir f !! path) (mkFileData bytes bytes) f f' /\
  (r = Ok tt -> fs_dir f' !! path = Some (mkFileData bytes bytes) /\ fs_old f' = []).
Proof.
  intros H. apply (publish_spec manifest_errors (metadata_tmp path) path bytes) with (old := fs_dir f !! path) in H;
    [done|apply metadata_tmp_ne|apply atomic_write_keeps|].
  intros f1 f2 Hh Hw. by eapply (fs_write_ok _ _ _ []).
Qed.

(** ** A commit over a snapshot in force *)

Lemma fixed_file_later h name c f :
  fixed_file h name c f -> fixed_file (length (fs_history f)) name c f.
Proof. intros [(H1 & H2 & _) Hs]. split; [|done]. split_and!; [done..|by rewrite drop_all]. Qed.

Lemma fixed_file_now h name bs f :
  fixed_file h name (Some bs) f -> fs_dir f !! name = Some (mkFileData bs bs).
Proof. by intros [([H|H] & _) _]. Qed.

Section commit.
Context (directory : str) (old new : ManifestSnapshot) (cb pb : str) (f : Fs).

Let h := length (fs_history f).
Let cur := path_join directory (bytes_of "CURRENT").
Let path := path_join directory (manifest_filename (mf_generation new)).
Let bytes := append_checksum (manifest_payload new).
Let cur_bytes := append_checksum (current_payload (manifest_filename (mf_generation new))).

Hypothesis Hsettled : settled f.
Hypothesis Hold : holds_snapshot directory (all_contents f) old cb pb.
Hypothesis Hold_sst : Forall (fun t => sst_path (md_path t)) (mf_tables old).
Hypothesis Hgen : is_u64 (mf_generation old) /\ mf_generation old <> mf_generation new.
Hypothesis Hnew : snapshot_wf new.
Hypothesis Hsize : zlen bytes <= kMaximumMetadataFileBytes.
Hypothesis Hnew_tables : forall t, t ∈ mf_tables (placed_snapshot directory new) ->
  sst_path (md_path t) /\ is_Some (contents f (md_path t)).

Lemma lookup_all_contents f0 n : all_contents f0 !! n = contents f0 n.
Proof. unfold all_contents, contents. by rewrite lookup_fmap. Qed.

(** What a crash must preserve for the old snapshot to load. *)
Definition keeps_old (f' : Fs) : Prop :=
  fixed_file h cur (Some cb) f' /\
  fixed_file h (path_join directory (manifest_filename (mf_generation old))) (Some pb) f' /\
  (forall t, t ∈ mf_tables old -> exists bs, fixed_file h (md_path t) (Some bs) f') /\
  (forall t, t ∈ mf_tables (placed_snapshot directory new) -> exists bs, fixed_file h (md_path t) (Some bs) f').

Lemma keeps_old_start : keeps_old f.
Proof.
  destruct Hold. unfold keeps_old, h, cur. rewrite !lookup_all_contents in *.
  split_and!; try by apply fixed_file_start.
  - intros t Ht. destruct (hs_tables0 t Ht) as [bs Hb]. rewrite lookup_all_contents in Hb.
    exists bs. by apply fixed_file_start.
  - intros t Ht. destruct (Hnew_tables t Ht) as [_ [bs Hb]]. exists bs. by apply fixed_file_start.
Qed.

(** The first write leaves it alone. *)
Lemma keeps_old_manifest f' r :
  atomic_write path bytes f = (r, f') -> keeps_old f'.
Proof.
  intros H. destruct keeps_old_start as (K1 & K2 & K3 & K4). pose proof (atomic_write_touches path bytes) as Ht.
  assert (K : forall n bs, n ∉ [metadata_tmp path; path] -> fixed_file h n (Some bs) f -> fixed_file h n (Some bs) f')
    by (intros n bs Hn; by apply (fixed_file_touches _ _ _ _ _ _ _ _ Ht H)).
  destruct (sw_generation _ Hnew). destruct Hgen. rewrite Forall_forall in Hold_sst.
  split_and!.
  - by apply K, K1; apply current_untouched.
  - by apply K, K2; apply manifest_untouched.
  - intros t Hin. destruct (K3 t Hin) as [bs Hb]. exists bs. apply K, Hb. by apply table_untouched, Hold_sst.
  - intros t Hin. destruct (K4 t Hin) as [bs Hb]. exists bs. apply K, Hb.
    by apply table_untouched, Hnew_tables.
Qed.

Lemma crash_old f' s files :
  keeps_old f' -> s ∈ drop h (fs_history f') -> crash_state s files -> holds_snapshot directory files old cb pb.
Proof.
  intros (K1 & K2 & K3 & _) Hs Hc. destruct Hold. split; try done.
  - by apply (fixed_file_crash _ _ _ _ _ _ K1 Hs Hc).
  - by apply (fixed_file_crash _ _ _ _ _ _ K2 Hs Hc).
  - intros t Ht. destruct (K3 t Ht) as [bs Hb]. exists bs. by apply (fixed_file_crash _ _ _ _ _ _ Hb Hs Hc).
Qed.

Lemma new_holds files :
  files !! cur = Some cur_bytes -> files !! path = Some bytes ->
  (forall t, t ∈ mf_tables (placed_snapshot directory new) -> is_Some (files !! md_path t)) ->
  holds_snapshot directory files (placed_snapshot directory new) cur_bytes bytes.
Proof.
  intros H1 H2 H3. split; try done.
  - unfold cur_bytes, append_checksum, current_payload, manifest_filename, kMaximumMetadataFileBytes.
    rewrite !zlen_app, !le_bytes_zlen. unfold zlen. rewrite pad20_length. vm_compute. congruence.
  - apply parse_current_ok, manifest_filename_ok.
  - apply parse_manifest_ok; [done|]. unfold bytes, append_checksum, kMaximumMetadataFileBytes in Hsize.
    rewrite zlen_app in Hsize. pose proof (zlen_nonneg (le_bytes 4 (crc32 (manifest_payload new)))).
    unfold u64_max. lia.
Qed.

(** The second write leaves alone all but CURRENT. *)
Lemma keeps_both f1 f2 r n bs :
  atomic_write cur cur_bytes f1 = (r, f2) -> n ∉ [metadata_tmp cur; cur] ->
  fs_dir f1 !! n = Some (mkFileData bs bs) -> fs_old f1 = [] ->
  fixed_file (length (fs_history f1)) n (Some bs) f2.
Proof.
  intros H Hn Hd Ho. eapply (fixed_file_touches _ _ _ _ _ _ _ _ (atomic_write_touches cur cur_bytes) H Hn);
    [done|]. split; [|by eexists]. split_and!; [by left|rewrite Ho; constructor|by rewrite drop_all].
Qed.

Section second.
Context (f1 f2 : Fs) (r : result unit).
Hypothesis Hf1 : keeps_old f1.
Hypothesis Hpath : fs_dir f1 !! path = Some (mkFileData bytes bytes).
Hypothesis Hsynced : fs_old f1 = [].
Hypothesis Hwrite : atomic_write cur cur_bytes f1 = (r, f2).

Let h1 := length (fs_history f1).

Lemma second_files :
  fixed_file h1 path (Some bytes) f2 /\
  fixed_file h1 (path_join directory (manifest_filename (mf_generation old))) (Some pb) f2 /\
  (forall t, t ∈ mf_tables old -> exists bs, fixed_file h1 (md_path t) (Some bs) f2) /\
  (forall t, t ∈ mf_tables (placed_snapshot directory new) -> exists bs, fixed_file h1 (md_path t) (Some bs) f2).
Proof.
  destruct Hf1 as (_ & K2 & K3 & K4). rewrite Forall_forall in Hold_sst.
  split_and!.
  - eapply keeps_both; try done. apply manifest_not_current_file.
  - eapply keeps_both; try done; [apply manifest_not_current_file|by eapply fixed_file_now].
  - intros t Ht. destruct (K3 t Ht) as [bs Hb]. exists bs. eapply keeps_both; try done.
    + by apply (table_untouched directory 0), Hold_sst.
    + by eapply fixed_file_now.
  - intros t Ht. destruct (K4 t Ht) as [bs Hb]. exists bs. eapply keeps_both; try done.
    + by apply (table_untouched directory 0), Hnew_tables.
    + by eapply fixed_file_now.
Qed.

Lemma second_crash s files :
  s ∈ drop h1 (fs_history f2) -> crash_state s files ->
  holds_snapshot directory files old cb pb \/
  holds_snapshot directory files (placed_snapshot directory new) cur_bytes bytes.
Proof.
  intros Hs Hc. destruct second_files as (K1 & K2 & K3 & K4). destruct Hf1 as (K0 & _).
  destruct (atomic_write_spec _ _ _ _ _ Hwrite) as [(_ & _ & Hm) _].
  rewrite (fixed_file_now _ _ _ _ K0) in Hm. destruct Hm as (_ & _ & Hm).
  { split_and!; [left; by eapply fixed_file_now|rewrite Hsynced; constructor|by rewrite drop_all]. }
  rewrite Forall_forall in Hm. specialize (Hm s Hs).
  destruct (crash_either _ _ _ _ _ Hm (crash_state_leaves _ _ cur Hc)) as [Hcur|Hcase].
  - right. apply new_holds; [done|by eapply fixed_file_crash|].
    intros t Ht. destruct (K4 t Ht) as [bs Hb]. exists bs. by eapply fixed_file_crash.
  - left. destruct (files !! cur) as [c|] eqn:Ec; [|done]. simpl in Hcase.
    assert (c = cb) as -> by (destruct Hcase; by apply (anti_symm prefix)).
    destruct Hold. split; try done; [by eapply fixed_file_crash|].
    intros t Ht. destruct (K3 t Ht) as [bs Hb]. exists bs. by eapply fixed_file_crash.
Qed.

(** Once the second write has returned, only the new snapshot is left. *)
Lemma second_done files :
  r = Ok tt -> crash_state (mkSnapshot (fs_dir f2) (fs_old f2)) files ->
  holds_snapshot directory files (placed_snapshot directory new) cur_bytes bytes.
Proof.
  intros Hr (d & Hd & Hfiles). destruct second_files as (K1 & _ & _ & K4).
  destruct (atomic_write_spec _ _ _ _ _ Hwrite) as [_ Hok]. destruct (Hok Hr) as [Hcur Ho].
  assert (d = fs_dir f2) as ->.
  { destruct Hd as [->|Hd]; [done|]. simpl in Hd. rewrite Ho in Hd. by apply not_elem_of_nil in Hd. }
  assert (K : forall n bs, fs_dir f2 !! n = Some (mkFileData bs bs) -> files !! n = Some bs).
  { intros n bs Hn. specialize (Hfiles n). rewrite Hn in Hfiles. destruct (files !! n) as [b|]; [|done].
    simpl in Hfiles. f_equal. destruct Hfiles. by apply (anti_symm prefix). }
  apply new_holds; [by apply K|apply K; by eapply fixed_file_now|].
  intros t Ht. destruct (K4 t Ht) as [bs Hb]. exists bs. apply K. by eapply fixed_file_now.
Qed.
End second.
End commit.

(** The snapshot a commit writes. *)
Definition next_snapshot (m : ManifestManager) (tables : list SSTableMetadata) (next_file_id : Z)
    : ManifestSnapshot :=
  mkManifest (u64 (current_generation_ m + 1)) next_file_id (map bare tables).

Section commit_steps.
Context (m : ManifestManager) (tables : list SSTableMetadata) (next_file_id : Z).

Let new := next_snapshot m tables next_file_id.
Let bytes := append_checksum (manifest_payload new).
Let cur_bytes := append_checksum (current_payload (manifest_filename (mf_generation new))).

Hypothesis Hnew : snapshot_wf new.

Lemma commit_unfold f :
  commit m tables next_file_id f =
  (_ ← atomic_write (manifest_path m (mf_generation new)) bytes;
   _ ← atomic_write (current_path_ m) cur_bytes;
   mret (new, mkManifestManager (directory_ m) (manifest_path m (mf_generation new)) (mf_generation new))) f.
Proof.
  unfold commit. assert (Hg : (current_generation_ m =? u64_max) = false).
  { apply Z.eqb_neq. intros E. destruct (sw_generation _ Hnew) as [_ H]. apply H. simpl. by rewrite E. }
  rewrite Hg. fold new. change (mkManifest _ _ _) with new.
  assert (Hs : serialize_manifest new = Ok bytes) by by apply serialize_manifest_ok.
  assert (Hc : serialize_current (path_filename (manifest_path m (mf_generation new))) = Ok cur_bytes).
  { unfold manifest_path. rewrite path_filename_join by apply manifest_filename_bare.
    apply serialize_current_ok, manifest_filename_ok. }
  unfold mbind, stm_bind, throw_if, slift. cbv zeta. rewrite Hs.
  destruct (atomic_write _ bytes f) as [[[]|e] f1]; [|done]. by rewrite Hc.
Qed.

Lemma commit_quiet : quiet (commit m tables next_file_id).
Proof.
  intros f Hf. rewrite commit_unfold. revert f Hf. change (quiet (_ ← atomic_write (manifest_path m (mf_generation new)) bytes;
   _ ← atomic_write (current_path_ m) cur_bytes;
   mret (new, mkManifestManager (directory_ m) (manifest_path m (mf_generation new)) (mf_generation new)))).
  apply quiet_bind; [apply atomic_write_quiet|]. intros _.
  apply quiet_bind; [apply atomic_write_quiet|]. intros _. apply quiet_ret.
Qed.
End commit_steps.

Section commit_crash.
Context (m : ManifestManager) (tables : list SSTableMetadata) (next_file_id : Z).
Context (old : ManifestSnapshot) (cb pb : str) (f : Fs).

Let new := next_snapshot m tables next_file_id.

Hypothesis Hset : settled f.
Hypothesis Hold : holds_snapshot (directory_ m) (all_contents f) old cb pb.
Hypothesis Hsst : Forall (fun t => sst_path (md_path t)) (mf_tables old).
Hypothesis Hgen : is_u64 (mf_generation old) /\ mf_generation old <> mf_generation new.
Hypothesis Hnew : snapshot_wf new.
Hypothesis Hsize : zlen (append_checksum (manifest_payload new)) <= kMaximumMetadataFileBytes.
Hypothesis Htab : forall t, t ∈ mf_tables (placed_snapshot (directory_ m) new) ->
  sst_path (md_path t) /\ is_Some (contents f (md_path t)).

Lemma commit_crash_either r f' :
  commit m tables next_file_id f = (r, f') ->
  forall s files, s ∈ drop (length (fs_history f)) (fs_history f') -> crash_state s files ->
  holds_snapshot (directory_ m) files old cb pb \/
  holds_snapshot (directory_ m) files (placed_snapshot (directory_ m) new)
    (append_checksum (current_payload (manifest_filename (mf_generation new)))) (append_checksum (manifest_payload new)).
Proof.
  intros Hc s files Hs Hcr. rewrite commit_unfold in Hc by done. unfold mbind, stm_bind, mret, stm_ret in Hc. fold new in Hc.
  destruct (atomic_write _ _ f) as [r1 f1] eqn:E1.
  pose proof (keeps_old_manifest _ _ _ _ _ _ Hset Hold Hsst Hgen Hnew Htab _ _ E1) as K1.
  destruct r1 as [[]|e]; [|simplify_eq; left; by eapply crash_old].
  destruct (atomic_write_spec _ _ _ _ _ E1) as [_ Hok]. destruct (Hok eq_refl) as [Hp Ho].
  destruct (atomic_write (current_path_ m) _ f1) as [r2 f2] eqn:E2.
  assert (f2 = f') as -> by (destruct r2; by simplify_eq).
  destruct (atomic_write_extends _ _ _ _ _ E1) as [l1 Hl1]. destruct (atomic_write_extends _ _ _ _ _ E2) as [l2 Hl2].
  rewrite Hl2, Hl1, <- app_assoc, drop_app_length in Hs. apply elem_of_app in Hs as [Hs|Hs].
  - left. eapply crash_old; try done. by rewrite Hl1, drop_app_length.
  - eapply second_crash; try done. by rewrite Hl2, drop_app_length.
Qed.

Lemma commit_crash_done s' m' f' :
  commit m tables next_file_id f = (Ok (s', m'), f') ->
  s' = new /\ m' = mkManifestManager (directory_ m) (manifest_path m (mf_generation new)) (mf_generation new) /\
  forall files, crash_state (mkSnapshot (fs_dir f') (fs_old f')) files ->
    holds_snapshot (directory_ m) files (placed_snapshot (directory_ m) new)
      (append_checksum (current_payload (manifest_filename (mf_generation new)))) (append_checksum (manifest_payload new)).
Proof.
  intros Hc. rewrite commit_unfold in Hc by done. unfold mbind, stm_bind, mret, stm_ret in Hc. fold new in Hc.
  destruct (atomic_write _ _ f) as [[[]|e] f1] eqn:E1; [|done].
  pose proof (keeps_old_manifest _ _ _ _ _ _ Hset Hold Hsst Hgen Hnew Htab _ _ E1) as K1.
  destruct (atomic_write_spec _ _ _ _ _ E1) as [_ Hok]. destruct (Hok eq_refl) as [Hp Ho].
  destruct (atomic_write (current_path_ m) _ f1) as [[[]|e] f2] eqn:E2; [|done].
  simplify_eq. split_and!; [done..|]. intros files Hcr. by eapply second_done.
Qed.
End commit_crash.

Lemma commit_generation m0 m old cb pb files tables next_file_id :
  holds_snapshot (directory_ m0) files old cb pb ->
  m = mkManifestManager (directory_ m0) (manifest_path m0 (mf_generation old)) (mf_generation old) ->
  snapshot_wf (next_snapshot m tables next_file_id) ->
  is_u64 (mf_generation old) /\ mf_generation old <> mf_generation (next_snapshot m tables next_file_id).
Proof.
  intros Hold -> Hnew.
  destruct (parse_manifest_inv pb (directory_ m0) old) as (s0 & [[Hu _]] & _ & ->); [|by apply Hold|].
  - pose proof (hs_manifest_size _ _ _ _ _ Hold). unfold kMaximumMetadataFileBytes, u64_max in *. lia.
  - split; [done|]. simpl in *. destruct (sw_generation _ Hnew) as [_ Hnz]. simpl in Hnz.
    unfold is_u64, u64_max, u64 in *.
    destruct (decide (mf_generation s0 = 2 ^ 64 - 1)) as [E|E]; [by rewrite E in Hnz|]. rewrite Z.mod_small; lia.
Qed.

(** ** Claims *)

(** A manifest file is accepted exactly when it is what
    [serialize_manifest] writes for a well-formed snapshot (non-zero counters,
    distinct bare file names, non-empty ordered key ranges, non-zero counts and
    ordered sequence numbers), and then that snapshot, placed in the directory,
    is what is read. *)
Theorem manifest_codec_exact bytes directory s :
  zlen bytes <= u64_max ->
  (parse_manifest bytes directory = Ok s <->
   exists s0, snapshot_wf s0 /\ serialize_manifest s0 = Ok bytes /\ s = placed_snapshot directory s0).
Proof.
  intros Hl. split.
  - intros (s0 & H1 & -> & H3)%parse_manifest_inv; [|done]. exists s0. by rewrite serialize_manifest_ok.
  - intros (s0 & H1 & H2 & ->). rewrite serialize_manifest_ok in H2 by done. injection H2 as <-.
    apply parse_manifest_ok; [done|]. unfold append_checksum in Hl. rewrite zlen_app in Hl.
    pose proof (zlen_nonneg (le_bytes 4 (crc32 (manifest_payload s0)))). lia.
Qed.

(** C7: with a snapshot in force, a commit replaces it atomically: whatever
    the system calls do and at whatever moment the machine stops, loading the
    directory afterwards gives the old snapshot or the new one, complete; once
    the commit has returned, only the new one; and it returns when no call
    fails.  The files of the tables end in ".sst", those of the new list are on
    disk, and the manifest fits the reader's size limit. *)
Theorem commit_crash_atomic m0 m old tables next_file_id f r f' :
  settled f -> load m0 (all_contents f) = Ok (Some old, m) ->
  snapshot_wf (next_snapshot m tables next_file_id) ->
  zlen (append_checksum (manifest_payload (next_snapshot m tables next_file_id))) <= kMaximumMetadataFileBytes ->
  Forall (fun t => sst_path (md_path t)) (mf_tables old) ->
  (forall t, t ∈ mf_tables (placed_snapshot (directory_ m) (next_snapshot m tables next_file_id)) ->
     sst_path (md_path t) /\ is_Some (contents f (md_path t))) ->
  commit m tables next_file_id f = (r, f') ->
  (forall s files, s ∈ drop (length (fs_history f)) (fs_history f') -> crash_state s files ->
     exists m', load m0 files = Ok (Some old, m') \/
       load m0 files = Ok (Some (placed_snapshot (directory_ m) (next_snapshot m tables next_file_id)), m')) /\
  (forall s' m', r = Ok (s', m') ->
     s' = next_snapshot m tables next_file_id /\
     forall files, crash_state (mkSnapshot (fs_dir f') (fs_old f')) files ->
       load m0 files = Ok (Some (placed_snapshot (directory_ m) s'), m')) /\
  (fs_script f = [] -> is_Ok r = true).
Proof.
  intros Hset Hload Hnew Hsize Hsst Htab Hc. set (new := next_snapshot m tables next_file_id) in *.
  apply load_Some in Hload as [(cb & pb & Hold) Hm]. assert (Hdir : directory_ m0 = directory_ m) by by rewrite Hm.
  pose proof (commit_generation _ _ _ _ _ _ tables next_file_id Hold Hm Hnew) as Hgen.
  rewrite Hdir in Hold. assert (Hld : forall fl s1 cb1 pb1, holds_snapshot (directory_ m) fl s1 cb1 pb1 ->
    load m0 fl = Ok (Some s1, mkManifestManager (directory_ m) (manifest_path m (mf_generation s1)) (mf_generation s1))).
  { intros fl s1 cb1 pb1 Hh. apply load_Some. unfold manifest_path. rewrite Hdir. eauto. }
  split; [|split].
  - intros s files Hs Hcr.
    destruct (commit_crash_either _ _ _ _ _ _ _ Hset Hold Hsst Hgen Hnew Hsize Htab _ _ Hc s files Hs Hcr);
      eexists; [left|right]; by eapply Hld.
  - intros s' m' ->. destruct (commit_crash_done _ _ _ _ _ _ _ Hset Hold Hsst Hgen Hnew Hsize Htab _ _ _ Hc)
      as (-> & -> & Hd). split; [done|]. intros files Hcr. exact (Hld _ _ _ _ (Hd files Hcr)).
  - intros Hf. destruct (commit_quiet m tables next_file_id Hnew f Hf) as (a & f2 & E & _).
    rewrite E in Hc. by simplify_eq.
Qed.

(** What is durable can be all that is left. *)
Lemma crash_state_durable s :
  map_Forall (fun _ c => fd_durable c `prefix_of` fd_data c) (sn_dir s) ->
  crash_state s (fd_durable <$> sn_dir s).
Proof.
  intros H. exists (sn_dir s). split; [by left|]. intros n. rewrite lookup_fmap.
  destruct (sn_dir s !! n) as [c|] eqn:E; simpl; [|done]. split; [done|]. by apply (H n c).
Qed.

(** C29: the first commit of a directory is not atomic.  Opening a new store
    commits an empty list; the machine can stop after the manifest is durable
    and before CURRENT is, and then every later [load] throws. *)
Theorem first_commit_crash_unopenable :
  exists f' r s files,
    load (fresh_manager (bytes_of "db")) ∅ = Ok (None, fresh_manager (bytes_of "db")) /\
    commit (fresh_manager (bytes_of "db")) [] 1 (empty_fs []) = (r, f') /\
    s ∈ fs_history f' /\ crash_state s files /\
    load (fresh_manager (bytes_of "db")) files =
      Throw (RuntimeError "CURRENT is missing while versioned manifests are present").
Proof.
  set (f' := (commit (fresh_manager (bytes_of "db")) [] 1 (empty_fs [])).2).
  set (s := default (mkSnapshot ∅ []) (fs_history f' !! 5%nat)).
  exists f', (commit (fresh_manager (bytes_of "db")) [] 1 (empty_fs [])).1, s, (fd_durable <$> sn_dir s).
  split_and!.
  - by vm_compute.
  - unfold f'. apply surjective_pairing.
  - apply list_elem_of_lookup. exists 5%nat. by vm_compute.
  - apply crash_state_durable. apply (bool_decide_unpack _). by vm_compute.
  - by vm_compute.
Qed.

(** ** Witnesses *)

Definition demo_table (name : string) (level : SSTableLevel) (lo hi : Z) : SSTableMetadata :=
  mkMetadata (bytes_of name) 1 4 1 lo hi (bytes_of "apple") (bytes_of "plum") level.

Definition demo_snapshot (g : Z) : ManifestSnapshot :=
  mkManifest g 9 [demo_table "a.sst" Level0 5 8; demo_table "b.sst" Level1 1 4].

Ltac solve_table_wf :=
  split; try reflexivity; try (vm_compute; split; congruence); try (vm_compute; congruence);
  vm_compute; (split; [split|]); congruence.

Lemma demo_snapshot_wf g : is_u64 g -> g <> 0 -> snapshot_wf (demo_snapshot g).
Proof.
  intros Hg Hnz. split; simpl; [done|split; [split; vm_compute; congruence|done]|vm_compute; congruence| |].
  - apply Forall_cons. split; [solve_table_wf|]. apply Forall_cons. split; [solve_table_wf|constructor].
  - apply (bool_decide_unpack _). by vm_compute.
Qed.

Lemma manifest_codec_exact_witness :
  parse_manifest (append_checksum (manifest_payload (demo_snapshot 3))) (bytes_of "db") =
  Ok (placed_snapshot (bytes_of "db") (demo_snapshot 3)).
Proof.
  apply manifest_codec_exact; [vm_compute; congruence|]. exists (demo_snapshot 3). split_and!; [|by vm_compute|done].
  apply demo_snapshot_wf; [split; vm_compute; congruence|lia].
Defined.

Definition durable_file (bs : str) : FileData := mkFileData bs bs.

(** A directory with one manifest in force. *)
Definition demo_fs (script : list io_event) : Fs :=
  mkFs (list_to_map
    [(bytes_of "db/CURRENT", durable_file (append_checksum (current_payload (manifest_filename 3))));
     (bytes_of "db/MANIFEST-00000000000000000003", durable_file (append_checksum (manifest_payload (demo_snapshot 3))));
     (bytes_of "db/a.sst", durable_file (bytes_of "a")); (bytes_of "db/b.sst", durable_file (bytes_of "b"))])
    [] script [].

Lemma demo_fs_settled script : settled (demo_fs script).
Proof.
  split; [done|]. intros n c H.
  assert (Hall : map_Forall (fun _ c => fd_durable c = fd_data c) (fs_dir (demo_fs script)));
    [|by apply (Hall n c)]. apply (bool_decide_unpack _). by vm_compute.
Qed.

Definition demo_manager : ManifestManager :=
  mkManifestManager (bytes_of "db") (bytes_of "db/MANIFEST-00000000000000000003") 3.

(** The rename of CURRENT fails with [EIO]. *)
Definition demo_script : list io_event := replicate 11 (Done 4096) ++ [Failed 5].

Lemma commit_crash_atomic_witness :
  let c := commit demo_manager (mf_tables (placed_snapshot (bytes_of "db") (demo_snapshot 3))) 10 (demo_fs demo_script) in
  is_Ok c.1 = false /\
  forall s files, s ∈ fs_history c.2 -> crash_state s files ->
    exists m', load (fresh_manager (bytes_of "db")) files =
                 Ok (Some (placed_snapshot (bytes_of "db") (demo_snapshot 3)), m') \/
               load (fresh_manager (bytes_of "db")) files =
                 Ok (Some (placed_snapshot (bytes_of "db")
                             (next_snapshot demo_manager
                                (mf_tables (placed_snapshot (bytes_of "db") (demo_snapshot 3))) 10)), m').
Proof.
  intros c. split; [by vm_compute|].
  refine (proj1 (commit_crash_atomic (fresh_manager (bytes_of "db")) demo_manager
    (placed_snapshot (bytes_of "db") (demo_snapshot 3)) (mf_tables (placed_snapshot (bytes_of "db") (demo_snapshot 3)))
    10 (demo_fs demo_script) c.1 c.2 _ _ _ _ _ _ _)).
  - apply demo_fs_settled.
  - by vm_compute.
  - split; [split; vm_compute; [split|]; congruence|split; vm_compute; [split|]; congruence|vm_compute; congruence| |].
    + apply Forall_cons. split; [solve_table_wf|]. apply Forall_cons. split; [solve_table_wf|constructor].
    + apply (bool_decide_unpack _). by vm_compute.
  - vm_compute. congruence.
  - repeat constructor; [by exists (bytes_of "db/a")|by exists (bytes_of "db/b")].
  - intros t Ht. simpl in Ht. repeat (apply elem_of_cons in Ht as [->|Ht]); [| |by apply not_elem_of_nil in Ht].
    + split; [by exists (bytes_of "db/a")|by vm_compute; eexists].
    + split; [by exists (bytes_of "db/b")|by vm_compute; eexists].
  - apply surjective_pairing.
Defined.
