(* ===== verification/SstManager.v ===== *)
(** * The tables of the store

    src/sstable_manager.cpp: the list of open tables on two levels, flushing a
    frozen in-memory table to level 0, merging level 0 into level 1, and the
    manifest that makes each change of the list atomic.  The manager's state
    holds the directory it writes ([sm_fs]) and what the readers share
    ([sm_rs]: the block cache and the outcomes of the reads to come).  The
    sizes of the Bloom filters, computed in floating point in the source, come
    with the options ([so_ceil_bits], [so_rounded], by the number of entries).
    A member function holds the manager's locks so that its body is one step;
    [flush_attempt] is the part of [flush] between two acquisitions of the
    lock, and the test of the version decides whether it is repeated. *)

From S2P Require Import Prelude OrderedMap Codec Posix FileSystem Path Store MemTable.
From S2P Require Import BloomFilter BlockCache SstFormat SstWriter SstReader Manifest.

(** ** Files *)

Definition is_sstable_path (path : str) : bool := bool_decide (path_extension path = bytes_of ".sst").

Definition is_temporary_storage_path (path : str) : bool :=
  let filename := path_filename path in
  (bool_decide (path_extension path = bytes_of ".tmp") &&
   bool_decide (path_extension (path_stem path) = bytes_of ".sst"))
  || bool_decide (filename = bytes_of "CURRENT.tmp")
  || (starts_with manifest_prefix filename && bool_decide (path_extension path = bytes_of ".tmp")).

(** [std::filesystem::remove(path, error)]: whether a file was removed, and
    the error. *)
Definition fs_remove (path : str) : stm Fs (bool * option Z) :=
  fun f =>
    match fs_script f with
    | Failed e :: s => (Ok (false, Some e), fs_set_script s f)
    | Interrupted :: s => (Ok (false, Some 4), fs_set_script s f)
    | Done _ :: s => (Ok (bool_decide (is_Some (fs_dir f !! path)), None),
                      fs_change (delete path (fs_dir f)) (fs_set_script s f))
    | [] => (Ok (bool_decide (is_Some (fs_dir f !! path)), None), fs_change (delete path (fs_dir f)) f)
    end.

Definition sync_directory : stm Fs unit :=
  _ ← fs_sync_directory (fun e => SystemError e "failed to open SSTable directory for fsync")
        (fun e => SystemError e "failed to fsync SSTable directory");
  fs_call (fun e => SystemError e "failed to close SSTable directory").

(** ** The list of tables *)

Record ManagedTable := mkManaged { mg_reader : SSTableReader; mg_level : SSTableLevel }.

Definition mg_metadata (t : ManagedTable) : SSTableMetadata := metadata_ (mg_reader t).

(** [table.reader->metadata().path.lexically_normal().string()] *)
Definition mg_path (t : ManagedTable) : str := lexically_normal (md_path (mg_metadata t)).

Definition ranges_overlap (left_smallest left_largest right_smallest right_largest : str) : bool :=
  str_leb left_smallest right_largest && str_leb right_smallest left_largest.

(** The comparator of [sort_tables]: newest first. *)
Definition newer_table (left right : ManagedTable) : bool :=
  let lhs := mg_metadata left in
  let rhs := mg_metadata right in
  if negb (md_max_sequence_number lhs =? md_max_sequence_number rhs) then
    md_max_sequence_number rhs <? md_max_sequence_number lhs
  else if negb (md_generation lhs =? md_generation rhs) then md_generation rhs <? md_generation lhs
  else str_ltb (path_filename (md_path rhs)) (path_filename (md_path lhs)).

Definition sort_tables (tables : list ManagedTable) : list ManagedTable := sort_by newer_table tables.

Definition is_level (level : SSTableLevel) (t : ManagedTable) : bool := bool_decide (mg_level t = level).

Definition with_level (level : SSTableLevel) (m : SSTableMetadata) : SSTableMetadata :=
  mkMetadata (md_path m) (md_generation m) (md_entry_count m) (md_block_count m) (md_min_sequence_number m)
    (md_max_sequence_number m) (md_smallest_key m) (md_largest_key m) level.

Definition metadata_for (tables : list ManagedTable) : list SSTableMetadata :=
  map (fun t => with_level (mg_level t) (mg_metadata t)) tables.

(** Neighbours that overlap. *)
Fixpoint overlapping_neighbours (l : list SSTableMetadata) : bool :=
  match l with
  | a :: (b :: _) as rest => str_leb (md_smallest_key b) (md_largest_key a) || overlapping_neighbours rest
  | _ => false
  end.

Definition validate_level1_ranges (tables : list ManagedTable) : result unit :=
  let level1 := metadata_for (List.filter (is_level Level1) tables) in
  let level1 := sort_by (fun l r => str_ltb (md_smallest_key l) (md_smallest_key r)) level1 in
  throw_if (overlapping_neighbours level1) (LogicError "Level-1 SSTable ranges must not overlap").

Definition metadata_matches (expected actual : SSTableMetadata) : bool :=
  (md_generation expected =? md_generation actual) && (md_entry_count expected =? md_entry_count actual)
  && (md_block_count expected =? md_block_count actual)
  && (md_min_sequence_number expected =? md_min_sequence_number actual)
  && (md_max_sequence_number expected =? md_max_sequence_number actual)
  && str_eqb (md_smallest_key expected) (md_smallest_key actual)
  && str_eqb (md_largest_key expected) (md_largest_key actual).

(** ** Reading *)

(** The newer of what is known and a candidate. *)
Definition newest_of (newest candidate : option Entry) : option Entry :=
  match candidate, newest with
  | Some c, Some n => if e_seq n <? e_seq c then candidate else newest
  | Some c, None => candidate
  | None, _ => newest
  end.

Definition outside (key : str) (m : SSTableMetadata) : bool :=
  str_ltb key (md_smallest_key m) || str_ltb (md_largest_key m) key.

Fixpoint newest_loop (tables : list ManagedTable) (key : str) (newest : option Entry)
    : stm RState (option Entry) :=
  match tables with
  | [] => mret newest
  | table :: rest =>
      if outside key (mg_metadata table) then newest_loop rest key newest
      else
        candidate ← sst_get (mg_reader table) key;
        newest_loop rest key (newest_of newest candidate)
  end.

Definition newest_entry_from_tables (tables : list ManagedTable) (key : str) : stm RState (option Entry) :=
  newest_loop tables key None.

Definition entry_live (o : option Entry) : bool :=
  match o with Some e => negb (e_deleted e) | None => false end.

Fixpoint live_count_after_flush (current : list ManagedTable) (incoming : list (str * Entry)) (live_count : Z)
    : stm RState Z :=
  match incoming with
  | [] => mret live_count
  | (key, entry) :: rest =>
      previous ← newest_entry_from_tables current key;
      if match previous with Some p => e_seq entry <=? e_seq p | None => false end then
        live_count_after_flush current rest live_count
      else
        let was_live := entry_live previous in
        let is_live := negb (e_deleted entry) in
        let live_count :=
          if negb was_live && is_live then u64 (live_count + 1)
          else if was_live && negb is_live then u64 (live_count - 1) else live_count in
        live_count_after_flush current rest live_count
  end.

(** [insert_or_assign] of the entries that are newer than those known. *)
Definition merge_entry (merged : list (str * Entry)) (kv : str * Entry) : list (str * Entry) :=
  match om_find kv.1 merged with
  | Some existing => if e_seq existing <? e_seq kv.2 then om_insert kv.1 kv.2 merged else merged
  | None => om_insert kv.1 kv.2 merged
  end.

Fixpoint merge_tables (tables : list ManagedTable) (merged : list (str * Entry))
    : stm RState (list (str * Entry)) :=
  match tables with
  | [] => mret merged
  | table :: rest =>
      contents ← sst_read_all (mg_reader table);
      merge_tables rest (foldl merge_entry merged contents)
  end.

Definition compute_live_key_count (tables : list ManagedTable) : stm RState Z :=
  latest ← merge_tables tables [];
  mret (om_count (fun e => negb (e_deleted e)) latest).

(** ** The manager *)

Record SSTableManagerOptions := mkManagerOptions {
  so_directory : str;
  so_target_data_block_bytes : Z;
  so_block_cache_capacity_bytes : Z;
  so_rate_ok : bool;
  so_ceil_bits : Z -> option Z;
  so_rounded : Z -> Z -> Z;
  so_level0_compaction_trigger : Z;
  so_level0_compaction_max_tables : Z
}.

Record CompactionResult := mkCompactionResult {
  cr_performed : bool;
  cr_input_tables : Z;
  cr_output_tables : Z;
  cr_input_entries : Z;
  cr_output_entries : Z;
  cr_tombstones_dropped : Z;
  cr_output_file_id : Z
}.

Definition no_compaction : CompactionResult := mkCompactionResult false 0 0 0 0 0 0.

Record CompactionStatistics := mkCompactionStatistics {
  cs_runs : Z;
  cs_input_tables : Z;
  cs_output_tables : Z;
  cs_input_entries : Z;
  cs_output_entries : Z;
  cs_tombstones_dropped : Z
}.

Record SSTableManager := mkManager {
  sm_options : SSTableManagerOptions;
  sm_manifest : ManifestManager;
  sm_readers : list ManagedTable;
  sm_live_key_count : Z;
  sm_max_sequence_number : Z;
  sm_next_generation : Z;
  sm_next_file_id : Z;
  sm_statistics : CompactionStatistics;
  sm_state_version : Z;
  sm_fs : Fs;
  sm_rs : RState
}.

Definition set_fs (f : Fs) (s : SSTableManager) : SSTableManager :=
  mkManager (sm_options s) (sm_manifest s) (sm_readers s) (sm_live_key_count s) (sm_max_sequence_number s)
    (sm_next_generation s) (sm_next_file_id s) (sm_statistics s) (sm_state_version s) f (sm_rs s).
Definition set_rs (r : RState) (s : SSTableManager) : SSTableManager :=
  mkManager (sm_options s) (sm_manifest s) (sm_readers s) (sm_live_key_count s) (sm_max_sequence_number s)
    (sm_next_generation s) (sm_next_file_id s) (sm_statistics s) (sm_state_version s) (sm_fs s) r.
Definition set_manifest (m : ManifestManager) (s : SSTableManager) : SSTableManager :=
  mkManager (sm_options s) m (sm_readers s) (sm_live_key_count s) (sm_max_sequence_number s)
    (sm_next_generation s) (sm_next_file_id s) (sm_statistics s) (sm_state_version s) (sm_fs s) (sm_rs s).
Definition set_next_file_id (n : Z) (s : SSTableManager) : SSTableManager :=
  mkManager (sm_options s) (sm_manifest s) (sm_readers s) (sm_live_key_count s) (sm_max_sequence_number s)
    (sm_next_generation s) n (sm_statistics s) (sm_state_version s) (sm_fs s) (sm_rs s).
Definition set_readers (ts : list ManagedTable) (s : SSTableManager) : SSTableManager :=
  mkManager (sm_options s) (sm_manifest s) ts (sm_live_key_count s) (sm_max_sequence_number s)
    (sm_next_generation s) (sm_next_file_id s) (sm_statistics s) (sm_state_version s) (sm_fs s) (sm_rs s).
Definition set_statistics (c : CompactionStatistics) (s : SSTableManager) : SSTableManager :=
  mkManager (sm_options s) (sm_manifest s) (sm_readers s) (sm_live_key_count s) (sm_max_sequence_number s)
    (sm_next_generation s) (sm_next_file_id s) c (sm_state_version s) (sm_fs s) (sm_rs s).
Definition set_counters (live maximum next : Z) (s : SSTableManager) : SSTableManager :=
  mkManager (sm_options s) (sm_manifest s) (sm_readers s) live maximum next (sm_next_file_id s)
    (sm_statistics s) (sm_state_version s) (sm_fs s) (sm_rs s).
Definition bump_version (s : SSTableManager) : SSTableManager :=
  mkManager (sm_options s) (sm_manifest s) (sm_readers s) (sm_live_key_count s) (sm_max_sequence_number s)
    (sm_next_generation s) (sm_next_file_id s) (sm_statistics s) (u64 (sm_state_version s + 1)) (sm_fs s) (sm_rs s).

Definition on_fs {A} (c : stm Fs A) : stm SSTableManager A :=
  fun s => match c (sm_fs s) with (r, f) => (r, set_fs f s) end.
Definition on_rs {A} (c : stm RState A) : stm SSTableManager A :=
  fun s => match c (sm_rs s) with (r, st) => (r, set_rs st s) end.

(** [block_cache_->clear(); block_cache_->reset_statistics()] *)
Definition clear_cache (st : RState) : RState :=
  set_rs_cache ((fun c => reset_statistics (bc_clear c)) <$> rs_cache st) st.

Definition clear_block_cache (s : SSTableManager) : SSTableManager :=
  set_rs (set_rs_cache (bc_clear <$> rs_cache (sm_rs s)) (sm_rs s)) s.

Definition build_bloom_filter (o : SSTableManagerOptions) (snapshot : list (str * Entry)) : result BloomFilter :=
  f ← bf_new (zlen snapshot) (so_rate_ok o) (so_ceil_bits o (zlen snapshot)) (so_rounded o (zlen snapshot));
  mret (bf_add_all (map fst snapshot) f).

Definition reserve_file_id : stm SSTableManager Z :=
  s ← sget;
  _ ← slift (throw_if (sm_next_file_id s =? u64_max)
               (OverflowError "SSTable file identifier space is exhausted"));
  _ ← smodify (set_next_file_id (u64 (sm_next_file_id s + 1)));
  mret (sm_next_file_id s).

Definition level_name (level : SSTableLevel) : str :=
  match level with Level0 => bytes_of "L0" | Level1 => bytes_of "L1" end.

Definition table_filename (level : SSTableLevel) (file_id generation max_sequence : Z) : str :=
  bytes_of "sstable-" ++ level_name level ++ bytes_of "-f" ++ pad20 file_id ++ bytes_of "-g" ++
  pad20 generation ++ bytes_of "-s" ++ pad20 max_sequence ++ bytes_of ".sst".

Definition table_path (o : SSTableManagerOptions) (level : SSTableLevel)
    (file_id generation max_sequence : Z) : str :=
  path_join (so_directory o) (table_filename level file_id generation max_sequence).

(** Opens a table that is on disk. *)
Definition open_table (path : str) (bloom : option BloomFilter) : stm SSTableManager SSTableReader :=
  s ← sget;
  on_rs (sst_open path (lexically_normal path) (contents (sm_fs s) path) bloom).

(** The greatest sequence number and generation of the tables. *)
Definition max_of (f : SSTableMetadata -> Z) (tables : list ManagedTable) : Z :=
  foldl (fun a t => Z.max a (f (mg_metadata t))) 0 tables.

Definition next_generation_of (tables : list ManagedTable) : result Z :=
  if is_nil tables then mret 0
  else
    _ ← throw_if (max_of md_generation tables =? u64_max)
          (OverflowError "SSTable generation space is exhausted");
    mret (max_of md_generation tables + 1).

Definition on_manifest (tables : list SSTableMetadata) : stm SSTableManager unit :=
  s ← sget;
  res ← on_fs (commit (sm_manifest s) tables (sm_next_file_id s));
  smodify (set_manifest res.2).

Definition publish_tables_locked (tables : list ManagedTable) (live_key_count : Z) : stm SSTableManager unit :=
  let tables := sort_tables tables in
  _ ← slift (validate_level1_ranges tables);
  let new_max_sequence := max_of md_max_sequence_number tables in
  new_next_generation ← slift (next_generation_of tables);
  _ ← on_manifest (metadata_for tables);
  _ ← smodify (set_readers tables);
  _ ← smodify (set_counters live_key_count new_max_sequence new_next_generation);
  _ ← smodify bump_version;
  smodify (fun s => set_rs (clear_cache (sm_rs s)) s).

(** *** Flushing *)

Definition max_sequence_of (entries : list (str * Entry)) : Z :=
  foldl (fun a kv => Z.max a (e_seq kv.2)) 0 entries.

(** What [flush] and [compact_level0] both do with their entries: a file
    identifier is reserved, the file written, and a reader opened on it with a
    filter of its keys. *)
Definition write_table (snapshot : list (str * Entry)) (level : SSTableLevel) (generation : Z)
    : stm SSTableManager (Z * SSTableMetadata * SSTableReader) :=
  let max_sequence := max_sequence_of snapshot in
  file_id ← reserve_file_id;
  s ← sget;
  let path := table_path (sm_options s) level file_id generation max_sequence in
  metadata ← on_fs (sst_write snapshot
    (mkWriterOptions path generation (so_target_data_block_bytes (sm_options s))));
  bloom ← slift (build_bloom_filter (sm_options s) snapshot);
  new_reader ← open_table (md_path metadata) (Some bloom);
  mret (file_id, metadata, new_reader).

(** A turn of the loop: the count is taken from the state as it was, and the
    table is published unless the state has changed since. *)
Definition flush_attempt (snapshot : list (str * Entry)) (new_reader : SSTableReader)
    (state_readers : list ManagedTable) (state_live_key_count state_version : Z) : stm SSTableManager bool :=
  new_live_count ← on_rs (live_count_after_flush state_readers snapshot state_live_key_count);
  s ← sget;
  if negb (sm_state_version s =? state_version) then mret false
  else
    _ ← publish_tables_locked (state_readers ++ [mkManaged new_reader Level0]) new_live_count;
    mret true.

(** The loop around it.  Turns are counted; one is enough when no other
    thread publishes in between. *)
Fixpoint flush_loop (turns : nat) (snapshot : list (str * Entry)) (new_reader : SSTableReader)
    : stm SSTableManager unit :=
  match turns with
  | O => sthrow (LogicError "flush is starved by other writers")
  | S turns' =>
      s ← sget;
      published ← flush_attempt snapshot new_reader (sm_readers s) (sm_live_key_count s) (sm_state_version s);
      if (published : bool) then mret tt else flush_loop turns' snapshot new_reader
  end.

Definition kFlushTurns : nat := 1.

Definition flush (table : MemTable) : stm SSTableManager SSTableMetadata :=
  _ ← slift (throw_if (negb (immutable_ table))
               (InvalidArgument "only immutable MemTables can be flushed to SSTables"));
  let snapshot := mt_snapshot table in
  _ ← slift (throw_if (is_nil snapshot) (InvalidArgument "cannot flush an empty MemTable"));
  made ← write_table snapshot Level0 (generation_ table);
  let '(_, metadata, new_reader) := made in
  _ ← flush_loop kFlushTurns snapshot new_reader;
  mret (with_level Level0 metadata).

(** *** Compaction *)

Record CompactionSelection := mkSelection {
  cs_selected : list ManagedTable;
  cs_unselected : list ManagedTable;
  cs_smallest_key : str;
  cs_largest_key : str
}.

(** The comparator of the selection: oldest first. *)
Definition older_table (left right : ManagedTable) : bool :=
  let lhs := mg_metadata left in
  let rhs := mg_metadata right in
  if negb (md_max_sequence_number lhs =? md_max_sequence_number rhs) then
    md_max_sequence_number lhs <? md_max_sequence_number rhs
  else md_generation lhs <? md_generation rhs.

(** A pass over the tables: those of level 1 that the range meets join the
    selection and widen it.  Answers whether one did. *)
Fixpoint expand_pass (tables : list ManagedTable) (sel : CompactionSelection) (paths : gset str) (expanded : bool)
    : CompactionSelection * gset str * bool :=
  match tables with
  | [] => (sel, paths, expanded)
  | table :: rest =>
      if negb (is_level Level1 table) then expand_pass rest sel paths expanded
      else if bool_decide (mg_path table ∈ paths) then expand_pass rest sel paths expanded
      else
        let metadata := mg_metadata table in
        if ranges_overlap (cs_smallest_key sel) (cs_largest_key sel) (md_smallest_key metadata)
             (md_largest_key metadata) then
          expand_pass rest
            (mkSelection (cs_selected sel ++ [table]) (cs_unselected sel)
               (str_min (cs_smallest_key sel) (md_smallest_key metadata))
               (str_max (cs_largest_key sel) (md_largest_key metadata)))
            ({[mg_path table]} ∪ paths) true
        else expand_pass rest sel paths expanded
  end.

(** [while (expanded)]: every pass but the last selects a table, so there are
    at most one more than there are tables. *)
Fixpoint expand_loop (fuel : nat) (tables : list ManagedTable) (sel : CompactionSelection) (paths : gset str)
    : CompactionSelection * gset str :=
  match fuel with
  | O => (sel, paths)
  | S fuel' =>
      match expand_pass tables sel paths false with
      | (sel', paths', true) => expand_loop fuel' tables sel' paths'
      | (sel', paths', false) => (sel', paths')
      end
  end.

Definition paths_of (tables : list ManagedTable) : gset str := list_to_set (map mg_path tables).

Definition select_level0_compaction_locked (s : SSTableManager) (force_all : bool) : CompactionSelection :=
  let level0 := List.filter (is_level Level0) (sm_readers s) in
  if is_nil level0 || (negb force_all && (zlen level0 <? so_level0_compaction_trigger (sm_options s))) then
    mkSelection [] [] [] []
  else
    let level0 := sort_by older_table level0 in
    let selected_count :=
      if force_all then zlen level0 else Z.min (zlen level0) (so_level0_compaction_max_tables (sm_options s)) in
    let selected := take (Z.to_nat selected_count) level0 in
    let front key := default [] ((fun t => key (mg_metadata t)) <$> head selected) in
    let smallest := foldl (fun k t => str_min k (md_smallest_key (mg_metadata t))) (front md_smallest_key) selected in
    let largest := foldl (fun k t => str_max k (md_largest_key (mg_metadata t))) (front md_largest_key) selected in
    let '(sel, paths) :=
      expand_loop (S (length (sm_readers s))) (sm_readers s) (mkSelection selected [] smallest largest)
        (paths_of selected) in
    mkSelection (cs_selected sel)
      (List.filter (fun t => negb (bool_decide (mg_path t ∈ paths))) (sm_readers s))
      (cs_smallest_key sel) (cs_largest_key sel).

Fixpoint can_drop_tombstone (key : str) (tombstone : Entry) (unselected : list ManagedTable)
    : stm RState bool :=
  match unselected with
  | [] => mret true
  | table :: rest =>
      if outside key (mg_metadata table) then can_drop_tombstone key tombstone rest
      else
        entry ← sst_get (mg_reader table) key;
        match entry with
        | Some e => if negb (e_deleted e) && (e_seq e <=? e_seq tombstone) then mret false
                    else can_drop_tombstone key tombstone rest
        | None => can_drop_tombstone key tombstone rest
        end
  end.

(** The loop over the merged entries: those that stay, and how many go. *)
Fixpoint drop_tombstones (unselected : list ManagedTable) (merged kept : list (str * Entry)) (dropped : Z)
    : stm RState (list (str * Entry) * Z) :=
  match merged with
  | [] => mret (kept, dropped)
  | (key, entry) :: rest =>
      if e_deleted entry then
        drop_it ← can_drop_tombstone key entry unselected;
        if (drop_it : bool) then drop_tombstones unselected rest kept (u64 (dropped + 1))
        else drop_tombstones unselected rest (kept ++ [(key, entry)]) dropped
      else drop_tombstones unselected rest (kept ++ [(key, entry)]) dropped
  end.

(** The table of the merged entries, when there are any. *)
Definition write_output (compacted : list (str * Entry)) (output_generation : Z)
    : stm SSTableManager (option ManagedTable * Z) :=
  if is_nil compacted then mret (None, 0)
  else
    made ← write_table compacted Level1 output_generation;
    let '(file_id, _, reader) := made in
    mret (Some (mkManaged reader Level1), file_id).

Definition option_list {A} (o : option A) : list A := match o with Some a => [a] | None => [] end.

(** The list of tables after the compaction, and the files that go. *)
Definition replace_tables (selected : list ManagedTable) (output : option ManagedTable) (readers : list ManagedTable)
    : result (list ManagedTable * list str) :=
  let selected_paths := paths_of selected in
  let is_selected t := bool_decide (mg_path t ∈ selected_paths) in
  _ ← throw_if (negb (bool_decide (selected_paths ⊆ paths_of readers)))
        (RuntimeError "compaction input changed before manifest publication");
  mret (List.filter (fun t => negb (is_selected t)) readers ++ option_list output,
        map (fun t => md_path (mg_metadata t)) (List.filter is_selected readers)).

Definition count_compaction (r : CompactionResult) (c : CompactionStatistics) : CompactionStatistics :=
  mkCompactionStatistics (u64 (cs_runs c + 1)) (u64 (cs_input_tables c + cr_input_tables r))
    (u64 (cs_output_tables c + cr_output_tables r)) (u64 (cs_input_entries c + cr_input_entries r))
    (u64 (cs_output_entries c + cr_output_entries r))
    (u64 (cs_tombstones_dropped c + cr_tombstones_dropped r)).

Fixpoint remove_files (paths : list str) (removed_any : bool) : stm Fs bool :=
  match paths with
  | [] => mret removed_any
  | path :: rest => res ← fs_remove path; remove_files rest (removed_any || res.1)
  end.

Definition compact_level0 (force_all : bool) : stm SSTableManager CompactionResult :=
  s ← sget;
  let selection := select_level0_compaction_locked s force_all in
  if is_nil (cs_selected selection) then mret no_compaction
  else
    merged ← on_rs (merge_tables (cs_selected selection) []);
    let output_generation := max_of md_generation (cs_selected selection) in
    let input_entries := foldl (fun n t => u64 (n + md_entry_count (mg_metadata t))) 0 (cs_selected selection) in
    kept ← on_rs (drop_tombstones (cs_unselected selection) merged [] 0);
    let '(compacted, dropped) := kept in
    out ← write_output compacted output_generation;
    let '(output, file_id) := out in
    let r := mkCompactionResult true (zlen (cs_selected selection)) (zlen (option_list output)) input_entries
               (zlen compacted) dropped file_id in
    s ← sget;
    replaced ← slift (replace_tables (cs_selected selection) output (sm_readers s));
    let '(replacement, obsolete_paths) := replaced in
    _ ← publish_tables_locked replacement (sm_live_key_count s);
    _ ← smodify (fun s => set_statistics (count_compaction r (sm_statistics s)) s);
    removed_any ← on_fs (remove_files obsolete_paths false);
    _ ← (if (removed_any : bool) then on_fs sync_directory else mret tt);
    mret r.

Definition level_table_count (level : SSTableLevel) (s : SSTableManager) : Z :=
  zlen (List.filter (is_level level) (sm_readers s)).

Definition needs_compaction (s : SSTableManager) : bool :=
  so_level0_compaction_trigger (sm_options s) <=? level_table_count Level0 s.

Definition compact_if_needed : stm SSTableManager CompactionResult :=
  s ← sget;
  if negb (needs_compaction s) then mret no_compaction else compact_level0 false.

Definition sm_get (key : str) : stm SSTableManager (option Entry) :=
  _ ← slift (validate_key key);
  s ← sget;
  on_rs (newest_entry_from_tables (sm_readers s) key).

(** *** Opening the directory *)

Fixpoint remove_temporaries (paths : list str) : stm Fs unit :=
  match paths with
  | [] => mret tt
  | path :: rest =>
      _ ← (if is_temporary_storage_path path then _ ← fs_remove path; mret tt else mret tt);
      remove_temporaries rest
  end.

Definition names (f : Fs) : list str := map fst (map_to_list (fs_dir f)).

Definition on_load : stm SSTableManager (option ManifestSnapshot) :=
  s ← sget;
  res ← slift (load (sm_manifest s) (all_contents (sm_fs s)));
  _ ← smodify (set_manifest res.2);
  mret res.1.

(** A table is opened twice: to read its keys, and with their filter. *)
Definition open_with_filter (path : str) (expected : option SSTableMetadata) (level : SSTableLevel)
    : stm SSTableManager ManagedTable :=
  uncached_reader ← open_table path None;
  _ ← slift (throw_if (match expected with
                       | Some m => negb (metadata_matches m (metadata_ uncached_reader))
                       | None => false
                       end) (RuntimeError "manifest metadata mismatch for SSTable"));
  contents ← on_rs (sst_read_all uncached_reader);
  s ← sget;
  bloom ← slift (build_bloom_filter (sm_options s) contents);
  reader ← open_table path (Some bloom);
  mret (mkManaged reader level).

Fixpoint load_tables (tables : list SSTableMetadata) (loaded : list ManagedTable)
    : stm SSTableManager (list ManagedTable) :=
  match tables with
  | [] => mret loaded
  | expected :: rest =>
      t ← open_with_filter (md_path expected) (Some expected) (md_level expected);
      load_tables rest (loaded ++ [t])
  end.

Definition load_manifest_snapshot (snapshot : ManifestSnapshot) : stm SSTableManager unit :=
  loaded ← load_tables (mf_tables snapshot) [];
  let readers := sort_tables loaded in
  _ ← smodify (set_readers readers);
  _ ← slift (validate_level1_ranges readers);
  smodify (set_next_file_id (mf_next_file_id snapshot)).

Fixpoint migrate_tables (paths : list str) : stm SSTableManager unit :=
  match paths with
  | [] => mret tt
  | path :: rest =>
      t ← open_with_filter path None Level0;
      _ ← smodify (fun s => set_readers (sm_readers s ++ [t]) s);
      migrate_tables rest
  end.

Definition migrate_legacy_tables : stm SSTableManager unit :=
  s ← sget;
  let paths := sort_by str_ltb (List.filter is_sstable_path (names (sm_fs s))) in
  _ ← migrate_tables paths;
  _ ← smodify (fun s => set_readers (sort_tables (sm_readers s)) s);
  _ ← smodify (set_next_file_id 1);
  s ← sget;
  on_manifest (metadata_for (sm_readers s)).

Fixpoint remove_abandoned (paths : list str) (active : gset str) (removed_any : bool) : stm Fs bool :=
  match paths with
  | [] => mret removed_any
  | path :: rest =>
      if negb (is_sstable_path path) || bool_decide (path_filename path ∈ active) then
        remove_abandoned rest active removed_any
      else
        res ← fs_remove path;
        match res.2 with
        | Some e => sthrow (SystemError e "failed to remove abandoned SSTable file")
        | None => remove_abandoned rest active (removed_any || res.1)
        end
  end.

Definition cleanup_abandoned_files (active_tables : list SSTableMetadata) : stm SSTableManager unit :=
  s ← sget;
  removed_any ← on_fs (remove_abandoned (names (sm_fs s))
    (list_to_set (map (fun t => path_filename (md_path t)) active_tables)) false);
  if (removed_any : bool) then on_fs sync_directory else mret tt.

Definition recalculate_state_locked : stm SSTableManager unit :=
  s ← sget;
  _ ← smodify (set_counters (sm_live_key_count s) (max_of md_max_sequence_number (sm_readers s))
                 (sm_next_generation s));
  next ← slift (next_generation_of (sm_readers s));
  smodify (fun s => set_counters (sm_live_key_count s) (sm_max_sequence_number s) next s).

Definition load_existing : stm SSTableManager unit :=
  s ← sget;
  _ ← on_fs (remove_temporaries (names (sm_fs s)));
  snapshot ← on_load;
  _ ← match snapshot with
      | Some snapshot => load_manifest_snapshot snapshot
      | None => migrate_legacy_tables
      end;
  s ← sget;
  _ ← cleanup_abandoned_files (metadata_for (sm_readers s));
  live ← on_rs (compute_live_key_count (sm_readers s));
  _ ← smodify (fun s => set_counters live (sm_max_sequence_number s) (sm_next_generation s) s);
  _ ← recalculate_state_locked;
  smodify (fun s => set_rs (clear_cache (sm_rs s)) s).

(** The constructor: the members in their order, then its body. *)
Definition new_manager (o : SSTableManagerOptions) (f : Fs) (script : list io_event)
    : result unit * SSTableManager :=
  let base c := mkManager o (mkManifestManager (so_directory o) [] 0) [] 0 0 0 1
                  (mkCompactionStatistics 0 0 0 0 0 0) 0 f (mkRState script c 0 0) in
  match bc_new (so_block_cache_capacity_bytes o) with
  | Throw e => (Throw e, base None)
  | Ok cache =>
      (m ← on_fs (new_manifest_manager (so_directory o));
       _ ← slift (throw_if (is_nil (so_directory o)) (InvalidArgument "SSTable directory must not be empty"));
       _ ← slift (throw_if ((so_target_data_block_bytes o =? 0) || (u32_max <? so_target_data_block_bytes o))
             (InvalidArgument "SSTable target data block size is invalid"));
       _ ← slift (throw_if (negb (so_rate_ok o))
             (InvalidArgument "SSTable Bloom filter false-positive rate must be between zero and one"));
       _ ← slift (throw_if ((so_level0_compaction_trigger o <? 2) || (so_level0_compaction_max_tables o <? 2)
                            || (so_level0_compaction_max_tables o <? so_level0_compaction_trigger o))
             (InvalidArgument "Level-0 compaction limits must be at least two and max must meet trigger"));
       _ ← on_fs (fs_call (fun e => SystemError e "filesystem error: cannot create directories"));
       _ ← smodify (set_manifest m);
       load_existing) (base (Some cache))
  end.
