(* ===== verification/TableView.v ===== *)
(** * What the tables hold

    The manager reads its tables through [sst_get] and [sst_read_all].  The
    class [TableView] states what those promise; the loops of
    src/sstable_manager.cpp over a list of tables are proved against it, and
    the readers of tables on disk are an instance.  The specification is
    [newest]: of the entries that the tables hold for a key, the one with the
    greatest sequence number. *)

From S2P Require Import Prelude OrderedMap Posix Store MemTable BloomFilter BlockCache SstFormat SstWriter SstReader.
From S2P Require Import Path FileSystem Manifest SstManager.

(** ** The interface *)

Class TableView (good : RState -> Prop) (holds : SSTableReader -> list (str * Entry) -> Prop) := {
  tv_get : forall rd es key st, holds rd es -> good st -> valid_key key ->
    exists st', sst_get rd key st = (Ok (om_find key es), st') /\ good st';
  tv_read_all : forall rd es st, holds rd es -> good st ->
    exists st', sst_read_all rd st = (Ok es, st') /\ good st';
  tv_sorted : forall rd es, holds rd es -> om_wf es;
  tv_entries : forall rd es, holds rd es -> Forall wf_entry es;
  tv_range : forall rd es k e, holds rd es -> (k, e) ∈ es ->
    str_le (md_smallest_key (metadata_ rd)) k /\ str_le k (md_largest_key (metadata_ rd));
  tv_smallest : forall rd es, holds rd es -> exists e, (md_smallest_key (metadata_ rd), e) ∈ es;
  tv_largest : forall rd es, holds rd es -> exists e, (md_largest_key (metadata_ rd), e) ∈ es;
  tv_sequences : forall rd es k e, holds rd es -> (k, e) ∈ es ->
    e_seq e <= md_max_sequence_number (metadata_ rd) <= u64_max
}.

(** ** The newest entry of a key *)

Definition newest (ess : list (list (str * Entry))) (key : str) : option Entry :=
  foldl newest_of None (om_find key <$> ess).

(** What a client sees of it. *)
Definition visible (o : option Entry) : option str :=
  match o with Some e => if e_deleted e then None else Some (e_value e) | None => None end.

(** Two entries of a key with the same sequence number are the same. *)
Definition consistent (ess : list (list (str * Entry))) : Prop :=
  forall es1 es2 k e1 e2, es1 ∈ ess -> es2 ∈ ess ->
    om_find k es1 = Some e1 -> om_find k es2 = Some e2 -> e_seq e1 = e_seq e2 -> e1 = e2.

(** [o] is the newest entry of [key] in [ess]. *)
Definition is_newest (ess : list (list (str * Entry))) (key : str) (o : option Entry) : Prop :=
  match o with
  | None => forall es, es ∈ ess -> om_find key es = None
  | Some e => (exists es, es ∈ ess /\ om_find key es = Some e) /\
              forall es e', es ∈ ess -> om_find key es = Some e' -> e_seq e' <= e_seq e
  end.

Lemma newest_snoc ess es key : newest (ess ++ [es]) key = newest_of (newest ess key) (om_find key es).
Proof. unfold newest. by rewrite fmap_app, foldl_app. Qed.

Lemma newest_spec ess key : is_newest ess key (newest ess key).
Proof.
  induction ess as [|es ess IH] using rev_ind; [intros es Hes; by apply not_elem_of_nil in Hes|].
  rewrite newest_snoc. destruct (newest ess key) as [n|] eqn:En, (om_find key es) as [c|] eqn:Ec; simpl in IH |- *.
  - destruct IH as [(es0 & Hin & Hf) Hmax]. destruct (e_seq n <? e_seq c) eqn:E; zbool; split.
    + exists es. split; [apply elem_of_app; right; by left|done].
    + intros es' e' [Hin'|Hin'%list_elem_of_singleton]%elem_of_app He'; [|subst; simplify_eq; lia].
      specialize (Hmax _ _ Hin' He'). lia.
    + exists es0. split; [apply elem_of_app; by left|done].
    + intros es' e' [Hin'|Hin'%list_elem_of_singleton]%elem_of_app He'; [by eapply Hmax|subst; simplify_eq; lia].
  - destruct IH as [(es0 & Hin & Hf) Hmax]. split.
    + exists es0. split; [apply elem_of_app; by left|done].
    + intros es' e' [Hin'|Hin'%list_elem_of_singleton]%elem_of_app He'; [by eapply Hmax|subst; congruence].
  - split.
    + exists es. split; [apply elem_of_app; right; by left|done].
    + intros es' e' [Hin'|Hin'%list_elem_of_singleton]%elem_of_app He'; [by rewrite (IH _ Hin') in He'|subst; simplify_eq; lia].
  - intros es' [Hin'|Hin'%list_elem_of_singleton]%elem_of_app; [by apply IH|congruence].
Qed.

Lemma is_newest_unique ess key o o' : consistent ess -> is_newest ess key o -> is_newest ess key o' -> o = o'.
Proof.
  intros Hc H1 H2. destruct o as [e|], o' as [e'|]; simpl in *; try done.
  - destruct H1 as [(es & Hin & Hf) Hm], H2 as [(es' & Hin' & Hf') Hm'].
    f_equal. eapply (Hc es es'); try done. apply Z.le_antisymm; [exact (Hm' es e Hin Hf)|exact (Hm es' e' Hin' Hf')].
  - destruct H1 as [(es & Hin & Hf) _]. by rewrite (H2 es Hin) in Hf.
  - destruct H2 as [(es & Hin & Hf) _]. by rewrite (H1 es Hin) in Hf.
Qed.

Lemma newest_eq ess key o : consistent ess -> is_newest ess key o -> newest ess key = o.
Proof. intros Hc Ho. by eapply is_newest_unique, Ho; [|apply newest_spec]. Qed.

Lemma consistent_sub ess ess' : (forall es, es ∈ ess' -> es ∈ ess) -> consistent ess -> consistent ess'.
Proof. intros Hs Hc es1 es2 k e1 e2 H1 H2. apply Hc; auto. Qed.

(** The order of the tables does not matter. *)
Lemma newest_perm ess ess' key : consistent ess -> ess ≡ₚ ess' -> newest ess key = newest ess' key.
Proof.
  intros Hc Hp. apply newest_eq; [done|]. pose proof (newest_spec ess' key) as H.
  destruct (newest ess' key) as [e|]; simpl in *.
  - destruct H as [(es & Hin & Hf) Hm]. split; [exists es; by rewrite Hp|]. intros es' e' Hin'. apply Hm. by rewrite <- Hp.
  - intros es Hin. apply H. by rewrite <- Hp.
Qed.

Lemma newest_elem ess key e : newest ess key = Some e -> exists es, es ∈ ess /\ om_find key es = Some e.
Proof. intros H. pose proof (newest_spec ess key) as Hs. rewrite H in Hs. apply Hs. Qed.

(** ** Merging *)

(** A merged list holds, for every key, the newest entry of what went in. *)
Lemma merge_entry_find merged kv key :
  om_find key (merge_entry merged kv) =
  if str_eqb key kv.1 then newest_of (om_find key merged) (Some kv.2) else om_find key merged.
Proof.
  unfold merge_entry. destruct (str_eqb key kv.1) eqn:E; sbool.
  - subst key. destruct (om_find kv.1 merged) as [x|] eqn:Ef; simpl.
    + destruct (e_seq x <? e_seq kv.2); [by rewrite om_find_insert_eq|done].
    + by rewrite om_find_insert_eq.
  - destruct (om_find kv.1 merged) as [x|]; [destruct (e_seq x <? e_seq kv.2)|];
      rewrite ?om_find_insert_ne by done; done.
Qed.

Lemma merge_entry_wf merged kv : om_wf merged -> om_wf (merge_entry merged kv).
Proof.
  intros H. unfold merge_entry. destruct (om_find kv.1 merged); [destruct (_ <? _)|]; auto using om_insert_wf.
Qed.

Lemma merge_fold_find es merged key :
  om_wf es -> om_find key (foldl merge_entry merged es) = newest_of (om_find key merged) (om_find key es).
Proof.
  revert merged. induction es as [|[k e] es IH]; intros merged; [done|].
  rewrite om_wf_cons. intros [Hwf Hlt]. cbn [foldl]. rewrite IH by done. rewrite merge_entry_find. cbn [om_find fst snd].
  destruct (str_eqb key k) eqn:E; sbool; [|done]. subst key. rewrite (om_find_lt k es) by done. done.
Qed.

Lemma merge_fold_wf es merged : om_wf merged -> om_wf (foldl merge_entry merged es).
Proof. revert merged. induction es as [|kv es IH]; intros merged H; [done|]. simpl. by apply IH, merge_entry_wf. Qed.

Definition merge_all (ess : list (list (str * Entry))) : list (str * Entry) :=
  foldl (fun m es => foldl merge_entry m es) [] ess.

Lemma merge_all_wf ess : om_wf (merge_all ess).
Proof.
  unfold merge_all. induction ess as [|es ess IH] using rev_ind; [constructor|].
  rewrite foldl_app. by apply merge_fold_wf.
Qed.

Lemma merge_all_find ess key : Forall om_wf ess -> om_find key (merge_all ess) = newest ess key.
Proof.
  induction ess as [|es ess IH] using rev_ind; intros H; [done|]. apply Forall_app in H as [H1 H2].
  apply Forall_cons in H2 as [H2 _]. rewrite newest_snoc, <- IH by done.
  unfold merge_all. rewrite foldl_app. cbn [foldl]. by rewrite merge_fold_find.
Qed.

(** ** The loops over the tables *)

Section loops.
Context {good : RState -> Prop} {holds : SSTableReader -> list (str * Entry) -> Prop}.
Context {TV : TableView good holds}.

(** The tables and what they hold. *)
Definition tables_hold (ts : list ManagedTable) (ess : list (list (str * Entry))) : Prop :=
  Forall2 (fun t es => holds (mg_reader t) es) ts ess.

Lemma outside_find rd es key : holds rd es -> outside key (metadata_ rd) = true -> om_find key es = None.
Proof.
  intros Hh Ho. apply om_find_None_lt. intros [k e] Hr Ek. simpl in Ek. subst k.
  destruct (tv_range _ _ _ _ Hh Hr) as [H1 H2]. unfold outside in Ho.
  apply orb_true_iff in Ho as [Ho|Ho]; sbool; apply (str_lt_irrefl key);
    [by eapply str_lt_le_trans|by eapply str_le_lt_trans].
Qed.

Lemma newest_loop_ok ts ess key o st :
  tables_hold ts ess -> good st -> valid_key key ->
  exists st', newest_loop ts key o st = (Ok (foldl newest_of o (om_find key <$> ess)), st') /\ good st'.
Proof.
  intros Ht. revert o st. induction Ht as [|t es ts ess Hh Ht IH]; intros o st Hg Hk; [by exists st|].
  cbn [newest_loop]. rewrite fmap_cons. cbn [foldl]. destruct (outside key (mg_metadata t)) eqn:E.
  - rewrite (outside_find _ _ _ Hh E). destruct (IH o st Hg Hk) as (st' & E' & Hg'). exists st'. by destruct o.
  - unfold mbind, stm_bind. destruct (tv_get _ _ key st Hh Hg Hk) as (st1 & -> & Hg1). by apply IH.
Qed.

Lemma newest_entry_ok ts ess key st :
  tables_hold ts ess -> good st -> valid_key key ->
  exists st', newest_entry_from_tables ts key st = (Ok (newest ess key), st') /\ good st'.
Proof. apply newest_loop_ok. Qed.

Lemma merge_tables_ok ts ess merged st :
  tables_hold ts ess -> good st ->
  exists st', merge_tables ts merged st = (Ok (foldl (fun m es => foldl merge_entry m es) merged ess), st') /\ good st'.
Proof.
  intros Ht. revert merged st. induction Ht as [|t es ts ess Hh Ht IH]; intros merged st Hg; [by exists st|].
  cbn [merge_tables]. unfold mbind, stm_bind. destruct (tv_read_all _ _ st Hh Hg) as (st1 & -> & Hg1). by apply IH.
Qed.

Lemma tables_sorted ts ess : tables_hold ts ess -> Forall om_wf ess.
Proof. induction 1; constructor; [by eapply tv_sorted|done]. Qed.

(** [e] is a tombstone that hides nothing older in [ess]. *)
Definition hides_nothing (key : str) (tomb : Entry) (ess : list (list (str * Entry))) : Prop :=
  forall es e, es ∈ ess -> om_find key es = Some e -> e_deleted e = false -> e_seq tomb < e_seq e.

Lemma can_drop_ok ts ess key tomb st :
  tables_hold ts ess -> good st -> valid_key key ->
  exists b st', can_drop_tombstone key tomb ts st = (Ok b, st') /\ good st' /\
    (b = true <-> hides_nothing key tomb ess).
Proof.
  intros Ht. revert st. induction Ht as [|t es ts ess Hh Ht IH]; intros st Hg Hk.
  { exists true, st. split_and!; [done..|]. split; [|done]. intros _ es e Hes. by apply not_elem_of_nil in Hes. }
  assert (Hrest : forall st1, good st1 -> (forall e, om_find key es = Some e -> e_deleted e = false -> e_seq tomb < e_seq e) ->
    exists b st', can_drop_tombstone key tomb ts st1 = (Ok b, st') /\ good st' /\
      (b = true <-> hides_nothing key tomb (es :: ess))).
  { intros st1 Hg1 Hes. destruct (IH st1 Hg1 Hk) as (b & st' & E & Hg' & Hb). exists b, st'. split_and!; [done..|].
    rewrite Hb. split.
    - intros H es' e [->|Hin]%elem_of_cons; [by apply Hes|by apply H].
    - intros H es' e Hin. apply (H es' e). by right. }
  cbn [can_drop_tombstone]. destruct (outside key (mg_metadata t)) eqn:Eo.
  { apply Hrest; [done|]. by rewrite (outside_find _ _ _ Hh Eo). }
  unfold mbind, stm_bind. destruct (tv_get _ _ key st Hh Hg Hk) as (st1 & -> & Hg1).
  destruct (om_find key es) as [e|] eqn:Ef; [|by apply Hrest].
  destruct (negb (e_deleted e) && (e_seq e <=? e_seq tomb)) eqn:Eb.
  - exists false, st1. split_and!; [done..|]. split; [done|]. intros H. zbool.
    specialize (H es e ltac:(by left) Ef ltac:(done)). lia.
  - apply Hrest; [done|]. intros e' [= <-] Hd. rewrite Hd in Eb. simpl in Eb. zbool. lia.
Qed.

(** What remains of the merged entries. *)
Definition keeps_entry (ess : list (list (str * Entry))) (kv : str * Entry) : Prop :=
  e_deleted kv.2 = true -> ~ hides_nothing kv.1 kv.2 ess.

Lemma drop_tombstones_ok ts ess merged kept dropped st :
  tables_hold ts ess -> good st -> Forall (fun kv => valid_key kv.1) merged ->
  exists out n st', drop_tombstones ts merged kept dropped st = (Ok (kept ++ out, n), st') /\ good st' /\
    out `sublist_of` merged /\
    (forall kv, kv ∈ out <-> kv ∈ merged /\ keeps_entry ess kv).
Proof.
  intros Ht. revert kept dropped st. induction merged as [|[k e] merged IH]; intros kept dropped st Hg Hv.
  { exists [], dropped, st. rewrite app_nil_r. split_and!; try done. intros kv. split; [|by intros []].
    intros H. by apply not_elem_of_nil in H. }
  apply Forall_cons in Hv as [Hk Hv]. cbn [drop_tombstones fst] in *.
  assert (Hkeep : forall st1, good st1 -> keeps_entry ess (k, e) ->
    exists out n st', drop_tombstones ts merged (kept ++ [(k, e)]) dropped st1 = (Ok (kept ++ out, n), st') /\
      good st' /\ out `sublist_of` (k, e) :: merged /\
      (forall kv, kv ∈ out <-> kv ∈ (k, e) :: merged /\ keeps_entry ess kv)).
  { intros st1 Hg1 Hke. destruct (IH (kept ++ [(k, e)]) dropped st1 Hg1 Hv) as (out & n & st' & E & Hg' & Hs & Ho).
    exists ((k, e) :: out), n, st'. rewrite E, <- app_assoc. split_and!; [done..|by apply sublist_skip|].
    intros kv. rewrite !elem_of_cons, Ho. split; [intros [->|[? ?]]; by split; [auto|]|].
    intros [[->|?] ?]; [by left|right; by split]. }
  destruct (e_deleted e) eqn:Ed; [|by apply Hkeep; [|intros H; simpl in H; congruence]].
  unfold mbind, stm_bind. destruct (can_drop_ok ts ess k e st Ht Hg Hk) as (b & st1 & -> & Hg1 & Hb).
  destruct b; [|apply Hkeep; [done|]; intros _ H; simpl in H; by apply Hb in H].
  destruct (IH kept (u64 (dropped + 1)) st1 Hg1 Hv) as (out & n & st' & E & Hg' & Hs & Ho).
  exists out, n, st'. split_and!; [done..|by apply sublist_cons|].
  intros kv. rewrite Ho, elem_of_cons. split; [intros [? ?]; by split; [right|]|].
  intros [[->|?] Hke]; [|done]. exfalso. apply Hke; [done|]. by apply Hb.
Qed.
End loops.

(** ** Live keys *)

(** What a client sees of the tables. *)
Definition view (ess : list (list (str * Entry))) : gmap str str :=
  omap (fun e => visible (Some e)) (list_to_map (merge_all ess)).

Lemma view_lookup ess key : Forall om_wf ess -> view ess !! key = visible (newest ess key).
Proof.
  intros H. unfold view. rewrite lookup_omap, om_find_list_to_map, merge_all_find by done.
  by destruct (newest ess key).
Qed.

Lemma view_ext ess ess' :
  Forall om_wf ess -> Forall om_wf ess' ->
  (forall key, visible (newest ess key) = visible (newest ess' key)) -> view ess = view ess'.
Proof. intros H1 H2 H. apply map_eq. intros key. by rewrite !view_lookup. Qed.

Lemma size_omap_list (m : list (str * Entry)) :
  om_wf m ->
  Z.of_nat (size (omap (fun e => visible (Some e)) (list_to_map m : gmap str Entry))) =
  om_count (fun e => negb (e_deleted e)) m.
Proof.
  induction m as [|[k e] m IH]; intros Hwf.
  { change (list_to_map []) with (∅ : gmap str Entry). by rewrite omap_empty, map_size_empty. }
  apply om_wf_cons in Hwf as [Hwf Hlt]. cbn [list_to_map fst snd]. simpl list_to_map.
  assert (Hk : (list_to_map m : gmap str Entry) !! k = None) by (rewrite om_find_list_to_map; by apply om_find_lt).
  unfold om_count in *. rewrite filter_cons. cbn [snd]. destruct (e_deleted e) eqn:Ed; cbn [negb].
  - rewrite decide_False by done. rewrite omap_insert_None by (simpl; by rewrite Ed).
    rewrite delete_id; [by apply IH|]. by rewrite lookup_omap, Hk.
  - rewrite decide_True by done. rewrite (omap_insert_Some _ _ _ _ (e_value e)) by (simpl; by rewrite Ed).
    rewrite map_size_insert_None by by rewrite lookup_omap, Hk.
    unfold zlen in *. simpl length. rewrite Nat2Z.inj_succ, IH by done. lia.
Qed.

Section live.
Context {good : RState -> Prop} {holds : SSTableReader -> list (str * Entry) -> Prop}.
Context {TV : TableView good holds}.

Lemma compute_live_ok ts ess st :
  tables_hold (holds := holds) ts ess -> good st ->
  exists st', compute_live_key_count ts st = (Ok (Z.of_nat (size (view ess))), st') /\ good st'.
Proof.
  intros Ht Hg. unfold compute_live_key_count, mbind, stm_bind.
  destruct (merge_tables_ok ts ess [] st Ht Hg) as (st1 & -> & Hg1). exists st1. split; [|done].
  unfold view. rewrite size_omap_list by apply merge_all_wf. done.
Qed.
End live.

(** ** The count after a flush *)

Lemma om_find_snoc (m : list (str * Entry)) k e key :
  om_find k m = None -> om_find key (m ++ [(k, e)]) = if str_eqb key k then Some e else om_find key m.
Proof.
  intros Hk. rewrite om_find_app. cbn [om_find]. destruct (str_eqb key k) eqn:E; sbool.
  - subst key. by rewrite Hk.
  - by destruct (om_find key m).
Qed.

Lemma last_key_absent (m : list (str * Entry)) k e : om_wf (m ++ [(k, e)]) -> om_find k m = None.
Proof.
  intros (_ & _ & Hlt)%om_wf_app. apply om_find_None_lt. intros r Hr E. apply (str_lt_irrefl k).
  rewrite <- E at 1. by apply (Hlt r (k, e)); [|left].
Qed.

(** One more entry in the last table. *)
Lemma view_snoc ess m k e :
  Forall om_wf ess -> om_wf (m ++ [(k, e)]) ->
  view (ess ++ [m ++ [(k, e)]]) =
  match newest ess k with
  | Some p => if e_seq e <=? e_seq p then view (ess ++ [m])
              else match visible (Some e) with Some v => <[k := v]> (view (ess ++ [m])) | None => delete k (view (ess ++ [m])) end
  | None => match visible (Some e) with Some v => <[k := v]> (view (ess ++ [m])) | None => delete k (view (ess ++ [m])) end
  end.
Proof.
  intros He Hm. pose proof Hm as Hm'. apply om_wf_app in Hm' as (Hm1 & _).
  pose proof (last_key_absent m k e Hm) as Hk.
  assert (W1 : Forall om_wf (ess ++ [m ++ [(k, e)]])) by (apply Forall_app; split; [done|by constructor]).
  assert (W2 : Forall om_wf (ess ++ [m])) by (apply Forall_app; split; [done|by constructor]).
  assert (Hn : forall key, newest (ess ++ [m ++ [(k, e)]]) key =
    if str_eqb key k then newest_of (newest ess k) (Some e) else newest (ess ++ [m]) key).
  { intros key. rewrite !newest_snoc, om_find_snoc by done. destruct (str_eqb key k) eqn:E; [|done]. by sbool; subst. }
  assert (Hmk : newest (ess ++ [m]) k = newest ess k) by (rewrite newest_snoc, Hk; by destruct (newest ess k)).
  apply map_eq. intros key. rewrite view_lookup, Hn by done.
  assert (Hput : visible (if str_eqb key k then Some e else newest (ess ++ [m]) key) =
    match visible (Some e) with Some v => <[k := v]> (view (ess ++ [m])) | None => delete k (view (ess ++ [m])) end !! key).
  { destruct (str_eqb key k) eqn:E; sbool.
    - subst key. destruct (visible (Some e)); [by rewrite lookup_insert_eq|by rewrite lookup_delete_eq].
    - destruct (visible (Some e)); [rewrite lookup_insert_ne by done|rewrite lookup_delete_ne by done];
        by rewrite view_lookup. }
  destruct (newest ess k) as [p|] eqn:Ep; [|exact Hput].
  cbn [newest_of]. rewrite Z.leb_antisym. destruct (e_seq p <? e_seq e); [exact Hput|]. cbn [negb].
  rewrite view_lookup by done. destruct (str_eqb key k) eqn:E; [|done]. sbool. subst key. by rewrite Hmk.
Qed.

Lemma entry_live_visible o : entry_live o = bool_decide (is_Some (visible o)).
Proof. destruct o as [e|]; [|done]. simpl. by destruct (e_deleted e). Qed.

(** An entry newer than what the tables hold for its key. *)
Definition is_newer (e : Entry) (o : option Entry) : bool :=
  match o with Some p => negb (e_seq e <=? e_seq p) | None => true end.

Lemma live_step ess m k e live :
  Forall om_wf ess -> om_wf (m ++ [(k, e)]) -> live = Z.of_nat (size (view (ess ++ [m]))) -> live + 1 <= u64_max ->
  is_newer e (newest ess k) = true ->
  (if negb (entry_live (newest ess k)) && negb (e_deleted e) then u64 (live + 1)
   else if entry_live (newest ess k) && negb (negb (e_deleted e)) then u64 (live - 1) else live) =
  Z.of_nat (size (view (ess ++ [m ++ [(k, e)]]))) /\
  Z.of_nat (size (view (ess ++ [m ++ [(k, e)]]))) <= live + 1.
Proof.
  intros He Hm Hlive Hmax Hnew. pose proof Hm as (Hm1 & _)%om_wf_app.
  assert (Hvk : view (ess ++ [m]) !! k = visible (newest ess k)).
  { rewrite view_lookup, newest_snoc, (last_key_absent m k e) by (try apply Forall_app; try split; auto).
    by destruct (newest ess k). }
  rewrite (view_snoc ess m k e He Hm), entry_live_visible, <- Hvk.
  assert (E : match newest ess k with
    | Some p => if e_seq e <=? e_seq p then view (ess ++ [m])
                else match visible (Some e) with Some v => <[k := v]> (view (ess ++ [m])) | None => delete k (view (ess ++ [m])) end
    | None => match visible (Some e) with Some v => <[k := v]> (view (ess ++ [m])) | None => delete k (view (ess ++ [m])) end
    end = if e_deleted e then delete k (view (ess ++ [m])) else <[k := e_value e]> (view (ess ++ [m]))).
  { unfold is_newer in Hnew. destruct (newest ess k); [apply negb_true_iff in Hnew; rewrite Hnew|];
      simpl; by destruct (e_deleted e). }
  rewrite E. pose proof (size_insert_live (view (ess ++ [m])) k (e_value e)) as Hi.
  pose proof (size_delete_live (view (ess ++ [m])) k) as Hd.
  destruct (e_deleted e), (bool_decide _) eqn:Eb; cbn [negb andb]; rewrite ?u64_small; lia.
Qed.

Section flush_count.
Context {good : RState -> Prop} {holds : SSTableReader -> list (str * Entry) -> Prop}.
Context {TV : TableView good holds}.

Lemma live_count_ok ts ess m incoming live st :
  tables_hold (holds := holds) ts ess -> good st -> om_wf (m ++ incoming) ->
  Forall (fun kv => valid_key kv.1) incoming ->
  live = Z.of_nat (size (view (ess ++ [m]))) -> live + zlen incoming <= u64_max ->
  exists st', live_count_after_flush ts incoming live st =
      (Ok (Z.of_nat (size (view (ess ++ [m ++ incoming])))), st') /\ good st'.
Proof.
  intros Ht. revert m live st. induction incoming as [|[k e] incoming IH]; intros m live st Hg Hwf Hv Hlive Hmax.
  { exists st. rewrite app_nil_r. by subst live. }
  apply Forall_cons in Hv as [Hk Hv]. cbn [live_count_after_flush fst] in *. unfold mbind, stm_bind.
  destruct (newest_entry_ok ts ess k st Ht Hg Hk) as (st1 & -> & Hg1).
  assert (Hassoc : m ++ (k, e) :: incoming = (m ++ [(k, e)]) ++ incoming) by by rewrite <- app_assoc.
  rewrite Hassoc in Hwf |- *. pose proof Hwf as Hwf'. apply om_wf_app in Hwf' as (Hm & _).
  pose proof (tables_sorted _ _ Ht) as Hes. rewrite zlen_cons in Hmax. pose proof (zlen_nonneg incoming).
  destruct (is_newer e (newest ess k)) eqn:Enew.
  - destruct (live_step ess m k e live Hes Hm Hlive ltac:(lia) Enew) as [Hs Hle].
    assert (match newest ess k with Some p => e_seq e <=? e_seq p | None => false end = false) as ->.
    { unfold is_newer in Enew. destruct (newest ess k); [by apply negb_true_iff|done]. }
    apply IH; try done. lia.
  - unfold is_newer in Enew. pose proof (view_snoc ess m k e Hes Hm) as Hview.
    destruct (newest ess k) as [p|]; [|done]. apply negb_false_iff in Enew. rewrite Enew in Hview |- *.
    apply IH; try done; [by rewrite Hview|lia].
Qed.
End flush_count.

(** ** What a compaction may change *)

Lemma newest_app a b key :
  consistent (a ++ b) -> newest (a ++ b) key = newest_of (newest a key) (newest b key).
Proof.
  intros Hc. apply newest_eq; [done|].
  pose proof (newest_spec a key) as Ha. pose proof (newest_spec b key) as Hb.
  destruct (newest a key) as [x|], (newest b key) as [y|]; simpl in *.
  - destruct Ha as [(ea & Hina & Hfa) Hma], Hb as [(eb & Hinb & Hfb) Hmb].
    destruct (e_seq x <? e_seq y) eqn:E; zbool; split.
    + exists eb. split; [apply elem_of_app; by right|done].
    + intros es e' [Hin|Hin]%elem_of_app He; [specialize (Hma _ _ Hin He); lia|by eapply Hmb].
    + exists ea. split; [apply elem_of_app; by left|done].
    + intros es e' [Hin|Hin]%elem_of_app He; [by eapply Hma|specialize (Hmb _ _ Hin He); lia].
  - destruct Ha as [(ea & Hina & Hfa) Hma]. split; [exists ea; split; [apply elem_of_app; by left|done]|].
    intros es e' [Hin|Hin]%elem_of_app He; [by eapply Hma|by rewrite (Hb _ Hin) in He].
  - destruct Hb as [(eb & Hinb & Hfb) Hmb]. split; [exists eb; split; [apply elem_of_app; by right|done]|].
    intros es e' [Hin|Hin]%elem_of_app He; [by rewrite (Ha _ Hin) in He|by eapply Hmb].
  - intros es [Hin|Hin]%elem_of_app; auto.
Qed.

Lemma newest_of_visible a b :
  (forall x y, a = Some x -> b = Some y -> e_seq x = e_seq y -> x = y) ->
  newest_of a b = newest_of b a.
Proof.
  intros H. destruct a as [x|], b as [y|]; simpl; try done.
  destruct (e_seq x <? e_seq y) eqn:E1, (e_seq y <? e_seq x) eqn:E2; zbool; try done; [lia|].
  rewrite (H x y eq_refl eq_refl) by lia. done.
Qed.

Section compaction.
Context (selected unselected : list (list (str * Entry))) (kept : list (str * Entry)).

Hypothesis Hc : consistent (selected ++ unselected).
Hypothesis Hwf : Forall om_wf selected.
Hypothesis Hkept_wf : om_wf kept.
Hypothesis Hkept : forall kv, kv ∈ kept <-> kv ∈ merge_all selected /\ keeps_entry unselected kv.

Lemma kept_find key :
  om_find key kept = newest selected key \/
  (om_find key kept = None /\ exists t, newest selected key = Some t /\ e_deleted t = true /\
     hides_nothing key t unselected).
Proof.
  rewrite <- merge_all_find by done. destruct (om_find key (merge_all selected)) as [e|] eqn:E.
  - destruct (decide (e_deleted e = true /\ om_find key kept = None)) as [[Hd Hn]|Hno].
    + destruct (om_find key kept) eqn:Ek; [done|].
      right. split; [done|]. exists e. split_and!; try done. intros es e' Hin Hf Hlive.
      destruct (Z.lt_ge_cases (e_seq e) (e_seq e')) as [|Hge]; [done|]. exfalso.
      apply om_find_None in Ek. apply Ek, list_elem_of_fmap. exists (key, e). split; [done|].
      apply Hkept. split; [by apply om_find_In|]. intros _ Hh. specialize (Hh es e' Hin Hf Hlive). simpl in Hh. lia.
    + left. destruct (om_find key kept) as [e'|] eqn:Ek.
      * apply om_find_In in Ek. apply Hkept in Ek as [Ek _]. apply om_In_find in Ek; [congruence|apply merge_all_wf].
      * exfalso. apply om_find_None in Ek. apply Ek, list_elem_of_fmap. exists (key, e). split; [done|].
        apply Hkept. split; [by apply om_find_In|]. intros Hd. simpl in Hd. tauto.
  - left. destruct (om_find key kept) as [e'|] eqn:Ek; [|done]. apply om_find_In in Ek.
    apply Hkept in Ek as [Ek _]. apply om_In_find in Ek; [congruence|apply merge_all_wf].
Qed.

Lemma kept_source key e : om_find key kept = Some e -> exists es, es ∈ selected /\ om_find key es = Some e.
Proof. intros H. destruct (kept_find key) as [E|(E & _)]; [|congruence]. apply newest_elem. congruence. Qed.

Lemma compaction_consistent : consistent (unselected ++ [kept]).
Proof.
  assert (Hsrc : forall es k e, es ∈ unselected ++ [kept] -> om_find k es = Some e ->
    exists es', es' ∈ selected ++ unselected /\ om_find k es' = Some e).
  { intros es k e [Hin|Hin%list_elem_of_singleton]%elem_of_app Hf.
    - exists es. split; [apply elem_of_app; by right|done].
    - subst es. destruct (kept_source k e Hf) as (es' & Hin & Hf'). exists es'. split; [apply elem_of_app; by left|done]. }
  intros es1 es2 k e1 e2 H1 H2 Hf1 Hf2 Hs.
  destruct (Hsrc _ _ _ H1 Hf1) as (a & Ha & Hfa). destruct (Hsrc _ _ _ H2 Hf2) as (b & Hb & Hfb).
  by eapply (Hc a b).
Qed.

(** The newest live value of every key stays what it was. *)
Lemma compaction_visible key :
  visible (newest (unselected ++ [kept]) key) = visible (newest (selected ++ unselected) key).
Proof.
  rewrite newest_snoc, newest_app by done.
  assert (Hsym : newest_of (newest selected key) (newest unselected key) =
                 newest_of (newest unselected key) (newest selected key)).
  { apply newest_of_visible. intros x y Hx Hy. apply newest_elem in Hx as (es & Hin & Hf).
    apply newest_elem in Hy as (es' & Hin' & Hf'). eapply (Hc es es'); try done; apply elem_of_app; auto. }
  rewrite Hsym. destruct (kept_find key) as [->|(-> & t & -> & Hd & Hh)]; [done|].
  pose proof (newest_spec unselected key) as Hu. destruct (newest unselected key) as [u|]; simpl; [|by rewrite Hd].
  destruct Hu as [(es & Hin & Hf) _]. destruct (e_seq u <? e_seq t) eqn:E; [|done]. zbool.
  destruct (e_deleted u) eqn:Eu; [simpl; by rewrite Hd|]. specialize (Hh es u Hin Hf Eu). lia.
Qed.
End compaction.
