(* ===== verification/OpenTables.v ===== *)
(** * The tables that are open

    Readers of tables that [sst_write] has written, sharing one block cache,
    are an instance of [TableView].  A table that is open is known by its
    entries, blocks, path and filter; the cache holds, under the name of each,
    blocks of that table only. *)

From S2P Require Import Prelude OrderedMap Codec Posix FileSystem Path Store MemTable BloomFilter BlockCache.
From S2P Require Import SstFormat SstWriter SstReader Manifest SstManager TableView.

(** ** Sizes *)

Definition kMaxRecord : Z := kRecordFixedSize + kMaxKeySize + kMaxValueSize.
Definition kMaxIndexEntry : Z := 24 + 2 * kMaxKeySize.

Lemma enc_record_size r : wf_entry r -> zlen (enc_record r) <= kMaxRecord.
Proof.
  intros (Hk & Hv & _). unfold enc_record, kMaxRecord. rewrite !zlen_app, record_fixed_zlen.
  unfold valid_key, valid_value in *. lia.
Qed.

Lemma enc_records_size rs : Forall wf_entry rs -> zlen (enc_records rs) <= kMaxRecord * zlen rs.
Proof.
  induction 1 as [|r rs Hr Hrs IH]; [done|]. rewrite enc_records_cons, zlen_app, zlen_cons.
  pose proof (enc_record_size r Hr). lia.
Qed.

Lemma enc_block_size rs : zlen (enc_block rs) = 16 + zlen (enc_records rs).
Proof. unfold enc_block. rewrite zlen_seal, !zlen_app, le_bytes_zlen. change (zlen kDataBlockMagic) with 8. lia. Qed.

Lemma enc_blocks_size entries bs :
  blocks_of entries bs -> zlen (enc_blocks bs) <= 16 * zlen bs + kMaxRecord * zlen entries.
Proof.
  intros [<- _ _ Hw]. induction bs as [|b bs IH]; [done|].
  unfold block_records in *. cbn [map concat] in *. apply Forall_app in Hw as [H1 H2].
  rewrite enc_blocks_cons, !zlen_app, zlen_cons, enc_block_size.
  pose proof (enc_records_size _ H1). specialize (IH H2). lia.
Qed.

Lemma enc_index_size entries bs off :
  blocks_of entries bs -> zlen (enc_index (index_of bs off)) <= 16 + kMaxIndexEntry * zlen bs.
Proof.
  intros Hb. unfold enc_index. rewrite zlen_seal, !zlen_app, le_bytes_zlen. change (zlen kIndexMagic) with 8.
  cut (zlen (enc_index_entries (index_of bs off)) <= kMaxIndexEntry * zlen bs); [lia|].
  revert entries off Hb. induction bs as [|b bs IH]; intros entries off Hb; [done|].
  specialize (IH _ (off + zlen (enc_block (records b))) (blocks_of_tail _ _ _ Hb)).
  destruct Hb as [<- Hne _ Hw]. apply Forall_cons in Hne as [Hn _]. rewrite Forall_forall in Hw.
  destruct (first_key_elem b Hn) as [e1 H1]. destruct (last_key_elem b Hn) as [e2 H2].
  assert (K1 : valid_key (first_key b)) by (apply (Hw (first_key b, e1)); by eapply block_elem; [left|]).
  assert (K2 : valid_key (last_key b)) by (apply (Hw (last_key b, e2)); by eapply block_elem; [left|]).
  unfold enc_index_entries in *. cbn [index_of map concat]. rewrite zlen_app, zlen_cons.
  unfold enc_index_entry at 1. cbn [ie_block_offset ie_block_size ie_first_key ie_last_key].
  rewrite !zlen_app, !le_bytes_zlen. unfold valid_key, kMaxIndexEntry in *. lia.
Qed.

(** Entries as a frozen memory table has them, fewer than 2^32, always fit. *)
Lemma writable_intro entries options :
  output_path options <> [] -> entries <> [] -> zlen entries <= u32_max -> om_wf entries ->
  Forall wf_entry entries -> 0 < target_data_block_bytes options <= u32_max ->
  is_u64 (wo_generation options) -> writable entries options.
Proof.
  intros H1 H2 H3 H4 H5 H6 H7. split; try done.
  pose proof (split_blocks_of (target_data_block_bytes options) entries H4 H5) as Hb. fold (blocks_for entries options) in Hb.
  pose proof (enc_blocks_size _ _ Hb). pose proof (enc_index_size _ _ kHeaderSize Hb).
  pose proof (block_records_len _ (bo_nonempty _ _ Hb)) as Hl. rewrite (bo_concat _ _ Hb) in Hl.
  unfold kOffMax, kHeaderSize, kFooterSize, kMaxRecord, kMaxIndexEntry, kRecordFixedSize, kMaxKeySize, kMaxValueSize, u32_max in *.
  pose proof (zlen_nonneg (blocks_for entries options)). lia.
Qed.

(** ** Open tables *)

Record OpenTable := mkOpen {
  op_entries : list (str * Entry);
  op_header : Header;
  op_blocks : list DataBlock;
  op_path : str;
  op_bloom : option BloomFilter
}.

Definition op_id (o : OpenTable) : str := lexically_normal (op_path o).

Definition op_reader (o : OpenTable) : SSTableReader :=
  reader_of (op_entries o) (op_header o) (op_blocks o) (op_path o) (op_id o) (op_bloom o).

Record op_ok (o : OpenTable) : Prop := {
  oo_table : good_table (op_entries o) (op_header o) (op_blocks o);
  oo_bloom : bloom_ok (op_entries o) (op_bloom o);
  oo_path : op_path o <> [];
  oo_sequences : Forall (fun kv => e_seq kv.2 <= h_max_sequence_number (op_header o)) (op_entries o)
}.

(** The cached block belongs to an open table. *)
Definition cached_ok (cat : list OpenTable) (kb : CacheKey * DataBlock) : Prop :=
  exists o, o ∈ cat /\ op_id o = kb.1.1 /\
    forall i e, index_of (op_blocks o) kHeaderSize !! i = Some e -> ie_block_offset e = kb.1.2 ->
      op_blocks o !! i = Some kb.2.

(** No read fails for good, and the cache is that of the open tables. *)
Definition good_cat (cat : list OpenTable) (st : RState) : Prop :=
  calm (rs_script st) = true /\
  match rs_cache st with
  | Some c => bc_inv c /\ forall kb, kb ∈ bc_abs c -> cached_ok cat kb
  | None => True
  end.

Definition holds_cat (cat : list OpenTable) (rd : SSTableReader) (es : list (str * Entry)) : Prop :=
  exists o, o ∈ cat /\ rd = op_reader o /\ es = op_entries o.

Record cat_ok (cat : list OpenTable) : Prop := {
  co_ids : NoDup (map op_id cat);
  co_tables : Forall op_ok cat
}.

Lemma NoDup_map_inj {A B} (f : A -> B) (l : list A) x y :
  NoDup (map f l) -> x ∈ l -> y ∈ l -> f x = f y -> x = y.
Proof.
  induction l as [|a l IH]; [intros _ Hx; by apply not_elem_of_nil in Hx|].
  cbn [map]. rewrite NoDup_cons. intros [Hn Hd].
  assert (Hin : forall z, z ∈ l -> f z ∈ map f l) by (intros z Hz; apply list_elem_of_In, in_map; by apply list_elem_of_In).
  intros [->|Hx]%elem_of_cons [->|Hy]%elem_of_cons E; [done| | |by apply IH].
  - exfalso. apply Hn. rewrite E. by apply Hin.
  - exfalso. apply Hn. rewrite <- E. by apply Hin.
Qed.

Section instance.
Context (cat : list OpenTable).
Hypothesis Hcat : cat_ok cat.

Lemma good_state o st : o ∈ cat -> good_cat cat st -> state_ok (op_blocks o) (cached_ok cat) (op_id o) st.
Proof.
  intros Ho [Hc Hg]. split; [done|]. destruct (rs_cache st) as [c|]; [|done]. destruct Hg as [Hi Hg].
  split; [done|]. split; [|intros kb Hkb _; by apply Hg]. intros i e b He Hin.
  destruct (Hg _ Hin) as (o' & Ho' & Hid & Hb). simpl in *.
  assert (o' = o) as -> by (eapply NoDup_map_inj; [apply Hcat|done..]). by apply (Hb i e).
Qed.

Lemma state_good o st : o ∈ cat -> state_ok (op_blocks o) (cached_ok cat) (op_id o) st -> good_cat cat st.
Proof.
  intros Ho [Hc Hg]. split; [done|]. destruct (rs_cache st) as [c|]; [|done]. destruct Hg as [Hi [Hg1 Hg2]].
  split; [done|]. intros kb Hkb. destruct (decide (kb.1.1 = op_id o)) as [E|E]; [|by apply Hg2].
  exists o. split_and!; [done..|]. intros i e He Hoff. apply (Hg1 i e); [done|]. destruct kb as [[id off] b].
  simpl in *. by subst.
Qed.

Lemma op_entries_ne o : op_ok o -> op_entries o <> [].
Proof.
  intros [[Hb Hs] _ _ _] E. destruct Hb as [Hc Hn _ _]. rewrite E in Hc. destruct (op_blocks o) as [|b bs]; [done|].
  apply Forall_cons in Hn as [Hn _]. unfold block_records in Hc. cbn [map concat] in Hc.
  by apply app_eq_nil in Hc as [Hc _].
Qed.

#[export] Instance cat_view : TableView (good_cat cat) (holds_cat cat).
Proof.
  assert (Hok : forall o, o ∈ cat -> op_ok o) by (intros o Ho; destruct Hcat as [_ H]; rewrite Forall_forall in H; auto).
  split.
  - intros rd es key st (o & Ho & -> & ->) Hg Hk. pose proof (Hok o Ho) as [G Hb _ _].
    destruct (sst_get_ok _ _ _ G (cached_ok cat) (op_path o) (op_id o) (op_bloom o) key st Hb (good_state o st Ho Hg) Hk)
      as (st' & E & Hs). exists st'. split; [done|by eapply state_good].
  - intros rd es st (o & Ho & -> & ->) Hg. pose proof (Hok o Ho) as [G Hb _ _].
    destruct (sst_read_all_ok _ _ _ G (cached_ok cat) (op_path o) (op_id o) (op_bloom o) st (good_state o st Ho Hg))
      as (st' & E & Hs). exists st'. split; [done|by eapply state_good].
  - intros rd es (o & Ho & -> & ->). apply (oo_table _ (Hok o Ho)).
  - intros rd es (o & Ho & -> & ->). apply (oo_table _ (Hok o Ho)).
  - intros rd es k e (o & Ho & -> & ->) Hin. pose proof (bo_sorted _ _ (gt_blocks _ _ _ (oo_table _ (Hok o Ho)))) as Hs.
    split; [by apply (first_key_le (mkDataBlock (op_entries o)) (k, e))|by apply (last_key_ge (mkDataBlock (op_entries o)) (k, e))].
  - intros rd es (o & Ho & -> & ->). apply (first_key_elem (mkDataBlock (op_entries o))). by apply op_entries_ne, Hok.
  - intros rd es (o & Ho & -> & ->). apply (last_key_elem (mkDataBlock (op_entries o))). by apply op_entries_ne, Hok.
  - intros rd es k e (o & Ho & -> & ->) Hin. pose proof (Hok o Ho) as [G _ _ Hs].
    rewrite Forall_forall in Hs. split; [by apply (Hs (k, e))|]. apply (gt_header _ _ _ G).
Qed.
End instance.

(** A cleared cache suits any tables. *)
Lemma clear_cache_good cat cat' st : good_cat cat st -> good_cat cat' (clear_cache st).
Proof.
  intros [Hc Hg]. split; [done|]. unfold clear_cache. simpl. destruct (rs_cache st) as [c|]; [|done]. simpl.
  destruct Hg as [Hi _]. destruct (cache_step_spec c CClear Hi) as (H1 & H2 & _).
  destruct (cache_step_spec _ CReset H1) as (H3 & H4 & _). cbn [cache_step lru_step] in *. split; [done|].
  intros kb Hkb. rewrite H4, H2 in Hkb. by apply not_elem_of_nil in Hkb.
Qed.

Lemma good_cat_script cat st s : good_cat cat st -> calm s = true -> good_cat cat (set_rs_script s st).
Proof. intros [_ Hg] Hs. by split. Qed.

(** ** Opening what was written *)

Definition written (entries : list (str * Entry)) (options : SSTableWriterOptions) (lo hi : Z)
    (bloom : option BloomFilter) : OpenTable :=
  mkOpen entries (header_for entries options lo hi) (blocks_for entries options) (output_path options) bloom.

Lemma open_written cat entries options lo hi bloom f st :
  writable entries options -> check_entries entries [] u64_max 0 = Ok (lo, hi) ->
  contents f (output_path options) = Some (table_file (header_for entries options lo hi) (blocks_for entries options)) ->
  bloom_ok entries bloom -> good_cat cat st ->
  let o := written entries options lo hi bloom in
  op_ok o /\
  exists st', sst_open (output_path options) (lexically_normal (output_path options))
      (contents f (output_path options)) bloom st = (Ok (op_reader o), st') /\ good_cat cat st'.
Proof.
  intros W E Hf Hb Hg o. pose proof (writable_good _ _ _ _ W E) as G. split.
  - split; [done..|apply W|]. simpl.
    destruct (check_entries_range entries lo hi (wr_sorted _ _ W) (wr_wf _ _ W) (wr_entries _ _ W) E) as (_ & _ & Hs).
    eapply Forall_impl; [exact Hs|]. simpl. intros kv ?. lia.
  - rewrite Hf. destruct (sst_open_ok _ _ _ G (output_path options) (lexically_normal (output_path options)) bloom st)
      as (s & Ho & Hs); [apply W|apply Hg|]. exists (set_rs_script s st). split; [exact Ho|by apply good_cat_script].
Qed.

(** The filter of a table knows its keys. *)
Definition sizes_ok (o : SSTableManagerOptions) : Prop :=
  (forall n bits, so_ceil_bits o n = Some bits -> 0 < bits <= u64_max - 63) /\ (forall n b, 1 <= so_rounded o n b).

Lemma build_bloom_ok o entries bloom :
  sizes_ok o -> build_bloom_filter o entries = Ok bloom -> bloom_ok entries (Some bloom).
Proof.
  intros [H1 H2] H key e He. unfold build_bloom_filter in H. inv_ok.
  eapply bf_built_contains; [exact E|apply H1|apply H2|].
  apply om_find_In in He. apply list_elem_of_In. apply in_map_iff. exists (key, e). split; [done|by apply list_elem_of_In].
Qed.
