(* ===== verification/Compaction.v ===== *)
(** * Flushing and compaction keep what clients see

    The selection of a compaction (src/sstable_manager.cpp,
    [select_level0_compaction_locked]) and the invariant of the manager, and
    that [flush] and [compact_level0] keep it whatever the system calls
    return: a flush adds the memory table's entries, a compaction changes
    nothing a client can see, and the ranges of level 1 stay disjoint. *)

From S2P Require Import Prelude OrderedMap Codec Posix FileSystem Path Store MemTable BloomFilter BlockCache.
From S2P Require Import SstFormat SstWriter SstReader Manifest SstManager TableView OpenTables.

(** ** Ranges *)

Definition smallest (t : ManagedTable) : str := md_smallest_key (mg_metadata t).
Definition largest (t : ManagedTable) : str := md_largest_key (mg_metadata t).

Definition overlap (a b c d : str) : Prop := str_le a d /\ str_le c b.

Lemma ranges_overlap_iff a b c d : ranges_overlap a b c d = true <-> overlap a b c d.
Proof. unfold ranges_overlap, overlap. by rewrite andb_true_iff, !str_leb_le. Qed.

(** The tables of level 1 have disjoint ranges. *)
Definition l1_disjoint (ts : list ManagedTable) : Prop :=
  forall i j t u, i <> j -> ts !! i = Some t -> ts !! j = Some u -> mg_level t = Level1 -> mg_level u = Level1 ->
    ~ overlap (smallest t) (largest t) (smallest u) (largest u).

(** A range is not empty. *)
Definition proper (t : ManagedTable) : Prop := str_le (smallest t) (largest t).

Lemma str_min_spec a b : str_min a b = a \/ str_min a b = b.
Proof. unfold str_min. destruct (str_ltb b a); auto. Qed.
Lemma str_max_spec a b : str_max a b = a \/ str_max a b = b.
Proof. unfold str_max. destruct (str_ltb a b); auto. Qed.

(** ** The validation at publication *)

Lemma elem_of_filter_In {A} (p : A -> bool) (l : list A) x : x ∈ List.filter p l <-> x ∈ l /\ p x = true.
Proof. rewrite !list_elem_of_In. apply filter_In. Qed.

Lemma overlapping_neighbours_sorted (l : list SSTableMetadata) :
  Forall (fun m => str_le (md_smallest_key m) (md_largest_key m)) l ->
  StronglySorted (fun a b => str_le (md_smallest_key a) (md_smallest_key b)) l ->
  overlapping_neighbours l = false <->
  StronglySorted (fun a b => str_lt (md_largest_key a) (md_smallest_key b)) l.
Proof.
  induction l as [|a [|b l] IH]; intros Hp Hs; [split; [constructor|done]|split; [repeat constructor|done]|].
  apply Forall_cons in Hp as [Ha Hp]. apply StronglySorted_inv in Hs as [Hs Hf].
  specialize (IH Hp Hs). cbn [overlapping_neighbours].
  rewrite orb_false_iff. split.
  - intros [H1 H2]. apply IH in H2. constructor; [done|]. apply Forall_cons in Hp as [Hb _].
    assert (Hab : str_lt (md_largest_key a) (md_smallest_key b)).
    { destruct (str_leb _ _) eqn:E; [done|]. rewrite str_leb_ltb in E. zbool. by sbool. }
    apply StronglySorted_inv in H2 as [_ H2]. constructor; [done|]. eapply Forall_impl; [exact H2|]. simpl.
    intros m Hm. eapply str_lt_trans; [exact Hab|]. by eapply str_le_lt_trans.
  - intros H. apply StronglySorted_inv in H as [H1 H2]. split; [|by apply IH].
    apply Forall_cons in H2 as [H2 _]. rewrite str_leb_ltb. apply negb_false_iff. by apply str_ltb_lt.
Qed.

(** Pairwise disjoint, as a property that does not depend on the order. *)
Definition pairwise_disjoint (l : list SSTableMetadata) : Prop :=
  ForallOrdPairs (fun a b => ~ overlap (md_smallest_key a) (md_largest_key a) (md_smallest_key b) (md_largest_key b)) l.

Lemma overlap_sym a b c d : overlap a b c d <-> overlap c d a b.
Proof. unfold overlap. tauto. Qed.

Lemma pairwise_perm l l' : l ≡ₚ l' -> pairwise_disjoint l -> pairwise_disjoint l'.
Proof.
  induction 1 as [|x l l' Hp IH|x y l|l1 l2 l3 _ IH1 _ IH2]; intros H; [done| | |auto].
  - inversion H; subst. constructor; [by rewrite <- Hp|by apply IH].
  - inversion H as [|? ? H1 H2]; subst. inversion H2 as [|? ? H3 H4]; subst. apply Forall_cons in H1 as [H1 H5].
    constructor; [|by constructor]. constructor; [by rewrite overlap_sym|done].
Qed.

Lemma sorted_disjoint (l : list SSTableMetadata) :
  Forall (fun m => str_le (md_smallest_key m) (md_largest_key m)) l ->
  StronglySorted (fun a b => str_le (md_smallest_key a) (md_smallest_key b)) l ->
  StronglySorted (fun a b => str_lt (md_largest_key a) (md_smallest_key b)) l <-> pairwise_disjoint l.
Proof.
  induction l as [|a l IH]; intros Hp Hs; [split; constructor|].
  apply Forall_cons in Hp as [Ha Hp]. apply StronglySorted_inv in Hs as [Hs Hf].
  specialize (IH Hp Hs). split.
  - intros H. apply StronglySorted_inv in H as [H1 H2]. constructor; [|by apply IH].
    eapply Forall_impl; [exact H2|]. simpl. intros m Hm [_ Ho]. by apply str_le_nlt in Ho.
  - intros H. inversion H as [|? ? H1 H2]; subst. constructor; [by apply IH|].
    rewrite Forall_forall in H1, Hf, Hp |- *. intros m Hm. specialize (H1 m Hm). specialize (Hf m Hm).
    specialize (Hp m Hm). destruct (decide (str_lt (md_largest_key a) (md_smallest_key m))) as [|Hn]; [done|].
    exfalso. apply H1. split; [by eapply str_le_trans; [exact Hf|]|]. by apply str_le_nlt.
Qed.

Lemma l1_pairwise ts : l1_disjoint ts <-> pairwise_disjoint (SstManager.metadata_for (List.filter (is_level Level1) ts)).
Proof.
  unfold SstManager.metadata_for. induction ts as [|t ts IH]; [split; [constructor|by intros _ []]|].
  cbn [List.filter]. unfold is_level at 1. split.
  - intros H. assert (Htail : l1_disjoint ts).
    { intros i j a b Hij Hi Hj. apply (H (S i) (S j)); [lia|done|done]. }
    apply IH in Htail. destruct (bool_decide (mg_level t = Level1)) eqn:E; [|done]. cbn [map]. constructor; [|done].
    apply bool_decide_eq_true in E. rewrite Forall_forall. intros m Hm. apply list_elem_of_In, in_map_iff in Hm as (u & <- & Hu).
    apply list_elem_of_In, elem_of_filter_In in Hu as [Hu Hl]. apply bool_decide_eq_true in Hl.
    apply list_elem_of_lookup in Hu as [j Hj]. apply (H 0%nat (S j) t u); done.
  - intros H. assert (Htail : l1_disjoint ts).
    { apply IH. destruct (bool_decide _); [|done]. by inversion H. }
    intros i j a b Hij Hi Hj Ha Hb.
    assert (Hsym : forall k u, ts !! k = Some u -> mg_level u = Level1 -> mg_level t = Level1 ->
      ~ overlap (smallest t) (largest t) (smallest u) (largest u)).
    { intros k u Hk Hu Ht. rewrite bool_decide_eq_true_2 in H by done. cbn [map] in H.
      inversion H as [|? ? H1 _]; subst. rewrite Forall_forall in H1. apply (H1 (with_level (mg_level u) (mg_metadata u))).
      apply list_elem_of_In, in_map_iff. exists u. split; [done|]. apply list_elem_of_In, elem_of_filter_In.
      split; [by eapply list_elem_of_lookup_2|by apply bool_decide_eq_true_2]. }
    destruct i as [|i], j as [|j]; simpl in *; simplify_eq; [by eapply Hsym| |by eapply (Htail i j); [lia|..]].
    rewrite overlap_sym. by eapply Hsym.
Qed.

Lemma validate_iff ts :
  Forall proper ts -> (validate_level1_ranges ts = Ok tt <-> l1_disjoint ts).
Proof.
  intros Hp. unfold validate_level1_ranges. rewrite l1_pairwise.
  set (l1 := SstManager.metadata_for _). set (l2 := sort_by _ l1).
  assert (Hperm : l2 ≡ₚ l1) by apply sort_by_perm.
  assert (Hp1 : Forall (fun m => str_le (md_smallest_key m) (md_largest_key m)) l1).
  { unfold l1, SstManager.metadata_for. rewrite Forall_forall in Hp. apply Forall_forall. intros m Hm.
    apply list_elem_of_In, in_map_iff in Hm as (u & <- & Hu). apply list_elem_of_In, elem_of_filter_In in Hu as [Hu _].
    by apply (Hp u). }
  assert (Hp2 : Forall (fun m => str_le (md_smallest_key m) (md_largest_key m)) l2) by by rewrite Hperm.
  assert (Hs : StronglySorted (fun a b => str_le (md_smallest_key a) (md_smallest_key b)) l2).
  { apply sort_by_sorted; [intros a b c; apply str_le_trans|intros a b H; sbool; by apply str_lt_le|intros a b H; by sbool]. }
  assert (Hkey : overlapping_neighbours l2 = false <-> pairwise_disjoint l1).
  { rewrite overlapping_neighbours_sorted, sorted_disjoint by done.
    split; apply pairwise_perm; [done|by symmetry]. }
  rewrite <- Hkey. unfold throw_if. destruct (overlapping_neighbours l2); by split.
Qed.

Lemma l1_disjoint_perm ts ts' : ts ≡ₚ ts' -> l1_disjoint ts -> l1_disjoint ts'.
Proof.
  intros Hp. rewrite !l1_pairwise. apply pairwise_perm. unfold SstManager.metadata_for.
  apply Permutation_map. induction Hp as [|x l l' Hp IH|x y l|l1 l2 l3 _ IH1 _ IH2]; cbn [List.filter]; [done| | |by etrans].
  - destruct (is_level Level1 x); [by constructor|done].
  - destruct (is_level Level1 x), (is_level Level1 y); try done. apply Permutation_swap.
Qed.

(** ** The selection *)

Section selection.
Context (rs : list ManagedTable).
Hypothesis Hnodup : NoDup (map mg_path rs).
Hypothesis Hproper : Forall proper rs.

(** What the loop keeps: a set of tables, their paths, and a range around them. *)
Record sel_inv (sel : CompactionSelection) (paths : gset str) : Prop := {
  si_paths : paths = paths_of (cs_selected sel);
  si_nodup : NoDup (map mg_path (cs_selected sel));
  si_sub : forall t, t ∈ cs_selected sel -> t ∈ rs;
  si_hull : forall t, t ∈ cs_selected sel ->
    str_le (cs_smallest_key sel) (smallest t) /\ str_le (largest t) (cs_largest_key sel)
}.

Lemma elem_of_paths t ts : t ∈ ts -> mg_path t ∈ paths_of ts.
Proof.
  intros Ht. unfold paths_of. apply elem_of_list_to_set, list_elem_of_In, in_map. by apply list_elem_of_In.
Qed.

Lemma elem_of_paths_inv p ts : p ∈ paths_of ts -> exists t, t ∈ ts /\ mg_path t = p.
Proof.
  unfold paths_of. intros H%elem_of_list_to_set%list_elem_of_In%in_map_iff. destruct H as (t & <- & Ht).
  exists t. split; [by apply list_elem_of_In|done].
Qed.

(** The tables that a range around the selection still meets. *)
Definition meets (sel : CompactionSelection) (paths : gset str) (t : ManagedTable) : Prop :=
  mg_level t = Level1 /\ (mg_path t ∉ paths) /\
  overlap (cs_smallest_key sel) (cs_largest_key sel) (smallest t) (largest t).

Lemma sel_inv_add sel paths t :
  sel_inv sel paths -> t ∈ rs -> mg_path t ∉ paths ->
  sel_inv (mkSelection (cs_selected sel ++ [t]) (cs_unselected sel)
             (str_min (cs_smallest_key sel) (smallest t)) (str_max (cs_largest_key sel) (largest t)))
    ({[mg_path t]} ∪ paths).
Proof.
  intros [-> Hnd Hsub Hhull] Ht Hp. split; cbn [cs_selected cs_smallest_key cs_largest_key].
  - unfold paths_of. rewrite map_app, list_to_set_app_L. simpl. by rewrite union_empty_r_L, (comm_L (∪)).
  - rewrite map_app. apply NoDup_app. split; [done|]. split; [|apply NoDup_singleton].
    intros p Hp1 Hp2%list_elem_of_singleton. subst p. apply Hp. unfold paths_of. by apply elem_of_list_to_set.
  - intros u [Hu|Hu%list_elem_of_singleton]%elem_of_app; [auto|by subst].
  - intros u [Hu|Hu%list_elem_of_singleton]%elem_of_app; [|subst; split; [apply str_min_le_r|apply str_max_ge_r]].
    destruct (Hhull u Hu). split; [eapply str_le_trans; [apply str_min_le_l|done]|].
    eapply str_le_trans; [done|apply str_max_ge_l].
Qed.

Lemma expand_pass_spec tables sel paths expanded sel' paths' expanded' :
  (forall t, t ∈ tables -> t ∈ rs) -> sel_inv sel paths ->
  expand_pass tables sel paths expanded = (sel', paths', expanded') ->
  sel_inv sel' paths' /\
  (exists new, cs_selected sel' = cs_selected sel ++ new /\ Forall (fun t => mg_level t = Level1) new /\
     (expanded = false -> expanded' = true -> new <> [])) /\
  (expanded' = false -> expanded = false /\ sel' = sel /\ paths' = paths /\
     forall t, t ∈ tables -> ~ meets sel paths t).
Proof.
  revert sel paths expanded. induction tables as [|t tables IH]; intros sel paths expanded Hin Hinv H.
  { simpl in H. simplify_eq. split; [done|]. split; [exists []; rewrite app_nil_r; split_and!; try done; congruence|].
    intros ->. split_and!; try done. intros t Ht. by apply not_elem_of_nil in Ht. }
  assert (Hin' : forall u, u ∈ tables -> u ∈ rs) by (intros; apply Hin; by right).
  assert (Hskip : ~ meets sel paths t -> expand_pass tables sel paths expanded = (sel', paths', expanded') ->
    sel_inv sel' paths' /\
    (exists new, cs_selected sel' = cs_selected sel ++ new /\ Forall (fun t => mg_level t = Level1) new /\
       (expanded = false -> expanded' = true -> new <> [])) /\
    (expanded' = false -> expanded = false /\ sel' = sel /\ paths' = paths /\
       forall u, u ∈ t :: tables -> ~ meets sel paths u)).
  { intros Hm Hp. destruct (IH sel paths expanded Hin' Hinv Hp) as (H1 & H2 & H3). split_and!; [done..|].
    intros He. destruct (H3 He) as (E1 & E2 & E3 & E4). split_and!; try done.
    intros u [->|Hu]%elem_of_cons; auto. }
  cbn [expand_pass] in H. unfold is_level in H. destruct (bool_decide (mg_level t = Level1)) eqn:El; cbn [negb] in H.
  2:{ apply Hskip; [|done]. intros (Hl & _). by apply bool_decide_eq_false in El. }
  destruct (bool_decide (mg_path t ∈ paths)) eqn:Ep.
  { apply Hskip; [|done]. intros (_ & Hn & _). by apply bool_decide_eq_true in Ep. }
  fold (smallest t) (largest t) in H.
  destruct (ranges_overlap _ _ _ _) eqn:Eo.
  2:{ apply Hskip; [|done]. intros (_ & _ & Ho). apply ranges_overlap_iff in Ho. congruence. }
  apply bool_decide_eq_true in El. apply bool_decide_eq_false in Ep.
  pose proof (sel_inv_add sel paths t Hinv (Hin t ltac:(by left)) Ep) as Hinv'.
  destruct (IH _ _ true Hin' Hinv' H) as (H1 & (new & E & Hl & _) & H3). split; [done|]. split.
  - exists (t :: new). cbn [cs_selected] in E. rewrite E, <- app_assoc. split_and!; [done|by constructor|done].
  - intros He. destruct (H3 He) as [? _]. done.
Qed.

Lemma selected_length sel paths : sel_inv sel paths -> (length (cs_selected sel) <= length rs)%nat.
Proof.
  intros [_ Hnd Hsub _]. rewrite <- (length_map mg_path (cs_selected sel)), <- (length_map mg_path rs).
  apply submseteq_length, NoDup_submseteq; [done|]. intros p Hp. apply list_elem_of_In, in_map_iff in Hp as (t & <- & Ht).
  apply list_elem_of_In, in_map, list_elem_of_In, Hsub. by apply list_elem_of_In.
Qed.

(** The loop ends, and then no table of level 1 meets the range. *)
Lemma expand_loop_spec fuel sel paths sel' paths' :
  sel_inv sel paths -> (length rs < fuel + length (cs_selected sel))%nat ->
  expand_loop fuel rs sel paths = (sel', paths') ->
  sel_inv sel' paths' /\
  (exists new, cs_selected sel' = cs_selected sel ++ new /\ Forall (fun t => mg_level t = Level1) new) /\
  forall t, t ∈ rs -> ~ meets sel' paths' t.
Proof.
  revert sel paths. induction fuel as [|fuel IH]; intros sel paths Hinv Hf H.
  { pose proof (selected_length _ _ Hinv). lia. }
  cbn [expand_loop] in H. destruct (expand_pass rs sel paths false) as [[sel1 paths1] b] eqn:E.
  destruct (expand_pass_spec _ _ _ _ _ _ _ (fun t Ht => Ht) Hinv E) as (H1 & (new & E1 & Hl & Hne) & H3). destruct b.
  - assert (new <> []) by by apply Hne.
    destruct (IH sel1 paths1 H1) as (G1 & (new2 & G2 & G3) & G4); [|done|].
    { rewrite E1, length_app. destruct new; [done|simpl; lia]. }
    split; [done|]. split; [|done]. exists (new ++ new2). rewrite G2, E1, app_assoc.
    split; [done|by apply Forall_app].
  - destruct (H3 eq_refl) as (_ & -> & -> & Hm). simplify_eq. split; [done|]. split; [|done].
    exists []. by rewrite app_nil_r.
Qed.
End selection.

Lemma fold_min_le (f : ManagedTable -> str) ts k :
  str_le (foldl (fun k t => str_min k (f t)) k ts) k /\
  forall t, t ∈ ts -> str_le (foldl (fun k t => str_min k (f t)) k ts) (f t).
Proof.
  revert k. induction ts as [|u ts IH]; intros k; simpl.
  { split; [apply str_le_refl|]. intros t Ht. by apply not_elem_of_nil in Ht. }
  destruct (IH (str_min k (f u))) as [H1 H2]. split.
  - eapply str_le_trans; [exact H1|apply str_min_le_l].
  - intros t [->|Ht]%elem_of_cons; [|by apply H2]. eapply str_le_trans; [exact H1|apply str_min_le_r].
Qed.

Lemma fold_max_ge (f : ManagedTable -> str) ts k :
  str_le k (foldl (fun k t => str_max k (f t)) k ts) /\
  forall t, t ∈ ts -> str_le (f t) (foldl (fun k t => str_max k (f t)) k ts).
Proof.
  revert k. induction ts as [|u ts IH]; intros k; simpl.
  { split; [apply str_le_refl|]. intros t Ht. by apply not_elem_of_nil in Ht. }
  destruct (IH (str_max k (f u))) as [H1 H2]. split.
  - eapply str_le_trans; [apply str_max_ge_l|exact H1].
  - intros t [->|Ht]%elem_of_cons; [|by apply H2]. eapply str_le_trans; [apply str_max_ge_r|exact H1].
Qed.

Lemma NoDup_of_map {A B} (f : A -> B) (l : list A) : NoDup (map f l) -> NoDup l.
Proof.
  induction l as [|a l IH]; [constructor|]. cbn [map]. rewrite !NoDup_cons. intros [H1 H2]. split; [|auto].
  intros Ha. apply H1, list_elem_of_In, in_map. by apply list_elem_of_In.
Qed.

Lemma NoDup_map_sub {A B} (f : A -> B) (l k : list A) :
  NoDup (map f l) -> NoDup k -> (forall x, x ∈ k -> x ∈ l) -> NoDup (map f k).
Proof.
  intros Hl. induction k as [|a k IH]; intros Hk Hs; [constructor|]. apply NoDup_cons in Hk as [Ha Hk]. cbn [map].
  constructor; [|apply IH; [done|]; intros x Hx; apply Hs; by right].
  intros (b & Hb & Hin%list_elem_of_In)%list_elem_of_In%in_map_iff.
  assert (b = a) as -> by (eapply NoDup_map_inj; [exact Hl|apply Hs; by right|apply Hs; by left|done]). done.
Qed.

(** What the selection of a compaction is. *)
Lemma select_spec s force :
  NoDup (map mg_path (sm_readers s)) -> 
  let sel := select_level0_compaction_locked s force in
  cs_selected sel <> [] ->
  cs_selected sel ++ cs_unselected sel ≡ₚ sm_readers s /\
  (forall t, t ∈ cs_selected sel -> str_le (cs_smallest_key sel) (smallest t) /\ str_le (largest t) (cs_largest_key sel)) /\
  (forall t, t ∈ cs_unselected sel -> mg_level t = Level1 ->
     ~ overlap (cs_smallest_key sel) (cs_largest_key sel) (smallest t) (largest t)) /\
  (force = true -> forall t, t ∈ cs_unselected sel -> mg_level t = Level1) /\
  cs_unselected sel = List.filter (fun t => negb (bool_decide (mg_path t ∈ paths_of (cs_selected sel)))) (sm_readers s).
Proof.
  intros Hnd sel Hne. set (rs := sm_readers s) in *. unfold sel, select_level0_compaction_locked in *. fold rs in Hne |- *.
  set (l0 := List.filter (is_level Level0) rs) in *. destruct (_ || _) eqn:E0; [done|]. clear E0.
  set (l0s := sort_by older_table l0) in *. set (n := if force then zlen l0s else _) in *.
  set (sel0 := take (Z.to_nat n) l0s) in *.
  destruct (expand_loop _ rs _ _) as [sel1 paths1] eqn:El. cbn [cs_selected cs_unselected cs_smallest_key cs_largest_key] in *.
  assert (Hl0 : forall t, t ∈ l0s <-> t ∈ rs /\ is_level Level0 t = true).
  { intros t. unfold l0s. rewrite (sort_by_perm older_table l0). apply elem_of_filter_In. }
  assert (Hsub0 : forall t, t ∈ sel0 -> t ∈ rs).
  { intros t Ht. apply Hl0. unfold sel0 in Ht. apply elem_of_take in Ht as (i & Hi & _).
    by eapply list_elem_of_lookup_2. }
  assert (Hinv0 : sel_inv rs (mkSelection sel0 [] (foldl (fun k t => str_min k (smallest t)) (default [] (smallest <$> head sel0)) sel0)
                    (foldl (fun k t => str_max k (largest t)) (default [] (largest <$> head sel0)) sel0)) (paths_of sel0)).
  { split; cbn [cs_selected cs_smallest_key cs_largest_key]; [done| |done|].
    - eapply NoDup_map_sub; [exact Hnd| |exact Hsub0]. unfold sel0.
      eapply sublist_NoDup; [|apply sublist_take]. unfold l0s. rewrite sort_by_perm. unfold l0.
      apply NoDup_ListNoDup, List.NoDup_filter, NoDup_ListNoDup. by eapply NoDup_of_map.
    - intros t Ht. split; [by apply (fold_min_le smallest)|by apply (fold_max_ge largest)]. }
  assert (Hfuel : (length rs < S (length rs) + length sel0)%nat) by lia.
  destruct (expand_loop_spec rs (S (length rs)) _ _ _ _ Hinv0 Hfuel El) as (Hinv1 & (new & Enew & Hnew) & Hmeet).
  cbn [cs_selected] in Enew. pose proof Hinv1 as [-> Hnd1 Hsub1 Hhull1].
  assert (Hun : forall t, t ∈ List.filter (fun t => negb (bool_decide (mg_path t ∈ paths_of (cs_selected sel1)))) rs <->
                t ∈ rs /\ t ∉ cs_selected sel1).
  { intros t. rewrite elem_of_filter_In, negb_true_iff, bool_decide_eq_false. split; intros [H1 H2]; (split; [done|]).
    - intros H. by apply H2, elem_of_paths.
    - intros (u & Hu & Hp)%elem_of_paths_inv. apply H2. rewrite <- (NoDup_map_inj mg_path rs u t); auto. }
  split_and!.
  - apply NoDup_Permutation; [|by eapply NoDup_of_map|].
    + apply NoDup_app. split; [by eapply NoDup_of_map|]. split; [by intros t Ht [_ Hn]%Hun|].
      apply NoDup_ListNoDup, List.NoDup_filter, NoDup_ListNoDup. by eapply NoDup_of_map.
    + intros t. rewrite elem_of_app, Hun. split; [intros [H|[H _]]; auto|].
      intros H. destruct (decide (mg_path t ∈ paths_of (cs_selected sel1))) as [Hp|Hp].
      * left. apply elem_of_paths_inv in Hp as (u & Hu & Hp). rewrite <- (NoDup_map_inj mg_path rs u t); auto.
      * right. split; [done|]. intros Ht. by apply Hp, elem_of_paths.
  - exact Hhull1.
  - intros t [Ht Hn]%Hun Hlv Ho. apply (Hmeet t Ht). split_and!; [done| |done].
    intros (u & Hu & Hp)%elem_of_paths_inv. apply Hn. rewrite <- (NoDup_map_inj mg_path rs u t); auto.
  - intros -> t [Ht Hn]%Hun. destruct (mg_level t) eqn:Elv; [|done]. exfalso. apply Hn. rewrite Enew.
    apply elem_of_app. left. unfold sel0, n. rewrite take_ge by (unfold zlen; lia). apply Hl0. split; [done|].
    unfold is_level. by apply bool_decide_eq_true_2.
  - done.
Qed.

Lemma expand_pass_prefix ts sel paths b sel' paths' b' :
  expand_pass ts sel paths b = (sel', paths', b') -> cs_selected sel `prefix_of` cs_selected sel'.
Proof.
  revert sel paths b. induction ts as [|t ts IH]; intros sel paths b H; simpl in H; [by simplify_eq|].
  repeat (break_if; [by eapply IH|]); try by eapply IH.
  destruct (ranges_overlap _ _ _ _); [|by eapply IH]. apply IH in H. simpl in H. etrans; [by apply prefix_app_r|exact H].
Qed.

Lemma expand_loop_prefix fuel ts sel paths sel' paths' :
  expand_loop fuel ts sel paths = (sel', paths') -> cs_selected sel `prefix_of` cs_selected sel'.
Proof.
  revert sel paths. induction fuel as [|fuel IH]; intros sel paths H; simpl in H; [by simplify_eq|].
  destruct (expand_pass ts sel paths false) as [[sel1 ps1] b] eqn:Ep. apply expand_pass_prefix in Ep.
  destruct b; [etrans; [exact Ep|by eapply IH]|by simplify_eq].
Qed.

(** A selection that is not empty has a table of level 0. *)
Lemma select_level0 s force :
  0 < so_level0_compaction_max_tables (sm_options s) ->
  cs_selected (select_level0_compaction_locked s force) <> [] ->
  exists t, t ∈ cs_selected (select_level0_compaction_locked s force) /\ mg_level t = Level0.
Proof.
  intros Hmax. unfold select_level0_compaction_locked. destruct (_ || _) eqn:E0; [done|]. apply orb_false_iff in E0 as [E0 _].
  apply is_nil_false in E0. set (l0 := List.filter _ _) in *. set (n := if force then _ else _).
  destruct (expand_loop _ _ _ _) as [sel paths] eqn:El. apply expand_loop_prefix in El. cbn [cs_selected] in *. intros _.
  pose proof (sort_by_perm older_table l0) as Hp. destruct (sort_by older_table l0) as [|t l]; [by apply Permutation_nil_l in Hp|].
  exists t. assert (Hn : 0 < n). { unfold n. rewrite zlen_cons. pose proof (zlen_nonneg l). destruct force; lia. }
  destruct (Z.to_nat n) as [|k] eqn:Ek; [lia|]. split.
  - destruct El as [x ->]. apply elem_of_app. left. by left.
  - assert (Ht : t ∈ l0) by (rewrite <- Hp; by left). apply elem_of_filter_In in Ht as [_ Ht].
    by apply bool_decide_eq_true in Ht.
Qed.

(** When everything is to be compacted, nothing is selected only if level 0
    is empty. *)
Lemma select_nothing s :
  cs_selected (select_level0_compaction_locked s true) = [] -> List.filter (is_level Level0) (sm_readers s) = [].
Proof.
  unfold select_level0_compaction_locked. cbn [negb andb]. rewrite orb_false_r.
  destruct (is_nil _) eqn:E; [by apply is_nil_true in E|]. apply is_nil_false in E. intros H. exfalso.
  set (l0 := sort_by older_table _) in *. rewrite take_ge in H by (unfold zlen; lia).
  destruct (expand_loop _ _ _ _) as [sel paths] eqn:El. cbn [cs_selected] in H.
  apply expand_loop_prefix in El. rewrite H in El. apply prefix_nil_inv in El. cbn [cs_selected] in El.
  pose proof (sort_by_perm older_table (List.filter (is_level Level0) (sm_readers s))) as Hp.
  fold l0 in Hp. rewrite El in Hp. by apply Permutation_nil_l in Hp.
Qed.
