(* ===== verification/ManagerInv.v ===== *)
(** * The invariant of the table manager

    What holds of [SSTableManager] (src/sstable_manager.cpp) between calls,
    and that [flush] and [compact_level0] keep it.  The tables in the list are
    open tables with a level ([cat]); the invariant says that the list, the
    cache, the count of live keys and the names of the files agree with them.
    The outcomes of the writes come from the script of the directory: whatever
    they are, the list that is left is the old one or the new one. *)

From S2P Require Import Prelude OrderedMap Codec Checksum Posix FileSystem Path Store MemTable BloomFilter BlockCache.
From S2P Require Import SstFormat SstWriter SstReader Manifest SstManager TableView OpenTables Compaction.

(** ** The invariant *)

Abbreviation Catalog := (list (OpenTable * SSTableLevel)).

Implicit Types (cat : Catalog) (c : OpenTable * SSTableLevel).

Definition managed (c : OpenTable * SSTableLevel) : ManagedTable := mkManaged (op_reader c.1) c.2.

Definition cat_entries (cat : Catalog) : list (list (str * Entry)) := map (fun c => op_entries c.1) cat.

Record options_ok (o : SSTableManagerOptions) : Prop := {
  ok_sizes : sizes_ok o;
  ok_rate : so_rate_ok o = true;
  ok_bits : forall n, 0 < n <= u32_max -> is_Some (so_ceil_bits o n);
  ok_target : 0 < so_target_data_block_bytes o <= u32_max;
  ok_directory : so_directory o <> [];
  ok_limits : 2 <= so_level0_compaction_trigger o <= so_level0_compaction_max_tables o
}.

(** The file of a table is in the directory, and if it is named like one the
    manager makes, its identifier has been used. *)
Definition name_ok (directory : str) (next_file_id : Z) (path : str) : Prop :=
  exists n, path = path_join directory n /\ plain_name n /\ zlen n <= kMaximumFilenameBytes /\
    forall level id g sq, n = table_filename level id g sq -> is_u64 id -> id < next_file_id.

Record sm_inv (s : SSTableManager) (cat : Catalog) : Prop := {
  sv_options : options_ok (sm_options s);
  sv_directory : directory_ (sm_manifest s) = so_directory (sm_options s);
  sv_readers : sm_readers s = map managed cat;
  sv_cat : cat_ok (map fst cat);
  sv_good : good_cat (map fst cat) (sm_rs s);
  sv_consistent : consistent (cat_entries cat);
  sv_disjoint : l1_disjoint (map managed cat);
  sv_live : sm_live_key_count s = Z.of_nat (size (view (cat_entries cat)));
  sv_names : Forall (fun c => name_ok (so_directory (sm_options s)) (sm_next_file_id s) (op_path c.1)) cat;
  sv_file_id : 0 < sm_next_file_id s <= u64_max
}.

(** ** Tables of the list *)

Lemma mg_path_managed c : mg_path (managed c) = op_id c.1.
Proof. done. Qed.

Lemma map_mg_path cat : map mg_path (map managed cat) = map op_id (map fst cat).
Proof. rewrite !map_map. apply map_ext. intros c. apply mg_path_managed. Qed.

Lemma cat_hold (tables : list OpenTable) cat :
  (forall c, c ∈ cat -> c.1 ∈ tables) ->
  tables_hold (holds := holds_cat tables) (map managed cat) (cat_entries cat).
Proof.
  induction cat as [|c cat IH]; intros H; [constructor|]. unfold cat_entries. cbn [map]. constructor.
  - exists c.1. split; [|done]. apply H. by left.
  - apply IH. intros c' Hc'. apply H. by right.
Qed.

Lemma cat_hold_self cat : tables_hold (holds := holds_cat (map fst cat)) (map managed cat) (cat_entries cat).
Proof. apply cat_hold. intros c Hc. apply list_elem_of_In, in_map. by apply list_elem_of_In. Qed.

Lemma op_ok_entries o : op_ok o -> om_wf (op_entries o) /\ Forall wf_entry (op_entries o) /\ op_entries o <> [].
Proof.
  intros H. pose proof (oo_table _ H) as G. split; [apply G|]. split; [apply G|by apply op_entries_ne].
Qed.

Lemma managed_range c k e :
  op_ok c.1 -> (k, e) ∈ op_entries c.1 -> str_le (smallest (managed c)) k /\ str_le k (largest (managed c)).
Proof.
  intros H Hin. destruct (op_ok_entries _ H) as (Hs & _).
  split; [by apply (first_key_le (mkDataBlock (op_entries c.1)) (k, e))|by apply (last_key_ge (mkDataBlock (op_entries c.1)) (k, e))].
Qed.

Lemma managed_bounds c :
  op_ok c.1 -> (exists e, (smallest (managed c), e) ∈ op_entries c.1) /\ (exists e, (largest (managed c), e) ∈ op_entries c.1).
Proof.
  intros H. destruct (op_ok_entries _ H) as (_ & _ & Hne).
  split; [by apply (first_key_elem (mkDataBlock (op_entries c.1)))|by apply (last_key_elem (mkDataBlock (op_entries c.1)))].
Qed.

Lemma managed_proper c : op_ok c.1 -> proper (managed c).
Proof. intros H. destruct (managed_bounds c H) as [[e He] _]. by apply (managed_range c _ e). Qed.

Lemma cat_ok_elem cat c : cat_ok (map fst cat) -> c ∈ cat -> op_ok c.1.
Proof.
  intros [_ H] Hc. rewrite Forall_forall in H. apply H, list_elem_of_In, in_map. by apply list_elem_of_In.
Qed.

Lemma cat_proper cat : cat_ok (map fst cat) -> Forall proper (map managed cat).
Proof.
  intros H. apply Forall_forall. intros t Ht. apply list_elem_of_In, in_map_iff in Ht as (c & <- & Hc%list_elem_of_In).
  by eapply managed_proper, cat_ok_elem.
Qed.

Lemma cat_sorted cat : cat_ok (map fst cat) -> Forall om_wf (cat_entries cat).
Proof.
  intros H. apply Forall_forall. intros es Hes. apply list_elem_of_In, in_map_iff in Hes as (c & <- & Hc%list_elem_of_In).
  by apply op_ok_entries, (cat_ok_elem cat).
Qed.

Lemma cat_ok_perm (cat cat' : Catalog) : map fst cat ≡ₚ map fst cat' -> cat_ok (map fst cat) -> cat_ok (map fst cat').
Proof.
  intros Hp [H1 H2]. split; [|by rewrite <- Hp]. eapply NoDup_Permutation_proper; [|exact H1].
  apply Permutation_map. by symmetry.
Qed.

Lemma cat_ok_sub (cat cat' : Catalog) : cat' ⊆+ cat -> cat_ok (map fst cat) -> cat_ok (map fst cat').
Proof.
  intros Hs [H1 H2]. apply submseteq_Permutation in Hs as (k & Hs).
  rewrite Hs, !map_app in H1. rewrite Hs, map_app in H2. apply NoDup_app in H1 as (H1 & _).
  apply Forall_app in H2 as [H2 _]. by split.
Qed.

Lemma view_perm (cat cat' : Catalog) :
  cat_ok (map fst cat) -> consistent (cat_entries cat) -> cat ≡ₚ cat' ->
  (forall key, newest (cat_entries cat') key = newest (cat_entries cat) key) /\
  view (cat_entries cat') = view (cat_entries cat).
Proof.
  intros Hok Hc Hp.
  assert (Hn : forall key, newest (cat_entries cat') key = newest (cat_entries cat) key).
  { intros key. symmetry. apply newest_perm; [done|]. by apply Permutation_map. }
  split; [done|]. apply view_ext; [| |intros key; by rewrite Hn].
  - apply cat_sorted. eapply cat_ok_perm; [|done]. by apply Permutation_map.
  - by apply cat_sorted.
Qed.

(** ** What leaves the invariant alone *)

Section stable.
Context (s : SSTableManager) (cat : Catalog).
Hypothesis Hinv : sm_inv s cat.

Lemma sm_inv_fs f : sm_inv (set_fs f s) cat.
Proof. by destruct Hinv; split. Qed.
Lemma sm_inv_rs st : good_cat (map fst cat) st -> sm_inv (set_rs st s) cat.
Proof. intros H. by destruct Hinv; split. Qed.
Lemma sm_inv_manifest m : directory_ m = directory_ (sm_manifest s) -> sm_inv (set_manifest m s) cat.
Proof. intros H. destruct Hinv; split; try done. simpl. congruence. Qed.
Lemma sm_inv_statistics st : sm_inv (set_statistics st s) cat.
Proof. by destruct Hinv; split. Qed.

Lemma sm_inv_file_id n : sm_next_file_id s <= n <= u64_max -> sm_inv (set_next_file_id n s) cat.
Proof.
  intros Hn. destruct Hinv; split; try done; simpl; [|lia]. eapply Forall_impl; [exact sv_names0|].
  intros c (m & H1 & H2 & H3 & H4). exists m. split_and!; [done..|]. intros level id g sq E Hid.
  specialize (H4 level id g sq E Hid). lia.
Qed.
End stable.

Lemma reserve_spec s cat r s' :
  sm_inv s cat -> reserve_file_id s = (r, s') ->
  sm_inv s' cat /\ sm_options s' = sm_options s /\ sm_fs s' = sm_fs s /\ sm_manifest s' = sm_manifest s /\
  sm_state_version s' = sm_state_version s /\
  match r with
  | Ok id => id = sm_next_file_id s /\ id < u64_max /\ sm_next_file_id s' = id + 1
  | Throw _ => sm_next_file_id s = u64_max /\ s' = s
  end.
Proof.
  intros Hinv H. unfold reserve_file_id, mbind, stm_bind, sget, slift, throw_if, smodify, mret, stm_ret in H. destruct (sm_next_file_id s =? u64_max) eqn:E; zbool; simplify_eq.
  - by split_and!.
  - pose proof (sv_file_id _ _ Hinv). rewrite u64_small by lia.
    split_and!; try done; simpl; try lia. apply sm_inv_file_id; [done|lia].
Qed.

(** ** The names the manager makes *)

Section filenames.
Context (level : SSTableLevel) (id g sq : Z).

Lemma level_name_length : length (level_name level) = 2%nat.
Proof. by destruct level. Qed.

Lemma table_filename_plain : plain_name (table_filename level id g sq).
Proof.
  unfold table_filename, plain_name. split_and!; [done..|]. apply has_parent_false.
  assert (Hp : forall n, slash ∉ pad20 n) by (intros n; apply pad20_no; vm_compute; intros []; congruence).
  rewrite !not_elem_of_app. split_and!; try apply Hp; try (by apply has_parent_false).
  destruct level; by apply has_parent_false.
Qed.

Lemma table_filename_size : zlen (table_filename level id g sq) <= kMaximumFilenameBytes.
Proof.
  unfold table_filename, zlen. rewrite !length_app, !pad20_length, level_name_length. vm_compute. congruence.
Qed.
End filenames.

Lemma table_filename_inj level id g sq level' id' g' sq' :
  is_u64 id -> is_u64 id' -> table_filename level id g sq = table_filename level' id' g' sq' -> id = id'.
Proof.
  intros H1 H2 H. unfold table_filename in H. apply app_inv_head in H.
  apply app_inj_1 in H as [_ H]; [|by rewrite !level_name_length]. apply app_inv_head in H.
  apply app_inj_1 in H as [H _]; [|by rewrite !pad20_length]. by apply pad20_inj.
Qed.

Lemma path_join_ne d n : n <> [] -> path_join d n <> [].
Proof.
  intros Hn. unfold path_join. destruct (path_is_absolute n); [done|].
  destruct (is_nil (path_filename d)); intros [_ E]%app_eq_nil; [done|]. done.
Qed.

(** ** Writing a table *)

Definition fresh_path (s : SSTableManager) (cat : Catalog) (path : str) : Prop :=
  forall c, c ∈ cat -> lexically_normal path <> op_id c.1.

(** A table as [write_table] makes it. *)
Record made (s s' : SSTableManager) (cat : Catalog) (entries : list (str * Entry)) (generation : Z) (o : OpenTable) : Prop := {
  md_ok : op_ok o;
  md_entries : op_entries o = entries;
  md_gen : h_generation (op_header o) = generation;
  md_fresh : fresh_path s cat (op_path o);
  md_name : name_ok (so_directory (sm_options s)) (sm_next_file_id s') (op_path o)
}.

Lemma new_path_fresh s cat level id g sq :
  sm_inv s cat -> sm_next_file_id s = id -> fresh_path s cat (table_path (sm_options s) level id g sq).
Proof.
  intros Hinv Hid c Hc E. pose proof (sv_names _ _ Hinv) as Hn. rewrite Forall_forall in Hn.
  destruct (Hn c Hc) as (n & Hp & Hpl & _ & Hlt). unfold op_id in E. rewrite Hp in E. unfold table_path in E.
  apply normal_join_inj in E; [|apply table_filename_plain|done]. pose proof (sv_file_id _ _ Hinv).
  specialize (Hlt level id g sq (eq_sym E)). unfold is_u64 in Hlt. lia.
Qed.

Lemma new_path_name s level id g sq :
  is_u64 id -> name_ok (so_directory (sm_options s)) (id + 1) (table_path (sm_options s) level id g sq).
Proof.
  intros Hid. exists (table_filename level id g sq). split_and!; [done|apply table_filename_plain|apply table_filename_size|].
  intros l i g' q E Hi. apply table_filename_inj in E; [lia|done|done].
Qed.

Lemma write_table_spec s cat entries level generation r s' :
  sm_inv s cat -> om_wf entries -> Forall wf_entry entries -> entries <> [] -> zlen entries <= u32_max ->
  is_u64 generation -> write_table entries level generation s = (r, s') ->
  sm_inv s' cat /\ sm_options s' = sm_options s /\ sm_manifest s' = sm_manifest s /\
  sm_state_version s' = sm_state_version s /\ sm_next_file_id s <= sm_next_file_id s' /\
  (forall id m rd, r = Ok (id, m, rd) -> exists o, made s s' cat entries generation o /\ rd = op_reader o) /\
  (fs_script (sm_fs s) = [] -> sm_next_file_id s < u64_max -> is_Ok r = true /\ fs_script (sm_fs s') = []).
Proof.
  intros Hinv Hwf He Hne Hlen Hgen H. unfold write_table, mbind, stm_bind in H.
  destruct (reserve_file_id s) as [r0 s0] eqn:E0.
  destruct (reserve_spec _ _ _ _ Hinv E0) as (Hinv0 & Ho0 & Hf0 & Hm0 & Hv0 & Hr0).
  destruct r0 as [id|e0]; [|destruct Hr0 as [? ->]; simplify_eq; split_and!; try done; lia]. destruct Hr0 as (Hid & Hmax & Hnext).
  unfold sget in H. rewrite Ho0 in H.
  set (path := table_path (sm_options s) level id generation (max_sequence_of entries)) in *.
  set (wo := mkWriterOptions path generation (so_target_data_block_bytes (sm_options s))) in *.
  assert (W : writable entries wo).
  { apply writable_intro; try done; [|apply (ok_target _ (sv_options _ _ Hinv))].
    apply path_join_ne, table_filename_plain. }
  pose proof (sv_file_id _ _ Hinv) as Hfid.
  unfold on_fs in H. rewrite Hf0 in H. destruct (sst_write entries wo (sm_fs s)) as [r1 f1] eqn:E1.
  assert (Hq : fs_script (sm_fs s) = [] -> is_Ok r1 = true /\ fs_script f1 = []).
  { intros Hs. destruct (sst_write_quiet _ _ W _ Hs) as (m & f' & E & Hs'). rewrite E in E1. by simplify_eq. }
  pose proof (sm_inv_fs _ _ Hinv0 f1) as Hinv1.
  destruct r1 as [m|e1].
  2:{ simplify_eq. split_and!; try done; [simpl; lia|]. intros Hs _. by destruct (Hq Hs). }
  destruct (sst_write_spec entries wo W _ _ _ E1) as (lo & hi & Ec & _ & Hok).
  destruct (Hok m eq_refl) as (-> & Hdir & _).
  unfold slift in H.
  pose proof (sv_options _ _ Hinv) as Hopt. pose proof (zlen_nonneg entries).
  destruct (build_bloom_filter (sm_options s) entries) as [bloom|eb] eqn:Eb.
  2:{ exfalso. unfold build_bloom_filter, bf_new in Eb. rewrite (ok_rate _ Hopt) in Eb.
      assert (Hz : zlen entries <> 0) by by rewrite zlen_0.
      destruct (ok_bits _ Hopt (zlen entries)) as [bits Hbits]; [lia|]. rewrite Hbits in Eb.
      unfold mbind, result_bind, throw_if, mret, result_ret in Eb. simpl in Eb. by rewrite (proj2 (Z.eqb_neq _ _) Hz) in Eb. }
  destruct (open_written (map fst cat) entries wo lo hi (Some bloom) f1 (sm_rs (set_fs f1 s0)) W Ec) as [Hoo (st' & Eo & Hg')].
  { unfold contents. by rewrite Hdir. }
  { by eapply build_bloom_ok, Eb; apply Hopt. }
  { apply Hinv1. }
  unfold open_table, mbind, stm_bind, sget, on_rs in H. cbn [SstWriter.metadata_for md_path sm_fs set_fs] in H.
  rewrite Eo in H. unfold mret, stm_ret in H. simplify_eq.
  split; [by apply sm_inv_rs|]. split_and!; try done; [simpl; lia| |].
  - intros id' m' rd' [= <- <- <-]. eexists. split; [|done]. split; [done..| |].
    + by apply new_path_fresh.
    + cbn [written op_path wo output_path sm_next_file_id set_rs set_fs]. rewrite Hnext.
      apply new_path_name. unfold is_u64. lia.
  - intros Hs _. by destruct (Hq Hs).
Qed.

(** ** The manifest of a list of tables *)

Lemma commit_directory m tables n f sn m' f' :
  commit m tables n f = (Ok (sn, m'), f') -> directory_ m' = directory_ m.
Proof.
  unfold commit, mbind, stm_bind, slift, mret, stm_ret. intros H.
  repeat (break_match; simplify_eq/=; try done).
Qed.

Lemma table_metadata_wf directory next c :
  op_ok c.1 -> name_ok directory next (op_path c.1) ->
  table_wf (bare (with_level c.2 (metadata_ (op_reader c.1)))) /\
  exists n, op_path c.1 = path_join directory n /\
    md_path (bare (with_level c.2 (metadata_ (op_reader c.1)))) = n.
Proof.
  intros Hok (n & Hp & (N1 & _ & _ & N4) & Hl & _).
  assert (Hn : md_path (bare (with_level c.2 (metadata_ (op_reader c.1)))) = n).
  { simpl. rewrite Hp. by apply path_filename_join. }
  destruct (op_ok_entries _ Hok) as (_ & He & _). rewrite Forall_forall in He.
  destruct (managed_bounds c Hok) as [[e1 H1] [e2 H2]].
  pose proof (He _ H1) as [K1 _]. pose proof (He _ H2) as [K2 _].
  pose proof (oo_table _ Hok) as G. pose proof (gt_header _ _ _ G) as (G1 & G2 & G3 & _ & G4 & G5).
  rewrite (gt_entries _ _ _ G) in G2. rewrite (gt_count _ _ _ G) in G3.
  split; [|by exists n]. unfold valid_key, kMaxKeySize in *.
  change (smallest (managed c)) with (default [] (fst <$> head (op_entries c.1))) in K1.
  change (largest (managed c)) with (default [] (fst <$> last (op_entries c.1))) in K2.
  split; rewrite ?Hn; simpl; try done; unfold is_u64, is_u32, u64_max, u32_max in *; simpl in *; try lia.
  - assert (0 < zlen n); [|lia]. pose proof (zlen_nonneg n). assert (zlen n <> 0) by by rewrite zlen_0. lia.
  - by apply (managed_proper c).
Qed.

Lemma next_snapshot_wf m cat directory next :
  cat_ok (map fst cat) -> Forall (fun c => name_ok directory next (op_path c.1)) cat ->
  0 <= current_generation_ m < u64_max -> 0 < next <= u64_max -> zlen cat <= kMaximumManifestTables ->
  snapshot_wf (next_snapshot m (SstManager.metadata_for (map managed cat)) next).
Proof.
  intros Hok Hn Hg Hnx Hc. rewrite Forall_forall in Hn.
  assert (Hm : map bare (SstManager.metadata_for (map managed cat)) =
               map (fun c => bare (with_level c.2 (metadata_ (op_reader c.1)))) cat).
  { unfold SstManager.metadata_for. by rewrite !map_map. }
  split; unfold next_snapshot; cbn [mf_generation mf_next_file_id mf_tables]; rewrite ?Hm.
  - rewrite u64_small by lia. unfold is_u64. lia.
  - unfold is_u64. lia.
  - unfold zlen in *. by rewrite length_map.
  - apply Forall_forall. intros t Ht. apply list_elem_of_In, in_map_iff in Ht as (c & <- & Hin%list_elem_of_In).
    by eapply table_metadata_wf; [eapply cat_ok_elem|apply Hn].
  - rewrite map_map. destruct Hok as [Hids Hoks].
    apply (NoDup_fmap_1 (fun n => lexically_normal (path_join directory n))).
    enough ((fun n => lexically_normal (path_join directory n)) <$>
       map (fun c => md_path (bare (with_level c.2 (metadata_ (op_reader c.1))))) cat = map op_id (map fst cat)) as ->; [done|].
    change (fmap (M := list)) with (@map str str). rewrite !map_map. apply map_ext_in. intros c Hin%list_elem_of_In.
    rewrite Forall_forall in Hoks.
    destruct (table_metadata_wf directory next c) as (_ & n & Hp & ->).
    + apply Hoks, list_elem_of_In, in_map. by apply list_elem_of_In.
    + by apply Hn.
    + unfold op_id. by rewrite Hp.
Qed.

(** ** Publication *)

Lemma sort_tables_cat cat : exists cat', sort_tables (map managed cat) = map managed cat' /\ cat' ≡ₚ cat.
Proof.
  destruct (Permutation_map_inv managed cat (l1 := sort_tables (map managed cat))) as (cat' & E & Hp).
  { apply sort_by_perm. }
  exists cat'. by split.
Qed.

(** Room in the counters for one more publication. *)
Definition room (s : SSTableManager) (cat : Catalog) : Prop :=
  0 <= current_generation_ (sm_manifest s) < u64_max /\ zlen cat <= kMaximumManifestTables /\
  forall c, c ∈ cat -> h_generation (op_header c.1) < u64_max.

Lemma max_of_bound (f : SSTableMetadata -> Z) ts n :
  0 < n -> (forall t, t ∈ ts -> f (mg_metadata t) < n) -> max_of f ts < n.
Proof.
  intros Hn H. unfold max_of. assert (G : forall a, a < n -> foldl (fun a t => Z.max a (f (mg_metadata t))) a ts < n);
    [|apply G; lia]. revert H. induction ts as [|t ts IH]; intros H a Ha; [done|]. simpl. apply IH.
  - intros u Hu. apply H. by right.
  - pose proof (H t ltac:(by left)). lia.
Qed.

(** The list that replaces the one in force. *)
Record publishable (s : SSTableManager) (cat : Catalog) (live : Z) : Prop := {
  pb_cat : cat_ok (map fst cat);
  pb_consistent : consistent (cat_entries cat);
  pb_disjoint : l1_disjoint (map managed cat);
  pb_live : live = Z.of_nat (size (view (cat_entries cat)));
  pb_names : Forall (fun c => name_ok (so_directory (sm_options s)) (sm_next_file_id s) (op_path c.1)) cat
}.

Lemma next_generation_ok s cat :
  room s cat -> exists n, next_generation_of (map managed cat) = Ok n.
Proof.
  intros (_ & _ & H). unfold next_generation_of. destruct (is_nil _); [by eexists|].
  unfold mbind, result_bind, throw_if.
  assert (Hlt : max_of md_generation (map managed cat) < u64_max).
  { apply max_of_bound; [done|]. intros t Ht. apply list_elem_of_In, in_map_iff in Ht as (c & <- & Hc%list_elem_of_In).
    by apply H. }
  rewrite (proj2 (Z.eqb_neq _ _)) by lia. by eexists.
Qed.

(** The state after the counters and the list are set. *)
Lemma published_inv s cat cat' live mx ng m' f' :
  sm_inv s cat -> publishable s cat' live -> directory_ m' = directory_ (sm_manifest s) ->
  forall cat'', cat'' ≡ₚ cat' ->
  sm_inv (set_rs (clear_cache (sm_rs s)) (bump_version (set_counters live mx ng
            (set_readers (map managed cat'') (set_manifest m' (set_fs f' s)))))) cat''.
Proof.
  intros Hinv [] Hm cat'' Hp. destruct Hinv.
  assert (Hp1 : map fst cat' ≡ₚ map fst cat'') by (by symmetry; apply Permutation_map).
  destruct (view_perm cat' cat'') as [Hn Hv]; [done..|by symmetry|].
  split; simpl; try done; try congruence.
  - by eapply cat_ok_perm.
  - by eapply clear_cache_good.
  - eapply consistent_sub; [|exact pb_consistent0]. intros es Hes. unfold cat_entries in *.
    assert (Hq : map (fun c => op_entries c.1) cat'' ≡ₚ map (fun c => op_entries c.1) cat') by by apply Permutation_map.
    by rewrite <- Hq.
  - eapply l1_disjoint_perm; [|exact pb_disjoint0]. apply Permutation_map. by symmetry.
  - by rewrite Hp.
Qed.

Lemma publish_tables_spec s cat cat' live r s' :
  sm_inv s cat -> publishable s cat' live ->
  publish_tables_locked (map managed cat') live s = (r, s') ->
  sm_options s' = sm_options s /\ sm_next_file_id s' = sm_next_file_id s /\
  (r = Ok tt -> exists cat'', cat'' ≡ₚ cat' /\ sm_inv s' cat'') /\
  (forall e, r = Throw e -> sm_inv s' cat) /\
  (fs_script (sm_fs s) = [] -> room s cat' -> is_Ok r = true /\ fs_script (sm_fs s') = []).
Proof.
  intros Hinv Hpub H. unfold publish_tables_locked in H.
  destruct (sort_tables_cat cat') as (cat'' & Es & Hp). rewrite Es in H.
  assert (Hv : validate_level1_ranges (map managed cat'') = Ok tt).
  { apply validate_iff.
    - apply cat_proper. eapply cat_ok_perm; [|apply Hpub]. symmetry. by apply Permutation_map.
    - eapply l1_disjoint_perm; [|apply Hpub]. symmetry. by apply Permutation_map. }
  assert (Hroom : room s cat' -> room s cat'').
  { intros (R1 & R2 & R3). split_and!; [lia..| |]; [unfold zlen in *; by rewrite Hp|]. intros c Hc. apply R3. by rewrite <- Hp. }
  unfold mbind, stm_bind, slift in H. rewrite Hv in H.
  destruct (next_generation_of (map managed cat'')) as [ng|eg] eqn:Eg.
  2:{ simplify_eq. split_and!; try done. intros _ Hr. destruct (next_generation_ok _ _ (Hroom Hr)) as [n Hn]. congruence. }
  unfold on_manifest, mbind, stm_bind, sget, on_fs in H.
  destruct (commit _ _ _ (sm_fs s)) as [rc f1] eqn:Ec.
  assert (Hq : fs_script (sm_fs s) = [] -> room s cat' -> is_Ok rc = true /\ fs_script f1 = []).
  { intros Hs (R1 & R2 & R3)%Hroom.
    destruct (commit_quiet (sm_manifest s) (SstManager.metadata_for (map managed cat'')) (sm_next_file_id s)) with (f := sm_fs s)
      as (a & f2 & E2 & Hf2); [|done|rewrite E2 in Ec; by simplify_eq].
    apply next_snapshot_wf with (directory := so_directory (sm_options s)); try done; try apply Hinv.
    - eapply cat_ok_perm; [|apply Hpub]. symmetry. by apply Permutation_map.
    - rewrite Hp. apply Hpub. }
  destruct rc as [[sn m']|ec].
  2:{ simplify_eq. split_and!; try done. intros e _. by apply sm_inv_fs. }
  apply commit_directory in Ec. unfold smodify in H. simplify_eq. split_and!; try done.
  intros _. exists cat''. split; [done|].
  exact (published_inv s cat cat' live _ ng m' f1 Hinv Hpub Ec cat'' Hp).
Qed.

(** ** Flushing *)

Section flush.
Context (s : SSTableManager) (cat : Catalog) (entries : list (str * Entry)).
Hypothesis Hinv : sm_inv s cat.
Hypothesis Hwf : om_wf entries.
Hypothesis Hentries : Forall wf_entry entries.
(** The entries are newer than what the tables hold for their keys. *)
Hypothesis Hnewer : forall es k e e', es ∈ cat_entries cat -> om_find k es = Some e ->
  om_find k entries = Some e' -> e_seq e < e_seq e'.

Lemma flush_newest key :
  newest (cat_entries cat ++ [entries]) key =
  match om_find key entries with Some e => Some e | None => newest (cat_entries cat) key end.
Proof.
  rewrite newest_snoc. pose proof (newest_spec (cat_entries cat) key) as Hn.
  destruct (om_find key entries) as [e|] eqn:E, (newest (cat_entries cat) key) as [n|]; try done. simpl.
  destruct Hn as [(es & Hin & Hf) _]. specialize (Hnewer es key n e Hin Hf E). by zdecide.
Qed.

Lemma flush_consistent : consistent (cat_entries cat ++ [entries]).
Proof.
  intros es1 es2 k e1 e2 H1 H2 F1 F2 Hs. apply elem_of_app in H1, H2.
  destruct H1 as [H1|H1%list_elem_of_singleton], H2 as [H2|H2%list_elem_of_singleton]; subst.
  - by eapply (sv_consistent _ _ Hinv es1 es2).
  - specialize (Hnewer _ _ _ _ H1 F1 F2). lia.
  - specialize (Hnewer _ _ _ _ H2 F2 F1). lia.
  - congruence.
Qed.

Lemma flush_publishable s' o :
  sm_options s' = sm_options s -> sm_next_file_id s <= sm_next_file_id s' ->
  made s s' cat entries (h_generation (op_header o)) o ->
  publishable s' (cat ++ [(o, Level0)]) (Z.of_nat (size (view (cat_entries cat ++ [entries])))).
Proof.
  intros Ho Hid [M1 M2 _ M4 M5].
  assert (Hce : cat_entries (cat ++ [(o, Level0)]) = cat_entries cat ++ [entries]).
  { unfold cat_entries. rewrite map_app. simpl. by rewrite M2. }
  split; rewrite ?Hce; [|apply flush_consistent| |done|].
  - destruct (sv_cat _ _ Hinv) as [C1 C2]. split; rewrite !map_app; simpl.
    + apply NoDup_app. split; [done|]. split; [|apply NoDup_singleton].
      intros i Hi E%list_elem_of_singleton. rewrite map_map in Hi. apply list_elem_of_In, in_map_iff in Hi as (c & <- & Hc%list_elem_of_In).
      by apply (M4 c).
    + apply Forall_app. split; [done|by constructor].
  - rewrite map_app. intros i j t u Hij Hi Hj Ht Hu. pose proof (sv_disjoint _ _ Hinv) as Hd.
    assert (Hlast : forall k v, (map managed cat ++ map managed [(o, Level0)]) !! k = Some v -> mg_level v = Level1 ->
      map managed cat !! k = Some v).
    { intros k v Hk Hv. apply lookup_app_Some in Hk as [Hk|[_ Hk]]; [done|].
      by destruct (k - length (map managed cat))%nat as [|[]]; simplify_eq/=. }
    by eapply (Hd i j); eauto.
  - rewrite Ho. apply Forall_app. split; [|by constructor].
    eapply Forall_impl; [apply (sv_names _ _ Hinv)|]. intros c (n & N1 & N2 & N3 & N4). exists n.
    split_and!; [done..|]. intros l i g q E Hi. specialize (N4 l i g q E Hi). lia.
Qed.

(** The publication of the new table, from a state that follows [s]. *)
Lemma flush_loop_spec s1 o r s' :
  sm_inv s1 cat -> sm_options s1 = sm_options s -> sm_next_file_id s <= sm_next_file_id s1 ->
  made s s1 cat entries (h_generation (op_header o)) o ->
  sm_live_key_count s + zlen entries <= u64_max ->
  flush_loop kFlushTurns entries (op_reader o) s1 = (r, s') ->
  (r = Ok tt -> exists cat', cat' ≡ₚ cat ++ [(o, Level0)] /\ sm_inv s' cat') /\
  (forall e, r = Throw e -> sm_inv s' cat) /\
  (fs_script (sm_fs s1) = [] -> room s1 (cat ++ [(o, Level0)]) -> is_Ok r = true /\ fs_script (sm_fs s') = []).
Proof.
  intros Hinv1 Ho Hid Hmade Hlive H. cbn [flush_loop kFlushTurns] in H.
  unfold flush_attempt, on_rs in H. unfold mbind, stm_bind, sget in H.
  pose proof (cat_view (map fst cat) (sv_cat _ _ Hinv)) as TV.
  assert (Hs1 : sm_live_key_count s1 = sm_live_key_count s) by by rewrite (sv_live _ _ Hinv1), (sv_live _ _ Hinv).
  edestruct (live_count_ok (TV := TV) (map managed cat) (cat_entries cat) [] entries (sm_live_key_count s1) (sm_rs s1))
    as (st' & Ec & Hg'); [apply cat_hold_self|apply Hinv1|done| |rewrite Hs1|lia|].
  { eapply Forall_impl; [exact Hentries|]. by intros kv [? _]. }
  { rewrite (sv_live _ _ Hinv). do 2 f_equal. apply view_ext.
    - by apply cat_sorted, Hinv.
    - apply Forall_app. split; [by apply cat_sorted, Hinv|by repeat constructor].
    - intros key. rewrite newest_snoc. by destruct (newest _ key). }
  cbv beta in H. rewrite (sv_readers _ _ Hinv1), Ec in H. cbn [app] in H.
  pose proof (sm_inv_rs _ _ Hinv1 st' Hg') as Hinv2. set (s2 := set_rs st' s1) in *.
  change (sm_state_version s2) with (sm_state_version s1) in H. rewrite Z.eqb_refl in H. cbn [negb] in H.
  destruct (publish_tables_locked _ _ s2) as [r3 s3] eqn:E3.
  assert (Hpub : publishable s2 (cat ++ [(o, Level0)]) (Z.of_nat (size (view (cat_entries cat ++ [entries])))))
    by (by apply flush_publishable; destruct Hmade).
  change (map managed cat ++ [mkManaged (op_reader o) Level0]) with (map managed cat ++ map managed [(o, Level0)]) in E3.
  rewrite <- map_app in E3. destruct (publish_tables_spec _ _ _ _ _ _ Hinv2 Hpub E3) as (_ & _ & P1 & P2 & P3).
  destruct r3 as [[]|e3]; unfold mret, stm_ret in H; simplify_eq.
  - split_and!; [by intros _; apply P1|done|]. intros Hs Hr. by apply P3.
  - split_and!; [done|intros e _; by eapply P2|]. intros Hs Hr. by apply P3.
Qed.
End flush.

(** What [flush] does, however it ends. *)
Lemma flush_spec s cat t r s' :
  sm_inv s cat -> mt_inv t -> immutable_ t = true -> entries_ t <> [] -> zlen (entries_ t) <= u32_max ->
  is_u64 (generation_ t) ->
  (forall es k e e', es ∈ cat_entries cat -> om_find k es = Some e -> om_find k (entries_ t) = Some e' ->
     e_seq e < e_seq e') ->
  sm_live_key_count s + zlen (entries_ t) <= u64_max ->
  flush t s = (r, s') ->
  exists cat', sm_inv s' cat' /\
    (forall m, r = Ok m -> forall key, newest (cat_entries cat') key =
       match om_find key (entries_ t) with Some e => Some e | None => newest (cat_entries cat) key end) /\
    (forall m, r = Ok m -> exists o, cat' ≡ₚ cat ++ [(o, Level0)] /\ op_entries o = entries_ t /\
       h_generation (op_header o) = generation_ t) /\
    (forall e, r = Throw e -> cat' = cat) /\
    (fs_script (sm_fs s) = [] -> sm_next_file_id s < u64_max -> room s cat -> generation_ t < u64_max ->
     zlen cat < kMaximumManifestTables -> is_Ok r = true /\ fs_script (sm_fs s') = []).
Proof.
  intros Hinv Ht Himm Hne Hlen Hgen Hnewer Hlive H. unfold flush in H. rewrite Himm in H.
  assert (Hwe : Forall wf_entry (entries_ t)) by apply Ht. assert (Hso : om_wf (entries_ t)) by apply Ht.
  unfold mbind, stm_bind, slift, throw_if, mt_snapshot in H. rewrite (proj2 (is_nil_false _)) in H by done.
  cbn [negb] in H. destruct (write_table (entries_ t) Level0 (generation_ t) s) as [r1 s1] eqn:E1.
  destruct (write_table_spec _ _ _ _ _ _ _ Hinv Hso Hwe Hne Hlen Hgen E1)
    as (Hinv1 & Ho1 & Hm1 & Hv1 & Hid1 & Hmade & Hq1).
  destruct r1 as [[[id m] rd]|e1].
  2:{ simplify_eq. exists cat. split_and!; try done. intros Hs Hn _ _ _. by destruct (Hq1 Hs Hn). }
  destruct (Hmade _ _ _ eq_refl) as (o & Mo & ->).
  assert (Hgo : h_generation (op_header o) = generation_ t) by apply Mo. rewrite <- Hgo in Mo.
  destruct (flush_loop kFlushTurns (entries_ t) (op_reader o) s1) as [r2 s2] eqn:E2.
  destruct (flush_loop_spec s cat (entries_ t) Hinv Hso Hwe Hnewer s1 o r2 s2 Hinv1 Ho1 Hid1 Mo Hlive E2) as (P1 & P2 & P3).
  assert (Hroom : room s cat -> generation_ t < u64_max -> zlen cat < kMaximumManifestTables -> room s1 (cat ++ [(o, Level0)])).
  { intros (R1 & R2 & R3) Hg Hz. split_and!; try (rewrite Hm1; lia).
    - rewrite zlen_app, zlen_cons, zlen_nil. lia.
    - intros c [Hc|Hc%list_elem_of_singleton]%elem_of_app; [by apply R3|]. subst c. simpl. lia. }
  destruct r2 as [[]|e2]; unfold mret, stm_ret in H; simplify_eq.
  - destruct (P1 eq_refl) as (cat' & Hp & Hinv'). exists cat'.
    assert (Hce : cat_entries cat' ≡ₚ cat_entries cat ++ [entries_ t]).
    { unfold cat_entries. rewrite Hp, map_app. simpl. by rewrite (md_entries _ _ _ _ _ _ Mo). }
    split_and!; try done.
    + intros m' _ key. rewrite <- flush_newest by done. apply newest_perm; [apply Hinv'|done].
    + intros m' _. exists o. split_and!; [done|apply Mo|done].
    + intros Hs Hn Hr Hg Hz. destruct (Hq1 Hs Hn) as [_ Hs1]. by apply P3; [|apply Hroom].
  - exists cat. split_and!; try done; [by eapply P2|]. intros Hs Hn Hr Hg Hz. destruct (Hq1 Hs Hn) as [_ Hs1].
    by apply P3; [|apply Hroom].
Qed.

(** ** Reading *)

Lemma sm_get_spec s cat key :
  sm_inv s cat -> valid_key key ->
  exists s', sm_get key s = (Ok (newest (cat_entries cat) key), s') /\ sm_inv s' cat /\ sm_fs s' = sm_fs s /\
    sm_options s' = sm_options s /\ sm_next_file_id s' = sm_next_file_id s /\ sm_manifest s' = sm_manifest s.
Proof.
  intros Hinv Hk. unfold sm_get. rewrite validate_key_ok by done. unfold on_rs, mbind, stm_bind, slift, sget.
  pose proof (cat_view (map fst cat) (sv_cat _ _ Hinv)) as TV. rewrite (sv_readers _ _ Hinv).
  destruct (newest_entry_ok (TV := TV) (map managed cat) (cat_entries cat) key (sm_rs s)) as (st' & -> & Hg);
    [apply cat_hold_self|apply Hinv|done|]. exists (set_rs st' s). split_and!; try done. by apply sm_inv_rs.
Qed.

(** ** Compaction *)

Lemma l1_disjoint_app_r a b : l1_disjoint (a ++ b) -> l1_disjoint b.
Proof.
  intros H i j t u Hij Hi Hj. apply (H (length a + i)%nat (length a + j)%nat); [lia|..];
    rewrite lookup_app_r by lia; [rewrite <- Hi|rewrite <- Hj]; f_equal; lia.
Qed.

Lemma l1_disjoint_snoc ts t :
  l1_disjoint ts ->
  (forall u, u ∈ ts -> mg_level u = Level1 -> ~ overlap (smallest t) (largest t) (smallest u) (largest u)) ->
  l1_disjoint (ts ++ [t]).
Proof.
  intros H Ht i j a b Hij Hi Hj Ha Hb.
  apply lookup_app_Some in Hi as [Hi|[Hi1 Hi]], Hj as [Hj|[Hj1 Hj]].
  - by eapply (H i j).
  - destruct (j - length ts)%nat as [|[]]; simplify_eq/=. rewrite overlap_sym. apply Ht; [by eapply list_elem_of_lookup_2|done].
  - destruct (i - length ts)%nat as [|[]]; simplify_eq/=. apply Ht; [by eapply list_elem_of_lookup_2|done].
  - destruct (i - length ts)%nat as [|[]] eqn:E1; simplify_eq/=. destruct (j - length ts)%nat as [|[]] eqn:E2; simplify_eq/=. lia.
Qed.

Section compaction.
Context (s : SSTableManager) (cat csel cun : Catalog) (kept : list (str * Entry)) (lo hi : str).
Hypothesis Hinv : sm_inv s cat.
Hypothesis Hsplit : csel ++ cun ≡ₚ cat.
Hypothesis Hhull : forall c, c ∈ csel -> str_le lo (smallest (managed c)) /\ str_le (largest (managed c)) hi.
Hypothesis Hout : forall c, c ∈ cun -> c.2 = Level1 ->
  ~ overlap lo hi (smallest (managed c)) (largest (managed c)).
Hypothesis Hkept_wf : om_wf kept.
Hypothesis Hkept : forall kv, kv ∈ kept <-> kv ∈ merge_all (cat_entries csel) /\ keeps_entry (cat_entries cun) kv.

Lemma split_ok : cat_ok (map fst csel) /\ cat_ok (map fst cun).
Proof.
  pose proof (sv_cat _ _ Hinv) as Hok. split; (eapply cat_ok_sub; [|exact Hok]); rewrite <- Hsplit.
  - apply submseteq_inserts_r. done.
  - apply submseteq_inserts_l. done.
Qed.

Lemma split_entries : cat_entries csel ++ cat_entries cun ≡ₚ cat_entries cat.
Proof. unfold cat_entries. rewrite <- map_app. by apply Permutation_map. Qed.

Lemma split_consistent : consistent (cat_entries csel ++ cat_entries cun).
Proof.
  eapply consistent_sub; [|apply (sv_consistent _ _ Hinv)]. intros es Hes. by rewrite <- split_entries.
Qed.

Lemma kept_in_selected kv : kv ∈ kept -> exists c, c ∈ csel /\ om_find kv.1 (op_entries c.1) = Some kv.2.
Proof.
  intros Hin. destruct split_ok as [Hs _].
  destruct (kept_source (cat_entries csel) (cat_entries cun) kept (cat_sorted _ Hs) Hkept kv.1 kv.2) as (es & He & Hf).
  { apply om_In_find; [done|]. by destruct kv. }
  apply list_elem_of_In, in_map_iff in He as (c & <- & Hc%list_elem_of_In). by exists c.
Qed.

Lemma kept_entries : Forall wf_entry kept.
Proof.
  apply Forall_forall. intros kv Hin. destruct (kept_in_selected kv Hin) as (c & Hc & Hf).
  destruct split_ok as [Hs _]. destruct (op_ok_entries _ (cat_ok_elem _ _ Hs Hc)) as (_ & He & _).
  rewrite Forall_forall in He. destruct kv as [k e]. by apply He, om_find_In.
Qed.

Lemma compacted_visible key :
  visible (newest (cat_entries cun ++ [kept]) key) = visible (newest (cat_entries cat) key).
Proof.
  destruct split_ok as [Hs _].
  rewrite (compaction_visible (cat_entries csel)); [|apply split_consistent|by apply cat_sorted|done].
  f_equal. symmetry. apply newest_perm; [apply Hinv|]. symmetry. apply split_entries.
Qed.

Lemma unselected_disjoint : l1_disjoint (map managed cun).
Proof.
  apply (l1_disjoint_app_r (map managed csel)). rewrite <- map_app.
  eapply l1_disjoint_perm; [|apply (sv_disjoint _ _ Hinv)]. apply Permutation_map. by symmetry.
Qed.

Lemma unselected_names :
  Forall (fun c => name_ok (so_directory (sm_options s)) (sm_next_file_id s) (op_path c.1)) cun.
Proof. pose proof (sv_names _ _ Hinv) as Hn. rewrite <- Hsplit in Hn. by apply Forall_app in Hn as [_ Hn]. Qed.

(** The list without an output. *)
Lemma compacted_publishable_none :
  kept = [] -> publishable s cun (sm_live_key_count s).
Proof.
  intros Hk. destruct split_ok as [_ Hu]. pose proof split_consistent as Hc. split.
  - done.
  - eapply consistent_sub; [|exact Hc]. intros es Hes. apply elem_of_app. by right.
  - apply unselected_disjoint.
  - rewrite (sv_live _ _ Hinv). do 2 f_equal. apply view_ext; [by apply cat_sorted, Hinv|by apply cat_sorted|].
    intros key. rewrite <- compacted_visible, Hk, newest_snoc. simpl. by destruct (newest _ key).
  - apply unselected_names.
Qed.

(** The list with the output. *)
Lemma compacted_publishable_some s' o :
  sm_inv s' cat -> sm_options s' = sm_options s -> sm_next_file_id s <= sm_next_file_id s' ->
  made s s' cat kept (h_generation (op_header o)) o ->
  publishable s' (cun ++ [(o, Level1)]) (sm_live_key_count s').
Proof.
  intros Hinv' Ho Hid [M1 M2 _ M4 M5]. destruct split_ok as [Hs Hu].
  assert (Hce : cat_entries (cun ++ [(o, Level1)]) = cat_entries cun ++ [kept]).
  { unfold cat_entries. rewrite map_app. simpl. by rewrite M2. }
  split; rewrite ?Hce.
  - destruct Hu as [C1 C2]. split; rewrite !map_app; simpl.
    + apply NoDup_app. split; [done|]. split; [|apply NoDup_singleton].
      intros i Hi E%list_elem_of_singleton. rewrite map_map in Hi. apply list_elem_of_In, in_map_iff in Hi as (c & <- & Hc%list_elem_of_In).
      apply (M4 c); [|done]. rewrite <- Hsplit. apply elem_of_app. by right.
    + apply Forall_app. split; [done|by constructor].
  - apply (compaction_consistent (cat_entries csel)); [apply split_consistent|by apply cat_sorted|done].
  - rewrite map_app. apply l1_disjoint_snoc; [apply unselected_disjoint|].
    intros t Ht Hl Hov. apply list_elem_of_In, in_map_iff in Ht as (c & <- & Hc%list_elem_of_In).
    apply (Hout c Hc Hl). destruct (managed_bounds (o, Level1) M1) as [[e1 H1] [e2 H2]]. cbn [fst] in H1, H2.
    rewrite M2 in H1, H2. destruct (kept_in_selected _ H1) as (c1 & Hc1 & F1). destruct (kept_in_selected _ H2) as (c2 & Hc2 & F2).
    pose proof (managed_range c1 _ _ (cat_ok_elem _ _ Hs Hc1) (om_find_In _ _ _ F1)) as [L1 _].
    pose proof (managed_range c2 _ _ (cat_ok_elem _ _ Hs Hc2) (om_find_In _ _ _ F2)) as [_ L2].
    destruct (Hhull c1 Hc1) as [G1 _]. destruct (Hhull c2 Hc2) as [_ G2]. destruct Hov as [O1 O2]. simpl fst in L1, L2.
    split; [eapply str_le_trans; [exact G1|]; by eapply str_le_trans|].
    eapply str_le_trans; [exact O2|]. by eapply str_le_trans.
  - rewrite (sv_live _ _ Hinv'). do 2 f_equal. apply view_ext; [by apply cat_sorted, Hinv| |].
    + apply Forall_app. split; [by apply cat_sorted|by constructor].
    + intros key. by rewrite compacted_visible.
  - rewrite Ho. apply Forall_app. split; [|by constructor]. eapply Forall_impl; [apply unselected_names|].
    intros c (n & N1 & N2 & N3 & N4). exists n.
    split_and!; [done..|]. intros l i g q E Hi. specialize (N4 l i g q E Hi). lia.
Qed.
End compaction.

(** ** How much there is to merge *)

Definition total_entries (ess : list (list (str * Entry))) : Z := foldr (fun es n => zlen es + n) 0 ess.

Lemma total_entries_app a b : total_entries (a ++ b) = total_entries a + total_entries b.
Proof. induction a as [|es a IH]; simpl; lia. Qed.

Lemma total_entries_perm a b : a ≡ₚ b -> total_entries a = total_entries b.
Proof. induction 1; simpl; lia. Qed.

Lemma total_entries_nonneg a : 0 <= total_entries a.
Proof. induction a as [|es a IH]; simpl; [lia|]. pose proof (zlen_nonneg es). lia. Qed.

Lemma merge_all_length ess : zlen (merge_all ess) <= total_entries ess.
Proof.
  assert (H1 : forall es m, zlen (foldl merge_entry m es) <= zlen m + zlen es).
  { induction es as [|kv es IH]; intros m; simpl; [rewrite zlen_nil; lia|]. specialize (IH (merge_entry m kv)).
    rewrite zlen_cons. assert (zlen (merge_entry m kv) <= zlen m + 1); [|lia].
    unfold merge_entry. destruct (om_find _ m); [destruct (_ <? _)|]; try apply om_insert_length. lia. }
  unfold merge_all. assert (H2 : forall m, zlen (foldl (fun m es => foldl merge_entry m es) m ess) <= zlen m + total_entries ess).
  { induction ess as [|es ess IH]; intros m; simpl; [lia|]. specialize (IH (foldl merge_entry m es)). specialize (H1 es m). lia. }
  specialize (H2 []). rewrite zlen_nil in H2. lia.
Qed.

Lemma quiet_remove_files paths b : quiet (remove_files paths b).
Proof.
  revert b. induction paths as [|p paths IH]; intros b; cbn [remove_files]; [apply quiet_ret|].
  apply quiet_bind; [|intros; apply IH]. intros f Hf. unfold fs_remove. rewrite Hf. by eexists _, _.
Qed.

Lemma remove_files_ok paths b f : exists b' f', remove_files paths b f = (Ok b', f').
Proof.
  revert b f. induction paths as [|p paths IH]; intros b f; cbn [remove_files]; [by eexists _, _|].
  unfold mbind, stm_bind. unfold fs_remove. destruct (fs_script f) as [|[] sc]; apply IH.
Qed.

Lemma quiet_sync_directory_close : quiet sync_directory.
Proof. apply quiet_bind; [apply quiet_sync_directory|]. intros _. apply quiet_call. Qed.

Lemma om_wf_sublist (a b : list (str * Entry)) : a `sublist_of` b -> om_wf b -> om_wf a.
Proof.
  induction 1 as [|[k e] a b Hs IH|[k e] a b Hs IH]; [done| |]; rewrite ?om_wf_cons.
  - intros [H1 H2]. split; [auto|]. rewrite Forall_forall in H2 |- *. intros x Hx. apply H2.
    eapply elem_of_submseteq; [exact Hx|by apply sublist_submseteq].
  - intros [H1 _]. auto.
Qed.

Lemma max_generation_u64 cat : cat_ok (map fst cat) -> is_u64 (max_of md_generation (map managed cat)).
Proof.
  intros Hok. split.
  - unfold max_of. assert (G : forall a, 0 <= a -> 0 <= foldl (fun a t => Z.max a (md_generation (mg_metadata t))) a (map managed cat)).
    { clear Hok. induction (map managed cat) as [|t ts IH]; intros a Ha; simpl; [done|]. apply IH. lia. }
    by apply G.
  - enough (max_of md_generation (map managed cat) < u64_max + 1) by lia. apply max_of_bound; [done|].
    intros t Ht. apply list_elem_of_In, in_map_iff in Ht as (c & <- & Hc%list_elem_of_In).
    destruct (gt_header _ _ _ (oo_table _ (cat_ok_elem _ _ Hok Hc))) as ((_ & G) & _). simpl. lia.
Qed.

(** The steps of a compaction up to the list that it will publish. *)
Lemma select_cat s cat force :
  sm_inv s cat -> cs_selected (select_level0_compaction_locked s force) <> [] ->
  exists csel cun, csel ++ cun ≡ₚ cat /\
    cs_selected (select_level0_compaction_locked s force) = map managed csel /\
    cs_unselected (select_level0_compaction_locked s force) = map managed cun /\
    (forall c, c ∈ csel -> str_le (cs_smallest_key (select_level0_compaction_locked s force)) (smallest (managed c)) /\
                           str_le (largest (managed c)) (cs_largest_key (select_level0_compaction_locked s force))) /\
    (forall c, c ∈ cun -> c.2 = Level1 ->
       ~ overlap (cs_smallest_key (select_level0_compaction_locked s force))
           (cs_largest_key (select_level0_compaction_locked s force)) (smallest (managed c)) (largest (managed c))) /\
    (force = true -> forall c, c ∈ cun -> c.2 = Level1).
Proof.
  intros Hinv Hne. assert (Hnd : NoDup (map mg_path (sm_readers s))).
  { rewrite (sv_readers _ _ Hinv), map_mg_path. apply (sv_cat _ _ Hinv). }
  destruct (select_spec s force Hnd Hne) as (Hp & Hh & Hu & Hf & _). rewrite (sv_readers _ _ Hinv) in Hp.
  destruct (Permutation_map_inv managed cat Hp) as (l & El & Hl). symmetry in El.
  apply map_eq_app in El as (csel & cun & -> & E1 & E2).
  assert (Hin : forall c (l : Catalog), c ∈ l -> managed c ∈ map managed l)
    by (intros c l Hc; apply list_elem_of_In, in_map; by apply list_elem_of_In).
  exists csel, cun. split_and!; try done.
  - intros c Hc. apply Hh. rewrite <- E1. by apply Hin.
  - intros c Hc Hl1. apply Hu; [|done]. rewrite <- E2. by apply Hin.
  - intros -> c Hc. apply (Hf eq_refl (managed c)). rewrite <- E2. by apply Hin.
Qed.

(** Every entry of the new list was in the old one. *)
Definition entries_from (cat cat' : Catalog) : Prop :=
  forall es k e, es ∈ cat_entries cat' -> om_find k es = Some e ->
    exists es0, es0 ∈ cat_entries cat /\ om_find k es0 = Some e.

Definition level0_count (cat : Catalog) : Z := zlen (filter (fun c => c.2 = Level0) cat).

(** The new list needs no more room than the old one. *)
Record shrunk (cat cat' : Catalog) : Prop := {
  sh_level0 : level0_count cat' <= level0_count cat;
  sh_count : zlen cat' <= zlen cat;
  sh_entries : total_entries (cat_entries cat') <= total_entries (cat_entries cat);
  sh_generations : forall n, 0 < n -> (forall c, c ∈ cat -> h_generation (op_header c.1) < n) ->
    forall c, c ∈ cat' -> h_generation (op_header c.1) < n
}.

Lemma shrunk_refl cat : shrunk cat cat.
Proof. by split. Qed.

Lemma level0_count_app a b : level0_count (a ++ b) = level0_count a + level0_count b.
Proof. unfold level0_count. by rewrite filter_app, zlen_app. Qed.

Lemma level0_count_perm a b : a ≡ₚ b -> level0_count a = level0_count b.
Proof. intros H. unfold level0_count, zlen. by rewrite H. Qed.

Lemma level0_count_bounds cat : 0 <= level0_count cat <= zlen cat.
Proof. unfold level0_count, zlen. pose proof (length_filter (fun c => c.2 = Level0) cat). lia. Qed.

Lemma level0_count_Level1 cat : (forall c, c ∈ cat -> c.2 = Level1) -> level0_count cat = 0.
Proof.
  intros H. unfold level0_count. destruct (filter _ cat) as [|c l] eqn:E; [done|].
  assert (Hc : c ∈ filter (fun c => c.2 = Level0) cat) by (rewrite E; by left).
  apply list_elem_of_filter in Hc as [H0 Hc]. specialize (H c Hc). congruence.
Qed.

(** What a compaction may leave behind. *)
Record compacted (s : SSTableManager) (cat : Catalog) (s' : SSTableManager) (cat' : Catalog) : Prop := {
  cp_inv : sm_inv s' cat';
  cp_options : sm_options s' = sm_options s;
  cp_visible : forall key, visible (newest (cat_entries cat') key) = visible (newest (cat_entries cat) key);
  cp_from : entries_from cat cat';
  cp_shrunk : shrunk cat cat'
}.

Lemma compacted_same s cat s' : sm_inv s' cat -> sm_options s' = sm_options s -> compacted s cat s' cat.
Proof. intros H1 H2. split; try done. intros es k e H3 H4. eauto. Qed.

(** The list after the selected tables were replaced by what they merge to. *)
Lemma replaced_shrunk cat csel cun (output : option (OpenTable * SSTableLevel)) kept cat' :
  csel ++ cun ≡ₚ cat -> csel <> [] -> zlen kept <= total_entries (cat_entries csel) ->
  match output with
  | Some c => c.2 = Level1 /\ op_entries c.1 = kept /\ h_generation (op_header c.1) = max_of md_generation (map managed csel)
  | None => True
  end ->
  cat' ≡ₚ cun ++ option_list output ->
  shrunk cat cat' /\ level0_count cat' = level0_count cat - level0_count csel.
Proof.
  intros Hsplit Hne Hlen Hout Hp. pose proof (level0_count_perm _ _ Hsplit) as L1. rewrite level0_count_app in L1.
  pose proof (level0_count_perm _ _ Hp) as L2. rewrite level0_count_app in L2.
  assert (Ho : level0_count (option_list output) = 0).
  { apply level0_count_Level1. intros c Hc. destruct output as [c0|]; [|by apply not_elem_of_nil in Hc].
    apply list_elem_of_singleton in Hc. subst c. apply Hout. }
  pose proof (level0_count_bounds csel). split; [|lia]. split.
  - lia.
  - apply Permutation_length in Hsplit, Hp. rewrite length_app in Hsplit, Hp. destruct csel as [|c0 csel]; [done|].
    unfold zlen. simpl in *. destruct output; simpl in *; lia.
  - assert (T1 : total_entries (cat_entries csel) + total_entries (cat_entries cun) = total_entries (cat_entries cat)).
    { rewrite <- total_entries_app. apply total_entries_perm. unfold cat_entries. rewrite <- map_app. by apply Permutation_map. }
    assert (T2 : total_entries (cat_entries cat') = total_entries (cat_entries cun) + total_entries (cat_entries (option_list output))).
    { rewrite <- total_entries_app. apply total_entries_perm. unfold cat_entries. rewrite <- map_app. by apply Permutation_map. }
    pose proof (total_entries_nonneg (cat_entries csel)).
    destruct output as [c|]; simpl in T2 |- *; [|lia]. destruct Hout as (_ & Eo & _). rewrite Eo in T2. lia.
  - intros n Hn Hg c Hc. rewrite Hp in Hc. apply elem_of_app in Hc as [Hc|Hc]; [apply Hg; rewrite <- Hsplit; apply elem_of_app; by right|].
    destruct output as [c0|]; [|by apply not_elem_of_nil in Hc]. apply list_elem_of_singleton in Hc. subst c.
    destruct Hout as (_ & _ & ->). apply max_of_bound; [done|].
    intros t Ht. apply list_elem_of_In, in_map_iff in Ht as (c & <- & Hc%list_elem_of_In). apply Hg.
    rewrite <- Hsplit. apply elem_of_app. by left.
Qed.

(** The last steps: publication, statistics, and the removal of old files. *)
Section finish.
Context (s s1 : SSTableManager) (cat csel cun : Catalog) (kept : list (str * Entry)) (output : option (OpenTable * SSTableLevel)).

Hypothesis Hinv : sm_inv s cat.
Hypothesis Hinv1 : sm_inv s1 cat.
Hypothesis Hopt : sm_options s1 = sm_options s.
Hypothesis Hsplit : csel ++ cun ≡ₚ cat.
Hypothesis Hkept_wf : om_wf kept.
Hypothesis Hkept : forall kv, kv ∈ kept <-> kv ∈ merge_all (cat_entries csel) /\ keeps_entry (cat_entries cun) kv.
Hypothesis Houtput : match output with Some c => op_entries c.1 = kept | None => kept = [] end.
Hypothesis Hpub : publishable s1 (cun ++ option_list output) (sm_live_key_count s1).
Hypothesis Hshrunk : forall cat', cat' ≡ₚ cun ++ option_list output -> shrunk cat cat'.

Lemma finish_visible cat' :
  cat' ≡ₚ cun ++ option_list output -> consistent (cat_entries cat') ->
  (forall key, visible (newest (cat_entries cat') key) = visible (newest (cat_entries cat) key)) /\
  entries_from cat cat'.
Proof.
  intros Hp Hc. assert (Hpe : cat_entries cat' ≡ₚ cat_entries cun ++ map (fun c => op_entries c.1) (option_list output)).
  { unfold cat_entries. rewrite Hp. by rewrite map_app. }
  split.
  - intros key. rewrite <- (compacted_visible s cat csel cun kept) by done.
    rewrite (newest_perm _ _ key Hc Hpe), newest_snoc.
    destruct output as [c|]; simpl; [by rewrite newest_snoc, Houtput|]. rewrite app_nil_r, Houtput.
    simpl. by destruct (newest _ key).
  - intros es k e Hes Hf. rewrite Hpe in Hes. apply elem_of_app in Hes as [Hes|Hes].
    + exists es. split; [|done]. rewrite <- (split_entries cat csel cun Hsplit). apply elem_of_app. by right.
    + destruct output as [c|]; simpl in Hes; [|by apply not_elem_of_nil in Hes].
      apply list_elem_of_singleton in Hes. subst es. rewrite Houtput in Hf.
      destruct (kept_in_selected s cat csel cun kept Hinv Hsplit Hkept_wf Hkept (k, e)) as (c' & Hc' & Hf'); [by apply om_find_In|].
      exists (op_entries c'.1). split; [|done]. rewrite <- (split_entries cat csel cun Hsplit). apply elem_of_app. left.
      apply list_elem_of_In, in_map_iff. exists c'. split; [done|by apply list_elem_of_In].
Qed.

Lemma finish_spec statistics obsolete (a : CompactionResult) r s' :
  (_ ← publish_tables_locked (map managed cun ++ option_list (managed <$> output)) (sm_live_key_count s1);
   _ ← smodify statistics;
   removed_any ← on_fs (remove_files obsolete false);
   _ ← (if (removed_any : bool) then on_fs sync_directory else mret tt);
   mret a) s1 = (r, s') ->
  (forall x, exists cs, statistics x = set_statistics cs x) ->
  exists cat', compacted s cat s' cat' /\
    (is_Ok r = true -> cat' ≡ₚ cun ++ option_list output) /\
    (fs_script (sm_fs s1) = [] -> room s1 (cun ++ option_list output) -> is_Ok r = true /\ fs_script (sm_fs s') = []).
Proof.
  intros H Hst. assert (Em : map managed cun ++ option_list (managed <$> output) = map managed (cun ++ option_list output)).
  { rewrite map_app. by destruct output. }
  rewrite Em in H. unfold mbind, stm_bind in H.
  destruct (publish_tables_locked _ _ s1) as [r2 s2] eqn:E2.
  destruct (publish_tables_spec _ _ _ _ _ _ Hinv1 Hpub E2) as (Po & Pi & P1 & P2 & P3).
  destruct r2 as [[]|e2].
  2:{ simplify_eq. exists cat. split_and!; [|done|done]. apply compacted_same; [by eapply P2|congruence]. }
  destruct (P1 eq_refl) as (cat' & Hp & Hinv2). destruct (finish_visible cat' Hp (sv_consistent _ _ Hinv2)) as [Hv Hfrom].
  unfold smodify, on_fs in H. destruct (Hst s2) as [c Hc]. rewrite Hc in H.
  destruct (remove_files_ok obsolete false (sm_fs (set_statistics c s2))) as (b & f3 & E3). rewrite E3 in H.
  set (s3 := set_fs f3 (set_statistics c s2)) in *.
  assert (Hinv3 : sm_inv s3 cat') by (by apply sm_inv_fs, sm_inv_statistics).
  assert (Hq : fs_script (sm_fs s1) = [] -> room s1 (cun ++ option_list output) -> fs_script f3 = []).
  { intros Hs Hr. destruct (P3 Hs Hr) as [_ Hs2].
    destruct (quiet_remove_files obsolete false (sm_fs (set_statistics c s2)) Hs2) as (b' & f' & E' & Hf').
    rewrite E' in E3. by simplify_eq. }
  assert (Hend : forall r4 s4, (if b then on_fs sync_directory else mret tt) s3 = (r4, s4) ->
    compacted s cat s4 cat' /\ (fs_script (sm_fs s1) = [] -> room s1 (cun ++ option_list output) ->
      is_Ok r4 = true /\ fs_script (sm_fs s4) = [])).
  { intros r4 s4 E4. destruct b.
    - unfold on_fs in E4. destruct (sync_directory (sm_fs s3)) as [r5 f5] eqn:E5. simplify_eq. split.
      + split; [by apply sm_inv_fs|simpl; congruence|done..|by apply Hshrunk].
      + intros Hs Hr. destruct (quiet_sync_directory_close (sm_fs s3) (Hq Hs Hr)) as (x & f' & E' & Hf').
        rewrite E' in E5. by simplify_eq.
    - unfold mret, stm_ret in E4. simplify_eq. split; [split; [done|simpl; congruence|done..|by apply Hshrunk]|].
      intros Hs Hr. split; [done|]. by apply Hq. }
  fold (on_fs sync_directory) in H. fold s3 in H.
  destruct ((if b then on_fs sync_directory else mret tt) s3) as [r4 s4] eqn:E4.
  destruct (Hend _ _ eq_refl) as [Hcomp Hq4]. unfold mret, stm_ret in H.
  exists cat'. destruct r4 as [[]|e4]; simplify_eq; (split_and!; [done|done|done]).
Qed.
End finish.

Lemma write_output_spec s cat kept generation r s' :
  sm_inv s cat -> om_wf kept -> Forall wf_entry kept -> zlen kept <= u32_max -> is_u64 generation ->
  write_output kept generation s = (r, s') ->
  sm_inv s' cat /\ sm_options s' = sm_options s /\ sm_manifest s' = sm_manifest s /\
  sm_next_file_id s <= sm_next_file_id s' /\
  (forall out id, r = Ok (out, id) ->
     exists output, out = managed <$> output /\
       match output with
       | Some c => c.2 = Level1 /\ made s s' cat kept generation c.1
       | None => kept = [] /\ s' = s
       end) /\
  (fs_script (sm_fs s) = [] -> sm_next_file_id s < u64_max -> is_Ok r = true /\ fs_script (sm_fs s') = []).
Proof.
  intros Hinv Hwf Hwe Hlen Hgen H. unfold write_output in H. destruct (is_nil kept) eqn:En.
  { unfold mret, stm_ret in H. simplify_eq. split_and!; try done.
    intros out id [= <- <-]. exists None. by apply is_nil_true in En. }
  apply is_nil_false in En. unfold mbind, stm_bind in H. destruct (write_table _ _ _ s) as [r1 s1] eqn:E1.
  destruct (write_table_spec _ _ _ _ _ _ _ Hinv Hwf Hwe En Hlen Hgen E1) as (H1 & H2 & H3 & _ & H5 & H6 & H7).
  destruct r1 as [[[id m] rd]|e1]; unfold mret, stm_ret in H; simplify_eq; split_and!; try done.
  intros out id' [= <- <-]. destruct (H6 _ _ _ eq_refl) as (o & Mo & ->). by exists (Some (o, Level1)).
Qed.

Lemma replace_ok s cat force csel cun :
  sm_inv s cat -> cs_selected (select_level0_compaction_locked s force) <> [] ->
  cs_selected (select_level0_compaction_locked s force) = map managed csel ->
  cs_unselected (select_level0_compaction_locked s force) = map managed cun ->
  forall output, exists obsolete,
    replace_tables (cs_selected (select_level0_compaction_locked s force)) output (map managed cat) =
    Ok (map managed cun ++ option_list output, obsolete).
Proof.
  intros Hinv Hne E1 E2 output. assert (Hnd : NoDup (map mg_path (sm_readers s))).
  { rewrite (sv_readers _ _ Hinv), map_mg_path. apply (sv_cat _ _ Hinv). }
  destruct (select_spec s force Hnd Hne) as (Hp & _ & _ & _ & Hu). rewrite (sv_readers _ _ Hinv) in Hp, Hu.
  unfold replace_tables, mbind, result_bind, throw_if.
  rewrite bool_decide_eq_true_2; [cbn [negb]; rewrite <- Hu, E2; by eexists|].
  intros p (t & Ht & <-)%elem_of_paths_inv. apply elem_of_paths. rewrite <- Hp. apply elem_of_app. by left.
Qed.

(** Merging the selected tables and dropping what hides nothing. *)
Lemma merge_selected s cat csel cun :
  sm_inv s cat -> csel ++ cun ≡ₚ cat ->
  exists st1 kept n st2,
    merge_tables (map managed csel) [] (sm_rs s) = (Ok (merge_all (cat_entries csel)), st1) /\
    drop_tombstones (map managed cun) (merge_all (cat_entries csel)) [] 0 st1 = (Ok (kept, n), st2) /\
    good_cat (map fst cat) st1 /\ good_cat (map fst cat) st2 /\
    om_wf kept /\ Forall wf_entry kept /\ zlen kept <= total_entries (cat_entries csel) /\
    forall kv, kv ∈ kept <-> kv ∈ merge_all (cat_entries csel) /\ keeps_entry (cat_entries cun) kv.
Proof.
  intros Hinv Hsplit. pose proof (cat_view (map fst cat) (sv_cat _ _ Hinv)) as TV.
  destruct (split_ok s cat csel cun Hinv Hsplit) as [Hoks Hoku].
  assert (Hsub : forall (l : Catalog), (forall c, c ∈ l -> c ∈ csel ++ cun) -> forall c, c ∈ l -> c.1 ∈ map fst cat).
  { intros l Hl c Hc. apply list_elem_of_In, in_map, list_elem_of_In. rewrite <- Hsplit. auto. }
  destruct (merge_tables_ok (TV := TV) (map managed csel) (cat_entries csel) [] (sm_rs s)) as (st1 & Em & Hg1).
  { apply cat_hold, Hsub. intros c Hc. apply elem_of_app. by left. }
  { apply Hinv. }
  destruct (drop_tombstones_ok (TV := TV) (map managed cun) (cat_entries cun) (merge_all (cat_entries csel)) [] 0 st1)
    as (kept & n & st2 & Ed & Hg2 & Hsubl & Hkept); [|done| |].
  { apply cat_hold, Hsub. intros c Hc. apply elem_of_app. by right. }
  { apply Forall_forall. intros [k e] Hin. apply om_In_find in Hin; [|apply merge_all_wf].
    rewrite merge_all_find in Hin by by apply cat_sorted. apply newest_elem in Hin as (es & Hes & Hf).
    apply list_elem_of_In, in_map_iff in Hes as (c & <- & Hc%list_elem_of_In). apply om_find_In in Hf.
    destruct (op_ok_entries _ (cat_ok_elem _ _ Hoks Hc)) as (_ & He & _). rewrite Forall_forall in He. apply (He (k, e) Hf). }
  assert (Hkw : om_wf kept) by (eapply om_wf_sublist; [exact Hsubl|apply merge_all_wf]).
  exists st1, kept, n, st2. split_and!; try done; [by apply (kept_entries s cat csel cun)|].
  pose proof (merge_all_length (cat_entries csel)) as Hml. apply sublist_length in Hsubl.
  unfold zlen in *. lia.
Qed.

(** The room of the old list is enough for the new one. *)
Lemma compacted_room s s' cat csel cun (output : option (OpenTable * SSTableLevel)) :
  room s cat -> csel ++ cun ≡ₚ cat -> csel <> [] -> sm_manifest s' = sm_manifest s ->
  (forall c, output = Some c -> h_generation (op_header c.1) = max_of md_generation (map managed csel)) ->
  room s' (cun ++ option_list output).
Proof.
  intros (R1 & R2 & R3) Hsplit Hne Hm Hgen. split; [rewrite Hm; exact R1|]. split.
  - assert (Hz : zlen (csel ++ cun) = zlen cat) by (unfold zlen; by rewrite Hsplit).
    rewrite zlen_app in Hz |- *. destruct csel as [|c0 csel]; [done|]. rewrite zlen_cons in Hz.
    pose proof (zlen_nonneg csel). destruct output; simpl; rewrite ?zlen_cons, zlen_nil; lia.
  - intros c [Hc|Hc]%elem_of_app; [apply R3; rewrite <- Hsplit; apply elem_of_app; by right|].
    destruct output as [c0|]; [|by apply not_elem_of_nil in Hc]. apply list_elem_of_singleton in Hc. subst c.
    rewrite (Hgen c0 eq_refl). apply max_of_bound; [done|].
    intros t Ht. apply list_elem_of_In, in_map_iff in Ht as (c & <- & Hc%list_elem_of_In). apply R3.
    rewrite <- Hsplit. apply elem_of_app. by left.
Qed.

(** What [compact_level0] does, however it ends. *)
Lemma compact_spec s cat force r s' :
  sm_inv s cat -> total_entries (cat_entries cat) <= u32_max -> compact_level0 force s = (r, s') ->
  exists cat', compacted s cat s' cat' /\
    (force = true -> is_Ok r = true -> cs_selected (select_level0_compaction_locked s true) <> [] ->
     forall c, c ∈ cat' -> c.2 = Level1) /\
    (is_Ok r = true -> cs_selected (select_level0_compaction_locked s force) <> [] ->
     level0_count cat' < level0_count cat) /\
    (fs_script (sm_fs s) = [] -> sm_next_file_id s < u64_max -> room s cat -> is_Ok r = true /\ fs_script (sm_fs s') = []).
Proof.
  intros Hinv Htot H. unfold compact_level0 in H. unfold mbind at 1, stm_bind at 1, sget at 1 in H. cbv zeta in H.
  set (sel := select_level0_compaction_locked s force) in *.
  destruct (is_nil (cs_selected sel)) eqn:En.
  { unfold mret, stm_ret in H. simplify_eq. apply is_nil_true in En. exists cat. split_and!; [by apply compacted_same| | |done].
    - intros -> _ Hne. by fold sel in Hne.
    - by intros _ Hne. }
  apply is_nil_false in En. destruct (select_cat s cat force Hinv En) as (csel & cun & Hsplit & E1 & E2 & Hh & Hu & Hforce).
  fold sel in E1, E2, Hh, Hu. destruct (split_ok s cat csel cun Hinv Hsplit) as [Hoks Hoku].
  destruct (merge_selected s cat csel cun Hinv Hsplit) as (st1 & kept & n & st2 & Em & Ed & Hg1 & Hg2 & Hkw & Hke & Hkl & Hkept).
  unfold mbind at 1, stm_bind at 1, on_rs at 1 in H. rewrite E1, Em in H.
  unfold mbind at 1, stm_bind at 1, on_rs at 1 in H. rewrite E2 in H. cbn [sm_rs set_rs] in H. rewrite Ed in H.
  pose proof (sm_inv_rs _ _ Hinv st2 Hg2) as Hinv2. change (set_rs st2 (set_rs st1 s)) with (set_rs st2 s) in H.
  set (s2 := set_rs st2 s) in *. assert (Hkl' : zlen kept <= u32_max).
  { pose proof (total_entries_perm _ _ (split_entries cat csel cun Hsplit)) as Hte. rewrite total_entries_app in Hte.
    pose proof (total_entries_nonneg (cat_entries cun)). lia. }
  pose proof (max_generation_u64 csel Hoks) as Hgen.
  unfold mbind at 1, stm_bind at 1 in H. destruct (write_output kept _ s2) as [r3 s3] eqn:E3.
  destruct (write_output_spec _ _ _ _ _ _ Hinv2 Hkw Hke Hkl' Hgen E3) as (Hinv3 & Ho3 & Hm3 & Hid3 & Hout & Hq3).
  assert (Ho3' : sm_options s3 = sm_options s) by done.
  destruct r3 as [[out id]|e3].
  2:{ simplify_eq. exists cat. split_and!; [by apply compacted_same|done|done|]. intros Hs Hn _. by destruct (Hq3 Hs Hn). }
  destruct (Hout _ _ eq_refl) as (output & -> & Houtput).
  unfold mbind at 1, stm_bind at 1, sget at 1 in H. unfold mbind at 1, stm_bind at 1, slift at 1 in H.
  rewrite (sv_readers _ _ Hinv3), <- E1 in H.
  destruct (replace_ok s cat force csel cun Hinv En E1 E2 (managed <$> output)) as (obsolete & Er).
  fold sel in Er. rewrite Er in H.
  assert (Hpub : publishable s3 (cun ++ option_list output) (sm_live_key_count s3)).
  { destruct output as [[o l]|]; simpl in Houtput.
    - destruct Houtput as [-> Mo]. eapply (compacted_publishable_some s cat csel cun kept); try done.
      rewrite (md_gen _ _ _ _ _ _ Mo). destruct Mo. by split.
    - destruct Houtput as [Hk0 ->]. rewrite app_nil_r. by eapply (compacted_publishable_none s2 cat csel cun kept). }
  assert (Hoe : match output with Some c => op_entries c.1 = kept | None => kept = [] end)
    by (destruct output; destruct Houtput as [? Mo]; [apply Mo|done]).
  assert (Hcs : csel <> []) by (intros ->; by rewrite E1 in En).
  assert (Hsh : forall cat', cat' ≡ₚ cun ++ option_list output ->
    shrunk cat cat' /\ level0_count cat' = level0_count cat - level0_count csel).
  { intros cat' Hp. apply (replaced_shrunk cat csel cun output kept); [done..| |done].
    destruct output as [c|]; [|done]. destruct Houtput as [? Mo]. split_and!; [done|apply Mo..]. }
  destruct (finish_spec s s3 cat csel cun kept output Hinv Hinv3 Ho3' Hsplit Hkw Hkept Hoe Hpub
    (fun cat0 H0 => proj1 (Hsh cat0 H0)) _ obsolete _ r s' H) as (cat' & Hcomp & Hok' & Hq'); [by eexists|].
  exists cat'. split_and!; [done| | |].
  - intros Hf Hr Hne' c Hc. rewrite (Hok' Hr) in Hc. apply elem_of_app in Hc as [Hc|Hc]; [by apply Hforce|].
    destruct output as [c0|]; [|by apply not_elem_of_nil in Hc]. apply list_elem_of_singleton in Hc. subst c. apply Houtput.
  - intros Hr _. destruct (Hsh cat' (Hok' Hr)) as [_ ->].
    enough (0 < level0_count csel) by lia. destruct (select_level0 s force) as (t & Ht & Hl).
    { pose proof (ok_limits _ (sv_options _ _ Hinv)). lia. }
    { by fold sel. }
    fold sel in Ht. rewrite E1 in Ht. apply list_elem_of_In, in_map_iff in Ht as (c & <- & Hc%list_elem_of_In).
    unfold level0_count. assert (Hf : c ∈ filter (fun c => c.2 = Level0) csel) by by apply list_elem_of_filter.
    destruct (filter _ csel) as [|c1 l1]; [by apply not_elem_of_nil in Hf|]. rewrite zlen_cons. pose proof (zlen_nonneg l1). lia.
  - intros Hs Hn Hr. destruct (Hq3 Hs Hn) as [_ Hs3]. apply Hq'; [done|].
    apply (compacted_room s s3 cat csel); [done..| |done|]; [intros ->; by rewrite E1 in En|].
    intros c ->. destruct Houtput as [_ Mo]. by apply Mo.
Qed.

(** ** Claims *)

(** What a lookup answers. *)
Definition lookup (s : SSTableManager) (key : str) : result (option Entry) := (sm_get key s).1.

(** A flush adds exactly the frozen table's entries.  For a manager that
    satisfies its invariant and a frozen, non-empty memory table whose entries
    are newer than what the tables hold for their keys, and whatever the
    system calls that write return: if [flush] returns, every key of the
    memory table is found as its entry there and every other key as before; if
    it throws, every key is found as before; in both cases the invariant holds
    again (the count of live keys is exact, level 1 stays disjoint, the cache
    holds only blocks of open tables).  When no call fails and no counter is
    exhausted, it returns. *)
Theorem flush_adds_entries s cat t r s' key :
  sm_inv s cat -> mt_inv t -> immutable_ t = true -> entries_ t <> [] -> zlen (entries_ t) <= u32_max ->
  is_u64 (generation_ t) ->
  (forall es k e e', es ∈ cat_entries cat -> om_find k es = Some e -> om_find k (entries_ t) = Some e' ->
     e_seq e < e_seq e') ->
  sm_live_key_count s + zlen (entries_ t) <= u64_max -> valid_key key ->
  flush t s = (r, s') ->
  (exists cat', sm_inv s' cat') /\
  lookup s' key = (if is_Ok r then match om_find key (entries_ t) with
                                   | Some e => Ok (Some e)
                                   | None => lookup s key
                                   end
                   else lookup s key) /\
  (fs_script (sm_fs s) = [] -> sm_next_file_id s < u64_max -> room s cat -> generation_ t < u64_max ->
   zlen cat < kMaximumManifestTables -> is_Ok r = true).
Proof.
  intros Hinv Ht Him Hne Hlen Hgen Hnew Hlive Hk H.
  destruct (flush_spec _ _ _ _ _ Hinv Ht Him Hne Hlen Hgen Hnew Hlive H) as (cat' & Hinv' & Hok & _ & Hthrow & Hq).
  destruct (sm_get_spec s cat key Hinv Hk) as (s1 & E1 & _). destruct (sm_get_spec s' cat' key Hinv' Hk) as (s2 & E2 & _).
  split; [by exists cat'|]. split; [|intros; by apply Hq]. unfold lookup. rewrite E1, E2. cbn [fst].
  destruct r as [m|e]; cbn [is_Ok].
  - rewrite (Hok m eq_refl key). by destruct (om_find key (entries_ t)).
  - by rewrite (Hthrow e eq_refl).
Qed.


(** ** Witnesses *)

(** A manager on an empty directory, and two memory tables. *)
Definition demo_options : SSTableManagerOptions :=
  mkManagerOptions (bytes_of "db") 64 4096 true
    (fun n => if (0 <? n) && (n <=? u32_max) then Some (10 * n) else None) (fun _ _ => 7) 2 4.
Definition demo_manager : SSTableManager := (new_manager demo_options (empty_fs []) []).2.
Definition demo_table1 : MemTable :=
  mkMemTable 0 [(bytes_of "a", mkEntry (bytes_of "1") 1 false); (bytes_of "b", mkEntry (bytes_of "2") 2 false)]
    (entries_size [(bytes_of "a", mkEntry (bytes_of "1") 1 false); (bytes_of "b", mkEntry (bytes_of "2") 2 false)]) true.
Definition demo_table2 : MemTable :=
  mkMemTable 1 [(bytes_of "a", mkEntry [] 3 true); (bytes_of "c", mkEntry (bytes_of "3") 4 false)]
    (entries_size [(bytes_of "a", mkEntry [] 3 true); (bytes_of "c", mkEntry (bytes_of "3") 4 false)]) true.

Lemma demo_options_ok : options_ok demo_options.
Proof.
  split; simpl; try done.
  - split; [|intros; simpl; lia]. intros n bits H. simpl in H. destruct ((0 <? n) && (n <=? u32_max)) eqn:E; [|done].
    zbool. injection H as <-. unfold u32_max, u64_max in *. lia.
  - intros n Hn. destruct ((0 <? n) && (n <=? u32_max)) eqn:E; [done|]. apply andb_false_iff in E as [E|E]; zbool; lia.
Qed.

Lemma demo_manager_inv : sm_inv demo_manager [].
Proof.
  split.
  - assert (sm_options demo_manager = demo_options) as -> by (vm_cast_no_check (eq_refl demo_options)). apply demo_options_ok.
  - vm_compute. reflexivity.
  - vm_compute. reflexivity.
  - split; constructor.
  - assert (sm_rs demo_manager = mkRState [] (Some (empty_cache 4096)) 0 0) as -> by (vm_compute; reflexivity).
    split; [done|]. split; [apply empty_cache_inv; unfold u64_max; lia|]. intros kb Hkb. by apply not_elem_of_nil in Hkb.
  - intros a b c d k Ha. by apply not_elem_of_nil in Ha.
  - intros i j t u _ Hi. by destruct i.
  - vm_compute. reflexivity.
  - constructor.
  - vm_compute. done.
Qed.

Lemma demo_table1_inv : mt_inv demo_table1.
Proof.
  split; [repeat constructor| |reflexivity]. repeat constructor; vm_compute; done.
Qed.

Lemma demo_table2_inv : mt_inv demo_table2.
Proof.
  split; [repeat constructor| |reflexivity]. repeat constructor; vm_compute; done.
Qed.

Definition demo_flushed : SSTableManager := (flush demo_table1 demo_manager).2.

(** The manager of the demo after its flushes. *)
Lemma demo_flush s cat t :
  sm_inv s cat -> mt_inv t -> immutable_ t = true -> entries_ t <> [] -> zlen (entries_ t) <= u32_max ->
  is_u64 (generation_ t) ->
  (forall es k e e', es ∈ cat_entries cat -> om_find k es = Some e -> om_find k (entries_ t) = Some e' ->
     e_seq e < e_seq e') ->
  sm_live_key_count s + zlen (entries_ t) <= u64_max -> is_Ok (flush t s).1 = true ->
  exists cat', sm_inv (flush t s).2 cat' /\ cat_entries cat' ≡ₚ cat_entries cat ++ [entries_ t].
Proof.
  intros H1 H2 H3 H4 H5 H6 H7 H8 Hok. destruct (flush t s) as [r s'] eqn:E. simpl in Hok. destruct r as [m|]; [|done].
  destruct (flush_spec s cat t _ s' H1 H2 H3 H4 H5 H6 H7 H8 E) as (cat' & Hi & _ & Hp & _).
  exists cat'. split; [done|]. destruct (Hp m eq_refl) as (o & Ho & He & _). unfold cat_entries. rewrite Ho, map_app. by rewrite <- He.
Qed.

Lemma demo_flushed_inv : exists cat, sm_inv demo_flushed cat /\ cat_entries cat ≡ₚ [entries_ demo_table1].
Proof.
  apply (demo_flush demo_manager [] demo_table1); [apply demo_manager_inv|apply demo_table1_inv|done..| | |].
  - intros es k e e' H. by apply not_elem_of_nil in H.
  - vm_compute. congruence.
  - vm_compute. reflexivity.
Qed.

(** The entries of the second table are newer. *)
Lemma demo_newer ess es k e e' :
  ess ≡ₚ [entries_ demo_table1] -> es ∈ ess -> om_find k es = Some e -> om_find k (entries_ demo_table2) = Some e' ->
  e_seq e < e_seq e'.
Proof.
  intros Hp Hes He He'. rewrite Hp in Hes. apply list_elem_of_singleton in Hes as ->.
  assert (H1 : Forall (fun kv : str * Entry => e_seq kv.2 < 3) (entries_ demo_table1)) by (repeat constructor).
  assert (H2 : Forall (fun kv : str * Entry => 3 <= e_seq kv.2) (entries_ demo_table2)) by (repeat constructor; simpl; lia).
  rewrite Forall_forall in H1, H2. apply om_find_In in He, He'. specialize (H1 _ He). specialize (H2 _ He'). simpl in *. lia.
Qed.

Lemma demo_table2_shape :
  immutable_ demo_table2 = true /\ entries_ demo_table2 <> [] /\ zlen (entries_ demo_table2) <= u32_max /\
  is_u64 (generation_ demo_table2).
Proof. by vm_compute. Qed.

(** The second flush, of an overwrite, a deletion and a new key. *)
Lemma flush_adds_entries_witness :
  let s' := (flush demo_table2 demo_flushed).2 in
  lookup s' (bytes_of "a") = Ok (Some (mkEntry [] 3 true)) /\ lookup s' (bytes_of "b") = lookup demo_flushed (bytes_of "b").
Proof.
  assert (Ka : valid_key (bytes_of "a")) by by vm_compute. assert (Kb : valid_key (bytes_of "b")) by by vm_compute.
  destruct demo_flushed_inv as (cat & Hinv & Hp). destruct (flush demo_table2 demo_flushed) as [r s'] eqn:E.
  assert (Hok : is_Ok r = true) by (change r with (r, s').1; rewrite <- E; vm_compute; reflexivity).
  assert (Hlive : sm_live_key_count demo_flushed + zlen (entries_ demo_table2) <= u64_max) by (vm_compute; congruence).
  destruct demo_table2_shape as (T1 & T2 & T3 & T4).
  pose proof (fun k Hk => flush_adds_entries demo_flushed cat demo_table2 r s' k Hinv demo_table2_inv T1 T2 T3 T4
    (fun es k e e' => demo_newer _ es k e e' Hp) Hlive Hk E) as H.
  assert (Fa : om_find (bytes_of "a") (entries_ demo_table2) = Some (mkEntry [] 3 true)) by (vm_compute; reflexivity).
  assert (Fb : om_find (bytes_of "b") (entries_ demo_table2) = None) by (vm_compute; reflexivity).
  destruct (H _ Ka) as (_ & Ha & _). destruct (H _ Kb) as (_ & Hb & _).
  rewrite Hok, Fa in Ha. rewrite Hok, Fb in Hb. cbn [snd]. exact (conj Ha Hb).
Defined.

Definition demo_flushed2 : SSTableManager := (flush demo_table2 demo_flushed).2.

