(* ===== verification/ManagerCost.v ===== *)
(** * What a call of the table manager costs

    How far [flush] and [compact_level0] of src/sstable_manager.cpp move the
    counters that can run out: the next file identifier and the generation of
    the manifest. *)

From S2P Require Import Prelude Posix FileSystem Store MemTable BloomFilter BlockCache.
From S2P Require Import SstFormat SstWriter SstReader Manifest SstManager.

Definition manifest_generation (s : SSTableManager) : Z := current_generation_ (sm_manifest s).

Record spent (a b : Z) (s s' : SSTableManager) : Prop := {
  sp_options : sm_options s' = sm_options s;
  sp_file_id : sm_next_file_id s <= sm_next_file_id s' <= sm_next_file_id s + a;
  sp_generation : manifest_generation s <= manifest_generation s' <= manifest_generation s + b
}.

Definition counters_ok (s : SSTableManager) : Prop :=
  0 <= sm_next_file_id s <= u64_max /\ 0 <= manifest_generation s <= u64_max.

Definition spends {A} (a b : Z) (c : stm SSTableManager A) : Prop :=
  forall s r s', counters_ok s -> c s = (r, s') -> spent a b s s' /\ counters_ok s'.

Lemma spends_bind {A B} a b a' b' (c : stm SSTableManager A) (k : A -> stm SSTableManager B) :
  spends a b c -> (forall x, spends a' b' (k x)) -> 0 <= a' -> 0 <= b' -> spends (a + a') (b + b') (c ≫= k).
Proof.
  intros Hc Hk Ha Hb s r s' Hs H. unfold mbind, stm_bind in H. destruct (c s) as [[x|e] s1] eqn:E.
  - destruct (Hc _ _ _ Hs E) as [[P1 P2 P3] Hs1]. destruct (Hk _ _ _ _ Hs1 H) as [[Q1 Q2 Q3] Hs2].
    split; [|done]. split; [congruence|lia..].
  - simplify_eq. destruct (Hc _ _ _ Hs E) as [[P1 P2 P3] Hs1]. split; [|done]. split; [done|lia..].
Qed.

Lemma spends_more {A} a b a' b' (c : stm SSTableManager A) : spends a b c -> a <= a' -> b <= b' -> spends a' b' c.
Proof. intros Hc Ha Hb s r s' Hs H. destruct (Hc _ _ _ Hs H) as [[P1 P2 P3] Hs']. split; [|done]. split; [done|lia..]. Qed.

(** A step that moves neither. *)
Lemma spends_0 {A} (c : stm SSTableManager A) :
  (forall s, sm_options (c s).2 = sm_options s /\ sm_next_file_id (c s).2 = sm_next_file_id s /\
             manifest_generation (c s).2 = manifest_generation s) -> spends 0 0 c.
Proof.
  intros H s r s' Hs E. destruct (H s) as (H1 & H2 & H3). rewrite E in *. simpl in *. unfold counters_ok in *.
  split; [|lia]. split; [done|lia..].
Qed.

Lemma spends_fs {A} (c : stm Fs A) : spends 0 0 (on_fs c).
Proof. apply spends_0. intros s. unfold on_fs. by destruct (c (sm_fs s)). Qed.
Lemma spends_rs {A} (c : stm RState A) : spends 0 0 (on_rs c).
Proof. apply spends_0. intros s. unfold on_rs. by destruct (c (sm_rs s)). Qed.
Lemma spends_lift {A} (x : result A) : spends 0 0 (slift x).
Proof. by apply spends_0. Qed.
Lemma spends_ret {A} (x : A) : spends 0 0 (mret x).
Proof. by apply spends_0. Qed.
Lemma spends_throw {A} e : spends 0 0 (@sthrow _ A e).
Proof. by apply spends_0. Qed.
Lemma spends_get : spends 0 0 sget.
Proof. by apply spends_0. Qed.

Create HintDb spends.
#[export] Hint Resolve spends_fs spends_rs spends_lift spends_ret spends_throw spends_get : spends.

(** A step after one that moves neither. *)
Lemma spends_then {A B} a b (c : stm SSTableManager A) (k : A -> stm SSTableManager B) :
  spends 0 0 c -> (forall x, spends a b (k x)) -> 0 <= a -> 0 <= b -> spends a b (c ≫= k).
Proof. intros. by apply (spends_bind 0 0). Qed.

Lemma spends_last {A B} a b (c : stm SSTableManager A) (k : A -> stm SSTableManager B) :
  spends a b c -> (forall x, spends 0 0 (k x)) -> spends a b (c ≫= k).
Proof. intros H1 H2. replace a with (a + 0) by lia. replace b with (b + 0) by lia. by apply spends_bind. Qed.

(** Steps through a computation that moves neither at its head. *)
Ltac spend :=
  repeat match goal with
  | |- spends _ _ (let '(_, _) := ?x in _) => destruct x
  | |- spends _ _ (if ?b then _ else _) => destruct b
  | |- spends 0 0 (_ ≫= _) => apply spends_then; [|intros ?|lia|lia]
  | |- spends 0 0 (smodify _) => apply spends_0; intros ?; done
  | |- spends 0 0 _ => eauto with spends
  end.

Lemma spends_reserve : spends 1 0 reserve_file_id.
Proof.
  intros s r s' [H1 H2] H. unfold reserve_file_id, mbind, stm_bind, sget, slift, throw_if, smodify, mret, stm_ret in H.
  destruct (sm_next_file_id s =? u64_max) eqn:E; zbool; simplify_eq; unfold counters_ok, manifest_generation in *.
  - split; [|done]. split; [done|lia..].
  - cbn [set_next_file_id sm_next_file_id sm_manifest]. rewrite u64_small by lia. split; [|lia].
    split; [done|cbn [set_next_file_id sm_next_file_id]; rewrite ?u64_small by lia; lia|unfold manifest_generation; simpl; lia].
Qed.

Lemma commit_generation_cost m tables n f sn m' f' :
  0 <= current_generation_ m <= u64_max -> commit m tables n f = (Ok (sn, m'), f') ->
  current_generation_ m' = current_generation_ m + 1 /\ current_generation_ m' <= u64_max.
Proof.
  intros Hg H. unfold commit, mbind, stm_bind, slift, mret, stm_ret, throw_if in H.
  destruct (current_generation_ m =? u64_max) eqn:E; [done|]. zbool. rewrite u64_small in H by lia.
  repeat (break_match; simplify_eq/=; try done). lia.
Qed.

Lemma spends_on_manifest tables : spends 0 1 (on_manifest tables).
Proof.
  intros s r s' [H1 H2] H. unfold on_manifest, mbind, stm_bind, sget, on_fs, smodify in H.
  destruct (commit _ _ _ (sm_fs s)) as [[[sn m']|e] f] eqn:E; simplify_eq; unfold counters_ok, manifest_generation in *.
  - apply commit_generation_cost in E as [E1 E2]; [|done]. simpl. split; [|lia]. split; [done|simpl; lia|].
    unfold manifest_generation. simpl. lia.
  - split; [|done]. split; [done|simpl; lia|unfold manifest_generation; simpl; lia].
Qed.

Lemma spends_publish tables live : spends 0 1 (publish_tables_locked tables live).
Proof.
  unfold publish_tables_locked. do 2 (apply spends_then; [eauto with spends|intros ?|lia|lia]).
  apply spends_last; [apply spends_on_manifest|intros ?]. spend.
Qed.

Lemma spends_write_table es level g : spends 1 0 (write_table es level g).
Proof. unfold write_table, open_table. apply spends_last; [apply spends_reserve|intros ?]. spend. Qed.

Lemma spends_flush t : spends 1 1 (SstManager.flush t).
Proof.
  unfold SstManager.flush. do 2 (apply spends_then; [eauto with spends|intros ?|lia|lia]).
  apply (spends_bind 1 0 0 1); [apply spends_write_table| |lia|lia]. intros [[id m] rd].
  apply spends_last; [|intros ?; spend]. cbn [flush_loop kFlushTurns]. unfold flush_attempt.
  apply spends_then; [eauto with spends|intros s|lia|lia].
  apply spends_last; [|intros ?; spend]. do 2 (apply spends_then; [eauto with spends|intros ?|lia|lia]).
  match goal with |- spends _ _ (if ?b then _ else _) => destruct b end.
  - by eapply spends_more; [apply spends_ret|lia|lia].
  - apply spends_last; [apply spends_publish|intros ?; spend].
Qed.

Lemma spends_compact force : spends 1 1 (compact_level0 force).
Proof.
  unfold compact_level0. apply spends_then; [eauto with spends|intros s|lia|lia]. cbv zeta.
  destruct (is_nil _); [by eapply spends_more; [apply spends_ret|lia|lia]|].
  do 2 (apply spends_then; [eauto with spends|intros ?|lia|lia]).
  match goal with |- spends _ _ (let '(_, _) := ?x in _) => destruct x as [compacted dropped] end.
  apply (spends_bind 1 0 0 1); [| |lia|lia].
  - unfold write_output. destruct (is_nil _); [by eapply spends_more; [apply spends_ret|lia|lia]|].
    apply spends_last; [apply spends_write_table|intros [[id m] rd]; spend].
  - intros [output id]. do 2 (apply spends_then; [eauto with spends|intros ?|lia|lia]).
    match goal with |- spends _ _ (let '(_, _) := ?x in _) => destruct x as [replacement obsolete] end.
    apply spends_last; [apply spends_publish|intros ?]. spend.
Qed.
