(* ===== verification/PersistentStore.v ===== *)
(** * The persistent store

    src/persistent_key_value_store.cpp: the write-ahead log, the set of memory
    tables and the table manager, composed.  A write goes to the log, then to
    the active memory table; frozen memory tables are flushed to tables, level
    0 is compacted when it is full, and the log is reset when no memory table
    holds anything.  Writers hold [write_mutex_] throughout, so a write is one
    step.  A reader changes nothing but the block cache. *)

From S2P Require Import Prelude OrderedMap Posix FileSystem Path Store MemTable MemTableSet.
From S2P Require Import WalFormat WalReader WalWriter Recovery BlockCache SstFormat SstWriter SstReader Manifest SstManager.

(** ** Definitions *)

(** The options; the ones of the Bloom filter and of the cache are in
    [po_sstables], whose directory [resolve_sstable_directory] fills in. *)
Record PersistentStoreOptions := mkStoreOptions {
  po_wal_path : str;
  po_sstable_directory : str;
  po_durability_mode : DurabilityMode;
  po_batch_flush_interval : Z;
  po_memtable_max_bytes : Z;
  po_sstables : SSTableManagerOptions;
  po_enable_automatic_compaction : bool;
  po_truncate_invalid_wal_tail : bool;
  po_emit_recovery_diagnostics : bool
}.

Definition with_directory (directory : str) (o : SSTableManagerOptions) : SSTableManagerOptions :=
  mkManagerOptions directory (so_target_data_block_bytes o) (so_block_cache_capacity_bytes o) (so_rate_ok o)
    (so_ceil_bits o) (so_rounded o) (so_level0_compaction_trigger o) (so_level0_compaction_max_tables o).

Definition resolve_sstable_directory (o : PersistentStoreOptions) : str :=
  if negb (is_nil (po_sstable_directory o)) then po_sstable_directory o
  else
    let parent := path_parent (po_wal_path o) in
    path_join (if is_nil parent then bytes_of "." else parent) (bytes_of "sstables").

(** *** Reading

    The tables a reader sees: the memory tables and the table manager. *)

Record StoreView := mkView { v_memtables : MemTableSet; v_sstables : SSTableManager }.

Definition on_tables {A} (c : stm SSTableManager A) : stm StoreView A :=
  fun v => match c (v_sstables v) with (r, sm) => (r, mkView (v_memtables v) sm) end.

Definition latest_entry (key : str) : stm StoreView (option Entry) :=
  v ← sget;
  memory_entry ← slift (ms_latest_entry key (v_memtables v));
  match memory_entry with
  | Some e => mret (Some e)
  | None => on_tables (sm_get key)
  end.

Definition entry_value (e : option Entry) : option str :=
  match e with None => None | Some e => if e_deleted e then None else Some (e_value e) end.

(** *** Recovery

    [RecoveryDestination]: where the log is replayed to.  The memory tables,
    the table manager and the count of live keys are those of the store. *)

Record RecoveryDestination := mkDestination { rd_view : StoreView; rd_live : Z }.

Definition on_view {A} (c : stm StoreView A) : stm RecoveryDestination A :=
  fun d => match c (rd_view d) with (r, v) => (r, mkDestination v (rd_live d)) end.
Definition on_view_memtables {A} (c : stm MemTableSet A) : stm RecoveryDestination A :=
  fun d => match c (v_memtables (rd_view d)) with
           | (r, m) => (r, mkDestination (mkView m (v_sstables (rd_view d))) (rd_live d))
           end.

Definition rd_exists (key : str) : stm RecoveryDestination bool :=
  entry ← on_view (latest_entry key);
  mret (entry_live entry).

Definition rd_get (key : str) : stm RecoveryDestination (option str) :=
  entry ← on_view (latest_entry key);
  mret (entry_value entry).

Definition rd_put (key value : str) : stm RecoveryDestination unit :=
  was_live ← rd_exists key;
  _ ← on_view_memtables (ms_put key value);
  smodify (fun d => if (was_live : bool) then d else mkDestination (rd_view d) (u64 (rd_live d + 1))).

Definition rd_remove (key : str) : stm RecoveryDestination bool :=
  live ← rd_exists key;
  if negb live then mret false
  else
    _ ← on_view_memtables (ms_add_tombstone key);
    _ ← smodify (fun d => mkDestination (rd_view d) (u64 (rd_live d - 1)));
    mret true.

#[export] Instance RecoveryDestination_store : KeyValueStore RecoveryDestination := {|
  kv_put := rd_put;
  kv_get := rd_get;
  kv_remove := rd_remove;
  kv_exists := rd_exists
|}.

(** *** The store *)

Record PersistentKeyValueStore := mkStore {
  ps_view : StoreView;
  ps_live_key_count : Z;
  ps_recovery_report : RecoveryReport;
  ps_wal : WalWriter;
  ps_automatic_compaction : bool
}.

Definition set_view (v : StoreView) (s : PersistentKeyValueStore) : PersistentKeyValueStore :=
  mkStore v (ps_live_key_count s) (ps_recovery_report s) (ps_wal s) (ps_automatic_compaction s).
Definition set_live_count (n : Z) (s : PersistentKeyValueStore) : PersistentKeyValueStore :=
  mkStore (ps_view s) n (ps_recovery_report s) (ps_wal s) (ps_automatic_compaction s).
Definition set_wal (w : WalWriter) (s : PersistentKeyValueStore) : PersistentKeyValueStore :=
  mkStore (ps_view s) (ps_live_key_count s) (ps_recovery_report s) w (ps_automatic_compaction s).

Definition memtables_ (s : PersistentKeyValueStore) : MemTableSet := v_memtables (ps_view s).
Definition sstables_ (s : PersistentKeyValueStore) : SSTableManager := v_sstables (ps_view s).

Definition on_wal {A} (c : stm WalWriter A) : stm PersistentKeyValueStore A :=
  fun s => match c (ps_wal s) with (r, w) => (r, set_wal w s) end.
Definition on_reader {A} (c : stm StoreView A) : stm PersistentKeyValueStore A :=
  fun s => match c (ps_view s) with (r, v) => (r, set_view v s) end.
Definition on_memtables {A} (c : stm MemTableSet A) : stm PersistentKeyValueStore A :=
  fun s => match c (memtables_ s) with (r, m) => (r, set_view (mkView m (sstables_ s)) s) end.
Definition on_sstables {A} (c : stm SSTableManager A) : stm PersistentKeyValueStore A :=
  fun s => match c (sstables_ s) with (r, m) => (r, set_view (mkView (memtables_ s) m) s) end.

(** What is on disk: the directory of the tables and the log. *)
Record Disk := mkDisk { d_fs : Fs; d_wal : option WalOnDisk }.

Definition existing_log (wal : option WalOnDisk) : str :=
  match wal with Some w => wd_bytes w | None => [] end.

(** The last step of the constructor: the log is opened for append. *)
Definition open_log (o : PersistentStoreOptions) (report : RecoveryReport) (d : RecoveryDestination) (disk : Disk)
    (writes : list io_event) : result PersistentKeyValueStore :=
  w ← wal_open (is_nil (po_wal_path o)) (po_batch_flush_interval o) (po_durability_mode o)
        (existing_log (d_wal disk)) writes;
  mret (mkStore (rd_view d) (rd_live d) report w (po_enable_automatic_compaction o)).

(** The constructor on a disk; [reads] are the outcomes of the reads of
    tables, [writes] those of the calls on the log once it is open for
    append.  It answers the store, what it leaves on disk when it throws, and
    the diagnostics. *)
Definition new_store (o : PersistentStoreOptions) (disk : Disk) (reads writes : list io_event)
    : result PersistentKeyValueStore * Disk * list diagnostic_line :=
  match new_manager (with_directory (resolve_sstable_directory o) (po_sstables o)) (d_fs disk) reads with
  | (Throw e, sm) => (Throw e, mkDisk (sm_fs sm) (d_wal disk), [])
  | (Ok _, sm) =>
      let disk' := mkDisk (sm_fs sm) (d_wal disk) in
      if is_nil (po_wal_path o) then (Throw (InvalidArgument "WAL path must not be empty"), disk', [])
      else
        match ms_new (mkMemTableOptions (po_memtable_max_bytes o) (sm_max_sequence_number sm) (sm_next_generation sm)) with
        | Throw e => (Throw e, disk', [])
        | Ok memtables =>
            let options := mkRecoveryOptions (po_truncate_invalid_wal_tail o) (po_emit_recovery_diagnostics o) in
            match recover (d_wal disk) (mkDestination (mkView memtables sm) (sm_live_key_count sm)) options with
            | (Throw e, d, wal, lines) => (Throw e, mkDisk (sm_fs (v_sstables (rd_view d))) wal, lines)
            | (Ok report, d, wal, lines) =>
                let disk'' := mkDisk (sm_fs (v_sstables (rd_view d))) wal in
                match rr_issue report with
                | Some i =>
                    if bool_decide (i_code i = IoError) then
                      (Throw (RuntimeError "failed to read the write-ahead log during recovery"), disk'', lines)
                    else if negb (invalid_tail_truncated report) then
                      (Throw (RuntimeError
                         "write-ahead log contains an invalid tail and automatic repair is disabled"), disk'', lines)
                    else (open_log o report d disk'' writes, disk'', lines)
                | None => (open_log o report d disk'' writes, disk'', lines)
                end
            end
        end
  end.

(** *** Lookups *)

Definition latest_entry_of_store (key : str) : stm PersistentKeyValueStore (option Entry) := on_reader (latest_entry key).

Definition exists_without_validation (key : str) : stm PersistentKeyValueStore bool :=
  entry ← latest_entry_of_store key;
  mret (entry_live entry).

Definition ps_get (key : str) : stm PersistentKeyValueStore (option str) :=
  _ ← slift (validate_key key);
  entry ← latest_entry_of_store key;
  mret (entry_value entry).

Definition ps_exists (key : str) : stm PersistentKeyValueStore bool :=
  _ ← slift (validate_key key);
  exists_without_validation key.

Definition ps_size (s : PersistentKeyValueStore) : Z := ps_live_key_count s.

(** *** Background work *)

Fixpoint flush_tables (tables : list MemTable) : stm PersistentKeyValueStore unit :=
  match tables with
  | [] => mret tt
  | table :: tables' =>
      _ ← on_sstables (SstManager.flush table);
      discarded ← on_memtables (discard_immutable (generation_ table));
      _ ← slift (throw_if (negb discarded) (LogicError "flushed MemTable was not registered as immutable"));
      flush_tables tables'
  end.

(** The tables are listed newest first and flushed oldest first. *)
Definition flush_immutable_memtables_locked : stm PersistentKeyValueStore unit :=
  s ← sget;
  flush_tables (reverse (immutable_tables (memtables_ s))).

Definition reset_wal_if_fully_persisted_locked : stm PersistentKeyValueStore unit :=
  s ← sget;
  if (active_entry_count (memtables_ s) =? 0) && (immutable_table_count (memtables_ s) =? 0) then on_wal WalWriter.reset
  else mret tt.

(** The loop of [compact_if_required_locked]: each turn takes tables out of
    level 0, so one turn per table of level 0 and a last test are enough. *)
Fixpoint compact_loop (turns : nat) : stm PersistentKeyValueStore unit :=
  match turns with
  | O => sthrow (LogicError "compaction does not end")
  | S turns' =>
      s ← sget;
      if negb (needs_compaction (sstables_ s)) then mret tt
      else
        result ← on_sstables compact_if_needed;
        if negb (cr_performed result) then mret tt else compact_loop turns'
  end.

Definition compact_if_required_locked : stm PersistentKeyValueStore unit :=
  s ← sget;
  if negb (ps_automatic_compaction s) then mret tt
  else compact_loop (S (Z.to_nat (level_table_count Level0 (sstables_ s)))).

(** *** Writes *)

Definition ps_put (key value : str) : stm PersistentKeyValueStore unit :=
  _ ← slift (validate_key key);
  _ ← slift (validate_value value);
  was_live ← exists_without_validation key;
  _ ← on_wal (append (mkWalRecord OpPut key value));
  _ ← on_memtables (ms_put key value);
  _ ← smodify (fun s => if (was_live : bool) then s else set_live_count (u64 (ps_live_key_count s + 1)) s);
  _ ← flush_immutable_memtables_locked;
  _ ← compact_if_required_locked;
  reset_wal_if_fully_persisted_locked.

Definition ps_remove (key : str) : stm PersistentKeyValueStore bool :=
  _ ← slift (validate_key key);
  live ← exists_without_validation key;
  if negb live then mret false
  else
    _ ← on_wal (append (mkWalRecord OpDelete key []));
    _ ← on_memtables (ms_add_tombstone key);
    _ ← smodify (fun s => set_live_count (u64 (ps_live_key_count s - 1)) s);
    _ ← flush_immutable_memtables_locked;
    _ ← compact_if_required_locked;
    _ ← reset_wal_if_fully_persisted_locked;
    mret true.

Definition ps_flush : stm PersistentKeyValueStore unit := on_wal WalWriter.flush.

Definition ps_checkpoint : stm PersistentKeyValueStore unit :=
  _ ← on_wal WalWriter.flush;
  _ ← on_memtables rotate_active;
  _ ← flush_immutable_memtables_locked;
  _ ← compact_if_required_locked;
  on_wal WalWriter.reset.

Definition ps_compact : stm PersistentKeyValueStore CompactionResult :=
  _ ← on_wal WalWriter.flush;
  _ ← on_memtables rotate_active;
  _ ← flush_immutable_memtables_locked;
  result ← on_sstables (compact_level0 true);
  _ ← reset_wal_if_fully_persisted_locked;
  mret result.

Definition ps_clear_block_cache : stm PersistentKeyValueStore unit := on_sstables (smodify clear_block_cache).
