(* ===== verification/StoreInv.v ===== *)
(** * The invariant of the persistent store

    What holds of [PersistentKeyValueStore] (src/persistent_key_value_store.cpp)
    between calls: the memory tables are newer than the tables on disk, the
    count of live keys is exact, and the log covers the memory tables, so that
    replaying it over the tables gives the contents.  Flushes and compactions
    may fail at any system call; the invariant is kept all the same. *)

From S2P Require Import Prelude OrderedMap Codec Posix FileSystem Path Store MemTable MemTableSet.
From S2P Require Import WalFormat WalReader WalWriter Recovery BloomFilter BlockCache SstFormat SstWriter SstReader Manifest SstManager.
From S2P Require Import TableView OpenTables Compaction ManagerInv ManagerCost PersistentStore.

(** ** What a store holds *)

(** The entries of a table, as reading all of it answers. *)
Definition table_entries (st : RState) (t : ManagedTable) : list (str * Entry) :=
  match (sst_read_all (mg_reader t) st).1 with Ok es => es | Throw _ => [] end.

Definition sm_entries (sm : SSTableManager) : list (list (str * Entry)) := map (table_entries (sm_rs sm)) (sm_readers sm).

(** The newest entry of each key on disk, and over memory and disk. *)
Definition disk_map (sm : SSTableManager) : gmap str Entry := list_to_map (merge_all (sm_entries sm)).
Definition disk_abs (sm : SSTableManager) : gmap str str := omap live_value (disk_map sm).
Definition view_map (v : StoreView) : gmap str Entry := ms_map (v_memtables v) ∪ disk_map (v_sstables v).
Definition view_abs (v : StoreView) : gmap str str := omap live_value (view_map v).

Record view_inv (v : StoreView) (cat : Catalog) : Prop := {
  vi_tables : sm_inv (v_sstables v) cat;
  vi_memory : ms_inv (v_memtables v);
  vi_newer : forall es k e kv, es ∈ cat_entries cat -> om_find k es = Some e -> kv ∈ ms_entries (v_memtables v) ->
    e_seq e < e_seq kv.2;
  vi_bound : forall es k e, es ∈ cat_entries cat -> om_find k es = Some e ->
    e_seq e <= last_sequence_number_ (v_memtables v);
  vi_generations : forall c, c ∈ cat -> h_generation (op_header c.1) < next_generation_ (v_memtables v);
  vi_counters : counters_ok (v_sstables v)
}.

(** Entries in memory and on disk. *)
Definition load (v : StoreView) : Z := total_entries (sm_entries (v_sstables v)) + zlen (ms_entries (v_memtables v)).

(** Writes that cannot fail for want of sequence numbers, generations or room
    in a table. *)
Definition capacity (v : StoreView) : Z :=
  Z.min (u64_max - last_sequence_number_ (v_memtables v))
    (Z.min (u64_max - next_generation_ (v_memtables v)) (u32_max - load v)).

(** What flushes and compactions still to come may use of a counter that
    stands at [n]: a frozen table may need a flush and a compaction, a table
    of level 0 a compaction. *)
Definition pending (n : Z) (v : StoreView) : Z :=
  n + level_table_count Level0 (v_sstables v) + 2 * zlen (immutable_tables_ (v_memtables v)).

(** Writes that cannot fail for want of anything. *)
Definition spare (v : StoreView) : Z :=
  Z.min (capacity v)
    (Z.min ((u64_max - pending (sm_next_file_id (v_sstables v)) v) / 2)
       (Z.min ((u64_max - pending (manifest_generation (v_sstables v)) v) / 2)
          (kMaximumManifestTables - (zlen (sm_readers (v_sstables v)) + zlen (immutable_tables_ (v_memtables v)))))).

(** ** The tables on disk *)

Lemma sm_entries_cat sm cat : sm_inv sm cat -> sm_entries sm = cat_entries cat.
Proof.
  intros Hinv. unfold sm_entries. rewrite (sv_readers _ _ Hinv). unfold cat_entries. rewrite map_map.
  pose proof (cat_view (map fst cat) (sv_cat _ _ Hinv)) as TV. apply map_ext_in. intros c Hc. unfold table_entries.
  destruct (tv_read_all (TableView := TV) (op_reader c.1) (op_entries c.1) (sm_rs sm)) as (st' & E & _); [|apply Hinv|].
  - exists c.1. split; [|done]. by apply list_elem_of_In, in_map.
  - change (mg_reader (managed c)) with (op_reader c.1). by rewrite E.
Qed.

Lemma disk_map_lookup sm cat key : sm_inv sm cat -> disk_map sm !! key = newest (cat_entries cat) key.
Proof.
  intros Hinv. unfold disk_map. rewrite (sm_entries_cat _ _ Hinv), om_find_list_to_map. apply merge_all_find.
  by apply cat_sorted, Hinv.
Qed.

Lemma visible_live o : visible o = o ≫= live_value.
Proof. by destruct o. Qed.

Lemma view_map_lookup v key :
  view_map v !! key = match find_in key (ms_tables (v_memtables v)) with
                      | Some e => Some e
                      | None => disk_map (v_sstables v) !! key
                      end.
Proof.
  unfold view_map. rewrite lookup_union, ms_map_lookup. destruct (find_in _ _) as [e|]; [|by destruct (_ !! key)].
  by destruct (disk_map _ !! key).
Qed.

Lemma view_abs_lookup v key : view_abs v !! key = view_map v !! key ≫= live_value.
Proof. unfold view_abs. apply lookup_omap. Qed.

Lemma level0_count_readers sm cat : sm_inv sm cat -> level_table_count Level0 sm = level0_count cat.
Proof.
  intros Hinv. unfold level_table_count, level0_count. rewrite (sv_readers _ _ Hinv). unfold zlen. f_equal.
  clear Hinv. induction cat as [|c cat IH]; [done|]. rewrite filter_cons. simpl. unfold is_level at 1. simpl.
  case_decide as E; [rewrite bool_decide_eq_true_2 by done|rewrite bool_decide_eq_false_2 by done]; simpl; lia.
Qed.

Lemma zlen_readers sm cat : sm_inv sm cat -> zlen (sm_readers sm) = zlen cat.
Proof. intros Hinv. rewrite (sv_readers _ _ Hinv). unfold zlen. by rewrite length_map. Qed.

(** ** Reading *)

(** What a reader may change of the manager. *)
Record read_only (sm sm' : SSTableManager) : Prop := {
  ro_fs : sm_fs sm' = sm_fs sm;
  ro_options : sm_options sm' = sm_options sm;
  ro_file_id : sm_next_file_id sm' = sm_next_file_id sm;
  ro_manifest : sm_manifest sm' = sm_manifest sm;
  ro_readers : sm_readers sm' = sm_readers sm;
  ro_entries : sm_entries sm' = sm_entries sm
}.

Lemma read_only_refl sm : read_only sm sm.
Proof. by split. Qed.

Lemma view_entry_ok key v cat :
  view_inv v cat -> valid_key key ->
  exists sm', PersistentStore.latest_entry key v = (Ok (view_map v !! key), mkView (v_memtables v) sm') /\
    view_inv (mkView (v_memtables v) sm') cat /\ read_only (v_sstables v) sm'.
Proof.
  intros Hv Hk. unfold PersistentStore.latest_entry, mbind, stm_bind, sget, slift.
  rewrite ms_latest_entry_ok by done. rewrite view_map_lookup. destruct (find_in key _) as [e|] eqn:E.
  { exists (v_sstables v). split_and!; [by destruct v|by destruct v|apply read_only_refl]. }
  destruct (sm_get_spec (v_sstables v) cat key (vi_tables _ _ Hv) Hk) as (sm' & Eg & Hinv & Hfs & Ho & Hid & Hm).
  exists sm'. unfold on_tables. rewrite Eg, (disk_map_lookup _ cat) by apply Hv. split; [done|].
  pose proof (vi_tables _ _ Hv) as Hinv0. split.
  - destruct Hv. split; try done. unfold counters_ok, manifest_generation in *. simpl. by rewrite Hid, Hm.
  - split; try done; [by rewrite (sv_readers _ _ Hinv), (sv_readers _ _ Hinv0)|].
    by rewrite (sm_entries_cat _ _ Hinv), (sm_entries_cat _ _ Hinv0).
Qed.

Lemma read_only_same m sm sm' :
  read_only sm sm' ->
  view_map (mkView m sm') = view_map (mkView m sm) /\ capacity (mkView m sm') = capacity (mkView m sm) /\
  spare (mkView m sm') = spare (mkView m sm).
Proof.
  intros [H1 H2 H3 H4 H5 H6]. unfold view_map, disk_map, capacity, spare, pending, load, capacity, load, level_table_count, manifest_generation.
  cbn [v_memtables v_sstables]. by rewrite H3, H4, H5, H6.
Qed.

Lemma spare_le d v v' :
  0 <= d -> capacity v - d <= capacity v' ->
  pending (sm_next_file_id (v_sstables v')) v' <= pending (sm_next_file_id (v_sstables v)) v + 2 * d ->
  pending (manifest_generation (v_sstables v')) v' <= pending (manifest_generation (v_sstables v)) v + 2 * d ->
  zlen (sm_readers (v_sstables v')) + zlen (immutable_tables_ (v_memtables v')) <=
    zlen (sm_readers (v_sstables v)) + zlen (immutable_tables_ (v_memtables v)) + d ->
  spare v - d <= spare v'.
Proof. intros Hd Hc H1 H2 H3. unfold spare. Z.div_mod_to_equations. lia. Qed.

Lemma spare_nonneg v :
  0 <= spare v ->
  0 <= capacity v /\ pending (sm_next_file_id (v_sstables v)) v <= u64_max /\
  pending (manifest_generation (v_sstables v)) v <= u64_max /\
  zlen (sm_readers (v_sstables v)) + zlen (immutable_tables_ (v_memtables v)) <= kMaximumManifestTables.
Proof. unfold spare. Z.div_mod_to_equations. lia. Qed.

(** ** Writing to memory *)

Lemma view_write key e live m m' sm cat :
  view_inv (mkView m sm) cat -> wrote key e live m m' -> e_seq e = last_sequence_number_ m + 1 ->
  view_inv (mkView m' sm) cat /\ view_map (mkView m' sm) = <[key := e]> (view_map (mkView m sm)) /\
  capacity (mkView m sm) - 1 <= capacity (mkView m' sm) /\ spare (mkView m sm) - 1 <= spare (mkView m' sm).
Proof.
  intros [H1 H2 H3 H4 H5 H6] (W1 & W2 & W3 & W4 & W5 & (G1 & G2 & G3)) Hs. cbn [v_memtables v_sstables] in *.
  assert (Hc : capacity (mkView m sm) - 1 <= capacity (mkView m' sm))
    by (unfold capacity, load; cbn [v_memtables v_sstables]; lia).
  split_and!; [| |done|].
  - split; cbn [v_memtables v_sstables]; try done.
    + intros es k e0 kv Hes Hf [->|Hkv]%G1; [|by eapply H3]. simpl. specialize (H4 _ _ _ Hes Hf). lia.
    + intros es k e0 Hes Hf. specialize (H4 _ _ _ Hes Hf). lia.
    + intros c Hc0. specialize (H5 c Hc0). lia.
  - unfold view_map. cbn [v_memtables v_sstables]. by rewrite W2, insert_union_l.
  - apply spare_le; unfold pending; cbn [v_memtables v_sstables]; lia.
Qed.

(** ** Flushing the oldest table *)

(** The set without its oldest table. *)
Section discard.
Context (m : MemTableSet) (l : list MemTable) (t : MemTable).
Hypothesis Hinv : ms_inv m.
Hypothesis Himm : immutable_tables_ m = l ++ [t].

Lemma oldest_order : Forall (fun u => table_gt u t) (active_ m :: l).
Proof.
  pose proof (ms_ordered _ Hinv) as Ho. unfold ms_tables in Ho. rewrite Himm in Ho.
  change (active_ m :: l ++ [t]) with ((active_ m :: l) ++ [t]) in Ho. revert Ho.
  generalize (active_ m :: l) as us. clear. intros us. induction us as [|u us IH]; intros H; [constructor|].
  simpl in H. apply StronglySorted_inv in H as [H1 H2]. constructor; [|by apply IH].
  rewrite Forall_forall in H2. apply H2. apply elem_of_app. right. by left.
Qed.

Lemma erase_oldest : erase_generation (generation_ t) (l ++ [t]) = Some l.
Proof.
  pose proof oldest_order as H. apply Forall_cons in H as [_ H]. clear Himm. induction l as [|u us IH]; simpl.
  - by rewrite Z.eqb_refl.
  - apply Forall_cons in H as [[_ Hg] H]. rewrite (proj2 (Z.eqb_neq _ _)) by lia. by rewrite IH.
Qed.

Lemma discard_oldest : discard_immutable (generation_ t) m = (Ok true, set_immutable l m).
Proof. unfold discard_immutable, mbind, stm_bind, sget, sput, mret, stm_ret. by rewrite Himm, erase_oldest. Qed.

Lemma discarded_inv : ms_inv (set_immutable l m).
Proof.
  destruct Hinv as [H1 H2 H3 H4 H5 H6 H7 H8 H9]. unfold ms_tables in *. rewrite Himm in *.
  change (active_ m :: l ++ [t]) with ((active_ m :: l) ++ [t]) in *.
  split; unfold ms_tables; cbn [active_ immutable_tables_ set_immutable last_sequence_number_ next_generation_]; try done.
  - by apply Forall_app in H1 as [H1 _].
  - by apply Forall_app in H3 as [H3 _].
  - clear - H4. revert H4. generalize (active_ m :: l) as us. intros us. induction us as [|u us IH]; intros H; [constructor|].
    simpl in H. apply StronglySorted_inv in H as [G1 G2]. constructor; [by apply IH|]. by apply Forall_app in G2 as [G2 _].
  - by apply Forall_app in H5 as [H5 _].
  - by apply Forall_app in H9 as [H9 _].
Qed.

Lemma discarded_entries : ms_entries m = ms_entries (set_immutable l m) ++ entries_ t.
Proof.
  unfold ms_entries, ms_tables. rewrite Himm. cbn [active_ immutable_tables_ set_immutable]. simpl.
  rewrite map_app, concat_app. simpl. by rewrite app_nil_r, app_assoc.
Qed.

Lemma discarded_find key :
  find_in key (ms_tables m) =
  match find_in key (ms_tables (set_immutable l m)) with Some e => Some e | None => om_find key (entries_ t) end.
Proof.
  unfold ms_tables. rewrite Himm. cbn [active_ immutable_tables_ set_immutable].
  change (active_ m :: l ++ [t]) with ((active_ m :: l) ++ [t]). generalize (active_ m :: l) as us. intros us.
  induction us as [|u us IH]; simpl; [by destruct (om_find _ _)|]. by destruct (om_find key (entries_ u)).
Qed.

Lemma oldest_inv : mt_inv t /\ immutable_ t = true /\ entries_ t <> [] /\ 0 <= generation_ t < next_generation_ m.
Proof.
  pose proof oldest_order as Ho. apply Forall_cons in Ho as [[_ Ho] _]. pose proof (ms_gen _ Hinv).
  pose proof (ms_tables_inv _ Hinv) as H1. pose proof (ms_frozen _ Hinv) as H2. pose proof (ms_gen_pos _ Hinv) as H3.
  unfold ms_tables in H1, H3. rewrite Himm in *. apply Forall_cons in H1 as [_ H1], H3 as [_ H3].
  apply Forall_app in H1 as [_ H1], H2 as [_ H2], H3 as [_ H3]. apply Forall_cons in H1 as [H1 _], H2 as [[H2 H4] _], H3 as [H3 _].
  split_and!; try done. lia.
Qed.
End discard.

Lemma size_view_le ess : Z.of_nat (size (view ess)) <= total_entries ess.
Proof.
  unfold view. rewrite size_omap_list by apply merge_all_wf. etrans; [|apply merge_all_length].
  unfold om_count, zlen. pose proof (length_filter (fun kv : str * Entry => negb (e_deleted kv.2) = true) (merge_all ess)). lia.
Qed.

(** A view with the manager replaced by one that holds the same tables. *)
Lemma view_inv_manager m sm sm' cat :
  view_inv (mkView m sm) cat -> sm_inv sm' cat -> counters_ok sm' -> view_inv (mkView m sm') cat.
Proof. intros [H1 H2 H3 H4 H5 H6] Hi Hc. by split. Qed.

Lemma load_cat m sm cat : sm_inv sm cat -> load (mkView m sm) = total_entries (cat_entries cat) + zlen (ms_entries m).
Proof. intros H. unfold load. cbn [v_memtables v_sstables]. by rewrite (sm_entries_cat _ _ H). Qed.

Lemma same_cat_map m sm sm' cat : sm_inv sm cat -> sm_inv sm' cat -> view_map (mkView m sm') = view_map (mkView m sm).
Proof.
  intros H1 H2. unfold view_map, disk_map. cbn [v_memtables v_sstables].
  by rewrite (sm_entries_cat _ _ H1), (sm_entries_cat _ _ H2).
Qed.

Section flush_one.
Context (m : MemTableSet) (sm : SSTableManager) (cat : Catalog) (l : list MemTable) (t : MemTable).
Hypothesis Hv : view_inv (mkView m sm) cat.
Hypothesis Himm : immutable_tables_ m = l ++ [t].
Hypothesis Hload : load (mkView m sm) <= u32_max.

Lemma oldest_newer es k e e' :
  es ∈ cat_entries cat -> om_find k es = Some e -> om_find k (entries_ t) = Some e' -> e_seq e < e_seq e'.
Proof.
  intros Hes Hf Hf'. apply om_find_In in Hf'. apply (vi_newer _ _ Hv es k e (k, e') Hes Hf).
  cbn [v_memtables]. rewrite (discarded_entries m l t Himm). apply elem_of_app. by right.
Qed.

(** The table is on disk and no longer in memory. *)
Lemma flushed_view sm' cat' o :
  sm_inv sm' cat' -> counters_ok sm' -> cat' ≡ₚ cat ++ [(o, Level0)] -> op_entries o = entries_ t ->
  h_generation (op_header o) = generation_ t ->
  (forall key, newest (cat_entries cat') key =
     match om_find key (entries_ t) with Some e => Some e | None => newest (cat_entries cat) key end) ->
  view_inv (mkView (set_immutable l m) sm') cat' /\
  view_map (mkView (set_immutable l m) sm') = view_map (mkView m sm) /\
  load (mkView (set_immutable l m) sm') = load (mkView m sm).
Proof.
  intros Hi Hc Hp He Hg Hn. pose proof (vi_memory _ _ Hv) as Hm. cbn [v_memtables] in Hm.
  assert (Hin : forall es, es ∈ cat_entries cat' -> es ∈ cat_entries cat \/ es = entries_ t).
  { intros es Hes. unfold cat_entries in Hes. rewrite Hp, map_app in Hes. apply elem_of_app in Hes as [Hes|Hes%list_elem_of_singleton]; [by left|].
    right. simpl in Hes. congruence. }
  assert (Hsub : forall kv, kv ∈ ms_entries (set_immutable l m) -> kv ∈ ms_entries m)
    by (intros kv Hkv; rewrite (discarded_entries m l t Himm); apply elem_of_app; by left).
  split_and!.
  - split; cbn [v_memtables v_sstables]; try done; [by eapply discarded_inv| | |].
    + intros es k e kv [Hes| ->]%Hin Hf Hkv; [by eapply (vi_newer _ _ Hv); [exact Hes|exact Hf|apply Hsub]|].
      apply om_find_In in Hf. pose proof (oldest_order m l t Hm Himm) as Ho. rewrite Forall_forall in Ho.
      unfold ms_entries in Hkv. apply list_elem_of_In, in_concat in Hkv as (es' & Hes' & Hkv).
      apply in_map_iff in Hes' as (u & <- & Hu). destruct kv as [k' e'].
      destruct (Ho u (proj2 (list_elem_of_In (active_ m :: l) u) Hu)) as [Hnew _]. eapply Hnew; [|exact Hf]. by apply list_elem_of_In.
    + intros es k e [Hes| ->]%Hin Hf; [by eapply (vi_bound _ _ Hv)|]. apply om_find_In in Hf.
      pose proof (ms_seq_bound _ Hm) as Hb. rewrite Forall_forall in Hb.
      assert (Ht : t ∈ ms_tables m) by (unfold ms_tables; rewrite Himm; apply elem_of_cons; right; apply elem_of_app; right; by left).
      specialize (Hb t Ht). rewrite Forall_forall in Hb. apply (Hb (k, e) Hf).
    + intros c Hc'. rewrite Hp in Hc'. apply elem_of_app in Hc' as [Hc'|Hc'%list_elem_of_singleton]; [by apply (vi_generations _ _ Hv)|].
      subst c. simpl. rewrite Hg. destruct (oldest_inv m l t Hm Himm) as (_ & _ & _ & HT). lia.
  - apply map_eq. intros key. rewrite !view_map_lookup. cbn [v_memtables v_sstables].
    rewrite (disk_map_lookup _ _ _ Hi), (disk_map_lookup _ _ _ (vi_tables _ _ Hv)), Hn, (discarded_find m l t Himm).
    destruct (find_in key _); [done|]. by destruct (om_find key (entries_ t)).
  - rewrite (load_cat _ _ _ Hi), (load_cat _ _ _ (vi_tables _ _ Hv)). cbn [v_sstables].
    rewrite (discarded_entries m l t Himm), zlen_app. unfold cat_entries.
    rewrite (total_entries_perm _ _ (Permutation_map _ Hp)), map_app, total_entries_app. simpl. rewrite He. lia.
Qed.

Lemma flush_one_spec r sm' :
  SstManager.flush t sm = (r, sm') ->
  (forall e, r = Throw e -> view_inv (mkView m sm') cat) /\
  (forall x, r = Ok x -> exists cat', view_inv (mkView (set_immutable l m) sm') cat' /\
     view_map (mkView (set_immutable l m) sm') = view_map (mkView m sm) /\
     capacity (mkView (set_immutable l m) sm') = capacity (mkView m sm) /\
     spare (mkView m sm) <= spare (mkView (set_immutable l m) sm')) /\
  (fs_script (sm_fs sm) = [] -> 0 <= spare (mkView m sm) -> is_Ok r = true /\ fs_script (sm_fs sm') = []).
Proof.
  intros H. pose proof (vi_memory _ _ Hv) as Hm. pose proof (vi_tables _ _ Hv) as Hi. pose proof (vi_counters _ _ Hv) as Hc.
  cbn [v_memtables v_sstables] in *. destruct (oldest_inv m l t Hm Himm) as (T1 & T2 & T3 & T4). pose proof (ms_next_gen _ Hm) as Hng.
  pose proof (size_view_le (cat_entries cat)) as Hsz. rewrite (load_cat _ _ _ Hi) in Hload.
  pose proof (discarded_entries m l t Himm) as Hde. pose proof (f_equal zlen Hde) as Hz. rewrite zlen_app in Hz.
  pose proof (zlen_nonneg (ms_entries (set_immutable l m))). pose proof (total_entries_nonneg (cat_entries cat)).
  assert (L1 : zlen (entries_ t) <= u32_max) by lia.
  assert (L2 : sm_live_key_count sm + zlen (entries_ t) <= u64_max).
  { rewrite (sv_live _ _ Hi). assert (u32_max <= u64_max) by done. lia. }
  assert (L3 : is_u64 (generation_ t)) by (unfold is_u64; lia).
  destruct (flush_spec sm cat t r sm' Hi T1 T2 T3 L1 L3 oldest_newer L2 H) as (cat' & Hi' & Hn & Hp & Hth & Hq).
  destruct (spends_flush t sm r sm' Hc H) as [[S1 S2 S3] Hc']. split_and!.
  - intros e ->. rewrite (Hth e eq_refl) in Hi'. by apply (view_inv_manager m sm).
  - intros x ->. destruct (Hp x eq_refl) as (o & Hperm & He & Hg). exists cat'.
    destruct (flushed_view sm' cat' o Hi' Hc' Hperm He Hg (Hn x eq_refl)) as (F1 & F2 & F3).
    assert (Hcap : capacity (mkView (set_immutable l m) sm') = capacity (mkView m sm)) by (unfold capacity; by rewrite F3).
    split_and!; try done. pose proof (level0_count_perm _ _ Hperm) as Hl0. rewrite level0_count_app in Hl0.
    change (level0_count [(o, Level0)]) with 1 in Hl0. apply Permutation_length in Hperm. rewrite length_app in Hperm.
    replace (spare (mkView m sm)) with (spare (mkView m sm) - 0) by lia.
    apply spare_le; unfold pending; cbn [v_memtables v_sstables immutable_tables_ set_immutable]; try lia;
      rewrite ?(level0_count_readers _ _ Hi'), ?(level0_count_readers _ _ Hi), ?(zlen_readers _ _ Hi'), ?(zlen_readers _ _ Hi), Himm;
      unfold zlen in *; rewrite length_app; simpl in *; lia.
  - intros Hs (_ & P1 & P2 & P3)%spare_nonneg. unfold pending in P1, P2. cbn [v_memtables v_sstables] in *.
    assert (Hzi : zlen (immutable_tables_ m) = zlen l + 1) by (rewrite Himm, zlen_app; done). rewrite Hzi in *.
    rewrite (level0_count_readers _ _ Hi), ?(zlen_readers _ _ Hi) in *. pose proof (level0_count_bounds cat). pose proof (zlen_nonneg l).
    destruct Hc as [C1 C2]. unfold manifest_generation in *.
    apply Hq; try done; try lia. split_and!; try lia. intros c Hcc. pose proof (vi_generations _ _ Hv c Hcc) as Hgc. cbn [v_memtables] in Hgc. lia.
Qed.
End flush_one.

(** ** Compaction *)

Section compact_view.
Context (m : MemTableSet) (sm : SSTableManager) (cat : Catalog).
Hypothesis Hv : view_inv (mkView m sm) cat.
Hypothesis Hload : load (mkView m sm) <= u32_max.

Lemma compacted_view sm' cat' :
  compacted sm cat sm' cat' -> counters_ok sm' ->
  view_inv (mkView m sm') cat' /\ view_abs (mkView m sm') = view_abs (mkView m sm) /\
  load (mkView m sm') <= load (mkView m sm).
Proof.
  intros [C1 C2 C3 C4 [L1 L2 L3 L4]] Hc. pose proof Hv as [H1 H2 H3 H4 H5 H6]. cbn [v_memtables v_sstables] in *. split_and!.
  - split; cbn [v_memtables v_sstables]; try done.
    + intros es k e kv Hes Hf Hkv. destruct (C4 _ _ _ Hes Hf) as (es0 & Hes0 & Hf0). by eapply H3.
    + intros es k e Hes Hf. destruct (C4 _ _ _ Hes Hf) as (es0 & Hes0 & Hf0). by eapply H4.
    + apply L4; [|done]. pose proof (ms_gen _ H2). lia.
  - apply map_eq. intros key. rewrite !view_abs_lookup, !view_map_lookup. cbn [v_memtables v_sstables].
    destruct (find_in key _) as [e|]; [done|].
    by rewrite (disk_map_lookup _ _ _ C1), (disk_map_lookup _ _ _ H1), <- !visible_live.
  - rewrite (load_cat _ _ _ C1), (load_cat _ _ _ H1). lia.
Qed.

Lemma compact_view force r sm' :
  compact_level0 force sm = (r, sm') ->
  exists cat', view_inv (mkView m sm') cat' /\ view_abs (mkView m sm') = view_abs (mkView m sm) /\
    capacity (mkView m sm) <= capacity (mkView m sm') /\
    (is_Ok r = true -> cs_selected (select_level0_compaction_locked sm force) <> [] ->
     level_table_count Level0 sm' < level_table_count Level0 sm) /\
    (fs_script (sm_fs sm) = [] -> 0 <= spare (mkView m sm) ->
     is_Ok r = true /\ fs_script (sm_fs sm') = [] /\ spare (mkView m sm) <= spare (mkView m sm')).
Proof.
  intros H. pose proof (vi_tables _ _ Hv) as Hi. pose proof (vi_counters _ _ Hv) as Hc. cbn [v_sstables] in *.
  destruct (decide (cs_selected (select_level0_compaction_locked sm force) = [])) as [En|En].
  { unfold compact_level0, mbind, stm_bind, sget in H. rewrite En in H. cbn in H. unfold mret, stm_ret in H. simplify_eq.
    exists cat. by split_and!. }
  assert (Htot : total_entries (cat_entries cat) <= u32_max).
  { rewrite (load_cat _ _ _ Hi) in Hload. pose proof (zlen_nonneg (ms_entries m)). lia. }
  destruct (compact_spec sm cat force r sm' Hi Htot H) as (cat' & Hcomp & _ & Hlt & Hq). pose proof (cp_inv _ _ _ _ Hcomp) as Hi'.
  destruct (spends_compact force sm r sm' Hc H) as [[S1 S2 S3] Hc']. destruct (compacted_view sm' cat' Hcomp Hc') as (F1 & F2 & F3).
  assert (Hcap : capacity (mkView m sm) <= capacity (mkView m sm')) by (unfold capacity; cbn [v_memtables]; lia).
  rewrite (level0_count_readers _ _ Hi), (level0_count_readers _ _ Hi').
  exists cat'. split_and!; try done. intros Hs Hsp.
  assert (Hl0 : 0 < level0_count cat).
  { destruct (select_level0 sm force) as (t & Ht & Hl); [pose proof (ok_limits _ (sv_options _ _ Hi)); lia|done|].
    rewrite <- (level0_count_readers _ _ Hi). unfold level_table_count.
    assert (Hf : t ∈ List.filter (is_level Level0) (sm_readers sm)).
    { apply elem_of_filter_In. split; [|by apply bool_decide_eq_true_2].
      assert (Hnd : NoDup (map mg_path (sm_readers sm))) by (rewrite (sv_readers _ _ Hi), map_mg_path; apply (sv_cat _ _ Hi)).
      destruct (select_spec sm force Hnd En) as (Hp & _). rewrite <- Hp. apply elem_of_app. by left. }
    destruct (List.filter _ _) as [|u us]; [by apply not_elem_of_nil in Hf|]. rewrite zlen_cons. pose proof (zlen_nonneg us). lia. }
  apply spare_nonneg in Hsp as (_ & P1 & P2 & P3). unfold pending in P1, P2. cbn [v_memtables v_sstables] in *.
  rewrite (level0_count_readers _ _ Hi), ?(zlen_readers _ _ Hi) in *. pose proof (zlen_nonneg (immutable_tables_ m)).
  assert (Hgens : forall c, c ∈ cat -> h_generation (op_header c.1) < u64_max).
  { intros c Hcc. pose proof (vi_generations _ _ Hv c Hcc) as Hgc. pose proof (ms_next_gen _ (vi_memory _ _ Hv)). cbn [v_memtables] in *. lia. }
  destruct Hc as [C1 C2]. unfold manifest_generation in *.
  assert (Hroom : room sm cat) by (split_and!; try done; lia).
  destruct (Hq Hs ltac:(lia) Hroom) as [Hok Hs']. split_and!; [done|done|].
  specialize (Hlt Hok En). pose proof (sh_count _ _ (cp_shrunk _ _ _ _ Hcomp)).
  replace (spare (mkView m sm)) with (spare (mkView m sm) - 0) by lia.
  apply spare_le; unfold pending; cbn [v_memtables v_sstables]; try lia;
    rewrite ?(level0_count_readers _ _ Hi'), ?(level0_count_readers _ _ Hi), ?(zlen_readers _ _ Hi'), ?(zlen_readers _ _ Hi);
    unfold manifest_generation; lia.
Qed.
End compact_view.

(** ** Background work *)

(** No system call of the directory is going to fail. *)
Definition quiet_tables (s : PersistentKeyValueStore) : Prop := fs_script (sm_fs (sstables_ s)) = [].

(** What flushes and compactions leave alone. *)
Record background (s s' : PersistentKeyValueStore) : Prop := {
  bg_wal : ps_wal s' = ps_wal s;
  bg_live : ps_live_key_count s' = ps_live_key_count s;
  bg_automatic : ps_automatic_compaction s' = ps_automatic_compaction s;
  bg_abs : view_abs (ps_view s') = view_abs (ps_view s);
  bg_memory : forall k, ms_map (memtables_ s) !! k = None -> ms_map (memtables_ s') !! k = None;
  bg_active : active_ (memtables_ s') = active_ (memtables_ s);
  bg_capacity : capacity (ps_view s) <= capacity (ps_view s')
}.

#[export] Instance background_preorder : PreOrder background.
Proof.
  split; [by split|]. intros s1 s2 s3 [A1 A2 A3 A4 A5 A6 A7] [B1 B2 B3 B4 B5 B6 B7].
  split; try congruence; [auto|lia].
Qed.

Lemma capacity_load v : 0 <= capacity v -> load v <= u32_max.
Proof. unfold capacity. lia. Qed.

Lemma ms_map_none key m : ms_map m !! key = None <-> find_in key (ms_tables m) = None.
Proof. by rewrite ms_map_lookup. Qed.

Lemma flush_tables_spec ts s cat r s' :
  view_inv (ps_view s) cat -> immutable_tables_ (memtables_ s) = reverse ts -> 0 <= capacity (ps_view s) ->
  flush_tables ts s = (r, s') ->
  (exists cat', view_inv (ps_view s') cat') /\ background s s' /\
  (r = Ok tt -> immutable_tables_ (memtables_ s') = []) /\
  (quiet_tables s -> 0 <= spare (ps_view s) ->
   r = Ok tt /\ quiet_tables s' /\ spare (ps_view s) <= spare (ps_view s')).
Proof.
  revert s cat. induction ts as [|t ts IH]; intros s cat Hv Himm Hcap H; cbn [flush_tables] in H.
  { unfold mret, stm_ret in H. simplify_eq. split_and!; [by eexists|done|done|done]. }
  rewrite reverse_cons in Himm. destruct s as [[m sm] live report wal auto]. cbn [ps_view memtables_ v_memtables v_sstables] in *.
  unfold mbind, stm_bind, on_sstables in H. cbn [ps_view sstables_ v_sstables] in H.
  destruct (SstManager.flush t sm) as [r1 sm1] eqn:E1.
  destruct (flush_one_spec m sm cat _ t Hv Himm (capacity_load _ Hcap) r1 sm1 E1) as (F1 & F2 & F3).
  destruct r1 as [x|e].
  2:{ simplify_eq. specialize (F1 e eq_refl). cbn [ps_view set_view memtables_ v_memtables]. split_and!; [by exists cat| |done|].
      - pose proof (same_cat_map m sm sm1 cat (vi_tables _ _ Hv) (vi_tables _ _ F1)) as Hm. split; try done.
        + unfold view_abs. cbn [ps_view set_view memtables_ v_memtables]. by rewrite Hm.
        + cbn [ps_view set_view memtables_ v_memtables]. unfold capacity. cbn [v_memtables].
          rewrite (load_cat _ _ _ (vi_tables _ _ Hv)), (load_cat _ _ _ (vi_tables _ _ F1)). cbn [v_sstables]. done.
      - intros Hq Hs. by destruct (F3 Hq Hs). }
  destruct (F2 x eq_refl) as (cat1 & G1 & G2 & G3 & G4). unfold on_memtables in H.
  cbn [set_view ps_view memtables_ v_memtables sstables_ v_sstables] in H.
  rewrite (discard_oldest m (reverse ts) t (vi_memory _ _ Hv) Himm) in H. unfold slift, throw_if in H. cbn [negb] in H.
  set (s1 := mkStore (mkView (set_immutable (reverse ts) m) sm1) live report wal auto). change (flush_tables ts s1 = (r, s')) in H.
  destruct (IH s1 cat1 G1 eq_refl ltac:(unfold s1; cbn [ps_view]; lia) H) as (Hcat & Hbg & Hok & Hq).
  split_and!; [done| |done|].
  - etrans; [|exact Hbg]. split; try done; unfold s1; cbn [ps_view memtables_ v_memtables]; [unfold view_abs; by rewrite G2| |lia].
    intros k. rewrite !ms_map_none, (discarded_find m (reverse ts) t Himm). by destruct (find_in k (ms_tables (set_immutable _ m))).
  - intros Hs Hsp. destruct (F3 Hs Hsp) as [_ Hs1]. destruct Hq as (-> & Q2 & Q3); [done|unfold s1; cbn [ps_view]; lia|].
    split_and!; [done|done|]. unfold s1 in Q3. cbn [ps_view] in Q3. lia.
Qed.

Lemma flush_immutable_spec s cat r s' :
  view_inv (ps_view s) cat -> 0 <= capacity (ps_view s) ->
  flush_immutable_memtables_locked s = (r, s') ->
  (exists cat', view_inv (ps_view s') cat') /\ background s s' /\
  (r = Ok tt -> immutable_tables_ (memtables_ s') = []) /\
  (quiet_tables s -> 0 <= spare (ps_view s) ->
   r = Ok tt /\ quiet_tables s' /\ spare (ps_view s) <= spare (ps_view s')).
Proof.
  intros Hv Hcap H. unfold flush_immutable_memtables_locked, mbind, stm_bind, sget in H.
  eapply flush_tables_spec; [done| |done|done]. by rewrite reverse_involutive.
Qed.

(** A compaction, forced or not, as a step of the store. *)
Lemma compact_store_spec force s cat r s' :
  view_inv (ps_view s) cat -> 0 <= capacity (ps_view s) ->
  on_sstables (compact_level0 force) s = (r, s') ->
  (exists cat', view_inv (ps_view s') cat') /\ background s s' /\ memtables_ s' = memtables_ s /\
  (is_Ok r = true -> cs_selected (select_level0_compaction_locked (sstables_ s) force) <> [] ->
   level_table_count Level0 (sstables_ s') < level_table_count Level0 (sstables_ s)) /\
  (quiet_tables s -> 0 <= spare (ps_view s) ->
   is_Ok r = true /\ quiet_tables s' /\ spare (ps_view s) <= spare (ps_view s')).
Proof.
  intros Hv Hcap H. unfold on_sstables in H. destruct s as [[m sm] live report wal auto]. cbn [ps_view sstables_ memtables_ v_sstables v_memtables] in *.
  destruct (compact_level0 force sm) as [r1 sm1] eqn:E.
  destruct (compact_view m sm cat Hv (capacity_load _ Hcap) force r1 sm1 E) as (cat' & F1 & F2 & F3 & F4 & F5). simplify_eq.
  split_and!; [by exists cat'| |done|done|].
  - by split.
  - intros Hs Hsp. by destruct (F5 Hs Hsp) as (? & ? & ?).
Qed.

(** The selection is not empty when a compaction is needed. *)
Lemma needs_compaction_selects sm :
  2 <= so_level0_compaction_trigger (sm_options sm) <= so_level0_compaction_max_tables (sm_options sm) ->
  needs_compaction sm = true -> cs_selected (select_level0_compaction_locked sm false) <> [].
Proof.
  intros Ho Hn. unfold needs_compaction, level_table_count in Hn. zbool.
  unfold select_level0_compaction_locked. set (l0 := List.filter _ _) in *.
  destruct (is_nil l0) eqn:E; [apply is_nil_true in E; rewrite E in Hn; unfold zlen in Hn; simpl in Hn; lia|].
  cbn [negb andb orb]. rewrite (proj2 (Z.ltb_ge _ _)) by lia. destruct (expand_loop _ _ _ _) as [sel paths] eqn:El.
  apply expand_loop_prefix in El. cbn [cs_selected] in *. intros Hs. rewrite Hs in El. apply prefix_nil_inv in El.
  pose proof (Permutation_length (sort_by_perm older_table l0)) as Hp. apply (f_equal length) in El. rewrite length_take in El. simpl in El.
  unfold zlen in *. lia.
Qed.

Lemma compact_loop_spec turns s cat r s' :
  view_inv (ps_view s) cat -> 0 <= capacity (ps_view s) -> level_table_count Level0 (sstables_ s) < Z.of_nat turns ->
  compact_loop turns s = (r, s') ->
  (exists cat', view_inv (ps_view s') cat') /\ background s s' /\ memtables_ s' = memtables_ s /\
  (quiet_tables s -> 0 <= spare (ps_view s) ->
   r = Ok tt /\ quiet_tables s' /\ spare (ps_view s) <= spare (ps_view s')) /\
  (forall extra, compact_loop (turns + extra) s = (r, s')).
Proof.
  revert s cat. induction turns as [|turns IH]; intros s cat Hv Hcap Hl H; cbn [compact_loop] in H.
  { unfold level_table_count in Hl. pose proof (zlen_nonneg (List.filter (is_level Level0) (sm_readers (sstables_ s)))). lia. }
  cbn [Nat.add compact_loop]. unfold mbind, stm_bind, sget in H |- *.
  destruct (needs_compaction (sstables_ s)) eqn:En; cbn [negb] in H |- *.
  2:{ unfold mret, stm_ret in H |- *. simplify_eq. split_and!; [by exists cat|done..]. }
  assert (Hce : on_sstables compact_if_needed s = on_sstables (compact_level0 false) s).
  { unfold on_sstables, compact_if_needed, mbind, stm_bind, sget. by rewrite En. }
  rewrite Hce in H |- *. destruct (on_sstables (compact_level0 false) s) as [r1 s1] eqn:E1.
  destruct (compact_store_spec false s cat r1 s1 Hv Hcap E1) as ((cat1 & Hv1) & Hbg & Hm & Hlt & Hq).
  assert (Hsel : cs_selected (select_level0_compaction_locked (sstables_ s) false) <> []).
  { apply needs_compaction_selects; [|done]. apply (ok_limits _ (sv_options _ _ (vi_tables _ _ Hv))). }
  destruct r1 as [x|e].
  2:{ simplify_eq. split_and!; [by exists cat1|done|done| |done]. intros Hs Hsp. by destruct (Hq Hs Hsp). }
  specialize (Hlt eq_refl Hsel). destruct (cr_performed x); cbn [negb] in H |- *.
  - destruct (IH s1 cat1 Hv1) as (Hcat & Hbg2 & Hm2 & Hq2 & Hne); [by pose proof (bg_capacity _ _ Hbg); lia|lia|done|].
    split_and!; [done|by etrans|congruence| |done]. intros Hs Hsp. destruct (Hq Hs Hsp) as (_ & Q2 & Q3).
    destruct Hq2 as (-> & Q5 & Q6); [done|lia|]. split_and!; [done|done|lia].
  - unfold mret, stm_ret in H |- *. simplify_eq. split_and!; [by exists cat1|done|done| |done].
    intros Hs Hsp. by destruct (Hq Hs Hsp) as (_ & ? & ?).
Qed.

Lemma compact_if_required_spec s cat r s' :
  view_inv (ps_view s) cat -> 0 <= capacity (ps_view s) ->
  compact_if_required_locked s = (r, s') ->
  (exists cat', view_inv (ps_view s') cat') /\ background s s' /\ memtables_ s' = memtables_ s /\
  (quiet_tables s -> 0 <= spare (ps_view s) ->
   r = Ok tt /\ quiet_tables s' /\ spare (ps_view s) <= spare (ps_view s')).
Proof.
  intros Hv Hcap H. unfold compact_if_required_locked, mbind, stm_bind, sget in H.
  destruct (ps_automatic_compaction s); cbn [negb] in H.
  - apply compact_loop_spec with (cat := cat) in H as (H1 & H2 & H3 & H4 & _); [done|done|done|].
    unfold level_table_count, zlen. lia.
  - unfold mret, stm_ret in H. simplify_eq. split_and!; [by exists cat|done..].
Qed.

(** ** The log *)

(** No call on the log is going to fail, and none of the flusher has. *)
Definition healthy (w : WalWriter) : Prop :=
  calm_write (f_script (ww_file w)) = true /\ background_flush_error_ w = None.

Lemma fsync_calm on_error f :
  calm_write (f_script f) = true ->
  exists s, posix_fsync on_error f = (Ok tt, mkWFile (f_data f) (f_data f) s) /\ calm_write s = true.
Proof.
  intros H. unfold posix_fsync. revert H. generalize (f_script f) as script. intros script.
  induction script as [|e script IH]; intros H; simpl; [by exists []|].
  simpl in H. apply andb_true_iff in H as [H1 H2]. destruct e; simpl; [by apply IH|done|by exists script].
Qed.

Lemma truncate_calm on_error f :
  calm_write (f_script f) = true ->
  exists s, posix_truncate on_error f = (Ok tt, mkWFile [] (f_durable f) s) /\ calm_write s = true.
Proof.
  intros H. unfold posix_truncate. revert H. generalize (f_script f) as script. intros script.
  induction script as [|e script IH]; intros H; simpl; [by exists []|].
  simpl in H. apply andb_true_iff in H as [H1 H2]. destruct e; simpl; [by apply IH|done|by exists script].
Qed.

Lemma flush_locked_healthy w : healthy w -> exists w', flush_locked w = (Ok tt, w') /\ healthy w' /\
  background_flush_error_ w' = None /\ durability_mode_ w' = durability_mode_ w.
Proof.
  intros [H1 H2]. unfold flush_locked. wstep. destruct (dirty_ w); cbn [negb]; [|by exists w].
  destruct (fsync_calm (fun e => SystemError e "failed to fsync WAL file") _ H1) as (s & E & Hs).
  unfold sync_file. rewrite E. eexists. split; [done|]. by repeat split.
Qed.

Lemma append_healthy rec w :
  valid_record rec -> healthy w -> exists w', append rec w = (Ok tt, w') /\ healthy w'.
Proof.
  intros Hr [H1 H2]. unfold append, throw_if_background_flush_failed_locked. wstep.
  rewrite serialize_valid, H2 by done. unfold WalWriter.write_all.
  destruct (posix_write_all_calm (fun e => SystemError e "failed to append WAL record")
    (Some (RuntimeError "WAL write returned zero bytes")) (encode rec) _ H1) as (s & E & Hs).
  rewrite E. set (w1 := set_dirty true _). assert (Hh : healthy w1) by by split.
  destruct (durability_mode_ w1); [|by exists w1..]. destruct (flush_locked_healthy w1 Hh) as (w' & E' & Hw' & _). eauto.
Qed.

Lemma wal_flush_healthy w :
  wal_inv w -> healthy w -> exists w', WalWriter.flush w = (Ok tt, w') /\ healthy w' /\ same_log w w'.
Proof.
  intros Hi Hh. destruct (flush_locked_healthy w Hh) as (w' & E & Hw' & _). exists w'.
  assert (Ef : WalWriter.flush w = (Ok tt, w')).
  { unfold WalWriter.flush, throw_if_background_flush_failed_locked. wstep. destruct Hh as [_ ->]. done. }
  split; [done|]. split; [done|]. by eapply flush_same.
Qed.

(** After a reset the log is empty, and durably so. *)
Lemma reset_healthy w :
  healthy w -> exists w', WalWriter.reset w = (Ok tt, w') /\ healthy w' /\ wal_inv w' /\
    f_data (ww_file w') = [] /\ f_durable (ww_file w') = [] /\ dirty_ w' = false /\ durability_mode_ w' = durability_mode_ w.
Proof.
  intros Hh. unfold WalWriter.reset, throw_if_background_flush_failed_locked. wstep. pose proof Hh as [_ ->].
  destruct (flush_locked_healthy w Hh) as (w1 & E1 & [H1 H2] & _ & Hm). rewrite E1. unfold truncate_file.
  destruct (truncate_calm (fun e => SystemError e "failed to truncate WAL file") _ H1) as (s2 & E2 & Hs2). rewrite E2.
  unfold sync_file. cbn [ww_file set_file].
  destruct (fsync_calm (fun e => SystemError e "failed to fsync WAL file") (mkWFile [] (f_durable (ww_file w1)) s2) Hs2)
    as (s3 & E3 & Hs3). rewrite E3. eexists. split; [done|]. split; [by split|]. split; [|done].
  split; [by apply prefix_nil|done].
Qed.

(** *** What the records of a log do to a key *)

Definition record_effect (r : WalRecord) : option str :=
  match w_op r with OpPut => Some (w_value r) | _ => None end.

Definition last_write (rs : list WalRecord) (k : str) : option (option str) :=
  foldl (fun a r => if decide (w_key r = k) then Some (record_effect r) else a) None rs.

Lemma last_write_snoc rs r k :
  last_write (rs ++ [r]) k = if decide (w_key r = k) then Some (record_effect r) else last_write rs k.
Proof. unfold last_write. by rewrite foldl_app. Qed.

Lemma apply_records_lookup m rs k :
  apply_records m rs !! k = match last_write rs k with Some o => o | None => m !! k end.
Proof.
  induction rs as [|r rs IH] using rev_ind; [done|]. unfold apply_records in *. rewrite foldl_app, last_write_snoc. simpl.
  unfold apply_record at 1, record_effect. destruct (decide (w_key r = k)) as [->|Hne].
  - destruct (w_op r); [by rewrite lookup_insert_eq|by rewrite lookup_delete_eq..].
  - destruct (w_op r); rewrite ?lookup_insert_ne, ?lookup_delete_ne by done; done.
Qed.

(** Every key in memory was last written by a record of the log, and the
    records say what the store holds. *)
Definition covers (rs : list WalRecord) (v : StoreView) : Prop :=
  forall k, match last_write rs k with
            | Some o => view_abs v !! k = o
            | None => ms_map (v_memtables v) !! k = None
            end.

Lemma covers_replay rs v : covers rs v -> apply_records (disk_abs (v_sstables v)) rs = view_abs v.
Proof.
  intros H. apply map_eq. intros k. rewrite apply_records_lookup. specialize (H k). destruct (last_write rs k) as [o|]; [done|].
  unfold disk_abs. rewrite lookup_omap, view_abs_lookup. unfold view_map. rewrite lookup_union, H.
  by destruct (disk_map (v_sstables v) !! k).
Qed.

Lemma covers_background rs s s' : background s s' -> covers rs (ps_view s) -> covers rs (ps_view s').
Proof.
  intros Hb H k. specialize (H k). destruct (last_write rs k) as [o|]; [by rewrite (bg_abs _ _ Hb)|by apply (bg_memory _ _ Hb)].
Qed.

Lemma covers_nil v : ms_map (v_memtables v) = ∅ -> covers [] v.
Proof. intros H k. simpl. by rewrite H. Qed.

Lemma covers_write rs r v v' e :
  covers rs v -> view_map v' = <[w_key r := e]> (view_map v) -> live_value e = record_effect r ->
  ms_map (v_memtables v') = <[w_key r := e]> (ms_map (v_memtables v)) -> covers (rs ++ [r]) v'.
Proof.
  intros H Hm He Hmm k. rewrite last_write_snoc. specialize (H k). destruct (decide (w_key r = k)) as [<-|Hne].
  - rewrite view_abs_lookup, Hm, lookup_insert_eq. done.
  - destruct (last_write rs k) as [o|].
    + rewrite <- H, !view_abs_lookup, Hm. by rewrite lookup_insert_ne.
    + rewrite Hmm. by rewrite lookup_insert_ne.
Qed.

(** ** The invariant *)

Record store_inv (s : PersistentKeyValueStore) : Prop := {
  si_view : exists cat, view_inv (ps_view s) cat;
  si_live : ps_live_key_count s = u64 (Z.of_nat (size (view_abs (ps_view s))))
}.

Record log_inv (s : PersistentKeyValueStore) (rs : list WalRecord) : Prop := {
  li_valid : Forall valid_record rs;
  li_data : f_data (ww_file (ps_wal s)) = encode_all rs;
  li_wal : wal_inv (ps_wal s);
  li_healthy : healthy (ps_wal s);
  li_sync : durability_mode_ (ps_wal s) = Sync -> dirty_ (ps_wal s) = false;
  li_covers : covers rs (ps_view s)
}.

Lemma log_inv_background s s' rs : background s s' -> log_inv s rs -> log_inv s' rs.
Proof.
  intros Hb [H1 H2 H3 H4 H5 H6]. pose proof (bg_wal _ _ Hb) as Hw. split; rewrite ?Hw; try done. by eapply covers_background.
Qed.

Lemma store_inv_background s s' cat : view_inv (ps_view s') cat -> background s s' -> store_inv s -> store_inv s'.
Proof. intros Hv Hb [_ H]. split; [by exists cat|]. by rewrite (bg_live _ _ Hb), (bg_abs _ _ Hb). Qed.

(** ** The steps of an operation *)

(** No system call is going to fail. *)
Definition quiet_store (s : PersistentKeyValueStore) : Prop := quiet_tables s /\ healthy (ps_wal s).

Lemma no_entries m : active_entry_count m = 0 -> immutable_tables_ m = [] -> ms_map m = ∅.
Proof.
  unfold active_entry_count, mt_entry_count, ms_map, ms_tables, table_map. intros H1 ->. simpl.
  rewrite (proj1 (zlen_0 _) H1). by rewrite (right_id_L ∅ (∪)).
Qed.

(** Resetting the log while memory holds nothing. *)
Lemma reset_log_inv s rs r s' :
  log_inv s rs -> ms_map (memtables_ s) = ∅ -> on_wal WalWriter.reset s = (r, s') ->
  r = Ok tt /\ log_inv s' [] /\ ps_view s' = ps_view s /\ ps_live_key_count s' = ps_live_key_count s /\
  durability_mode_ (ps_wal s') = durability_mode_ (ps_wal s).
Proof.
  intros [H1 H2 H3 H4 H5 H6] He H. unfold on_wal in H.
  destruct (reset_healthy (ps_wal s) H4) as (w' & E & W1 & W2 & W3 & W4 & W5 & W6). rewrite E in H. simplify_eq.
  split_and!; try done. split; try done. by apply covers_nil.
Qed.

Lemma reset_view s r s' :
  on_wal WalWriter.reset s = (r, s') ->
  ps_view s' = ps_view s /\ ps_live_key_count s' = ps_live_key_count s /\
  (healthy (ps_wal s) -> r = Ok tt /\ healthy (ps_wal s')).
Proof.
  unfold on_wal. intros H. destruct (WalWriter.reset (ps_wal s)) as [r0 w] eqn:E. simplify_eq. split_and!; try done.
  intros Hh. destruct (reset_healthy _ Hh) as (w' & E' & Hw & _). rewrite E' in E. by simplify_eq.
Qed.

Lemma store_inv_view s s' :
  ps_view s' = ps_view s -> ps_live_key_count s' = ps_live_key_count s -> store_inv s -> store_inv s'.
Proof. intros H1 H2 [[cat Hv] Hl]. split; [exists cat; by rewrite H1|by rewrite H1, H2]. Qed.

(** What may follow a write, however it ends. *)
Record settled (s s' : PersistentKeyValueStore) : Prop := {
  st_inv : store_inv s';
  st_abs : view_abs (ps_view s') = view_abs (ps_view s);
  st_capacity : capacity (ps_view s) <= capacity (ps_view s');
  st_log : forall rs, log_inv s rs -> log_inv s' rs \/ log_inv s' []
}.

Lemma settled_background s s' cat : store_inv s -> view_inv (ps_view s') cat -> background s s' -> settled s s'.
Proof.
  intros Hs Hv Hb. split; [by eapply store_inv_background|apply Hb..|]. intros rs Hl. left. by eapply log_inv_background.
Qed.

Lemma settled_trans s1 s2 s3 : settled s1 s2 -> settled s2 s3 -> settled s1 s3.
Proof.
  intros [A1 A2 A3 A4] [B1 B2 B3 B4]. split; [done|congruence|lia|].
  intros rs Hl. destruct (A4 rs Hl) as [H|H]; destruct (B4 _ H); auto.
Qed.

Lemma reset_if_spec s r s' :
  store_inv s -> reset_wal_if_fully_persisted_locked s = (r, s') ->
  settled s s' /\ (quiet_store s -> r = Ok tt /\ quiet_store s' /\ spare (ps_view s') = spare (ps_view s)).
Proof.
  intros Hs H. unfold reset_wal_if_fully_persisted_locked, mbind, stm_bind, sget in H.
  destruct ((_ =? 0) && (_ =? 0)) eqn:E.
  2:{ unfold mret, stm_ret in H. simplify_eq. split; [|done]. split; try done. auto. }
  zbool. destruct (reset_view _ _ _ H) as (V1 & V2 & V3). split.
  - split; [by eapply store_inv_view|by rewrite V1|by rewrite V1|]. intros rs Hl. right.
    apply reset_log_inv with (rs := rs) in H as (_ & H & _); [done|done|]. apply no_entries; [done|].
    unfold immutable_table_count in *. by apply zlen_0.
  - intros [Q1 Q2]. destruct (V3 Q2) as [-> Hh]. unfold quiet_store, quiet_tables, sstables_ in *. by rewrite V1.
Qed.

(** The end of [put] and [remove]. *)
Lemma settle_spec s r s' :
  store_inv s -> 0 <= capacity (ps_view s) ->
  (_ ← flush_immutable_memtables_locked; _ ← compact_if_required_locked; reset_wal_if_fully_persisted_locked) s = (r, s') ->
  settled s s' /\ (quiet_store s -> 0 <= spare (ps_view s) ->
    r = Ok tt /\ quiet_store s' /\ spare (ps_view s) <= spare (ps_view s')).
Proof.
  intros Hs Hcap H. unfold mbind, stm_bind in H. pose proof Hs as [[cat Hv] _].
  destruct (flush_immutable_memtables_locked s) as [r1 s1] eqn:E1.
  destruct (flush_immutable_spec s cat r1 s1 Hv Hcap E1) as ((cat1 & Hv1) & Hb1 & _ & Hq1).
  pose proof (settled_background _ _ _ Hs Hv1 Hb1) as St1. pose proof (bg_capacity _ _ Hb1). pose proof (bg_wal _ _ Hb1) as Hw1.
  destruct r1 as [[]|e1]; [|simplify_eq; split; [done|]; intros [Q1 _] Hsp; by destruct (Hq1 Q1 Hsp)].
  destruct (compact_if_required_locked s1) as [r2 s2] eqn:E2.
  destruct (compact_if_required_spec s1 cat1 r2 s2 Hv1 ltac:(lia) E2) as ((cat2 & Hv2) & Hb2 & _ & Hq2).
  pose proof (settled_trans _ _ _ St1 (settled_background _ _ _ (st_inv _ _ St1) Hv2 Hb2)) as St2. pose proof (bg_wal _ _ Hb2) as Hw2.
  destruct r2 as [[]|e2].
  2:{ simplify_eq. split; [done|]. intros [Q1 _] Hsp. destruct (Hq1 Q1 Hsp) as (_ & Q3 & Q4). by destruct (Hq2 Q3 ltac:(lia)). }
  destruct (reset_if_spec s2 r s' (st_inv _ _ St2) H) as [St3 Hq3]. split; [by eapply settled_trans|].
  intros [Q1 Q2] Hsp. destruct (Hq1 Q1 Hsp) as (_ & Q3 & Q4). destruct (Hq2 Q3 ltac:(lia)) as (_ & Q5 & Q6).
  destruct Hq3 as (-> & Q7 & Q8); [split; [done|by rewrite Hw2, Hw1]|]. split_and!; [done|done|lia].
Qed.

(** A write to memory. *)
Lemma memory_write s m' sm key e live n cat :
  view_inv (ps_view s) cat -> v_sstables (ps_view s) = sm -> wrote key e live (memtables_ s) m' ->
  e_seq e = last_sequence_number_ (memtables_ s) + 1 ->
  let s' := set_live_count n (set_view (mkView m' sm) s) in
  n = u64 (Z.of_nat (size (view_abs (ps_view s')))) ->
  store_inv s' /\
  view_abs (ps_view s') = match live_value e with Some v => <[key := v]> (view_abs (ps_view s))
                          | None => delete key (view_abs (ps_view s)) end /\
  capacity (ps_view s) - 1 <= capacity (ps_view s') /\ spare (ps_view s) - 1 <= spare (ps_view s') /\
  forall rs rec, w_key rec = key -> live_value e = record_effect rec -> covers rs (ps_view s) ->
    covers (rs ++ [rec]) (ps_view s').
Proof.
  intros Hv <- Hw He s' Hn. destruct s as [[m sm] lv report wal auto]. unfold s' in *. clear s'.
  cbn [ps_view set_live_count set_view memtables_ v_memtables v_sstables] in *.
  destruct (view_write key e live m m' sm cat Hv Hw He) as (W1 & W2 & W3 & W4). split_and!; try done.
  - split; [by exists cat|done].
  - unfold view_abs. rewrite W2. destruct (live_value e) as [v|] eqn:El.
    + by rewrite (omap_insert_Some _ _ _ _ v).
    + by rewrite omap_insert_None.
  - intros rs rec <- Heff Hc. eapply covers_write; [exact Hc|exact W2|done|]. by destruct Hw as (_ & Hm & _).
Qed.

(** ** Reading *)

(** What a lookup may change. *)
Record looked (s s' : PersistentKeyValueStore) : Prop := {
  lk_inv : store_inv s';
  lk_view : exists sm', ps_view s' = mkView (memtables_ s) sm' /\ read_only (sstables_ s) sm';
  lk_same : ps_wal s' = ps_wal s /\ ps_live_key_count s' = ps_live_key_count s /\
            ps_automatic_compaction s' = ps_automatic_compaction s;
  lk_map : view_map (ps_view s') = view_map (ps_view s);
  lk_capacity : capacity (ps_view s') = capacity (ps_view s);
  lk_spare : spare (ps_view s') = spare (ps_view s);
  lk_log : forall rs, log_inv s rs -> log_inv s' rs;
  lk_quiet : quiet_store s -> quiet_store s'
}.

Lemma lookup_entry_ok key s :
  store_inv s -> valid_key key ->
  exists s', latest_entry_of_store key s = (Ok (view_map (ps_view s) !! key), s') /\ looked s s'.
Proof.
  intros [[cat Hv] Hl] Hk. destruct s as [[m sm] live report wal auto]. cbn [ps_view] in *.
  destruct (view_entry_ok key (mkView m sm) cat Hv Hk) as (sm' & E & Hv' & Hro). cbn [v_memtables v_sstables] in *.
  destruct (read_only_same m sm sm' Hro) as (R1 & R2 & R3).
  exists (mkStore (mkView m sm') live report wal auto). unfold latest_entry_of_store, on_reader. cbn [ps_view]. rewrite E.
  split; [done|]. split; try done.
  - split; [by exists cat|]. cbn [ps_view ps_live_key_count]. unfold view_abs in *. by rewrite R1.
  - exists sm'. done.
  - intros rs [L1 L2 L3 L4 L5 L6]. split; try done. intros k. specialize (L6 k). cbn [ps_view] in *.
    unfold view_abs in *. rewrite R1. exact L6.
  - intros [Q1 Q2]. split; [|done]. unfold quiet_tables, sstables_ in *. cbn [ps_view v_sstables] in *. by rewrite (ro_fs _ _ Hro).
Qed.

Lemma entry_live_value o : entry_live o = bool_decide (is_Some (o ≫= live_value)).
Proof.
  destruct o as [e|]; [|done]. unfold entry_live. change (Some e ≫= live_value) with (live_value e). unfold live_value.
  by destruct (e_deleted e).
Qed.

Definition has_key (key : str) (s : PersistentKeyValueStore) : bool :=
  bool_decide (is_Some (view_abs (ps_view s) !! key)).

Lemma exists_ok key s :
  store_inv s -> valid_key key -> exists s', exists_without_validation key s = (Ok (has_key key s), s') /\ looked s s'.
Proof.
  intros Hs Hk. destruct (lookup_entry_ok key s Hs Hk) as (s' & E & Hlk). exists s'. split; [|done].
  unfold exists_without_validation, mbind, stm_bind. rewrite E. unfold mret, stm_ret. by rewrite entry_live_value, <- view_abs_lookup.
Qed.

Lemma ps_get_ok key s :
  store_inv s -> valid_key key -> exists s', ps_get key s = (Ok (view_abs (ps_view s) !! key), s') /\ looked s s'.
Proof.
  intros Hs Hk. destruct (lookup_entry_ok key s Hs Hk) as (s' & E & Hlk). exists s'. split; [|done].
  unfold ps_get, mbind, stm_bind, slift. rewrite validate_key_ok, E by done. unfold mret, stm_ret.
  rewrite view_abs_lookup. by destruct (view_map _ !! key).
Qed.

Lemma ps_exists_ok key s :
  store_inv s -> valid_key key -> exists s', ps_exists key s = (Ok (has_key key s), s') /\ looked s s'.
Proof.
  intros Hs Hk. destruct (exists_ok key s Hs Hk) as (s' & E & Hlk). exists s'. split; [|done].
  unfold ps_exists, mbind, stm_bind, slift. by rewrite validate_key_ok, E.
Qed.

Lemma looked_abs s s' : looked s s' -> view_abs (ps_view s') = view_abs (ps_view s).
Proof. intros H. unfold view_abs. by rewrite (lk_map _ _ H). Qed.

(** ** Writing *)

Lemma capacity_room v : 0 < capacity v -> ms_room (v_memtables v).
Proof. unfold capacity, ms_room. lia. Qed.

(** What a write does, however it ends: [abs'] are the contents it leads to. *)
Record wrote_store (rec : WalRecord) (ok : bool) (s s' : PersistentKeyValueStore) (abs' : gmap str str) : Prop := {
  ws_inv : store_inv s';
  ws_abs : view_abs (ps_view s') = abs' \/ (ok = false /\ view_abs (ps_view s') = view_abs (ps_view s));
  ws_capacity : capacity (ps_view s) - 1 <= capacity (ps_view s');
  ws_log : forall rs, log_inv s rs -> view_abs (ps_view s') = abs' /\ (log_inv s' (rs ++ [rec]) \/ log_inv s' []);
  ws_quiet : quiet_store s -> 0 < spare (ps_view s) ->
    ok = true /\ quiet_store s' /\ spare (ps_view s) - 1 <= spare (ps_view s')
}.

(** The append, the write to memory and what follows. *)
Lemma write_store_spec {A} (a : A) rec key e live n (c : stm MemTableSet unit) s r s' cat m' :
  store_inv s -> view_inv (ps_view s) cat -> 0 < capacity (ps_view s) -> valid_record rec -> w_key rec = key ->
  live_value e = record_effect rec ->
  c (memtables_ s) = (Ok tt, m') -> wrote key e live (memtables_ s) m' -> e_seq e = last_sequence_number_ (memtables_ s) + 1 ->
  (forall abs', abs' = match live_value e with Some v => <[key := v]> (view_abs (ps_view s))
                       | None => delete key (view_abs (ps_view s)) end ->
     n (ps_live_key_count s) = u64 (Z.of_nat (size abs'))) ->
  (_ ← on_wal (append rec);
   _ ← on_memtables c;
   _ ← smodify (fun s => set_live_count (n (ps_live_key_count s)) s);
   _ ← flush_immutable_memtables_locked;
   _ ← compact_if_required_locked;
   _ ← reset_wal_if_fully_persisted_locked;
   mret a) s = (r, s') ->
  wrote_store rec (is_Ok r) s s' (match live_value e with Some v => <[key := v]> (view_abs (ps_view s))
                                  | None => delete key (view_abs (ps_view s)) end) /\
  (forall x, r = Ok x -> x = a).
Proof.
  intros Hs Hv Hcap Hrec Hkey Heff Hc Hw Hseq Hn H. set (abs' := match live_value e with Some v => _ | None => _ end) in *.
  unfold mbind at 1, stm_bind at 1, on_wal at 1 in H. destruct (append rec (ps_wal s)) as [[[]|ea] w1] eqn:Ea.
  2:{ simplify_eq. split; [|done]. split.
      - by eapply store_inv_view; [..|exact Hs].
      - by right.
      - cbn [ps_view set_wal]. lia.
      - intros rs Hl. destruct (append_healthy rec (ps_wal s) Hrec (li_healthy _ _ Hl)) as (w & E & _). congruence.
      - intros [_ Hh] _. destruct (append_healthy rec (ps_wal s) Hrec Hh) as (w & E & _). congruence. }
  unfold mbind at 1, stm_bind at 1, on_memtables at 1 in H.
  change (memtables_ (set_wal w1 s)) with (memtables_ s) in H. rewrite Hc in H.
  unfold mbind at 1, stm_bind at 1, smodify in H.
  set (s1 := set_live_count _ _) in H. change (sstables_ (set_wal w1 s)) with (sstables_ s) in s1.
  destruct (memory_write (set_wal w1 s) m' (sstables_ s) key e live (n (ps_live_key_count s)) cat Hv eq_refl Hw Hseq) as (M1 & M2 & M3 & M4 & M5).
  { rewrite (Hn abs' eq_refl). do 3 f_equal. symmetry.
    destruct (view_write key e live (memtables_ s) m' (sstables_ s) cat) as (_ & W2 & _); [by destruct s as [[m0 sm0] lv0 rp0 wl0 au0]|done..|].
    cbn [ps_view set_live_count set_view]. unfold view_abs. rewrite W2. unfold abs', view_abs. destruct s as [[m0 sm0] lv0 rp0 wl0 au0].
    cbn [ps_view memtables_ sstables_ v_memtables v_sstables] in *.
    destruct (live_value e) as [v|] eqn:El; [by rewrite (omap_insert_Some _ _ _ _ v)|by rewrite omap_insert_None]. }
  change (set_live_count _ (set_view _ (set_wal w1 s))) with s1 in M1, M2, M3, M4, M5.
  change (ps_view (set_wal w1 s)) with (ps_view s) in *. fold abs' in M2.
  assert (Hset : exists r1, (_ ← flush_immutable_memtables_locked; _ ← compact_if_required_locked;
                             reset_wal_if_fully_persisted_locked) s1 = (r1, s') /\ is_Ok r = is_Ok r1 /\ forall x, r = Ok x -> x = a).
  { unfold mbind, stm_bind, mret, stm_ret in H |- *. destruct (flush_immutable_memtables_locked s1) as [[[]|e1] s2]; [|simplify_eq; eexists; split_and!; [done|done|congruence]].
    destruct (compact_if_required_locked s2) as [[[]|e2] s3]; [|simplify_eq; eexists; split_and!; [done|done|congruence]].
    destruct (reset_wal_if_fully_persisted_locked s3) as [[[]|e3] s4]; simplify_eq; eexists; (split_and!; [done|done|congruence]). }
  destruct Hset as (r1 & Hset & Hr & Ha). destruct (settle_spec s1 r1 s' M1 ltac:(lia) Hset) as [[S1 S2 S3 S4] Hq].
  assert (Habs : view_abs (ps_view s') = abs') by congruence. split; [|done]. split; [done|by left|lia| |].
  - intros rs [L1 L2 L3 L4 L5 L6]. split; [done|]. apply S4.
    destruct (append_spec rec (ps_wal s) w1 L3 Ea) as (A1 & A2 & A3 & A4 & A5).
    destruct (append_healthy rec (ps_wal s) Hrec L4) as (w & E & Hh). rewrite Ea in E. simplify_eq.
    split; cbn [s1 ps_wal set_live_count set_view set_wal]; try done.
    + apply Forall_app. split; [done|by constructor].
    + by rewrite A3, L2, encode_all_app, encode_all_cons, app_nil_r.
    + rewrite A4. done.
    + by apply M5.
  - intros [Q1 Q2] Hsp. destruct (append_healthy rec (ps_wal s) Hrec Q2) as (w & E & Hh). rewrite Ea in E. simplify_eq.
    destruct Hq as (-> & Q3 & Q4); [by split|lia|]. rewrite Hr. split_and!; [done|done|lia].
Qed.

Lemma wrote_store_looked rec ok s s0 s' abs' : looked s s0 -> wrote_store rec ok s0 s' abs' -> wrote_store rec ok s s' abs'.
Proof.
  intros Hl [H1 H2 H3 H4 H5]. rewrite (looked_abs _ _ Hl), ?(lk_capacity _ _ Hl) in *. split; try done.
  - intros rs Hr. by apply H4, (lk_log _ _ Hl).
  - intros Q Hsp. rewrite <- (lk_spare _ _ Hl) in *. apply H5; [by apply (lk_quiet _ _ Hl)|done].
Qed.

Lemma put_record_valid key value : valid_key key -> valid_value value -> valid_record (mkWalRecord OpPut key value).
Proof. by intros. Qed.

Lemma ps_put_spec key value s r s' :
  store_inv s -> valid_key key -> valid_value value -> 0 < capacity (ps_view s) -> ps_put key value s = (r, s') ->
  wrote_store (mkWalRecord OpPut key value) (is_Ok r) s s' (<[key := value]> (view_abs (ps_view s))).
Proof.
  intros Hs Hk Hv Hcap H. unfold ps_put in H. unfold mbind at 1, stm_bind at 1, slift at 1 in H. rewrite validate_key_ok in H by done.
  unfold mbind at 1, stm_bind at 1, slift at 1 in H. rewrite validate_value_ok in H by done.
  destruct (exists_ok key s Hs Hk) as (s0 & E0 & Hlk). unfold mbind at 1, stm_bind at 1 in H. rewrite E0 in H.
  apply (wrote_store_looked _ _ s s0); [done|]. rewrite <- (looked_abs _ _ Hlk). pose proof (lk_inv _ _ Hlk) as Hs0.
  pose proof Hs0 as [[cat Hv0] Hl0]. rewrite <- (lk_capacity _ _ Hlk) in Hcap.
  assert (Eh : has_key key s = has_key key s0) by (unfold has_key; by rewrite (looked_abs _ _ Hlk)). rewrite Eh in H.
  destruct (ms_put_spec key value (memtables_ s0)) as (m' & Em & Hw); [apply Hv0|done|done|by apply capacity_room|].
  refine (proj1 (write_store_spec tt (mkWalRecord OpPut key value) key _ _
    (fun c => if has_key key s0 then c else u64 (c + 1)) (ms_put key value) s0 r s' cat m' Hs0 Hv0 Hcap _ _ _ Em Hw _ _ _)); try done.
  - intros abs' ->. cbn [live_value e_deleted]. change (e_value _) with value. rewrite Hl0, size_insert_live. unfold has_key.
    case_bool_decide; [f_equal; lia|by rewrite u64_add_l].
  - rewrite <- H. unfold mbind, stm_bind, smodify, mret, stm_ret.
    destruct (on_wal _ s0) as [[[]|] s1]; [|done]. destruct (on_memtables _ s1) as [[[]|] s2]; [|done].
    assert (Eif : set_live_count (if has_key key s0 then ps_live_key_count s2 else u64 (ps_live_key_count s2 + 1)) s2 =
                  (if has_key key s0 then s2 else set_live_count (u64 (ps_live_key_count s2 + 1)) s2))
      by (destruct (has_key key s0); [by destruct s2|done]).
    rewrite Eif. set (s3 := if has_key key s0 then _ else _).
    destruct (flush_immutable_memtables_locked s3) as [[[]|] s4]; [|done].
    destruct (compact_if_required_locked s4) as [[[]|] s5]; [|done].
    by destruct (reset_wal_if_fully_persisted_locked s5) as [[[]|] s6].
Qed.

(** A deletion of a key that is there. *)
Lemma ps_remove_spec key s r s' :
  store_inv s -> valid_key key -> 0 < capacity (ps_view s) -> ps_remove key s = (r, s') ->
  if has_key key s then
    wrote_store (mkWalRecord OpDelete key []) (is_Ok r) s s' (delete key (view_abs (ps_view s))) /\ forall x, r = Ok x -> x = true
  else r = Ok false /\ looked s s'.
Proof.
  intros Hs Hk Hcap H. unfold ps_remove in H. unfold mbind at 1, stm_bind at 1, slift at 1 in H. rewrite validate_key_ok in H by done.
  destruct (exists_ok key s Hs Hk) as (s0 & E0 & Hlk). unfold mbind at 1, stm_bind at 1 in H. rewrite E0 in H.
  destruct (has_key key s) eqn:Eh; cbn [negb] in H; [|unfold mret, stm_ret in H; by simplify_eq].
  rewrite <- (looked_abs _ _ Hlk). pose proof (lk_inv _ _ Hlk) as Hs0.
  pose proof Hs0 as [[cat Hv0] Hl0]. rewrite <- (lk_capacity _ _ Hlk) in Hcap.
  destruct (ms_add_tombstone_spec key (memtables_ s0)) as (m' & Em & Hw); [apply Hv0|done|by apply capacity_room|].
  assert (Hn : forall abs' : gmap str str, abs' = delete key (view_abs (ps_view s0)) ->
    u64 (ps_live_key_count s0 - 1) = u64 (Z.of_nat (size abs'))).
  { intros abs' ->. unfold has_key in Eh. rewrite <- (looked_abs _ _ Hlk) in Eh.
    rewrite Hl0, size_delete_live, Eh. by rewrite u64_sub_l. }
  destruct (write_store_spec true (mkWalRecord OpDelete key []) key (mkEntry [] (last_sequence_number_ (memtables_ s0) + 1) true) _
    (fun c => u64 (c - 1)) (ms_add_tombstone key) s0 r s' cat m' Hs0 Hv0 Hcap (conj Hk eq_refl) eq_refl eq_refl Em Hw eq_refl Hn H) as [W1 W2].
  split; [by eapply wrote_store_looked|done].
Qed.

(** ** Flushing, checkpoints and manual compaction *)

(** A step that touches the log only. *)
Lemma log_step_settled s r s' :
  store_inv s -> on_wal WalWriter.flush s = (r, s') ->
  settled s s' /\ ps_view s' = ps_view s /\ (quiet_store s -> r = Ok tt /\ quiet_store s') /\
  (forall rs, log_inv s rs -> r = Ok tt /\ log_inv s' rs).
Proof.
  intros Hs H. unfold on_wal in H. destruct (WalWriter.flush (ps_wal s)) as [r0 w] eqn:E. simplify_eq.
  assert (Hl : forall rs, log_inv s rs -> r = Ok tt /\ log_inv (set_wal w s) rs).
  { intros rs [L1 L2 L3 L4 L5 L6]. destruct (wal_flush_healthy (ps_wal s) L3 L4) as (w' & E' & Hh & (S1 & S2 & S3 & S4)).
    rewrite E' in E. simplify_eq. split; [done|]. split; cbn [ps_wal set_wal]; try done; [by rewrite S2|]. rewrite S3. auto. }
  split_and!; try done.
  - split; [by eapply store_inv_view; [..|exact Hs]|done|done|]. intros rs Hr. left. by apply Hl.
  - intros [Q1 Q2]. destruct (flush_locked_healthy _ Q2) as (w' & E' & Hh & _).
    unfold WalWriter.flush, throw_if_background_flush_failed_locked in E. revert E. wstep. pose proof Q2 as [_ ->]. rewrite E'. intros E. by simplify_eq.
Qed.

Lemma rotate_view m sm cat :
  view_inv (mkView m sm) cat -> ms_room m ->
  exists o m', rotate_active m = (Ok o, m') /\ view_inv (mkView m' sm) cat /\ ms_map m' = ms_map m /\
    capacity (mkView m sm) - 1 <= capacity (mkView m' sm) /\ spare (mkView m sm) - 1 <= spare (mkView m' sm) /\
    active_entry_count m' = 0.
Proof.
  intros Hv [Hr1 Hr2]. unfold rotate_active, mbind, stm_bind, sget, sput, mret, stm_ret.
  destruct (mt_empty (active_ m)) eqn:E.
  { eexists _, m. split_and!; try done; try lia. unfold mt_empty in E. apply is_nil_true in E.
    unfold active_entry_count, mt_entry_count. by rewrite E. }
  eexists _, (rotate m). pose proof (vi_memory _ _ Hv) as Hm. cbn [v_memtables] in Hm. pose proof (ms_gen _ Hm) as Hg.
  assert (Hn : next_generation_ (rotate m) = next_generation_ m + 1) by (simpl; apply u64_small; lia).
  assert (Hcap : capacity (mkView m sm) - 1 <= capacity (mkView (rotate m) sm)).
  { unfold capacity, load. cbn [v_memtables v_sstables]. rewrite ms_entries_rotate, Hn. simpl. lia. }
  split_and!; try done.
  - destruct Hv as [V1 V2 V3 V4 V5 V6]. split; cbn [v_memtables v_sstables] in *; try done; [by apply rotate_inv|].
    intros c Hc. specialize (V5 c Hc). rewrite Hn. lia.
  - apply ms_map_rotate.
  - apply spare_le; unfold pending; cbn [v_memtables v_sstables]; try lia; cbn [rotate immutable_tables_]; rewrite zlen_cons; lia.
Qed.

(** A rotation of the active table is a step of the store. *)
Lemma rotate_store s cat :
  store_inv s -> view_inv (ps_view s) cat -> 0 < capacity (ps_view s) ->
  exists o s', on_memtables rotate_active s = (Ok o, s') /\ store_inv s' /\ view_inv (ps_view s') cat /\
    view_abs (ps_view s') = view_abs (ps_view s) /\ ps_wal s' = ps_wal s /\ sstables_ s' = sstables_ s /\
    capacity (ps_view s) - 1 <= capacity (ps_view s') /\ spare (ps_view s) - 1 <= spare (ps_view s') /\
    active_entry_count (memtables_ s') = 0 /\ (forall rs, log_inv s rs -> log_inv s' rs).
Proof.
  intros [_ Hl] Hv Hcap. destruct s as [[m sm] lv rp wl au]. cbn [ps_view] in *.
  destruct (rotate_view m sm cat Hv (capacity_room _ Hcap)) as (o & m' & E & R1 & R2 & R3 & R4 & R5).
  exists o, (mkStore (mkView m' sm) lv rp wl au). unfold on_memtables. cbn [memtables_ ps_view v_memtables sstables_ v_sstables]. rewrite E.
  assert (Hmap : view_abs (mkView m' sm) = view_abs (mkView m sm)) by (unfold view_abs, view_map; cbn [v_memtables v_sstables]; by rewrite R2).
  split_and!; try done.
  - split; [by exists cat|]. cbn [ps_view ps_live_key_count] in *. by rewrite Hmap.
  - intros rs [L1 L2 L3 L4 L5 L6]. split; try done. intros k. specialize (L6 k). cbn [ps_view v_memtables] in *. by rewrite Hmap, R2.
Qed.

(** The part [checkpoint] and [compact] share. *)
Lemma persist_spec s r s' :
  store_inv s -> 0 < capacity (ps_view s) ->
  (_ ← on_wal WalWriter.flush; _ ← on_memtables rotate_active; flush_immutable_memtables_locked) s = (r, s') ->
  store_inv s' /\ view_abs (ps_view s') = view_abs (ps_view s) /\ capacity (ps_view s) - 1 <= capacity (ps_view s') /\
  (forall rs, log_inv s rs -> log_inv s' rs) /\ (r = Ok tt -> ms_map (memtables_ s') = ∅) /\
  (quiet_store s -> 0 < spare (ps_view s) ->
   r = Ok tt /\ quiet_store s' /\ spare (ps_view s) - 1 <= spare (ps_view s')).
Proof.
  intros Hs Hcap H. unfold mbind, stm_bind in H. destruct (on_wal WalWriter.flush s) as [r1 s1] eqn:E1.
  destruct (log_step_settled s r1 s1 Hs E1) as (St1 & V1 & Q1 & L1). pose proof (st_inv _ _ St1) as Hs1.
  destruct r1 as [[]|e1].
  2:{ simplify_eq. rewrite V1. split_and!; try done; [lia| |].
      - intros rs Hr. by destruct (L1 rs Hr).
      - intros Hq _. by destruct (Q1 Hq). }
  pose proof Hs1 as [[cat Hv1] _]. rewrite <- V1 in Hcap |- *.
  destruct (rotate_store s1 cat Hs1 Hv1 Hcap) as (o & s2 & E2 & Hs2 & Hv2 & A2 & W2 & T2 & C2 & P2 & Z2 & L2).
  rewrite E2 in H. destruct (flush_immutable_spec s2 cat r s' Hv2 ltac:(lia) H) as ((cat3 & Hv3) & Hb3 & Him & Hq3).
  split_and!.
  - by eapply store_inv_background.
  - by rewrite (bg_abs _ _ Hb3).
  - pose proof (bg_capacity _ _ Hb3). lia.
  - intros rs Hr. destruct (L1 rs Hr) as [_ Hr1]. eapply log_inv_background; [exact Hb3|by apply L2].
  - intros Hr. apply no_entries; [|by apply Him]. unfold active_entry_count in *. by rewrite (bg_active _ _ Hb3).
  - intros Hq Hsp. destruct (Q1 Hq) as [_ [Q3 Q4]].
    assert (Q5 : quiet_tables s2) by (unfold quiet_tables in *; by rewrite T2).
    destruct (Hq3 Q5 ltac:(lia)) as (-> & Q6 & Q7). split_and!; [done| |lia]. split; [done|]. by rewrite (bg_wal _ _ Hb3), W2.
Qed.

Lemma disk_is_all s : ms_map (memtables_ s) = ∅ -> disk_abs (sstables_ s) = view_abs (ps_view s).
Proof.
  intros H. unfold disk_abs, view_abs, view_map, memtables_, sstables_ in *. rewrite H. by rewrite (left_id_L ∅ (∪)).
Qed.

Lemma ps_checkpoint_spec s r s' :
  store_inv s -> 0 < capacity (ps_view s) -> ps_checkpoint s = (r, s') ->
  store_inv s' /\ view_abs (ps_view s') = view_abs (ps_view s) /\ capacity (ps_view s) - 1 <= capacity (ps_view s') /\
  (forall rs, log_inv s rs -> log_inv s' rs \/ log_inv s' []) /\
  (r = Ok tt -> disk_abs (sstables_ s') = view_abs (ps_view s) /\ forall rs, log_inv s rs -> log_inv s' []) /\
  (quiet_store s -> 0 < spare (ps_view s) ->
   r = Ok tt /\ quiet_store s' /\ spare (ps_view s) - 1 <= spare (ps_view s')).
Proof.
  intros Hs Hcap H.
  destruct ((_ ← on_wal WalWriter.flush; _ ← on_memtables rotate_active; flush_immutable_memtables_locked) s) as [r1 s1] eqn:E1.
  assert (H' : (match r1 with Ok _ => _ ← compact_if_required_locked; on_wal WalWriter.reset | Throw e => sthrow e end) s1 = (r, s')).
  { rewrite <- H. unfold ps_checkpoint. unfold mbind, stm_bind in E1 |- *. destruct (on_wal WalWriter.flush s) as [[[]|] sa]; [|by simplify_eq].
    destruct (on_memtables rotate_active sa) as [[?|] sb]; [|by simplify_eq]. rewrite E1. by destruct r1. }
  clear H. destruct (persist_spec s r1 s1 Hs Hcap E1) as (P1 & P2 & P3 & P4 & P5 & P6).
  destruct r1 as [[]|e1].
  2:{ unfold sthrow in H'. simplify_eq. split_and!; try done; intros rs Hr; left; by apply P4. }
  unfold mbind, stm_bind in H'. pose proof P1 as [[cat1 Hv1] _]. specialize (P5 eq_refl).
  destruct (compact_if_required_locked s1) as [r2 s2] eqn:E2.
  destruct (compact_if_required_spec s1 cat1 r2 s2 Hv1 ltac:(lia) E2) as ((cat2 & Hv2) & Hb2 & Hm2 & Hq2).
  pose proof (settled_background _ _ _ P1 Hv2 Hb2) as St2. pose proof (bg_wal _ _ Hb2) as Hw2. pose proof (st_capacity _ _ St2).
  assert (Habs2 : view_abs (ps_view s2) = view_abs (ps_view s)) by by rewrite (st_abs _ _ St2).
  destruct r2 as [[]|e2].
  2:{ simplify_eq. split_and!; try done; [apply St2|lia| |].
      - intros rs Hr. left. eapply log_inv_background; [exact Hb2|by apply P4].
      - intros Q S. destruct (P6 Q S) as (_ & [Q3 _] & Q4). by destruct (Hq2 Q3 ltac:(lia)). }
  destruct (reset_view _ _ _ H') as (V1 & V2 & V3). unfold sstables_, memtables_ in *. rewrite V1. split_and!; try done.
  - eapply store_inv_view; [exact V1|exact V2|apply St2].
  - lia.
  - intros rs Hr. right. apply reset_log_inv with (rs := rs) in H' as (_ & H' & _); [done| |by unfold memtables_; rewrite Hm2].
    eapply log_inv_background; [exact Hb2|by apply P4].
  - intros ->. split; [rewrite <- Habs2; apply disk_is_all; unfold memtables_; by rewrite Hm2|].
    intros rs Hr. apply reset_log_inv with (rs := rs) in H' as (_ & H' & _); [done| |by unfold memtables_; rewrite Hm2].
    eapply log_inv_background; [exact Hb2|by apply P4].
  - intros Q S. destruct (P6 Q S) as (_ & [Q3 Q4] & Q5). destruct (Hq2 Q3 ltac:(lia)) as (_ & Q6 & Q7).
    rewrite <- Hw2 in Q4. destruct (V3 Q4) as [-> Q8]. split_and!; [done| |lia]. split; [unfold quiet_tables, sstables_ in *; by rewrite V1|done].
Qed.

Lemma ps_compact_spec s r s' :
  store_inv s -> 0 < capacity (ps_view s) -> ps_compact s = (r, s') ->
  store_inv s' /\ view_abs (ps_view s') = view_abs (ps_view s) /\ capacity (ps_view s) - 1 <= capacity (ps_view s') /\
  (forall rs, log_inv s rs -> log_inv s' rs \/ log_inv s' []) /\
  (quiet_store s -> 0 < spare (ps_view s) ->
   is_Ok r = true /\ quiet_store s' /\ spare (ps_view s) - 1 <= spare (ps_view s')).
Proof.
  intros Hs Hcap H.
  destruct ((_ ← on_wal WalWriter.flush; _ ← on_memtables rotate_active; flush_immutable_memtables_locked) s) as [r1 s1] eqn:E1.
  assert (H' : (match r1 with
                | Ok _ => result ← on_sstables (compact_level0 true); _ ← reset_wal_if_fully_persisted_locked; mret result
                | Throw e => sthrow e end) s1 = (r, s')).
  { rewrite <- H. unfold ps_compact. unfold mbind, stm_bind in E1 |- *. destruct (on_wal WalWriter.flush s) as [[[]|] sa]; [|by simplify_eq].
    destruct (on_memtables rotate_active sa) as [[?|] sb]; [|by simplify_eq]. rewrite E1. by destruct r1. }
  clear H. destruct (persist_spec s r1 s1 Hs Hcap E1) as (P1 & P2 & P3 & P4 & P5 & P6).
  destruct r1 as [[]|e1].
  2:{ unfold sthrow in H'. simplify_eq. split_and!; try done; try (by intros rs Hr; left; apply P4). intros Q S. by destruct (P6 Q S). }
  unfold mbind, stm_bind in H'. pose proof P1 as [[cat1 Hv1] _].
  destruct (on_sstables (compact_level0 true) s1) as [r2 s2] eqn:E2.
  destruct (compact_store_spec true s1 cat1 r2 s2 Hv1 ltac:(lia) E2) as ((cat2 & Hv2) & Hb2 & Hm2 & _ & Hq2).
  pose proof (settled_background _ _ _ P1 Hv2 Hb2) as St2. pose proof (bg_wal _ _ Hb2) as Hw2.
  destruct r2 as [x|e2].
  2:{ simplify_eq. split_and!; [apply St2|by rewrite (st_abs _ _ St2)|pose proof (st_capacity _ _ St2); lia| |].
      - intros rs Hr. by apply (st_log _ _ St2), P4.
      - intros Q S. destruct (P6 Q S) as (_ & [Q3 _] & Q4). by destruct (Hq2 Q3 ltac:(lia)). }
  destruct (reset_wal_if_fully_persisted_locked s2) as [r3 s3] eqn:E3.
  destruct (reset_if_spec s2 r3 s3 (st_inv _ _ St2) E3) as [St3 Hq3]. pose proof (settled_trans _ _ _ St2 St3) as St.
  assert (s3 = s' /\ is_Ok r = is_Ok r3) as [-> Hr] by (destruct r3; unfold mret, stm_ret in H'; by simplify_eq).
  split_and!; [apply St|by rewrite (st_abs _ _ St)|pose proof (st_capacity _ _ St); lia| |].
  - intros rs Hl. by apply (st_log _ _ St), P4.
  - intros Q S. destruct (P6 Q S) as (_ & [Q3 Q4] & Q5). destruct (Hq2 Q3 ltac:(lia)) as (_ & Q6 & Q7).
    destruct Hq3 as (-> & Q8 & Q9); [split; [done|by rewrite Hw2]|]. split_and!; [done|done|lia].
Qed.
