(* ===== verification/StoreRefinement.v ===== *)
(** * The persistent store refines a finite map

    [PersistentKeyValueStore] and the destination of its recovery
    (src/persistent_key_value_store.cpp) as instances of the key-value
    interface; what a write does when system calls fail; and that the log and
    the tables together always hold the contents, so that a restart finds
    them again. *)

From S2P Require Import Prelude OrderedMap Codec Posix FileSystem Path Store MemTable MemTableSet.
From S2P Require Import WalFormat WalReader WalWriter Recovery BloomFilter BlockCache SstFormat SstWriter SstReader Manifest SstManager.
From S2P Require Import TableView OpenTables Compaction ManagerInv ManagerCost PersistentStore StoreInv.

(** ** The destination of recovery *)

Definition rd_inv (d : RecoveryDestination) : Prop :=
  (exists cat, view_inv (rd_view d) cat) /\ rd_live d = u64 (Z.of_nat (size (view_abs (rd_view d)))).

Lemma rd_looked key d :
  rd_inv d -> valid_key key ->
  exists d', on_view (latest_entry key) d = (Ok (view_map (rd_view d) !! key), d') /\ rd_inv d' /\
    view_abs (rd_view d') = view_abs (rd_view d) /\ v_memtables (rd_view d') = v_memtables (rd_view d).
Proof.
  intros [[cat Hv] Hl] Hk. destruct d as [[m sm] live]. cbn [rd_view rd_live] in *.
  destruct (view_entry_ok key (mkView m sm) cat Hv Hk) as (sm' & E & Hv' & Hro). cbn [v_memtables v_sstables] in *.
  destruct (read_only_same m sm sm' Hro) as (R1 & _).
  exists (mkDestination (mkView m sm') live). unfold on_view. cbn [rd_view]. rewrite E.
  assert (Ha : view_abs (mkView m sm') = view_abs (mkView m sm)) by (unfold view_abs; by rewrite R1).
  split_and!; try done. split; [by exists cat|]. cbn [rd_view rd_live]. by rewrite Ha.
Qed.

Lemma rd_exists_ok key d :
  rd_inv d -> valid_key key ->
  exists d', rd_exists key d = (Ok (bool_decide (is_Some (view_abs (rd_view d) !! key))), d') /\ rd_inv d' /\
    view_abs (rd_view d') = view_abs (rd_view d) /\ v_memtables (rd_view d') = v_memtables (rd_view d).
Proof.
  intros Hi Hk. destruct (rd_looked key d Hi Hk) as (d' & E & H). exists d'. split; [|done].
  unfold rd_exists, mbind, stm_bind, mret, stm_ret. by rewrite E, entry_live_value, <- view_abs_lookup.
Qed.

Lemma rd_get_ok key d :
  rd_inv d -> valid_key key ->
  exists d', rd_get key d = (Ok (view_abs (rd_view d) !! key), d') /\ rd_inv d' /\
    view_abs (rd_view d') = view_abs (rd_view d) /\ v_memtables (rd_view d') = v_memtables (rd_view d).
Proof.
  intros Hi Hk. destruct (rd_looked key d Hi Hk) as (d' & E & H). exists d'. split; [|done].
  unfold rd_get, mbind, stm_bind, mret, stm_ret. rewrite E, view_abs_lookup. by destruct (view_map _ !! key).
Qed.

(** A write to the memory tables of the destination. *)
Lemma rd_write d key e live m' n :
  rd_inv d -> wrote key e live (v_memtables (rd_view d)) m' -> e_seq e = last_sequence_number_ (v_memtables (rd_view d)) + 1 ->
  let abs' := match live_value e with Some v => <[key := v]> (view_abs (rd_view d)) | None => delete key (view_abs (rd_view d)) end in
  n = u64 (Z.of_nat (size abs')) ->
  rd_inv (mkDestination (mkView m' (v_sstables (rd_view d))) n) /\
  view_abs (mkView m' (v_sstables (rd_view d))) = abs'.
Proof.
  intros [[cat Hv] Hl] Hw He abs' Hn. destruct d as [[m sm] lv]. cbn [rd_view rd_live v_memtables v_sstables] in *.
  destruct (view_write key e live m m' sm cat Hv Hw He) as (W1 & W2 & _).
  assert (Ha : view_abs (mkView m' sm) = abs').
  { unfold view_abs, abs'. rewrite W2. destruct (live_value e) as [v|] eqn:El; [by rewrite (omap_insert_Some _ _ _ _ v)|by rewrite omap_insert_None]. }
  split; [|done]. split; [by exists cat|]. cbn [rd_view rd_live]. by rewrite Ha.
Qed.

#[export] Program Instance RecoveryDestination_laws : KeyValueLaws RecoveryDestination := {|
  kv_inv := rd_inv;
  kv_abs := fun d => view_abs (rd_view d);
  kv_budget := fun d => ms_budget (v_memtables (rd_view d))
|}.
Next Obligation.
  intros d key value Hi Hk Hv Hb. cbv beta in *. destruct (rd_exists_ok key d Hi Hk) as (d1 & E1 & Hi1 & Ha1 & Hm1).
  pose proof Hi1 as [[cat Hv1] Hl1]. rewrite <- Hm1 in Hb |- *.
  destruct (ms_put_spec key value (v_memtables (rd_view d1))) as (m' & Em & Hw); [apply Hv1|done|done|by apply budget_room|].
  destruct (rd_write d1 key _ _ m' (if bool_decide (is_Some (view_abs (rd_view d1) !! key)) then rd_live d1 else u64 (rd_live d1 + 1)) Hi1 Hw eq_refl)
    as [W1 W2].
  { rewrite Hl1. cbn [live_value e_deleted e_value]. rewrite size_insert_live.
    destruct (bool_decide (is_Some (view_abs (rd_view d1) !! key))); [by rewrite Z.add_0_r|by rewrite u64_add_l]. }
  eexists. split; [|split; [exact W1|]].
  - simpl. unfold rd_put, mbind, stm_bind, on_view_memtables, smodify. rewrite E1, Em, <- Ha1. cbn [rd_view rd_live].
    by destruct (bool_decide (is_Some (view_abs (rd_view d1) !! key))).
  - cbn [rd_view v_memtables]. rewrite W2, Ha1. split; [done|]. by eapply wrote_budget.
Qed.
Next Obligation.
  intros d key Hi Hk. simpl. apply (rd_get_ok key d Hi) in Hk as (d' & E & Hi' & Ha & Hm). exists d'. by rewrite E, Hm.
Qed.
Next Obligation.
  intros d key Hi Hk Hb. cbv beta in *. destruct (rd_exists_ok key d Hi Hk) as (d1 & E1 & Hi1 & Ha1 & Hm1).
  pose proof Hi1 as [[cat Hv1] Hl1]. rewrite <- Hm1 in Hb |- *. simpl.
  unfold rd_remove, mbind, stm_bind. rewrite E1. case_bool_decide as Hlive; cbn [negb].
  - destruct (ms_add_tombstone_spec key (v_memtables (rd_view d1))) as (m' & Em & Hw); [apply Hv1|done|by apply budget_room|].
    destruct (rd_write d1 key _ _ m' (u64 (rd_live d1 - 1)) Hi1 Hw eq_refl) as [W1 W2].
    { rewrite Hl1. cbn [live_value e_deleted]. rewrite size_delete_live, Ha1, bool_decide_eq_true_2 by done. by rewrite u64_sub_l. }
    eexists. split; [|split; [exact W1|]].
    + unfold on_view_memtables, smodify, mret, stm_ret. by rewrite Em.
    + cbn [rd_view v_memtables]. rewrite W2, Ha1. split; [done|]. by eapply wrote_budget.
  - unfold mret, stm_ret. exists d1. split_and!; [done|done| |lia]. rewrite Ha1, delete_id; [done|]. by apply eq_None_not_Some.
Qed.
Next Obligation.
  intros d key Hi Hk. simpl. apply (rd_exists_ok key d Hi) in Hk as (d' & E & Hi' & Ha & Hm). exists d'. by rewrite E, Hm.
Qed.
Next Obligation.
  intros d key value e Hi [Ek|[Ek Ev]]%validate_both_throw; cbv beta in *.
  - exists d. simpl. unfold rd_put, rd_exists, on_view, PersistentStore.latest_entry, mbind, stm_bind, sget, slift, ms_latest_entry.
    rewrite Ek. cbn. by destruct d.
  - apply validate_key_inv in Ek as Hk. destruct (rd_exists_ok key d Hi Hk) as (d1 & E1 & Hi1 & Ha1 & Hm1). exists d1.
    simpl. unfold rd_put, mbind, stm_bind, on_view_memtables. rewrite E1.
    rewrite (ms_put_rejects key value _ e) by (rewrite Ek; done).
    split_and!; [by destruct d1 as [[m1 sm1] l1]|done|done|by rewrite Hm1].
Qed.
Next Obligation.
  intros d key e Ek. simpl. unfold rd_get, on_view, PersistentStore.latest_entry, mbind, stm_bind, sget, slift, ms_latest_entry. rewrite Ek. by destruct d.
Qed.
Next Obligation.
  intros d key e Ek. simpl. unfold rd_remove, rd_exists, on_view, PersistentStore.latest_entry, mbind, stm_bind, sget, slift, ms_latest_entry.
  rewrite Ek. cbn. by destruct d.
Qed.
Next Obligation.
  intros d key e Ek. simpl. unfold rd_exists, on_view, PersistentStore.latest_entry, mbind, stm_bind, sget, slift, ms_latest_entry. rewrite Ek. by destruct d.
Qed.

(** ** The store *)

#[export] Instance PersistentKeyValueStore_store : KeyValueStore PersistentKeyValueStore := {|
  kv_put := ps_put;
  kv_get := ps_get;
  kv_remove := ps_remove;
  kv_exists := ps_exists
|}.

Lemma spare_capacity v : spare v <= capacity v.
Proof. unfold spare. lia. Qed.

#[export] Program Instance PersistentKeyValueStore_laws : KeyValueLaws PersistentKeyValueStore := {|
  kv_inv := fun s => store_inv s /\ quiet_store s;
  kv_abs := fun s => view_abs (ps_view s);
  kv_budget := fun s => spare (ps_view s)
|}.
Next Obligation.
  intros s key value [Hs Hq] Hk Hv Hb. cbv beta in *. destruct (ps_put key value s) as [r s'] eqn:E.
  pose proof (spare_capacity (ps_view s)).
  destruct (ps_put_spec key value s r s' Hs Hk Hv ltac:(lia) E) as [W1 W2 _ _ W5]. destruct (W5 Hq Hb) as (Hok & Q & Hsp).
  exists s'. destruct r as [[]|]; [|done]. destruct W2 as [W2|[? _]]; [|done]. by split_and!.
Qed.
Next Obligation.
  intros s key [Hs Hq] Hk. simpl. destruct (ps_get_ok key s Hs Hk) as (s' & E & Hlk). exists s'. rewrite E.
  split_and!; [done|apply Hlk|by apply Hlk|by apply looked_abs|apply Hlk].
Qed.
Next Obligation.
  intros s key [Hs Hq] Hk Hb. cbv beta in *. destruct (ps_remove key s) as [r s'] eqn:E. pose proof (spare_capacity (ps_view s)).
  pose proof (ps_remove_spec key s r s' Hs Hk ltac:(lia) E) as H1. exists s'. fold (has_key key s).
  destruct (has_key key s) eqn:Eh.
  - destruct H1 as [[W1 W2 _ _ W5] W6]. destruct (W5 Hq Hb) as (Hok & Q & Hsp). destruct r as [x|]; [|done].
    rewrite (W6 x eq_refl) in *. destruct W2 as [W2|[? _]]; [|done]. by split_and!.
  - destruct H1 as [-> Hlk]. rewrite (looked_abs _ _ Hlk), (lk_spare _ _ Hlk). unfold has_key in Eh. apply bool_decide_eq_false in Eh.
    split_and!; [done|apply Hlk|by apply Hlk| |lia]. rewrite delete_id; [done|]. by apply eq_None_not_Some.
Qed.
Next Obligation.
  intros s key [Hs Hq] Hk. simpl. destruct (ps_exists_ok key s Hs Hk) as (s' & E & Hlk). exists s'. rewrite E.
  split_and!; [done|apply Hlk|by apply Hlk|by apply looked_abs|apply Hlk].
Qed.
Next Obligation.
  intros s key value e Hi [Ek|[Ek Ev]]%validate_both_throw; exists s; simpl; unfold ps_put, mbind, stm_bind, slift;
    [by rewrite Ek|by rewrite Ek, Ev].
Qed.
Next Obligation. intros s key e Ek. simpl. unfold ps_get, mbind, stm_bind, slift. by rewrite Ek. Qed.
Next Obligation. intros s key e Ek. simpl. unfold ps_remove, mbind, stm_bind, slift. by rewrite Ek. Qed.
Next Obligation. intros s key e Ek. simpl. unfold ps_exists, mbind, stm_bind, slift. by rewrite Ek. Qed.

(** C8: while no system call fails, the persistent store is a finite map.
    Any sequence of puts, gets, removals and existence tests, with the
    rotations, flushes to tables, compactions and log resets they set off, is
    answered as the map of the specification answers it, rejected keys and
    values included; the store ends with the map's contents, and its count of
    keys is the number of keys of the map. *)
Theorem persistent_store_refines_map ops s :
  store_inv s -> quiet_store s -> zlen ops <= spare (ps_view s) ->
  exists s', kv_execs ops s = ((spec_execs ops (view_abs (ps_view s))).1, s') /\
    store_inv s' /\ quiet_store s' /\
    view_abs (ps_view s') = (spec_execs ops (view_abs (ps_view s))).2 /\
    ps_size s' = u64 (Z.of_nat (size (spec_execs ops (view_abs (ps_view s))).2)).
Proof.
  intros Hs Hq Hb. assert (kv_inv s) as Hi by exact (conj Hs Hq).
  destruct (kv_execs_refine ops s Hi Hb) as (s' & E & [Hs' Hq'] & Ha).
  exists s'. split_and!; try done. unfold ps_size. rewrite (si_live _ Hs'). do 3 f_equal. exact Ha.
Qed.


(** ** Sequences of calls under faults

    The calls of a client, with the outcomes of the system calls on the
    tables changing in any way in between; the log does not fail. *)

Definition with_table_faults (script : list io_event) (s : PersistentKeyValueStore) : PersistentKeyValueStore :=
  set_view (mkView (memtables_ s) (set_fs (fs_set_script script (sm_fs (sstables_ s))) (sstables_ s))) s.

Inductive store_run : PersistentKeyValueStore -> PersistentKeyValueStore -> Prop :=
| srun_start s : store_run s s
| srun_put s0 s key value r s' : store_run s0 s -> 0 < capacity (ps_view s) -> ps_put key value s = (r, s') -> store_run s0 s'
| srun_remove s0 s key r s' : store_run s0 s -> 0 < capacity (ps_view s) -> ps_remove key s = (r, s') -> store_run s0 s'
| srun_get s0 s key r s' : store_run s0 s -> ps_get key s = (r, s') -> store_run s0 s'
| srun_flush s0 s r s' : store_run s0 s -> ps_flush s = (r, s') -> store_run s0 s'
| srun_checkpoint s0 s r s' : store_run s0 s -> 0 < capacity (ps_view s) -> ps_checkpoint s = (r, s') -> store_run s0 s'
| srun_compact s0 s r s' : store_run s0 s -> 0 < capacity (ps_view s) -> ps_compact s = (r, s') -> store_run s0 s'
| srun_faults s0 s script : store_run s0 s -> store_run s0 (with_table_faults script s).

(** The state of a store in use: the log file is some records, whole, that
    cover what is in memory. *)
Definition logged (s : PersistentKeyValueStore) : Prop := store_inv s /\ exists rs, log_inv s rs.

Lemma logged_looked s s' : logged s -> looked s s' -> logged s'.
Proof. intros [_ [rs Hl]] Hlk. split; [apply Hlk|]. exists rs. by apply (lk_log _ _ Hlk). Qed.

Lemma logged_rejected {A} (r : result A) s s' e : logged s -> (Throw e, s) = (r, s') -> logged s'.
Proof. intros H E. by simplify_eq. Qed.

Lemma logged_faults script s : logged s -> logged (with_table_faults script s).
Proof.
  intros [[[cat Hv] Hl] [rs [L1 L2 L3 L4 L5 L6]]]. destruct s as [[m sm] lv rp wl au].
  unfold with_table_faults, set_view. cbn [ps_view memtables_ sstables_ v_memtables v_sstables ps_live_key_count ps_recovery_report ps_wal ps_automatic_compaction] in *.
  set (sm' := set_fs _ sm). pose proof (sm_inv_fs sm cat (vi_tables _ _ Hv) (fs_set_script script (sm_fs sm))) as Hi. fold sm' in Hi.
  pose proof (same_cat_map m sm sm' cat (vi_tables _ _ Hv) Hi) as Hm.
  split.
  - split; [exists cat; by apply (view_inv_manager m sm); [..|apply (vi_counters _ _ Hv)]|].
    cbn [ps_view ps_live_key_count]. unfold view_abs in *. by rewrite Hm.
  - exists rs. by split.
Qed.

Lemma logged_put key value s r s' : logged s -> 0 < capacity (ps_view s) -> ps_put key value s = (r, s') -> logged s'.
Proof.
  intros Hlg Hcap H. pose proof Hlg as [Hs [rs Hl]].
  destruct (validate_key key ≫= fun _ => validate_value value) as [u|e] eqn:E.
  - apply validate_both_inv in E as [Hk Hv]. destruct (ps_put_spec key value s r s' Hs Hk Hv Hcap H) as [W1 _ _ W4 _].
    split; [done|]. destruct (W4 rs Hl) as [_ [Hl'|Hl']]; eauto.
  - assert (ps_put key value s = (Throw e, s)) as Er.
    { apply validate_both_throw in E as [Ek|[Ek Ev]]; unfold ps_put, mbind, stm_bind, slift; [by rewrite Ek|by rewrite Ek, Ev]. }
    rewrite Er in H. by eapply logged_rejected.
Qed.

Lemma logged_remove key s r s' : logged s -> 0 < capacity (ps_view s) -> ps_remove key s = (r, s') -> logged s'.
Proof.
  intros Hlg Hcap H. pose proof Hlg as [Hs [rs Hl]]. destruct (validate_key key) as [u|e] eqn:E.
  - apply validate_key_inv in E. pose proof (ps_remove_spec key s r s' Hs E Hcap H) as W. destruct (has_key key s).
    + destruct W as [[W1 _ _ W4 _] _]. split; [done|]. destruct (W4 rs Hl) as [_ [Hl'|Hl']]; eauto.
    + destruct W as [_ Hlk]. by eapply logged_looked.
  - unfold ps_remove, mbind, stm_bind, slift in H. rewrite E in H. by eapply logged_rejected.
Qed.

Lemma logged_get key s r s' : logged s -> ps_get key s = (r, s') -> logged s'.
Proof.
  intros Hlg H. destruct (validate_key key) as [u|e] eqn:E.
  - apply validate_key_inv in E. destruct (ps_get_ok key s (proj1 Hlg) E) as (s1 & E1 & Hlk). rewrite E1 in H. simplify_eq.
    by eapply logged_looked.
  - unfold ps_get, mbind, stm_bind, slift in H. rewrite E in H. by eapply logged_rejected.
Qed.

Lemma store_run_logged s0 s : logged s0 -> store_run s0 s -> logged s.
Proof.
  intros H0 Hrun. induction Hrun as [s|s0 s key value r s' _ IH Hc H|s0 s key r s' _ IH Hc H|s0 s key r s' _ IH H
    |s0 s r s' _ IH H|s0 s r s' _ IH Hc H|s0 s r s' _ IH Hc H|s0 s script _ IH]; [done|..]; specialize (IH H0).
  - by eapply logged_put.
  - by eapply logged_remove.
  - by eapply logged_get.
  - destruct IH as [Hs [rs Hl]]. destruct (log_step_settled s r s' Hs H) as (St & _ & _ & L). split; [apply St|]. exists rs. by apply L.
  - destruct IH as [Hs [rs Hl]]. destruct (ps_checkpoint_spec s r s' Hs Hc H) as (C1 & _ & _ & C4 & _). split; [done|]. destruct (C4 rs Hl); eauto.
  - destruct IH as [Hs [rs Hl]]. destruct (ps_compact_spec s r s' Hs Hc H) as (C1 & _ & _ & C4 & _). split; [done|]. destruct (C4 rs Hl); eauto.
  - by apply logged_faults.
Qed.


(** A checkpoint moves everything to the tables.  When [checkpoint]
    returns, the contents are what they were, all of them are in the tables,
    and the log is empty, durably; it returns when no system call fails. *)
Theorem checkpoint_empties_log s rs r s' :
  store_inv s -> log_inv s rs -> 0 < capacity (ps_view s) -> ps_checkpoint s = (r, s') ->
  view_abs (ps_view s') = view_abs (ps_view s) /\
  (r = Ok tt -> disk_abs (sstables_ s') = view_abs (ps_view s) /\ f_data (ww_file (ps_wal s')) = []) /\
  (quiet_tables s -> 0 < spare (ps_view s) -> r = Ok tt).
Proof.
  intros Hs Hl Hcap H. destruct (ps_checkpoint_spec s r s' Hs Hcap H) as (C1 & C2 & _ & _ & C5 & C6). split_and!; [done| |].
  - intros Hr. destruct (C5 Hr) as [D1 D2]. split; [done|]. by rewrite (li_data _ _ (D2 rs Hl)).
  - intros Hq Hsp. destruct Hl as [_ _ _ L4 _ _]. by destruct (C6 (conj Hq L4) Hsp).
Qed.


(** ** Witnesses *)

(** A new store on an empty disk. *)
Definition demo_memory : MemTableSet := mkMemTableSet 150 (mt_new 0) [] 1 0 0.
Definition demo_store : PersistentKeyValueStore :=
  mkStore (mkView demo_memory demo_manager) 0 empty_report (mkWalWriter (mkWFile [] [] []) Sync false false None 0) true.

Lemma demo_store_inv : store_inv demo_store.
Proof.
  assert (Hm : ms_new (mkMemTableOptions 150 0 0) = Ok demo_memory) by (vm_compute; reflexivity).
  destruct (ms_new_inv _ _ Hm) as (Hi & _ & Ha); [unfold u64_max; simpl; lia..|].
  split.
  - exists []. split; [exact demo_manager_inv|exact Hi| | | |].
    + intros es k e kv H. by apply not_elem_of_nil in H.
    + intros es k e H. by apply not_elem_of_nil in H.
    + intros c H. by apply not_elem_of_nil in H.
    + vm_compute. repeat split; discriminate.
  - vm_compute. reflexivity.
Qed.

Lemma demo_store_log : log_inv demo_store [].
Proof.
  split; [constructor|reflexivity| | |done|].
  - by apply (wal_open_inv false 100 Sync [] []).
  - by split.
  - intros k. reflexivity.
Qed.

Lemma demo_store_quiet : quiet_store demo_store.
Proof. split; [vm_compute; reflexivity|apply demo_store_log]. Qed.

Lemma demo_capacity : 0 < capacity (ps_view demo_store) /\ 1000 <= spare (ps_view demo_store).
Proof. vm_compute. split; [reflexivity|discriminate]. Qed.

(** Four writes, a removal and reads, with the flushes and the compaction
    they set off; the last key is too long. *)
Lemma persistent_store_refines_map_witness :
  let ops := [KPut (bytes_of "a") (bytes_of "1"); KPut (bytes_of "b") (bytes_of "2"); KPut (bytes_of "c") (bytes_of "3");
              KRemove (bytes_of "a"); KPut (bytes_of "b") (bytes_of "4"); KGet (bytes_of "a"); KGet (bytes_of "b"); KExists []] in
  exists s', kv_execs ops demo_store
    = ([APut (Ok tt); APut (Ok tt); APut (Ok tt); ARemove (Ok true); APut (Ok tt); AGet (Ok None); AGet (Ok (Some (bytes_of "4")));
        AExists (Throw (InvalidArgument "NebulaKV keys must not be empty"))], s') /\ ps_size s' = 2.
Proof.
  intros ops. assert (H0 : view_abs (ps_view demo_store) = ∅) by (vm_compute; reflexivity).
  assert (Hb : zlen ops <= spare (ps_view demo_store)) by (vm_compute; discriminate).
  destruct (persistent_store_refines_map ops demo_store demo_store_inv demo_store_quiet Hb) as (s' & E & _ & _ & _ & Hn).
  rewrite H0 in E, Hn. exists s'. split; [exact E|]. rewrite Hn. vm_compute. reflexivity.
Defined.

Lemma demo_logged : logged demo_store.
Proof. split; [apply demo_store_inv|]. exists []. apply demo_store_log. Qed.

(** The memory table overflows and the call that creates its file fails: the
    write throws, and its key is there. *)
Definition demo_faulty : PersistentKeyValueStore := with_table_faults [Failed 28] demo_store.
Definition demo_value : str := repeat "v"%byte 200.

Lemma demo_valid : valid_key (bytes_of "a") /\ valid_value demo_value.
Proof. by vm_compute. Qed.


(** The write whose flush fails, and a checkpoint that succeeds. *)
Definition demo_failed : PersistentKeyValueStore := (ps_put (bytes_of "a") demo_value demo_faulty).2.
Definition demo_retried : PersistentKeyValueStore := (ps_checkpoint (with_table_faults [] demo_failed)).2.

Lemma demo_failed_run : store_run demo_store demo_failed.
Proof.
  assert (Hc : 0 < capacity (ps_view demo_faulty)) by (vm_compute; reflexivity).
  exact (srun_put _ _ _ _ _ _ (srun_faults _ _ _ (srun_start _)) Hc (surjective_pairing _)).
Qed.

Lemma demo_retried_run : store_run demo_store demo_retried.
Proof.
  assert (Hc : 0 < capacity (ps_view (with_table_faults [] demo_failed))) by (vm_compute; reflexivity).
  exact (srun_checkpoint _ _ _ _ (srun_faults _ _ [] demo_failed_run) Hc (surjective_pairing _)).
Qed.


Lemma checkpoint_empties_log_witness :
  let s := (ps_put (bytes_of "a") (bytes_of "1") demo_store).2 in
  f_data (ww_file (ps_wal s)) <> [] /\ (ps_checkpoint s).1 = Ok tt /\
  disk_abs (sstables_ (ps_checkpoint s).2) = <[bytes_of "a" := bytes_of "1"]> ∅ /\
  f_data (ww_file (ps_wal (ps_checkpoint s).2)) = [].
Proof.
  intros s. assert (Hn : f_data (ww_file (ps_wal s)) <> []) by (vm_compute; discriminate).
  assert (Hc : 0 < capacity (ps_view s)) by (vm_compute; reflexivity).
  assert (Hp : 0 < spare (ps_view s)) by (vm_compute; reflexivity).
  assert (Hq : quiet_tables s) by (vm_compute; reflexivity).
  assert (Ha : view_abs (ps_view s) = <[bytes_of "a" := bytes_of "1"]> ∅) by (vm_compute; reflexivity).
  assert (Hlg : logged s) by (eapply logged_put; [apply demo_logged|apply demo_capacity|apply surjective_pairing]).
  destruct Hlg as [Hs [rs Hl]].
  destruct (checkpoint_empties_log s rs _ _ Hs Hl Hc (surjective_pairing _)) as (_ & H2 & H3).
  specialize (H3 Hq Hp). rewrite <- Ha. exact (conj Hn (conj H3 (H2 H3))).
Defined.

