(* ===== verification/StoreDisk.v ===== *)
(** * What the tables leave on disk

    The list of open tables of src/sstable_manager.cpp and the files in its
    directory: between two calls that returned, CURRENT names the manifest of
    the list in force, and every table of the list is on disk, durably, in
    each state of the directory that a crash could bring back.  The calls are
    those of [SstManager]; what they do to the list itself is in
    [ManagerInv]. *)

From S2P Require Import Prelude OrderedMap Codec Posix FileSystem Path Store MemTable MemTableSet.
From S2P Require Import WalFormat WalReader WalWriter Recovery BloomFilter BlockCache SstFormat SstWriter SstReader Manifest SstManager.
From S2P Require Import TableView OpenTables Compaction ManagerInv ManagerCost PersistentStore StoreInv StoreRefinement.

(** ** Files no crash can take away *)

Definition kept (f : Fs) (n bs : str) : Prop :=
  forall d, d ∈ fs_dir f :: fs_old f -> d !! n = Some (mkFileData bs bs).

Lemma kept_now f n bs : kept f n bs -> contents f n = Some bs.
Proof. intros H. unfold contents. by rewrite (H (fs_dir f)) by by left. Qed.

Lemma kept_synced f n bs : fs_dir f !! n = Some (mkFileData bs bs) -> fs_old f = [] -> kept f n bs.
Proof. intros H Ho d Hd. rewrite Ho in Hd. by apply list_elem_of_singleton in Hd as ->. Qed.

Lemma kept_same ns f f' n bs :
  fs_same_except ns f f' -> fs_old f' = [] -> n ∉ ns -> kept f n bs -> kept f' n bs.
Proof. intros Hs Ho Hn H. apply kept_synced; [|done]. rewrite Hs by done. apply H. by left. Qed.

Lemma kept_crash f n bs files :
  kept f n bs -> crash_state (mkSnapshot (fs_dir f) (fs_old f)) files -> files !! n = Some bs.
Proof.
  intros H (d & Hd & Hf). specialize (Hf n). simpl in Hd. rewrite (H d) in Hf by (apply elem_of_cons; naive_solver).
  destruct (files !! n) as [b|]; [|done]. simpl in Hf. f_equal. destruct Hf. by apply (anti_symm prefix).
Qed.

Lemma kept_remove path f r f' n bs :
  fs_remove path f = (r, f') -> n <> path -> kept f n bs -> kept f' n bs.
Proof.
  intros H Hn Hk. unfold fs_remove in H.
  assert (Hc : forall g, fs_dir g = fs_dir f -> fs_old g = fs_old f -> kept (fs_change (delete path (fs_dir f)) g) n bs).
  { intros g G1 G2 d Hd. unfold fs_change in Hd. simpl in Hd. rewrite G1, G2 in Hd.
    apply elem_of_cons in Hd as [->|Hd]; [|by apply Hk]. rewrite lookup_delete_ne by done. apply Hk. by left. }
  destruct (fs_script f) as [|[] s]; simplify_eq; try done; by apply Hc.
Qed.

Lemma kept_remove_files paths b f r f' n bs :
  remove_files paths b f = (r, f') -> n ∉ paths -> kept f n bs -> kept f' n bs.
Proof.
  revert b f. induction paths as [|p paths IH]; intros b f H Hn Hk; simpl in H.
  { unfold mret, stm_ret in H. by simplify_eq. }
  apply not_elem_of_cons in Hn as [Hn1 Hn2]. unfold mbind, stm_bind in H. destruct (fs_remove p f) as [r1 f1] eqn:E1.
  pose proof (kept_remove _ _ _ _ _ _ E1 Hn1 Hk) as Hk1. destruct r1; [by eapply IH|by simplify_eq].
Qed.

Lemma kept_call on_error f r f' n bs : fs_call on_error f = (r, f') -> kept f n bs -> kept f' n bs.
Proof. intros (H1 & H2 & _)%fs_call_inv Hk. unfold kept. by rewrite H1, H2. Qed.

Lemma kept_sync f r f' n bs : sync_directory f = (r, f') -> kept f n bs -> kept f' n bs.
Proof.
  intros H Hk. unfold sync_directory, fs_sync_directory in H. unfold mbind, stm_bind in H.
  destruct (fs_call _ f) as [r1 f1] eqn:E1. pose proof (kept_call _ _ _ _ _ _ E1 Hk) as Hk1.
  destruct r1 as [[]|]; [|by simplify_eq]. destruct (fs_retry _ f1) as [r2 f2] eqn:E2. apply fs_retry_inv in E2 as (R1 & R2 & _).
  assert (Hk2 : kept f2 n bs) by (unfold kept; by rewrite R1, R2).
  destruct r2 as [[]|]; [|by simplify_eq]. unfold smodify in H. eapply kept_call; [exact H|].
  apply kept_synced; [|done]. apply Hk2. by left.
Qed.

(** ** The list in force on disk *)

(** The manifest in force, with [n] the next file number it records and [mds]
    the tables it lists. *)
Definition manifest_of (s : SSTableManager) (n : Z) (mds : list SSTableMetadata) : ManifestSnapshot :=
  mkManifest (current_generation_ (sm_manifest s)) n (map bare mds).

Definition current_bytes (g : Z) : str := append_checksum (current_payload (manifest_filename g)).

Record listed (s : SSTableManager) (n : Z) (mds : list SSTableMetadata) : Prop := {
  ls_tables : mds ≡ₚ SstManager.metadata_for (sm_readers s);
  ls_wf : snapshot_wf (manifest_of s n mds);
  ls_manifest : kept (sm_fs s) (manifest_path (sm_manifest s) (current_generation_ (sm_manifest s)))
                  (append_checksum (manifest_payload (manifest_of s n mds)));
  ls_current : kept (sm_fs s) (current_path_ (sm_manifest s)) (current_bytes (current_generation_ (sm_manifest s)));
  ls_next : n <= sm_next_file_id s;
  ls_names : forall t, t ∈ sm_readers s -> name_ok (directory_ (sm_manifest s)) n (md_path (mg_metadata t))
}.

(** A table and its file. *)
Definition stored (f : Fs) (t : ManagedTable) : Prop :=
  sst_path (md_path (mg_metadata t)) /\ kept f (md_path (mg_metadata t)) (rd_file (mg_reader t)).

Record on_disk (s : SSTableManager) : Prop := {
  od_tables : forall t, t ∈ sm_readers s -> stored (sm_fs s) t;
  od_listed : exists n mds, listed s n mds
}.

(** What leaves the list alone. *)
Lemma on_disk_same s s' :
  sm_fs s' = sm_fs s -> sm_manifest s' = sm_manifest s -> sm_readers s' = sm_readers s ->
  sm_next_file_id s <= sm_next_file_id s' -> on_disk s -> on_disk s'.
Proof.
  intros H1 H2 H3 H4 [T (n & mds & [L0 L1 L2 L3 L4 L5])]. split; [by rewrite H1, H3|]. exists n, mds.
  unfold manifest_of in *. split; unfold manifest_of; rewrite ?H1, ?H2, ?H3; try done. lia.
Qed.

(** A change of other files. *)
Lemma on_disk_files s f' :
  (forall n bs, (exists t, t ∈ sm_readers s /\ n = md_path (mg_metadata t)) \/
     n = manifest_path (sm_manifest s) (current_generation_ (sm_manifest s)) \/ n = current_path_ (sm_manifest s) ->
     kept (sm_fs s) n bs -> kept f' n bs) ->
  on_disk s -> on_disk (set_fs f' s).
Proof.
  intros Hf [T (n & mds & [L0 L1 L2 L3 L4 L5])]. split.
  - intros t Ht. destruct (T t Ht) as [S1 S2]. split; [done|]. apply Hf; [left; by exists t|done].
  - exists n, mds. split; try done; (apply Hf; [|done]); [by right; left|by right; right].
Qed.

(** ** Committing a list *)

Lemma serialize_manifest_count s bs : serialize_manifest s = Ok bs -> zlen (mf_tables s) <= kMaximumManifestTables.
Proof. unfold serialize_manifest. intros H. inv_ok. zbool. lia. Qed.

(** A commit that returned: the two files it wrote, and nothing else. *)
Lemma commit_files m tables next_file_id f sn m' f' :
  snapshot_wf (next_snapshot m tables next_file_id) -> commit m tables next_file_id f = (Ok (sn, m'), f') ->
  let new := next_snapshot m tables next_file_id in
  m' = mkManifestManager (directory_ m) (manifest_path m (mf_generation new)) (mf_generation new) /\
  fs_old f' = [] /\
  fs_dir f' !! manifest_path m (mf_generation new) =
    Some (mkFileData (append_checksum (manifest_payload new)) (append_checksum (manifest_payload new))) /\
  fs_dir f' !! current_path_ m = Some (mkFileData (current_bytes (mf_generation new)) (current_bytes (mf_generation new))) /\
  fs_same_except [metadata_tmp (manifest_path m (mf_generation new)); manifest_path m (mf_generation new);
                  metadata_tmp (current_path_ m); current_path_ m] f f'.
Proof.
  intros Hw H. set (new := next_snapshot m tables next_file_id) in *. cbv zeta.
  rewrite commit_unfold in H by done. unfold mbind, stm_bind, mret, stm_ret in H. fold new in H.
  destruct (atomic_write _ _ f) as [[[]|e] f1] eqn:E1; [|done].
  destruct (atomic_write (current_path_ m) _ f1) as [[[]|e] f2] eqn:E2; [|done]. simplify_eq.
  destruct (atomic_write_spec _ _ _ _ _ E1) as [(S1 & _) K1]. destruct (K1 eq_refl) as [D1 O1].
  destruct (atomic_write_spec _ _ _ _ _ E2) as [(S2 & _) K2]. destruct (K2 eq_refl) as [D2 O2].
  split_and!; try done.
  - rewrite S2; [done|]. apply manifest_not_current_file.
  - intros n Hn. rewrite !not_elem_of_cons in Hn. destruct Hn as (N1 & N2 & N3 & N4 & _).
    rewrite S2, S1; [done|rewrite !not_elem_of_cons..]; split_and!; try done; apply not_elem_of_nil.
Qed.

(** The parts of a commit that returned. *)
Lemma commit_checks m tables next_file_id f sn m' f' :
  commit m tables next_file_id f = (Ok (sn, m'), f') ->
  current_generation_ m <> u64_max /\ zlen tables <= kMaximumManifestTables.
Proof.
  unfold commit. intros H. unfold mbind, stm_bind, slift in H.
  destruct (throw_if _ _) as [[]|] eqn:E1; [|done]. apply throw_if_Ok in E1. zbool. split; [done|]. cbv zeta in H.
  destruct (serialize_manifest _) as [bs|] eqn:E2; [|done]. apply serialize_manifest_count in E2. simpl in E2.
  unfold zlen in *. by rewrite length_map in E2.
Qed.

(** A publication that returned puts its list on disk. *)
Lemma publish_disk s s' tables live cat' :
  publish_tables_locked tables live s = (Ok tt, s') -> sm_inv s' cat' ->
  0 <= current_generation_ (sm_manifest s) <= u64_max ->
  (forall t, t ∈ tables -> stored (sm_fs s) t) -> on_disk s'.
Proof.
  intros H Hinv Hg Ht. unfold publish_tables_locked, mbind, stm_bind, slift in H.
  destruct (validate_level1_ranges _) as [[]|]; [|done]. destruct (next_generation_of _) as [ng|]; [|done].
  unfold on_manifest, mbind, stm_bind, sget, on_fs in H. destruct (commit _ _ _ (sm_fs s)) as [[[sn m']|] f1] eqn:Ec; [|done].
  unfold smodify in H. simplify_eq. set (s' := set_rs _ _) in *. set (ts := sort_tables tables) in *.
  assert (Hr : sm_readers s' = ts) by done.
  destruct (commit_checks _ _ _ _ _ _ _ Ec) as [C1 C2].
  assert (Hcat : ts = map managed cat') by (rewrite <- Hr; apply Hinv).
  assert (Hwf : snapshot_wf (next_snapshot (sm_manifest s) (SstManager.metadata_for ts) (sm_next_file_id s))).
  { rewrite Hcat. apply next_snapshot_wf with (directory := so_directory (sm_options s)); try apply Hinv; [lia|].
    rewrite Hcat in C2. unfold SstManager.metadata_for, zlen in *. by rewrite !length_map in C2. }
  destruct (commit_files _ _ _ _ _ _ _ Hwf Ec) as (-> & F1 & F2 & F3 & F4). set (g := mf_generation _) in *.
  assert (Hst : forall t, t ∈ ts -> stored f1 t).
  { intros t Hin. assert (Hin' : t ∈ tables) by (unfold ts, sort_tables in Hin; by rewrite sort_by_perm in Hin).
    destruct (Ht t Hin') as [S1 S2]. split; [done|]. eapply kept_same; [exact F4|done| |exact S2].
    destruct (table_untouched (directory_ (sm_manifest s)) g _ S1) as [U1 U2]. rewrite !not_elem_of_cons in U1. rewrite !not_elem_of_cons in U2.
    destruct U1 as (? & ? & _), U2 as (? & ? & _). rewrite !not_elem_of_cons. split_and!; try done; apply not_elem_of_nil. }
  split; [exact Hst|]. exists (sm_next_file_id s), (SstManager.metadata_for ts). split; try done.
  - by apply kept_synced.
  - by apply kept_synced.
  - intros t Hin. rewrite Hr, Hcat in Hin. apply list_elem_of_In, in_map_iff in Hin as (c & <- & Hc%list_elem_of_In).
    pose proof (sv_names _ _ Hinv) as Hn. rewrite Forall_forall in Hn. pose proof (sv_directory _ _ Hinv) as Hd. simpl in Hd.
    cbn [sm_manifest s' set_rs bump_version set_counters set_readers set_manifest directory_]. rewrite Hd. by apply (Hn c).
Qed.

(** ** Writing a table *)

(** The name of a table's file is not one of the others a write touches. *)
Lemma table_path_sst o level id g sq : sst_path (table_path o level id g sq).
Proof.
  destruct (path_join_prefix (so_directory o)) as [pre Hp]. unfold table_path. rewrite Hp by apply table_filename_plain.
  unfold table_filename. exists (pre ++ bytes_of "sstable-" ++ level_name level ++ bytes_of "-f" ++ pad20 id ++ bytes_of "-g" ++
    pad20 g ++ bytes_of "-s" ++ pad20 sq). by rewrite <- !app_assoc.
Qed.

Lemma sst_not_tmp p q : sst_path p -> p <> temporary_path_for q.
Proof. intros H%sst_last ->. unfold temporary_path_for in H. by rewrite last_app in H. Qed.

Lemma write_table_disk s cat entries level generation id m rd s' :
  sm_inv s cat -> on_disk s -> om_wf entries -> Forall wf_entry entries -> entries <> [] -> zlen entries <= u32_max ->
  is_u64 generation -> write_table entries level generation s = (Ok (id, m, rd), s') ->
  on_disk s' /\ sm_manifest s' = sm_manifest s /\ sm_readers s' = sm_readers s /\
  forall l, stored (sm_fs s') (mkManaged rd l).
Proof.
  intros Hinv Hod Hwf He Hne Hlen Hgen H.
  destruct (write_table_spec _ _ _ _ _ _ _ Hinv Hwf He Hne Hlen Hgen H) as (Hinv' & _ & Hm & _ & Hid & Hmade & _).
  clear Hmade.
  unfold write_table, mbind, stm_bind in H. destruct (reserve_file_id s) as [r0 s0] eqn:E0.
  destruct (reserve_spec _ _ _ _ Hinv E0) as (Hinv0 & Ho0 & Hf0 & Hm0 & _ & Hr0).
  destruct r0 as [i|]; [|done]. unfold sget in H. rewrite Ho0 in H. destruct Hr0 as (Hi & _ & _).
  set (path := table_path (sm_options s) level i generation (SstManager.max_sequence_of entries)) in *.
  set (wo := mkWriterOptions path generation (so_target_data_block_bytes (sm_options s))) in *.
  assert (W : writable entries wo).
  { apply writable_intro; try done; [|apply (ok_target _ (sv_options _ _ Hinv))]. apply path_join_ne, table_filename_plain. }
  unfold on_fs in H. rewrite Hf0 in H. destruct (sst_write entries wo (sm_fs s)) as [r1 f1] eqn:E1.
  destruct (sst_write_spec entries wo W _ _ _ E1) as (lo & hi & Ec & (Hsame & _) & Hok).
  destruct r1 as [m1|]; [|done]. destruct (Hok m1 eq_refl) as (-> & Hdir & Hold). unfold slift in H.
  destruct (build_bloom_filter (sm_options s) entries) as [bloom|] eqn:Eb; [|done].
  pose proof (sm_inv_fs _ _ Hinv0 f1) as Hinv1.
  destruct (open_written (map fst cat) entries wo lo hi (Some bloom) f1 (sm_rs (set_fs f1 s0)) W Ec) as [Hoo (st' & Eo & Hg')].
  { unfold contents. by rewrite Hdir. }
  { eapply build_bloom_ok, Eb. apply (sv_options _ _ Hinv). }
  { apply Hinv1. }
  unfold open_table, mbind, stm_bind, sget, on_rs in H. cbn [SstWriter.metadata_for md_path sm_fs set_fs] in H.
  rewrite Eo in H. unfold mret, stm_ret in H.
  assert (Hnew : forall l, stored f1 (mkManaged (op_reader (written entries wo lo hi (Some bloom))) l)).
  { intros l. split; [apply table_path_sst|]. apply kept_synced; [exact Hdir|done]. }
  remember (op_reader (written entries wo lo hi (Some bloom))) as rd1 eqn:Hrd1. clear Hrd1. injection H as <- <- <- <-.
  split_and!; [|done| |exact Hnew].
  2:{ cbn [sm_readers set_rs set_fs]. by rewrite (sv_readers _ _ Hinv0), (sv_readers _ _ Hinv). }
  eapply (on_disk_same (set_fs f1 s)); try done.
  { cbn [sm_readers set_rs set_fs]. by rewrite (sv_readers _ _ Hinv0), (sv_readers _ _ Hinv). }
  apply on_disk_files; [|done]. intros n bs Hn Hk. eapply kept_same; [exact Hsame|done| |exact Hk].
  rewrite !not_elem_of_cons. change (output_path wo) with path.
  assert (Hsst : sst_path path) by apply table_path_sst.
  destruct Hn as [(t & Ht & ->)|Hn].
  - destruct (od_tables _ Hod t Ht) as [St _]. split_and!; [by apply sst_not_tmp| |apply not_elem_of_nil].
    intros E. rewrite (sv_readers _ _ Hinv) in Ht. apply list_elem_of_In, in_map_iff in Ht as (c & <- & Hc%list_elem_of_In).
    apply (new_path_fresh s cat level i generation (SstManager.max_sequence_of entries) Hinv (eq_sym Hi) c Hc). unfold op_id. f_equal. symmetry. exact E.
  - destruct (table_untouched (directory_ (sm_manifest s)) (current_generation_ (sm_manifest s)) _ Hsst) as [U1 U2].
    rewrite !not_elem_of_cons in U1. rewrite !not_elem_of_cons in U2.
    assert (Hlast : last n <> Some x70).
    { destruct Hn as [->| ->]; unfold manifest_path, current_path_; rewrite join_last; try done; try apply manifest_filename_bare.
      unfold manifest_filename. rewrite last_app. destruct (last (pad20 _)) as [b|] eqn:El; [|done]. intros [= ->].
      apply last_Some in El as [l El]. apply (pad20_no x70 (current_generation_ (sm_manifest s))); [by vm_compute; intros []|].
      rewrite El. apply elem_of_app. right. by left. }
    split_and!; [| |apply not_elem_of_nil].
    + intros ->. apply Hlast. unfold temporary_path_for. by rewrite last_app.
    + intros ->. destruct Hn as [Hn|Hn]; [by destruct U1 as (_ & U1 & _)|by destruct U2 as (_ & U2 & _)].
Qed.

(** ** Flushing *)

Lemma on_rs_disk s st : on_disk s -> on_disk (set_rs st s).
Proof. apply on_disk_same; [done..|]. simpl. lia. Qed.

Lemma flush_disk s cat t m s' cat' :
  sm_inv s cat -> on_disk s -> counters_ok s -> mt_inv t -> entries_ t <> [] -> zlen (entries_ t) <= u32_max ->
  is_u64 (generation_ t) -> sm_inv s' cat' -> SstManager.flush t s = (Ok m, s') -> on_disk s'.
Proof.
  intros Hinv Hod Hc Ht Hne Hlen Hgen Hinv' H. unfold SstManager.flush, mbind, stm_bind, slift in H.
  destruct (throw_if _ _) as [[]|]; [|done]. destruct (throw_if _ _) as [[]|]; [|done]. unfold mt_snapshot in H.
  destruct (write_table _ _ _ s) as [[[[id m1] rd]|] s1] eqn:E1; [|done].
  destruct (write_table_disk s cat _ _ _ _ _ _ _ Hinv Hod ltac:(apply Ht) ltac:(apply Ht) Hne Hlen Hgen E1) as (Hod1 & Hm1 & Hr1 & Hst).
  destruct (flush_loop _ _ _ s1) as [[[]|] s2] eqn:E2; [|done]. unfold mret, stm_ret in H. simplify_eq.
  cbn [flush_loop kFlushTurns] in E2. unfold flush_attempt, on_rs, mbind, stm_bind, sget in E2.
  destruct (live_count_after_flush _ _ _ _) as [[live|] st]; [|done]. destruct (negb _); [done|].
  destruct (publish_tables_locked _ _ _) as [[[]|] s3] eqn:E3; [|done]. unfold mret, stm_ret in E2. simplify_eq.
  destruct Hc as [C1 C2]. unfold manifest_generation in C2.
  eapply publish_disk; [exact E3|exact Hinv'|cbn [sm_manifest set_rs]; rewrite Hm1; lia|].
  intros u [Hu|Hu%list_elem_of_singleton]%elem_of_app; [by apply (od_tables _ Hod1)|]. subst u. apply Hst.
Qed.

(** ** Compaction *)

Lemma obsolete_path sel out readers new obsolete p :
  replace_tables sel out readers = Ok (new, obsolete) -> p ∈ obsolete ->
  exists t, t ∈ readers /\ mg_path t ∈ paths_of sel /\ p = md_path (mg_metadata t).
Proof.
  unfold replace_tables. intros H Hp. inv_ok. simplify_eq. apply list_elem_of_In, in_map_iff in Hp as (t & <- & Ht).
  apply filter_In in Ht as [Ht%list_elem_of_In Hb]. apply bool_decide_eq_true in Hb. by exists t.
Qed.

Lemma surviving_path sel out readers new obsolete t :
  replace_tables sel out readers = Ok (new, obsolete) -> t ∈ new ->
  (t ∈ readers /\ mg_path t ∉ paths_of sel) \/ out = Some t.
Proof.
  unfold replace_tables. intros H Ht. inv_ok. simplify_eq. apply elem_of_app in Ht as [Ht|Ht].
  - apply list_elem_of_In, filter_In in Ht as [Ht%list_elem_of_In Hb]. left. split; [done|].
    apply negb_true_iff, bool_decide_eq_false in Hb. done.
  - right. destruct out; [|by apply not_elem_of_nil in Ht]. by apply list_elem_of_singleton in Ht as ->.
Qed.

Lemma sm_inv_unfs s f cat : sm_inv (set_fs f s) cat -> sm_inv s cat.
Proof. intros H. pose proof (sm_inv_fs _ _ H (sm_fs s)) as H'. by destruct s. Qed.
Lemma sm_inv_unstat s c cat : sm_inv (set_statistics c s) cat -> sm_inv s cat.
Proof. intros [H1 H2 H3 H4 H5 H6 H7 H8 H9 H10]. by split. Qed.

Lemma publish_readers tables live s s' :
  publish_tables_locked tables live s = (Ok tt, s') -> sm_readers s' = sort_tables tables.
Proof.
  unfold publish_tables_locked, on_manifest, mbind, stm_bind, slift, sget, on_fs, smodify. intros H.
  destruct (validate_level1_ranges _) as [[]|]; [|done]. destruct (next_generation_of _); [|done].
  destruct (commit _ _ _ _) as [[[sn m']|] f1]; [|done]. by simplify_eq.
Qed.

(** The last steps of a compaction that returned. *)
Lemma finish_disk s tables live g obsolete (a : CompactionResult) r s' cat' :
  (_ ← publish_tables_locked tables live;
   _ ← smodify (fun s => set_statistics (g s) s);
   removed_any ← on_fs (remove_files obsolete false);
   _ ← (if (removed_any : bool) then on_fs sync_directory else mret tt);
   mret a) s = (Ok r, s') ->
  sm_inv s' cat' -> 0 <= current_generation_ (sm_manifest s) <= u64_max ->
  (forall t, t ∈ tables -> stored (sm_fs s) t) ->
  (forall p, p ∈ obsolete -> sst_path p /\ forall t, t ∈ tables -> md_path (mg_metadata t) <> p) ->
  on_disk s'.
Proof.
  intros H Hinv Hg Ht Hob. unfold mbind, stm_bind in H.
  destruct (publish_tables_locked tables live s) as [[[]|] s1] eqn:E1; [|done]. unfold smodify at 1 in H.
  set (s2 := set_statistics (g s1) s1) in *. unfold on_fs at 1 in H.
  destruct (remove_files obsolete false (sm_fs s2)) as [[b|] f3] eqn:E3; [|done].
  set (s3 := set_fs f3 s2) in *.
  assert (Hend : exists f4, s' = set_fs f4 s3 /\ forall n bs, kept f3 n bs -> kept f4 n bs).
  { destruct b.
    - unfold on_fs in H. destruct (sync_directory (sm_fs s3)) as [[[]|] f4] eqn:E4; [|done].
      unfold mret, stm_ret in H. simplify_eq. exists f4. split; [done|]. intros n bs. by apply (kept_sync _ _ _ _ _ E4).
    - unfold mret, stm_ret in H. simplify_eq. by exists f3. }
  destruct Hend as (f4 & -> & Hk4). assert (Hinv1 : sm_inv s1 cat') by by apply sm_inv_unfs, sm_inv_unfs, sm_inv_unstat in Hinv.
  pose proof (publish_disk s s1 tables live cat' E1 Hinv1 Hg Ht) as Hod1.
  assert (Hod2 : on_disk s2) by by (eapply on_disk_same, Hod1).
  assert (Hperm : forall t, t ∈ sm_readers s2 -> t ∈ tables).
  { intros t Hin. change (sm_readers s2) with (sm_readers s1) in Hin. rewrite (publish_readers _ _ _ _ E1) in Hin.
    unfold sort_tables in Hin. by rewrite sort_by_perm in Hin. }
  change (set_fs f4 s3) with (set_fs f4 s2). apply on_disk_files; [|done]. intros n bs Hn Hk. apply Hk4.
  eapply kept_remove_files; [exact E3| |exact Hk]. intros Hin. destruct (Hob n Hin) as [Hs Hne].
  destruct Hn as [(t & Hin' & ->)|Hn]; [by apply (Hne t); [apply Hperm|]|].
  destruct (table_untouched (directory_ (sm_manifest s2)) (current_generation_ (sm_manifest s2)) n Hs) as [U1 U2].
  rewrite !not_elem_of_cons in U1. rewrite !not_elem_of_cons in U2. destruct U1 as (_ & U1 & _), U2 as (_ & U2 & _). by destruct Hn.
Qed.

Lemma write_output_disk s cat entries generation out id s' :
  sm_inv s cat -> on_disk s -> om_wf entries -> Forall wf_entry entries -> zlen entries <= u32_max -> is_u64 generation ->
  write_output entries generation s = (Ok (out, id), s') ->
  on_disk s' /\ sm_manifest s' = sm_manifest s /\ sm_readers s' = sm_readers s /\ forall t, out = Some t -> stored (sm_fs s') t.
Proof.
  intros Hinv Hod Hwf He Hlen Hgen H. unfold write_output in H. destruct (is_nil entries) eqn:En.
  { unfold mret, stm_ret in H. by simplify_eq. }
  apply is_nil_false in En. unfold mbind, stm_bind in H. destruct (write_table _ _ _ s) as [[[[i m] rd]|] s1] eqn:E1; [|done].
  destruct (write_table_disk _ _ _ _ _ _ _ _ _ Hinv Hod Hwf He En Hlen Hgen E1) as (H1 & H2 & H3 & H4).
  unfold mret, stm_ret in H. simplify_eq. split_and!; try done. intros t [= <-]. apply H4.
Qed.

Lemma compact_disk s cat force r s' :
  sm_inv s cat -> on_disk s -> counters_ok s -> total_entries (cat_entries cat) <= u32_max ->
  compact_level0 force s = (Ok r, s') -> on_disk s'.
Proof.
  intros Hinv Hod Hc Htot H. destruct (compact_spec s cat force _ s' Hinv Htot H) as (cat' & Hcomp & _).
  pose proof (cp_inv _ _ _ _ Hcomp) as Hinv'. clear Hcomp.
  unfold compact_level0 in H. unfold mbind at 1, stm_bind at 1, sget at 1 in H. cbv zeta in H.
  set (sel := select_level0_compaction_locked s force) in *.
  destruct (is_nil (cs_selected sel)) eqn:En; [unfold mret, stm_ret in H; by simplify_eq|].
  apply is_nil_false in En. destruct (select_cat s cat force Hinv En) as (csel & cun & Hsplit & E1 & E2 & _).
  fold sel in E1, E2. destruct (split_ok s cat csel cun Hinv Hsplit) as [Hoks _].
  destruct (merge_selected s cat csel cun Hinv Hsplit) as (st1 & kp & n & st2 & Em & Ed & _ & Hg2 & Hkw & Hke & Hkl & _).
  unfold mbind at 1, stm_bind at 1, on_rs at 1 in H. rewrite E1, Em in H.
  unfold mbind at 1, stm_bind at 1, on_rs at 1 in H. rewrite E2 in H. cbn [sm_rs set_rs] in H. rewrite Ed in H.
  change (set_rs st2 (set_rs st1 s)) with (set_rs st2 s) in H. pose proof (sm_inv_rs _ _ Hinv st2 Hg2) as Hinv2.
  assert (Hkl' : zlen kp <= u32_max).
  { pose proof (total_entries_perm _ _ (split_entries cat csel cun Hsplit)) as Hte. rewrite total_entries_app in Hte.
    pose proof (total_entries_nonneg (cat_entries cun)). lia. }
  unfold mbind at 1, stm_bind at 1 in H. destruct (write_output kp _ (set_rs st2 s)) as [[[out id]|] s3] eqn:E3; [|done].
  destruct (write_output_disk _ _ _ _ _ _ _ Hinv2 (on_rs_disk _ _ Hod) Hkw Hke Hkl' (max_generation_u64 csel Hoks) E3)
    as (Hod3 & Hm3 & Hr3 & Hout).
  unfold mbind at 1, stm_bind at 1, sget at 1 in H. unfold mbind at 1, stm_bind at 1, slift at 1 in H.
  destruct (replace_tables _ out (sm_readers s3)) as [[new obsolete]|] eqn:Er; [|done]. destruct Hc as [C1 C2].
  eapply (finish_disk s3 new); [exact H|exact Hinv'|rewrite Hm3; exact C2| |].
  - intros t Ht. destruct (surviving_path _ _ _ _ _ _ Er Ht) as [[Hin _]|Hs]; [by apply (od_tables _ Hod3)|by apply Hout].
  - intros p Hp. destruct (obsolete_path _ _ _ _ _ _ Er Hp) as (t & Hin & Hsel & ->). split; [by apply (od_tables _ Hod3)|].
    intros u Hu E. destruct (surviving_path _ _ _ _ _ _ Er Hu) as [[_ Hno]| ->].
    + apply Hno. unfold mg_path in *. by rewrite E.
    + assert (Hou : exists c, u = managed c /\ made (set_rs st2 s) s3 cat kp (max_of md_generation (map managed csel)) c.1).
      { destruct (write_output_spec _ _ _ _ _ _ Hinv2 Hkw Hke Hkl' (max_generation_u64 csel Hoks) E3) as (_ & _ & _ & _ & Ho & _).
        destruct (Ho _ _ eq_refl) as ([c|] & Ec & Hcase); [|done]. injection Ec as ->. exists c. by destruct Hcase. }
      destruct Hou as (c & -> & Mc). rewrite Hr3 in Hin. cbn [sm_readers set_rs] in Hin. rewrite (sv_readers _ _ Hinv) in Hin.
      apply list_elem_of_In, in_map_iff in Hin as (c' & <- & Hc'%list_elem_of_In).
      apply (md_fresh _ _ _ _ _ _ Mc c' Hc'). change (op_path c.1) with (md_path (mg_metadata (managed c))). by rewrite E.
Qed.

(** ** The steps of the store *)

Lemma flush_tables_disk ts s cat s' :
  view_inv (ps_view s) cat -> immutable_tables_ (memtables_ s) = reverse ts -> 0 <= capacity (ps_view s) ->
  on_disk (sstables_ s) -> flush_tables ts s = (Ok tt, s') -> on_disk (sstables_ s').
Proof.
  revert s cat. induction ts as [|t ts IH]; intros s cat Hv Himm Hcap Hod H; cbn [flush_tables] in H.
  { unfold mret, stm_ret in H. by simplify_eq. }
  rewrite reverse_cons in Himm. destruct s as [[m sm] live report wal auto]. unfold sstables_ in Hod.
  cbn [ps_view memtables_ v_memtables v_sstables] in *.
  unfold mbind, stm_bind, on_sstables in H. cbn [ps_view sstables_ v_sstables] in H.
  destruct (SstManager.flush t sm) as [[x|] sm1] eqn:E1; [|done].
  destruct (flush_one_spec m sm cat _ t Hv Himm (capacity_load _ Hcap) _ sm1 E1) as (_ & F2 & _).
  destruct (F2 x eq_refl) as (cat1 & G1 & _ & G3 & _). unfold on_memtables in H.
  cbn [set_view ps_view memtables_ v_memtables sstables_ v_sstables] in H.
  rewrite (discard_oldest m (reverse ts) t (vi_memory _ _ Hv) Himm) in H. unfold slift, throw_if in H. cbn [negb] in H.
  destruct (oldest_inv m (reverse ts) t (vi_memory _ _ Hv) Himm) as (T1 & _ & T3 & T4). pose proof (ms_next_gen _ (vi_memory _ _ Hv)) as Hng.
  pose proof (capacity_load _ Hcap) as Hl. rewrite (load_cat _ _ _ (vi_tables _ _ Hv)) in Hl.
  pose proof (f_equal zlen (discarded_entries m (reverse ts) t Himm)) as Hz. rewrite zlen_app in Hz.
  pose proof (zlen_nonneg (ms_entries (set_immutable (reverse ts) m))). pose proof (total_entries_nonneg (cat_entries cat)).
  eapply (IH (mkStore (mkView (set_immutable (reverse ts) m) sm1) live report wal auto) cat1 G1 eq_refl); [|..|exact H].
  - cbn [ps_view]. lia.
  - eapply (flush_disk sm cat t x sm1 cat1); try done; try apply Hv; [lia|unfold is_u64; cbn [v_memtables] in Hng; lia|apply G1].
Qed.

Lemma compact_store_disk force s cat r s' :
  view_inv (ps_view s) cat -> 0 <= capacity (ps_view s) -> on_disk (sstables_ s) ->
  on_sstables (compact_level0 force) s = (Ok r, s') -> on_disk (sstables_ s').
Proof.
  intros Hv Hcap Hod H. destruct s as [[m sm] live report wal auto]. unfold on_sstables, sstables_ in *. cbn [ps_view v_sstables] in *.
  destruct (compact_level0 force sm) as [[x|] sm1] eqn:E; [|done]. simplify_eq. cbn [set_view ps_view v_sstables].
  pose proof (capacity_load _ Hcap) as Hl. rewrite (load_cat _ _ _ (vi_tables _ _ Hv)) in Hl. pose proof (zlen_nonneg (ms_entries m)).
  eapply (compact_disk sm cat); [apply Hv|done|apply Hv|lia|exact E].
Qed.

Lemma compact_loop_disk turns s cat s' :
  view_inv (ps_view s) cat -> 0 <= capacity (ps_view s) -> on_disk (sstables_ s) ->
  compact_loop turns s = (Ok tt, s') -> on_disk (sstables_ s').
Proof.
  revert s cat. induction turns as [|turns IH]; intros s cat Hv Hcap Hod H; [done|]. cbn [compact_loop] in H.
  unfold mbind, stm_bind, sget in H. destruct (needs_compaction (sstables_ s)) eqn:En; cbn [negb] in H.
  2:{ unfold mret, stm_ret in H. by simplify_eq. }
  assert (Hce : on_sstables compact_if_needed s = on_sstables (compact_level0 false) s).
  { unfold on_sstables, compact_if_needed, mbind, stm_bind, sget. by rewrite En. }
  rewrite Hce in H. destruct (on_sstables (compact_level0 false) s) as [[x|] s1] eqn:E1; [|done].
  pose proof (compact_store_disk _ _ _ _ _ Hv Hcap Hod E1) as Hod1.
  destruct (compact_store_spec false s cat _ s1 Hv Hcap E1) as ((cat1 & Hv1) & Hbg & _). pose proof (bg_capacity _ _ Hbg).
  destruct (cr_performed x); cbn [negb] in H; [by eapply (IH s1 cat1); [|lia|..]|]. unfold mret, stm_ret in H. by simplify_eq.
Qed.

(** Flushing and compacting what memory holds. *)
Lemma flush_immutable_disk s cat s' :
  view_inv (ps_view s) cat -> 0 <= capacity (ps_view s) -> on_disk (sstables_ s) ->
  flush_immutable_memtables_locked s = (Ok tt, s') -> on_disk (sstables_ s').
Proof.
  intros Hv Hcap Hod H. unfold flush_immutable_memtables_locked, mbind, stm_bind, sget in H.
  eapply flush_tables_disk; [exact Hv| |done|done|exact H]. by rewrite reverse_involutive.
Qed.

Lemma compact_required_disk s cat s' :
  view_inv (ps_view s) cat -> 0 <= capacity (ps_view s) -> on_disk (sstables_ s) ->
  compact_if_required_locked s = (Ok tt, s') -> on_disk (sstables_ s').
Proof.
  intros Hv Hcap Hod H. unfold compact_if_required_locked, mbind, stm_bind, sget in H.
  destruct (ps_automatic_compaction s); cbn [negb] in H; [by eapply compact_loop_disk|]. unfold mret, stm_ret in H. by simplify_eq.
Qed.

Lemma on_wal_tables {A} (c : stm WalWriter A) s r s' : on_wal c s = (r, s') -> sstables_ s' = sstables_ s.
Proof. unfold on_wal. destruct (c (ps_wal s)). intros. by simplify_eq. Qed.
Lemma on_memtables_tables {A} (c : stm MemTableSet A) s r s' : on_memtables c s = (r, s') -> sstables_ s' = sstables_ s.
Proof. unfold on_memtables. destruct (c (memtables_ s)). intros. by simplify_eq. Qed.
Lemma reset_tables s r s' : reset_wal_if_fully_persisted_locked s = (r, s') -> sstables_ s' = sstables_ s.
Proof.
  unfold reset_wal_if_fully_persisted_locked, mbind, stm_bind, sget. destruct (_ && _); [apply on_wal_tables|].
  unfold mret, stm_ret. intros. by simplify_eq.
Qed.

Lemma settle_disk {A} (a r : A) s cat s' :
  view_inv (ps_view s) cat -> 0 <= capacity (ps_view s) -> on_disk (sstables_ s) ->
  (_ ← flush_immutable_memtables_locked; _ ← compact_if_required_locked; _ ← reset_wal_if_fully_persisted_locked; mret a) s
    = (Ok r, s') -> on_disk (sstables_ s').
Proof.
  intros Hv Hcap Hod H. unfold mbind, stm_bind in H. destruct (flush_immutable_memtables_locked s) as [[[]|] s1] eqn:E1; [|done].
  destruct (flush_immutable_spec s cat _ s1 Hv Hcap E1) as ((cat1 & Hv1) & Hbg & _). pose proof (bg_capacity _ _ Hbg).
  pose proof (flush_immutable_disk _ _ _ Hv Hcap Hod E1) as Hod1.
  destruct (compact_if_required_locked s1) as [[[]|] s2] eqn:E2; [|done].
  pose proof (compact_required_disk s1 cat1 s2 Hv1 ltac:(lia) Hod1 E2) as Hod2.
  destruct (reset_wal_if_fully_persisted_locked s2) as [[[]|] s3] eqn:E3; [|done]. unfold mret, stm_ret in H. simplify_eq.
  by rewrite (reset_tables _ _ _ E3).
Qed.

Lemma looked_disk s s' : looked s s' -> on_disk (sstables_ s) -> on_disk (sstables_ s').
Proof.
  intros Hl. destruct (lk_view _ _ Hl) as (sm' & Ev & Hro). unfold sstables_ at 2. rewrite Ev. cbn [v_sstables].
  apply on_disk_same; try apply Hro. by rewrite (ro_file_id _ _ Hro).
Qed.

(** A write that returned. *)
Lemma write_disk {A} (a x : A) rec (c : stm MemTableSet unit) n s cat m' key e live s' :
  view_inv (ps_view s) cat -> 0 < capacity (ps_view s) -> on_disk (sstables_ s) ->
  c (memtables_ s) = (Ok tt, m') -> wrote key e live (memtables_ s) m' -> e_seq e = last_sequence_number_ (memtables_ s) + 1 ->
  (_ ← on_wal (append rec);
   _ ← on_memtables c;
   _ ← smodify (fun s => set_live_count (n s) s);
   _ ← flush_immutable_memtables_locked;
   _ ← compact_if_required_locked;
   _ ← reset_wal_if_fully_persisted_locked;
   mret a) s = (Ok x, s') -> on_disk (sstables_ s').
Proof.
  intros Hv Hcap Hod Hc Hw Hseq H. destruct s as [[m sm] lv rp wl au]. unfold memtables_, sstables_ in *. cbn [ps_view v_memtables v_sstables] in *.
  unfold mbind at 1, stm_bind at 1, on_wal at 1 in H. cbn [ps_wal] in H. destruct (append rec wl) as [[[]|] w1]; [|done].
  unfold mbind at 1, stm_bind at 1, on_memtables at 1 in H. unfold memtables_ in H. cbn [set_wal ps_view v_memtables] in H. rewrite Hc in H.
  unfold mbind at 1, stm_bind at 1, smodify at 1 in H.
  destruct (view_write key e live m m' sm cat Hv Hw Hseq) as (V1 & _ & V3 & _).
  eapply settle_disk; [..|exact H]; unfold sstables_; cbn [set_live_count set_view set_wal ps_view v_sstables]; [exact V1|lia|exact Hod].
Qed.

Lemma ps_put_disk key value s s' :
  store_inv s -> valid_key key -> valid_value value -> 0 < capacity (ps_view s) -> on_disk (sstables_ s) ->
  ps_put key value s = (Ok tt, s') -> on_disk (sstables_ s').
Proof.
  intros Hs Hk Hv Hcap Hod H. unfold ps_put in H. unfold mbind at 1, stm_bind at 1, slift at 1 in H. rewrite validate_key_ok in H by done.
  unfold mbind at 1, stm_bind at 1, slift at 1 in H. rewrite validate_value_ok in H by done.
  destruct (exists_ok key s Hs Hk) as (s0 & E0 & Hlk). unfold mbind at 1, stm_bind at 1 in H. rewrite E0 in H.
  pose proof (lk_inv _ _ Hlk) as [[cat Hv0] _]. rewrite <- (lk_capacity _ _ Hlk) in Hcap.
  destruct (ms_put_spec key value (memtables_ s0)) as (m' & Em & Hw); [apply Hv0|done|done|by apply capacity_room|].
  eapply (write_disk tt tt (mkWalRecord OpPut key value) (ms_put key value) (fun s => if has_key key s0 then ps_live_key_count s else u64 (ps_live_key_count s + 1))
    s0 cat m'); [done|done|by eapply looked_disk|exact Em|exact Hw|exact eq_refl|].
  rewrite <- H. assert (Eh : has_key key s = has_key key s0) by (unfold has_key; by rewrite (looked_abs _ _ Hlk)). rewrite Eh.
  unfold mbind, stm_bind, smodify, mret, stm_ret. destruct (on_wal _ s0) as [[[]|] s1]; [|done].
  destruct (on_memtables _ s1) as [[[]|] s2]; [|done].
  assert (Eif : set_live_count (if has_key key s0 then ps_live_key_count s2 else u64 (ps_live_key_count s2 + 1)) s2 =
                (if has_key key s0 then s2 else set_live_count (u64 (ps_live_key_count s2 + 1)) s2))
    by (destruct (has_key key s0); [by destruct s2|done]).
  rewrite Eif. set (s3 := if has_key key s0 then _ else _).
  destruct (flush_immutable_memtables_locked s3) as [[[]|] s4]; [|done].
  destruct (compact_if_required_locked s4) as [[[]|] s5]; [|done].
  by destruct (reset_wal_if_fully_persisted_locked s5) as [[[]|] s6].
Qed.

Lemma ps_remove_disk key s x s' :
  store_inv s -> valid_key key -> 0 < capacity (ps_view s) -> on_disk (sstables_ s) ->
  ps_remove key s = (Ok x, s') -> on_disk (sstables_ s').
Proof.
  intros Hs Hk Hcap Hod H. unfold ps_remove in H. unfold mbind at 1, stm_bind at 1, slift at 1 in H. rewrite validate_key_ok in H by done.
  destruct (exists_ok key s Hs Hk) as (s0 & E0 & Hlk). unfold mbind at 1, stm_bind at 1 in H. rewrite E0 in H.
  pose proof (looked_disk _ _ Hlk Hod) as Hod0. destruct (has_key key s); cbn [negb] in H; [|unfold mret, stm_ret in H; by simplify_eq].
  pose proof (lk_inv _ _ Hlk) as [[cat Hv0] _]. rewrite <- (lk_capacity _ _ Hlk) in Hcap.
  destruct (ms_add_tombstone_spec key (memtables_ s0)) as (m' & Em & Hw); [apply Hv0|done|by apply capacity_room|].
  exact (write_disk true x _ (ms_add_tombstone key) (fun s => u64 (ps_live_key_count s - 1)) s0 cat m' _ _ _ s' Hv0 Hcap Hod0 Em Hw eq_refl H).
Qed.

(** The first steps of [checkpoint] and [compact]. *)
Lemma persist_disk s s' :
  store_inv s -> 0 < capacity (ps_view s) -> on_disk (sstables_ s) ->
  (_ ← on_wal WalWriter.flush; _ ← on_memtables rotate_active; flush_immutable_memtables_locked) s = (Ok tt, s') ->
  on_disk (sstables_ s').
Proof.
  intros Hs Hcap Hod H. unfold mbind, stm_bind in H. destruct (on_wal WalWriter.flush s) as [[[]|] s1] eqn:E1; [|done].
  destruct (log_step_settled s _ s1 Hs E1) as (St1 & V1 & _). pose proof (st_inv _ _ St1) as Hs1. pose proof Hs1 as [[cat Hv1] _].
  rewrite <- V1 in Hcap. destruct (rotate_store s1 cat Hs1 Hv1 Hcap) as (o & s2 & E2 & _ & Hv2 & _ & _ & T2 & C2 & _).
  rewrite E2 in H. eapply flush_immutable_disk; [exact Hv2|lia| |exact H]. rewrite T2. by rewrite (on_wal_tables _ _ _ _ E1).
Qed.

Lemma ps_checkpoint_disk s s' :
  store_inv s -> 0 < capacity (ps_view s) -> on_disk (sstables_ s) ->
  ps_checkpoint s = (Ok tt, s') -> on_disk (sstables_ s').
Proof.
  intros Hs Hcap Hod H.
  destruct ((_ ← on_wal WalWriter.flush; _ ← on_memtables rotate_active; flush_immutable_memtables_locked) s) as [r1 s1] eqn:E1.
  assert (H' : (match r1 with Ok _ => _ ← compact_if_required_locked; on_wal WalWriter.reset | Throw e => sthrow e end) s1 = (Ok tt, s')).
  { rewrite <- H. unfold ps_checkpoint. unfold mbind, stm_bind in E1 |- *. destruct (on_wal WalWriter.flush s) as [[[]|] sa]; [|by simplify_eq].
    destruct (on_memtables rotate_active sa) as [[?|] sb]; [|by simplify_eq]. rewrite E1. by destruct r1. }
  destruct r1 as [[]|]; [|done]. destruct (persist_spec s _ s1 Hs Hcap E1) as ([[cat Hv1] _] & _ & P3 & _).
  pose proof (persist_disk _ _ Hs Hcap Hod E1) as Hod1. unfold mbind, stm_bind in H'.
  destruct (compact_if_required_locked s1) as [[[]|] s2] eqn:E2; [|done]. rewrite (on_wal_tables _ _ _ _ H').
  eapply compact_required_disk; [exact Hv1|lia|done|exact E2].
Qed.

(** ** A store in service

    No call on the files is going to fail, the log covers what is in memory,
    and the tables are on disk. *)
Record in_service (s : PersistentKeyValueStore) : Prop := {
  sv_store : store_inv s;
  sv_log : exists rs, log_inv s rs;
  sv_quiet : quiet_tables s;
  sv_disk : on_disk (sstables_ s)
}.

Lemma in_service_quiet s : in_service s -> store_inv s /\ quiet_store s.
Proof. intros [H1 [rs H2] H3 _]. split; [done|]. split; [done|apply H2]. Qed.

Lemma in_service_looked s s' : in_service s -> looked s s' -> in_service s'.
Proof.
  intros Hi Hl. destruct (in_service_quiet s Hi) as [_ Hq]. destruct Hi as [H1 [rs H2] H3 H4].
  split; [apply Hl|exists rs; by apply (lk_log _ _ Hl)|by apply (lk_quiet _ _ Hl)|by eapply looked_disk].
Qed.

Lemma in_service_put key value s s' :
  in_service s -> 0 < spare (ps_view s) -> valid_key key -> valid_value value -> ps_put key value s = (Ok tt, s') -> in_service s'.
Proof.
  intros Hi Hsp Hk Hv H. destruct (in_service_quiet s Hi) as [Hs Hq]. pose proof (spare_capacity (ps_view s)).
  destruct Hi as [H1 [rs H2] H3 H4]. destruct (ps_put_spec key value s _ s' Hs Hk Hv ltac:(lia) H) as [W1 _ _ W4 W5].
  split; [done| |by apply W5|eapply ps_put_disk; [exact Hs|done|done|lia|done|exact H]].
  destruct (W4 rs H2) as [_ [|]]; eauto.
Qed.

Lemma in_service_remove key s x s' :
  in_service s -> 0 < spare (ps_view s) -> valid_key key -> ps_remove key s = (Ok x, s') -> in_service s'.
Proof.
  intros Hi Hsp Hk H. destruct (in_service_quiet s Hi) as [Hs Hq]. pose proof (spare_capacity (ps_view s)).
  pose proof (ps_remove_spec key s _ s' Hs Hk ltac:(lia) H) as W. destruct (has_key key s).
  - destruct W as [[W1 _ _ W4 W5] _]. pose proof Hi as [H1 [rs H2] H3 H4].
    split; [done| |by apply W5|eapply ps_remove_disk; [exact Hs|done|lia|done|exact H]]. destruct (W4 rs H2) as [_ [|]]; eauto.
  - destruct W as [_ Hl]. by eapply in_service_looked.
Qed.

Lemma in_service_checkpoint s s' :
  in_service s -> 0 < spare (ps_view s) -> ps_checkpoint s = (Ok tt, s') -> in_service s'.
Proof.
  intros Hi Hsp H. destruct (in_service_quiet s Hi) as [Hs Hq]. pose proof (spare_capacity (ps_view s)).
  destruct (ps_checkpoint_spec s _ s' Hs ltac:(lia) H) as (C1 & _ & _ & C4 & _ & C6). destruct Hi as [H1 [rs H2] H3 H4].
  split; [done| |by apply C6|eapply ps_checkpoint_disk; [exact Hs|lia|done|exact H]]. destruct (C4 rs H2); eauto.
Qed.

(** Calls keep it. *)
Lemma exec_in_service op s :
  in_service s -> 0 < spare (ps_view s) ->
  in_service (kv_exec op s).2 /\ view_abs (ps_view (kv_exec op s).2) = (spec_exec op (view_abs (ps_view s))).2 /\
  (kv_exec op s).1 = (spec_exec op (view_abs (ps_view s))).1 /\ spare (ps_view s) - 1 <= spare (ps_view (kv_exec op s).2).
Proof.
  intros Hi Hsp. assert (Hq : kv_inv s) by exact (in_service_quiet s Hi).
  destruct (kv_exec_refines op s Hq Hsp) as (s' & E & Hi' & Ha & Hb). rewrite E. cbn [fst snd].
  split; [|done]. clear Ha Hb. destruct op as [key value|key|key|key]; cbn [kv_exec] in E.
  - destruct (validate_key key ≫= fun _ => validate_value value) as [u|e] eqn:Ev.
    + apply validate_both_inv in Ev as Hv. destruct Hv as [Hk Hv]. destruct (kv_put key value s) as [r s1] eqn:E1.
      simpl in E. rewrite Ev in E. injection E as -> ->. by eapply in_service_put.
    + assert (kv_put key value s = (Throw e, s)) as Er.
      { simpl. apply validate_both_throw in Ev as [Ek|[Ek Ev']]; unfold ps_put, mbind, stm_bind, slift; [by rewrite Ek|by rewrite Ek, Ev']. }
      rewrite Er in E. by simplify_eq.
  - destruct (validate_key key) as [u|e] eqn:Ev.
    + apply validate_key_inv in Ev. destruct (ps_get_ok key s (sv_store _ Hi) Ev) as (s1 & E1 & Hl). simpl in E. rewrite E1 in E.
      simplify_eq. by eapply in_service_looked.
    + rewrite (kv_get_rejects s key e Ev) in E. by simplify_eq.
  - destruct (validate_key key) as [u|e] eqn:Ev.
    + destruct (kv_remove key s) as [r s1] eqn:E1. simpl in E. rewrite Ev in E. injection E as -> ->.
      apply validate_key_inv in Ev. by eapply in_service_remove.
    + rewrite (kv_remove_rejects s key e Ev) in E. by simplify_eq.
  - destruct (validate_key key) as [u|e] eqn:Ev.
    + apply validate_key_inv in Ev. destruct (ps_exists_ok key s (sv_store _ Hi) Ev) as (s1 & E1 & Hl). simpl in E. rewrite E1 in E.
      simplify_eq. by eapply in_service_looked.
    + rewrite (kv_exists_rejects s key e Ev) in E. by simplify_eq.
Qed.

Lemma execs_in_service ops s :
  in_service s -> zlen ops <= spare (ps_view s) ->
  in_service (kv_execs ops s).2 /\ (kv_execs ops s).1 = (spec_execs ops (view_abs (ps_view s))).1 /\
  view_abs (ps_view (kv_execs ops s).2) = (spec_execs ops (view_abs (ps_view s))).2 /\
  spare (ps_view s) - zlen ops <= spare (ps_view (kv_execs ops s).2).
Proof.
  revert s. induction ops as [|op ops IH]; intros s Hi Hb; [split_and!; try done; rewrite zlen_nil; simpl; lia|]. rewrite zlen_cons in Hb. pose proof (zlen_nonneg ops).
  destruct (exec_in_service op s Hi ltac:(lia)) as (H1 & H2 & H3 & H4). cbn [kv_execs spec_execs].
  destruct (kv_exec op s) as [a s1]. destruct (spec_exec op _) as [a' m']. cbn [fst snd] in *. subst.
  destruct (IH s1 H1 ltac:(lia)) as (G1 & G2 & G3 & G4). rewrite zlen_cons.
  destruct (kv_execs ops s1) as [l s2]. destruct (spec_execs ops _) as [l' m2]. cbn [fst snd] in *. subst.
  split_and!; [done..|lia].
Qed.
