(* ===== verification/StoreOpen.v ===== *)
(** * Opening a store

    The constructors of src/sstable_manager.cpp and
    src/persistent_key_value_store.cpp on an empty directory, as the state
    machine of a Raft node opens it after it has removed the old one. *)

From S2P Require Import Prelude Triples OrderedMap Posix FileSystem Path Store MemTable MemTableSet.
From S2P Require Import WalFormat WalReader WalWriter Recovery BlockCache SstFormat SstWriter SstReader Manifest SstManager.
From S2P Require Import TableView OpenTables Compaction ManagerInv ManagerCost PersistentStore StoreInv StoreRefinement StoreDisk.

(** ** The files of the first commit *)

(** Every file is one of [ns]. *)
Definition only_names (ns : list str) (f : Fs) : Prop := forall n, is_Some (fs_dir f !! n) -> n ∈ ns.

Lemma atomic_write_names path bytes ns f r f' :
  only_names ns f -> atomic_write path bytes f = (r, f') -> only_names (metadata_tmp path :: path :: ns) f'.
Proof.
  intros Hf H n Hn. destruct (atomic_write_spec _ _ _ _ _ H) as [(Hs & _) _].
  destruct (decide (n ∈ [metadata_tmp path; path])) as [Hin|Hin]; [by apply (elem_of_app [metadata_tmp path; path] ns); left|].
  rewrite Hs in Hn by done. do 2 right. by apply Hf.
Qed.

(** No name the manifest uses is that of a table. *)
Lemma manifest_names_not_tables directory :
  Forall (fun n => is_sstable_path n = false)
    [metadata_tmp (path_join directory (bytes_of "CURRENT")); path_join directory (bytes_of "CURRENT");
     metadata_tmp (path_join directory (manifest_filename 1)); path_join directory (manifest_filename 1)].
Proof.
  assert (Hn : forall n, path_has_parent_path n = false -> is_sstable_path (path_join directory n) = is_sstable_path n).
  { intros n Hb. unfold is_sstable_path, path_extension. by rewrite path_filename_join, (path_filename_bare n). }
  rewrite !join_tmp by (vm_compute; reflexivity). repeat constructor; rewrite Hn by (vm_compute; reflexivity); vm_compute; reflexivity.
Qed.

(** ** The table manager *)

(** The manager an empty directory gives. *)
Definition fresh_manager (o : SSTableManagerOptions) (m : ManifestManager) (reads : list io_event) (f : Fs) : SSTableManager :=
  mkManager o m [] 0 0 0 1 (mkCompactionStatistics 0 0 0 0 0 0) 0 f
    (mkRState reads (Some (empty_cache (so_block_cache_capacity_bytes o))) 0 0).

Lemma first_commit directory f :
  fs_script f = [] -> only_names [] f ->
  exists s m f', commit (mkManifestManager directory [] 0) [] 1 f = (Ok (s, m), f') /\ directory_ m = directory /\
    current_generation_ m = 1 /\ fs_script f' = [] /\ Forall (fun n => is_sstable_path n = false) (names f').
Proof.
  intros Hs Hn. set (m0 := mkManifestManager directory [] 0).
  assert (Hw : snapshot_wf (next_snapshot m0 [] 1)).
  { split; simpl; [split; [by vm_compute|done]|split; [unfold is_u64, u64_max; lia|done]|by vm_compute|constructor|constructor]. }
  rewrite (commit_unfold m0 [] 1 Hw). unfold mbind, stm_bind.
  set (b1 := append_checksum (manifest_payload _)). set (b2 := append_checksum (current_payload _)).
  destruct (atomic_write_quiet (manifest_path m0 (mf_generation (next_snapshot m0 [] 1))) b1 f Hs) as ([] & f1 & E1 & Hs1).
  rewrite E1. destruct (atomic_write_quiet (current_path_ m0) b2 f1 Hs1) as ([] & f2 & E2 & Hs2). rewrite E2.
  do 3 eexists. split; [reflexivity|]. split_and!; [done|done|done|].
  pose proof (atomic_write_names _ _ _ _ _ _ (atomic_write_names _ _ _ _ _ _ Hn E1) E2) as Hn2.
  apply Forall_forall. intros n Hin. unfold names in Hin.
  pose proof (manifest_names_not_tables directory) as Ht. rewrite Forall_forall in Ht. apply Ht, Hn2.
  apply list_elem_of_fmap in Hin as ([n' x] & -> & Hin). apply elem_of_map_to_list in Hin. by exists x.
Qed.

Lemma remove_abandoned_none ns active f :
  Forall (fun n => is_sstable_path n = false) ns -> remove_abandoned ns active false f = (Ok false, f).
Proof. induction 1 as [|n ns Hn _ IH]; [done|]. simpl. by rewrite Hn. Qed.

Lemma new_manager_empty o f reads :
  options_ok o -> 0 < so_block_cache_capacity_bytes o -> fs_script f = [] -> fs_dir f = ∅ ->
  exists m f', new_manager o f reads = (Ok tt, fresh_manager o m reads f') /\ directory_ m = so_directory o /\
    current_generation_ m = 1 /\ fs_script f' = [] /\
    exists sn, commit (mkManifestManager (so_directory o) [] 0) [] 1 f = (Ok (sn, m), f').
Proof.
  intros [O1 O2 O3 O4 O5 O6] Hc Hs Hd. unfold new_manager, bc_new. rewrite (proj2 (Z.eqb_neq _ _)) by lia.
  assert (Hnil : is_nil (so_directory o) = false) by by destruct (so_directory o).
  assert (Ht : (so_target_data_block_bytes o =? 0) || (u32_max <? so_target_data_block_bytes o) = false).
  { apply orb_false_iff. split; [apply Z.eqb_neq|apply Z.ltb_ge]; lia. }
  assert (Hl : (so_level0_compaction_trigger o <? 2) || (so_level0_compaction_max_tables o <? 2)
                || (so_level0_compaction_max_tables o <? so_level0_compaction_trigger o) = false).
  { rewrite !orb_false_iff. split_and!; apply Z.ltb_ge; lia. }
  unfold mbind at 1, result_bind at 1, throw_if at 1, mret at 1, result_ret at 1. cbv beta iota zeta.
  match goal with |- exists m f', ?c ?b = _ /\ _ =>
    enough (H : returns c (fun _ s => exists m f', s = fresh_manager o m reads f' /\ directory_ m = so_directory o /\
                             current_generation_ m = 1 /\ fs_script f' = [] /\
                             exists sn, commit (mkManifestManager (so_directory o) [] 0) [] 1 f = (Ok (sn, m), f')) b)
  end.
  { apply returns_run in H as ([] & s & E & m & f' & -> & Hm). by exists m, f'. }
  unfold returns. apply swp_bind. unfold swp at 1, on_fs, new_manifest_manager. cbn [sm_fs]. rewrite Hnil.
  unfold mbind at 1, stm_bind at 1, slift at 1, throw_if at 1, mbind at 1, stm_bind at 1, fs_call at 1. rewrite Hs.
  unfold mret at 1, stm_ret at 1.
  apply swp_bind. rewrite Ht, O2, Hl. apply swp_ret, swp_bind, swp_ret, swp_bind, swp_ret, swp_bind, swp_ret, swp_bind.
  unfold swp at 1, on_fs. cbn [sm_fs set_fs]. unfold fs_call at 1. rewrite Hs. apply swp_bind, swp_modify.
  unfold load_existing. apply swp_bind, swp_get, swp_bind. cbn [sm_fs set_manifest set_fs].
  assert (Hnames : names f = []) by (unfold names; by rewrite Hd, map_to_list_empty). rewrite Hnames.
  unfold swp at 1, on_fs. cbn [remove_temporaries]. unfold mret at 1, stm_ret at 1. cbn [sm_fs set_fs set_manifest].
  assert (Hall : all_contents f = ∅) by (unfold all_contents; rewrite Hd; apply fmap_empty).
  set (m0 := mkManifestManager (so_directory o) [] 0). apply swp_bind. unfold on_load. apply swp_bind, swp_get, swp_bind.
  cbn [sm_fs set_fs set_manifest sm_manifest]. rewrite Hall.
  assert (Hload : Manifest.load m0 ∅ = Ok (None, m0)) by (unfold Manifest.load; by rewrite lookup_empty, map_to_list_empty).
  fold m0. rewrite Hload. apply swp_ret, swp_bind, swp_modify, swp_ret. cbn [fst snd].
  (* the first commit *)
  assert (Honly : only_names [] f) by (intros n [x Hx]; by rewrite Hd, lookup_empty in Hx).
  destruct (first_commit (so_directory o) f Hs Honly) as (sn & m & f' & E & Hm1 & Hm2 & Hs' & Hn'). fold m0 in E.
  unfold migrate_legacy_tables. apply swp_bind, swp_bind, swp_get, swp_bind. cbn [sm_fs set_fs set_manifest]. rewrite Hnames.
  apply swp_ret, swp_bind, swp_modify, swp_bind, swp_modify, swp_bind, swp_get. unfold on_manifest. apply swp_bind, swp_get, swp_bind.
  unfold swp at 1, on_fs. cbn [sm_fs set_fs set_manifest set_next_file_id set_readers sm_manifest sm_next_file_id sm_readers].
  change (metadata_for (sort_tables [])) with (@nil SSTableMetadata). rewrite E. apply swp_modify, swp_bind, swp_get, swp_bind.
  (* nothing to clean up *)
  unfold cleanup_abandoned_files. apply swp_bind, swp_get, swp_bind. unfold swp at 1, on_fs. cbn [sm_fs set_fs set_manifest].
  rewrite remove_abandoned_none by done. apply swp_ret, swp_bind.
  unfold swp at 1, on_rs, compute_live_key_count. cbn [sm_rs set_fs set_manifest set_next_file_id set_readers sm_readers].
  change (sort_tables []) with (@nil ManagedTable). unfold mbind at 1, stm_bind at 1. cbn [merge_tables]. unfold mret, stm_ret.
  apply swp_bind, swp_modify. unfold recalculate_state_locked. apply swp_bind, swp_bind, swp_get, swp_bind, swp_modify, swp_bind.
  apply swp_ret, swp_modify, swp_modify. exists m, f'. split_and!; try done. by exists sn.
Qed.

Lemma fresh_manager_inv o m reads f :
  options_ok o -> 0 < so_block_cache_capacity_bytes o <= u64_max -> calm reads = true -> directory_ m = so_directory o ->
  sm_inv (fresh_manager o m reads f) [].
Proof.
  intros Ho Hc Hr Hm. split; try done.
  - split; constructor.
  - split; [done|]. split; [by apply empty_cache_inv|]. intros kb Hkb. by apply not_elem_of_nil in Hkb.
  - intros a b c d k Ha. by apply not_elem_of_nil in Ha.
Qed.

Lemma fresh_manager_disk o m reads f f' sn :
  fs_script f = [] -> commit (mkManifestManager (so_directory o) [] 0) [] 1 f = (Ok (sn, m), f') ->
  on_disk (fresh_manager o m reads f').
Proof.
  intros Hs H. assert (Hw : snapshot_wf (next_snapshot (mkManifestManager (so_directory o) [] 0) [] 1)).
  { split; simpl; [split; [by vm_compute|done]|split; [unfold is_u64, u64_max; lia|done]|by vm_compute|constructor|constructor]. }
  destruct (commit_files _ _ _ _ _ _ _ Hw H) as (-> & F1 & F2 & F3 & _). split; [intros t Ht; by apply not_elem_of_nil in Ht|].
  exists 1, []. split; try done; [by apply kept_synced..|]. intros t Ht. by apply not_elem_of_nil in Ht.
Qed.

(** ** The store *)

Record opens_well (o : PersistentStoreOptions) (reads writes : list io_event) : Prop := {
  ow_options : options_ok (with_directory (resolve_sstable_directory o) (po_sstables o));
  ow_cache : 0 < so_block_cache_capacity_bytes (po_sstables o) <= u64_max;
  ow_wal_path : is_nil (po_wal_path o) = false;
  ow_memory : 0 < po_memtable_max_bytes o;
  ow_interval : 0 < po_batch_flush_interval o;
  ow_reads : calm reads = true;
  ow_writes : calm_write writes = true
}.

(** A store opened on an empty directory while no call fails. *)
Record new_and_empty (s : PersistentKeyValueStore) : Prop := {
  ne_inv : store_inv s;
  ne_log : log_inv s [];
  ne_quiet : quiet_store s;
  ne_disk : on_disk (sstables_ s);
  ne_abs : view_abs (ps_view s) = ∅;
  ne_spare : spare (ps_view s) = kMaximumManifestTables
}.

Lemma new_store_empty o f reads writes :
  opens_well o reads writes -> fs_script f = [] -> fs_dir f = ∅ ->
  exists s disk, new_store o (mkDisk f None) reads writes = (Ok s, disk, []) /\ new_and_empty s.
Proof.
  intros [W1 W2 W3 W4 W5 W6 W7] Hs Hd. unfold new_store. cbn [d_fs d_wal].
  destruct (new_manager_empty _ f reads W1 (proj1 W2) Hs Hd) as (m & f' & E & Hm & Hg & Hs' & sn & Hcm). rewrite E, W3.
  set (sm := fresh_manager _ m reads f').
  change (sm_max_sequence_number sm) with 0. change (sm_next_generation sm) with 0.
  destruct (ms_new (mkMemTableOptions (po_memtable_max_bytes o) 0 0)) as [mem|e] eqn:Em.
  2:{ unfold ms_new in Em. simpl in Em. by rewrite (proj2 (Z.eqb_neq _ _)) in Em by lia. }
  destruct (ms_new_inv _ _ Em) as (Hi & _ & Ha); [unfold u64_max; simpl; lia..|].
  assert (Hmem : mem = mkMemTableSet (po_memtable_max_bytes o) (mt_new 0) [] 1 0 0).
  { unfold ms_new in Em. simpl in Em. rewrite (proj2 (Z.eqb_neq _ _)) in Em by lia. by injection Em as <-. }
  unfold recover. cbn [rr_issue empty_report]. unfold open_log, wal_open. rewrite W3. cbn [throw_if mbind result_bind].
  rewrite (proj2 (Z.leb_gt _ _)) by lia. cbn [throw_if mbind result_bind]. do 2 eexists. split; [reflexivity|].
  pose proof (fresh_manager_inv _ m reads f' W1 W2 W6 Hm) as Hinv. fold sm in Hinv.
  assert (Hview : view_inv (mkView mem sm) []).
  { split; [done|done|..].
    - intros es k e kv H. by apply not_elem_of_nil in H.
    - intros es k e H. by apply not_elem_of_nil in H.
    - intros c H. by apply not_elem_of_nil in H.
    - unfold counters_ok, manifest_generation. simpl. rewrite Hg. unfold u64_max. lia. }
  assert (Habs : view_abs (mkView mem sm) = ∅) by (subst mem; unfold view_abs, view_map; by vm_compute).
  assert (Hstore : forall w, store_inv (mkStore (mkView mem sm) 0 empty_report w (po_enable_automatic_compaction o))).
  { intros w. split; [by exists []|]. cbn [ps_view ps_live_key_count]. by rewrite Habs. }
  split; cbn [ps_view]; [apply Hstore| |split; [done|by split]|exact (fresh_manager_disk _ m reads f f' sn Hs Hcm)|done|].
  - split; try done; [split; [by unfold wal_prefix|done]|]. apply covers_nil. by subst mem.
  - subst mem. unfold spare, capacity, load, pending, manifest_generation, sm_entries. simpl. rewrite Hg. by vm_compute.
Qed.

Lemma new_in_service s : new_and_empty s -> in_service s.
Proof. intros [H1 H2 [H3 _] H4 _ _]. split; [done|by exists []|done|done]. Qed.
