(* ===== verification/StoreRestart.v ===== *)
(** * Opening a store again

    The constructors of src/sstable_manager.cpp and
    src/persistent_key_value_store.cpp on the files of a store that was in
    service ([StoreDisk.in_service]): the manifest is loaded, the tables it
    lists are opened, files left over are removed, and the log is replayed
    over the tables.  The files are those of the directory as it is, or what a
    crash of the machine leaves of them. *)

From S2P Require Import Prelude Triples OrderedMap Checksum Codec Posix FileSystem Path Store MemTable MemTableSet.
From S2P Require Import WalFormat WalReader WalWriter Recovery BloomFilter BlockCache SstFormat SstWriter SstReader Manifest SstManager.
From S2P Require Import TableView OpenTables Compaction ManagerInv ManagerCost PersistentStore StoreInv StoreRefinement StoreOpen StoreDisk.

(** ** Which names are removed *)

Lemma from_last_dot_suffix p : from_last_dot p `suffix_of` p.
Proof.
  induction p as [|b p IH]; [done|]. simpl. destruct (bool_decide (dot ∈ p)); [by apply suffix_cons_r|].
  destruct (bool_decide (b = dot)); [done|apply suffix_nil].
Qed.

Lemma path_filename_suffix p : path_filename p `suffix_of` p.
Proof.
  induction p as [|b p IH]; [done|]. cbn [path_filename]. destruct (path_has_parent_path p); [by apply suffix_cons_r|].
  destruct (bool_decide (b = slash)); [by apply suffix_cons_r|done].
Qed.

Lemma path_extension_suffix p : path_extension p `suffix_of` p.
Proof.
  unfold path_extension. destruct (_ || _); [apply suffix_nil|]. pose proof (path_filename_suffix p) as H.
  destruct (path_filename p) as [|b r]; [apply suffix_nil|]. etrans; [apply from_last_dot_suffix|]. etrans; [|exact H].
  by apply suffix_cons_r.
Qed.

Lemma suffix_last (a p : str) b : a `suffix_of` p -> last a = Some b -> last p = Some b.
Proof. intros [k ->] H. by rewrite last_app, H. Qed.

(** What ends like a temporary file. *)
Lemma temporary_last p : is_temporary_storage_path p = true -> last p = Some x70.
Proof.
  unfold is_temporary_storage_path. intros H.
  assert (Hx : forall q, path_extension q = bytes_of ".tmp" -> last q = Some x70).
  { intros q Hq. eapply suffix_last; [apply path_extension_suffix|]. by rewrite Hq. }
  apply orb_true_iff in H as [H|[_ H]%andb_true_iff]; [|apply Hx; by apply bool_decide_eq_true in H].
  apply orb_true_iff in H as [[H _]%andb_true_iff|H]; [apply Hx; by apply bool_decide_eq_true in H|].
  apply bool_decide_eq_true in H. eapply suffix_last; [apply path_filename_suffix|]. by rewrite H.
Qed.

Lemma manifest_last m g : last (manifest_path m g) <> Some x70 /\ last (manifest_path m g) <> Some x74.
Proof.
  unfold manifest_path. rewrite join_last by (try done; apply manifest_filename_bare). unfold manifest_filename. rewrite last_app.
  destruct (last (pad20 g)) as [b|] eqn:El; [|done]. apply last_Some in El as [l El].
  assert (Hin : b ∈ pad20 g) by (rewrite El; apply elem_of_app; right; by left).
  split; intros [= ->]; (eapply pad20_no; [|exact Hin]); by vm_compute; intros [].
Qed.

Lemma current_last m : last (current_path_ m) = Some x54.
Proof. unfold current_path_. by rewrite join_last. Qed.

Lemma is_sstable_last p : is_sstable_path p = true -> last p = Some x74.
Proof. intros H%bool_decide_eq_true. eapply suffix_last; [apply path_extension_suffix|]. by rewrite H. Qed.

(** The files of the list in force are none of those the constructor removes. *)
Lemma remove_temporaries_ok ps f :
  fs_script f = [] -> exists f', remove_temporaries ps f = (Ok tt, f') /\ fs_script f' = [] /\
    forall n bs, last n <> Some x70 -> kept f n bs -> kept f' n bs.
Proof.
  revert f. induction ps as [|p ps IH]; intros f Hf; [by exists f|]. cbn [remove_temporaries]. unfold mbind, stm_bind.
  destruct (is_temporary_storage_path p) eqn:E; [|exact (IH f Hf)].
  destruct (fs_remove p f) as [r f1] eqn:E1. assert (Hr : is_Ok r = true /\ fs_script f1 = []).
  { unfold fs_remove in E1. rewrite Hf in E1. by simplify_eq. }
  destruct r as [x|]; [|by destruct Hr]. unfold mret, stm_ret. destruct (IH f1 (proj2 Hr)) as (f' & E' & Hs & Hk). exists f'.
  split_and!; [done|done|]. intros n bs Hn Hkp. apply Hk; [done|]. eapply kept_remove; [exact E1| |done].
  intros ->. by apply Hn, temporary_last.
Qed.

Lemma remove_abandoned_ok ps active b f :
  fs_script f = [] -> exists b' f', remove_abandoned ps active b f = (Ok b', f') /\ fs_script f' = [] /\
    forall n bs, path_filename n ∈ active \/ last n <> Some x74 -> kept f n bs -> kept f' n bs.
Proof.
  revert b f. induction ps as [|p ps IH]; intros b f Hf; [by exists b, f|]. cbn [remove_abandoned].
  destruct (negb (is_sstable_path p) || bool_decide (path_filename p ∈ active)) eqn:E; [exact (IH b f Hf)|].
  unfold mbind, stm_bind. destruct (fs_remove p f) as [r f1] eqn:E1.
  assert (Hr : exists x, r = Ok (x, None) /\ fs_script f1 = []).
  { unfold fs_remove in E1. rewrite Hf in E1. simplify_eq. by eexists. }
  destruct Hr as (x & -> & Hs1). cbn [snd fst]. destruct (IH (b || x) f1 Hs1) as (b' & f' & E' & Hs & Hk).
  exists b', f'. split_and!; [done|done|]. intros n bs Hn Hkp. apply Hk; [done|]. eapply kept_remove; [exact E1| |done].
  intros ->. apply orb_false_iff in E as [E2 E3]. apply negb_false_iff, is_sstable_last in E2. apply bool_decide_eq_false in E3.
  by destruct Hn.
Qed.

(** ** Opening the tables of the list *)

(** A table opened again: the same file, with a filter made from its keys. *)
Definition reload (o : SSTableManagerOptions) (c : OpenTable * SSTableLevel) : OpenTable * SSTableLevel :=
  (mkOpen (op_entries c.1) (op_header c.1) (op_blocks c.1) (op_path c.1)
     (match build_bloom_filter o (op_entries c.1) with Ok b => Some b | Throw _ => None end), c.2).

Lemma build_bloom_total o entries :
  options_ok o -> entries <> [] -> zlen entries <= u32_max -> exists b, build_bloom_filter o entries = Ok b.
Proof.
  intros Ho Hne Hl. unfold build_bloom_filter, bf_new. rewrite (ok_rate _ Ho). pose proof (zlen_nonneg entries).
  assert (Hz : zlen entries <> 0) by by rewrite zlen_0. destruct (ok_bits _ Ho (zlen entries)) as [bits ->]; [lia|].
  unfold mbind, result_bind, throw_if, mret, result_ret. cbn [negb]. rewrite (proj2 (Z.eqb_neq _ _) Hz). by eexists.
Qed.

Section reload.
Context (o : SSTableManagerOptions) (cat : Catalog).
Hypothesis Ho : options_ok o.
Hypothesis Hcat : cat_ok (map fst cat).
Hypothesis Htot : total_entries (cat_entries cat) <= u32_max.

Let cat' := map (reload o) cat.

Lemma reload_entries : cat_entries cat' = cat_entries cat.
Proof. unfold cat_entries, cat'. by rewrite map_map. Qed.

Lemma entries_small c : c ∈ cat -> zlen (op_entries c.1) <= u32_max.
Proof.
  intros Hc. etrans; [|exact Htot]. clear -Hc. induction cat as [|d l IH]; [by apply not_elem_of_nil in Hc|].
  change (cat_entries (d :: l)) with (op_entries d.1 :: cat_entries l). cbn [total_entries foldr].
  pose proof (total_entries_nonneg (cat_entries l)). fold (total_entries (cat_entries l)). pose proof (zlen_nonneg (op_entries d.1)).
  apply elem_of_cons in Hc as [->|Hc]; [lia|]. specialize (IH Hc). lia.
Qed.

Lemma reload_bloom c : c ∈ cat ->
  exists b, build_bloom_filter o (op_entries c.1) = Ok b /\ op_bloom (reload o c).1 = Some b.
Proof.
  intros Hc. destruct (op_ok_entries _ (cat_ok_elem _ _ Hcat Hc)) as (_ & _ & Hne).
  destruct (build_bloom_total o (op_entries c.1) Ho Hne (entries_small c Hc)) as [b Hb]. exists b. split; [done|].
  unfold reload. cbn [fst op_bloom]. by rewrite Hb.
Qed.

Lemma reload_ok : cat_ok (map fst cat').
Proof.
  destruct Hcat as [H1 H2]. split.
  - unfold cat'. rewrite !map_map. unfold op_id in *. rewrite map_map in H1. exact H1.
  - unfold cat'. rewrite map_map. apply Forall_forall. intros t Ht. apply list_elem_of_In, in_map_iff in Ht as (c & <- & Hc%list_elem_of_In).
    destruct (reload_bloom c Hc) as (b & Hb & Hbb). pose proof (cat_ok_elem _ _ Hcat Hc) as [K1 K2 K3 K4].
    split; try done. rewrite Hbb. cbn [reload fst op_entries]. eapply build_bloom_ok, Hb. apply Ho.
Qed.

Lemma reload_metadata c : mg_metadata (managed (reload o c)) = mg_metadata (managed c).
Proof. done. Qed.

Lemma metadata_matches_refl m l : metadata_matches (with_level l m) m = true.
Proof. unfold metadata_matches. simpl. rewrite !Z.eqb_refl. cbn [andb]. by rewrite !str_eqb_refl. Qed.

(** One table of the manifest. *)
Lemma open_listed s c :
  c ∈ cat -> sm_options s = o -> contents (sm_fs s) (op_path c.1) = Some (rd_file (op_reader c.1)) ->
  good_cat (map fst cat') (sm_rs s) ->
  exists st, open_with_filter (op_path c.1) (Some (with_level c.2 (metadata_ (op_reader c.1)))) c.2 s
    = (Ok (managed (reload o c)), set_rs st s) /\ good_cat (map fst cat') st.
Proof.
  intros Hc Hso Hf Hg. pose proof (cat_ok_elem _ _ Hcat Hc) as [K1 _ K3 _].
  assert (Hin : (reload o c).1 ∈ map fst cat').
  { unfold cat'. rewrite map_map. apply list_elem_of_In, in_map_iff. exists c. split; [done|by apply list_elem_of_In]. }
  unfold open_with_filter, open_table. unfold mbind, stm_bind, sget, on_rs. rewrite Hf.
  destruct (sst_open_ok _ _ _ K1 (op_path c.1) (lexically_normal (op_path c.1)) None (sm_rs s) K3 (proj1 Hg)) as (s1 & E1 & C1).
  change (rd_file (op_reader c.1)) with (table_file (op_header c.1) (op_blocks c.1)). rewrite E1.
  unfold slift. change (metadata_ (reader_of _ _ _ _ _ None)) with (metadata_ (op_reader c.1)).
  rewrite metadata_matches_refl. cbn [negb throw_if]. cbn [sm_rs set_rs].
  pose proof (good_cat_script _ _ s1 Hg C1) as Hg1. pose proof (good_state _ reload_ok _ _ Hin Hg1) as Hs1.
  destruct (sst_read_all_ok _ _ _ K1 _ (op_path c.1) (op_id (reload o c).1) None _ Hs1) as (st2 & E2 & Hs2).
  change (op_id (reload o c).1) with (lexically_normal (op_path c.1)) in E2. rewrite E2.
  pose proof (state_good _ _ _ Hin Hs2) as Hg2. cbn [sm_options set_rs]. rewrite Hso.
  destruct (reload_bloom c Hc) as (b & Eb & Ebl). rewrite Eb. cbn [sm_fs set_rs sm_rs]. rewrite Hf.
  destruct (sst_open_ok _ _ _ K1 (op_path c.1) (lexically_normal (op_path c.1)) (Some b) st2 K3 (proj1 Hg2)) as (s3 & E3 & C3).
  change (rd_file (op_reader c.1)) with (table_file (op_header c.1) (op_blocks c.1)). rewrite E3.
  exists (set_rs_script s3 st2). split; [|by apply good_cat_script].
  unfold mret, stm_ret. do 2 f_equal. unfold managed, op_reader. rewrite Ebl. done.
Qed.

Lemma load_tables_ok cs loaded s :
  (forall c, c ∈ cs -> c ∈ cat) -> sm_options s = o ->
  (forall c, c ∈ cs -> contents (sm_fs s) (op_path c.1) = Some (rd_file (op_reader c.1))) ->
  good_cat (map fst cat') (sm_rs s) ->
  exists st, load_tables (map (fun c => with_level c.2 (metadata_ (op_reader c.1))) cs) loaded s
    = (Ok (loaded ++ map managed (map (reload o) cs)), set_rs st s) /\ good_cat (map fst cat') st.
Proof.
  revert loaded s. induction cs as [|c cs IH]; intros loaded s Hsub Hso Hf Hg.
  { exists (sm_rs s). split; [|done]. cbn [map load_tables]. rewrite app_nil_r. unfold mret, stm_ret. by destruct s. }
  cbn [map load_tables]. unfold mbind, stm_bind.
  destruct (open_listed s c (Hsub c ltac:(by left)) Hso (Hf c ltac:(by left)) Hg) as (st1 & E1 & Hg1).
  change (md_path (with_level c.2 (metadata_ (op_reader c.1)))) with (op_path c.1).
  change (md_level (with_level c.2 (metadata_ (op_reader c.1)))) with c.2. rewrite E1.
  destruct (IH (loaded ++ [managed (reload o c)]) (set_rs st1 s)) as (st2 & E2 & Hg2); [|done| |done|].
  { intros d Hd. apply Hsub. by right. }
  { intros d Hd. apply (Hf d). by right. }
  exists st2. split; [|done]. rewrite E2, <- app_assoc. by destruct s.
Qed.
End reload.

(** ** The table manager *)

(** The files [f] still has everything the manager [s] had for good. *)
Definition has_all (s : SSTableManager) (f : Fs) : Prop := forall n bs, kept (sm_fs s) n bs -> kept f n bs.

Section manager.
Context (s : SSTableManager) (cat : Catalog) (n : Z) (mds : list SSTableMetadata) (o : SSTableManagerOptions).
Hypothesis Hinv : sm_inv s cat.
Hypothesis Hstored : forall t, t ∈ sm_readers s -> stored (sm_fs s) t.
Hypothesis Hlisted : listed s n mds.
Hypothesis Htot : total_entries (cat_entries cat) <= u32_max.
Hypothesis Hgens : forall c, c ∈ cat -> h_generation (op_header c.1) < u64_max.
Hypothesis Ho : options_ok o.
Hypothesis Hdir : so_directory o = so_directory (sm_options s).
Hypothesis Hsize : zlen (append_checksum (manifest_payload (manifest_of s n mds))) <= kMaximumMetadataFileBytes.

Let g := current_generation_ (sm_manifest s).
Let directory := so_directory o.
Let cat' := map (reload o) cat.

Lemma old_directory : directory_ (sm_manifest s) = directory.
Proof. unfold directory. rewrite Hdir. apply Hinv. Qed.

Lemma listed_table c : c ∈ cat ->
  sst_path (op_path c.1) /\ kept (sm_fs s) (op_path c.1) (rd_file (op_reader c.1)) /\ name_ok directory n (op_path c.1).
Proof.
  intros Hc. assert (Hin : managed c ∈ sm_readers s).
  { rewrite (sv_readers _ _ Hinv). apply list_elem_of_In, in_map. by apply list_elem_of_In. }
  destruct (Hstored _ Hin) as [S1 S2]. split_and!; [done|done|]. rewrite <- old_directory. exact (ls_names _ _ _ Hlisted _ Hin).
Qed.

(** The manifest lists the tables of the list, in some order. *)
Lemma placed_tables :
  exists cat0, cat0 ≡ₚ cat /\ mf_tables (placed_snapshot directory (manifest_of s n mds)) =
    map (fun c => with_level c.2 (metadata_ (op_reader c.1))) cat0.
Proof.
  pose proof (ls_tables _ _ _ Hlisted) as Hp. rewrite (sv_readers _ _ Hinv) in Hp. unfold SstManager.metadata_for in Hp. rewrite map_map in Hp.
  destruct (Permutation_map_inv _ _ Hp) as (cat0 & E & Hp0). exists cat0. split; [by symmetry|].
  unfold placed_snapshot, manifest_of. cbn [mf_tables]. rewrite E, !map_map. apply map_ext_in. intros c Hc%list_elem_of_In.
  rewrite <- Hp0 in Hc. destruct (listed_table c Hc) as (_ & _ & nm & Hpath & (_ & _ & _ & Hb) & _).
  unfold placed, bare, with_level, managed. cbn. rewrite Hpath, path_filename_join by done. done.
Qed.

(** The names the list uses, and what the constructor does with them. *)
Definition listed_name (p : str) : Prop :=
  (exists c, c ∈ cat /\ p = op_path c.1) \/ p = manifest_path (sm_manifest s) g \/ p = current_path_ (sm_manifest s).

Lemma load_from f :
  (forall p bs, listed_name p -> kept (sm_fs s) p bs -> kept f p bs) ->
  Manifest.load (mkManifestManager directory [] 0) (all_contents f) =
  Ok (Some (placed_snapshot directory (manifest_of s n mds)),
      mkManifestManager directory (manifest_path (mkManifestManager directory [] 0) g) g).
Proof.
  intros Hall. apply load_Some. split; [|done]. cbn [directory_].
  exists (current_bytes g), (append_checksum (manifest_payload (manifest_of s n mds))).
  pose proof (kept_now _ _ _ (Hall _ _ (or_intror (or_intror eq_refl)) (ls_current _ _ _ Hlisted))) as C1.
  pose proof (kept_now _ _ _ (Hall _ _ (or_intror (or_introl eq_refl)) (ls_manifest _ _ _ Hlisted))) as C2.
  unfold current_path_, manifest_path in C1, C2. rewrite old_directory in C1, C2.
  split; rewrite ?lookup_all_contents; try done.
  - unfold current_bytes, append_checksum, current_payload, manifest_filename, kMaximumMetadataFileBytes.
    rewrite !zlen_app, !le_bytes_zlen. unfold zlen. rewrite pad20_length. vm_compute. congruence.
  - apply parse_current_ok, manifest_filename_ok.
  - apply parse_manifest_ok; [apply (ls_wf _ _ _ Hlisted)|]. unfold append_checksum in Hsize. rewrite zlen_app in Hsize.
    pose proof (zlen_nonneg (le_bytes 4 (crc32 (manifest_payload (manifest_of s n mds))))). unfold kMaximumMetadataFileBytes, u64_max in *. lia.
  - destruct placed_tables as (cat0 & Hp & E). intros t Ht. rewrite E in Ht.
    apply list_elem_of_In, in_map_iff in Ht as (c & <- & Hc%list_elem_of_In). rewrite Hp in Hc. destruct (listed_table c Hc) as (_ & Hk & _). exists (rd_file (op_reader c.1)).
    rewrite lookup_all_contents. apply kept_now, Hall; [left; by exists c|done].
Qed.

Lemma listed_not_temporary p : listed_name p -> last p <> Some x70.
Proof.
  intros [(c & Hc & ->)|[->| ->]]; [|apply manifest_last|by rewrite current_last].
  destruct (listed_table c Hc) as (Hs%sst_last & _). by rewrite Hs.
Qed.

Lemma listed_not_abandoned (p : str) (active : gset str) :
  (forall c, c ∈ cat -> path_filename (op_path c.1) ∈ active) -> listed_name p ->
  path_filename p ∈ active \/ last p <> Some x74.
Proof.
  intros Ha [(c & Hc & ->)|[->| ->]]; [left; by apply Ha|right; apply manifest_last|right; by rewrite current_last].
Qed.

(** What the sorted list of reopened tables satisfies. *)
Lemma reopened_cat cat'' :
  cat'' ≡ₚ cat' -> cat_ok (map fst cat'') /\ consistent (cat_entries cat'') /\ l1_disjoint (map managed cat'') /\
  Forall (fun c => name_ok directory n (op_path c.1)) cat'' /\ view (cat_entries cat'') = view (cat_entries cat).
Proof.
  intros Hp. pose proof (reload_ok o cat Ho (sv_cat _ _ Hinv) Htot) as Hok. fold cat' in Hok.
  assert (Hok2 : cat_ok (map fst cat'')) by (eapply cat_ok_perm, Hok; symmetry; by apply Permutation_map).
  assert (Hce : cat_entries cat'' ≡ₚ cat_entries cat).
  { rewrite <- (reload_entries o cat). fold cat'. unfold cat_entries. by apply Permutation_map. }
  assert (Hcons : consistent (cat_entries cat'')).
  { eapply consistent_sub; [|apply (sv_consistent _ _ Hinv)]. intros es Hes. by rewrite <- Hce. }
  split_and!; try done.
  - assert (Hd : l1_disjoint (map managed cat')).
    { unfold cat'. intros i j t u Hij Hi Hj Ht Hu. rewrite map_map in Hi, Hj.
      rewrite list_lookup_fmap in Hi, Hj. destruct (cat !! i) as [ci|] eqn:Ei; [|done]. destruct (cat !! j) as [cj|] eqn:Ej; [|done].
      simpl in Hi, Hj. simplify_eq. apply (sv_disjoint _ _ Hinv i j (managed ci) (managed cj)); try done;
        rewrite list_lookup_fmap; [by rewrite Ei|by rewrite Ej]. }
    eapply l1_disjoint_perm, Hd. apply Permutation_map. by symmetry.
  - apply Forall_forall. intros c Hc. rewrite Hp in Hc. unfold cat' in Hc.
    apply list_elem_of_In, in_map_iff in Hc as (d & <- & Hd%list_elem_of_In). by destruct (listed_table d Hd) as (_ & _ & ?).
  - apply view_ext; [by apply cat_sorted|by apply cat_sorted, Hinv|]. intros key. f_equal. by apply newest_perm.
Qed.

(** What opening leaves. *)
Record reopened (s' : SSTableManager) (cat'' : Catalog) : Prop := {
  re_perm : cat'' ≡ₚ cat';
  re_inv : sm_inv s' cat'';
  re_disk : on_disk s';
  re_script : fs_script (sm_fs s') = [];
  re_generation : current_generation_ (sm_manifest s') = g;
  re_file_id : sm_next_file_id s' = n;
  re_max : sm_max_sequence_number s' = max_of md_max_sequence_number (map managed cat'');
  re_next : next_generation_of (map managed cat'') = Ok (sm_next_generation s')
}.

Lemma reopened_tables cat'' t :
  cat'' ≡ₚ cat' -> t ∈ map managed cat'' -> exists c, c ∈ cat /\ t = managed (reload o c).
Proof.
  intros Hp Ht. apply list_elem_of_In, in_map_iff in Ht as (d & <- & Hd%list_elem_of_In). rewrite Hp in Hd. unfold cat' in Hd.
  apply list_elem_of_In, in_map_iff in Hd as (e & <- & He%list_elem_of_In). by exists e.
Qed.

(** A manager over the reopened tables. *)
Lemma reopened_intro m f st cat'' mx ng c v :
  cat'' ≡ₚ cat' -> m = mkManifestManager directory (manifest_path (mkManifestManager directory [] 0) g) g ->
  (forall p bs, listed_name p -> kept (sm_fs s) p bs -> kept f p bs) -> fs_script f = [] ->
  good_cat (map fst cat'') st -> mx = max_of md_max_sequence_number (map managed cat'') ->
  next_generation_of (map managed cat'') = Ok ng ->
  reopened (mkManager o m (map managed cat'') (Z.of_nat (size (view (cat_entries cat'')))) mx ng n c v f st) cat''.
Proof.
  intros Hp -> Hf Hs Hg Hmx Hng. destruct (reopened_cat cat'' Hp) as (R1 & R2 & R3 & R4 & R5).
  pose proof (ls_wf _ _ _ Hlisted) as Hwf. pose proof (sw_next _ Hwf) as [Hn1 Hn2]. cbn [manifest_of mf_next_file_id] in Hn1, Hn2.
  assert (Hinv' : forall st', good_cat (map fst cat'') st' -> sm_inv (mkManager o
    (mkManifestManager directory (manifest_path (mkManifestManager directory [] 0) g) g) (map managed cat'')
    (Z.of_nat (size (view (cat_entries cat'')))) mx ng n c v f st') cat'').
  { intros st' Hg'. split; try done. cbn [sm_next_file_id]. unfold is_u64 in Hn1. lia. }
  split; try done; [by apply Hinv'|]. split.
  - intros t Ht. destruct (reopened_tables cat'' t Hp Ht) as (d & Hd & ->). destruct (listed_table d Hd) as (S1 & S2 & _).
    split; [done|]. apply Hf; [left; by exists d|done].
  - exists n, mds. destruct Hlisted as [L0 L1 L2 L3 L4 L5]. split; try done.
    + rewrite L0, (sv_readers _ _ Hinv). cbn [sm_readers]. unfold SstManager.metadata_for. rewrite !map_map.
      etrans; [|apply Permutation_map; symmetry; exact Hp]. unfold cat'. by rewrite map_map.
    + unfold manifest_path. cbn [sm_manifest sm_fs directory_ current_generation_]. rewrite <- old_directory. apply Hf; [by right; left|done].
    + unfold current_path_. cbn [sm_manifest sm_fs directory_ current_generation_]. rewrite <- old_directory. apply Hf; [by right; right|done].
    + intros t Ht. destruct (reopened_tables cat'' t Hp Ht) as (d & Hd & ->). by destruct (listed_table d Hd) as (_ & _ & ?).
Qed.

Lemma load_existing_ok st v c f :
  has_all s f -> fs_script f = [] -> good_cat (map fst cat') st ->
  returns load_existing (fun _ s' => exists cat'', reopened s' cat'')
    (mkManager o (mkManifestManager directory [] 0) [] 0 0 0 1 c v f st).
Proof.
  intros Hall Hs Hg. unfold load_existing. set (b := mkManager _ _ _ _ _ _ _ _ _ _ _). unfold returns.
  apply swp_bind, swp_get, swp_bind. destruct (remove_temporaries_ok (names (sm_fs b)) f Hs) as (f1 & E1 & Hs1 & Hk1).
  unfold swp at 1, on_fs at 1. change (sm_fs b) with f. fold (names f). change (names (sm_fs b)) with (names f) in E1. rewrite E1.
  assert (Hall1 : forall p bs, listed_name p -> kept (sm_fs s) p bs -> kept f1 p bs).
  { intros p bs Hp Hk. apply Hk1; [by apply listed_not_temporary|]. by apply Hall. }
  (* the manifest *)
  apply swp_bind. unfold on_load. apply swp_bind, swp_get, swp_bind. cbn [sm_manifest sm_fs b set_fs].
  assert (Hld : Manifest.load (mkManifestManager directory [] 0) (all_contents f1) =
    Ok (Some (placed_snapshot directory (manifest_of s n mds)), mkManifestManager directory (manifest_path (mkManifestManager directory [] 0) g) g)).
  { apply load_from. intros p bs Hp Hk. by apply Hall1. }
  apply (returns_lift _ _ _ _ Hld). cbn [fst snd]. set (m := mkManifestManager directory _ g). apply swp_bind, swp_modify, swp_ret.
  (* the tables *)
  apply swp_bind. unfold load_manifest_snapshot. apply swp_bind. destruct placed_tables as (cat0 & Hp0 & Ept). rewrite Ept.
  match goal with |- swp (load_tables _ _) _ _ ?x => set (b1 := x) end.
  destruct (load_tables_ok o cat Ho (sv_cat _ _ Hinv) Htot cat0 [] b1) as (st2 & E2 & Hg2); [by intros d; rewrite Hp0|done| |done|].
  { intros d Hd. rewrite Hp0 in Hd. destruct (listed_table d Hd) as (_ & Hk & _). apply kept_now, Hall1; [left; by exists d|done]. }
  unfold swp at 1. rewrite E2. cbn [app]. destruct (sort_tables_cat (map (reload o) cat0)) as (cat'' & Es & Hp2). rewrite Es.
  assert (Hp : cat'' ≡ₚ cat') by (rewrite Hp2; unfold cat'; by apply Permutation_map).
  destruct (reopened_cat cat'' Hp) as (R1 & R2 & R3 & R4 & R5).
  apply swp_bind, swp_modify, swp_bind. apply (returns_lift _ _ _ tt); [by apply validate_iff; [apply cat_proper|]|].
  apply swp_modify. cbn [placed_snapshot mf_next_file_id manifest_of].
  (* what is left over *)
  apply swp_bind, swp_get, swp_bind. unfold cleanup_abandoned_files. apply swp_bind, swp_get, swp_bind.
  set (active := list_to_set _). match goal with |- swp (on_fs _) _ _ ?x => set (b2 := x) end.
  destruct (remove_abandoned_ok (names f1) active false f1 Hs1) as (rm & f3 & E3 & Hs3 & Hk3).
  unfold swp at 1, on_fs at 1. change (sm_fs b2) with f1. rewrite E3.
  assert (Hall3 : forall p bs, listed_name p -> kept (sm_fs s) p bs -> kept f3 p bs).
  { intros p bs Hl Hk. apply Hk3; [|by apply Hall1]. apply (listed_not_abandoned p); [|done]. intros d Hd.
    apply elem_of_list_to_set, list_elem_of_In, in_map_iff. exists (with_level d.2 (mg_metadata (managed (reload o d)))). split; [done|].
    apply in_map_iff. exists (managed (reload o d)). split; [done|]. apply in_map, list_elem_of_In. rewrite Hp. unfold cat'.
    apply list_elem_of_In, in_map. by apply list_elem_of_In. }
  assert (Hsync : forall Q : unit -> SSTableManager -> Prop,
    (forall f4, fs_script f4 = [] -> (forall p bs, kept f3 p bs -> kept f4 p bs) -> Q tt (set_fs f4 b2)) ->
    swp (if rm : bool then on_fs sync_directory else mret tt) Q (fun _ => False) (set_fs f3 b2)).
  { intros Q HQ. destruct rm; [|by apply swp_ret, HQ]. unfold swp, on_fs. cbn [sm_fs set_fs].
    destruct (quiet_sync_directory_close f3 Hs3) as ([] & f4 & E4 & Hs4). rewrite E4. apply (HQ f4); [done|].
    intros p bs. by apply (kept_sync _ _ _ _ _ E4). }
  apply Hsync. intros f4 Hs4 Hk4. clear Hsync.
  (* the counters *)
  assert (Hg4 : good_cat (map fst cat'') st2).
  { destruct Hg2 as [G1 G2]. split; [done|]. destruct (rs_cache st2) as [bc|]; [|done]. destruct G2 as [G2 G3]. split; [done|].
    intros kb Hkb. destruct (G3 kb Hkb) as (d & Hd & Hrest). exists d. split; [|done].
    assert (Hpf : map fst cat'' ≡ₚ map fst cat') by by apply Permutation_map. by rewrite Hpf. }
  apply swp_bind. unfold swp at 1, on_rs at 1. cbn [sm_rs set_fs b2 set_next_file_id set_readers set_rs sm_readers].
  pose proof (cat_view (map fst cat'') R1) as TV. unfold compute_live_key_count. unfold mbind at 1, stm_bind at 1.
  destruct (merge_tables_ok (TV := TV) (map managed cat'') (cat_entries cat'') [] st2) as (st5 & E5 & Hg5); [apply cat_hold_self|done|].
  rewrite E5. unfold mret at 1, stm_ret at 1. apply swp_bind, swp_modify. unfold recalculate_state_locked.
  apply swp_bind, swp_bind, swp_get, swp_bind, swp_modify, swp_bind.
  assert (Hroom : forall e, e ∈ cat'' -> h_generation (op_header e.1) < u64_max).
  { intros e He. rewrite Hp in He. unfold cat' in He. apply list_elem_of_In, in_map_iff in He as (d & <- & Hd%list_elem_of_In). exact (Hgens d Hd). }
  assert (Hng : exists ng, next_generation_of (map managed cat'') = Ok ng).
  { unfold next_generation_of. destruct (is_nil _); [by eexists|]. unfold mbind, result_bind, throw_if.
    assert (Hlt : max_of md_generation (map managed cat'') < u64_max).
    { apply max_of_bound; [done|]. intros t Ht. apply list_elem_of_In, in_map_iff in Ht as (e & <- & He%list_elem_of_In). by apply Hroom. }
    rewrite (proj2 (Z.eqb_neq _ _)) by lia. by eexists. }
  destruct Hng as [ng Hng]. apply (returns_lift _ _ _ ng Hng). apply swp_modify, swp_modify. exists cat''.
  assert (Hcount : om_count (fun e => negb (e_deleted e)) (foldl (fun m es => foldl merge_entry m es) [] (cat_entries cat'')) =
                   Z.of_nat (size (view (cat_entries cat'')))).
  { unfold view. rewrite size_omap_list by apply merge_all_wf. done. }
  rewrite Hcount. apply (reopened_intro m f4 (clear_cache st5)); try done.
  - intros p bs Hl Hk. apply Hk4. by apply Hall3.
  - by eapply clear_cache_good.
Qed.
End manager.

Lemma new_manager_reopens s cat n mds o f reads :
  sm_inv s cat -> (forall t, t ∈ sm_readers s -> stored (sm_fs s) t) -> listed s n mds ->
  total_entries (cat_entries cat) <= u32_max -> (forall c, c ∈ cat -> h_generation (op_header c.1) < u64_max) ->
  options_ok o -> 0 < so_block_cache_capacity_bytes o <= u64_max -> so_directory o = so_directory (sm_options s) ->
  zlen (append_checksum (manifest_payload (manifest_of s n mds))) <= kMaximumMetadataFileBytes ->
  calm reads = true -> has_all s f -> fs_script f = [] ->
  exists s' cat', new_manager o f reads = (Ok tt, s') /\ reopened s cat n o s' cat'.
Proof.
  intros Hinv Hst Hl Htot Hg Ho Hcap Hdir Hsz Hr Hall Hs. pose proof Ho as [O1 O2 O3 O4 O5 O6].
  unfold new_manager, bc_new. rewrite (proj2 (Z.eqb_neq _ _)) by lia.
  assert (Hnil : is_nil (so_directory o) = false) by by destruct (so_directory o).
  assert (Ht : (so_target_data_block_bytes o =? 0) || (u32_max <? so_target_data_block_bytes o) = false).
  { apply orb_false_iff. split; [apply Z.eqb_neq|apply Z.ltb_ge]; lia. }
  assert (Hlim : (so_level0_compaction_trigger o <? 2) || (so_level0_compaction_max_tables o <? 2)
                || (so_level0_compaction_max_tables o <? so_level0_compaction_trigger o) = false).
  { rewrite !orb_false_iff. split_and!; apply Z.ltb_ge; lia. }
  unfold mbind at 1, result_bind at 1, throw_if at 1, mret at 1, result_ret at 1. cbv beta iota zeta.
  match goal with |- exists s' cat', ?c ?b = _ /\ _ => enough (H : returns c (fun _ s' => exists cat', reopened s cat n o s' cat') b) end.
  { apply returns_run in H as ([] & s' & E & cat' & Hc). by exists s', cat'. }
  unfold returns. apply swp_bind. unfold swp at 1, on_fs, new_manifest_manager. cbn [sm_fs]. rewrite Hnil.
  unfold mbind at 1, stm_bind at 1, slift at 1, throw_if at 1, mbind at 1, stm_bind at 1, fs_call at 1. rewrite Hs.
  unfold mret at 1, stm_ret at 1.
  apply swp_bind. rewrite Ht, O2, Hlim. apply swp_ret, swp_bind, swp_ret, swp_bind, swp_ret, swp_bind, swp_ret, swp_bind.
  unfold swp at 1, on_fs. cbn [sm_fs set_fs]. unfold fs_call at 1. rewrite Hs. apply swp_bind, swp_modify.
  apply (load_existing_ok s cat n mds o Hinv Hst Hl Htot Hg Ho Hdir Hsz); [done|done|].
  split; [done|]. split; [by apply empty_cache_inv|]. intros kb Hkb. by apply not_elem_of_nil in Hkb.
Qed.

(** ** The log *)

(** What replaying a record does to the destination, beyond its contents. *)
Record replayed (keys : str -> Prop) (d d' : RecoveryDestination) : Prop := {
  rp_tables : read_only (v_sstables (rd_view d)) (v_sstables (rd_view d'));
  rp_memory : forall k, ms_map (v_memtables (rd_view d)) !! k = None -> ~ keys k -> ms_map (v_memtables (rd_view d')) !! k = None
}.

Lemma read_only_trans a b c : read_only a b -> read_only b c -> read_only a c.
Proof. intros [A1 A2 A3 A4 A5 A6] [B1 B2 B3 B4 B5 B6]. split; congruence. Qed.

Lemma rd_exists_tables key d b d' :
  rd_inv d -> valid_key key -> rd_exists key d = (Ok b, d') ->
  read_only (v_sstables (rd_view d)) (v_sstables (rd_view d')) /\ v_memtables (rd_view d') = v_memtables (rd_view d).
Proof.
  intros [[cat Hv] _] Hk H. destruct d as [[m sm] live]. cbn [rd_view v_sstables v_memtables] in *.
  destruct (view_entry_ok key (mkView m sm) cat Hv Hk) as (sm' & E & _ & Hro). cbn [v_memtables v_sstables] in *.
  unfold rd_exists, on_view, mbind, stm_bind in H. cbn [rd_view] in H. rewrite E in H. unfold mret, stm_ret in H. by simplify_eq.
Qed.

Lemma rd_put_replayed key value d d' :
  rd_inv d -> valid_key key -> valid_value value -> 0 < ms_budget (v_memtables (rd_view d)) ->
  rd_put key value d = (Ok tt, d') -> replayed (eq key) d d'.
Proof.
  intros Hi Hk Hv Hb H. unfold rd_put, mbind, stm_bind in H. destruct (rd_exists key d) as [[b|] d1] eqn:E1; [|done].
  destruct (rd_exists_tables key d b d1 Hi Hk E1) as [Hro Hm]. destruct (rd_exists_ok key d Hi Hk) as (d1' & E1' & Hi1 & _).
  rewrite E1 in E1'. injection E1' as -> ->. pose proof Hi1 as [[cat Hv1] _].
  destruct (ms_put_spec key value (v_memtables (rd_view d1'))) as (m' & Em & Hw);
    [apply Hv1|done|done|apply budget_room; by rewrite Hm|].
  unfold on_view_memtables, smodify in H. rewrite Em in H. simplify_eq.
  destruct Hw as (_ & Hmap & _). split.
  - by destruct (bool_decide _).
  - intros k Hn Hne. assert (Hm' : ms_map m' !! k = None) by (rewrite Hmap, Hm, lookup_insert_ne by done; done).
    by destruct (bool_decide _).
Qed.

Lemma rd_remove_replayed key d x d' :
  rd_inv d -> valid_key key -> 0 < ms_budget (v_memtables (rd_view d)) ->
  rd_remove key d = (Ok x, d') -> replayed (eq key) d d'.
Proof.
  intros Hi Hk Hb H. unfold rd_remove, mbind, stm_bind in H. destruct (rd_exists key d) as [[b|] d1] eqn:E1; [|done].
  destruct (rd_exists_tables key d b d1 Hi Hk E1) as [Hro Hm]. destruct (rd_exists_ok key d Hi Hk) as (d1' & E1' & Hi1 & _).
  rewrite E1 in E1'. injection E1' as -> ->. pose proof Hi1 as [[cat Hv1] _].
  destruct (bool_decide (is_Some _)); cbn [negb] in H.
  2:{ unfold mret, stm_ret in H. simplify_eq. split; [done|]. intros k Hn _. by rewrite Hm. }
  destruct (ms_add_tombstone_spec key (v_memtables (rd_view d1'))) as (m' & Em & Hw); [apply Hv1|done|apply budget_room; by rewrite Hm|].
  unfold on_view_memtables, smodify in H. rewrite Em in H. unfold mret, stm_ret in H. simplify_eq.
  destruct Hw as (_ & Hmap & _). split; [done|]. intros k Hn Hne. cbn [rd_view v_memtables]. by rewrite Hmap, Hm, lookup_insert_ne.
Qed.

Lemma replay_all_replayed rs d report d' report' :
  Forall valid_record rs -> rd_inv d -> zlen rs <= ms_budget (v_memtables (rd_view d)) ->
  visit_all replay_record rs (d, report) = (Ok tt, (d', report')) ->
  replayed (fun k => is_Some (last_write rs k)) d d'.
Proof.
  revert d report. induction rs as [|r rs IH]; intros d report Hv Hi Hb H.
  { simpl in H. unfold mret, stm_ret in H. simplify_eq. split; [apply read_only_refl|done]. }
  apply Forall_cons in Hv as [Hr Hv]. rewrite zlen_cons in Hb. pose proof (zlen_nonneg rs).
  assert (kv_inv d) as Hki by exact Hi.
  destruct (replay_record_ok r d report Hr Hki) as (d1 & E1 & Hi1 & _ & Hb1); [change (kv_budget d) with (ms_budget (v_memtables (rd_view d))); lia|].
  cbn [visit_all] in H. unfold mbind, stm_bind in H. rewrite E1 in H.
  assert (Hstep : replayed (eq (w_key r)) d d1).
  { destruct Hr as [Hk Hop]. unfold replay_record, on_destination, on_report in E1. unfold mbind, stm_bind in E1.
    destruct (w_op r) eqn:Eop; [| |done].
    - rewrite bool_decide_true in E1 by done. cbn [kv_put RecoveryDestination_store] in E1.
      destruct (rd_put (w_key r) (w_value r) d) as [[[]|] d2] eqn:E2; [|done]. unfold smodify in E1. simplify_eq.
      eapply rd_put_replayed; [exact Hi|exact Hk|exact Hop|lia|exact E2].
    - rewrite bool_decide_false in E1 by done. cbn [kv_remove RecoveryDestination_store] in E1.
      destruct (rd_remove (w_key r) d) as [[x|] d2] eqn:E2; [|done]. unfold smodify in E1. simplify_eq.
      eapply rd_remove_replayed; [exact Hi|exact Hk|lia|exact E2]. }
  assert (Hb2 : ms_budget (v_memtables (rd_view d)) - 1 <= ms_budget (v_memtables (rd_view d1))) by exact Hb1.
  destruct (IH d1 _ Hv Hi1 ltac:(lia) H) as [I1 I2]. destruct Hstep as [S1 S2].
  split; [by eapply read_only_trans|]. intros k Hn Hlw.
  assert (Hne : w_key r <> k /\ last_write rs k = None).
  { unfold last_write in *. cbn [foldl] in Hlw. clear -Hlw. destruct (decide (w_key r = k)) as [E|E].
    - exfalso. apply Hlw. clear Hlw E. generalize (record_effect r) as a. induction rs as [|q rs IH]; intros a; [by eexists|].
      cbn [foldl]. destruct (decide (w_key q = k)); apply IH.
    - split; [done|]. by apply eq_None_not_Some. }
  destruct Hne as [Hne Hl]. apply I2; [by apply S2|]. rewrite Hl. by intros [].
Qed.

(** ** The store *)

(** The files after a restart of the machine: what is there is there for good. *)
Definition rebooted (files : gmap str str) : Fs := mkFs ((fun bs => mkFileData bs bs) <$> files) [] [] [].

(** What a stop of the process can leave of a store between two calls, or one
    of the machine in Sync mode or once the log has been flushed; the reads of
    the log to come fail at most by being interrupted. *)
Inductive stopped (s : PersistentKeyValueStore) : Disk -> Prop :=
| stopped_process script :
    calm script = true ->
    stopped s (mkDisk (sm_fs (sstables_ s)) (Some (mkWalOnDisk (f_data (ww_file (ps_wal s))) script true None)))
| stopped_machine files file script :
    durability_mode_ (ps_wal s) = Sync \/ dirty_ (ps_wal s) = false ->
    crash_state (mkSnapshot (fs_dir (sm_fs (sstables_ s))) (fs_old (sm_fs (sstables_ s)))) files ->
    crash_image (ps_wal s) file -> calm script = true ->
    stopped s (mkDisk (rebooted files) (Some (mkWalOnDisk file script true None))).

Lemma stopped_spec s rs disk :
  log_inv s rs -> quiet_tables s -> stopped s disk ->
  has_all (sstables_ s) (d_fs disk) /\ fs_script (d_fs disk) = [] /\
  exists script, calm script = true /\ d_wal disk = Some (mkWalOnDisk (encode_all rs) script true None).
Proof.
  intros [L1 L2 L3 L4 L5 L6] Hq [script Hc|files file script Hm Hcr [H1 H2] Hc]; cbn [d_fs d_wal].
  - split_and!; [by intros n bs|done|]. exists script. by rewrite L2.
  - split_and!; [|done|].
    + intros n bs Hk. apply kept_synced; [|done]. unfold rebooted. cbn [fs_dir]. rewrite lookup_fmap.
      by rewrite (kept_crash _ _ _ _ Hk Hcr).
    + exists script. split; [done|]. do 2 f_equal. rewrite <- L2. destruct L3 as [_ L3]. assert (Hd : dirty_ (ps_wal s) = false) by (destruct Hm; auto). rewrite (L3 Hd) in H1.
      by apply (anti_symm prefix).
Qed.

(** The reader of manifests takes files up to a limit, and 64-bit counters
    must have room for the records of the log. *)
Definition manifest_fits (sm : SSTableManager) : Prop :=
  forall bs, contents (sm_fs sm) (manifest_path (sm_manifest sm) (current_generation_ (sm_manifest sm))) = Some bs ->
    zlen bs <= kMaximumMetadataFileBytes.
Definition log_fits (s : PersistentKeyValueStore) : Prop :=
  zlen (f_data (ww_file (ps_wal s))) <
  Z.min (ms_budget (memtables_ s)) (u64_max - max_of md_max_sequence_number (sm_readers (sstables_ s))).

Lemma max_of_ge (f : SSTableMetadata -> Z) ts t : t ∈ ts -> f (mg_metadata t) <= max_of f ts.
Proof.
  unfold max_of. generalize 0 as a. intros a Ht. assert (Hmono : forall us a, a <= foldl (fun a t => Z.max a (f (mg_metadata t))) a us).
  { induction us as [|u us IH]; intros b; simpl; [lia|]. specialize (IH (Z.max b (f (mg_metadata u)))). lia. }
  revert a. induction ts as [|u ts IH]; intros a; [by apply not_elem_of_nil in Ht|]. cbn [foldl].
  apply elem_of_cons in Ht as [->|Ht]; [|by apply IH]. specialize (Hmono ts (Z.max a (f (mg_metadata u)))). lia.
Qed.

Lemma max_of_perm (f : SSTableMetadata -> Z) ts ts' : ts ≡ₚ ts' -> max_of f ts = max_of f ts'.
Proof.
  intros Hp. unfold max_of. generalize 0 as a. induction Hp as [|t ts ts' _ IH|t u ts|ts1 ts2 ts3 _ IH1 _ IH2]; intros a; simpl; [done|apply IH| |].
  - f_equal. lia.
  - by rewrite IH1.
Qed.

Lemma encode_all_count rs : zlen rs <= zlen (encode_all rs).
Proof.
  induction rs as [|r rs IH]; [done|]. rewrite encode_all_cons, zlen_cons, zlen_app. pose proof (encode_length_pos r). unfold zlen in *. lia.
Qed.

(** The view of the store before its log is replayed. *)
Lemma reopened_view v cat n o sm' cat' mem limit :
  view_inv v cat -> 0 <= capacity v -> reopened (v_sstables v) cat n o sm' cat' -> is_u64 n ->
  0 < ms_budget (v_memtables v) -> max_of md_max_sequence_number (sm_readers (v_sstables v)) <= u64_max ->
  ms_new (mkMemTableOptions limit (sm_max_sequence_number sm') (sm_next_generation sm')) = Ok mem ->
  view_inv (mkView mem sm') cat' /\ ms_map mem = ∅ /\ disk_abs sm' = disk_abs (v_sstables v) /\
  Z.min (ms_budget (v_memtables v) - 1) (u64_max - max_of md_max_sequence_number (sm_readers (v_sstables v))) <= ms_budget mem.
Proof.
  intros Hv Hcap [R1 R2 R3 R4 R5 R6 R7 R8] Hn Hb Hmx Em.
  assert (Hcm : map managed cat' ≡ₚ map managed (map (reload o) cat)) by by apply Permutation_map.
  assert (Hmax : forall f, max_of f (map managed cat') = max_of f (sm_readers (v_sstables v))).
  { intros f. rewrite (max_of_perm f _ _ Hcm), (sv_readers _ _ (vi_tables _ _ Hv)). rewrite map_map. unfold max_of. generalize 0 as a.
    clear. induction cat as [|c cat IH]; intros a; [done|]. simpl. apply IH. }
  pose proof (vi_generations _ _ Hv) as Hgens. unfold ms_budget in Hb.
  assert (Hng : 0 <= sm_next_generation sm' <= next_generation_ (v_memtables v) /\
                forall c, c ∈ cat' -> h_generation (op_header c.1) < sm_next_generation sm').
  { pose proof (ms_gen _ (vi_memory _ _ Hv)) as Hg0. unfold next_generation_of in R8. destruct (is_nil (map managed cat')) eqn:En.
    - unfold mret, result_ret in R8. injection R8 as <-. split; [lia|]. apply is_nil_true in En. intros c Hc.
      destruct cat'; [by apply not_elem_of_nil in Hc|done].
    - unfold mbind, result_bind, throw_if in R8. destruct (_ =? _); [done|]. unfold mret, result_ret in R8. injection R8 as <-.
      assert (Hlt : max_of md_generation (map managed cat') < next_generation_ (v_memtables v)).
      { rewrite (max_of_perm _ _ _ Hcm). apply max_of_bound; [lia|]. intros t Ht. rewrite map_map in Ht.
        apply list_elem_of_In, in_map_iff in Ht as (c & <- & Hc%list_elem_of_In). exact (Hgens c Hc). }
      assert (Hnn : 0 <= max_of md_generation (map managed cat')).
      { unfold max_of. clear. generalize (map managed cat'). intros ts. assert (G : forall a, 0 <= a -> 0 <= foldl (fun a t => Z.max a (md_generation (mg_metadata t))) a ts).
        { induction ts as [|t ts IH]; intros a Ha; [done|]. simpl. apply IH. lia. } by apply G. }
      split; [lia|]. intros c Hc. assert (Hc' : managed c ∈ map managed cat') by (apply list_elem_of_In, in_map; by apply list_elem_of_In).
      pose proof (max_of_ge md_generation _ _ Hc'). change (md_generation (mg_metadata (managed c))) with (h_generation (op_header c.1)) in *. lia. }
  destruct Hng as [Hng1 Hng2].
  assert (Hmx0 : 0 <= sm_max_sequence_number sm').
  { rewrite R7. unfold max_of. clear. generalize (map managed cat'). intros ts. assert (G : forall a, 0 <= a -> 0 <= foldl (fun a t => Z.max a (md_max_sequence_number (mg_metadata t))) a ts).
    { induction ts as [|t ts IH]; intros a Ha; [done|]. simpl. apply IH. lia. } by apply G. }
  rewrite <- Hmax, <- R7 in Hmx.
  destruct (ms_new_inv _ _ Em) as (Hi & _ & Ha); [cbn [initial_generation]; lia|cbn [initial_sequence_number]; lia|].
  assert (Hmem : mem = mkMemTableSet limit (mt_new (sm_next_generation sm')) [] (u64 (sm_next_generation sm' + 1)) 0 (sm_max_sequence_number sm')).
  { unfold ms_new in Em. by inv_ok. }
  assert (Hempty : ms_map mem = ∅) by (subst mem; unfold ms_map, table_map; simpl; by rewrite (right_id_L ∅ (∪))).
  assert (Hents : ms_entries mem = []) by by subst mem.
  assert (Hu : next_generation_ mem = sm_next_generation sm' + 1) by (subst mem; simpl; rewrite u64_small; lia).
  assert (Hl : last_sequence_number_ mem = sm_max_sequence_number sm') by by subst mem.
  split_and!.
  - split; cbn [v_memtables v_sstables]; try done.
    + intros es k e kv _ _ Hkv. rewrite Hents in Hkv. by apply not_elem_of_nil in Hkv.
    + intros es k e Hes Hf. rewrite Hl, R7. unfold cat_entries in Hes. apply list_elem_of_In, in_map_iff in Hes as (c & <- & Hc%list_elem_of_In).
      apply om_find_In in Hf. pose proof (oo_sequences _ (cat_ok_elem _ _ (sv_cat _ _ R2) Hc)) as Hs. rewrite Forall_forall in Hs.
      specialize (Hs (k, e) Hf). cbn [snd] in Hs. etrans; [exact Hs|].
      assert (Hc' : managed c ∈ map managed cat') by (apply list_elem_of_In, in_map; by apply list_elem_of_In).
      exact (max_of_ge md_max_sequence_number _ _ Hc').
    + intros c Hc. specialize (Hng2 c Hc). lia.
    + pose proof (vi_counters _ _ Hv) as [_ C2]. unfold counters_ok, manifest_generation in *. rewrite R5, R6. unfold is_u64 in Hn. lia.
  - done.
  - apply map_eq. intros k. unfold disk_abs. rewrite !lookup_omap, (disk_map_lookup _ _ _ R2), (disk_map_lookup _ _ _ (vi_tables _ _ Hv)).
    f_equal. apply newest_perm; [apply R2|]. unfold cat_entries. rewrite R1, map_map. done.
  - unfold ms_budget. rewrite Hu, Hl, R7, Hmax. lia.
Qed.

(** What the replay of the log leaves. *)
Lemma replay_service rs v cat live script options :
  Forall valid_record rs -> calm script = true -> view_inv v cat -> ms_map (v_memtables v) = ∅ ->
  live = u64 (Z.of_nat (size (view_abs v))) -> zlen rs <= ms_budget (v_memtables v) ->
  exists report d,
    recover (Some (mkWalOnDisk (encode_all rs) script true None)) (mkDestination v live) options
      = (Ok report, d, Some (mkWalOnDisk (encode_all rs) script true None), []) /\ rr_issue report = None /\
    rd_inv d /\ view_abs (rd_view d) = apply_records (disk_abs (v_sstables v)) rs /\
    read_only (v_sstables v) (v_sstables (rd_view d)) /\ covers rs (rd_view d).
Proof.
  intros Hv Hc Hvi He Hl Hb. set (d0 := mkDestination v live).
  assert (Hi0 : rd_inv d0) by (split; [by exists cat|done]). assert (Hki : kv_inv d0) by exact Hi0.
  assert (Ha0 : view_abs v = disk_abs (v_sstables v)).
  { unfold view_abs, view_map, disk_abs. by rewrite He, (left_id_L ∅ (∪)). }
  destruct (replay_all_ok rs d0 empty_report Hv Hki Hb) as (d1 & E2 & Hi1 & Ha1); [done|].
  destruct (replay_all_replayed rs d0 _ d1 _ Hv Hi0 Hb E2) as [R1 R2].
  assert (Habs : view_abs (rd_view d1) = apply_records (disk_abs (v_sstables v)) rs) by (rewrite <- Ha0; exact Ha1).
  eexists _, d1. split.
  { unfold recover. cbn [wd_open wd_bytes wd_script]. rewrite <- (app_nil_r (encode_all rs)) at 1.
    rewrite (scan_log _ rs [] None) by (done || apply scan_stops_nil).
    unfold mbind, stm_bind. rewrite E2. unfold mret, stm_ret. cbn [issue issue_of]. reflexivity. }
  split_and!; try done. intros k. destruct (last_write rs k) as [w|] eqn:Ek.
  - by rewrite Habs, apply_records_lookup, Ek.
  - apply R2; [change (rd_view d0) with v; by rewrite He|]. rewrite Ek. by intros [].
Qed.

(** The tables show what is live in them. *)
Lemma disk_view sm cat : sm_inv sm cat -> disk_abs sm = view (cat_entries cat).
Proof. intros Hi. unfold disk_abs, disk_map, view. by rewrite (sm_entries_cat _ _ Hi). Qed.

(** A store that was stopped opens again. *)
Lemma new_store_restarts s disk o reads writes :
  in_service s -> 0 <= spare (ps_view s) -> stopped s disk -> opens_well o reads writes ->
  resolve_sstable_directory o = so_directory (sm_options (sstables_ s)) -> manifest_fits (sstables_ s) -> log_fits s ->
  exists s' disk', new_store o disk reads writes = (Ok s', disk', []) /\ in_service s' /\ view_abs (ps_view s') = view_abs (ps_view s).
Proof.
  intros [[[cat Hv] Hlive] [rs Hlog] Hq Hod] Hsp Hst [W1 W2 W3 W4 W5 W6 W7] Hdir Hmf Hlf.
  destruct (stopped_spec s rs disk Hlog Hq Hst) as (Hall & Hfs & script & Hcalm & Hwal).
  destruct Hod as [Htab (n & mds & Hl)]. pose proof (spare_capacity (ps_view s)) as Hcap.
  pose proof (vi_tables _ _ Hv) as Hinv. set (oo := with_directory (resolve_sstable_directory o) (po_sstables o)) in *.
  assert (Htot : total_entries (cat_entries cat) <= u32_max).
  { rewrite <- (sm_entries_cat _ _ Hinv). unfold capacity, load in Hcap. pose proof (zlen_nonneg (ms_entries (v_memtables (ps_view s)))). unfold sstables_ in *. lia. }
  assert (Hgens : forall c, c ∈ cat -> h_generation (op_header c.1) < u64_max).
  { intros c Hc. pose proof (vi_generations _ _ Hv c Hc). unfold capacity in Hcap. lia. }
  unfold log_fits in Hlf. pose proof (zlen_nonneg (f_data (ww_file (ps_wal s)))) as Hn0.
  rewrite (li_data _ _ Hlog) in Hlf, Hn0. pose proof (encode_all_count rs) as Hcount.
  destruct (new_manager_reopens _ cat n mds oo (d_fs disk) reads Hinv Htab Hl Htot Hgens W1 W2 Hdir) as (sm & cat' & E1 & Hre); try done.
  { apply Hmf. apply kept_now, (ls_manifest _ _ _ Hl). }
  unfold new_store. fold oo. rewrite E1, W3. destruct (ms_new _) as [mem|] eqn:Em.
  2:{ unfold ms_new in Em. cbn [max_memory_bytes] in Em. by rewrite (proj2 (Z.eqb_neq _ _)) in Em by lia. }
  destruct (reopened_view (ps_view s) cat n oo sm cat' mem (po_memtable_max_bytes o) Hv ltac:(lia) Hre (proj1 (sw_next _ (ls_wf _ _ _ Hl))))
    as (Hvi & Hemp & Hdabs & Hbud); [unfold memtables_ in Hlf; lia|unfold sstables_ in Hlf; lia|exact Em|].
  assert (Hlive' : sm_live_key_count sm = u64 (Z.of_nat (size (view_abs (mkView mem sm))))).
  { assert (Hd : view_abs (mkView mem sm) = disk_abs sm).
    { unfold view_abs, view_map, disk_abs. cbn [v_memtables v_sstables]. by rewrite Hemp, (left_id_L ∅ (∪)). }
    pose proof (re_inv _ _ _ _ _ _ Hre) as Hinv'. rewrite Hd, (disk_view _ _ Hinv'), (sv_live _ _ Hinv'). symmetry. apply u64_small.
    pose proof (size_view_le (cat_entries cat)) as Hsz. rewrite <- (disk_view _ _ Hinv) in Hsz. unfold sstables_ in Hsz.
    rewrite <- Hdabs, (disk_view _ _ Hinv') in Hsz. unfold u32_max, u64_max in *. lia. }
  rewrite Hwal.
  destruct (replay_service rs (mkView mem sm) cat' _ script
    (mkRecoveryOptions (po_truncate_invalid_wal_tail o) (po_emit_recovery_diagnostics o)) (li_valid _ _ Hlog) Hcalm Hvi Hemp Hlive')
    as (report & d & Er & Hiss & Hrd & Habs & Hro & Hcov); [cbn [v_memtables]; unfold memtables_, sstables_ in *; lia|].
  rewrite Er, Hiss. unfold open_log, wal_open. cbn [existing_log wd_bytes d_wal]. rewrite W3, (proj2 (Z.leb_gt _ _)) by lia.
  unfold mbind, result_bind, throw_if, mret, result_ret. do 2 eexists. split; [reflexivity|].
  split; [|cbn [ps_view]; rewrite Habs; cbn [v_sstables]; rewrite Hdabs; apply covers_replay, Hlog]. split.
  - by destruct Hrd; split.
  - exists rs. split; [apply Hlog|done|split; [by unfold wal_prefix|done]|by split|done|exact Hcov].
  - unfold quiet_tables, sstables_. cbn [ps_view]. rewrite (ro_fs _ _ Hro). apply Hre.
  - unfold sstables_. cbn [ps_view]. eapply on_disk_same; [apply Hro..| |apply Hre]. rewrite (ro_file_id _ _ Hro). done.
Qed.

(** ** What a restart keeps *)


(** ** Witness *)

(** Two writes: the first is flushed to a table, the second is in the log. *)
Definition demo_writes : list _ := [KPut (bytes_of "a") demo_value; KPut (bytes_of "b") (bytes_of "2")].
Definition demo_stopped : PersistentKeyValueStore := (kv_execs demo_writes demo_store).2.

(** The disk after the machine stopped. *)
Definition demo_disk : Disk :=
  mkDisk (rebooted (fd_durable <$> fs_dir (sm_fs (sstables_ demo_stopped))))
    (Some (mkWalOnDisk (f_durable (ww_file (ps_wal demo_stopped))) [Interrupted] true None)).
Definition demo_reopening : PersistentStoreOptions :=
  mkStoreOptions (bytes_of "wal") (bytes_of "db") Sync 100 150 demo_options true true true.

Lemma demo_in_service : in_service demo_store.
Proof.
  split; [apply demo_store_inv|exists []; apply demo_store_log|apply demo_store_quiet|].
  assert (Hd : exists m f sn, new_manager demo_options (empty_fs []) [] = (Ok tt, fresh_manager demo_options m [] f) /\
    commit (mkManifestManager (so_directory demo_options) [] 0) [] 1 (empty_fs []) = (Ok (sn, m), f)).
  { assert (Hc : 0 < so_block_cache_capacity_bytes demo_options) by reflexivity.
    destruct (new_manager_empty demo_options (empty_fs []) [] demo_options_ok Hc eq_refl eq_refl)
      as (m & f & E & _ & _ & _ & sn & Hcm). exists m, f, sn. exact (conj E Hcm). }
  destruct Hd as (m & f & sn & E & Hc). pose proof (fresh_manager_disk demo_options m [] (empty_fs []) f sn eq_refl Hc) as H.
  assert (Hm : demo_manager = fresh_manager demo_options m [] f) by (unfold demo_manager; rewrite E; reflexivity).
  rewrite <- Hm in H. exact H.
Qed.

Lemma demo_stopped_facts :
  resolve_sstable_directory demo_reopening = so_directory (sm_options (sstables_ demo_stopped)) /\
  match contents (sm_fs (sstables_ demo_stopped))
          (manifest_path (sm_manifest (sstables_ demo_stopped)) (current_generation_ (sm_manifest (sstables_ demo_stopped)))) with
  | Some bs => zlen bs <=? kMaximumMetadataFileBytes
  | None => false
  end = true /\ log_fits demo_stopped /\ durability_mode_ (ps_wal demo_stopped) = Sync /\
  level_table_count Level0 (sstables_ demo_stopped) = 1 /\
  forallb (fun nc => bool_decide (fd_durable nc.2 `prefix_of` fd_data nc.2)) (map_to_list (fs_dir (sm_fs (sstables_ demo_stopped)))) = true.
Proof. by vm_compute. Qed.

Lemma demo_disk_left : stopped demo_stopped demo_disk.
Proof.
  destruct demo_stopped_facts as (_ & _ & _ & Hm & _ & Hp). unfold demo_disk. apply stopped_machine; [by left| | |done].
  - exists (fs_dir (sm_fs (sstables_ demo_stopped))). split; [by left|]. intros name. rewrite lookup_fmap. cbn [sn_dir].
    destruct (fs_dir (sm_fs (sstables_ demo_stopped)) !! name) as [c|] eqn:E; [|done]. cbn [fmap option_fmap option_map]. split; [done|].
    rewrite forallb_forall in Hp. apply elem_of_map_to_list in E. apply list_elem_of_In in E. specialize (Hp _ E). by apply bool_decide_eq_true in Hp.
  - split; [done|]. destruct (execs_in_service demo_writes demo_store demo_in_service) as ([_ [rs Hl] _ _] & _); [by vm_compute|]. apply Hl.
Qed.

