(* ===== verification/RaftTypes.v ===== *)
(** * The data of the Raft core

    include/nebulakv/raft/types.hpp: commands, log entries, the messages of the
    three remote calls, snapshots, and what a node keeps on disk. *)

From S2P Require Import Prelude Store.

(** ** Definitions *)

Abbreviation NodeId := str.

Record Peer := mkPeer { p_id : NodeId; p_address : str }.

Inductive Role := Follower | Candidate | Leader.

(** [to_string] of src/raft/types.cpp *)
Definition role_name (r : Role) : string :=
  match r with Follower => "follower" | Candidate => "candidate" | Leader => "leader" end.

Inductive CommandType := Noop | Put | Delete.

Record Command := mkCommand { c_type : CommandType; c_key : str; c_value : str }.

(** [Command{}] *)
Definition noop : Command := mkCommand Noop [] [].

Record LogEntry := mkLogEntry { le_index : Z; le_term : Z; le_command : Command }.

Record RequestVoteRequest := mkVoteRequest {
  rv_term : Z;
  rv_candidate_id : NodeId;
  rv_last_log_index : Z;
  rv_last_log_term : Z
}.

Record RequestVoteResponse := mkVoteResponse { vr_term : Z; vr_vote_granted : bool }.

Record AppendEntriesRequest := mkAppendRequest {
  ae_term : Z;
  ae_leader_id : NodeId;
  ae_previous_log_index : Z;
  ae_previous_log_term : Z;
  ae_entries : list LogEntry;
  ae_leader_commit : Z
}.

Record AppendEntriesResponse := mkAppendResponse {
  ar_term : Z;
  ar_success : bool;
  ar_match_index : Z;
  ar_conflict_index : Z
}.

Record InstallSnapshotRequest := mkSnapshotRequest {
  is_term : Z;
  is_leader_id : NodeId;
  is_last_included_index : Z;
  is_last_included_term : Z;
  is_payload : str
}.

Record InstallSnapshotResponse := mkSnapshotResponse {
  ir_term : Z;
  ir_success : bool;
  ir_installed_index : Z
}.

Inductive SubmitStatus := Committed | NotLeader | Timeout | Unavailable | InvalidCommand.

Record SubmitResult := mkSubmitResult {
  sr_status : SubmitStatus;
  sr_log_index : Z;
  sr_term : Z;
  sr_leader_id : NodeId;
  sr_message : string
}.

Record Snapshot := mkSnapshot {
  last_included_index : Z;
  last_included_term : Z;
  payload : str
}.

Record HardState := mkHardState {
  current_term : Z;
  voted_for : NodeId;
  commit_index : Z;
  last_applied : Z
}.

(** [HardState{}] *)
Definition initial_hard_state : HardState := mkHardState 0 [] 0 0.

Record PersistentState := mkPersistentState {
  pst_hard_state : HardState;
  pst_log : list LogEntry;
  pst_snapshot : option Snapshot
}.

(** Times are in milliseconds. *)
Record RaftNodeOptions := mkNodeOptions {
  no_node_id : NodeId;
  no_peers : list Peer;
  no_election_timeout_min : Z;
  no_election_timeout_max : Z;
  no_heartbeat_interval : Z;
  no_rpc_timeout : Z;
  no_max_append_entries : Z;
  no_snapshot_threshold_entries : Z
}.

#[export] Instance Role_eq_dec : EqDecision Role.
Proof. solve_decision. Defined.
#[export] Instance CommandType_eq_dec : EqDecision CommandType.
Proof. solve_decision. Defined.
#[export] Instance Command_eq_dec : EqDecision Command.
Proof. solve_decision. Defined.
#[export] Instance LogEntry_eq_dec : EqDecision LogEntry.
Proof. solve_decision. Defined.
#[export] Instance Snapshot_eq_dec : EqDecision Snapshot.
Proof. solve_decision. Defined.
#[export] Instance HardState_eq_dec : EqDecision HardState.
Proof. solve_decision. Defined.
#[export] Instance RequestVoteRequest_eq_dec : EqDecision RequestVoteRequest.
Proof. solve_decision. Defined.
#[export] Instance RequestVoteResponse_eq_dec : EqDecision RequestVoteResponse.
Proof. solve_decision. Defined.
#[export] Instance AppendEntriesRequest_eq_dec : EqDecision AppendEntriesRequest.
Proof. solve_decision. Defined.
#[export] Instance AppendEntriesResponse_eq_dec : EqDecision AppendEntriesResponse.
Proof. solve_decision. Defined.
#[export] Instance InstallSnapshotRequest_eq_dec : EqDecision InstallSnapshotRequest.
Proof. solve_decision. Defined.
#[export] Instance InstallSnapshotResponse_eq_dec : EqDecision InstallSnapshotResponse.
Proof. solve_decision. Defined.
#[export] Instance SubmitStatus_eq_dec : EqDecision SubmitStatus.
Proof. solve_decision. Defined.

(** ** Indices

    The entries of a log are numbered one after the other. *)

(** The comparison of neighbours in [RaftStorage::decode_log] and in the
    constructor of [RaftNode]. *)
Fixpoint contiguous (entries : list LogEntry) : bool :=
  match entries with
  | a :: ((b :: _) as rest) => (le_index b =? u64 (le_index a + 1)) && contiguous rest
  | _ => true
  end.

(** [entries] are numbered from [first] on. *)
Fixpoint numbered (first : Z) (entries : list LogEntry) : Prop :=
  match entries with
  | [] => True
  | e :: rest => le_index e = first /\ numbered (first + 1) rest
  end.

Lemma numbered_app first l1 l2 :
  numbered first (l1 ++ l2) <-> numbered first l1 /\ numbered (first + zlen l1) l2.
Proof.
  revert first. induction l1 as [|e l1 IH]; intros first; simpl.
  - rewrite Z.add_0_r. tauto.
  - rewrite IH, zlen_cons. replace (first + 1 + zlen l1) with (first + (1 + zlen l1)) by lia. tauto.
Qed.

Lemma numbered_lookup first l i e :
  numbered first l -> l !! i = Some e -> le_index e = first + Z.of_nat i.
Proof.
  revert first i. induction l as [|a l IH]; intros first i; [done|]. intros [H1 H2] Hi.
  destruct i as [|i]; simpl in Hi; [simplify_eq; lia|]. rewrite (IH _ _ H2 Hi). lia.
Qed.

Lemma numbered_last first l e : numbered first l -> last l = Some e -> le_index e = first + zlen l - 1.
Proof.
  intros Hn Hl. destruct l as [|a l']; [done|]. rewrite last_lookup in Hl.
  apply (numbered_lookup _ _ _ _ Hn) in Hl. simpl in Hl. unfold zlen. simpl length. lia.
Qed.

Lemma numbered_drop first l n : numbered first l -> numbered (first + Z.of_nat n) (drop n l).
Proof.
  revert first n. induction l as [|a l IH]; intros first n H; [by rewrite drop_nil|].
  destruct n as [|n]; [by rewrite Z.add_0_r|]. simpl. destruct H as [_ H].
  replace (first + Z.of_nat (S n)) with (first + 1 + Z.of_nat n) by lia. by apply IH.
Qed.

Lemma numbered_take first l n : numbered first l -> numbered first (take n l).
Proof. intros H. rewrite <- (take_drop n l) in H. by apply numbered_app in H as [? _]. Qed.

Lemma contiguous_numbered e l :
  0 <= le_index e -> le_index e + zlen l <= u64_max ->
  contiguous (e :: l) = true <-> numbered (le_index e) (e :: l).
Proof.
  revert e. induction l as [|b l IH]; intros e Hp Hmax; [by simpl; tauto|].
  rewrite zlen_cons in Hmax. pose proof (zlen_nonneg l).
  change (contiguous (e :: b :: l)) with ((le_index b =? u64 (le_index e + 1)) && contiguous (b :: l)).
  rewrite andb_true_iff, Z.eqb_eq, u64_small by lia. cbn [numbered]. split.
  - intros [Hb Hc]. apply IH in Hc; [|lia..]. rewrite Hb in Hc. simpl in Hc. tauto.
  - intros (_ & Hb & Hc). split; [done|]. apply IH; [lia..|]. simpl. rewrite Hb. tauto.
Qed.
