(* ===== verification/RaftCodec.v ===== *)
(** * The files of the Raft core

    src/raft/serialization.hpp and the codecs of src/raft/storage.cpp: commands
    and log entries, and the hard state, the log and the snapshot as the
    payloads of files with a magic number, a version and a checksum.  The
    allocation that [entries.reserve(count)] asks for is taken to succeed. *)

From S2P Require Import Prelude Codec Checksum Store RaftTypes.

(** ** Definitions *)

Definition truncated_data : exn := RuntimeError "truncated encoded data".

(** [append_bytes] *)
Definition append_bytes (value : str) : result str :=
  _ ← throw_if (u32_max <? zlen value) (LengthError "encoded string is too large");
  mret (le_bytes 4 (zlen value) ++ value).

Definition read_u8 : dec Z := dec_uint truncated_data 1.
Definition read_u32 : dec Z := dec_uint truncated_data 4.
Definition read_u64 : dec Z := dec_uint truncated_data 8.

Definition read_bytes : dec str :=
  size ← read_u32;
  dec_string truncated_data size.

Definition command_code (t : CommandType) : Z := match t with Noop => 0 | Put => 1 | Delete => 2 end.

Definition encode_command (c : Command) : result str :=
  key ← append_bytes (c_key c);
  value ← append_bytes (c_value c);
  mret (le_bytes 1 (command_code (c_type c)) ++ key ++ value).

(** [static_cast<CommandType>(type)], for a type that passed the check. *)
Definition decode_command : dec Command :=
  type ← read_u8;
  _ ← dec_throw_if (2 <? type) (RuntimeError "invalid Raft command type");
  key ← read_bytes;
  value ← read_bytes;
  mret (mkCommand (if type =? 0 then Noop else if type =? 1 then Put else Delete) key value).

Definition encode_entry (e : LogEntry) : result str :=
  command ← encode_command (le_command e);
  mret (le_bytes 8 (le_index e) ++ le_bytes 8 (le_term e) ++ command).

Definition decode_entry : dec LogEntry :=
  index ← read_u64;
  term ← read_u64;
  command ← decode_command;
  mret (mkLogEntry index term command).

(** *** Payloads *)

Definition encode_hard_state (h : HardState) : result str :=
  voted ← append_bytes (voted_for h);
  mret (le_bytes 8 (current_term h) ++ voted ++ le_bytes 8 (commit_index h) ++ le_bytes 8 (last_applied h)).

(** A payload decoded to its end. *)
Definition decode_all {A} (p : dec A) (unexpected : exn) : dec A :=
  a ← p;
  at_end ← dec_at_end;
  _ ← dec_throw_if (negb at_end) unexpected;
  mret a.

Definition run_decoder {A} (p : dec A) (payload : str) : result A :=
  match p (mkDecoder payload 0) with Ok (a, _) => Ok a | Throw e => Throw e end.

Definition decode_hard_state : str -> result HardState :=
  run_decoder (decode_all
    (term ← read_u64;
     voted ← read_bytes;
     commit ← read_u64;
     applied ← read_u64;
     mret (mkHardState term voted commit applied))
    (RuntimeError "unexpected bytes in Raft hard state")).

Fixpoint encode_entries (entries : list LogEntry) : result str :=
  match entries with
  | [] => mret []
  | e :: rest =>
      x ← encode_entry e;
      y ← encode_entries rest;
      mret (x ++ y)
  end.

Definition encode_log (entries : list LogEntry) : result str :=
  y ← encode_entries entries;
  mret (le_bytes 8 (zlen entries) ++ y).

Fixpoint decode_entries (count : nat) : dec (list LogEntry) :=
  match count with
  | O => mret []
  | S count' =>
      e ← decode_entry;
      rest ← decode_entries count';
      mret (e :: rest)
  end.

Definition decode_log (payload : str) : result (list LogEntry) :=
  entries ← run_decoder (decode_all
    (count ← read_u64;
     decode_entries (Z.to_nat count))
    (RuntimeError "unexpected bytes in Raft log")) payload;
  _ ← throw_if (negb (contiguous entries)) (RuntimeError "Raft log indices are not contiguous");
  mret entries.

Definition encode_snapshot (s : Snapshot) : result str :=
  p ← append_bytes (payload s);
  mret (le_bytes 8 (last_included_index s) ++ le_bytes 8 (last_included_term s) ++ p).

Definition decode_snapshot : str -> result Snapshot :=
  run_decoder (decode_all
    (index ← read_u64;
     term ← read_u64;
     p ← read_bytes;
     mret (mkSnapshot index term p))
    (RuntimeError "unexpected bytes in Raft snapshot")).

(** *** Envelopes *)

Definition kHardMagic : str := bytes_of "NBHR".
Definition kLogMagic : str := bytes_of "NBRL".
Definition kSnapshotMagic : str := bytes_of "NBRS".
Definition kVersion : Z := 1.
Definition kEnvelopeBytes : Z := 4 + 4 + 4.

Definition wrap_payload (magic payload : str) : str :=
  magic ++ le_bytes 4 kVersion ++ payload ++ le_bytes 4 (crc32 payload).

(** [unwrap_payload], on the bytes of the file. *)
Definition unwrap_payload (encoded expected_magic : str) : result str :=
  _ ← throw_if (zlen encoded <? kEnvelopeBytes) (RuntimeError "truncated Raft file");
  _ ← throw_if (negb (str_eqb (take 4 encoded) expected_magic)) (RuntimeError "invalid Raft file magic");
  version ← run_decoder read_u32 (subspan encoded 4 4);
  _ ← throw_if (negb (version =? kVersion)) (RuntimeError "unsupported Raft file version");
  let payload := subspan encoded 8 (zlen encoded - kEnvelopeBytes) in
  stored ← run_decoder read_u32 (drop (Z.to_nat (zlen encoded - 4)) encoded);
  _ ← throw_if (negb (stored =? crc32 payload)) (RuntimeError "Raft file checksum mismatch");
  mret payload.

(** ** Values that fit their fields *)

Definition short (s : str) : Prop := zlen s <= u32_max.
Definition command_wf (c : Command) : Prop := short (c_key c) /\ short (c_value c).
Definition entry_wf (e : LogEntry) : Prop := is_u64 (le_index e) /\ is_u64 (le_term e) /\ command_wf (le_command e).
Definition hard_state_wf (h : HardState) : Prop :=
  is_u64 (current_term h) /\ short (voted_for h) /\ is_u64 (commit_index h) /\ is_u64 (last_applied h).
Definition snapshot_wf (s : Snapshot) : Prop :=
  is_u64 (last_included_index s) /\ is_u64 (last_included_term s) /\ short (payload s).
Definition log_wf (entries : list LogEntry) : Prop :=
  Forall entry_wf entries /\ contiguous entries = true /\ zlen entries <= u64_max.

(** ** Exact decoders

    [p] reads what [pr] prints of the values that satisfy [wf], and nothing
    else. *)

Record codec {A} (p : dec A) (pr : A -> str) (wf : A -> Prop) : Prop := {
  codec_ok : forall a, wf a -> decodes p (pr a) a;
  codec_inv : forall d all a d', dec_at d all -> p d = Ok (a, d') ->
    exists rest, wf a /\ all = pr a ++ rest /\ dec_at d' rest
}.

Lemma codec_ext {A} (p : dec A) pr pr' wf wf' :
  codec p pr wf -> (forall a, wf a <-> wf' a) -> (forall a, wf a -> pr a = pr' a) -> codec p pr' wf'.
Proof.
  intros [H1 H2] Hw Hp. split.
  - intros a Ha%Hw. rewrite <- Hp by done. by apply H1.
  - intros d all a d' Hd E. destruct (H2 _ _ _ _ Hd E) as (rest & Ha & -> & Hd'). exists rest.
    rewrite Hp by done. split; [by apply Hw|done].
Qed.

Lemma codec_ret {A} (a : A) : codec (mret a) (fun _ => []) (fun x => x = a).
Proof.
  split; [intros x ->; apply decodes_ret|]. intros d all x d' Hd [= <- <-]. by exists all.
Qed.

Lemma codec_seq {A B} (p : dec A) (f : A -> dec B) prA prB wfA wfB (g : B -> A) :
  codec p prA wfA -> (forall a, wfA a -> codec (f a) prB (fun b => wfB b /\ g b = a)) ->
  codec (p ≫= f) (fun b => prA (g b) ++ prB b) (fun b => wfA (g b) /\ wfB b).
Proof.
  intros [P1 P2] Hf. split.
  - intros b [Ha Hb]. eapply decodes_bind; [by apply P1|]. by apply (codec_ok _ _ _ (Hf _ Ha)).
  - intros d all b d' Hd (a & d1 & E1 & E2)%dec_bind_inv. destruct (P2 _ _ _ _ Hd E1) as (rest & Ha & -> & Hd1).
    destruct (codec_inv _ _ _ (Hf a Ha) _ _ _ _ Hd1 E2) as (rest' & [Hb <-] & -> & Hd').
    exists rest'. rewrite <- app_assoc. by split_and!.
Qed.

Lemma codec_guard {B} b e (k : unit -> dec B) pr wf :
  (b = false -> codec (k tt) pr wf) -> (forall x, wf x -> b = false) -> codec (dec_throw_if b e ≫= k) pr wf.
Proof.
  intros Hk Hb. split.
  - intros x Hx. apply decodes_bind_nil with (a := tt); [by apply decodes_throw_if, (Hb x)|]. by apply (codec_ok _ _ _ (Hk (Hb x Hx))).
  - intros d all x d' Hd ([] & d1 & [Hf ->]%dec_throw_if_inv & E)%dec_bind_inv. by eapply (codec_inv _ _ _ (Hk Hf)).
Qed.

Lemma codec_uint e n : codec (dec_uint e n) (le_bytes n) (fun v => 0 <= v < 256 ^ Z.of_nat n).
Proof.
  split; [intros; by apply decodes_uint|]. intros d all v d' Hd E.
  destruct (dec_uint_inv n d all v d' Hd E) as (rest & -> & Hv & Hd'). by exists rest.
Qed.

(** Only the low bytes of a number are written. *)
Lemma le_bytes_mod n v : le_bytes n (v mod 256 ^ Z.of_nat n) = le_bytes n v.
Proof. rewrite <- le_val_bytes. rewrite <- (le_bytes_length n v) at 1. apply le_bytes_val. Qed.

Lemma codec_u64 : codec read_u64 (le_bytes 8) is_u64.
Proof. eapply codec_ext; [apply codec_uint| |done]. intros v. unfold is_u64, u64_max. simpl. lia. Qed.

Definition print_bytes (s : str) : str := le_bytes 4 (zlen s) ++ s.

Lemma codec_bytes : codec read_bytes print_bytes short.
Proof.
  unfold read_bytes. eapply codec_ext.
  - apply (codec_seq read_u32 _ (le_bytes 4) (fun s => s) (fun v => 0 <= v < 256 ^ Z.of_nat 4) (fun _ => True) zlen); [apply codec_uint|]. intros n Hn. split.
    + intros s [_ Hs]. by apply decodes_string.
    + intros d all s d' Hd E. destruct (dec_string_inv n d all s d' Hd (proj1 Hn) E) as (rest & -> & Hs & Hd'). by exists rest.
  - intros s. unfold short, u32_max. pose proof (zlen_nonneg s). simpl. lia.
  - done.
Qed.

Lemma append_bytes_iff s bs : append_bytes s = Ok bs <-> short s /\ bs = print_bytes s.
Proof.
  unfold append_bytes, short. split.
  - intros H. inv_ok. zbool. done.
  - intros [H ->]. rewrite throw_if_false by (apply Z.ltb_ge; lia). done.
Qed.

(** *** Commands and entries *)

Definition print_command (c : Command) : str :=
  le_bytes 1 (command_code (c_type c)) ++ print_bytes (c_key c) ++ print_bytes (c_value c).
Definition print_entry (e : LogEntry) : str :=
  le_bytes 8 (le_index e) ++ le_bytes 8 (le_term e) ++ print_command (le_command e).

Lemma encode_command_iff c bs : encode_command c = Ok bs <-> command_wf c /\ bs = print_command c.
Proof.
  unfold encode_command, command_wf, print_command. split.
  - intros H. inv_ok. apply append_bytes_iff in E as [? ->], E0 as [? ->]. done.
  - intros [[H1 H2] ->]. by rewrite (proj2 (append_bytes_iff _ _) (conj H1 eq_refl)), (proj2 (append_bytes_iff _ _) (conj H2 eq_refl)).
Qed.

Lemma encode_entry_iff e bs :
  encode_entry e = Ok bs <-> command_wf (le_command e) /\ bs = print_entry e.
Proof.
  unfold encode_entry, print_entry. split.
  - intros H. inv_ok. apply encode_command_iff in E as [? ->]. done.
  - intros [H ->]. by rewrite (proj2 (encode_command_iff _ _) (conj H eq_refl)).
Qed.

Lemma codec_command : codec decode_command print_command command_wf.
Proof.
  unfold decode_command. eapply codec_ext.
  - apply (codec_seq _ _ (le_bytes 1) (fun c => print_bytes (c_key c) ++ print_bytes (c_value c)) (fun v => 0 <= v < 256 ^ Z.of_nat 1) command_wf
             (fun c => command_code (c_type c))); [apply codec_uint|]. intros t Ht.
    apply codec_guard; [intros Ht2; zbool|by intros [[] k v] [_ <-]].
    eapply codec_ext.
    + apply (codec_seq _ _ print_bytes (fun c => print_bytes (c_value c)) short
               (fun c => short (c_value c) /\ command_code (c_type c) = t) c_key codec_bytes).
      intros k Hk. eapply codec_ext.
      * apply (codec_seq _ _ print_bytes (fun _ => []) short (fun c => command_code (c_type c) = t /\ c_key c = k) c_value codec_bytes).
        intros v Hv. eapply codec_ext; [apply codec_ret| |done].
        intros [ty k' v']. simpl. split; [|by intros [[<- ->] ->]; destruct ty].
        intros [= -> -> ->]. split_and!; [|done..].
        assert (t = 0 \/ t = 1 \/ t = 2) as [-> | [-> | ->]] by lia; done.
      * intros c. tauto.
      * intros c _. apply app_nil_r.
    + unfold command_wf. intros c. tauto.
    + done.
  - intros c. unfold command_wf. split; [tauto|]. intros H. split; [by destruct (c_type c)|done].
  - done.
Qed.

Lemma codec_entry : codec decode_entry print_entry entry_wf.
Proof.
  unfold decode_entry. eapply codec_ext.
  - apply (codec_seq _ _ (le_bytes 8) (fun e => le_bytes 8 (le_term e) ++ print_command (le_command e)) is_u64
             (fun e => is_u64 (le_term e) /\ command_wf (le_command e)) le_index codec_u64). intros i Hi. eapply codec_ext.
    + apply (codec_seq _ _ (le_bytes 8) (fun e => print_command (le_command e)) is_u64
               (fun e => command_wf (le_command e) /\ le_index e = i) le_term codec_u64). intros t Ht. eapply codec_ext.
      * apply (codec_seq _ _ print_command (fun _ => []) command_wf (fun e => le_index e = i /\ le_term e = t) le_command codec_command).
        intros c Hc. eapply codec_ext; [apply codec_ret| |done]. intros [i' t' c']. simpl. split; intros ?; destruct_and?; by simplify_eq.
      * intros e. tauto.
      * intros e _. apply app_nil_r.
    + intros e. tauto.
    + done.
  - intros e. unfold entry_wf. tauto.
  - done.
Qed.

(** *** Whole payloads *)

Lemma decode_all_iff {A} (p : dec A) pr wf unexpected bytes a :
  codec p pr wf -> zlen bytes <= u64_max ->
  run_decoder (decode_all p unexpected) bytes = Ok a <-> wf a /\ bytes = pr a.
Proof.
  intros Hc Hl. assert (Hd : dec_at (mkDecoder bytes 0) bytes) by by exists []. unfold run_decoder, decode_all. split.
  - destruct ((p ≫= _) _) as [[x d']|] eqn:E; [|done]. intros [= ->].
    apply dec_bind_inv in E as (y & d1 & E1 & (at_end & d2 & E2 & ([] & d3 & [Ht ->]%dec_throw_if_inv & E3)%dec_bind_inv)%dec_bind_inv).
    injection E3 as <- <-. destruct (codec_inv _ _ _ Hc _ _ _ _ Hd E1) as (rest & Hw & -> & Hd1).
    destruct at_end; [|done]. assert (d2 = d1) as -> by by injection E2. apply dec_at_end_inv in Hd1 as ->; [|done].
    by rewrite app_nil_r.
  - intros [Hw ->]. destruct (decodes_run p (pr a) a Hl (codec_ok _ _ _ Hc a Hw)) as (d1 & E1 & Ho).
    unfold mbind at 1, dec_bind at 1. rewrite E1. unfold mbind, dec_bind, dec_at_end. by rewrite Ho, Z.eqb_refl.
Qed.

Definition print_hard_state (h : HardState) : str :=
  le_bytes 8 (current_term h) ++ print_bytes (voted_for h) ++ le_bytes 8 (commit_index h) ++ le_bytes 8 (last_applied h).

Lemma decode_hard_state_iff bytes h :
  zlen bytes <= u64_max -> decode_hard_state bytes = Ok h <-> hard_state_wf h /\ bytes = print_hard_state h.
Proof.
  intros Hl. apply decode_all_iff; [|done]. eapply codec_ext.
  - apply (codec_seq _ _ (le_bytes 8) (fun h => print_bytes (voted_for h) ++ le_bytes 8 (commit_index h) ++ le_bytes 8 (last_applied h))
             is_u64 (fun h => short (voted_for h) /\ is_u64 (commit_index h) /\ is_u64 (last_applied h)) current_term codec_u64).
    intros t Ht. eapply codec_ext.
    + apply (codec_seq _ _ print_bytes (fun h => le_bytes 8 (commit_index h) ++ le_bytes 8 (last_applied h))
               short (fun h => is_u64 (commit_index h) /\ is_u64 (last_applied h) /\ current_term h = t) voted_for codec_bytes).
      intros v Hv. eapply codec_ext.
      * apply (codec_seq _ _ (le_bytes 8) (fun h => le_bytes 8 (last_applied h)) is_u64
                 (fun h => is_u64 (last_applied h) /\ current_term h = t /\ voted_for h = v) commit_index codec_u64).
        intros c Hc. eapply codec_ext.
        -- apply (codec_seq _ _ (le_bytes 8) (fun _ => []) is_u64
                    (fun h => current_term h = t /\ voted_for h = v /\ commit_index h = c) last_applied codec_u64).
           intros a Ha. eapply codec_ext; [apply codec_ret| |done]. intros [t' v' c' a']. simpl. split; intros ?; destruct_and?; by simplify_eq.
        -- intros x. tauto.
        -- intros x _. apply app_nil_r.
      * intros x. tauto.
      * done.
    + intros x. tauto.
    + done.
  - intros x. unfold hard_state_wf. tauto.
  - done.
Qed.

Definition print_snapshot (s : Snapshot) : str :=
  le_bytes 8 (last_included_index s) ++ le_bytes 8 (last_included_term s) ++ print_bytes (payload s).

Lemma decode_snapshot_iff bytes s :
  zlen bytes <= u64_max -> decode_snapshot bytes = Ok s <-> snapshot_wf s /\ bytes = print_snapshot s.
Proof.
  intros Hl. apply decode_all_iff; [|done]. eapply codec_ext.
  - apply (codec_seq _ _ (le_bytes 8) (fun s => le_bytes 8 (last_included_term s) ++ print_bytes (payload s))
             is_u64 (fun s => is_u64 (last_included_term s) /\ short (payload s)) last_included_index codec_u64).
    intros i Hi. eapply codec_ext.
    + apply (codec_seq _ _ (le_bytes 8) (fun s => print_bytes (payload s)) is_u64
               (fun s => short (payload s) /\ last_included_index s = i) last_included_term codec_u64).
      intros t Ht. eapply codec_ext.
      * apply (codec_seq _ _ print_bytes (fun _ => []) short
                 (fun s => last_included_index s = i /\ last_included_term s = t) payload codec_bytes).
        intros p Hp. eapply codec_ext; [apply codec_ret| |done]. intros [i' t' p']. simpl. split; intros ?; destruct_and?; by simplify_eq.
      * intros x. tauto.
      * intros x _. apply app_nil_r.
    + intros x. tauto.
    + done.
  - intros x. unfold snapshot_wf. tauto.
  - done.
Qed.

Definition print_entries (entries : list LogEntry) : str := concat (map print_entry entries).
Definition print_log (entries : list LogEntry) : str := le_bytes 8 (zlen entries) ++ print_entries entries.

Lemma codec_entries n :
  codec (decode_entries n) print_entries (fun es => Forall entry_wf es /\ length es = n).
Proof.
  induction n as [|n IH]; simpl.
  - eapply codec_ext; [apply codec_ret| |by intros a ->]. intros [|e es]; simpl; [done|].
    by split; [|intros [_ ?]].
  - split.
    + intros es [Hw Hn]. destruct es as [|e es]; [done|]. apply Forall_cons in Hw as [He Hw]. injection Hn as Hn.
      eapply decodes_bind; [by apply (codec_ok _ _ _ codec_entry)|]. apply decodes_bind_last with (a := es); [by apply (codec_ok _ _ _ IH)|apply decodes_ret].
    + intros d all es d' Hd (e & d1 & E1 & (rest & d2 & E2 & E3)%dec_bind_inv)%dec_bind_inv. injection E3 as <- <-.
      destruct (codec_inv _ _ _ codec_entry _ _ _ _ Hd E1) as (r1 & He & -> & Hd1).
      destruct (codec_inv _ _ _ IH _ _ _ _ Hd1 E2) as (r2 & [Hw Hn] & -> & Hd2). exists r2.
      split_and!; [by constructor|by rewrite <- Hn| |done]. unfold print_entries. cbn [map concat]. by rewrite <- app_assoc.
Qed.

Lemma decode_log_iff bytes es :
  zlen bytes <= u64_max -> decode_log bytes = Ok es <-> log_wf es /\ bytes = print_log es.
Proof.
  intros Hl. assert (Hc : codec (count ← read_u64; decode_entries (Z.to_nat count)) print_log
    (fun es => Forall entry_wf es /\ zlen es <= u64_max)).
  { eapply codec_ext.
    - apply (codec_seq _ _ (le_bytes 8) print_entries is_u64 (Forall entry_wf) zlen codec_u64). intros n Hn.
      eapply codec_ext; [apply codec_entries| |done]. intros x. unfold zlen. unfold is_u64 in Hn. split; intros [? ?]; split; try done; lia.
    - intros x. unfold is_u64. pose proof (zlen_nonneg x). intuition lia.
    - done. }
  unfold decode_log, log_wf. pose proof (decode_all_iff _ _ _ (RuntimeError "unexpected bytes in Raft log") bytes es Hc Hl) as Hi. split.
  - intros H. inv_ok. apply Hi in E as [[? ?] ->]. zbool. done.
  - intros [(H1 & H2 & H3) ->]. rewrite (proj2 Hi) by done. cbn. by rewrite H2.
Qed.

Lemma encode_hard_state_iff h bs :
  encode_hard_state h = Ok bs <-> short (voted_for h) /\ bs = print_hard_state h.
Proof.
  unfold encode_hard_state, print_hard_state. split.
  - intros H. inv_ok. apply append_bytes_iff in E as [? ->]. done.
  - intros [H ->]. by rewrite (proj2 (append_bytes_iff _ _) (conj H eq_refl)).
Qed.

Lemma encode_snapshot_iff s bs : encode_snapshot s = Ok bs <-> short (payload s) /\ bs = print_snapshot s.
Proof.
  unfold encode_snapshot, print_snapshot. split.
  - intros H. inv_ok. apply append_bytes_iff in E as [? ->]. done.
  - intros [H ->]. by rewrite (proj2 (append_bytes_iff _ _) (conj H eq_refl)).
Qed.

Lemma encode_log_iff es bs :
  encode_log es = Ok bs <-> Forall (fun e => command_wf (le_command e)) es /\ bs = print_log es.
Proof.
  assert (H : forall x, encode_entries es = Ok x <-> Forall (fun e => command_wf (le_command e)) es /\ x = print_entries es).
  { induction es as [|e es IH]; intros x; simpl.
    - split; [intros [= <-]; by repeat constructor|by intros [_ ->]].
    - split.
      + intros H. inv_ok. apply encode_entry_iff in E as [He ->]. apply IH in E0 as [Hes ->]. split; [by constructor|done].
      + intros [[He Hes]%Forall_cons ->]. rewrite (proj2 (encode_entry_iff _ _) (conj He eq_refl)).
        by rewrite (proj2 (IH _) (conj Hes eq_refl)). }
  unfold encode_log, print_log. split.
  - intros E. inv_ok. apply H in E0 as [? ->]. done.
  - intros [Hw ->]. by rewrite (proj2 (H _) (conj Hw eq_refl)).
Qed.

(** *** Envelopes *)

Lemma read_u32_whole bs v : zlen bs = 4 -> run_decoder read_u32 bs = Ok v <-> bs = le_bytes 4 v /\ 0 <= v < 256 ^ 4.
Proof.
  intros Hl. assert (Hd : dec_at (mkDecoder bs 0) bs) by (exists []; split_and!; [done..|simpl; rewrite Hl; unfold u64_max; lia]).
  unfold run_decoder. split.
  - destruct (read_u32 _) as [[x d']|] eqn:E; [|done]. intros [= ->].
    destruct (codec_inv _ _ _ (codec_uint truncated_data 4) _ _ _ _ Hd E) as (rest & Hv & -> & _).
    rewrite zlen_app, le_bytes_zlen in Hl. assert (rest = []) as -> by (apply zlen_0; lia). by rewrite app_nil_r.
  - intros [-> Hv]. destruct (decodes_run read_u32 (le_bytes 4 v) v) as (d & E & _); [|by apply decodes_uint|by rewrite E].
    rewrite Hl. unfold u64_max. lia.
Qed.

Lemma wrap_payload_zlen magic p : zlen magic = 4 -> zlen (wrap_payload magic p) = kEnvelopeBytes + zlen p.
Proof. intros H. unfold wrap_payload. rewrite !zlen_app, !le_bytes_zlen, H. unfold kEnvelopeBytes. lia. Qed.

Lemma unwrap_wrap magic p : zlen magic = 4 -> unwrap_payload (wrap_payload magic p) magic = Ok p.
Proof.
  intros Hm. pose proof (wrap_payload_zlen magic p Hm) as Hz. pose proof (zlen_nonneg p). unfold unwrap_payload.
  rewrite (proj2 (Z.ltb_ge _ _)) by lia.
  assert (H4 : take 4 (wrap_payload magic p) = magic).
  { unfold wrap_payload. replace 4%nat with (length magic) by (unfold zlen in Hm; lia). apply take_app_length. }
  assert (Hv : subspan (wrap_payload magic p) 4 4 = le_bytes 4 kVersion) by by apply subspan_app.
  assert (Hp : subspan (wrap_payload magic p) 8 (zlen (wrap_payload magic p) - kEnvelopeBytes) = p).
  { unfold wrap_payload at 1. rewrite (app_assoc magic). apply subspan_app; [by rewrite zlen_app, Hm, le_bytes_zlen|lia]. }
  assert (Hc : drop (Z.to_nat (zlen (wrap_payload magic p) - 4)) (wrap_payload magic p) = le_bytes 4 (crc32 p)).
  { unfold wrap_payload at 2. rewrite !app_assoc. apply drop_app_length'. rewrite !length_app, le_bytes_length.
    rewrite Hz. unfold kEnvelopeBytes, zlen in *. lia. }
  rewrite H4, Hv, Hp, Hc, str_eqb_refl. cbn [negb throw_if mbind result_bind].
  rewrite (proj2 (read_u32_whole _ kVersion (le_bytes_zlen 4 kVersion))) by (split; [done|unfold kVersion; lia]).
  cbn [mbind result_bind negb throw_if Z.eqb kVersion Pos.eqb]. rewrite (proj2 (read_u32_whole _ (crc32 p) (le_bytes_zlen 4 _))); [cbn [mbind result_bind]; by rewrite Z.eqb_refl|].
  split; [done|]. apply crc32_range.
Qed.

Lemma unwrap_payload_iff encoded magic p :
  zlen magic = 4 -> unwrap_payload encoded magic = Ok p <-> encoded = wrap_payload magic p.
Proof.
  intros Hm. split; [|intros ->; by apply unwrap_wrap]. intros H. unfold unwrap_payload in H. inv_ok. zbool. sbool.
  set (n := zlen encoded) in *. unfold kEnvelopeBytes in *.
  assert (Hl1 : zlen (subspan encoded 4 4) = 4) by (apply subspan_zlen; lia).
  assert (Hl2 : zlen (drop (Z.to_nat (n - 4)) encoded) = 4) by (unfold n, zlen in *; rewrite length_drop; lia).
  apply read_u32_whole in E1 as [E1 _]; [|done]. apply read_u32_whole in E3 as [E3 _]; [|done].
  unfold wrap_payload. subst. rewrite <- E3, <- E1 at 1.
  unfold subspan. change (Z.to_nat 4) with 4%nat. change (Z.to_nat 8) with 8%nat.
  rewrite <- (take_drop 4 encoded) at 1. f_equal. rewrite <- (take_drop 4 (drop 4 encoded)) at 1. f_equal. rewrite drop_drop.
  change (4 + 4)%nat with 8%nat. rewrite <- (take_drop (Z.to_nat (n - (4 + 4 + 4))) (drop 8 encoded)) at 1. f_equal.
  rewrite drop_drop. f_equal. lia.
Qed.
