(* ===== verification/RaftStorage.v ===== *)
(** * The storage of a Raft node

    src/raft/storage.cpp: the hard state, the log and the snapshot of a node,
    each in a file of its own that is written whole to a temporary file, synced
    and renamed into place.  [Storage] is what the node needs of it, with its
    laws: after a crash, whenever it comes, each file is what a save that
    returned has made it, or what a save that did not return may have.  A file
    that is there is read in full. *)

From S2P Require Import Prelude Codec Checksum Posix FileSystem Path Store RaftTypes RaftCodec.

(** ** Definitions *)

Record RaftStorage := mkRaftStorage {
  rs_directory : str;
  rs_fs : Fs
}.

Definition hard_state_path (directory : str) : str := path_join directory (bytes_of "hard-state.bin").
Definition log_path (directory : str) : str := path_join directory (bytes_of "raft-log.bin").
Definition snapshot_path (directory : str) : str := path_join directory (bytes_of "snapshot.bin").

(** The constructor. *)
Definition new_storage (directory : str) : stm Fs RaftStorage :=
  _ ← slift (throw_if (is_nil directory) (InvalidArgument "Raft storage directory must not be empty"));
  _ ← fs_call (fun e => SystemError e "filesystem error: cannot create directories");
  f ← sget;
  mret (mkRaftStorage directory f).

(** *** Writing a file *)

(** [::fsync] made once: interrupted, it fails. *)
Definition fs_fsync_once (on_error : Z -> exn) (name : str) : stm Fs unit :=
  _ ← fs_call on_error;
  smodify (fun f => match fs_dir f !! name with
                    | Some c => fs_update name (mkFileData (fd_data c) (fd_data c)) f
                    | None => f
                    end).

(** [std::filesystem::remove(name)] *)
Definition fs_remove (name : str) : stm Fs unit :=
  _ ← fs_call (fun e => SystemError e "filesystem error: cannot remove");
  smodify (fun f => fs_change (delete name (fs_dir f)) f).

Definition sync_directory : stm Fs unit :=
  _ ← fs_call (fun e => SystemError e "failed to open Raft directory");
  _ ← fs_call (fun e => SystemError e "failed to synchronize Raft directory");
  _ ← smodify (fun f => mkFs (fs_dir f) [] (fs_script f) (fs_history f ++ [FileSystem.mkSnapshot (fs_dir f) []]));
  fs_call (fun e => SystemError e "failed to close Raft directory").

Definition temporary (path : str) : str := path ++ bytes_of ".tmp".

Definition fill_temporary (tmp data : str) : stm Fs unit :=
  scatch
    (_ ← fs_write (fun e => SystemError e "failed to write Raft file") None tmp data;
     _ ← fs_fsync_once (fun e => SystemError e "failed to synchronize Raft file") tmp;
     fs_call (fun e => SystemError e "failed to close Raft file"))
    (fun ex => _ ← fs_remove_ignored tmp; sthrow ex).

(** The code of the failed rename is kept. *)
Definition publish_error (ex : exn) : exn :=
  match ex with SystemError e _ => SystemError e "failed to publish Raft file" | _ => ex end.

Definition atomic_write (path data : str) : stm Fs unit :=
  _ ← fs_call (fun e => SystemError e "filesystem error: cannot create directories");
  let tmp := temporary path in
  _ ← fs_create (fun e => SystemError e "failed to create temporary Raft file") tmp;
  _ ← fill_temporary tmp data;
  _ ← scatch (fs_rename tmp path)
        (fun ex => _ ← fs_remove tmp; sthrow (publish_error ex));
  sync_directory.

Definition on_storage_fs {A} (c : stm Fs A) : stm RaftStorage A :=
  fun s => match c (rs_fs s) with (r, f) => (r, mkRaftStorage (rs_directory s) f) end.

Definition save_hard_state (h : HardState) : stm RaftStorage unit :=
  s ← sget;
  payload ← slift (encode_hard_state h);
  on_storage_fs (atomic_write (hard_state_path (rs_directory s)) (wrap_payload kHardMagic payload)).

Definition replace_log (entries : list LogEntry) : stm RaftStorage unit :=
  s ← sget;
  payload ← slift (encode_log entries);
  on_storage_fs (atomic_write (log_path (rs_directory s)) (wrap_payload kLogMagic payload)).

Definition save_snapshot (snapshot : Snapshot) : stm RaftStorage unit :=
  _ ← slift (throw_if (last_included_index snapshot =? 0) (InvalidArgument "snapshot index must be greater than zero"));
  s ← sget;
  payload ← slift (encode_snapshot snapshot);
  on_storage_fs (atomic_write (snapshot_path (rs_directory s)) (wrap_payload kSnapshotMagic payload)).

(** *** Loading *)

Definition read_hard_state (bytes : str) : result HardState :=
  p ← unwrap_payload bytes kHardMagic;
  decode_hard_state p.
Definition read_log (bytes : str) : result (list LogEntry) :=
  p ← unwrap_payload bytes kLogMagic;
  decode_log p.
Definition read_snapshot (bytes : str) : result Snapshot :=
  p ← unwrap_payload bytes kSnapshotMagic;
  decode_snapshot p.

Definition load_files (directory : str) (files : gmap str str) : result PersistentState :=
  h ← match files !! hard_state_path directory with
      | Some bytes => read_hard_state bytes
      | None => mret initial_hard_state
      end;
  l ← match files !! log_path directory with
      | Some bytes => read_log bytes
      | None => mret []
      end;
  s ← match files !! snapshot_path directory with
      | Some bytes => Some <$> read_snapshot bytes
      | None => mret None
      end;
  mret (mkPersistentState h l s).

Definition load (s : RaftStorage) : result PersistentState := load_files (rs_directory s) (all_contents (rs_fs s)).

(** ** What a save does to the directories a crash can bring back *)

Definition now (f : Fs) : FileSystem.Snapshot := FileSystem.mkSnapshot (fs_dir f) (fs_old f).
Definition has_dir (s : FileSystem.Snapshot) (d : Directory) : Prop := d = sn_dir s \/ d ∈ sn_old s.

(** What is durable of a file is the beginning of it. *)
Definition dir_wf (d : Directory) : Prop := map_Forall (fun _ c => fd_durable c `prefix_of` fd_data c) d.
Definition fs_wf (f : Fs) : Prop := forall d, has_dir (now f) d -> dir_wf d.

Section rewriting.
Context (tmp path : str) (new : FileData).

(** [d'] is [d] with the temporary file changed, and the file itself as it
    was or replaced by [new]. *)
Definition derived (d d' : Directory) : Prop :=
  (forall n, n <> tmp -> n <> path -> d' !! n = d !! n) /\ (d' !! path = d !! path \/ d' !! path = Some new).

Definition snap_derived (s s' : FileSystem.Snapshot) : Prop :=
  forall d', has_dir s' d' -> exists d, has_dir s d /\ derived d d'.

Definition rewrites (f f' : Fs) : Prop :=
  snap_derived (now f) (now f') /\ derived (fs_dir f) (fs_dir f') /\ (fs_wf f -> fs_wf f') /\
  exists l, fs_history f' = fs_history f ++ l /\ Forall (snap_derived (now f)) l.

Lemma derived_refl d : derived d d.
Proof. split; [done|by left]. Qed.

Lemma derived_trans d1 d2 d3 : derived d1 d2 -> derived d2 d3 -> derived d1 d3.
Proof.
  intros [H1 H2] [H3 H4]. split; [intros n Hn Hp; by rewrite H3, H1|].
  destruct H4 as [->| ->]; [done|by right].
Qed.

Lemma snap_derived_trans s1 s2 s3 : snap_derived s1 s2 -> snap_derived s2 s3 -> snap_derived s1 s3.
Proof.
  intros H1 H2 d3 Hd3. destruct (H2 _ Hd3) as (d2 & Hd2 & D2). destruct (H1 _ Hd2) as (d1 & Hd1 & D1).
  exists d1. split; [done|]. by eapply derived_trans.
Qed.

Lemma rewrites_refl f : rewrites f f.
Proof.
  split_and!; [|apply derived_refl|done|exists []; by rewrite app_nil_r].
  intros d Hd. exists d. split; [done|apply derived_refl].
Qed.

Lemma rewrites_trans f1 f2 f3 : rewrites f1 f2 -> rewrites f2 f3 -> rewrites f1 f3.
Proof.
  intros (S1 & D1 & W1 & l1 & H1 & F1) (S2 & D2 & W2 & l2 & H2 & F2).
  split_and!; [by eapply snap_derived_trans|by eapply derived_trans|auto|]. exists (l1 ++ l2).
  rewrite H2, H1, app_assoc. split; [done|]. apply Forall_app. split; [done|].
  eapply Forall_impl; [exact F2|]. intros s Hs. by eapply snap_derived_trans.
Qed.

Lemma rewrites_same f f' :
  fs_dir f' = fs_dir f /\ fs_old f' = fs_old f /\ fs_history f' = fs_history f -> rewrites f f'.
Proof.
  intros (H1 & H2 & H3). destruct (rewrites_refl f) as (R1 & R2 & _ & l & R3 & R4).
  split_and!; [unfold now; by rewrite H1, H2|by rewrite H1|unfold fs_wf, now; by rewrite H1, H2|]. exists l. by rewrite H3.
Qed.

(** A new directory, a file of it changed, or the old ones forgotten. *)
Lemma rewrites_change d f : derived (fs_dir f) d -> (dir_wf (fs_dir f) -> dir_wf d) -> rewrites f (fs_change d f).
Proof.
  intros Hd Hw. assert (Hs : snap_derived (now f) (now (fs_change d f))).
  { intros d' [->|Hd']; [exists (fs_dir f); split; [by left|done]|]. simpl in Hd'. exists d'.
    split; [|apply derived_refl]. apply elem_of_cons in Hd' as [->|Hd']; [by left|by right]. }
  split_and!; [done|done| |].
  { intros Hf d' [->|Hd']; [apply Hw, Hf; by left|]. apply elem_of_cons in Hd' as [->|Hd']; apply Hf; [by left|by right]. }
  exists [now (fs_change d f)]. split; [done|]. by repeat constructor.
Qed.

Lemma rewrites_update c f :
  tmp <> path -> (dir_wf (fs_dir f) -> fd_durable c `prefix_of` fd_data c) -> rewrites f (fs_update tmp c f).
Proof.
  intros Hne Hc. assert (Hd : derived (fs_dir f) (<[tmp := c]> (fs_dir f))).
  { split; [intros n Hn Hp; by rewrite lookup_insert_ne|left; by rewrite lookup_insert_ne]. }
  assert (Hs : snap_derived (now f) (now (fs_update tmp c f))).
  { intros d' [->|Hd']; [exists (fs_dir f); split; [by left|done]|]. exists d'. split; [by right|apply derived_refl]. }
  split_and!; [done|done| |].
  { intros Hf d' [->|Hd']; [|apply Hf; by right]. assert (Hw : dir_wf (fs_dir f)) by (apply Hf; by left).
    apply map_Forall_insert_2; [by apply Hc|done]. }
  exists [now (fs_update tmp c f)]. split; [done|]. by repeat constructor.
Qed.

Lemma rewrites_settle f :
  rewrites f (mkFs (fs_dir f) [] (fs_script f) (fs_history f ++ [FileSystem.mkSnapshot (fs_dir f) []])).
Proof.
  assert (Hs : snap_derived (now f) (FileSystem.mkSnapshot (fs_dir f) [])).
  { intros d' [->|Hd']; [|by apply not_elem_of_nil in Hd']. exists (fs_dir f). split; [by left|apply derived_refl]. }
  split_and!; [done|apply derived_refl| |].
  { intros Hf d' [->|Hd']; [apply Hf; by left|by apply not_elem_of_nil in Hd']. }
  eexists. split; [reflexivity|]. by repeat constructor.
Qed.

Definition rewriting {A} (c : stm Fs A) : Prop := forall f r f', c f = (r, f') -> rewrites f f'.

Lemma rewriting_bind {A B} (c : stm Fs A) (k : A -> stm Fs B) :
  rewriting c -> (forall a, rewriting (k a)) -> rewriting (c ≫= k).
Proof.
  intros Hc Hk f r f' H. unfold mbind, stm_bind in H. destruct (c f) as [[a|e] f1] eqn:E.
  - eapply rewrites_trans; [by eapply Hc|by eapply Hk].
  - simplify_eq. by eapply Hc.
Qed.

Lemma rewriting_catch {A} (c : stm Fs A) (k : exn -> stm Fs A) :
  rewriting c -> (forall e, rewriting (k e)) -> rewriting (scatch c k).
Proof.
  intros Hc Hk f r f' H. unfold scatch in H. destruct (c f) as [[a|e] f1] eqn:E.
  - simplify_eq. by eapply Hc.
  - eapply rewrites_trans; [by eapply Hc|by eapply Hk].
Qed.

Lemma rewriting_modify (g : Fs -> Fs) : (forall f, rewrites f (g f)) -> rewriting (smodify g).
Proof. intros Hg f r f' [= <- <-]. apply Hg. Qed.

Lemma rewriting_throw {A} e : rewriting (@sthrow Fs A e).
Proof. intros f r f' [= <- <-]. apply rewrites_refl. Qed.

Lemma rewriting_call on_error : rewriting (fs_call on_error).
Proof. intros f r f' H%fs_call_inv. by apply rewrites_same. Qed.

Lemma derived_tmp d d' : tmp <> path -> (forall n, n <> tmp -> d' !! n = d !! n) -> derived d d'.
Proof. intros Hne H. split; [intros n Hn _; by apply H|left; by apply H; congruence]. Qed.

Lemma rewriting_create on_error : tmp <> path -> rewriting (fs_create on_error tmp).
Proof.
  intros Hne. apply rewriting_bind; [apply rewriting_call|]. intros _. apply rewriting_modify. intros f.
  apply rewrites_change; [apply derived_tmp; [done|]; intros n Hn; by rewrite lookup_insert_ne|].
  intros Hw. by apply map_Forall_insert_2.
Qed.

Lemma rewriting_write on_error on_zero bytes : tmp <> path -> rewriting (fs_write on_error on_zero tmp bytes).
Proof.
  intros Hne f r f' H. unfold fs_write in H. destruct (fs_dir f !! tmp) as [c|] eqn:Ec; [|simplify_eq; apply rewrites_refl].
  destruct (write_loop _ _ _ _ _) as [[r0 data] s] eqn:E. simplify_eq. apply write_loop_spec in E as (n & -> & _).
  eapply rewrites_trans; [apply (rewrites_same f (fs_set_script s f)); done|]. apply rewrites_update; [done|].
  intros Hw. etrans; [exact (Hw _ _ Ec)|by eexists].
Qed.

Lemma rewriting_fsync on_error : tmp <> path -> rewriting (fs_fsync_once on_error tmp).
Proof.
  intros Hne. apply rewriting_bind; [apply rewriting_call|]. intros _. apply rewriting_modify. intros f.
  destruct (fs_dir f !! tmp); [by apply rewrites_update; [|intros _; simpl]|apply rewrites_refl].
Qed.

Lemma derived_delete d : tmp <> path -> derived d (delete tmp d).
Proof. intros Hne. apply derived_tmp; [done|]. intros n Hn. by rewrite lookup_delete_ne. Qed.

Lemma rewriting_remove : tmp <> path -> rewriting (fs_remove tmp).
Proof.
  intros Hne. apply rewriting_bind; [apply rewriting_call|]. intros _. apply rewriting_modify. intros f.
  apply rewrites_change; [by apply derived_delete|]. intros Hw. by apply map_Forall_delete.
Qed.

Lemma rewriting_remove_ignored : tmp <> path -> rewriting (fs_remove_ignored tmp).
Proof.
  intros Hne f r f' H. unfold fs_remove_ignored in H. destruct (fs_call _ f) as [r0 f0] eqn:E.
  apply rewriting_call in E. destruct r0; simplify_eq; [|done].
  eapply rewrites_trans; [done|]. apply rewrites_change; [by apply derived_delete|]. intros Hw. by apply map_Forall_delete.
Qed.

Lemma rewriting_sync : rewriting sync_directory.
Proof.
  apply rewriting_bind; [apply rewriting_call|]. intros _. apply rewriting_bind; [apply rewriting_call|]. intros _.
  apply rewriting_bind; [|intros _; apply rewriting_call]. apply rewriting_modify. intros f. apply rewrites_settle.
Qed.

Lemma rewriting_fill data : tmp <> path -> rewriting (fill_temporary tmp data).
Proof.
  intros Hne. apply rewriting_catch.
  - apply rewriting_bind; [by apply rewriting_write|]. intros _. apply rewriting_bind; [by apply rewriting_fsync|].
    intros _. apply rewriting_call.
  - intros e. apply rewriting_bind; [by apply rewriting_remove_ignored|]. intros _. apply rewriting_throw.
Qed.

Lemma rename_rewrites f r f' :
  tmp <> path -> fs_dir f !! tmp = Some new -> fs_rename tmp path f = (r, f') ->
  rewrites f f' /\ (r = Ok tt -> fs_dir f' !! path = Some new).
Proof.
  intros Hne Ht H. unfold fs_rename, mbind, stm_bind in H. destruct (fs_call cannot_rename f) as [[[]|e] f1] eqn:E;
    [|simplify_eq; split; [by eapply rewriting_call|done]].
  pose proof (rewriting_call _ _ _ _ E) as R1. apply fs_call_inv in E as (E1 & _). unfold smodify in H. rewrite E1, Ht in H.
  simplify_eq. split; [|intros _; apply lookup_insert_eq]. eapply rewrites_trans; [done|]. apply rewrites_change.
  2:{ rewrite E1. intros Hw. apply map_Forall_insert_2; [exact (Hw _ _ Ht)|by apply map_Forall_delete]. }
  rewrite E1. split; [|right; apply lookup_insert_eq]. intros n Hn Hp. by rewrite lookup_insert_ne, lookup_delete_ne.
Qed.
End rewriting.

Lemma temporary_ne path : temporary path <> path.
Proof. intros H%(f_equal length). unfold temporary in H. rewrite length_app in H. simpl in H. lia. Qed.

Lemma fill_temporary_ok tmp data f f' :
  holds tmp [] f -> fill_temporary tmp data f = (Ok tt, f') -> fs_dir f' !! tmp = Some (mkFileData data data).
Proof.
  intros Hh H. unfold fill_temporary, scatch, mbind, stm_bind in H.
  destruct (fs_write _ None tmp data f) as [[[]|e] f1] eqn:E1; [|by destruct (fs_remove_ignored tmp f1) as [[]]].
  apply (fs_write_ok _ _ _ []) in E1; [|done]. simpl in E1. unfold fs_fsync_once, mbind, stm_bind, smodify in H.
  destruct (fs_call _ f1) as [[[]|e] f2] eqn:E2; [|by destruct (fs_remove_ignored tmp f2) as [[]]].
  apply fs_call_inv in E2 as (E2 & _). unfold holds in E1. rewrite <- E2 in E1.
  destruct (fs_dir f2 !! tmp) as [c|] eqn:Ec; [|done]. simpl in E1. injection E1 as E1.
  destruct (fs_call _ (fs_update _ _ _)) as [[[]|e] f3] eqn:E3; [|by destruct (fs_remove_ignored tmp f3) as [[]]].
  simplify_eq. rewrite (fs_call_same _ _ _ _ tmp E3). apply lookup_insert_eq.
Qed.

(** A save, however it ends. *)
Lemma raft_write_spec path data f r f' :
  atomic_write path data f = (r, f') ->
  rewrites (temporary path) path (mkFileData data data) f f' /\
  (r = Ok tt -> fs_old f' = [] /\ fs_dir f' !! path = Some (mkFileData data data)).
Proof.
  pose proof (temporary_ne path) as Hne. set (tmp := temporary path) in *. set (new := mkFileData data data).
  unfold atomic_write, mbind, stm_bind. fold tmp.
  destruct (fs_call _ f) as [[[]|e] f0] eqn:E0; pose proof (rewriting_call tmp path new _ _ _ _ E0) as R0; [|by intros [= <- <-]].
  destruct (fs_create _ tmp f0) as [[[]|e] f1] eqn:E1;
    pose proof (rewrites_trans _ _ _ _ _ _ R0 (rewriting_create tmp path new _ Hne _ _ _ E1)) as R1; [|by intros [= <- <-]].
  apply fs_create_ok in E1. destruct (fill_temporary tmp data f1) as [[[]|e] f2] eqn:E2;
    pose proof (rewrites_trans _ _ _ _ _ _ R1 (rewriting_fill tmp path new _ Hne _ _ _ E2)) as R2; [|by intros [= <- <-]].
  apply (fill_temporary_ok _ _ _ _ E1) in E2. unfold scatch at 1. destruct (fs_rename tmp path f2) as [r3 f3] eqn:E3.
  destruct (rename_rewrites tmp path new _ _ _ Hne E2 E3) as [R3 Hp].
  pose proof (rewrites_trans _ _ _ _ _ _ R2 R3) as R4. clear R0 R1 R2 R3. destruct r3 as [[]|e3].
  - intros E4. pose proof (rewriting_sync tmp path new _ _ _ E4) as R5. split; [by eapply rewrites_trans|].
    intros ->. unfold sync_directory, mbind, stm_bind, smodify in E4.
    destruct (fs_call _ f3) as [[[]|] f4] eqn:E5; [|done]. destruct (fs_call _ f4) as [[[]|] f5] eqn:E6; [|done].
    pose proof (fs_call_same _ _ _ _ path E5) as P5. pose proof (fs_call_same _ _ _ _ path E6) as P6.
    pose proof (fs_call_same _ _ _ _ path E4) as P4. apply fs_call_inv in E4 as (_ & -> & _). split; [done|].
    rewrite P4. simpl. rewrite P6, P5. by apply Hp.
  - destruct (fs_remove tmp f3) as [[[]|e4] f4] eqn:E4;
      pose proof (rewrites_trans _ _ _ _ _ _ R4 (rewriting_remove tmp path new Hne _ _ _ E4)) as R5; by intros [= <- <-].
Qed.

(** ** What a crash leaves of a directory under a save *)

(** [files] with what [d] has under [n]. *)
Definition patch (d : Directory) (n : str) (files : gmap str str) : gmap str str :=
  match d !! n with Some c => <[n := fd_data c]> files | None => delete n files end.

Lemma patch_eq d n files : patch d n files !! n = fd_data <$> d !! n.
Proof. unfold patch. destruct (d !! n); simpl; [apply lookup_insert_eq|apply lookup_delete_eq]. Qed.
Lemma patch_ne d n m files : n <> m -> patch d n files !! m = files !! m.
Proof. intros H. unfold patch. destruct (d !! n); [by rewrite lookup_insert_ne|by rewrite lookup_delete_ne]. Qed.

Definition leaves (c : option FileData) (bs : option str) : Prop :=
  match c, bs with
  | Some c, Some bs => fd_durable c `prefix_of` bs /\ bs `prefix_of` fd_data c
  | None, None => True
  | _, _ => False
  end.

Lemma leaves_whole d n : dir_wf d -> leaves (d !! n) (fd_data <$> d !! n).
Proof. intros Hw. destruct (d !! n) as [c|] eqn:E; simpl; [split; [exact (Hw _ _ E)|done]|done]. Qed.

Lemma crash_derived tmp path data f s' files' :
  fs_wf f -> tmp <> path -> snap_derived tmp path (mkFileData data data) (now f) s' -> crash_state s' files' ->
  exists files, crash_state (now f) files /\ (forall n, n <> tmp -> n <> path -> files' !! n = files !! n) /\
    (files' !! path = files !! path \/ files' !! path = Some data).
Proof.
  intros Hw Hne Hs (d' & Hd' & Hf). destruct (Hs d' Hd') as (d & Hd & H1 & H2). pose proof (Hw d Hd) as Hdw.
  destruct H2 as [H2|H2].
  - exists (patch d tmp files'). split_and!.
    + exists d. split; [done|]. intros n. destruct (decide (n = tmp)) as [->|Hn]; [rewrite patch_eq; by apply leaves_whole|].
      rewrite patch_ne by done. specialize (Hf n). destruct (decide (n = path)) as [->|Hp]; [by rewrite <- H2|by rewrite <- H1].
    + intros n Hn Hp. by rewrite patch_ne.
    + left. by rewrite patch_ne.
  - exists (patch d path (patch d tmp files')). split_and!.
    + exists d. split; [done|]. intros n. destruct (decide (n = path)) as [->|Hp]; [rewrite patch_eq; by apply leaves_whole|].
      rewrite patch_ne by done. destruct (decide (n = tmp)) as [->|Hn]; [rewrite patch_eq; by apply leaves_whole|].
      rewrite patch_ne by done. specialize (Hf n). by rewrite <- H1.
    + intros n Hn Hp. by rewrite !patch_ne.
    + right. specialize (Hf path). rewrite H2 in Hf. destruct (files' !! path) as [bs|]; [|done]. simpl in Hf.
      f_equal. destruct Hf. by apply (anti_symm prefix).
Qed.

Lemma crash_settled f path data files :
  fs_old f = [] -> fs_dir f !! path = Some (mkFileData data data) -> crash_state (now f) files -> files !! path = Some data.
Proof.
  intros Ho Hd (d & Hdd & Hf). assert (d = fs_dir f) as -> by (destruct Hdd as [->|Hdd]; [done|]; simpl in Hdd; rewrite Ho in Hdd; by apply not_elem_of_nil in Hdd).
  specialize (Hf path). rewrite Hd in Hf. destruct (files !! path) as [bs|]; [|done]. simpl in Hf. f_equal. destruct Hf. by apply (anti_symm prefix).
Qed.

(** ** The interface *)

Class Storage (S : Type) := {
  st_load : S -> result PersistentState;
  st_save_hard_state : HardState -> stm S unit;
  st_replace_log : list LogEntry -> stm S unit;
  st_save_snapshot : Snapshot -> stm S unit
}.

Definition with_hard (h : HardState) (p : PersistentState) : PersistentState := mkPersistentState h (pst_log p) (pst_snapshot p).
Definition with_log (l : list LogEntry) (p : PersistentState) : PersistentState := mkPersistentState (pst_hard_state p) l (pst_snapshot p).
Definition with_snapshot (s : Snapshot) (p : PersistentState) : PersistentState := mkPersistentState (pst_hard_state p) (pst_log p) (Some s).

(** Values whose numbers are 64 bits wide, in files whose sizes are. *)
Definition hard_fits (h : HardState) : Prop :=
  is_u64 (current_term h) /\ is_u64 (commit_index h) /\ is_u64 (last_applied h).
Definition log_fits (es : list LogEntry) : Prop :=
  Forall (fun e => is_u64 (le_index e) /\ is_u64 (le_term e)) es /\ contiguous es = true /\
  zlen (print_log es) <= u64_max.
Definition snapshot_fits (s : Snapshot) : Prop := is_u64 (last_included_index s) /\ is_u64 (last_included_term s).

(** A save that has ended with [r]: every state a crash can then leave is the
    saved one, or, when it threw, one that a crash could leave before. *)
Definition saved {S} (disk : S -> PersistentState -> Prop) (f : PersistentState -> PersistentState) (r : result unit) (s s' : S) : Prop :=
  forall p', disk s' p' -> exists p, disk s p /\ (p' = f p \/ (is_Ok r = false /\ p' = p)).

Class StorageLaws (S : Type) `{Storage S} := {
  st_inv : S -> Prop;
  st_disk : S -> PersistentState -> Prop;
  st_restart : S -> S -> Prop;
  st_hard_law : forall h s r s', st_inv s -> hard_fits h -> st_save_hard_state h s = (r, s') ->
    st_inv s' /\ saved st_disk (with_hard h) r s s';
  st_log_law : forall l s r s', st_inv s -> log_fits l -> st_replace_log l s = (r, s') ->
    st_inv s' /\ saved st_disk (with_log l) r s s';
  st_snapshot_law : forall x s r s', st_inv s -> snapshot_fits x -> st_save_snapshot x s = (r, s') ->
    st_inv s' /\ saved st_disk (with_snapshot x) r s s';
  st_restart_law : forall s s', st_inv s -> st_restart s s' ->
    st_inv s' /\ exists p, st_disk s p /\ st_load s' = Ok p /\ forall p', st_disk s' p' -> p' = p
}.

#[export] Instance RaftStorage_storage : Storage RaftStorage := {|
  st_load := load;
  st_save_hard_state := save_hard_state;
  st_replace_log := replace_log;
  st_save_snapshot := save_snapshot
|}.

(** ** The storage keeps the laws *)

Definition storage_disk (s : RaftStorage) (p : PersistentState) : Prop :=
  exists files, crash_state (now (rs_fs s)) files /\ load_files (rs_directory s) files = Ok p.
Definition storage_inv (s : RaftStorage) : Prop :=
  fs_wf (rs_fs s) /\ forall files, crash_state (now (rs_fs s)) files -> exists p, load_files (rs_directory s) files = Ok p.
(** The files a crash leaves, opened by the next process. *)
Definition storage_restart (s s' : RaftStorage) : Prop :=
  exists files script, crash_state (now (rs_fs s)) files /\
    s' = mkRaftStorage (rs_directory s) (mkFs ((fun bs => mkFileData bs bs) <$> files) [] script []).

Lemma path_join_names dir a b :
  path_is_absolute a = false -> path_is_absolute b = false -> path_join dir a = path_join dir b -> a = b.
Proof.
  intros Ha Hb. unfold path_join. rewrite Ha, Hb. destruct (is_nil _); intros H%app_inv_head; [done|]. by injection H.
Qed.

Lemma temporary_join dir a : path_is_absolute a = false -> a <> [] ->
  temporary (path_join dir a) = path_join dir (a ++ bytes_of ".tmp").
Proof.
  intros Ha Hn. assert (path_is_absolute (a ++ bytes_of ".tmp") = false) as Ha' by by destruct a.
  unfold path_join, temporary. rewrite Ha, Ha'. by destruct (is_nil _); rewrite <- ?app_assoc.
Qed.

Lemma paths_distinct dir :
  hard_state_path dir <> log_path dir /\ hard_state_path dir <> snapshot_path dir /\ log_path dir <> snapshot_path dir.
Proof. split_and!; intros H%path_join_names; done. Qed.

Lemma temporaries_distinct dir p q :
  p ∈ [hard_state_path dir; log_path dir; snapshot_path dir] -> q ∈ [hard_state_path dir; log_path dir; snapshot_path dir] ->
  q <> temporary p.
Proof.
  rewrite !elem_of_cons, !elem_of_nil.
  intros [->|[->|[->|[]]]] [->|[->|[->|[]]]]; unfold hard_state_path, log_path, snapshot_path;
    rewrite temporary_join by done; intros H%path_join_names; done.
Qed.

(** A save to the file [path]: [update] is what it makes of a loaded state. *)
Section saving.
Context (dir path data : str) (update : PersistentState -> PersistentState).
Hypothesis Hpath : path ∈ [hard_state_path dir; log_path dir; snapshot_path dir].
Hypothesis Hupdate : forall files files' p, (forall n, n <> temporary path -> n <> path -> files' !! n = files !! n) ->
  files' !! path = Some data -> load_files dir files = Ok p -> load_files dir files' = Ok (update p).

Lemma load_files_same files files' :
  (forall n, n <> temporary path -> n <> path -> files' !! n = files !! n) -> files' !! path = files !! path ->
  load_files dir files' = load_files dir files.
Proof.
  intros H1 H2. assert (H : forall q, q ∈ [hard_state_path dir; log_path dir; snapshot_path dir] -> files' !! q = files !! q).
  { intros q Hq. destruct (decide (q = path)) as [->|Hne]; [done|]. apply H1; [|done]. by eapply temporaries_distinct. }
  unfold load_files. rewrite !H; [done|rewrite !elem_of_cons; tauto..].
Qed.

Lemma save_states f r f' s' files' :
  fs_wf f -> atomic_write path data f = (r, f') ->
  s' = now f' \/ s' ∈ drop (length (fs_history f)) (fs_history f') -> crash_state s' files' ->
  exists files, crash_state (now f) files /\
    (load_files dir files' = load_files dir files \/
     forall p, load_files dir files = Ok p -> load_files dir files' = Ok (update p)).
Proof.
  intros Hw H Hs' Hc. apply raft_write_spec in H as [(R1 & _ & _ & l & Hl & R2) _].
  assert (Hd : snap_derived (temporary path) path (mkFileData data data) (now f) s').
  { destruct Hs' as [->|Hs']; [done|]. rewrite Hl, drop_app_length in Hs'. rewrite Forall_forall in R2. by apply R2. }
  destruct (crash_derived _ _ _ _ _ _ Hw (temporary_ne path) Hd Hc) as (files & C1 & C2 & C3).
  exists files. split; [done|]. destruct C3 as [C3|C3]; [left; by apply load_files_same|right]. intros p Hp. by eapply Hupdate.
Qed.

Lemma save_law s r s' :
  rs_directory s = dir -> storage_inv s -> on_storage_fs (atomic_write path data) s = (r, s') ->
  storage_inv s' /\ saved storage_disk update r s s'.
Proof.
  intros Hdir [Hw Hload]. unfold on_storage_fs. destruct (atomic_write path data (rs_fs s)) as [r0 f'] eqn:E. intros [= -> <-].
  unfold storage_inv, saved, storage_disk. cbn [rs_fs rs_directory]. rewrite Hdir in *. split; [split|].
  - by apply raft_write_spec in E as [(_ & _ & Hw' & _) _]; auto.
  - intros files' Hc. destruct (save_states _ _ _ _ files' Hw E (or_introl eq_refl) Hc) as (files & C & [->|Hu]); [by apply Hload|].
    destruct (Hload files C) as [p Hp]. eauto.
  - intros p' (files' & Hc & Hp'). pose proof (save_states _ _ _ _ files' Hw E (or_introl eq_refl) Hc) as (files & C & Hcase).
    destruct (Hload files C) as [p Hp]. destruct r as [[]|e].
    + apply raft_write_spec in E as [(R1 & _) Hok]. destruct (Hok eq_refl) as [Ho Hd].
      destruct (crash_derived _ _ _ _ _ _ Hw (temporary_ne path) R1 Hc) as (files2 & C1 & C2 & _).
      destruct (Hload files2 C1) as [p2 Hp2]. exists p2. split; [eauto|]. left.
      apply (crash_settled _ _ _ _ Ho Hd) in Hc. rewrite (Hupdate _ _ _ C2 Hc Hp2) in Hp'. by injection Hp'.
    + exists p. split; [eauto|]. destruct Hcase as [Hs|Hu]; [right|left; specialize (Hu p Hp); congruence].
      split; [done|]. congruence.
Qed.
End saving.

Lemma saved_nothing {S} (disk : S -> PersistentState -> Prop) f e s : saved disk f (Throw e) s s.
Proof. intros p Hp. exists p. split; [done|]. by right. Qed.

(** ** Files *)

Lemma unwrap_small bytes magic p : zlen magic = 4 -> zlen bytes <= u64_max -> unwrap_payload bytes magic = Ok p -> zlen p <= u64_max.
Proof.
  intros Hm Hl ->%unwrap_payload_iff; [|done]. rewrite wrap_payload_zlen in Hl by done. unfold kEnvelopeBytes in Hl. lia.
Qed.

Section file_codec.
Context {A} (magic : str) (decode : str -> result A) (encode : A -> result str) (print : A -> str) (wf : A -> Prop).
Hypothesis Hmagic : zlen magic = 4.
Hypothesis Hdecode : forall bytes a, zlen bytes <= u64_max -> decode bytes = Ok a <-> wf a /\ bytes = print a.
Hypothesis Hencode : forall a, wf a -> encode a = Ok (print a).

Lemma file_exact bytes a :
  zlen bytes <= u64_max ->
  (p ← unwrap_payload bytes magic; decode p) = Ok a <-> wf a /\ exists p, encode a = Ok p /\ bytes = wrap_payload magic p.
Proof.
  intros Hl. split.
  - intros H. inv_ok. pose proof (unwrap_small _ _ _ Hmagic Hl E) as Hs. apply unwrap_payload_iff in E as ->; [|done].
    apply Hdecode in H as [Hw ->]; [|done]. split; [done|]. exists (print a). by rewrite Hencode.
  - intros [Hw (p & Hp & ->)]. rewrite Hencode in Hp by done. injection Hp as <-. rewrite unwrap_wrap by done. cbn.
    apply Hdecode; [|done]. rewrite wrap_payload_zlen in Hl by done. unfold kEnvelopeBytes in Hl. lia.
Qed.
End file_codec.

Lemma read_hard_state_iff bytes h :
  zlen bytes <= u64_max ->
  read_hard_state bytes = Ok h <-> hard_state_wf h /\ exists p, encode_hard_state h = Ok p /\ bytes = wrap_payload kHardMagic p.
Proof.
  apply (file_exact _ _ _ print_hard_state hard_state_wf); [done|apply decode_hard_state_iff|].
  intros a (_ & Hs & _). by apply encode_hard_state_iff.
Qed.

Lemma read_log_iff bytes es :
  zlen bytes <= u64_max ->
  read_log bytes = Ok es <-> log_wf es /\ exists p, encode_log es = Ok p /\ bytes = wrap_payload kLogMagic p.
Proof.
  apply (file_exact _ _ _ print_log log_wf); [done|apply decode_log_iff|].
  intros a (Hs & _). apply encode_log_iff. split; [|done]. eapply Forall_impl; [exact Hs|]. intros e He. apply He.
Qed.

Lemma read_snapshot_iff bytes s :
  zlen bytes <= u64_max ->
  read_snapshot bytes = Ok s <-> snapshot_wf s /\ exists p, encode_snapshot s = Ok p /\ bytes = wrap_payload kSnapshotMagic p.
Proof.
  apply (file_exact _ _ _ print_snapshot snapshot_wf); [done|apply decode_snapshot_iff|].
  intros a (_ & _ & Hs). by apply encode_snapshot_iff.
Qed.

(** C26: the three files of a node are read back exactly.  A file is accepted
    as a hard state, as a log or as a snapshot precisely when it is what
    saving that value writes: every value that fits its fields round-trips,
    and a file with any other magic, version, length, command type, order of
    indices, trailing byte or checksum is rejected. *)
Theorem raft_files_exact bytes h es s :
  zlen bytes <= u64_max ->
  (read_hard_state bytes = Ok h <->
     hard_state_wf h /\ exists p, encode_hard_state h = Ok p /\ bytes = wrap_payload kHardMagic p) /\
  (read_log bytes = Ok es <-> log_wf es /\ exists p, encode_log es = Ok p /\ bytes = wrap_payload kLogMagic p) /\
  (read_snapshot bytes = Ok s <->
     snapshot_wf s /\ exists p, encode_snapshot s = Ok p /\ bytes = wrap_payload kSnapshotMagic p).
Proof.
  intros Hl. split_and!; [by apply read_hard_state_iff|by apply read_log_iff|by apply read_snapshot_iff].
Qed.

(** *** Saving *)

Lemma load_files_ok dir files p :
  load_files dir files = Ok p <->
  match files !! hard_state_path dir with Some b => read_hard_state b | None => Ok initial_hard_state end = Ok (pst_hard_state p) /\
  match files !! log_path dir with Some b => read_log b | None => Ok [] end = Ok (pst_log p) /\
  match files !! snapshot_path dir with Some b => Some <$> read_snapshot b | None => Ok None end = Ok (pst_snapshot p).
Proof.
  destruct p as [h l s]. unfold load_files. split.
  - intros H. inv_ok. simplify_eq. done.
  - unfold mret, result_ret. simpl. intros (H1 & H2 & H3). by rewrite H1; simpl; rewrite H2; simpl; rewrite H3.
Qed.

Lemma update_file (dir path : str) (files files' : gmap str str) (q : str) :
  path ∈ [hard_state_path dir; log_path dir; snapshot_path dir] -> q ∈ [hard_state_path dir; log_path dir; snapshot_path dir] ->
  (forall n, n <> temporary path -> n <> path -> files' !! n = files !! n) -> q <> path -> files' !! q = files !! q.
Proof. intros Hp Hq H Hne. apply H; [by eapply temporaries_distinct|done]. Qed.

Lemma print_hard_state_small h : short (voted_for h) -> zlen (print_hard_state h) <= u64_max.
Proof.
  unfold short, print_hard_state, print_bytes, u32_max, u64_max. intros H. rewrite !zlen_app, !le_bytes_zlen. lia.
Qed.
Lemma print_snapshot_small s : short (payload s) -> zlen (print_snapshot s) <= u64_max.
Proof.
  unfold short, print_snapshot, print_bytes, u32_max, u64_max. intros H. rewrite !zlen_app, !le_bytes_zlen. lia.
Qed.

Lemma print_entries_zlen l : zlen l <= zlen (print_entries l).
Proof.
  induction l as [|e l IH]; [done|]. change (print_entries (e :: l)) with (print_entry e ++ print_entries l).
  rewrite zlen_app, zlen_cons. assert (1 <= zlen (print_entry e)); [|lia].
  unfold print_entry. rewrite !zlen_app, !le_bytes_zlen. pose proof (zlen_nonneg (print_command (le_command e))). lia.
Qed.

Lemma raft_write_quiet path data : quiet (atomic_write path data).
Proof.
  unfold atomic_write, fill_temporary, fs_fsync_once, sync_directory.
  repeat first [ apply quiet_call | apply quiet_create | apply quiet_write | apply quiet_rename
               | apply quiet_catch | apply quiet_bind; [|intros _] ].
  all: apply quiet_modify; intros f; try done. by destruct (fs_dir f !! temporary path).
Qed.

(** *** The three saves *)

Inductive SaveRequest := SaveHardState (h : HardState) | SaveLog (l : list LogEntry) | SaveSnapshot (x : Snapshot).

Definition perform_save (q : SaveRequest) : stm RaftStorage unit :=
  match q with SaveHardState h => save_hard_state h | SaveLog l => replace_log l | SaveSnapshot x => save_snapshot x end.

Definition request_fits (q : SaveRequest) : Prop :=
  match q with SaveHardState h => hard_fits h | SaveLog l => log_fits l | SaveSnapshot x => snapshot_fits x end.

(** What a save makes of the persistent state. *)
Definition requested (q : SaveRequest) : PersistentState -> PersistentState :=
  match q with SaveHardState h => with_hard h | SaveLog l => with_log l | SaveSnapshot x => with_snapshot x end.

Definition request_path (dir : str) (q : SaveRequest) : str :=
  match q with SaveHardState _ => hard_state_path dir | SaveLog _ => log_path dir | SaveSnapshot _ => snapshot_path dir end.

(** What the saver's check and encoder answer. *)
Definition request_data (q : SaveRequest) : result str :=
  match q with
  | SaveHardState h => wrap_payload kHardMagic <$> encode_hard_state h
  | SaveLog l => wrap_payload kLogMagic <$> encode_log l
  | SaveSnapshot x =>
      _ ← throw_if (last_included_index x =? 0) (InvalidArgument "snapshot index must be greater than zero");
      wrap_payload kSnapshotMagic <$> encode_snapshot x
  end.

Lemma perform_save_eq q s :
  perform_save q s = match request_data q with
                     | Ok data => on_storage_fs (atomic_write (request_path (rs_directory s) q) data) s
                     | Throw e => (Throw e, s)
                     end.
Proof.
  destruct q as [h|l|x]; simpl; unfold save_hard_state, replace_log, save_snapshot, mbind, stm_bind, sget, slift.
  - by destruct (encode_hard_state h).
  - by destruct (encode_log l).
  - destruct (throw_if _ _); simpl; [|done]. by destruct (encode_snapshot x).
Qed.

Lemma request_path_known dir q : request_path dir q ∈ [hard_state_path dir; log_path dir; snapshot_path dir].
Proof. destruct q; rewrite !elem_of_cons; simpl; tauto. Qed.

Lemma read_log_print l :
  log_fits l -> Forall (fun e => command_wf (le_command e)) l -> read_log (wrap_payload kLogMagic (print_log l)) = Ok l.
Proof.
  intros (F1 & F2 & F3) Hs. unfold read_log. rewrite unwrap_wrap by done. apply decode_log_iff; [done|]. split; [|done]. split_and!; [|done|].
  - rewrite Forall_forall in *. intros e He. destruct (F1 e He), (Hs e He). done.
  - unfold print_log in F3. rewrite zlen_app, le_bytes_zlen in F3. pose proof (print_entries_zlen l) as Hz. lia.
Qed.

(** The file written is read back as the value saved. *)
Lemma request_update (dir : str) (q : SaveRequest) (data : str) (files files' : gmap str str) (p : PersistentState) :
  request_fits q -> request_data q = Ok data ->
  (forall n, n <> temporary (request_path dir q) -> n <> request_path dir q -> files' !! n = files !! n) ->
  files' !! request_path dir q = Some data -> load_files dir files = Ok p -> load_files dir files' = Ok (requested q p).
Proof.
  intros Hf Hd Hsame Hnew (L1 & L2 & L3)%load_files_ok. destruct (paths_distinct dir) as (D1 & D2 & D3).
  pose proof (fun n Hn Hne => update_file dir _ files files' n (request_path_known dir q) Hn Hsame Hne) as Hu.
  apply load_files_ok. destruct q as [h|l|x]; simpl in *.
  - destruct (encode_hard_state h) as [pl|] eqn:E; [|done]. injection Hd as <-. apply encode_hard_state_iff in E as [Hs ->].
    destruct Hf as (F1 & F2 & F3). rewrite Hnew, !Hu by (rewrite ?elem_of_cons; tauto || congruence). split_and!; [|done..].
    unfold read_hard_state. rewrite unwrap_wrap by done. apply decode_hard_state_iff; [by apply print_hard_state_small|done].
  - destruct (encode_log l) as [pl|] eqn:E; [|done]. injection Hd as <-. apply encode_log_iff in E as [Hs ->].
    rewrite Hnew, !Hu by (rewrite ?elem_of_cons; tauto || congruence). split_and!; [done|by apply read_log_print|done].
  - destruct (throw_if _ _); [|done]. simpl in Hd. destruct (encode_snapshot x) as [pl|] eqn:E; [|done]. injection Hd as <-.
    apply encode_snapshot_iff in E as [Hs ->]. destruct Hf as (F1 & F2).
    rewrite Hnew, !Hu by (rewrite ?elem_of_cons; tauto || congruence). split_and!; [done..|].
    unfold read_snapshot. rewrite unwrap_wrap by done. change (Some <$> decode_snapshot (print_snapshot x) = Ok (Some x)).
    rewrite (proj2 (decode_snapshot_iff _ x (print_snapshot_small _ Hs))); done.
Qed.

Lemma perform_save_law q s r s' :
  storage_inv s -> request_fits q -> perform_save q s = (r, s') -> storage_inv s' /\ saved storage_disk (requested q) r s s'.
Proof.
  intros Hi Hf H. rewrite perform_save_eq in H. destruct (request_data q) as [data|e] eqn:E.
  - eapply (save_law (rs_directory s)) in H; [exact H|apply request_path_known| |done|done]. intros. by eapply request_update.
  - simplify_eq. split; [done|apply saved_nothing].
Qed.

(** After a restart the files are what they are. *)
Lemma restart_files files script files2 :
  crash_state (now (mkFs ((fun bs => mkFileData bs bs) <$> files) [] script [])) files2 -> files2 = files.
Proof.
  intros (d & [->|Hd] & Hf); [|by apply not_elem_of_nil in Hd]. apply map_eq. intros n. specialize (Hf n). simpl in Hf.
  rewrite lookup_fmap in Hf. destruct (files !! n), (files2 !! n); simpl in Hf; try done.
  f_equal. destruct Hf. symmetry. by apply (anti_symm prefix).
Qed.

Lemma restart_wf files script : fs_wf (mkFs ((fun bs => mkFileData bs bs) <$> files) [] script []).
Proof.
  intros d [->|Hd]; [|by apply not_elem_of_nil in Hd]. intros n c. simpl. rewrite lookup_fmap.
  by destruct (files !! n); simpl; intros [= <-].
Qed.

#[export] Program Instance RaftStorage_laws : StorageLaws RaftStorage := {|
  st_inv := storage_inv;
  st_disk := storage_disk;
  st_restart := storage_restart
|}.
Next Obligation. intros h s r s' Hi Hf H. by apply (perform_save_law (SaveHardState h)). Qed.
Next Obligation. intros l s r s' Hi Hf H. by apply (perform_save_law (SaveLog l)). Qed.
Next Obligation. intros x s r s' Hi Hf H. by apply (perform_save_law (SaveSnapshot x)). Qed.
Next Obligation.
  intros s s' [Hw Hl] (files & script & Hc & ->). pose proof (restart_files files script) as Hu.
  destruct (Hl files Hc) as [p Hp]. split; [split|].
  - apply restart_wf.
  - intros files2 ->%Hu. by exists p.
  - exists p. split; [by exists files|]. split.
    + simpl. unfold load, all_contents. simpl. rewrite <- map_fmap_compose. by rewrite map_fmap_id.
    + intros p' (files2 & ->%Hu & Hp'). simpl in Hp'. congruence.
Qed.

(** C23: a save of the hard state, of the log or of a snapshot is atomic.
    Whatever its system calls return, and at whatever moment of it the machine
    stops, the next process loads a state that it could have loaded before, or
    that state with the one file replaced by the value saved; once the save
    has returned it always loads the value saved, and the other files are as
    they were.  A value that can be encoded is saved when no call fails. *)
Theorem raft_save_crash_atomic q s r s' :
  storage_inv s -> request_fits q -> perform_save q s = (r, s') ->
  (forall snap files, snap ∈ drop (length (fs_history (rs_fs s))) (fs_history (rs_fs s')) -> crash_state snap files ->
     exists p, storage_disk s p /\
       (load_files (rs_directory s) files = Ok p \/ load_files (rs_directory s) files = Ok (requested q p))) /\
  (forall p', storage_disk s' p' -> exists p, storage_disk s p /\ (p' = requested q p \/ is_Ok r = false /\ p' = p)) /\
  storage_inv s' /\
  (fs_script (rs_fs s) = [] -> is_Ok (request_data q) = true -> r = Ok tt).
Proof.
  intros Hi Hf H. destruct (perform_save_law q s r s' Hi Hf H) as [Hi' Hs]. split_and!; [|done|done|].
  - intros snap files Hin Hc. rewrite perform_save_eq in H. destruct (request_data q) as [data|e] eqn:E.
    + unfold on_storage_fs in H. destruct (atomic_write _ _ (rs_fs s)) as [r0 f'] eqn:Ea. simplify_eq. destruct Hi as [Hw Hl].
      destruct (save_states (rs_directory s) _ data (requested q) (request_path_known _ q)
        (fun a b p => request_update _ q data a b p Hf E) _ _ _ snap files Hw Ea (or_intror Hin) Hc) as (files0 & C & Hcase).
      destruct (Hl _ C) as [p Hp]. exists p. split; [by exists files0|]. destruct Hcase as [->|Hu]; [by left|right; auto].
    + simplify_eq. rewrite drop_all in Hin. by apply not_elem_of_nil in Hin.
  - intros Hq He. rewrite perform_save_eq in H. destruct (request_data q) as [data|e]; [|done].
    unfold on_storage_fs in H. destruct (raft_write_quiet (request_path (rs_directory s) q) data (rs_fs s) Hq) as ([] & f' & E & _).
    rewrite E in H. by simplify_eq.
Qed.

(** ** The term and the vote

    What elections need of the storage, whatever is in the other files: the
    term and the vote that a crash can leave. *)

(** The files read now are files a crash can leave. *)
Lemma contents_crash f : fs_wf f -> crash_state (now f) (all_contents f).
Proof.
  intros Hw. exists (fs_dir f). split; [by left|]. intros n. unfold all_contents. rewrite lookup_fmap.
  apply leaves_whole, Hw. by left.
Qed.

Class BallotLaws (S : Type) `{Storage S} := {
  bs_inv : S -> Prop;
  bs_ballot : S -> Z -> NodeId -> Prop;
  bs_restart : S -> S -> Prop;
  bs_hard_law : forall h s r s', bs_inv s -> is_u64 (current_term h) -> st_save_hard_state h s = (r, s') ->
    bs_inv s' /\ forall t v, bs_ballot s' t v ->
      (t = current_term h /\ v = voted_for h) \/ (is_Ok r = false /\ bs_ballot s t v);
  bs_log_law : forall l s r s', bs_inv s -> st_replace_log l s = (r, s') ->
    bs_inv s' /\ forall t v, bs_ballot s' t v -> bs_ballot s t v;
  bs_snapshot_law : forall x s r s', bs_inv s -> st_save_snapshot x s = (r, s') ->
    bs_inv s' /\ forall t v, bs_ballot s' t v -> bs_ballot s t v;
  bs_restart_law : forall s s', bs_inv s -> bs_restart s s' ->
    bs_inv s' /\ forall t v, bs_ballot s' t v -> bs_ballot s t v;
  bs_load_law : forall s p, bs_inv s -> st_load s = Ok p ->
    bs_ballot s (current_term (pst_hard_state p)) (voted_for (pst_hard_state p)) /\ is_u64 (current_term (pst_hard_state p))
}.

(** The hard state in a file that may be missing. *)
Definition stored_hard_state (c : option str) : result HardState :=
  match c with Some bytes => read_hard_state bytes | None => Ok initial_hard_state end.

Definition ballot_inv (s : RaftStorage) : Prop :=
  fs_wf (rs_fs s) /\ forall files, crash_state (now (rs_fs s)) files ->
    is_Ok (stored_hard_state (files !! hard_state_path (rs_directory s))) = true.
Definition storage_ballot (s : RaftStorage) (t : Z) (v : NodeId) : Prop :=
  exists files h, crash_state (now (rs_fs s)) files /\
    stored_hard_state (files !! hard_state_path (rs_directory s)) = Ok h /\ t = current_term h /\ v = voted_for h.

(** A save to another file. *)
Lemma ballot_other path data s r s' :
  path ∈ [hard_state_path (rs_directory s); log_path (rs_directory s); snapshot_path (rs_directory s)] ->
  path <> hard_state_path (rs_directory s) -> ballot_inv s -> on_storage_fs (atomic_write path data) s = (r, s') ->
  ballot_inv s' /\ forall t v, storage_ballot s' t v -> storage_ballot s t v.
Proof.
  intros Hp Hne [Hw Hl]. unfold on_storage_fs. destruct (atomic_write path data (rs_fs s)) as [r0 f'] eqn:E. intros [= -> <-].
  apply raft_write_spec in E as [(R1 & _ & Hw' & _) _].
  assert (Hc : forall files', crash_state (now f') files' -> exists files, crash_state (now (rs_fs s)) files /\
    files' !! hard_state_path (rs_directory s) = files !! hard_state_path (rs_directory s)).
  { intros files' Hc. destruct (crash_derived _ _ _ _ _ _ Hw (temporary_ne path) R1 Hc) as (files & C1 & C2 & _). exists files.
    split; [done|]. apply C2; [|done]. eapply temporaries_distinct; [exact Hp|]. rewrite !elem_of_cons. tauto. }
  unfold ballot_inv, storage_ballot. cbn [rs_fs rs_directory]. split; [split; [auto|]|].
  - intros files' (files & C & ->)%Hc. auto.
  - intros t v (files' & h & (files & C & Heq)%Hc & Hh & Ht). rewrite Heq in Hh. eauto 10.
Qed.

(** The term and the vote that a saved hard state reads back with. *)
Lemma stored_ballot h :
  short (voted_for h) -> is_u64 (current_term h) ->
  exists h', stored_hard_state (Some (wrap_payload kHardMagic (print_hard_state h))) = Ok h' /\
    current_term h' = current_term h /\ voted_for h' = voted_for h.
Proof.
  intros Hs Ht. set (g := mkHardState (current_term h) (voted_for h) (u64 (commit_index h)) (u64 (last_applied h))). exists g.
  split; [|done]. assert (print_hard_state h = print_hard_state g) as ->.
  { unfold print_hard_state, g. cbn [current_term voted_for commit_index last_applied]. unfold u64.
    change (2 ^ 64) with (256 ^ Z.of_nat 8). by rewrite !le_bytes_mod. }
  simpl. unfold read_hard_state. rewrite unwrap_wrap by done. apply decode_hard_state_iff; [by apply print_hard_state_small|].
  split; [|done]. split_and!; [done|done|unfold g; cbn; apply u64_range..].
Qed.

Lemma read_u64_range d v d' : read_u64 d = Ok (v, d') -> is_u64 v.
Proof.
  intros ([] & d1 & _ & (bs & d2 & E & E3)%dec_bind_inv)%dec_bind_inv. injection E3 as <- <-. injection E as <- _.
  rewrite le_read_0. set (bs := subspan _ _ _). pose proof (le_val_range bs) as Hr.
  assert (zlen bs <= 8) by (unfold bs, subspan, zlen; rewrite length_take; lia). pose proof (zlen_nonneg bs).
  pose proof (Z.pow_le_mono_r 256 (zlen bs) 8). unfold is_u64, u64_max. lia.
Qed.

Lemma stored_term_u64 c h : stored_hard_state c = Ok h -> is_u64 (current_term h).
Proof.
  destruct c as [bytes|]; [|by intros [= <-]]. simpl. intros H. unfold read_hard_state in H. inv_ok.
  unfold decode_hard_state, run_decoder, decode_all in H. match type of H with match ?y with _ => _ end = _ => destruct y as [[a d']|] eqn:E1; [|done] end. injection H as ->.
  apply dec_bind_inv in E1 as (b & d1 & E1 & E2). apply dec_bind_inv in E1 as (t & d2 & Et & E1).
  repeat (apply dec_bind_inv in E1 as (? & ? & _ & E1)). injection E1 as <- <-.
  repeat (apply dec_bind_inv in E2 as (? & ? & _ & E2)). injection E2 as <- <-. simpl. by eapply read_u64_range.
Qed.

#[export] Program Instance RaftStorage_ballots : BallotLaws RaftStorage := {|
  bs_inv := ballot_inv;
  bs_ballot := storage_ballot;
  bs_restart := storage_restart
|}.
Next Obligation.
  intros h s r s' Hi Ht H. change (st_save_hard_state h s) with (perform_save (SaveHardState h) s) in H. rewrite perform_save_eq in H.
  simpl in H. destruct (encode_hard_state h) as [pl|e] eqn:E; [|simpl in H; simplify_eq; split; [done|intros t v Hb; by right]]. simpl in H.
  apply encode_hard_state_iff in E as [Hs ->]. destruct (stored_ballot h Hs Ht) as (h' & Hh' & Ht' & Hv'). destruct Hi as [Hw Hl].
  unfold on_storage_fs in H. destruct (atomic_write _ _ (rs_fs s)) as [r0 f'] eqn:Ea. simplify_eq.
  apply raft_write_spec in Ea as [(R1 & _ & Hw' & _) Hok].
  assert (Hc : forall files', crash_state (now f') files' -> exists files, crash_state (now (rs_fs s)) files /\
    (files' !! hard_state_path (rs_directory s) = files !! hard_state_path (rs_directory s) \/
     files' !! hard_state_path (rs_directory s) = Some (wrap_payload kHardMagic (print_hard_state h)))).
  { intros files' Hc. destruct (crash_derived _ _ _ _ _ _ Hw (temporary_ne _) R1 Hc) as (files & C1 & _ & C3). eauto. }
  unfold ballot_inv, storage_ballot. cbn [rs_fs rs_directory]. split; [split; [auto|]|].
  - intros files' (files & C & [->|Heq])%Hc; [auto|]. by rewrite Heq, Hh'.
  - intros t v (files' & g & Hf' & Hg & -> & ->). destruct r as [[]|e].
    + left. destruct (Hok eq_refl) as [Ho Hd]. rewrite (crash_settled _ _ _ _ Ho Hd Hf') in Hg. rewrite Hh' in Hg. by simplify_eq.
    + destruct (Hc files' Hf') as (files & C & [Heq|Heq]); rewrite Heq in Hg; [right|left; rewrite Hh' in Hg; by simplify_eq].
      split; [done|]. eauto 10.
Qed.
Next Obligation.
  intros l s r s' Hi H. change (st_replace_log l s) with (perform_save (SaveLog l) s) in H. rewrite perform_save_eq in H.
  destruct (request_data (SaveLog l)) as [data|e]; [|by simplify_eq].
  apply ballot_other in H; [done|apply (request_path_known _ (SaveLog l))|apply not_eq_sym, paths_distinct|done].
Qed.
Next Obligation.
  intros x s r s' Hi H. change (st_save_snapshot x s) with (perform_save (SaveSnapshot x) s) in H. rewrite perform_save_eq in H.
  destruct (request_data (SaveSnapshot x)) as [data|e]; [|by simplify_eq].
  apply ballot_other in H; [done|apply (request_path_known _ (SaveSnapshot x))|apply not_eq_sym, paths_distinct|done].
Qed.
Next Obligation.
  intros s s' [Hw Hl] (files & script & Hc & ->). pose proof (restart_files files script) as Hu.
  unfold ballot_inv, storage_ballot. cbn [rs_fs rs_directory]. split; [split|].
  - apply restart_wf.
  - intros files2 ->%Hu. auto.
  - intros t v (files2 & h & ->%Hu & Hh & Ht). eauto 10.
Qed.
Next Obligation.
  intros s p [Hw Hl] H. simpl in H. unfold load in H. apply load_files_ok in H as (Hh & _).
  split; [exists (all_contents (rs_fs s)), (pst_hard_state p); split_and!; [by apply contents_crash|done..]|].
  by eapply stored_term_u64.
Qed.

(** ** Witnesses *)

Definition demo_hard : HardState := mkHardState 3 (bytes_of "n2") 1 1.
Definition demo_entry : LogEntry := mkLogEntry 1 3 (mkCommand Put (bytes_of "k") (bytes_of "v")).

Lemma demo_hard_wf : hard_state_wf demo_hard /\ log_wf [demo_entry].
Proof.
  split; [by vm_compute|]. split_and!; [|done|by vm_compute]. repeat constructor; by vm_compute.
Qed.

Lemma raft_files_exact_witness :
  read_hard_state (wrap_payload kHardMagic (print_hard_state demo_hard)) = Ok demo_hard /\
  read_log (wrap_payload kHardMagic (print_hard_state demo_hard)) <> Ok [demo_entry].
Proof.
  assert (Hl : zlen (wrap_payload kHardMagic (print_hard_state demo_hard)) <= u64_max) by (vm_compute; discriminate).
  destruct (raft_files_exact _ demo_hard [demo_entry] (mkSnapshot 1 1 []) Hl) as (H1 & H2 & _). split.
  - apply H1. split; [apply demo_hard_wf|]. exists (print_hard_state demo_hard). split; reflexivity.
  - rewrite H2. intros [_ (p & _ & Hp)]. discriminate.
Defined.

(** A new storage, and one whose next save fails at the rename. *)
Definition demo_storage (script : list io_event) : RaftStorage := mkRaftStorage (bytes_of "raft") (mkFs ∅ [] script []).

Lemma demo_storage_inv script : storage_inv (demo_storage script).
Proof.
  split.
  - intros d [->|Hd]; [|by apply not_elem_of_nil in Hd]. apply map_Forall_empty.
  - intros files (d & [->|Hd] & Hf); [|by apply not_elem_of_nil in Hd]. exists (mkPersistentState initial_hard_state [] None).
    assert (files = ∅) as ->; [|reflexivity]. apply map_eq. intros n. specialize (Hf n).
    change (match (∅ : Directory) !! n, files !! n with
            | Some c, Some bs => fd_durable c `prefix_of` bs /\ bs `prefix_of` fd_data c | None, None => True | _, _ => False end) in Hf.
    rewrite lookup_empty in Hf. rewrite lookup_empty. by destruct (files !! n).
Qed.

Lemma raft_save_crash_atomic_witness :
  let failed := perform_save (SaveHardState demo_hard) (demo_storage (replicate 5 (Done 4096) ++ [Failed 5])) in
  let done := perform_save (SaveHardState demo_hard) (demo_storage []) in
  failed.1 = Throw (SystemError 5 "failed to publish Raft file") /\ done.1 = Ok tt /\
  forall p, storage_disk done.2 p -> pst_hard_state p = demo_hard.
Proof.
  intros failed ok. assert (Hf : failed.1 = Throw (SystemError 5 "failed to publish Raft file")) by (vm_compute; reflexivity).
  assert (Hfit : request_fits (SaveHardState demo_hard)) by by vm_compute.
  destruct (raft_save_crash_atomic (SaveHardState demo_hard) (demo_storage []) ok.1 ok.2 (demo_storage_inv []) Hfit (surjective_pairing _))
    as (_ & H2 & _ & H4). specialize (H4 eq_refl eq_refl). split; [exact Hf|]. split; [exact H4|].
  intros p Hp. destruct (H2 p Hp) as (p0 & _ & [->|[Hbad _]]); [reflexivity|]. rewrite H4 in Hbad. discriminate.
Defined.
