(* ===== verification/RaftNode.v ===== *)
(** * The Raft node

    src/raft/node.cpp.  [mutex_] protects the whole state and is given up while
    a remote call is under way, so a member function is a sequence of critical
    sections, each of which is one step here: the three handlers are one section
    each; [begin_election], [submit], [replicate_all] and [replicate_peer] are
    cut where the lock is dropped.  The deadlines decide only when the ticker
    calls [begin_election] and [replicate_all]; [RaftCluster] lets them be
    called at any time, so they are not part of the state.  The storage is any
    [Storage], the state machine any [StateMachine]. *)

From S2P Require Import SstReader.
From S2P Require Import Prelude Store RaftTypes RaftStorage.

(** ** Definitions *)

(** The calls of include/nebulakv/raft/state_machine.hpp that the node makes. *)
Class StateMachine (M : Type) := {
  fsm_recover : option Snapshot -> list LogEntry -> stm M unit;
  fsm_apply : LogEntry -> stm M unit;
  fsm_create_snapshot : stm M str;
  fsm_install_snapshot : str -> stm M unit;
  fsm_flush : stm M unit
}.

(** What is read of the state machine from outside; an exception says what
    went wrong. *)
Class ReadableMachine (M : Type) := {
  sm_get : str -> M -> result (option str);
  sm_size : M -> Z;
  sm_get_message : forall key m e, sm_get key m = Throw e -> what e <> ""%string
}.

Record RaftMetrics := mkMetrics {
  elections_started : Z;
  leadership_changes : Z;
  append_entries_sent : Z;
  append_entries_received : Z;
  vote_requests_sent : Z;
  vote_requests_received : Z;
  snapshots_created : Z;
  snapshots_installed : Z;
  replication_failures : Z;
  committed_commands : Z
}.

Inductive Metric :=
| ElectionsStarted | LeadershipChanges | AppendEntriesSent | AppendEntriesReceived | VoteRequestsSent
| VoteRequestsReceived | SnapshotsCreated | SnapshotsInstalled | ReplicationFailures | CommittedCommands.

#[export] Instance Metric_eq_dec : EqDecision Metric.
Proof. solve_decision. Defined.

(** [++metrics_.which] *)
Definition bump_metric (which : Metric) (m : RaftMetrics) : RaftMetrics :=
  let add (k : Metric) (v : Z) := if bool_decide (k = which) then u64 (v + 1) else v in
  mkMetrics (add ElectionsStarted (elections_started m)) (add LeadershipChanges (leadership_changes m))
    (add AppendEntriesSent (append_entries_sent m)) (add AppendEntriesReceived (append_entries_received m))
    (add VoteRequestsSent (vote_requests_sent m)) (add VoteRequestsReceived (vote_requests_received m))
    (add SnapshotsCreated (snapshots_created m)) (add SnapshotsInstalled (snapshots_installed m))
    (add ReplicationFailures (replication_failures m)) (add CommittedCommands (committed_commands m)).

Definition no_metrics : RaftMetrics := mkMetrics 0 0 0 0 0 0 0 0 0 0.

Record NodeStatus := mkNodeStatus {
  ns_node_id : NodeId;
  ns_role : Role;
  ns_term : Z;
  ns_leader_id : NodeId;
  ns_commit_index : Z;
  ns_last_applied : Z;
  ns_last_log_index : Z;
  ns_last_log_term : Z;
  ns_snapshot_index : Z;
  ns_peer_count : Z;
  ns_metrics : RaftMetrics
}.

Record RaftNode (S M : Type) := mkNode {
  options_ : RaftNodeOptions;
  role_ : Role;
  hard_state_ : HardState;
  log_ : list LogEntry;
  snapshot_ : option Snapshot;
  leader_id_ : NodeId;
  next_index_ : gmap NodeId Z;
  match_index_ : gmap NodeId Z;
  metrics_ : RaftMetrics;
  storage_ : S;
  state_machine_ : M
}.
Arguments mkNode {S M}.
Arguments options_ {S M}.
Arguments role_ {S M}.
Arguments hard_state_ {S M}.
Arguments log_ {S M}.
Arguments snapshot_ {S M}.
Arguments leader_id_ {S M}.
Arguments next_index_ {S M}.
Arguments match_index_ {S M}.
Arguments metrics_ {S M}.
Arguments storage_ {S M}.
Arguments state_machine_ {S M}.

(** *** Options *)

Definition validate_options (o : RaftNodeOptions) : result unit :=
  _ ← throw_if (is_nil (no_node_id o)) (InvalidArgument "Raft node id must not be empty");
  _ ← throw_if ((no_election_timeout_min o <=? 0) || (no_election_timeout_max o <? no_election_timeout_min o))
        (InvalidArgument "invalid Raft election timeout range");
  _ ← throw_if ((no_heartbeat_interval o <=? 0) || (no_election_timeout_min o <=? no_heartbeat_interval o))
        (InvalidArgument "heartbeat interval must be positive and below election timeout");
  _ ← throw_if (no_rpc_timeout o <=? 0) (InvalidArgument "Raft RPC timeout must be positive");
  _ ← throw_if (no_max_append_entries o =? 0) (InvalidArgument "maximum AppendEntries batch must be positive");
  _ ← mapM (fun peer =>
        _ ← throw_if (is_nil (p_id peer) || is_nil (p_address peer))
              (InvalidArgument "Raft peer id and address must not be empty");
        throw_if (str_eqb (p_id peer) (no_node_id o))
          (InvalidArgument "Raft peer list must not contain the local node")) (no_peers o);
  throw_if (negb (bool_decide (NoDup (map p_id (no_peers o))))) (InvalidArgument "Raft peer ids must be unique").

(** Whether the command is one for the state machine; throws when it is
    malformed. *)
Definition valid_client_command (c : Command) : result bool :=
  if bool_decide (c_type c = Noop) then mret false
  else
    _ ← validate_key (c_key c);
    _ ← (if bool_decide (c_type c = Put) then validate_value (c_value c)
         else throw_if (negb (is_nil (c_value c))) (InvalidArgument "delete command must not contain a value"));
    mret true.

Section node.
Context {S M : Type} `{Storage S} `{StateMachine M}.
Abbreviation Node := (RaftNode S M).

(** *** Assignments *)

Definition set_threshold (t : Z) (n : Node) : Node :=
  let o := options_ n in
  mkNode (mkNodeOptions (no_node_id o) (no_peers o) (no_election_timeout_min o) (no_election_timeout_max o)
            (no_heartbeat_interval o) (no_rpc_timeout o) (no_max_append_entries o) t)
    (role_ n) (hard_state_ n) (log_ n) (snapshot_ n) (leader_id_ n) (next_index_ n) (match_index_ n) (metrics_ n) (storage_ n) (state_machine_ n).
Definition set_role (r : Role) (n : Node) : Node :=
  mkNode (options_ n) r (hard_state_ n) (log_ n) (snapshot_ n) (leader_id_ n) (next_index_ n) (match_index_ n) (metrics_ n) (storage_ n) (state_machine_ n).
Definition set_hard (h : HardState) (n : Node) : Node :=
  mkNode (options_ n) (role_ n) h (log_ n) (snapshot_ n) (leader_id_ n) (next_index_ n) (match_index_ n) (metrics_ n) (storage_ n) (state_machine_ n).
Definition set_log (l : list LogEntry) (n : Node) : Node :=
  mkNode (options_ n) (role_ n) (hard_state_ n) l (snapshot_ n) (leader_id_ n) (next_index_ n) (match_index_ n) (metrics_ n) (storage_ n) (state_machine_ n).
Definition set_snapshot (s : option Snapshot) (n : Node) : Node :=
  mkNode (options_ n) (role_ n) (hard_state_ n) (log_ n) s (leader_id_ n) (next_index_ n) (match_index_ n) (metrics_ n) (storage_ n) (state_machine_ n).
Definition set_leader (l : NodeId) (n : Node) : Node :=
  mkNode (options_ n) (role_ n) (hard_state_ n) (log_ n) (snapshot_ n) l (next_index_ n) (match_index_ n) (metrics_ n) (storage_ n) (state_machine_ n).
Definition set_next (m : gmap NodeId Z) (n : Node) : Node :=
  mkNode (options_ n) (role_ n) (hard_state_ n) (log_ n) (snapshot_ n) (leader_id_ n) m (match_index_ n) (metrics_ n) (storage_ n) (state_machine_ n).
Definition set_match (m : gmap NodeId Z) (n : Node) : Node :=
  mkNode (options_ n) (role_ n) (hard_state_ n) (log_ n) (snapshot_ n) (leader_id_ n) (next_index_ n) m (metrics_ n) (storage_ n) (state_machine_ n).
Definition set_metrics (m : RaftMetrics) (n : Node) : Node :=
  mkNode (options_ n) (role_ n) (hard_state_ n) (log_ n) (snapshot_ n) (leader_id_ n) (next_index_ n) (match_index_ n) m (storage_ n) (state_machine_ n).
Definition set_storage (s : S) (n : Node) : Node :=
  mkNode (options_ n) (role_ n) (hard_state_ n) (log_ n) (snapshot_ n) (leader_id_ n) (next_index_ n) (match_index_ n) (metrics_ n) s (state_machine_ n).
Definition set_machine (m : M) (n : Node) : Node :=
  mkNode (options_ n) (role_ n) (hard_state_ n) (log_ n) (snapshot_ n) (leader_id_ n) (next_index_ n) (match_index_ n) (metrics_ n) (storage_ n) m.

Definition set_term (t : Z) (h : HardState) : HardState := mkHardState t (voted_for h) (commit_index h) (last_applied h).
Definition set_vote (v : NodeId) (h : HardState) : HardState := mkHardState (current_term h) v (commit_index h) (last_applied h).
Definition set_commit (c : Z) (h : HardState) : HardState := mkHardState (current_term h) (voted_for h) c (last_applied h).
Definition set_applied (a : Z) (h : HardState) : HardState := mkHardState (current_term h) (voted_for h) (commit_index h) a.

Definition on_hard (f : HardState -> HardState) : stm Node unit := smodify (fun n => set_hard (f (hard_state_ n)) n).
Definition on_storage {A} (c : stm S A) : stm Node A :=
  fun n => match c (storage_ n) with (r, s) => (r, set_storage s n) end.
Definition on_machine {A} (c : stm M A) : stm Node A :=
  fun n => match c (state_machine_ n) with (r, m) => (r, set_machine m n) end.
Definition count (which : Metric) : stm Node unit := smodify (fun n => set_metrics (bump_metric which (metrics_ n)) n).

Definition term_ (n : Node) : Z := current_term (hard_state_ n).

(** *** The log *)

Definition snapshot_index (n : Node) : Z := match snapshot_ n with Some s => last_included_index s | None => 0 end.
Definition first_index (n : Node) : Z := match snapshot_ n with Some s => u64 (last_included_index s + 1) | None => 1 end.

Definition last_log_index_locked (n : Node) : Z :=
  match last (log_ n) with Some e => le_index e | None => snapshot_index n end.

Definition last_log_term_locked (n : Node) : Z :=
  match last (log_ n) with
  | Some e => le_term e
  | None => match snapshot_ n with Some s => last_included_term s | None => 0 end
  end.

Definition term_at_locked (index : Z) (n : Node) : option Z :=
  if index =? 0 then Some 0
  else
    match snapshot_ n with
    | Some s => if index =? last_included_index s then Some (last_included_term s) else
        if (index <? first_index n) || (last_log_index_locked n <? index) then None
        else le_term <$> log_ n !! Z.to_nat (index - first_index n)
    | None =>
        if (index <? first_index n) || (last_log_index_locked n <? index) then None
        else le_term <$> log_ n !! Z.to_nat (index - first_index n)
    end.

Definition entries_from_locked (index : Z) (n : Node) : list LogEntry :=
  if last_log_index_locked n <? index then []
  else if index <? first_index n then []
  else
    let offset := index - first_index n in
    let count := Z.min (no_max_append_entries (options_ n)) (u64 (zlen (log_ n) - offset)) in
    take (Z.to_nat count) (drop (Z.to_nat offset) (log_ n)).

Definition truncate_log_from_locked (index : Z) : stm Node unit :=
  smodify (fun n =>
    if index <=? first_index n then set_log [] n
    else if last_log_index_locked n <? index then n
    else set_log (take (Z.to_nat (index - first_index n)) (log_ n)) n).

Fixpoint append_entries_locked (entries : list LogEntry) : stm Node unit :=
  match entries with
  | [] => mret tt
  | entry :: rest =>
      n ← sget;
      _ ← slift (throw_if (negb (le_index entry =? u64 (last_log_index_locked n + 1)) || (le_term entry =? 0))
                   (RuntimeError "invalid Raft log append"));
      _ ← sput (set_log (log_ n ++ [entry]) n);
      append_entries_locked rest
  end.

Definition append_local_entry_locked (command : Command) : stm Node LogEntry :=
  n ← sget;
  _ ← slift (throw_if (negb (bool_decide (role_ n = Leader)) || (term_ n =? 0))
               (LogicError "only a leader may append a local Raft entry"));
  let entry := mkLogEntry (u64 (last_log_index_locked n + 1)) (term_ n) command in
  _ ← sput (set_log (log_ n ++ [entry]) n);
  mret entry.

(** [std::upper_bound] by index, then [erase] of what precedes it. *)
Definition erase_through (index : Z) (l : list LogEntry) : list LogEntry :=
  drop (lower_bound (fun e => negb (index <? le_index e)) l) l.

(** *** Persistence and roles *)

Definition persist_hard_state_locked : stm Node unit :=
  n ← sget;
  on_storage (st_save_hard_state (hard_state_ n)).

Definition persist_log_locked : stm Node unit :=
  n ← sget;
  on_storage (st_replace_log (log_ n)).

Definition become_follower_locked (term : Z) (leader_id : NodeId) : stm Node unit :=
  n ← sget;
  if term <? term_ n then mret tt
  else
    _ ← (if term_ n <? term then on_hard (fun h => set_vote [] (set_term term h)) else mret tt);
    _ ← smodify (set_role Follower);
    _ ← smodify (set_leader leader_id);
    _ ← smodify (set_next ∅);
    _ ← smodify (set_match ∅);
    persist_hard_state_locked.

(** [map.emplace(id, value)] *)
Definition emplace (id : NodeId) (value : Z) (m : gmap NodeId Z) : gmap NodeId Z :=
  match m !! id with Some _ => m | None => <[id := value]> m end.

Definition become_leader_locked : stm Node unit :=
  _ ← smodify (set_role Leader);
  _ ← smodify (fun n => set_leader (no_node_id (options_ n)) n);
  _ ← count LeadershipChanges;
  n ← sget;
  let next := u64 (last_log_index_locked n + 1) in
  _ ← smodify (set_next (foldl (fun m p => emplace (p_id p) next m) ∅ (no_peers (options_ n))));
  smodify (set_match (foldl (fun m p => emplace (p_id p) 0 m) ∅ (no_peers (options_ n)))).

Definition quorum_size (n : Node) : Z := (zlen (no_peers (options_ n)) + 1) / 2 + 1.

Definition find_peer (id : NodeId) (n : Node) : option Peer :=
  list_find (fun p => p_id p = id) (no_peers (options_ n)) ≫= fun ip => Some ip.2.

(** *** Committing and snapshots *)

Definition maybe_create_snapshot_locked : stm Node unit :=
  n ← sget;
  let applied := last_applied (hard_state_ n) in
  if (no_snapshot_threshold_entries (options_ n) =? 0) || (applied =? 0) then mret tt
  else if u64 (applied - snapshot_index n) <? no_snapshot_threshold_entries (options_ n) then mret tt
  else
    match term_at_locked applied n with
    | None => sthrow (RuntimeError "cannot determine term for Raft snapshot")
    | Some term =>
        payload ← on_machine fsm_create_snapshot;
        let created := mkSnapshot applied term payload in
        _ ← on_storage (st_save_snapshot created);
        _ ← smodify (set_snapshot (Some created));
        _ ← smodify (fun n => set_log (erase_through applied (log_ n)) n);
        _ ← persist_log_locked;
        count SnapshotsCreated
    end.

(** The loop: each turn moves [last_applied_] forward, so there are at most
    [commit_index - last_applied] of them. *)
Fixpoint apply_loop (turns : nat) : stm Node unit :=
  match turns with
  | O => mret tt
  | Datatypes.S turns' =>
      n ← sget;
      let h := hard_state_ n in
      if negb (last_applied h <? commit_index h) then mret tt
      else
        let index := u64 (last_applied h + 1) in
        if match snapshot_ n with Some s => index <=? last_included_index s | None => false end then
          _ ← on_hard (set_applied (snapshot_index n));
          apply_loop turns'
        else
          _ ← slift (throw_if (index <? first_index n) (RuntimeError "committed Raft entry is no longer available"));
          match log_ n !! Z.to_nat (index - first_index n) with
          | None => sthrow (RuntimeError "committed Raft entry is missing")
          | Some entry =>
              _ ← on_machine (fsm_apply entry);
              _ ← on_hard (set_applied index);
              _ ← (if bool_decide (c_type (le_command entry) = Noop) then mret tt else count CommittedCommands);
              apply_loop turns'
          end
  end.

Definition apply_committed_locked : stm Node unit :=
  n ← sget;
  _ ← apply_loop (Z.to_nat (commit_index (hard_state_ n) - last_applied (hard_state_ n)));
  maybe_create_snapshot_locked.

(** [hard_state_.commit_index = c; apply_committed_locked();
    persist_hard_state_locked();] *)
Definition commit_to (c : Z) : stm Node unit :=
  _ ← on_hard (set_commit c);
  _ ← apply_committed_locked;
  persist_hard_state_locked.

Definition trigger_snapshot : stm Node unit :=
  n ← sget;
  if last_applied (hard_state_ n) =? 0 then mret tt
  else
    let original := no_snapshot_threshold_entries (options_ n) in
    _ ← smodify (set_threshold 1);
    _ ← maybe_create_snapshot_locked;
    smodify (set_threshold original).
End node.

Section handlers.
Context {S M : Type} `{Storage S} `{StateMachine M}.
Abbreviation Node := (RaftNode S M).

(** *** Construction *)

(** The constructor: what it answers, and the storage and the state machine
    it leaves. *)
Definition new_node (o : RaftNodeOptions) (storage : S) (machine : M) : result Node * S * M :=
  let built :=
    _ ← validate_options o;
    persisted ← st_load storage;
    let node := mkNode o Follower (pst_hard_state persisted) (pst_log persisted) (pst_snapshot persisted)
                  [] ∅ ∅ no_metrics storage machine in
    _ ← match pst_log persisted with
        | [] => mret tt
        | e :: _ => throw_if (negb (le_index e =? u64 (snapshot_index node + 1)))
                      (RuntimeError "persisted Raft log does not follow its snapshot")
        end;
    _ ← throw_if (negb (contiguous (pst_log persisted))) (RuntimeError "persisted Raft log indices are not contiguous");
    let commit := Z.max (commit_index (hard_state_ node)) (snapshot_index node) in
    _ ← throw_if (last_log_index_locked node <? commit) (RuntimeError "persisted Raft commit index exceeds the log");
    mret (set_hard (set_commit commit (hard_state_ node)) node) in
  match built with
  | Throw e => (Throw e, storage, machine)
  | Ok node =>
      let commit := commit_index (hard_state_ node) in
      let start :=
        _ ← on_machine (fsm_recover (snapshot_ node) (filter (fun e => le_index e <= commit) (log_ node)));
        _ ← on_hard (set_applied commit);
        persist_hard_state_locked in
      match start node with
      | (Ok _, node') => (Ok node', storage_ node', state_machine_ node')
      | (Throw e, node') => (Throw e, storage_ node', state_machine_ node')
      end
  end.

(** *** The handlers of remote calls *)

Definition handle_request_vote (request : RequestVoteRequest) : stm Node RequestVoteResponse :=
  _ ← count VoteRequestsReceived;
  n ← sget;
  if rv_term request <? term_ n then mret (mkVoteResponse (term_ n) false)
  else
    _ ← (if term_ n <? rv_term request then become_follower_locked (rv_term request) [] else mret tt);
    n ← sget;
    let candidate_is_current :=
      (last_log_term_locked n <? rv_last_log_term request) ||
      ((rv_last_log_term request =? last_log_term_locked n) && (last_log_index_locked n <=? rv_last_log_index request)) in
    let can_vote := is_nil (voted_for (hard_state_ n)) || str_eqb (voted_for (hard_state_ n)) (rv_candidate_id request) in
    let grant := can_vote && candidate_is_current in
    _ ← (if grant then
           _ ← on_hard (set_vote (rv_candidate_id request));
           persist_hard_state_locked
         else mret tt);
    n ← sget;
    mret (mkVoteResponse (term_ n) grant).

(** The loop that looks for the first entry of the conflicting term; each turn
    lowers the index. *)
Fixpoint conflict_loop (turns : nat) (conflict_index previous_term : Z) (n : Node) : Z :=
  match turns with
  | O => conflict_index
  | Datatypes.S turns' =>
      if negb (u64 (snapshot_index n + 1) <? conflict_index) then conflict_index
      else
        match term_at_locked (conflict_index - 1) n with
        | Some earlier => if earlier =? previous_term then conflict_loop turns' (conflict_index - 1) previous_term n
                          else conflict_index
        | None => conflict_index
        end
  end.

(** The loop over the entries of a request, from the one at [position] on:
    [None] when an entry is out of place, else whether the log changed. *)
Fixpoint merge_entries (previous_log_index position : Z) (entries : list LogEntry) : stm Node (option bool) :=
  match entries with
  | [] => mret (Some false)
  | incoming :: rest =>
      n ← sget;
      if negb (le_index incoming =? u64 (previous_log_index + position + 1)) then mret None
      else if le_index incoming <=? snapshot_index n then merge_entries previous_log_index (position + 1) rest
      else
        _ ← match term_at_locked (le_index incoming) n with
            | Some existing =>
                if negb (existing =? le_term incoming) then truncate_log_from_locked (le_index incoming) else mret tt
            | None => mret tt
            end;
        n ← sget;
        match term_at_locked (le_index incoming) n with
        | None => _ ← append_entries_locked entries; mret (Some true)
        | Some _ => merge_entries previous_log_index (position + 1) rest
        end
  end.

Definition handle_append_entries (request : AppendEntriesRequest) : stm Node AppendEntriesResponse :=
  _ ← count AppendEntriesReceived;
  n ← sget;
  if ae_term request <? term_ n then
    mret (mkAppendResponse (term_ n) false (last_log_index_locked n) (u64 (last_log_index_locked n + 1)))
  else
    _ ← (if (term_ n <? ae_term request) || negb (bool_decide (role_ n = Follower))
         then become_follower_locked (ae_term request) (ae_leader_id request) else mret tt);
    _ ← smodify (set_leader (ae_leader_id request));
    n ← sget;
    if ae_previous_log_index request <? snapshot_index n then
      mret (mkAppendResponse (term_ n) false (snapshot_index n) (u64 (snapshot_index n + 1)))
    else
      match term_at_locked (ae_previous_log_index request) n with
      | None => mret (mkAppendResponse (term_ n) false (last_log_index_locked n) (u64 (last_log_index_locked n + 1)))
      | Some previous_term =>
          if negb (previous_term =? ae_previous_log_term request) then
            mret (mkAppendResponse (term_ n) false 0
                    (conflict_loop (Z.to_nat (ae_previous_log_index request)) (ae_previous_log_index request) previous_term n))
          else
            merged ← merge_entries (ae_previous_log_index request) 0 (ae_entries request);
            match merged with
            | None =>
                n ← sget;
                mret (mkAppendResponse (term_ n) false (last_log_index_locked n) (u64 (last_log_index_locked n + 1)))
            | Some log_changed =>
                _ ← (if (log_changed : bool) then persist_log_locked else mret tt);
                n ← sget;
                _ ← (if commit_index (hard_state_ n) <? ae_leader_commit request
                     then commit_to (Z.min (ae_leader_commit request) (last_log_index_locked n)) else mret tt);
                n ← sget;
                let match_index := match last (ae_entries request) with Some e => le_index e | None => ae_previous_log_index request end in
                mret (mkAppendResponse (term_ n) true (Z.min match_index (last_log_index_locked n)) 0)
            end
      end.

Definition handle_install_snapshot (request : InstallSnapshotRequest) : stm Node InstallSnapshotResponse :=
  n ← sget;
  if is_term request <? term_ n then mret (mkSnapshotResponse (term_ n) false (snapshot_index n))
  else
    _ ← (if (term_ n <? is_term request) || negb (bool_decide (role_ n = Follower))
         then become_follower_locked (is_term request) (is_leader_id request) else mret tt);
    _ ← smodify (set_leader (is_leader_id request));
    n ← sget;
    if match snapshot_ n with Some s => is_last_included_index request <=? last_included_index s | None => false end then
      mret (mkSnapshotResponse (term_ n) true (snapshot_index n))
    else
      _ ← smodify (set_log
            (if bool_decide (term_at_locked (is_last_included_index request) n = Some (is_last_included_term request))
             then erase_through (is_last_included_index request) (log_ n) else []));
      let installed := mkSnapshot (is_last_included_index request) (is_last_included_term request) (is_payload request) in
      _ ← on_storage (st_save_snapshot installed);
      _ ← smodify (set_snapshot (Some installed));
      _ ← persist_log_locked;
      _ ← on_machine (fsm_install_snapshot (payload installed));
      _ ← on_hard (fun h => set_commit (Z.max (commit_index h) (last_included_index installed)) h);
      _ ← on_hard (fun h => set_applied (Z.max (last_applied h) (last_included_index installed)) h);
      _ ← persist_hard_state_locked;
      _ ← count SnapshotsInstalled;
      n ← sget;
      mret (mkSnapshotResponse (term_ n) true (last_included_index installed)).

(** *** Elections *)

(** The first section of [begin_election]; [None] for a leader. *)
Definition start_election : stm Node (option RequestVoteRequest) :=
  n ← sget;
  if bool_decide (role_ n = Leader) then mret None
  else
    _ ← smodify (set_role Candidate);
    _ ← smodify (set_leader []);
    _ ← on_hard (fun h => set_term (u64 (current_term h + 1)) h);
    _ ← on_hard (set_vote (no_node_id (options_ n)));
    _ ← count ElectionsStarted;
    _ ← persist_hard_state_locked;
    n ← sget;
    mret (Some (mkVoteRequest (term_ n) (no_node_id (options_ n)) (last_log_index_locked n) (last_log_term_locked n))).

(** The section after the answer of one peer: the votes so far, [None] when
    the campaign is over. *)
Definition on_vote_response (election_term votes : Z) (response : RequestVoteResponse) : stm Node (option Z) :=
  n ← sget;
  if term_ n <? vr_term response then
    _ ← become_follower_locked (vr_term response) [];
    mret None
  else if negb (bool_decide (role_ n = Candidate)) || negb (term_ n =? election_term) then mret None
  else mret (Some (if vr_vote_granted response then u64 (votes + 1) else votes)).

(** The last section: whether the election is won. *)
Definition finish_election (election_term votes : Z) : stm Node bool :=
  n ← sget;
  if bool_decide (role_ n = Candidate) && (term_ n =? election_term) && (quorum_size n <=? votes) then
    _ ← become_leader_locked;
    _ ← append_local_entry_locked noop;
    _ ← persist_log_locked;
    n ← sget;
    _ ← (if quorum_size n =? 1 then commit_to (last_log_index_locked n) else mret tt);
    mret true
  else mret false.

(** *** Replication *)

(** The first section of [replicate_all]: the term the requests are for. *)
Definition start_replication (n : Node) : option Z :=
  if bool_decide (role_ n = Leader) then Some (term_ n) else None.

Inductive Prepared :=
| NotTheLeader
| TryAgain
| SendSnapshot (request : InstallSnapshotRequest)
| SendEntries (request : AppendEntriesRequest).

(** The request with the entries from [next] on, or with none. *)
Definition prepare_entries (peer : Peer) (heartbeat_only : bool) (next : Z) : stm Node Prepared :=
  n ← sget;
  let previous := if next =? 0 then 0 else next - 1 in
  match term_at_locked previous n with
  | None =>
      _ ← smodify (set_next (<[p_id peer := match snapshot_ n with
                                            | Some s => last_included_index s
                                            | None => Z.max 1 (u64 (next - 1))
                                            end]> (next_index_ n)));
      mret TryAgain
  | Some previous_term =>
      _ ← count AppendEntriesSent;
      mret (SendEntries (mkAppendRequest (term_ n) (no_node_id (options_ n)) previous previous_term
                           (if heartbeat_only then [] else entries_from_locked next n) (commit_index (hard_state_ n))))
  end.

(** The section of [replicate_peer] that makes the request. *)
Definition prepare_replication (peer : Peer) (heartbeat_only : bool) : stm Node Prepared :=
  n ← sget;
  if negb (bool_decide (role_ n = Leader)) then mret NotTheLeader
  else
    _ ← smodify (set_next (emplace (p_id peer) (u64 (last_log_index_locked n + 1)) (next_index_ n)));
    n ← sget;
    let next := default 0 (next_index_ n !! p_id peer) in
    match snapshot_ n with
    | Some s =>
        if next <=? last_included_index s then
          mret (SendSnapshot (mkSnapshotRequest (term_ n) (no_node_id (options_ n)) (last_included_index s)
                                (last_included_term s) (payload s)))
        else prepare_entries peer heartbeat_only next
    | None => prepare_entries peer heartbeat_only next
    end.

(** The section after the answer to a snapshot. *)
Definition on_snapshot_response (peer : Peer) (request_term : Z) (response : option InstallSnapshotResponse) : stm Node bool :=
  match response with
  | None => _ ← count ReplicationFailures; mret false
  | Some response =>
      n ← sget;
      if term_ n <? ir_term response then
        _ ← become_follower_locked (ir_term response) [];
        mret false
      else if negb (bool_decide (role_ n = Leader)) || negb (term_ n =? request_term) then mret false
      else if ir_success response then
        _ ← smodify (set_match (<[p_id peer := ir_installed_index response]> (match_index_ n)));
        _ ← smodify (set_next (<[p_id peer := u64 (ir_installed_index response + 1)]> (next_index_ n)));
        mret true
      else
        _ ← count ReplicationFailures;
        mret false
  end.

(** The section after the answer to entries: [None] when another attempt
    follows. *)
Definition on_append_response (peer : Peer) (request_term : Z) (response : option AppendEntriesResponse) : stm Node (option bool) :=
  match response with
  | None => _ ← count ReplicationFailures; mret (Some false)
  | Some response =>
      n ← sget;
      if term_ n <? ar_term response then
        _ ← become_follower_locked (ar_term response) [];
        mret (Some false)
      else if negb (bool_decide (role_ n = Leader)) || negb (term_ n =? request_term) then mret (Some false)
      else if ar_success response then
        _ ← smodify (set_match (<[p_id peer := ar_match_index response]> (match_index_ n)));
        _ ← smodify (set_next (<[p_id peer := u64 (ar_match_index response + 1)]> (next_index_ n)));
        mret (Some true)
      else
        _ ← count ReplicationFailures;
        let current_next := default 0 (next_index_ n !! p_id peer) in
        let fallback := if ar_conflict_index response =? 0 then Z.max 1 (u64 (current_next - 1)) else ar_conflict_index response in
        _ ← smodify (set_next (<[p_id peer := Z.min current_next fallback]> (next_index_ n)));
        mret None
  end.

Definition advance_commit_locked : stm Node bool :=
  n ← sget;
  let replicated := sort_by Z.ltb
        (last_log_index_locked n :: map (fun p => default 0 (match_index_ n !! p_id p)) (no_peers (options_ n))) in
  let candidate := default 0 (replicated !! Z.to_nat (zlen replicated - quorum_size n)) in
  if candidate <=? commit_index (hard_state_ n) then mret false
  else
    match term_at_locked candidate n with
    | Some candidate_term =>
        if negb (candidate_term =? term_ n) then mret false
        else
          _ ← on_hard (set_commit candidate);
          mret true
    | None => mret false
    end.

(** The section of [replicate_all] after the requests: whether the node still
    leads in the term of the requests, and whether the commit index moved. *)
Definition finish_replication (request_term : Z) : stm Node (bool * bool) :=
  n ← sget;
  if bool_decide (role_ n = Leader) && (term_ n =? request_term) then
    advanced ← advance_commit_locked;
    _ ← (if (advanced : bool) then
           _ ← apply_committed_locked;
           persist_hard_state_locked
         else mret tt);
    mret (true, advanced)
  else mret (false, false).

(** *** Client commands *)

(** The sections of [submit]: the command is appended... *)
Definition submit_append (command : Command) : stm Node (SubmitResult + LogEntry) :=
  match valid_client_command command with
  | Throw e => mret (inl (mkSubmitResult InvalidCommand 0 0 [] (what e)))
  | Ok _ =>
      n ← sget;
      if negb (bool_decide (role_ n = Leader)) then 
        mret (inl (mkSubmitResult NotLeader 0 (term_ n) (leader_id_ n) "request must be sent to the current leader"))
      else
        entry ← append_local_entry_locked command;
        _ ← persist_log_locked;
        if quorum_size n =? 1 then
          _ ← commit_to (le_index entry);
          mret (inl (mkSubmitResult Committed (le_index entry) (le_term entry) (no_node_id (options_ n)) ""))
        else mret (inr entry)
  end.

(** ... looked at after each round of replication... *)
Definition submit_check (entry : LogEntry) (n : Node) : option SubmitResult :=
  if le_index entry <=? commit_index (hard_state_ n) then
    Some (mkSubmitResult Committed (le_index entry) (le_term entry) (no_node_id (options_ n)) "")
  else if negb (bool_decide (role_ n = Leader)) || negb (term_ n =? le_term entry) then
    Some (mkSubmitResult NotLeader (le_index entry) (term_ n) (leader_id_ n) "leadership changed before the command committed")
  else None.

(** ... and given up at the deadline. *)
Definition submit_timeout (entry : LogEntry) (n : Node) : SubmitResult :=
  mkSubmitResult Timeout (le_index entry) (term_ n) (leader_id_ n) "command did not reach a quorum before its deadline".

(** The overload with a duration: [None] when it goes on to the other. *)
Definition submit_timed (timeout : Z) : option SubmitResult :=
  if timeout <=? 0 then Some (mkSubmitResult Timeout 0 0 [] "command timeout must be positive") else None.

(** *** Queries *)

Definition status (n : Node) : NodeStatus :=
  mkNodeStatus (no_node_id (options_ n)) (role_ n) (term_ n) (leader_id_ n) (commit_index (hard_state_ n)) (last_applied (hard_state_ n))
    (last_log_index_locked n) (last_log_term_locked n) (snapshot_index n) (zlen (no_peers (options_ n))) (metrics_ n).

Definition is_leader (n : Node) : bool := bool_decide (role_ n = Leader).

Definition leader_id (n : Node) : NodeId := leader_id_ n.

Definition leader_address (n : Node) : option str :=
  if is_nil (leader_id_ n) || str_eqb (leader_id_ n) (no_node_id (options_ n)) then None
  else p_address <$> find_peer (leader_id_ n) n.

(** The section of [confirm_leadership] after a round of replication: [None]
    when another round follows. *)
Definition confirm_check (contacted_quorum : bool) (n : Node) : option bool :=
  if negb (bool_decide (role_ n = Leader)) then Some false
  else if contacted_quorum && bool_decide (term_at_locked (commit_index (hard_state_ n)) n = Some (term_ n)) then Some true
  else None.

(** [stop] of a node that runs, once the ticker has ended. *)
Definition stop : stm Node unit := on_machine fsm_flush.
End handlers.
