(* ===== verification/RaftMachine.v ===== *)
(** * The replicated state machine

    src/raft/state_machine.cpp: the map from keys to values that the committed
    commands make, kept in memory and in a persistent store, and its snapshots.
    The store is any [DurableStore]: a key-value store that can be opened on a
    directory, checkpointed, flushed, closed and removed with its files.
    [StateMachineLaws] is what a Raft node may rely on, however the calls on
    the store end. *)

From S2P Require Import Prelude Triples OrderedMap Codec Store RaftTypes RaftCodec RaftStorage RaftNode.

(** ** Definitions *)

(** [D] is the directory of the state while no store is open on it; a store
    that is closed gives it back. *)
Class DurableStore (D P : Type) `{KeyValueStore P} := {
  ds_create_directories : stm D unit;
  ds_remove_all : stm D unit;
  ds_open : stm D P;
  ds_close : P -> D -> D;
  ds_checkpoint : stm P unit;
  ds_flush : stm P unit
}.

Record DurableKeyValueStateMachine (D P : Type) := mkMachine {
  dm_directory : D;
  dm_values : list (str * str);
  dm_store : option P
}.
Arguments mkMachine {D P}.
Arguments dm_directory {D P}.
Arguments dm_values {D P}.
Arguments dm_store {D P}.

Definition kStateSnapshotVersion : Z := 1.

Definition encode_pair (kv : str * str) : result str :=
  key ← append_bytes kv.1;
  value ← append_bytes kv.2;
  mret (key ++ value).

Fixpoint encode_pairs (kvs : list (str * str)) : result str :=
  match kvs with
  | [] => mret []
  | kv :: rest =>
      x ← encode_pair kv;
      y ← encode_pairs rest;
      mret (x ++ y)
  end.

Definition encode_map (values : list (str * str)) : result str :=
  y ← encode_pairs values;
  mret (le_bytes 4 kStateSnapshotVersion ++ le_bytes 8 (zlen values) ++ y).

Section machine.
Context {D P : Type} `{DurableStore D P}.
Abbreviation Machine := (DurableKeyValueStateMachine D P).

Definition set_directory (d : D) (m : Machine) : Machine := mkMachine d (dm_values m) (dm_store m).
Definition set_values (v : list (str * str)) (m : Machine) : Machine := mkMachine (dm_directory m) v (dm_store m).
Definition set_store (p : option P) (m : Machine) : Machine := mkMachine (dm_directory m) (dm_values m) p.

Definition on_directory {A} (c : stm D A) : stm Machine A :=
  fun m => match c (dm_directory m) with (r, d) => (r, set_directory d m) end.

(** [store_->...]; undefined while no store is open. *)
Definition on_store {A} (c : stm P A) : stm Machine A :=
  fun m => match dm_store m with
           | Some p => match c p with (r, p') => (r, set_store (Some p') m) end
           | None => (Throw (LogicError "no store is open"), m)
           end.

(** *** Storage *)

(** The constructor. *)
Definition new_machine (directory : str) (d : D) : result Machine * D :=
  match (_ ← slift (throw_if (is_nil directory) (InvalidArgument "state machine directory must not be empty"));
         ds_create_directories) d with
  | (Ok _, d') => (Ok (mkMachine d' [] None), d')
  | (Throw e, d') => (Throw e, d')
  end.

Definition open_storage_locked : stm Machine unit :=
  _ ← on_directory ds_create_directories;
  p ← on_directory ds_open;
  smodify (set_store (Some p)).

Definition close_storage : stm Machine unit :=
  smodify (fun m => match dm_store m with
                    | Some p => set_store None (set_directory (ds_close p (dm_directory m)) m)
                    | None => m
                    end).

Definition reset_storage_locked : stm Machine unit :=
  _ ← close_storage;
  _ ← on_directory ds_remove_all;
  open_storage_locked.

(** *** Commands *)

Definition apply_command_locked (command : Command) : stm Machine unit :=
  match c_type command with
  | Noop => mret tt
  | Put =>
      _ ← slift (validate_key (c_key command));
      _ ← slift (validate_value (c_value command));
      _ ← on_store (kv_put (c_key command) (c_value command));
      smodify (fun m => set_values (om_insert (c_key command) (c_value command) (dm_values m)) m)
  | Delete =>
      _ ← slift (validate_key (c_key command));
      _ ← on_store (kv_remove (c_key command));
      smodify (fun m => set_values (om_erase (c_key command) (dm_values m)) m)
  end.

Fixpoint apply_commands (entries : list LogEntry) : stm Machine unit :=
  match entries with
  | [] => mret tt
  | e :: rest =>
      _ ← apply_command_locked (le_command e);
      apply_commands rest
  end.

Definition apply (entry : LogEntry) : stm Machine unit :=
  _ ← slift (throw_if ((le_index entry =? 0) || (le_term entry =? 0))
               (InvalidArgument "committed Raft entry must have an index and term"));
  m ← sget;
  _ ← match dm_store m with Some _ => mret tt | None => open_storage_locked end;
  apply_command_locked (le_command entry).

(** *** Snapshots *)

Definition on_decoder {A} (p : dec A) (d : Decoder) : stm Machine (A * Decoder) := slift (p d).

(** The loop of [restore_map_locked]: a key is in the map as soon as it has
    been read. *)
Fixpoint restore_pairs (count : nat) (d : Decoder) : stm Machine Decoder :=
  match count with
  | O => mret d
  | S count' =>
      key ← on_decoder read_bytes d;
      value ← on_decoder read_bytes key.2;
      _ ← slift (validate_key key.1);
      _ ← slift (validate_value value.1);
      m ← sget;
      let '(inserted, values) := om_emplace key.1 value.1 (dm_values m) in
      _ ← smodify (set_values values);
      _ ← slift (throw_if (negb inserted) (RuntimeError "duplicate key in state machine snapshot"));
      restore_pairs count' value.2
  end.

Definition restore_map_locked (payload : str) : stm Machine unit :=
  version ← on_decoder read_u32 (mkDecoder payload 0);
  _ ← slift (throw_if (negb (version.1 =? kStateSnapshotVersion)) (RuntimeError "unsupported state machine snapshot version"));
  count ← on_decoder read_u64 version.2;
  d ← restore_pairs (Z.to_nat count.1) count.2;
  at_end ← on_decoder dec_at_end d;
  slift (throw_if (negb at_end.1) (RuntimeError "unexpected bytes in state machine snapshot")).

Fixpoint store_values (values : list (str * str)) : stm Machine unit :=
  match values with
  | [] => mret tt
  | kv :: rest =>
      _ ← on_store (kv_put kv.1 kv.2);
      store_values rest
  end.

(** The map of a snapshot, in memory and in the store. *)
Definition load_snapshot (payload : str) : stm Machine unit :=
  _ ← restore_map_locked payload;
  m ← sget;
  store_values (dm_values m).

Definition recover (snapshot : option Snapshot) (committed_entries : list LogEntry) : stm Machine unit :=
  _ ← reset_storage_locked;
  _ ← smodify (set_values []);
  _ ← match snapshot with Some s => load_snapshot (payload s) | None => mret tt end;
  _ ← apply_commands committed_entries;
  on_store ds_checkpoint.

Definition create_snapshot : stm Machine str :=
  m ← sget;
  slift (encode_map (dm_values m)).

Definition install_snapshot (payload : str) : stm Machine unit :=
  _ ← reset_storage_locked;
  _ ← smodify (set_values []);
  _ ← load_snapshot payload;
  on_store ds_checkpoint.

Definition flush : stm Machine unit :=
  m ← sget;
  match dm_store m with Some _ => on_store ds_flush | None => mret tt end.

(** [storage()], which opens the store when none is open, and its const
    overload. *)
Definition storage : stm Machine P :=
  m ← sget;
  _ ← match dm_store m with Some _ => mret tt | None => open_storage_locked end;
  on_store sget.

Definition storage_const (m : Machine) : result P :=
  match dm_store m with Some p => mret p | None => Throw (LogicError "state machine has not been recovered") end.

(** *** Reading *)

Definition get (key : str) (m : Machine) : result (option str) :=
  _ ← validate_key key;
  mret (om_find key (dm_values m)).

Definition size (m : Machine) : Z := zlen (dm_values m).
End machine.

#[export] Instance DurableKeyValueStateMachine_machine {D P} `{DurableStore D P} : StateMachine (DurableKeyValueStateMachine D P) := {|
  fsm_recover := recover;
  fsm_apply := apply;
  fsm_create_snapshot := create_snapshot;
  fsm_install_snapshot := install_snapshot;
  fsm_flush := flush
|}.

#[export] Program Instance DurableKeyValueStateMachine_readable {D P} : ReadableMachine (DurableKeyValueStateMachine D P) := {|
  sm_get := get;
  sm_size := size
|}.
Next Obligation.
  intros D P key m e. unfold get, validate_key, throw_if. destruct (is_nil key); [by intros [= <-]|].
  cbn. by destruct (kMaxKeySize <? zlen key); [intros [= <-]|].
Qed.

(** ** What the machine stands for *)

Definition apply_command (m : gmap str str) (c : Command) : gmap str str :=
  match c_type c with
  | Noop => m
  | Put => <[c_key c := c_value c]> m
  | Delete => delete (c_key c) m
  end.

Definition replay (m : gmap str str) (entries : list LogEntry) : gmap str str :=
  foldl (fun m e => apply_command m (le_command e)) m entries.

Definition pair_wf (kv : str * str) : Prop := valid_key kv.1 /\ valid_value kv.2.

Definition print_pair (kv : str * str) : str := print_bytes kv.1 ++ print_bytes kv.2.
Definition print_pairs (kvs : list (str * str)) : str := concat (map print_pair kvs).
Definition print_map (kvs : list (str * str)) : str :=
  le_bytes 4 kStateSnapshotVersion ++ le_bytes 8 (zlen kvs) ++ print_pairs kvs.

(** The bytes [p] are a snapshot of the map [m]. *)
Definition snapshot_holds (p : str) (m : gmap str str) : Prop :=
  exists kvs, NoDup kvs.*1 /\ Forall pair_wf kvs /\ zlen kvs <= u64_max /\ p = print_map kvs /\ m = list_to_map kvs.

(** What a Raft node may rely on, whatever the calls on the store do.  An
    [apply] that throws has changed nothing that can be read; a recovery or an
    installation that throws may have. *)
Class StateMachineLaws (M : Type) `{StateMachine M} := {
  fsm_inv : M -> Prop;
  fsm_abs : M -> gmap str str;
  fsm_apply_law : forall e m, fsm_inv m ->
    swp (fsm_apply e) (fun _ m' => fsm_inv m' /\ fsm_abs m' = apply_command (fsm_abs m) (le_command e))
      (fun m' => fsm_inv m' /\ fsm_abs m' = fsm_abs m) m;
  fsm_recover_law : forall s entries m, fsm_inv m -> (forall x, s = Some x -> zlen (payload x) <= u64_max) ->
    swp (fsm_recover s entries)
      (fun _ m' => fsm_inv m' /\ exists m0, match s with Some x => snapshot_holds (payload x) m0 | None => m0 = ∅ end /\
                   fsm_abs m' = replay m0 entries)
      fsm_inv m;
  fsm_create_law : forall m, fsm_inv m ->
    swp fsm_create_snapshot (fun p m' => m' = m /\ (zlen p <= u64_max -> snapshot_holds p (fsm_abs m))) (eq m) m;
  fsm_install_law : forall p m, fsm_inv m -> zlen p <= u64_max ->
    swp (fsm_install_snapshot p) (fun _ m' => fsm_inv m' /\ snapshot_holds p (fsm_abs m')) fsm_inv m;
  fsm_flush_law : forall m, fsm_inv m ->
    swp fsm_flush (fun _ m' => fsm_inv m' /\ fsm_abs m' = fsm_abs m) (fun m' => fsm_inv m' /\ fsm_abs m' = fsm_abs m) m
}.

(** ** Snapshots as bytes *)

Lemma print_bytes_inj a b r1 r2 : short a -> short b -> print_bytes a ++ r1 = print_bytes b ++ r2 -> a = b /\ r1 = r2.
Proof.
  unfold print_bytes, short. intros Ha Hb H. rewrite <- !app_assoc in H. apply app_inj_1 in H as [H1 H2]; [|by rewrite !le_bytes_length].
  assert (Hl : zlen a = zlen b).
  { apply (f_equal le_val) in H1. rewrite !le_val_bytes, !Z.mod_small in H1; [done|..]; unfold u32_max in *; simpl; lia || (pose proof (zlen_nonneg a); pose proof (zlen_nonneg b); lia). }
  apply app_inj_1 in H2; [done|]. unfold zlen in Hl. lia.
Qed.

Lemma valid_short kv : pair_wf kv -> short kv.1 /\ short kv.2.
Proof.
  unfold pair_wf, valid_key, valid_value, short, kMaxKeySize, kMaxValueSize, u32_max. intros [[_ ?] ?].
  pose proof (zlen_nonneg kv.1). pose proof (zlen_nonneg kv.2). lia.
Qed.

Lemma print_map_inj a b :
  Forall pair_wf a -> Forall pair_wf b -> zlen a <= u64_max -> zlen b <= u64_max -> print_map a = print_map b -> a = b.
Proof.
  intros Ha Hb La Lb H. unfold print_map in H. apply app_inv_head in H. apply app_inj_1 in H as [H1 H]; [|by rewrite !le_bytes_length].
  assert (Hl : zlen a = zlen b).
  { apply (f_equal le_val) in H1. rewrite !le_val_bytes, !Z.mod_small in H1; [done|..]; unfold u64_max in *; simpl;
      pose proof (zlen_nonneg a); pose proof (zlen_nonneg b); lia. }
  clear H1 La Lb. revert b Hb H Hl. induction Ha as [|kv a Hkv _ IH]; intros [|kv' b] Hb H Hl.
  - done.
  - rewrite zlen_cons in Hl. pose proof (zlen_nonneg b). unfold zlen in *. simpl in *. lia.
  - rewrite zlen_cons in Hl. pose proof (zlen_nonneg a). unfold zlen in *. simpl in *. lia.
  - apply Forall_cons in Hb as [Hkv' Hb]. unfold print_pairs in H. cbn [map concat] in H. unfold print_pair in H. rewrite <- !app_assoc in H.
    destruct (valid_short _ Hkv) as [? ?], (valid_short _ Hkv') as [? ?]. apply print_bytes_inj in H as [Hk H]; [|done..].
    apply print_bytes_inj in H as [Hv H]; [|done..]. f_equal; [destruct kv, kv'; simpl in *; congruence|]. apply IH; [done..|].
    rewrite !zlen_cons in Hl. lia.
Qed.

Lemma snapshot_holds_det p m m' : snapshot_holds p m -> snapshot_holds p m' -> m = m'.
Proof.
  intros (a & _ & Ha & La & -> & ->) (b & _ & Hb & Lb & H & ->). by rewrite (print_map_inj _ _ Ha Hb La Lb H).
Qed.

Lemma encode_map_iff kvs p : Forall pair_wf kvs -> encode_map kvs = Ok p <-> p = print_map kvs.
Proof.
  intros Hw. assert (H : encode_pairs kvs = Ok (print_pairs kvs)).
  { induction Hw as [|kv kvs [H1 H2]%valid_short _ IH]; [done|]. simpl. rewrite IH. unfold encode_pair.
    by rewrite (proj2 (append_bytes_iff _ _) (conj H1 eq_refl)), (proj2 (append_bytes_iff _ _) (conj H2 eq_refl)). }
  unfold encode_map. rewrite H. unfold print_map. split; [by intros [= <-]|by intros ->].
Qed.

(** ** The map in memory *)

Definition values_ok (v : list (str * str)) : Prop := om_wf v /\ Forall pair_wf v.
Definition values_map (v : list (str * str)) : gmap str str := list_to_map v.

Lemma values_insert k x v : values_map (om_insert k x v) = <[k := x]> (values_map v).
Proof.
  apply map_eq. intros i. unfold values_map. rewrite om_find_list_to_map, om_find_insert.
  destruct (str_eqb i k) eqn:E; sbool; [subst; by rewrite lookup_insert_eq|by rewrite lookup_insert_ne, om_find_list_to_map].
Qed.

Lemma values_erase k v : om_wf v -> values_map (om_erase k v) = delete k (values_map v).
Proof.
  intros Hw. apply map_eq. intros i. unfold values_map. rewrite om_find_list_to_map, om_find_erase by done.
  destruct (str_eqb i k) eqn:E; sbool; [subst; by rewrite lookup_delete_eq|by rewrite lookup_delete_ne, om_find_list_to_map].
Qed.

Lemma values_ok_insert k x v : valid_key k -> valid_value x -> values_ok v -> values_ok (om_insert k x v).
Proof. intros Hk Hx [Hw Hv]. split; [by apply om_insert_wf|]. by apply om_insert_Forall. Qed.

Lemma values_ok_erase k v : values_ok v -> values_ok (om_erase k v).
Proof. intros [Hw Hv]. split; [by apply om_erase_wf|]. by apply om_erase_Forall. Qed.

Definition insert_all (kvs v : list (str * str)) : list (str * str) := foldl (fun v kv => om_insert kv.1 kv.2 v) v kvs.

Lemma insert_all_map kvs v : NoDup kvs.*1 -> values_map (insert_all kvs v) = list_to_map kvs ∪ values_map v.
Proof.
  revert v. induction kvs as [|[k x] kvs IH]; intros v Hn; [simpl; by rewrite (left_id_L ∅ (∪))|].
  apply NoDup_cons in Hn as [Hk Hn]. simpl. rewrite IH, values_insert by done. rewrite <- insert_union_r; [by rewrite insert_union_l|].
  by apply not_elem_of_list_to_map_1.
Qed.

Lemma om_wf_NoDup {V} (m : list (str * V)) : om_wf m -> NoDup m.*1.
Proof.
  unfold om_wf. induction 1 as [|k l _ IH Hl]; [constructor|]. constructor; [|done]. intros Hin.
  rewrite Forall_forall in Hl. by apply (str_lt_irrefl k), Hl.
Qed.

Lemma print_pairs_zlen kvs : 8 * zlen kvs <= zlen (print_pairs kvs).
Proof.
  unfold print_pairs. induction kvs as [|kv kvs IH]; [done|]. cbn [map concat]. unfold print_pair at 1, print_bytes.
  rewrite zlen_cons, !zlen_app, !le_bytes_zlen. change (Z.of_nat 4) with 4. pose proof (zlen_nonneg kv.1). pose proof (zlen_nonneg kv.2). lia.
Qed.

Section laws.
Context {D P : Type} `{DurableStore D P}.
Abbreviation Machine := (DurableKeyValueStateMachine D P).

Definition machine_inv (m : Machine) : Prop := values_ok (dm_values m).
Definition machine_abs (m : Machine) : gmap str str := values_map (dm_values m).

(** The store and its directory are left alone... *)
Definition same_store (m m' : Machine) : Prop := dm_directory m' = dm_directory m /\ dm_store m' = dm_store m.
(** ... or the map is. *)
Definition same_values (m m' : Machine) : Prop := dm_values m' = dm_values m.

Lemma restore_pairs_spec n d all m :
  dec_at d all -> machine_inv m ->
  swp (restore_pairs n d)
    (fun d' m' => same_store m m' /\ machine_inv m' /\ exists kvs rest,
       length kvs = n /\ all = print_pairs kvs ++ rest /\ dec_at d' rest /\ Forall pair_wf kvs /\ NoDup kvs.*1 /\
       (forall k, k ∈ kvs.*1 -> om_find k (dm_values m) = None) /\ dm_values m' = insert_all kvs (dm_values m))
    (fun m' => same_store m m' /\ machine_inv m') m.
Proof.
  revert d all m. induction n as [|n IH]; intros d all m Hd Hm; cbn [restore_pairs].
  - apply swp_ret. split_and!; [done..|]. exists [], all. split_and!; try done; [constructor|by intros k ?%not_elem_of_nil].
  - apply swp_bind, swp_lift; [|done]. intros [key d1] E1. apply swp_bind, swp_lift; [|done]. intros [value d2] E2. cbn [fst snd].
    destruct (codec_inv _ _ _ codec_bytes _ _ _ _ Hd E1) as (r1 & Hs1 & -> & Hd1).
    destruct (codec_inv _ _ _ codec_bytes _ _ _ _ Hd1 E2) as (r2 & Hs2 & -> & Hd2).
    apply swp_bind, swp_lift; [|done]. intros [] Hk%validate_key_inv. apply swp_bind, swp_lift; [|done]. intros [] Hv%validate_value_inv.
    apply swp_bind, swp_get. unfold om_emplace. destruct (om_find key (dm_values m)) as [x|] eqn:Ef.
    + by apply swp_bind, swp_modify, swp_bind, swp_throw.
    + apply swp_bind, swp_modify, swp_bind, swp_ret. eapply swp_mono.
      * apply (IH d2 r2); [done|]. by apply values_ok_insert.
      * intros d' m' ([? ?] & Hm' & kvs & rest & Hn & -> & Hd' & Hw & Hnd & Hf & Hvs). split_and!; [done..|].
        exists ((key, value) :: kvs), rest. split_and!; [by simpl; f_equal| |done|by constructor| | |done].
        -- unfold print_pairs. cbn [map concat]. unfold print_pair at 2. cbn [fst snd]. by rewrite !app_assoc.
        -- apply NoDup_cons. split; [|done]. intros Hin%Hf. cbn in Hin. by rewrite om_find_insert_eq in Hin.
        -- intros k [->|Hin]%elem_of_cons; [done|]. specialize (Hf k Hin). cbn in Hf. rewrite om_find_insert in Hf. by destruct (str_eqb k key).
      * intros m' [[? ?] Hm']. done.
Qed.

Lemma restore_map_spec p m :
  zlen p <= u64_max -> dm_values m = [] ->
  swp (restore_map_locked p)
    (fun _ m' => same_store m m' /\ machine_inv m' /\ snapshot_holds p (machine_abs m'))
    (fun m' => same_store m m' /\ machine_inv m') m.
Proof.
  intros Hl Hm. assert (Hi : machine_inv m) by (unfold machine_inv; rewrite Hm; split; [apply om_wf_nil|done]).
  assert (Hd : dec_at (mkDecoder p 0) p) by by exists [].
  unfold restore_map_locked. apply swp_bind, swp_lift; [|done]. intros [version d1] E1.
  destruct (codec_inv _ _ _ (codec_uint truncated_data 4) _ _ _ _ Hd E1) as (r1 & Hv & Hp & Hd1). cbn [fst snd].
  apply swp_bind, swp_lift; [|done]. intros [] Hver%throw_if_Ok. zbool. subst version.
  apply swp_bind, swp_lift; [|done]. intros [count d2] E2. cbn [fst snd].
  destruct (codec_inv _ _ _ codec_u64 _ _ _ _ Hd1 E2) as (r2 & Hc & -> & Hd2).
  apply swp_bind. eapply swp_mono; [by apply restore_pairs_spec| |done].
  intros d' m' (Hs & Hm' & kvs & rest & Hn & -> & Hd' & Hw & Hnd & _ & Hvs).
  apply swp_bind, swp_lift; [|done]. intros [at_end d3] E3. cbn [fst]. apply swp_lift; [|done]. intros [] Ht%throw_if_Ok.
  destruct at_end; [|done]. assert (d3 = d') as -> by by injection E3. apply dec_at_end_inv in Hd' as ->; [|done].
  assert (Hz : zlen kvs = count) by (unfold zlen, is_u64 in *; lia).
  split_and!; [done..|]. exists kvs. unfold is_u64 in Hc. split_and!; [done|done|lia| |].
  - unfold print_map. rewrite Hp, Hz. by rewrite app_nil_r.
  - unfold machine_abs. rewrite Hvs, Hm, insert_all_map by done. unfold values_map. cbn. by rewrite (right_id_L ∅ (∪)).
Qed.

(** *** Calls on the store *)

Lemma swp_on_store {A} (c : stm P A) m :
  swp (on_store c) (fun _ m' => same_values m m') (same_values m) m.
Proof. unfold swp, on_store. destruct (dm_store m) as [p|]; [|done]. by destruct (c p) as [[a|e] p']. Qed.

Lemma swp_on_directory {A} (c : stm D A) m :
  swp (on_directory c) (fun _ m' => same_values m m') (same_values m) m.
Proof. unfold swp, on_directory. by destruct (c (dm_directory m)) as [[a|e] d']. Qed.

Lemma swp_open m : swp open_storage_locked (fun _ m' => same_values m m') (same_values m) m.
Proof.
  apply swp_bind. eapply swp_mono; [apply swp_on_directory| |done]. intros [] m1 H1'.
  apply swp_bind. eapply swp_mono; [apply swp_on_directory| |].
  - intros p m2 H2'. apply swp_modify. unfold same_values in *. simpl. congruence.
  - unfold same_values. congruence.
Qed.

Lemma swp_reset m : swp reset_storage_locked (fun _ m' => same_values m m') (same_values m) m.
Proof.
  unfold reset_storage_locked, close_storage. apply swp_bind, swp_modify, swp_bind.
  set (m0 := match dm_store m with Some _ => _ | None => m end). assert (H0' : same_values m m0) by (subst m0; by destruct (dm_store m)).
  unfold same_values in *. eapply swp_mono; [apply swp_on_directory| |]; unfold same_values; [|congruence]. intros [] m1 H1'.
  eapply swp_mono; [apply swp_open| |]; unfold same_values; [intros []|]; congruence.
Qed.

Lemma swp_store_values kvs m : swp (store_values kvs) (fun _ m' => same_values m m') (same_values m) m.
Proof.
  revert m. induction kvs as [|kv kvs IH]; intros m; [by apply swp_ret|]. simpl. apply swp_bind.
  eapply swp_mono; [apply swp_on_store| |done]. intros [] m1 H1'. unfold same_values in *.
  eapply swp_mono; [apply IH| |]; [intros []|]; congruence.
Qed.

(** *** Commands *)

Lemma swp_apply_command c m :
  machine_inv m ->
  swp (apply_command_locked c) (fun _ m' => machine_inv m' /\ machine_abs m' = apply_command (machine_abs m) c) (same_values m) m.
Proof.
  intros Hm. unfold apply_command_locked, apply_command. destruct (c_type c); [by apply swp_ret| |].
  - apply swp_bind, swp_lift; [|done]. intros [] Hk%validate_key_inv. apply swp_bind, swp_lift; [|done]. intros [] Hv%validate_value_inv.
    apply swp_bind. eapply swp_mono; [apply swp_on_store| |done]. intros [] m1 E. apply swp_modify. unfold machine_inv, machine_abs, same_values in *.
    simpl. rewrite E. split; [by apply values_ok_insert|apply values_insert].
  - apply swp_bind, swp_lift; [|done]. intros [] Hk%validate_key_inv.
    apply swp_bind. eapply swp_mono; [apply swp_on_store| |done]. intros b m1 E. apply swp_modify. unfold machine_inv, machine_abs, same_values in *.
    simpl. rewrite E. split; [by apply values_ok_erase|apply values_erase, Hm].
Qed.

Lemma same_values_inv m m' : same_values m m' -> machine_inv m -> machine_inv m' /\ machine_abs m' = machine_abs m.
Proof. unfold same_values, machine_inv, machine_abs. by intros ->. Qed.

Lemma swp_apply_commands es m :
  machine_inv m ->
  swp (apply_commands es) (fun _ m' => machine_inv m' /\ machine_abs m' = replay (machine_abs m) es) machine_inv m.
Proof.
  revert m. induction es as [|e es IH]; intros m Hm; [by apply swp_ret|]. simpl. apply swp_bind.
  eapply swp_mono; [by apply swp_apply_command| |intros m' H'; by eapply same_values_inv]. intros [] m1 [Hm1 E].
  eapply swp_mono; [by apply IH| |done]. intros [] m2 [Hm2 E2]. split; [done|]. by rewrite E2, E.
Qed.

Lemma swp_load_snapshot p m :
  zlen p <= u64_max -> dm_values m = [] ->
  swp (load_snapshot p) (fun _ m' => machine_inv m' /\ snapshot_holds p (machine_abs m')) machine_inv m.
Proof.
  intros Hp Hm. apply swp_bind. eapply swp_mono; [by apply restore_map_spec| |by intros m' [_ ?]]. intros [] m1 (_ & Hm1 & Hs).
  apply swp_bind, swp_get. eapply swp_mono; [apply swp_store_values| |].
  - intros [] m2 [? E]%same_values_inv; [|done]. by rewrite E.
  - intros m2 [? _]%same_values_inv; done.
Qed.

Lemma swp_checkpoint (Q : gmap str str -> Prop) m :
  machine_inv m -> Q (machine_abs m) ->
  swp (on_store ds_checkpoint) (fun _ m' => machine_inv m' /\ Q (machine_abs m')) machine_inv m.
Proof.
  intros Hm HQ. eapply swp_mono; [apply swp_on_store| |].
  - intros [] m2 [? E]%same_values_inv; [|done]. by rewrite E.
  - intros m2 [? _]%same_values_inv; done.
Qed.

Lemma empty_machine m : dm_values m = [] -> machine_inv m /\ machine_abs m = ∅.
Proof. intros E. unfold machine_inv, machine_abs. rewrite E. split; [split; [apply om_wf_nil|done]|done]. Qed.

Lemma swp_cleared {A} (c : stm Machine A) Q m :
  machine_inv m -> (forall m1, dm_values m1 = [] -> swp c Q machine_inv m1) ->
  swp (_ ← reset_storage_locked; _ ← smodify (set_values []); c) Q machine_inv m.
Proof.
  intros Hm Hc. apply swp_bind. eapply swp_mono; [apply swp_reset| |intros m' ?; by eapply same_values_inv].
  intros [] m1 _. apply swp_bind, swp_modify, Hc. done.
Qed.

#[export] Program Instance DurableKeyValueStateMachine_laws : StateMachineLaws Machine := {|
  fsm_inv := machine_inv;
  fsm_abs := machine_abs
|}.
Next Obligation.
  intros e m Hm. simpl. unfold apply. apply swp_bind, swp_lift; [|done]. intros [] _. apply swp_bind, swp_get, swp_bind.
  assert (Ha : forall m1, same_values m m1 -> swp (apply_command_locked (le_command e))
     (fun _ m' => machine_inv m' /\ machine_abs m' = apply_command (machine_abs m) (le_command e))
     (fun m' => machine_inv m' /\ machine_abs m' = machine_abs m) m1).
  { intros m1 Hs. destruct (same_values_inv _ _ Hs Hm) as [Hm1 E1]. eapply swp_mono; [by apply swp_apply_command| |].
    - intros [] m2 [? E]. by rewrite E, E1.
    - intros m2 [? E]%same_values_inv; [|done]. by rewrite E, E1. }
  destruct (dm_store m); [by apply swp_ret, Ha|]. eapply swp_mono; [apply swp_open|intros []; apply Ha|].
  intros m' Hs. by apply same_values_inv.
Qed.
Next Obligation.
  intros s es m Hm Hs. simpl. apply swp_cleared; [done|]. intros m1 Em1. destruct (empty_machine _ Em1) as [Hm1 E1].
  assert (Hrest : forall m0 m2, machine_inv m2 -> machine_abs m2 = m0 ->
    match s with Some x => snapshot_holds (payload x) m0 | None => m0 = ∅ end ->
    swp (_ ← apply_commands es; on_store ds_checkpoint)
      (fun _ m' => machine_inv m' /\ exists m0, match s with Some x => snapshot_holds (payload x) m0 | None => m0 = ∅ end /\
                   machine_abs m' = replay m0 es) machine_inv m2).
  { intros m0 m2 Hm2 E2 H0'. apply swp_bind. eapply swp_mono; [by apply swp_apply_commands| |done]. intros [] m3 [Hm3 E3].
    eapply swp_mono; [apply (swp_checkpoint (fun a => a = replay m0 es)); [done|by rewrite E3, E2]| |done].
    intros [] m4 [Hm4 E4]. split; [done|]. by exists m0. }
  apply swp_bind. destruct s as [x|]; [|apply swp_ret; by eapply Hrest].
  eapply swp_mono; [apply swp_load_snapshot| |done]; [by apply Hs|done|].
  intros [] m2 [Hm2 Hs2]. by eapply Hrest.
Qed.
Next Obligation.
  intros m Hm. simpl. unfold create_snapshot. apply swp_bind, swp_get, swp_lift; [|done]. intros p E. split; [done|]. intros Hl.
  pose proof Hm as [Hw Hv]. apply encode_map_iff in E as ->; [|done]. exists (dm_values m). split_and!; try done.
  - by apply om_wf_NoDup.
  - unfold print_map in Hl. rewrite !zlen_app, !le_bytes_zlen in Hl. pose proof (print_pairs_zlen (dm_values m)). pose proof (zlen_nonneg (dm_values m)). lia.
Qed.
Next Obligation.
  intros p m Hm Hl. simpl. apply swp_cleared; [done|]. intros m1 Em1. apply swp_bind.
  eapply swp_mono; [by apply swp_load_snapshot| |done]. intros [] m2 [Hm2 Hs2]. by apply swp_checkpoint.
Qed.
Next Obligation.
  intros m Hm. simpl. unfold flush. apply swp_bind, swp_get. destruct (dm_store m); [|by apply swp_ret].
  eapply swp_mono; [apply swp_on_store| |]; [intros []|]; intros m2 Hs; by apply same_values_inv.
Qed.
End laws.

(** ** While no call fails *)

(** What the machine needs of a store that works: [ds_room] writes after the
    directory has been removed. *)
Class DurableStoreLaws (D P : Type) `{KeyValueStore P} `{!DurableStore D P} `{!KeyValueLaws P} := {
  ds_inv : D -> Prop;
  ds_room : Z;
  ds_create_ok : forall d, ds_inv d -> returns ds_create_directories (fun _ d' => ds_inv d') d;
  ds_reset_ok : forall d, ds_inv d ->
    returns (_ ← ds_remove_all; _ ← ds_create_directories; ds_open)
      (fun p d' => ds_inv d' /\ kv_inv p /\ kv_abs p = ∅ /\ ds_room <= kv_budget p) d;
  ds_close_ok : forall p d, ds_inv d -> kv_inv p -> ds_inv (ds_close p d);
  ds_checkpoint_ok : forall p, kv_inv p -> 0 < kv_budget p ->
    returns ds_checkpoint (fun _ p' => kv_inv p' /\ kv_abs p' = kv_abs p /\ kv_budget p - 1 <= kv_budget p') p
}.

Section synced.
Context {D P : Type} `{DurableStoreLaws D P}.
Abbreviation Machine := (DurableKeyValueStateMachine D P).

(** The store holds what the map holds, and has room for [n] writes. *)
Record synced (n : Z) (m : Machine) (p : P) : Prop := {
  sy_inv : machine_inv m;
  sy_directory : ds_inv (dm_directory m);
  sy_store : dm_store m = Some p;
  sy_kv : kv_inv p;
  sy_abs : kv_abs p = machine_abs m;
  sy_room : n <= kv_budget p
}.

(** A machine that may be recovered: its store, if one is open, works. *)
Definition usable (m : Machine) : Prop :=
  ds_inv (dm_directory m) /\ forall p, dm_store m = Some p -> kv_inv p.

Lemma synced_usable n m p : synced n m p -> usable m.
Proof. intros [_ ? E ? _ _]. split; [done|]. intros p' Hp. rewrite E in Hp. by simplify_eq. Qed.

Definition valid_command (c : Command) : Prop :=
  match c_type c with Noop => True | Put => valid_key (c_key c) /\ valid_value (c_value c) | Delete => valid_key (c_key c) end.

Lemma returns_on_store {A} (c : stm P A) Q (m : Machine) p :
  dm_store m = Some p -> returns c (fun a p' => Q a (set_store (Some p') m)) p -> returns (on_store c) Q m.
Proof. intros E. unfold returns, swp, on_store. rewrite E. by destruct (c p) as [[a|e] p']. Qed.

Lemma returns_bind {S A B} (c : stm S A) (k : A -> stm S B) Q s :
  returns c (fun a s' => returns (k a) Q s') s -> returns (c ≫= k) Q s.
Proof. apply swp_bind. Qed.

Lemma returns_mono {S A} (c : stm S A) (Q Q' : A -> S -> Prop) s :
  returns c Q s -> (forall a s', Q a s' -> Q' a s') -> returns c Q' s.
Proof. intros Hc HQ. by eapply swp_mono. Qed.

(** A write to the store of a synced machine. *)
Lemma put_synced n k v (m : Machine) p :
  0 < n -> valid_key k -> valid_value v -> kv_inv p -> n <= kv_budget p -> dm_store m = Some p ->
  returns (on_store (kv_put k v))
    (fun _ m' => exists p', m' = set_store (Some p') m /\ kv_inv p' /\ kv_abs p' = <[k := v]> (kv_abs p) /\ n - 1 <= kv_budget p') m.
Proof.
  intros Hn Hk Hv Hi Hb Es. eapply returns_on_store; [done|]. apply returns_run.
  destruct (kv_put_ok p k v Hi Hk Hv ltac:(lia)) as (p' & E & K1 & K2 & K3). exists tt, p'. split; [done|].
  exists p'. split_and!; [done..|lia].
Qed.

Lemma apply_command_synced n c m p :
  0 < n -> valid_command c -> synced n m p ->
  returns (apply_command_locked c)
    (fun _ m' => exists p', synced (n - 1) m' p' /\ machine_abs m' = apply_command (machine_abs m) c) m.
Proof.
  intros Hn Hc [S1 S2 S3 S4 S5 S6]. unfold apply_command_locked, apply_command, valid_command in *. destruct (c_type c).
  - apply swp_ret. exists p. split; [split; try done; lia|done].
  - destruct Hc as [Hk Hv]. apply returns_bind. eapply returns_lift; [by apply validate_key_ok|].
    apply returns_bind. eapply returns_lift; [by apply validate_value_ok|]. apply returns_bind.
    eapply returns_mono; [by apply put_synced|]. intros [] m' (p' & -> & K1 & K2 & K3). apply swp_modify. exists p'.
    assert (Ea : machine_abs (set_values (om_insert (c_key c) (c_value c) (dm_values m)) (set_store (Some p') m)) =
                 <[c_key c := c_value c]> (machine_abs m)) by apply values_insert.
    split; [split; try done; [by apply values_ok_insert|by rewrite K2, S5]|done].
  - apply returns_bind. eapply returns_lift; [by apply validate_key_ok|]. apply returns_bind.
    eapply returns_on_store; [done|]. apply returns_run. destruct (kv_remove_ok p (c_key c) S4 Hc ltac:(lia)) as (p' & E & K1 & K2 & K3).
    eexists _, p'. split; [done|]. apply swp_modify. exists p'.
    assert (Ea : machine_abs (set_values (om_erase (c_key c) (dm_values m)) (set_store (Some p') m)) = delete (c_key c) (machine_abs m))
      by apply values_erase, S1.
    split; [split; try done; [by apply values_ok_erase|by rewrite K2, S5|lia]|done].
Qed.

Lemma apply_commands_synced n es m p :
  zlen es <= n -> Forall (fun e => valid_command (le_command e)) es -> synced n m p ->
  returns (apply_commands es)
    (fun _ m' => exists p', synced (n - zlen es) m' p' /\ machine_abs m' = replay (machine_abs m) es) m.
Proof.
  intros Hn Hes. revert n m p Hn. induction Hes as [|e es He Hes IH]; intros n m p Hn Hs.
  - apply swp_ret. exists p. split; [|done]. by rewrite Z.sub_0_r.
  - rewrite zlen_cons in *. pose proof (zlen_nonneg es). simpl. apply returns_bind.
    eapply returns_mono; [eapply apply_command_synced; [|done..]; lia|]. intros [] m1 (p1 & Hs1 & E1).
    eapply returns_mono; [eapply IH; [|done]; lia|]. intros [] m2 (p2 & Hs2 & E2). exists p2.
    split; [by replace (n - (1 + zlen es)) with (n - 1 - zlen es) by lia|]. by rewrite E2, E1.
Qed.

(** The directory is removed and the map cleared. *)
Lemma reset_synced m :
  usable m ->
  returns reset_storage_locked (fun _ m' => exists p, dm_store m' = Some p /\ ds_inv (dm_directory m') /\ kv_inv p /\ kv_abs p = ∅ /\ ds_room <= kv_budget p) m.
Proof.
  intros [Hd Hp]. unfold reset_storage_locked, close_storage, open_storage_locked. apply returns_bind, swp_modify.
  set (m0 := match dm_store m with Some _ => _ | None => m end).
  assert (H0' : ds_inv (dm_directory m0) /\ dm_store m0 = None).
  { subst m0. destruct (dm_store m) as [p|] eqn:E; [|done]. split; [|done]. by apply ds_close_ok; [|apply Hp]. }
  destruct H0' as [Hd0 _]. pose proof (ds_reset_ok _ Hd0) as Hr.
  apply returns_run in Hr as (p & d' & E & R). unfold mbind, stm_bind in E.
  apply returns_run. unfold mbind, stm_bind, on_directory. destruct (ds_remove_all (dm_directory m0)) as [[[]|] d1]; [|done].
  cbn [dm_directory set_directory]. destruct (ds_create_directories d1) as [[[]|] d2]; [|done].
  cbn [dm_directory set_directory]. rewrite E. eexists tt, _. split; [reflexivity|]. by exists p.
Qed.

(** *** Snapshots *)

Lemma on_decoder_ok {A} (c : dec A) bs a rest d (m : Machine) (Q : A * Decoder -> Machine -> Prop) :
  decodes c bs a -> dec_at d (bs ++ rest) -> (forall d', dec_at d' rest -> Q (a, d') m) -> returns (on_decoder c d) Q m.
Proof. intros Hc Hd HQ. destruct (Hc d rest Hd) as (d' & E & Hd'). eapply returns_lift; [exact E|]. by apply HQ. Qed.

Lemma restore_pairs_ok kvs rest d (m : Machine) :
  dec_at d (print_pairs kvs ++ rest) -> Forall pair_wf kvs -> NoDup kvs.*1 ->
  (forall k, k ∈ kvs.*1 -> om_find k (dm_values m) = None) ->
  returns (restore_pairs (length kvs) d) (fun d' m' => dec_at d' rest /\ m' = set_values (insert_all kvs (dm_values m)) m) m.
Proof.
  intros Hd Hw. revert d m Hd. induction Hw as [|[k v] kvs [Hk Hv] Hw IH]; intros d m Hd Hn Hf.
  - apply swp_ret. split; [done|]. by destruct m.
  - apply NoDup_cons in Hn as [Hnk Hn]. destruct (valid_short (k, v) (conj Hk Hv)) as [Sk Sv]. cbn [fst snd] in *.
    unfold print_pairs in Hd. cbn [map concat] in Hd. unfold print_pair in Hd at 1. cbn [fst snd] in Hd. rewrite <- !app_assoc in Hd.
    cbn [length restore_pairs]. apply returns_bind. eapply on_decoder_ok; [|exact Hd|]; [by apply (codec_ok _ _ _ codec_bytes)|]. intros d1 Hd1.
    apply returns_bind. eapply on_decoder_ok; [|exact Hd1|]; [by apply (codec_ok _ _ _ codec_bytes)|]. intros d2 Hd2. cbn [fst snd].
    apply returns_bind. eapply returns_lift; [by apply validate_key_ok|]. apply returns_bind. eapply returns_lift; [by apply validate_value_ok|].
    apply returns_bind, swp_get. unfold om_emplace. rewrite (Hf k) by by left. apply swp_bind, swp_modify, swp_bind, swp_ret.
    eapply returns_mono; [apply IH; [done|done|]|].
    + intros k' Hk'. cbn. rewrite om_find_insert_ne; [apply Hf; by right|]. by intros ->.
    + intros d' m' [Hd' ->]. done.
Qed.

Lemma restore_map_ok kvs (m : Machine) :
  zlen (print_map kvs) <= u64_max -> zlen kvs <= u64_max -> Forall pair_wf kvs -> NoDup kvs.*1 -> dm_values m = [] ->
  returns (restore_map_locked (print_map kvs)) (fun _ m' => m' = set_values (insert_all kvs []) m) m.
Proof.
  intros Hl Hz Hw Hn Hm. unfold restore_map_locked. pose proof (zlen_nonneg kvs).
  assert (Hd : dec_at (mkDecoder (print_map kvs) 0) (print_map kvs)) by by exists [].
  unfold print_map in Hd at 2. apply returns_bind. eapply on_decoder_ok; [|exact Hd|]; [apply decodes_uint; unfold kStateSnapshotVersion; simpl; lia|].
  intros d1 Hd1. apply swp_bind, swp_ret, returns_bind. cbn [fst snd].
  eapply on_decoder_ok; [|exact Hd1|]; [apply (codec_ok _ _ _ codec_u64); by split|]. intros d2 Hd2. cbn [fst snd].
  rewrite <- (app_nil_r (print_pairs kvs)) in Hd2. unfold zlen at 1. rewrite Nat2Z.id. apply returns_bind.
  eapply returns_mono; [apply restore_pairs_ok; [exact Hd2|done|done|by rewrite Hm]|]. intros d3 m' [Hd3 ->]. rewrite Hm.
  apply returns_bind. eapply returns_lift; [by apply dec_at_end_ok|]. by apply swp_ret.
Qed.

Lemma store_values_synced n kvs (m : Machine) p :
  zlen kvs <= n -> Forall pair_wf kvs -> NoDup kvs.*1 -> kv_inv p -> n <= kv_budget p -> dm_store m = Some p ->
  returns (store_values kvs)
    (fun _ m' => exists p', m' = set_store (Some p') m /\ kv_inv p' /\ kv_abs p' = list_to_map kvs ∪ kv_abs p /\ n - zlen kvs <= kv_budget p') m.
Proof.
  intros Hn Hw. revert n m p Hn. induction Hw as [|[k v] kvs [Hk Hv] Hw IH]; intros n m p Hn Hnd Hi Hb Es.
  - apply swp_ret. exists p. split_and!; [by destruct m; simpl in *; rewrite Es|done|simpl; by rewrite (left_id_L ∅ (∪))|by rewrite Z.sub_0_r].
  - apply NoDup_cons in Hnd as [Hnk Hnd]. rewrite zlen_cons in *. pose proof (zlen_nonneg kvs). cbn [store_values fst snd]. apply returns_bind.
    eapply returns_mono; [eapply put_synced; [|done..]; lia|]. intros [] m1 (p1 & -> & K1 & K2 & K3).
    eapply returns_mono; [eapply (IH (n - 1)); [lia|done|done|done|done]|]. intros [] m2 (p2 & -> & K4 & K5 & K6). exists p2.
    split_and!; [done|done| |lia]. rewrite K5, K2. simpl. rewrite <- insert_union_r; [by rewrite insert_union_l|]. by apply not_elem_of_list_to_map_1.
Qed.

Lemma insert_all_ok kvs v : Forall pair_wf kvs -> values_ok v -> values_ok (insert_all kvs v) /\ zlen (insert_all kvs v) <= zlen v + zlen kvs.
Proof.
  intros Hw. revert v. induction Hw as [|[k x] kvs [Hk Hx] _ IH]; intros v Hv; [split; [done|cbn; unfold zlen; simpl; lia]|].
  cbn. destruct (IH (om_insert k x v) (values_ok_insert _ _ _ Hk Hx Hv)) as [H1' H2']. split; [done|].
  pose proof (om_insert_length k x v). rewrite zlen_cons. unfold insert_all in *. lia.
Qed.

Lemma load_snapshot_synced n kvs (m : Machine) p :
  zlen (print_map kvs) <= u64_max -> zlen kvs <= u64_max -> Forall pair_wf kvs -> NoDup kvs.*1 -> zlen kvs <= n ->
  dm_values m = [] -> ds_inv (dm_directory m) -> dm_store m = Some p -> kv_inv p -> kv_abs p = ∅ -> n <= kv_budget p ->
  returns (load_snapshot (print_map kvs)) (fun _ m' => exists p', synced (n - zlen kvs) m' p' /\ machine_abs m' = list_to_map kvs) m.
Proof.
  intros Hl Hz Hw Hn Hb Hm Hd Es Hi Ha Hk. unfold load_snapshot. apply returns_bind. eapply returns_mono; [by apply restore_map_ok|]. intros [] m1 ->.
  apply returns_bind, swp_get. cbn [dm_values set_values].
  destruct (insert_all_ok kvs [] Hw) as [Hv Hvl]; [split; [apply om_wf_nil|done]|]. change (zlen []) with 0 in Hvl.
  pose proof (insert_all_map kvs [] Hn) as Hmap. change (values_map []) with (∅ : gmap str str) in Hmap. rewrite (right_id_L ∅ (∪)) in Hmap.
  eapply returns_mono; [eapply (store_values_synced n); [lia|apply Hv|by apply om_wf_NoDup, Hv|done|done|done]|].
  intros [] m2 (p2 & -> & K1 & K2 & K3). exists p2. split; [|exact Hmap]. split; try done; [|lia].
  rewrite K2, Ha, (right_id_L ∅ (∪)). done.
Qed.

Lemma checkpoint_synced n m p :
  0 < n -> synced n m p ->
  returns (on_store ds_checkpoint) (fun _ m' => exists p', synced (n - 1) m' p' /\ dm_values m' = dm_values m) m.
Proof.
  intros Hn [S1 S2 S3 S4 S5 S6]. eapply returns_on_store; [done|]. eapply returns_mono; [apply ds_checkpoint_ok; [done|lia]|].
  intros [] p' (K1 & K2 & K3). exists p'. split; [|done]. split; try done; [by rewrite K2|lia].
Qed.
End synced.
