(* ===== verification/MachineStore.v ===== *)
(** * The state machine over the persistent store

    [DurableKeyValueStateMachine] of src/raft/state_machine.cpp with the store
    it opens, src/persistent_key_value_store.cpp, in the directory "state": the
    store as a [DurableStore] with its laws, what the machine then promises,
    and a machine of concrete bytes. *)

From S2P Require Import Prelude Triples OrderedMap Codec Posix FileSystem Path Store MemTableSet Recovery WalWriter.
From S2P Require Import Manifest SstManager ManagerInv PersistentStore StoreInv StoreRefinement StoreOpen.
From S2P Require Import RaftTypes RaftCodec RaftStorage RaftNode RaftMachine.

(** ** Definitions *)

Record DurableStateMachineOptions := mkMachineOptions {
  mo_directory : str;
  mo_durability_mode : DurabilityMode;
  mo_memtable_max_bytes : Z;
  mo_block_cache_capacity_bytes : Z
}.

(** The options of the store: those of the machine, the rest at their
    defaults.  [ceil_bits] and [rounded] are the computations of the Bloom
    filter for the default rate. *)
Definition store_options (ceil_bits : Z -> option Z) (rounded : Z -> Z -> Z) (o : DurableStateMachineOptions) : PersistentStoreOptions :=
  let state_directory := path_join (mo_directory o) (bytes_of "state") in
  mkStoreOptions (path_join state_directory (bytes_of "nebulakv.wal")) (path_join state_directory (bytes_of "sstables"))
    (mo_durability_mode o) 100 (mo_memtable_max_bytes o)
    (mkManagerOptions [] (32 * 1024) (mo_block_cache_capacity_bytes o) true ceil_bits rounded 4 4) true true true.

(** How the calls of one opening end: the reads of tables, the calls on the
    log, and what recovery meets of the log. *)
Record Opening := mkOpening {
  og_reads : list io_event;
  og_writes : list io_event;
  og_log_script : list io_event;
  og_log_open : bool;
  og_log_resize : option Z
}.

Definition good_opening : Opening := mkOpening [] [] [] true None.

(** How [remove_all] fails: the error, and what is left. *)
Record RemovalFailure := mkRemovalFailure { rf_error : Z; rf_kept : list str; rf_log_kept : bool }.

(** The directory "state" while no store is open on it, and the outcomes of
    the calls to come. *)
Record StateDirectory := mkStateDirectory {
  sd_options : PersistentStoreOptions;
  sd_disk : Disk;
  sd_openings : list Opening;
  sd_removals : list (option RemovalFailure)
}.

Definition set_disk (d : Disk) (s : StateDirectory) : StateDirectory :=
  mkStateDirectory (sd_options s) d (sd_openings s) (sd_removals s).

Definition on_disk_fs {A} (c : stm Fs A) : stm StateDirectory A :=
  fun s => match c (d_fs (sd_disk s)) with (r, f) => (r, set_disk (mkDisk f (d_wal (sd_disk s))) s) end.

Definition remove_disk (d : Disk) : Disk := mkDisk (fs_change ∅ (d_fs d)) None.

Definition remove_part (x : RemovalFailure) (d : Disk) : Disk :=
  mkDisk (fs_change (filter (fun nc => nc.1 ∈ rf_kept x) (fs_dir (d_fs d))) (d_fs d)) (if rf_log_kept x then d_wal d else None).

Definition remove_state : stm StateDirectory unit :=
  fun s => match sd_removals s with
           | Some x :: rest =>
               (Throw (SystemError (rf_error x) "failed to reset state machine"),
                mkStateDirectory (sd_options s) (remove_part x (sd_disk s)) (sd_openings s) rest)
           | None :: rest => (Ok tt, mkStateDirectory (sd_options s) (remove_disk (sd_disk s)) (sd_openings s) rest)
           | [] => (Ok tt, set_disk (remove_disk (sd_disk s)) s)
           end.

(** The log as recovery meets it. *)
Definition log_met (g : Opening) (w : WalOnDisk) : WalOnDisk :=
  mkWalOnDisk (wd_bytes w) (og_log_script g) (og_log_open g) (og_log_resize g).

Definition open_state : stm StateDirectory PersistentKeyValueStore :=
  fun s =>
    let g := default good_opening (head (sd_openings s)) in
    let rest := tail (sd_openings s) in
    let disk := mkDisk (d_fs (sd_disk s)) (log_met g <$> d_wal (sd_disk s)) in
    match new_store (sd_options s) disk (og_reads g) (og_writes g) with
    | (Ok p, _, _) => (Ok p, mkStateDirectory (sd_options s) disk rest (sd_removals s))
    | (Throw e, kept, _) => (Throw e, mkStateDirectory (sd_options s) kept rest (sd_removals s))
    end.

(** The destructor of the store: the log is closed, the files stay. *)
Definition close_state (p : PersistentKeyValueStore) (s : StateDirectory) : StateDirectory :=
  set_disk (mkDisk (sm_fs (sstables_ p)) (Some (mkWalOnDisk (f_data (ww_file (wal_close (ps_wal p)).2)) [] true None))) s.

#[export] Instance PersistentKeyValueStore_durable : DurableStore StateDirectory PersistentKeyValueStore := {|
  ds_create_directories := on_disk_fs (fs_call (fun e => SystemError e "filesystem error: cannot create directories"));
  ds_remove_all := remove_state;
  ds_open := open_state;
  ds_close := close_state;
  ds_checkpoint := ps_checkpoint;
  ds_flush := ps_flush
|}.

(** ** The laws *)

(** No call to come fails. *)
Record state_quiet (s : StateDirectory) : Prop := {
  sq_options : opens_well (sd_options s) [] [];
  sq_openings : sd_openings s = [];
  sq_removals : sd_removals s = [];
  sq_script : fs_script (d_fs (sd_disk s)) = []
}.

Lemma open_state_new o f :
  opens_well o [] [] -> fs_script f = [] -> fs_dir f = ∅ ->
  exists p, open_state (mkStateDirectory o (mkDisk f None) [] []) = (Ok p, mkStateDirectory o (mkDisk f None) [] []) /\ new_and_empty p.
Proof.
  intros Ho Hs Hd. destruct (new_store_empty o f [] [] Ho Hs Hd) as (p & disk & E & Hp). exists p. split; [|done].
  change (open_state _) with
    (match new_store o (mkDisk f None) [] [] with
     | (Ok p, _, _) => (Ok p, mkStateDirectory o (mkDisk f None) [] [])
     | (Throw e, kept, _) => (Throw e, mkStateDirectory o kept [] [])
     end). by rewrite E.
Qed.

#[export] Program Instance PersistentKeyValueStore_durable_laws : DurableStoreLaws StateDirectory PersistentKeyValueStore := {|
  ds_inv := state_quiet;
  ds_room := kMaximumManifestTables
|}.
Next Obligation.
  intros s [Q1 Q2 Q3 Q4]. apply returns_run. simpl. unfold on_disk_fs, fs_call. rewrite Q4. eexists tt, _. split; [done|]. by split.
Qed.
Next Obligation.
  intros [o [f w] l1 l2] [Q1 Q2 Q3 Q4]. simpl in Q1, Q2, Q3, Q4. subst l1 l2. apply returns_run.
  destruct (open_state_new o (fs_change ∅ f) Q1 Q4 eq_refl) as (p & E & [N1 N2 N3 N4 N5]).
  exists p, (mkStateDirectory o (mkDisk (fs_change ∅ f) None) [] []). split.
  - unfold mbind, stm_bind. simpl. unfold on_disk_fs, fs_call. simpl. rewrite Q4. exact E.
  - split; [by split|]. split; [by split|]. split; [done|]. simpl. lia.
Qed.
Next Obligation. intros p s [Q1 Q2 Q3 Q4] [_ [Hq _]]. by split. Qed.
Next Obligation.
  intros p [Hs Hq] Hb. simpl in *. apply returns_run. destruct (ps_checkpoint p) as [r p'] eqn:E. pose proof (spare_capacity (ps_view p)).
  destruct (ps_checkpoint_spec p r p' Hs ltac:(lia) E) as (C1 & C2 & _ & _ & _ & C6). destruct (C6 Hq Hb) as (-> & C7 & C8). by exists tt, p'.
Qed.

(** ** Theorems *)

Section theorems.
Context {D P : Type} `{DurableStoreLaws D P}.
Abbreviation Machine := (DurableKeyValueStateMachine D P).

(** [apply] of the entries in turn. *)
Fixpoint apply_all (entries : list LogEntry) : stm Machine unit :=
  match entries with
  | [] => mret tt
  | e :: rest => _ ← apply e; apply_all rest
  end.

Lemma apply_synced n e m p :
  0 < n -> le_index e <> 0 -> le_term e <> 0 -> valid_command (le_command e) -> synced n m p ->
  returns (apply e) (fun _ m' => exists p', synced (n - 1) m' p' /\ machine_abs m' = apply_command (machine_abs m) (le_command e)) m.
Proof.
  intros Hn Hi Ht Hc Hs. unfold apply. rewrite (proj2 (Z.eqb_neq _ _) Hi), (proj2 (Z.eqb_neq _ _) Ht). apply swp_bind, swp_ret, swp_bind, swp_get.
  rewrite (sy_store _ _ _ Hs). apply swp_bind, swp_ret. by eapply apply_command_synced.
Qed.

Lemma apply_all_synced n es m p :
  zlen es <= n -> Forall (fun e => le_index e <> 0 /\ le_term e <> 0 /\ valid_command (le_command e)) es -> synced n m p ->
  returns (apply_all es) (fun _ m' => exists p', synced (n - zlen es) m' p' /\ machine_abs m' = replay (machine_abs m) es) m.
Proof.
  intros Hn Hes. revert n m p Hn. induction Hes as [|e es (Hi & Ht & Hc) Hes IH]; intros n m p Hn Hs.
  - apply swp_ret. exists p. split; [|done]. by rewrite Z.sub_0_r.
  - rewrite zlen_cons in *. pose proof (zlen_nonneg es). simpl. apply returns_bind.
    eapply returns_mono; [eapply apply_synced; [|done..]; lia|]. intros [] m1 (p1 & Hs1 & E1).
    eapply returns_mono; [eapply IH; [|done]; lia|]. intros [] m2 (p2 & Hs2 & E2). exists p2.
    split; [by replace (n - (1 + zlen es)) with (n - 1 - zlen es) by lia|]. by rewrite E2, E1.
Qed.

Lemma get_synced key (m : Machine) : valid_key key -> get key m = Ok (machine_abs m !! key).
Proof. intros Hk. unfold get, machine_abs, values_map. rewrite (validate_key_ok _ Hk). by rewrite om_find_list_to_map. Qed.

Lemma recover_synced s m0 es m :
  usable m ->
  match s with Some x => snapshot_holds (payload x) m0 /\ zlen (payload x) <= u64_max | None => m0 = ∅ end ->
  Forall (fun e => valid_command (le_command e)) es -> Z.of_nat (base.size m0) + zlen es < ds_room ->
  returns (recover s es) (fun _ m' => exists p', synced (ds_room - Z.of_nat (base.size m0) - zlen es - 1) m' p' /\ machine_abs m' = replay m0 es) m.
Proof.
  intros Hu Hs Hes Hr. unfold recover. pose proof (zlen_nonneg es). apply returns_bind.
  eapply returns_mono; [by apply reset_synced|]. intros [] m1 (p1 & E1 & Hd1 & Hi1 & Ha1 & Hb1). apply returns_bind, swp_modify.
  set (m2 := set_values [] m1). apply returns_bind.
  assert (Hload : returns (match s with Some x => load_snapshot (payload x) | None => mret tt end)
    (fun _ m' => exists p', synced (ds_room - Z.of_nat (base.size m0)) m' p' /\ machine_abs m' = m0) m2).
  { destruct s as [x|]; [|subst m0; apply swp_ret; exists p1; split; [split; try done; [by apply empty_machine|cbn; lia]|done]].
    destruct Hs as [(kvs & N & W & Z & -> & ->) L]. rewrite map_size_list_to_map in * by done.
    eapply load_snapshot_synced; try done. unfold zlen in *. lia. }
  eapply returns_mono; [exact Hload|]. intros [] m3 (p3 & S3 & E3). apply returns_bind.
  eapply returns_mono; [eapply apply_commands_synced; [|done|done]; lia|]. intros [] m4 (p4 & S4 & E4).
  eapply returns_mono; [eapply checkpoint_synced; [|done]; lia|]. intros [] m5 (p5 & S5 & E5). exists p5. split; [exact S5|].
  unfold machine_abs in *. by rewrite E5, E4, E3.
Qed.

(** C13: the state machine is the replay of the log.  Recovered from a
    snapshot and the committed entries after it, on whatever its directory
    held, and then given further entries one by one, it returns each time as
    long as no system call fails and there is room; a client reads the map that
    the commands make of the snapshot, the count of keys is the size of that
    map, and the persistent store holds the same map. *)
Theorem machine_follows_log s m0 es1 es2 (m : Machine) :
  usable m ->
  match s with Some x => snapshot_holds (payload x) m0 /\ zlen (payload x) <= u64_max | None => m0 = ∅ end ->
  Forall (fun e => valid_command (le_command e)) es1 ->
  Forall (fun e => le_index e <> 0 /\ le_term e <> 0 /\ valid_command (le_command e)) es2 ->
  Z.of_nat (base.size m0) + zlen es1 + zlen es2 < ds_room ->
  exists m1 m2 p, recover s es1 m = (Ok tt, m1) /\ apply_all es2 m1 = (Ok tt, m2) /\
    (forall key, valid_key key -> get key m2 = Ok (replay m0 (es1 ++ es2) !! key)) /\
    size m2 = Z.of_nat (base.size (replay m0 (es1 ++ es2))) /\
    dm_store m2 = Some p /\ kv_inv p /\ kv_abs p = replay m0 (es1 ++ es2).
Proof.
  intros Hu Hs H1' H2' Hr. pose proof (zlen_nonneg es2).
  pose proof (recover_synced s m0 es1 m Hu Hs H1' ltac:(lia)) as R1. apply returns_run in R1 as ([] & m1 & E1 & p1 & S1 & A1).
  assert (R2 : returns (apply_all es2) _ m1) by (eapply apply_all_synced; [|exact H2'|exact S1]; lia). apply returns_run in R2 as ([] & m2 & E2 & p2 & S2 & A2).
  assert (Ha : machine_abs m2 = replay m0 (es1 ++ es2)) by (unfold replay in *; by rewrite foldl_app, A2, A1).
  exists m1, m2, p2. rewrite <- Ha. split_and!; try done; try apply S2; [intros key Hk; by apply get_synced|].
  unfold size, machine_abs, values_map, zlen. by rewrite map_size_list_to_map by apply om_wf_NoDup, S2.
Qed.

(** C14: snapshots carry the state over.  The snapshot a machine creates,
    installed in any other machine, makes the two maps the same, in memory and
    in the store, whatever the other machine held; its own snapshot is then
    the same bytes. *)
Theorem snapshot_transfers (m m' : Machine) :
  machine_inv m -> usable m' -> zlen (dm_values m) < ds_room -> zlen (print_map (dm_values m)) <= u64_max ->
  exists bytes m2 p, create_snapshot m = (Ok bytes, m) /\ install_snapshot bytes m' = (Ok tt, m2) /\
    dm_values m2 = dm_values m /\ create_snapshot m2 = (Ok bytes, m2) /\
    dm_store m2 = Some p /\ kv_inv p /\ kv_abs p = machine_abs m.
Proof.
  intros [Hw Hv] Hu Hr Hl. set (kvs := dm_values m) in *. pose proof (zlen_nonneg kvs). pose proof (print_pairs_zlen kvs).
  assert (Hz : zlen kvs <= u64_max).
  { unfold print_map in Hl. rewrite !zlen_app, !le_bytes_zlen in Hl. lia. }
  assert (Hc : forall x : Machine, dm_values x = kvs -> create_snapshot x = (Ok (print_map kvs), x)).
  { intros x E. unfold create_snapshot, mbind, stm_bind, sget, slift. rewrite E. by rewrite (proj2 (encode_map_iff kvs _ Hv) eq_refl). }
  assert (R : returns (install_snapshot (print_map kvs)) (fun _ m2 => dm_values m2 = kvs /\
     exists p, dm_store m2 = Some p /\ kv_inv p /\ kv_abs p = machine_abs m) m').
  { unfold install_snapshot. apply returns_bind. eapply returns_mono; [by apply reset_synced|].
    intros [] m1 (p1 & E1 & Hd1 & Hi1 & Ha1 & Hb1). apply returns_bind, swp_modify, returns_bind. eapply returns_mono.
    { eapply (load_snapshot_synced ds_room kvs); try done; [by apply om_wf_NoDup|lia]. }
    intros [] m3 (p3 & S3 & E3). eapply returns_mono; [eapply checkpoint_synced; [|done]; lia|]. intros [] m4 (p4 & S4 & E4).
    assert (Ev : dm_values m4 = kvs).
    { apply om_ext; [apply S4|done|]. intros k. rewrite <- !om_find_list_to_map.
      change (values_map (dm_values m4) !! k = values_map kvs !! k). rewrite E4. change (machine_abs m3 !! k = values_map kvs !! k). by rewrite E3. }
    split; [done|]. exists p4. split_and!; [apply S4|apply S4|]. rewrite (sy_abs _ _ _ S4). unfold machine_abs. by rewrite Ev. }
  apply returns_run in R as ([] & m2 & E & Ev & p & Hp). exists (print_map kvs), m2, p. split_and!; try done; try apply Hp; by apply Hc.
Qed.
End theorems.

(** ** A machine of concrete bytes *)

Definition demo_machine_options : DurableStateMachineOptions := mkMachineOptions (bytes_of "n1") Sync 4096 4096.

Definition demo_machine : DurableKeyValueStateMachine StateDirectory PersistentKeyValueStore :=
  mkMachine (mkStateDirectory (store_options (so_ceil_bits demo_options) (so_rounded demo_options) demo_machine_options)
               (mkDisk (mkFs ∅ [] [] []) None) [] []) [] None.

Lemma demo_machine_usable : usable demo_machine.
Proof.
  split; [|done]. split; [|done|done|done]. split; simpl; try (done || (unfold u64_max; lia)).
  destruct demo_options_ok as [O1 O2 O3 O4 O5 O6]. split; simpl; try done; unfold u32_max; try lia.
Qed.

Definition demo_command (t : CommandType) (key value : string) : Command := mkCommand t (bytes_of key) (bytes_of value).

(** A node restarts with one committed command and applies two more. *)
Lemma machine_follows_log_witness :
  let es1 := [mkLogEntry 1 1 (demo_command Put "a" "1")] in
  let es2 := [mkLogEntry 2 1 noop; mkLogEntry 3 1 (demo_command Put "b" "2"); mkLogEntry 4 2 (demo_command Delete "a" "")] in
  exists m1 m2, recover None es1 demo_machine = (Ok tt, m1) /\ apply_all es2 m1 = (Ok tt, m2) /\
    get (bytes_of "a") m2 = Ok None /\ get (bytes_of "b") m2 = Ok (Some (bytes_of "2")) /\ size m2 = 1.
Proof.
  intros es1 es2.
  assert (Ka : valid_key (bytes_of "a")) by by vm_compute. assert (Kb : valid_key (bytes_of "b")) by by vm_compute.
  assert (Ra : replay ∅ (es1 ++ es2) !! bytes_of "a" = None) by by vm_compute.
  assert (Rb : replay ∅ (es1 ++ es2) !! bytes_of "b" = Some (bytes_of "2")) by by vm_compute.
  assert (Rz : Z.of_nat (base.size (replay ∅ (es1 ++ es2))) = 1) by by vm_compute.
  destruct (machine_follows_log None ∅ es1 es2 demo_machine) as (m1 & m2 & p & E1 & E2 & G & Z & _).
  - exact demo_machine_usable.
  - reflexivity.
  - repeat constructor; by vm_compute.
  - repeat constructor; try done; by vm_compute.
  - by vm_compute.
  - exists m1, m2. pose proof (G _ Ka) as Ga. pose proof (G _ Kb) as Gb. rewrite Ra in Ga. rewrite Rb in Gb. rewrite Rz in Z.
    exact (conj E1 (conj E2 (conj Ga (conj Gb Z)))).
Defined.

(** The map of one machine is carried over to a new one. *)
Lemma snapshot_transfers_witness :
  let m := set_values [(bytes_of "a", bytes_of "1"); (bytes_of "b", [])] demo_machine in
  exists bytes m2, create_snapshot m = (Ok bytes, m) /\ install_snapshot bytes demo_machine = (Ok tt, m2) /\
    get (bytes_of "a") m2 = Ok (Some (bytes_of "1")) /\ dm_values m2 = dm_values m.
Proof.
  intros m.
  assert (Gm : get (bytes_of "a") m = Ok (Some (bytes_of "1"))) by by vm_compute.
  destruct (snapshot_transfers m demo_machine) as (bytes & m2 & p & E1 & E2 & V & _).
  - split; [repeat constructor; by vm_compute|]. repeat constructor; by vm_compute.
  - exact demo_machine_usable.
  - by vm_compute.
  - by vm_compute.
  - assert (G2 : get (bytes_of "a") m2 = get (bytes_of "a") m) by (unfold get; rewrite V; reflexivity). rewrite Gm in G2.
    exists bytes, m2. exact (conj E1 (conj E2 (conj G2 V))).
Defined.

(** *** Attempts *)

Section attempts.
Context {M : Type} `{StateMachineLaws M}.

(** The entries are applied in turn, whether or not the one before was; the
    answers, and the machine after them. *)
Fixpoint attempts (es : list LogEntry) (m : M) : list bool * M :=
  match es with
  | [] => ([], m)
  | e :: rest => let '(r, m1) := fsm_apply e m in let '(rs, m2) := attempts rest m1 in (is_Ok r :: rs, m2)
  end.

(** The entries whose attempt returned. *)
Fixpoint returned (es : list LogEntry) (rs : list bool) : list LogEntry :=
  match es, rs with
  | e :: es, r :: rs => (if (r : bool) then [e] else []) ++ returned es rs
  | _, _ => []
  end.

End attempts.

(** The first write to the log fails, as on a full disk; the entry is applied
    again. *)
Definition demo_full_machine : DurableKeyValueStateMachine StateDirectory PersistentKeyValueStore :=
  mkMachine (mkStateDirectory (sd_options (dm_directory demo_machine)) (mkDisk (mkFs ∅ [] [] []) None)
               [mkOpening [] [Failed 28] [] true None] []) [] None.

