(* ===== verification/RaftElection.v ===== *)
(** * Terms and votes of a node

    What every critical section of src/raft/node.cpp does to the term, the vote
    and the role of a node, and to the term and the vote that a crash can leave
    on its disk: the pair of term and vote only moves forward, in memory and on
    disk, whatever the requests say and whatever the system calls return. *)

From S2P Require Import Prelude Store RaftTypes RaftStorage RaftNode.

(** ** Ballots *)

(** [(t', v')] comes after [(t, v)]: a vote once given in a term is kept. *)
Definition ballot_le (b b' : Z * NodeId) : Prop := b.1 < b'.1 \/ (b.1 = b'.1 /\ (b.2 = [] \/ b.2 = b'.2)).

#[export] Instance ballot_le_preorder : PreOrder ballot_le.
Proof.
  split; [intros b; right; tauto|]. intros [t1 v1] [t2 v2] [t3 v3]. unfold ballot_le. simpl.
  intros [H1|[-> H1]] [H2|[-> H2]]; [left; lia..|]. right. split; [done|]. destruct H1 as [->|H1]; [by left|]. by subst.
Qed.

(** A vote for [a] in term [t] is covered by the pair [b]. *)
Definition covers (b : Z * NodeId) (t : Z) (a : NodeId) : Prop := t < b.1 \/ (t = b.1 /\ b.2 = a).

Lemma covers_le b b' t a : a <> [] -> covers b t a -> ballot_le b b' -> covers b' t a.
Proof.
  destruct b as [t1 v1], b' as [t2 v2]. unfold covers, ballot_le. simpl.
  intros Ha [H1|[-> ->]] [H2|[-> H2]]; [left; lia..|]. right. by destruct H2 as [->|<-].
Qed.

Section ballots.
Context {S M : Type} `{BallotLaws S} `{StateMachine M}.
Abbreviation Node := (RaftNode S M).

Definition ballot (n : Node) : Z * NodeId := (term_ n, voted_for (hard_state_ n)).

Record ballot_ok (n : Node) : Prop := {
  bo_term : is_u64 (term_ n);
  bo_storage : bs_inv (storage_ n)
}.

(** What a section does. *)
Record ballot_step (n n' : Node) : Prop := {
  bst_ok : ballot_ok n';
  bst_le : ballot_le (ballot n) (ballot n');
  bst_disk : forall t v, bs_ballot (storage_ n') t v -> bs_ballot (storage_ n) t v \/ ballot_le (ballot n) (t, v);
  bst_leader : role_ n' = Leader -> role_ n = Leader /\ term_ n' = term_ n;
  bst_options : no_node_id (options_ n') = no_node_id (options_ n) /\ no_peers (options_ n') = no_peers (options_ n)
}.

Lemma ballot_step_refl n : ballot_ok n -> ballot_step n n.
Proof. intros Hn. split; [done|done|auto..]. Qed.

Lemma ballot_step_trans n1 n2 n3 : ballot_step n1 n2 -> ballot_step n2 n3 -> ballot_step n1 n3.
Proof.
  intros [A1 A2 A3 A4 [A5 A6]] [B1 B2 B3 B4 [B5 B6]]. split; [done|by etrans| | |by rewrite B5, B6].
  - intros t v Hb. destruct (B3 t v Hb) as [Hb'|Hb']; [auto|right; by etrans].
  - intros [Hr Ht]%B4. rewrite Ht. auto.
Qed.

(** A computation all of whose runs are such steps. *)
Definition ballots {A} (c : stm Node A) : Prop := forall n r n', ballot_ok n -> c n = (r, n') -> ballot_step n n'.

Lemma ballots_bind {A B} (c : stm Node A) (k : A -> stm Node B) : ballots c -> (forall a, ballots (k a)) -> ballots (c ≫= k).
Proof.
  intros Hc Hk n r n' Hn E. unfold mbind, stm_bind in E. destruct (c n) as [[a|e] n1] eqn:E1.
  - pose proof (Hc _ _ _ Hn E1) as S1. eapply ballot_step_trans; [done|]. by eapply Hk; [apply S1|].
  - simplify_eq. by eapply Hc.
Qed.

(** The state read is the state the rest runs in. *)
Lemma ballots_get {B} (k : Node -> stm Node B) :
  (forall n r n', ballot_ok n -> k n n = (r, n') -> ballot_step n n') -> ballots (n ← sget; k n).
Proof. intros Hk n r n' Hn E. by eapply Hk. Qed.

Lemma ballots_ret {A} (a : A) : ballots (mret a).
Proof. intros n r n' Hn [= <- <-]. by apply ballot_step_refl. Qed.
Lemma ballots_lift {A} (x : result A) : ballots (slift x).
Proof. intros n r n' Hn [= <- <-]. by apply ballot_step_refl. Qed.
Lemma ballots_throw {A} e : ballots (@sthrow Node A e).
Proof. intros n r n' Hn [= <- <-]. by apply ballot_step_refl. Qed.

(** An assignment that leaves the term, the vote, the role and the storage. *)
Lemma ballots_modify (f : Node -> Node) :
  (forall n, ballot (f n) = ballot n /\ storage_ (f n) = storage_ n /\ role_ (f n) = role_ n /\
     no_node_id (options_ (f n)) = no_node_id (options_ n) /\ no_peers (options_ (f n)) = no_peers (options_ n)) ->
  ballots (smodify f).
Proof.
  intros Hf n r n' [Hn1 Hn2] [= <- <-]. destruct (Hf n) as (F1 & F2 & F3 & F4). assert (term_ (f n) = term_ n) as F5 by by injection F1.
  split; [split; [by rewrite F5|by rewrite F2]|by rewrite F1|rewrite F2; auto|rewrite F3, F5; auto|done].
Qed.

Lemma ballots_count which : ballots (count which).
Proof. by apply ballots_modify. Qed.

Lemma ballots_hard (f : HardState -> HardState) :
  (forall h, current_term (f h) = current_term h /\ voted_for (f h) = voted_for h) -> ballots (on_hard f).
Proof.
  intros Hf. apply ballots_modify. intros n. destruct (Hf (hard_state_ n)) as [F1 F2].
  unfold ballot, term_. simpl. by rewrite F1, F2.
Qed.

Lemma ballots_machine {A} (c : stm M A) : ballots (on_machine c).
Proof.
  intros n r n' [Hn1 Hn2] E. unfold on_machine in E. destruct (c (state_machine_ n)) as [r0 m]. simplify_eq.
  by split; [split|..|]; auto.
Qed.

Lemma ballots_storage {A} (c : stm S A) :
  (forall s r s', bs_inv s -> c s = (r, s') -> bs_inv s' /\ forall t v, bs_ballot s' t v -> bs_ballot s t v) -> ballots (on_storage c).
Proof.
  intros Hc n r n' [Hn1 Hn2] E. unfold on_storage in E. destruct (c (storage_ n)) as [r0 s'] eqn:E1. simplify_eq.
  destruct (Hc _ _ _ Hn2 E1) as [Hi Hb]. split; [by split|done|auto|auto|done].
Qed.

Lemma ballots_snapshot x : ballots (on_storage (st_save_snapshot x)).
Proof. apply ballots_storage. intros s r s' Hi E. by eapply bs_snapshot_law. Qed.

Lemma ballots_persist_log : ballots persist_log_locked.
Proof.
  apply ballots_get. intros n r n' Hn E. revert E. eapply ballots_storage; [|done]. intros s r0 s' Hi E0. by eapply bs_log_law.
Qed.

(** Saving the hard state: the disk may then hold what memory holds, and holds
    nothing else when the save returned. *)
Lemma persist_hard n r n' :
  ballot_ok n -> persist_hard_state_locked n = (r, n') ->
  ballot_step n n' /\ ballot n' = ballot n /\ role_ n' = role_ n /\ log_ n' = log_ n /\ snapshot_ n' = snapshot_ n /\
  (is_Ok r = true -> forall t v, bs_ballot (storage_ n') t v -> (t, v) = ballot n).
Proof.
  intros [Hn1 Hn2] E. unfold persist_hard_state_locked, mbind, stm_bind, sget, on_storage in E.
  destruct (st_save_hard_state (hard_state_ n) (storage_ n)) as [r0 s'] eqn:E1. simplify_eq.
  destruct (bs_hard_law _ _ _ _ Hn2 Hn1 E1) as [Hi Hb]. split_and!; [|done..|].
  - split; [by split|done| |auto|done]. intros t v Htv. destruct (Hb t v Htv) as [[-> ->]|[_ ?]]; [right|by left]. by right; simpl; auto.
  - intros Hok t v Htv. destruct (Hb t v Htv) as [[-> ->]|[Hf _]]; [done|congruence].
Qed.

Lemma ballots_persist_hard : ballots persist_hard_state_locked.
Proof. intros n r n' Hn E. by apply (persist_hard n r n'). Qed.

(** Becoming a follower. *)
Lemma become_follower term leader n r n' :
  ballot_ok n -> is_u64 term -> become_follower_locked term leader n = (r, n') ->
  ballot_step n n' /\ log_ n' = log_ n /\ snapshot_ n' = snapshot_ n /\
  ballot n' = (if term_ n <? term then (term, []) else ballot n).
Proof.
  intros Hn Ht E. unfold become_follower_locked in E. unfold mbind at 1, stm_bind at 1, sget in E. cbv beta iota in E.
  destruct (term <? term_ n) eqn:E1; zbool.
  { unfold mret, stm_ret in E. simplify_eq. rewrite (proj2 (Z.ltb_ge _ _)) by lia. split_and!; [by apply ballot_step_refl|done..]. }
  set (n0 := if term_ n <? term then set_hard (set_vote [] (set_term term (hard_state_ n))) n else n).
  set (n1 := set_match ∅ (set_next ∅ (set_leader leader (set_role Follower n0)))).
  assert (E2 : persist_hard_state_locked n1 = (r, n')) by (unfold n1, n0; by destruct (term_ n <? term)).
  assert (Hb : ballot n1 = if term_ n <? term then (term, []) else ballot n) by (unfold n1, n0; by destruct (term_ n <? term)).
  assert (Hs : storage_ n1 = storage_ n /\ options_ n1 = options_ n /\ log_ n1 = log_ n /\ snapshot_ n1 = snapshot_ n)
    by (unfold n1, n0; by destruct (term_ n <? term)). destruct Hs as (Hs1 & Hs2 & Hs3 & Hs4).
  assert (Hn1 : ballot_ok n1).
  { destruct Hn as [A B]. split; [|by rewrite Hs1]. change (term_ n1) with (ballot n1).1. rewrite Hb. by destruct (term_ n <? term). }
  destruct (persist_hard n1 r n' Hn1 E2) as (P1 & P2 & P3 & P4 & P5 & _).
  split_and!; [|by rewrite P4|by rewrite P5|by rewrite P2].
  eapply ballot_step_trans; [|exact P1]. split; [done| | |done|by rewrite Hs2].
  - rewrite Hb. destruct (term_ n <? term) eqn:E3; zbool; [by left|done].
  - rewrite Hs1. auto.
Qed.

Lemma ballots_become_follower term leader : is_u64 term -> ballots (become_follower_locked term leader).
Proof. intros Ht n r n' Hn E. by apply (become_follower term leader n r n'). Qed.

(** *** The log, committing, snapshots *)

Lemma ballots_sget : ballots sget.
Proof. intros n r n' Hn [= <- <-]. by apply ballot_step_refl. Qed.

(** Follows the code, with [known] for the calls that have a lemma. *)
Ltac ballots_with known :=
  repeat first
    [ known | apply ballots_ret | apply ballots_sget | apply ballots_lift | apply ballots_throw | apply ballots_count | apply ballots_machine
    | apply ballots_snapshot | apply ballots_persist_log | apply ballots_persist_hard
    | by apply ballots_hard | by apply ballots_modify
    | apply ballots_bind; [|intros ?]
    | break_match ].
Ltac ballots_tac := ballots_with fail.

Lemma ballots_truncate index : ballots (truncate_log_from_locked index).
Proof. apply ballots_modify. intros n. by repeat break_if. Qed.

Lemma ballots_append entries : ballots (append_entries_locked entries).
Proof.
  induction entries as [|e es IH]; simpl; [apply ballots_ret|]. apply ballots_get. intros n r n' Hn E.
  unfold mbind, stm_bind, slift in E. destruct (throw_if _ _); [|simplify_eq; by apply ballot_step_refl].
  eapply ballot_step_trans; [|by eapply IH; [|exact E]; destruct Hn]. destruct Hn. by split; [split|..|]; auto.
Qed.

Lemma ballots_maybe_snapshot : ballots maybe_create_snapshot_locked.
Proof. unfold maybe_create_snapshot_locked. ballots_tac. Qed.

Lemma ballots_apply_loop turns : ballots (apply_loop turns).
Proof.
  induction turns as [|turns IH]; [apply ballots_ret|]. cbn [apply_loop]. ballots_with ltac:(exact IH).
Qed.

Lemma ballots_apply_committed : ballots apply_committed_locked.
Proof. unfold apply_committed_locked. ballots_with ltac:(first [apply ballots_apply_loop|apply ballots_maybe_snapshot]). Qed.

Lemma ballots_commit_to c : ballots (commit_to c).
Proof. unfold commit_to. ballots_with ltac:(apply ballots_apply_committed). Qed.

Lemma ballots_trigger_snapshot : ballots trigger_snapshot.
Proof. unfold trigger_snapshot. ballots_with ltac:(apply ballots_maybe_snapshot). Qed.

Lemma ballots_merge entries previous position : ballots (merge_entries previous position entries).
Proof.
  revert position. induction entries as [|e es IH]; intros position; [apply ballots_ret|]. cbn [merge_entries].
  ballots_with ltac:(first [apply IH|apply ballots_truncate|apply ballots_append]).
Qed.

(** *** The handlers and the sections of replication *)

Lemma ballots_append_entries request : is_u64 (ae_term request) -> ballots (handle_append_entries request).
Proof.
  intros Ht. unfold handle_append_entries.
  ballots_with ltac:(first [by apply ballots_become_follower|apply ballots_merge|apply ballots_commit_to]).
Qed.

Lemma ballots_install_snapshot request : is_u64 (is_term request) -> ballots (handle_install_snapshot request).
Proof. intros Ht. unfold handle_install_snapshot. ballots_with ltac:(by apply ballots_become_follower). Qed.

Lemma ballots_prepare peer heartbeat_only : ballots (prepare_replication peer heartbeat_only).
Proof. unfold prepare_replication, prepare_entries. ballots_tac. Qed.

Lemma ballots_snapshot_response peer t response :
  (forall x, response = Some x -> is_u64 (ir_term x)) -> ballots (on_snapshot_response peer t response).
Proof. intros Ht. unfold on_snapshot_response. ballots_with ltac:(by apply ballots_become_follower, Ht). Qed.

Lemma ballots_append_response peer t response :
  (forall x, response = Some x -> is_u64 (ar_term x)) -> ballots (on_append_response peer t response).
Proof. intros Ht. unfold on_append_response. ballots_with ltac:(by apply ballots_become_follower, Ht). Qed.

Lemma ballots_finish_replication t : ballots (finish_replication t).
Proof. unfold finish_replication, advance_commit_locked. ballots_with ltac:(apply ballots_apply_committed). Qed.

Lemma ballots_local_entry command : ballots (append_local_entry_locked command).
Proof.
  unfold append_local_entry_locked. apply ballots_get. intros n r n' Hn E. unfold mbind, stm_bind, slift, sput, mret, stm_ret in E.
  destruct (throw_if _ _); simplify_eq; [|by apply ballot_step_refl]. destruct Hn. split; [by split|done|by left|done|done].
Qed.

Lemma ballots_submit command : ballots (submit_append command).
Proof. unfold submit_append. ballots_with ltac:(first [apply ballots_local_entry|apply ballots_commit_to]). Qed.

(** *** Votes *)

(** A vote granted is in memory and on disk, and agrees with every vote given
    before. *)
Lemma request_vote request n r n' :
  ballot_ok n -> is_u64 (rv_term request) -> handle_request_vote request n = (r, n') ->
  ballot_step n n' /\
  forall response, r = Ok response -> is_u64 (vr_term response) /\
    (vr_vote_granted response = true ->
       ballot n' = (rv_term request, rv_candidate_id request) /\
       (forall t v, bs_ballot (storage_ n') t v -> (t, v) = (rv_term request, rv_candidate_id request)) /\
       forall a, a <> [] -> covers (ballot n) (rv_term request) a -> a = rv_candidate_id request).
Proof.
  intros Hn Ht E. unfold handle_request_vote in E. unfold mbind at 1, stm_bind at 1 in E.
  destruct (count VoteRequestsReceived n) as [r0 n0] eqn:E0. assert (r0 = Ok tt) as -> by (by injection E0).
  assert (Hb0 : ballot n0 = ballot n) by (by injection E0 as <-). pose proof (ballots_count _ _ _ _ Hn E0) as S0. clear E0.
  assert (Hterm : term_ n0 = (ballot n).1) by by rewrite <- Hb0. pose proof (bst_ok _ _ S0) as Hn0.
  unfold mbind at 1, stm_bind at 1, sget in E. cbv beta iota in E.
  destruct (rv_term request <? term_ n0) eqn:E1; zbool.
  { injection E as <- <-. split; [done|]. intros resp [= <-]. split; [apply Hn0|done]. }
  unfold mbind at 1, stm_bind at 1 in E.
  destruct ((if term_ n0 <? rv_term request then become_follower_locked (rv_term request) [] else mret tt) n0) as [r1 n1] eqn:E2.
  assert (HH : ballot_step n0 n1 /\ ballot n1 = if term_ n0 <? rv_term request then (rv_term request, []) else ballot n0).
  { destruct (term_ n0 <? rv_term request) eqn:E3.
    - destruct (become_follower _ _ _ _ _ Hn0 Ht E2) as (B1 & _ & _ & B4). by rewrite E3 in B4.
    - injection E2 as <- <-. split; [by apply ballot_step_refl|done]. }
  destruct HH as [S1 Hb1]. pose proof (ballot_step_trans _ _ _ S0 S1) as S01. pose proof (bst_ok _ _ S1) as Hn1.
  destruct r1 as [[]|e]; [|injection E as <- <-; split; [done|by intros ? [=]]].
  assert (Ht1 : term_ n1 = rv_term request).
  { change (term_ n1) with (ballot n1).1. rewrite Hb1. destruct (term_ n0 <? rv_term request) eqn:E3; zbool; [done|].
    change (ballot n0).1 with (term_ n0). lia. }
  unfold mbind at 1, stm_bind at 1, sget in E. cbv beta iota in E.
  match type of E with context [if ?g then _ else mret ()] => set (grant := g) in E end.
  destruct grant eqn:Eg.
  - unfold mbind at 1, stm_bind at 1 in E.
    set (n2 := set_hard (set_vote (rv_candidate_id request) (hard_state_ n1)) n1).
    destruct (persist_hard_state_locked n2) as [r3 n3] eqn:E3. change (on_hard (set_vote (rv_candidate_id request)) n1) with (@Ok unit tt, n2) in E.
    unfold mbind at 1, stm_bind at 1 in E.
    change (on_hard (set_vote (rv_candidate_id request)) n1) with (@Ok unit tt, n2) in E. cbv beta iota in E. rewrite E3 in E.
    assert (Hcan : voted_for (hard_state_ n1) = [] \/ voted_for (hard_state_ n1) = rv_candidate_id request).
    { unfold grant in Eg. apply andb_true_iff in Eg as [Eg _]. apply orb_true_iff in Eg as [Eg|Eg].
      - left. by destruct (voted_for (hard_state_ n1)).
      - right. by apply str_eqb_eq. }
    assert (S2 : ballot_step n1 n2).
    { destruct Hn1. split; [by split| |auto|auto|done]. right. split; [done|]. simpl. tauto. }
    destruct (persist_hard n2 r3 n3 (bst_ok _ _ S2) E3) as (P1 & P2 & _ & _ & _ & P6).
    assert (Hb2 : ballot n2 = (rv_term request, rv_candidate_id request)) by (unfold ballot, n2; simpl; by rewrite <- Ht1).
    pose proof (ballot_step_trans _ _ _ S01 (ballot_step_trans _ _ _ S2 P1)) as S3.
    destruct r3 as [[]|e]; [|injection E as <- <-; split; [done|by intros ? [=]]].
    unfold mbind, stm_bind, sget in E. injection E as <- <-. split; [done|]. intros resp [= <-]. simpl.
    split; [apply S3|]. intros _. split_and!; [by rewrite P2|intros t v Hv; by rewrite <- Hb2; apply P6|].
    intros a Ha Hcov. rewrite <- Hb0 in Hcov. destruct Hcov as [Hlt|[Heq Hv]]; [simpl in Hlt; lia|].
    simpl in Heq, Hv. assert (E4 : (term_ n0 <? rv_term request) = false) by (apply Z.ltb_ge; lia).
    rewrite E4 in Hb1. injection Hb1 as _ Hv1. rewrite Hv1, Hv in Hcan. by destruct Hcan.
  - unfold mbind, stm_bind, mret, stm_ret, sget in E. injection E as <- <-. split; [done|]. intros resp [= <-]. split; [apply S1|done].
Qed.

(** *** Elections *)

Lemma start_election_ballot n r n' :
  ballot_ok n -> term_ n < u64_max -> start_election n = (r, n') ->
  ballot_step n n' /\
  forall request, r = Ok (Some request) ->
    rv_term request = term_ n + 1 /\ rv_candidate_id request = no_node_id (options_ n) /\
    ballot n' = (term_ n + 1, no_node_id (options_ n)) /\
    forall t v, bs_ballot (storage_ n') t v -> (t, v) = (term_ n + 1, no_node_id (options_ n)).
Proof.
  intros Hn Hmax E. pose proof (bo_term _ Hn) as Ht. unfold is_u64 in Ht. unfold start_election in E.
  unfold mbind at 1, stm_bind at 1, sget in E. cbv beta iota in E. case_bool_decide.
  { injection E as <- <-. split; [by apply ballot_step_refl|by intros ? [=]]. }
  set (id := no_node_id (options_ n)).
  set (n1 := set_metrics (bump_metric ElectionsStarted (metrics_ n))
               (set_hard (set_vote id (set_term (u64 (term_ n + 1)) (hard_state_ n))) (set_leader [] (set_role Candidate n)))).
  assert (Hb1 : ballot n1 = (term_ n + 1, id)) by (unfold ballot, n1, term_; simpl; by rewrite u64_small by (unfold term_ in *; lia)).
  assert (S1 : ballot_step n n1).
  { split; [split; [|apply Hn]| |auto|done|done].
    - change (term_ n1) with (ballot n1).1. rewrite Hb1. unfold is_u64. simpl. lia.
    - rewrite Hb1. left. simpl. lia. }
  destruct (persist_hard_state_locked n1) as [r2 n2] eqn:E2.
  destruct (persist_hard n1 r2 n2 (bst_ok _ _ S1) E2) as (P1 & P2 & _ & P4 & P5 & P6).
  assert (E' : match r2 with
               | Ok _ => (Ok (Some (mkVoteRequest (term_ n2) (no_node_id (options_ n2)) (last_log_index_locked n2) (last_log_term_locked n2))), n2)
               | Throw e => (Throw e, n2)
               end = (r, n')).
  { rewrite <- E. unfold mbind, stm_bind, on_hard, count, smodify, sget. cbv beta iota. fold id.
    match goal with |- context [persist_hard_state_locked ?x] => change x with n1 end. rewrite E2. by destruct r2. }
  destruct r2 as [[]|e]; injection E' as <- <-; (split; [by eapply ballot_step_trans|]); [|by intros ? [=]].
  intros request [= <-]. simpl. assert (Ht2 : term_ n2 = term_ n + 1) by (change (term_ n2) with (ballot n2).1; by rewrite P2, Hb1).
  split_and!; [done|by destruct (bst_options _ _ (ballot_step_trans _ _ _ S1 P1))|by rewrite P2|].
  intros t v Hv. rewrite <- Hb1. by apply P6.
Qed.

Lemma ballots_vote_response t votes response : is_u64 (vr_term response) -> ballots (on_vote_response t votes response).
Proof. intros Ht. unfold on_vote_response. ballots_with ltac:(by apply ballots_become_follower). Qed.

(** A node that becomes the leader was a candidate of the term with a quorum. *)
Lemma finish_election_ballot t votes n r n' :
  ballot_ok n -> finish_election t votes n = (r, n') ->
  n' = n \/
  (role_ n = Candidate /\ term_ n = t /\ quorum_size n <= votes /\
   exists n1, become_leader_locked n = (Ok tt, n1) /\ ballot_step n1 n' /\ ballot n1 = ballot n /\ storage_ n1 = storage_ n /\ options_ n1 = options_ n /\ role_ n1 = Leader).
Proof.
  intros Hn E. unfold finish_election in E. unfold mbind at 1, stm_bind at 1, sget in E. cbv beta iota in E.
  destruct (bool_decide (role_ n = Candidate) && (term_ n =? t) && (quorum_size n <=? votes)) eqn:Ec.
  - right. apply andb_true_iff in Ec as [[Ec1 Ec2]%andb_true_iff Ec3]. apply bool_decide_eq_true in Ec1. zbool. split_and!; [done..|].
    unfold mbind at 1, stm_bind at 1 in E. destruct (become_leader_locked n) as [r1 n1] eqn:E1.
    assert (HB : r1 = Ok tt /\ ballot n1 = ballot n /\ storage_ n1 = storage_ n /\ options_ n1 = options_ n /\ role_ n1 = Leader)
      by (by injection E1 as <- <-). destruct HB as (-> & B1 & B2 & B3 & B4).
    exists n1. split; [done|]. split; [|done]. assert (Hn1 : ballot_ok n1).
    { destruct Hn as [A1 A2]. split; [|by rewrite B2]. change (term_ n1) with (ballot n1).1. by rewrite B1. }
    revert E. refine (_ n1 r n' Hn1). ballots_with ltac:(first [apply ballots_local_entry|apply ballots_commit_to]).
  - injection E as <- <-. by left.
Qed.

(** *** Construction *)

Lemma persist_hard_disk n r n' :
  ballot_ok n -> persist_hard_state_locked n = (r, n') ->
  forall t v, bs_ballot (storage_ n') t v -> bs_ballot (storage_ n) t v \/ (t, v) = ballot n.
Proof.
  intros [Hn1 Hn2] E. unfold persist_hard_state_locked, mbind, stm_bind, sget, on_storage in E.
  destruct (st_save_hard_state (hard_state_ n) (storage_ n)) as [r0 s'] eqn:E1. simplify_eq.
  destruct (bs_hard_law _ _ _ _ Hn2 Hn1 E1) as [_ Hb]. intros t v Hv. destruct (Hb t v Hv) as [[-> ->]|[_ ?]]; auto.
Qed.

Lemma new_node_ballot o s m r s' m' :
  bs_inv s -> new_node (S := S) (M := M) o s m = (r, s', m') ->
  bs_inv s' /\ (forall t v, bs_ballot s' t v -> bs_ballot s t v) /\
  forall n, r = Ok n -> storage_ n = s' /\ ballot_ok n /\ bs_ballot s (ballot n).1 (ballot n).2 /\ role_ n = Follower /\ options_ n = o.
Proof.
  intros Hs E. unfold new_node in E. cbv zeta in E.
  match type of E with match ?b with _ => _ end = _ => destruct b as [node|e] eqn:Eb; [|injection E as <- <- <-; by split_and!] end.
  assert (HB : exists p, st_load s = Ok p /\ ballot node = (current_term (pst_hard_state p), voted_for (pst_hard_state p)) /\
    storage_ node = s /\ role_ node = Follower /\ options_ node = o).
  { inv_ok. exists x0. by split_and!. }
  destruct HB as (p & Hp & Hb & Hst & Hr & Ho). destruct (bs_load_law _ _ Hs Hp) as [Hload Hu].
  assert (Hn : ballot_ok node) by (split; [change (term_ node) with (ballot node).1; by rewrite Hb|by rewrite Hst]).
  set (start := _ ≫= _) in E.
  assert (HS : forall r0 n0, start node = (r0, n0) -> ballot_step node n0 /\ ballot n0 = ballot node /\ role_ n0 = Follower /\ options_ n0 = o /\
    forall t v, bs_ballot (storage_ n0) t v -> bs_ballot (storage_ node) t v \/ (t, v) = ballot node).
  { intros r0 n0 E0. unfold start in E0. unfold mbind at 1, stm_bind at 1 in E0.
    destruct (on_machine _ node) as [r1 n1] eqn:E1. pose proof (ballots_machine _ _ _ _ Hn E1) as S1.
    assert (B1 : ballot n1 = ballot node /\ role_ n1 = role_ node /\ options_ n1 = options_ node /\ storage_ n1 = storage_ node).
    { unfold on_machine in E1. destruct (fsm_recover _ _ _). by simplify_eq. } destruct B1 as (B1 & B2 & B3 & B4).
    destruct r1 as [u|e]; [|injection E0 as <- <-; split_and!; [done..|congruence|congruence|rewrite B4; auto]].
    unfold mbind, stm_bind, on_hard, smodify in E0. set (n2 := set_hard _ n1) in E0.
    assert (S2 : ballot_step n1 n2) by (pose proof (bst_ok _ _ S1) as []; split; [by split|done|auto|auto|done]).
    destruct (persist_hard n2 r0 n0 (bst_ok _ _ S2) E0) as (P1 & P2 & P3 & _).
    split_and!; [eapply ballot_step_trans; [done|by eapply ballot_step_trans]|by rewrite P2, <- B1|by rewrite P3; simpl; rewrite B2|..].
    - unfold persist_hard_state_locked, mbind, stm_bind, sget, on_storage in E0. destruct (st_save_hard_state _ _).
      injection E0 as _ <-. simpl. congruence.
    - intros t v Hv. rewrite <- B4, <- B1. change (storage_ n1) with (storage_ n2). change (ballot n1) with (ballot n2).
      by apply (persist_hard_disk n2 r0 n0 (bst_ok _ _ S2) E0). }
  destruct (start node) as [r0 n0] eqn:E0. destruct (HS _ _ eq_refl) as (S0 & B0 & R0 & O0 & HD0).
  assert (HD : forall t v, bs_ballot (storage_ n0) t v -> bs_ballot s t v).
  { intros t v Hv. destruct (HD0 t v Hv) as [H'|H']; [by rewrite Hst in H'|]. rewrite Hb in H'. by injection H' as -> ->. }
  destruct r0 as [u|e]; injection E as <- <- <-; (split_and!; [apply S0|done|]); [|by intros ? [=]].
  intros n [= <-]. split_and!; [done|apply S0|by rewrite B0, Hb|done|done].
Qed.
End ballots.
