(* ===== verification/RaftCluster.v ===== *)
(** * A cluster of Raft nodes

    The nodes of src/raft/node.cpp and the messages between them.  A step is
    one critical section of one node, the loss of a message, a crash or a
    restart; messages may be delayed, reordered, duplicated and lost, and the
    system calls of every node may fail.  Between two sections of a member
    function any other step may come, as between two acquisitions of
    [mutex_]. *)

From S2P Require Import Prelude FileSystem Store RaftTypes RaftStorage RaftNode RaftElection.

(** ** Definitions *)

(** A process runs a node, or is down with its files. *)
Inductive Process (S M : Type) :=
| Up (n : RaftNode S M)
| Down (o : RaftNodeOptions) (s : S).
Arguments Up {S M}.
Arguments Down {S M}.

(** The local variables of [begin_election] between its sections: the request,
    the votes counted and the peers still to be asked. *)
Record Campaign := mkCampaign {
  ca_request : RequestVoteRequest;
  ca_votes : Z;
  ca_peers : list Peer
}.

(** The requests sent and the answers given; [(id, request, answer)] is an
    answer of [id]. *)
Record Cluster (S M : Type) := mkCluster {
  cl_processes : gmap NodeId (Process S M);
  cl_campaigns : gmap NodeId Campaign;
  cl_vote_requests : list RequestVoteRequest;
  cl_vote_replies : list (NodeId * RequestVoteRequest * RequestVoteResponse);
  cl_append_requests : list AppendEntriesRequest;
  cl_append_replies : list (NodeId * AppendEntriesRequest * AppendEntriesResponse);
  cl_snapshot_requests : list InstallSnapshotRequest;
  cl_snapshot_replies : list (NodeId * InstallSnapshotRequest * InstallSnapshotResponse)
}.
Arguments mkCluster {S M}.
Arguments cl_processes {S M}.
Arguments cl_campaigns {S M}.
Arguments cl_vote_requests {S M}.
Arguments cl_vote_replies {S M}.
Arguments cl_append_requests {S M}.
Arguments cl_append_replies {S M}.
Arguments cl_snapshot_requests {S M}.
Arguments cl_snapshot_replies {S M}.

(** The steps of running nodes; [None] for an answer is a call that failed or
    timed out. *)
Inductive Action :=
| StartElection (id : NodeId)
| DeliverVote (id : NodeId) (request : RequestVoteRequest)
| CountVoteRequest (id : NodeId)
| CollectVote (id : NodeId) (response : option RequestVoteResponse)
| FinishElection (id : NodeId)
| Replicate (id : NodeId) (peer : Peer) (heartbeat_only : bool)
| DeliverAppend (id : NodeId) (request : AppendEntriesRequest)
| AppendAnswered (id : NodeId) (peer : Peer) (request : AppendEntriesRequest) (response : option AppendEntriesResponse)
| DeliverSnapshot (id : NodeId) (request : InstallSnapshotRequest)
| SnapshotAnswered (id : NodeId) (peer : Peer) (request : InstallSnapshotRequest) (response : option InstallSnapshotResponse)
| FinishReplication (id : NodeId) (request_term : Z)
| Submit (id : NodeId) (command : Command)
| TriggerSnapshot (id : NodeId).

(** A term in a message is 64 bits wide. *)
Definition wide (t : Z) : bool := (0 <=? t) && (t <=? u64_max).

Section cluster.
Context {S M : Type} `{Storage S} `{StateMachine M}.
Abbreviation Node := (RaftNode S M).
Abbreviation Net := (Cluster S M).

Definition set_process (id : NodeId) (p : Process S M) (c : Net) : Net :=
  mkCluster (<[id := p]> (cl_processes c)) (cl_campaigns c) (cl_vote_requests c) (cl_vote_replies c) (cl_append_requests c)
    (cl_append_replies c) (cl_snapshot_requests c) (cl_snapshot_replies c).
Definition set_campaign (id : NodeId) (ca : option Campaign) (c : Net) : Net :=
  mkCluster (cl_processes c) (match ca with Some x => <[id := x]> (cl_campaigns c) | None => delete id (cl_campaigns c) end)
    (cl_vote_requests c) (cl_vote_replies c) (cl_append_requests c) (cl_append_replies c) (cl_snapshot_requests c) (cl_snapshot_replies c).
Definition post_vote_request (r : RequestVoteRequest) (c : Net) : Net :=
  mkCluster (cl_processes c) (cl_campaigns c) (r :: cl_vote_requests c) (cl_vote_replies c) (cl_append_requests c)
    (cl_append_replies c) (cl_snapshot_requests c) (cl_snapshot_replies c).
Definition post_vote_reply (r : NodeId * RequestVoteRequest * RequestVoteResponse) (c : Net) : Net :=
  mkCluster (cl_processes c) (cl_campaigns c) (cl_vote_requests c) (r :: cl_vote_replies c) (cl_append_requests c)
    (cl_append_replies c) (cl_snapshot_requests c) (cl_snapshot_replies c).
Definition post_append_request (r : AppendEntriesRequest) (c : Net) : Net :=
  mkCluster (cl_processes c) (cl_campaigns c) (cl_vote_requests c) (cl_vote_replies c) (r :: cl_append_requests c)
    (cl_append_replies c) (cl_snapshot_requests c) (cl_snapshot_replies c).
Definition post_append_reply (r : NodeId * AppendEntriesRequest * AppendEntriesResponse) (c : Net) : Net :=
  mkCluster (cl_processes c) (cl_campaigns c) (cl_vote_requests c) (cl_vote_replies c) (cl_append_requests c)
    (r :: cl_append_replies c) (cl_snapshot_requests c) (cl_snapshot_replies c).
Definition post_snapshot_request (r : InstallSnapshotRequest) (c : Net) : Net :=
  mkCluster (cl_processes c) (cl_campaigns c) (cl_vote_requests c) (cl_vote_replies c) (cl_append_requests c)
    (cl_append_replies c) (r :: cl_snapshot_requests c) (cl_snapshot_replies c).
Definition post_snapshot_reply (r : NodeId * InstallSnapshotRequest * InstallSnapshotResponse) (c : Net) : Net :=
  mkCluster (cl_processes c) (cl_campaigns c) (cl_vote_requests c) (cl_vote_replies c) (cl_append_requests c)
    (cl_append_replies c) (cl_snapshot_requests c) (r :: cl_snapshot_replies c).

(** A section of the node [id]; [k] makes of its outcome what happens to the
    rest of the cluster. *)
Definition section {A} (id : NodeId) (code : stm Node A) (k : result A -> Net -> Net) (c : Net) : option Net :=
  match cl_processes c !! id with
  | Some (Up n) => let '(r, n') := code n in Some (k r (set_process id (Up n') c))
  | _ => None
  end.

(** What one peer's answer, or its loss, makes of a campaign. *)
Definition collect_vote (request : RequestVoteRequest) (votes : Z) (response : option RequestVoteResponse) : stm Node (option Z) :=
  match response with
  | None => mret (Some votes)
  | Some x => on_vote_response (rv_term request) votes x
  end.

Definition perform (a : Action) (c : Net) : option Net :=
  match a with
  | StartElection id =>
      match cl_processes c !! id, cl_campaigns c !! id with
      | Some (Up n), None =>
          (* the term counter has not run out *)
          if term_ n <? u64_max then
            section id start_election (fun r c' =>
              match r with
              | Ok (Some request) =>
                  set_campaign id (Some (mkCampaign request 1 (no_peers (options_ n)))) (post_vote_request request c')
              | _ => c'
              end) c
          else None
      | _, _ => None
      end
  | DeliverVote id request =>
      if bool_decide (request ∈ cl_vote_requests c) then
        section id (handle_request_vote request) (fun r c' =>
          match r with Ok response => post_vote_reply (id, request, response) c' | Throw _ => c' end) c
      else None
  | CountVoteRequest id => section id (count VoteRequestsSent) (fun _ c' => c') c
  | CollectVote id response =>
      match cl_campaigns c !! id with
      | Some (mkCampaign request votes (peer :: rest)) =>
          if match response with Some x => bool_decide ((p_id peer, request, x) ∈ cl_vote_replies c) | None => true end then
            section id (collect_vote request votes response) (fun r c' =>
              match r with
              | Ok (Some votes') => set_campaign id (Some (mkCampaign request votes' rest)) c'
              | _ => set_campaign id None c'
              end) c
          else None
      | _ => None
      end
  | FinishElection id =>
      match cl_campaigns c !! id with
      | Some (mkCampaign request votes []) =>
          section id (finish_election (rv_term request) votes) (fun _ c' => set_campaign id None c') c
      | _ => None
      end
  | Replicate id peer heartbeat_only =>
      section id (prepare_replication peer heartbeat_only) (fun r c' =>
        match r with
        | Ok (SendEntries request) => post_append_request request c'
        | Ok (SendSnapshot request) => post_snapshot_request request c'
        | _ => c'
        end) c
  | DeliverAppend id request =>
      if bool_decide (request ∈ cl_append_requests c) && wide (ae_term request) then
        section id (handle_append_entries request) (fun r c' =>
          match r with Ok response => post_append_reply (id, request, response) c' | Throw _ => c' end) c
      else None
  | AppendAnswered id peer request response =>
      if bool_decide (request ∈ cl_append_requests c) && bool_decide (ae_leader_id request = id) &&
         match response with
         | Some x => bool_decide ((p_id peer, request, x) ∈ cl_append_replies c) && wide (ar_term x)
         | None => true
         end
      then section id (on_append_response peer (ae_term request) response) (fun _ c' => c') c
      else None
  | DeliverSnapshot id request =>
      if bool_decide (request ∈ cl_snapshot_requests c) && wide (is_term request) then
        section id (handle_install_snapshot request) (fun r c' =>
          match r with Ok response => post_snapshot_reply (id, request, response) c' | Throw _ => c' end) c
      else None
  | SnapshotAnswered id peer request response =>
      if bool_decide (request ∈ cl_snapshot_requests c) && bool_decide (is_leader_id request = id) &&
         match response with
         | Some x => bool_decide ((p_id peer, request, x) ∈ cl_snapshot_replies c) && wide (ir_term x)
         | None => true
         end
      then section id (on_snapshot_response peer (is_term request) response) (fun _ c' => c') c
      else None
  | FinishReplication id request_term => section id (finish_replication request_term) (fun _ c' => c') c
  | Submit id command => section id (submit_append command) (fun _ c' => c') c
  | TriggerSnapshot id => section id trigger_snapshot (fun _ c' => c') c
  end.

(** A process that is down is started. *)
Definition boot (id : NodeId) (machine : M) (c : Net) : option Net :=
  match cl_processes c !! id with
  | Some (Down o s) =>
      match new_node o s machine with
      | (Ok n, _, _) => Some (set_process id (Up n) c)
      | (Throw _, s', _) => Some (set_process id (Down o s') c)
      end
  | _ => None
  end.
End cluster.

Inductive step {S M} `{BallotLaws S} `{StateMachine M} : Cluster S M -> Cluster S M -> Prop :=
| step_perform a c c' : perform a c = Some c' -> step c c'
| step_boot id machine c c' : boot id machine c = Some c' -> step c c'
| step_crash id n s' c :
    cl_processes c !! id = Some (Up n) -> bs_restart (storage_ n) s' ->
    step c (set_campaign id None (set_process id (Down (options_ n) s') c))
| step_crash_down id o s s' c :
    cl_processes c !! id = Some (Down o s) -> bs_restart s s' -> step c (set_process id (Down o s') c).

Abbreviation steps := (rtc step).

(** ** Election safety *)

(** The members of the cluster, known to all of them. *)
Definition configured (members : list NodeId) (id : NodeId) (o : RaftNodeOptions) : Prop :=
  no_node_id o = id /\ id <> [] /\ id :: map p_id (no_peers o) ≡ₚ members.

Section safety.
Context {S M : Type} `{BallotLaws S} `{StateMachine M}.
Context (members : list NodeId) (Hmembers : NoDup members) (Hsize : zlen members <= u64_max).
Abbreviation Net := (Cluster S M).
Abbreviation Vote := (NodeId * Z * NodeId)%type.

(** Every vote [(voter, term, candidate)] ever given is covered by what the
    process has in memory and by whatever a crash can leave of its disk. *)
Record process_ok (V : list Vote) (L : list (Z * NodeId)) (id : NodeId) (p : Process S M) : Prop := {
  po_configured : configured members id (match p with Up n => options_ n | Down o _ => o end);
  po_storage : bs_inv (match p with Up n => storage_ n | Down _ s => s end);
  po_disk : forall t a t' v', (id, t, a) ∈ V -> bs_ballot (match p with Up n => storage_ n | Down _ s => s end) t' v' -> covers (t', v') t a;
  po_node : forall n, p = Up n -> ballot_ok n /\ (forall t a, (id, t, a) ∈ V -> covers (ballot n) t a) /\
                                  (role_ n = Leader -> (term_ n, id) ∈ L)
}.

(** [voters] are members that have voted for [a] in term [t]. *)
Definition supporters (V : list Vote) (t : Z) (a : NodeId) (voters : list NodeId) : Prop :=
  NoDup voters /\ (forall v, v ∈ voters -> v ∈ members /\ (v, t, a) ∈ V).

Record cluster_inv (V : list Vote) (L : list (Z * NodeId)) (c : Net) : Prop := {
  ci_process : forall id p, cl_processes c !! id = Some p -> process_ok V L id p;
  ci_unique : forall v t a b, (v, t, a) ∈ V -> (v, t, b) ∈ V -> a = b;
  ci_named : forall v t a, (v, t, a) ∈ V -> a <> [];
  ci_campaign : forall id ca, cl_campaigns c !! id = Some ca ->
    rv_candidate_id (ca_request ca) = id /\ NoDup (map p_id (ca_peers ca)) /\ (forall p, p ∈ ca_peers ca -> p_id p ∈ members) /\
    exists voters, supporters V (rv_term (ca_request ca)) id voters /\ zlen voters = ca_votes ca /\
      (forall p, p ∈ ca_peers ca -> p_id p ∉ voters);
  ci_request : forall r, r ∈ cl_vote_requests c -> is_u64 (rv_term r) /\ rv_candidate_id r <> [];
  ci_reply : forall id r x, (id, r, x) ∈ cl_vote_replies c -> is_u64 (vr_term x) /\
    (vr_vote_granted x = true -> (id, rv_term r, rv_candidate_id r) ∈ V);
  ci_leader : forall t id, (t, id) ∈ L -> exists voters, supporters V t id voters /\ zlen members < 2 * zlen voters
}.

Lemma supporters_mono V V' t a voters : V ⊆ V' -> supporters V t a voters -> supporters V' t a voters.
Proof. intros HV [Hn Hs]. split; [done|]. intros v Hv. destruct (Hs v Hv). auto. Qed.

(** Two majorities have a member in common, who voted once. *)
Lemma leader_unique V L c t a b : cluster_inv V L c -> (t, a) ∈ L -> (t, b) ∈ L -> a = b.
Proof.
  intros Hi (va & [Na Sa] & Ha)%(ci_leader _ _ _ Hi) (vb & [Nb Sb] & Hb)%(ci_leader _ _ _ Hi).
  assert (Hex : exists v, v ∈ va /\ v ∈ vb).
  { destruct (decide (Exists (fun v => v ∈ vb) va)) as [(v & ? & ?)%Exists_exists|Hne]; [eauto|]. exfalso.
    assert (Hnd : NoDup (va ++ vb)).
    { apply NoDup_app. split_and!; [done| |done]. intros v Hv Hv'. apply Hne, Exists_exists. eauto. }
    assert (Hsub : va ++ vb ⊆ members) by (intros v [Hv|Hv]%elem_of_app; [by apply Sa|by apply Sb]).
    pose proof (submseteq_length _ _ (NoDup_submseteq _ _ Hnd Hsub)) as Hl. rewrite length_app in Hl. unfold zlen in *. lia. }
  destruct Hex as (v & Hva & Hvb). eapply (ci_unique _ _ _ Hi); [apply (Sa v Hva)|apply (Sb v Hvb)].
Qed.

(** *** Steps that give no vote *)

Lemma process_ok_step V L id n n' : (forall v t a, (v, t, a) ∈ V -> a <> []) ->
  process_ok V L id (Up n) -> ballot_step n n' -> process_ok V L id (Up n').
Proof.
  intros Hnamed [P1 P2 P3 P4] [B1 B2 B3 B4 [B5 B6]]. destruct (P4 n eq_refl) as (Q1 & Q2 & Q3). split.
  - unfold configured in *. by rewrite B5, B6.
  - apply B1.
  - intros t a t' v' Hv Hb. destruct (B3 _ _ Hb) as [Hb'|Hle]; [by eapply P3|]. eapply covers_le; [by eapply Hnamed|by apply Q2|done].
  - intros n1 [= <-]. split_and!; [done| |].
    + intros t a Hv. eapply covers_le; [by eapply Hnamed|by apply Q2|done].
    + intros [Hr Ht]%B4. rewrite Ht. auto.
Qed.

(** The processes change, the messages that elections use do not. *)
Lemma inv_set_process V L c id p :
  cluster_inv V L c -> process_ok V L id p -> cluster_inv V L (set_process id p c).
Proof.
  intros [A1 A2 A3 A4 A5 A6 A7] Hp. split; simpl; try done.
  intros id' p' Hl. apply lookup_insert_Some in Hl as [[<- <-]|[_ Hl]]; auto.
Qed.

Lemma inv_drop_campaign V L c id : cluster_inv V L c -> cluster_inv V L (set_campaign id None c).
Proof.
  intros [A1 A2 A3 A4 A5 A6 A7]. split; simpl; try done. intros id' ca [_ Hl]%lookup_delete_Some. auto.
Qed.

(** A section whose runs are [ballots], when nothing of elections follows from
    it. *)
Lemma inv_section {A} V L id (code : stm (RaftNode S M) A) k c c' :
  cluster_inv V L c -> ballots code -> section id code k c = Some c' ->
  (forall r n n', cl_processes c !! id = Some (Up n) -> code n = (r, n') -> ballot_step n n' ->
     cluster_inv V L (set_process id (Up n') c) -> cluster_inv V L (k r (set_process id (Up n') c))) ->
  cluster_inv V L c'.
Proof.
  intros Hi Hb Hs Hk. unfold section in Hs. destruct (cl_processes c !! id) as [[n|]|] eqn:Ep; [|done..].
  destruct (code n) as [r n'] eqn:E. injection Hs as <-. pose proof (ci_process _ _ _ Hi _ _ Ep) as Hp.
  destruct (po_node _ _ _ _ Hp n eq_refl) as (Hn & _). pose proof (Hb _ _ _ Hn E) as Hst.
  eapply Hk; [done..|]. apply inv_set_process; [done|]. eapply process_ok_step; [|done|done]. apply Hi.
Qed.

Lemma wide_u64 t : wide t = true -> is_u64 t.
Proof. unfold wide, is_u64. intros H'. zbool. lia. Qed.

Lemma inv_append_request V L c r : cluster_inv V L c -> cluster_inv V L (post_append_request r c).
Proof. intros [A1 A2 A3 A4 A5 A6 A7]. by split. Qed.
Lemma inv_append_reply V L c r : cluster_inv V L c -> cluster_inv V L (post_append_reply r c).
Proof. intros [A1 A2 A3 A4 A5 A6 A7]. by split. Qed.
Lemma inv_snapshot_request V L c r : cluster_inv V L c -> cluster_inv V L (post_snapshot_request r c).
Proof. intros [A1 A2 A3 A4 A5 A6 A7]. by split. Qed.
Lemma inv_snapshot_reply V L c r : cluster_inv V L c -> cluster_inv V L (post_snapshot_reply r c).
Proof. intros [A1 A2 A3 A4 A5 A6 A7]. by split. Qed.

Definition quiet_action (a : Action) : bool :=
  match a with StartElection _ | DeliverVote _ _ | CollectVote _ _ | FinishElection _ => false | _ => true end.

Lemma inv_quiet_action V L a c c' :
  cluster_inv V L c -> quiet_action a = true -> perform a c = Some c' -> cluster_inv V L c'.
Proof.
  intros Hi Hq Hp. destruct a; try done; simpl in Hp.
  - eapply inv_section; [done|apply ballots_count|done|done].
  - eapply inv_section; [done|apply ballots_prepare|done|]. intros r n n' _ _ _ Hi'.
    destruct r as [[| |rq|rq]|]; [done..|by apply inv_snapshot_request|by apply inv_append_request|done].
  - destruct (bool_decide _ && wide _) eqn:E; [|done]. apply andb_true_iff in E as [_ Hw%wide_u64].
    eapply inv_section; [done|by apply ballots_append_entries|done|]. intros [x|] n n' _ _ _ Hi'; [by apply inv_append_reply|done].
  - destruct (_ && _) eqn:E; [|done]. apply andb_true_iff in E as [_ Hw].
    eapply inv_section; [done| |done|done]. apply ballots_append_response. intros x ->. apply andb_true_iff in Hw as [_ Hw]. by apply wide_u64.
  - destruct (bool_decide _ && wide _) eqn:E; [|done]. apply andb_true_iff in E as [_ Hw%wide_u64].
    eapply inv_section; [done|by apply ballots_install_snapshot|done|]. intros [x|] n n' _ _ _ Hi'; [by apply inv_snapshot_reply|done].
  - destruct (_ && _) eqn:E; [|done]. apply andb_true_iff in E as [_ Hw].
    eapply inv_section; [done| |done|done]. apply ballots_snapshot_response. intros x ->. apply andb_true_iff in Hw as [_ Hw]. by apply wide_u64.
  - eapply inv_section; [done|apply ballots_finish_replication|done|done].
  - eapply inv_section; [done|apply ballots_submit|done|done].
  - eapply inv_section; [done|apply ballots_trigger_snapshot|done|done].
Qed.

(** *** Votes *)

Lemma subset_cons {A} (x : A) (l : list A) : l ⊆ x :: l.
Proof. intros y Hy. by right. Qed.

Lemma process_ok_mono V L L' id p : L ⊆ L' -> process_ok V L id p -> process_ok V L' id p.
Proof.
  intros HL [P1 P2 P3 P4]. split; [done..|]. intros n ->. destruct (P4 n eq_refl) as (Q1 & Q2 & Q3). split_and!; auto.
Qed.

(** Node [id] gives its vote in term [t] to [a]. *)
Lemma inv_add_vote V L c id n n' t a :
  cluster_inv V L c -> cl_processes c !! id = Some (Up n) -> ballot_step n n' ->
  ballot n' = (t, a) -> (forall t' v', bs_ballot (storage_ n') t' v' -> (t', v') = (t, a)) -> a <> [] ->
  (forall b, (id, t, b) ∈ V -> b = a) ->
  cluster_inv ((id, t, a) :: V) L (set_process id (Up n') c).
Proof.
  intros Hi Hp Hst Hb Hd Ha Hu. pose proof Hi as [A1 A2 A3 A4 A5 A6 A7].
  assert (Hok : process_ok V L id (Up n')) by (eapply process_ok_step; [exact A3|by apply A1|done]).
  split; simpl.
  - intros id' p Hl. apply lookup_insert_Some in Hl as [[<- <-]|[Hne Hl]].
    + destruct Hok as [P1 P2 P3 P4]. split; [done|done| |].
      * intros t1 a1 t' v' [Heq|Hv]%elem_of_cons Hbal; [|by eapply P3]. injection Heq as -> ->. right. by injection (Hd _ _ Hbal) as -> ->.
      * intros n1 [= <-]. destruct (P4 n' eq_refl) as (Q1 & Q2 & Q3). split_and!; [done| |done].
        intros t1 a1 [Heq|Hv]%elem_of_cons; [|by apply Q2]. injection Heq as -> ->. rewrite Hb. by right.
    + destruct (A1 id' p Hl) as [P1 P2 P3 P4]. split; [done|done| |].
      * intros t1 a1 t' v' [Heq|Hv]%elem_of_cons; [by injection Heq as ->|by apply P3].
      * intros n1 ->. destruct (P4 n1 eq_refl) as (Q1 & Q2 & Q3). split_and!; [done| |done].
        intros t1 a1 [Heq|Hv]%elem_of_cons; [by injection Heq as ->|by apply Q2].
  - intros v t1 a1 b1 [E1|H1']%elem_of_cons [E2|H2']%elem_of_cons; simplify_eq; [done| | |by eapply A2].
    + symmetry. by apply Hu.
    + by apply Hu.
  - intros v t1 a1 [E1|H1']%elem_of_cons; [by simplify_eq|by eapply A3].
  - intros id' ca (B1 & B2 & B3 & voters & B4 & B5)%A4. split_and!; [done..|]. exists voters. split; [|done].
    eapply supporters_mono; [apply subset_cons|done].
  - done.
  - intros id' r x (B1 & B2)%A6. split; [done|]. intros Hg. apply elem_of_cons. auto.
  - intros t1 id' (voters & B1 & B2)%A7. exists voters. split; [|done]. eapply supporters_mono; [apply subset_cons|done].
Qed.

Lemma inv_vote_reply V L c id r x :
  cluster_inv V L c -> is_u64 (vr_term x) -> (vr_vote_granted x = true -> (id, rv_term r, rv_candidate_id r) ∈ V) ->
  cluster_inv V L (post_vote_reply (id, r, x) c).
Proof.
  intros [A1 A2 A3 A4 A5 A6 A7] H1' H2'. split; simpl; try done. intros id' r' x' [Heq|Hin]%elem_of_cons; [by simplify_eq|by eapply A6].
Qed.

Lemma inv_vote_request V L c r :
  cluster_inv V L c -> is_u64 (rv_term r) -> rv_candidate_id r <> [] -> cluster_inv V L (post_vote_request r c).
Proof.
  intros [A1 A2 A3 A4 A5 A6 A7] H1' H2'. split; simpl; try done. intros r' [->|Hin]%elem_of_cons; [done|by apply A5].
Qed.

Lemma inv_set_campaign V L c id ca voters :
  cluster_inv V L c -> rv_candidate_id (ca_request ca) = id -> NoDup (map p_id (ca_peers ca)) ->
  (forall p, p ∈ ca_peers ca -> p_id p ∈ members) -> supporters V (rv_term (ca_request ca)) id voters ->
  zlen voters = ca_votes ca -> (forall p, p ∈ ca_peers ca -> p_id p ∉ voters) ->
  cluster_inv V L (set_campaign id (Some ca) c).
Proof.
  intros [A1 A2 A3 A4 A5 A6 A7] H1' H2' H3' H4' H5' H6'. split; simpl; try done.
  intros id' ca' Hl. apply lookup_insert_Some in Hl as [[<- <-]|[_ Hl]]; [|auto]. split_and!; [done..|]. by exists voters.
Qed.

Lemma configured_peers id o : configured members id o ->
  id ∈ members /\ NoDup (map p_id (no_peers o)) /\ (forall p, p ∈ no_peers o -> p_id p ∈ members) /\
  (forall p, p ∈ no_peers o -> p_id p ∉ [id]) /\ zlen members = zlen (no_peers o) + 1.
Proof.
  intros (_ & _ & Hp). assert (Hnd : NoDup (id :: map p_id (no_peers o))) by by rewrite Hp. apply NoDup_cons in Hnd as [Hn Hnd].
  split_and!.
  - rewrite <- Hp. by left.
  - done.
  - intros p Hin. rewrite <- Hp. right. by apply list_elem_of_fmap_2.
  - intros p Hin Heq%list_elem_of_singleton. apply Hn. rewrite <- Heq. by apply list_elem_of_fmap_2.
  - unfold zlen. rewrite <- Hp. simpl. rewrite length_map. lia.
Qed.

Lemma inv_start_election V L id c c' :
  cluster_inv V L c -> perform (StartElection id) c = Some c' ->
  exists V', V ⊆ V' /\ cluster_inv V' L c' /\
    forall id' ca, cl_campaigns c' !! id' = Some ca -> cl_campaigns c !! id' = Some ca \/
      (id' = id /\ (id, rv_term (ca_request ca), id) ∈ V' /\ forall a, (id, rv_term (ca_request ca), a) ∉ V).
Proof.
  intros Hi Hp. simpl in Hp. destruct (cl_processes c !! id) as [[n|]|] eqn:Ep; [|done..].
  destruct (cl_campaigns c !! id); [done|]. destruct (term_ n <? u64_max) eqn:Et; [|done]. zbool.
  unfold section in Hp. rewrite Ep in Hp. destruct (start_election n) as [r n'] eqn:E. injection Hp as <-.
  pose proof (ci_process _ _ _ Hi _ _ Ep) as Hok. destruct (po_node _ _ _ _ Hok n eq_refl) as (Hn & Hcov & _).
  destruct (start_election_ballot n r n' Hn Et E) as [Hst Hreq].
  pose proof (po_configured _ _ _ _ Hok) as Hconf. pose proof Hconf as (Hid & Hne & _).
  destruct r as [[request|]|e];
    [|exists V; split; [done|split; [apply inv_set_process; [done|]; eapply process_ok_step; [apply Hi|done|done]|by left]]..].
  destruct (Hreq request eq_refl) as (R1 & R2 & R3 & R4). rewrite Hid in *. pose proof (bo_term _ Hn) as Hu.
  exists ((id, term_ n + 1, id) :: V). split; [apply subset_cons|].
  assert (Hi1 : cluster_inv ((id, term_ n + 1, id) :: V) L (set_process id (Up n') c)).
  { eapply inv_add_vote; [done..|]. intros b Hb. exfalso. destruct (Hcov _ _ Hb) as [Hlt|[Heq _]]; simpl in *; lia. }
  destruct (configured_peers _ _ Hconf) as (C1 & C2 & C3 & C4 & _). split.
  - apply inv_set_campaign with (voters := [id]); simpl; try done.
    + apply inv_vote_request; [done| |congruence]. unfold is_u64 in *. rewrite R1. lia.
    + split; [apply NoDup_singleton|]. intros v ->%list_elem_of_singleton. split; [done|]. rewrite R1. by left.
  - simpl. intros id' ca [[<- <-]|[_ Hl]]%lookup_insert_Some; [right|by left]. simpl. rewrite R1. split_and!; [done|by left|].
    intros a Hv. destruct (Hcov _ _ Hv) as [Hlt|[Heq _]]; simpl in *; lia.
Qed.

Lemma inv_deliver_vote V L id request c c' :
  cluster_inv V L c -> perform (DeliverVote id request) c = Some c' -> exists V', V ⊆ V' /\ cluster_inv V' L c'.
Proof.
  intros Hi Hp. simpl in Hp. case_bool_decide as Hin; [|done]. destruct (ci_request _ _ _ Hi _ Hin) as [Hu Hcand].
  unfold section in Hp. destruct (cl_processes c !! id) as [[n|]|] eqn:Ep; [|done..].
  destruct (handle_request_vote request n) as [r n'] eqn:E. injection Hp as <-.
  pose proof (ci_process _ _ _ Hi _ _ Ep) as Hok. destruct (po_node _ _ _ _ Hok n eq_refl) as (Hn & Hcov & _).
  destruct (request_vote request n r n' Hn Hu E) as [Hst Hresp].
  assert (Hi0 : cluster_inv V L (set_process id (Up n') c)) by (apply inv_set_process; [done|]; eapply process_ok_step; [apply Hi|done|done]).
  destruct r as [x|e]; [|by exists V]. destruct (Hresp x eq_refl) as [Hx Hgrant]. destruct (vr_vote_granted x) eqn:Eg.
  - destruct (Hgrant eq_refl) as (G1 & G2 & G3). exists ((id, rv_term request, rv_candidate_id request) :: V). split; [apply subset_cons|].
    apply inv_vote_reply; [|done|by intros _; left]. eapply inv_add_vote; [done..|].
    intros b Hb. apply G3; [by eapply (ci_named _ _ _ Hi)|by apply Hcov].
  - exists V. split; [done|]. apply inv_vote_reply; [done|done|congruence].
Qed.

Lemma ballots_collect request votes response :
  (forall x, response = Some x -> is_u64 (vr_term x)) -> ballots (S := S) (M := M) (collect_vote request votes response).
Proof.
  intros Hx. unfold collect_vote. destruct response as [x|]; [|apply ballots_ret].
  by apply ballots_vote_response, Hx.
Qed.

Lemma collect_votes request votes response (n n' : RaftNode S M) votes' :
  collect_vote request votes response n = (Ok (Some votes'), n') ->
  votes' = (if match response with Some x => vr_vote_granted x | None => false end then u64 (votes + 1) else votes).
Proof.
  unfold collect_vote. destruct response as [x|]; [|by intros [= <- _]].
  unfold on_vote_response, mbind, stm_bind, sget. break_if; [by destruct (become_follower_locked _ _ _) as [[]]|].
  break_if; [by intros [=]|]. by intros [= <- _].
Qed.

Lemma inv_collect_vote V L id response c c' :
  cluster_inv V L c -> perform (CollectVote id response) c = Some c' -> cluster_inv V L c'.
Proof.
  intros Hi Hp. simpl in Hp. destruct (cl_campaigns c !! id) as [[request votes [|peer rest]]|] eqn:Ec; [done| |done].
  destruct (match response with Some x => _ | None => true end) eqn:Er; [|done].
  destruct (ci_campaign _ _ _ Hi _ _ Ec) as (C1 & C2 & C3 & voters & [Sn Ss] & C5 & C6). simpl in *.
  apply NoDup_cons in C2 as [C2a C2b].
  eapply inv_section; [done| |exact Hp|].
  - apply ballots_collect. intros x ->. apply bool_decide_eq_true in Er. by apply (ci_reply _ _ _ Hi) in Er as [? _].
  - intros r n n' Hn E Hst Hi'. destruct r as [[votes'|]|e]; [|by apply inv_drop_campaign..].
    apply collect_votes in E. destruct response as [x|].
    + apply bool_decide_eq_true in Er. apply (ci_reply _ _ _ Hi) in Er as [_ Hg]. destruct (vr_vote_granted x).
      * assert (Hs' : supporters V (rv_term request) id (p_id peer :: voters)).
        { split; [apply NoDup_cons; split; [by apply C6; left|done]|]. intros v [->|Hv]%elem_of_cons; [|by apply Ss].
          split; [apply C3; by left|]. rewrite <- C1. by apply Hg. }
        assert (Hlen : zlen (p_id peer :: voters) <= zlen members).
        { unfold zlen. apply inj_le, submseteq_length, NoDup_submseteq; [apply Hs'|]. intros v Hv. by apply Hs'. }
        rewrite zlen_cons in Hlen. pose proof (zlen_nonneg voters).
        apply inv_set_campaign with (voters := p_id peer :: voters); simpl; try done.
        -- intros p Hpp. apply C3. by right.
        -- rewrite zlen_cons, E, u64_small by lia. lia.
        -- intros p Hpp [Heq|Hv]%elem_of_cons; [|by eapply C6; [right|]]. apply C2a. rewrite <- Heq. by apply list_elem_of_fmap_2.
      * subst votes'. apply inv_set_campaign with (voters := voters); simpl; try done; intros p Hpp; [apply C3|apply C6]; by right.
    + subst votes'. apply inv_set_campaign with (voters := voters); simpl; try done; intros p Hpp; [apply C3|apply C6]; by right.
Qed.

Lemma inv_finish_election V L id request votes n r n' c :
  cluster_inv V L c -> cl_campaigns c !! id = Some (mkCampaign request votes []) -> cl_processes c !! id = Some (Up n) ->
  finish_election (rv_term request) votes n = (r, n') ->
  let c' := set_campaign id None (set_process id (Up n') c) in
  (n' = n /\ cluster_inv V L c') \/
  (term_ n = rv_term request /\ role_ n = Candidate /\ cluster_inv V ((rv_term request, id) :: L) c').
Proof.
  intros Hi Ec Ep E c'. destruct (ci_campaign _ _ _ Hi _ _ Ec) as (C1 & C2 & C3 & voters & C4 & C5 & C6). simpl in *.
  pose proof (ci_process _ _ _ Hi _ _ Ep) as Hok. destruct (po_node _ _ _ _ Hok n eq_refl) as (Hn & Hcov & _).
  destruct (finish_election_ballot _ _ _ _ _ Hn E) as [->|(F1 & F2 & F3 & n1 & _ & F4 & F5 & F6 & F7 & F8)].
  - left. split; [done|]. by apply inv_drop_campaign, inv_set_process.
  - right. split_and!; [done..|].
    assert (Hi' : cluster_inv V ((rv_term request, id) :: L) c).
    { destruct Hi as [A1 A2 A3 A4 A5 A6 A7]. split; try done.
      - intros id' p Hl. eapply process_ok_mono; [apply subset_cons|by apply A1].
      - intros t1 id1 [Heq|Hin]%elem_of_cons; [|by apply A7]. injection Heq as -> ->. exists voters. split; [done|].
        destruct (configured_peers _ _ (po_configured _ _ _ _ Hok)) as (_ & _ & _ & _ & Hm).
        unfold quorum_size in F3. rewrite <- Hm in F3. rewrite C5. pose proof (Z.div_mod (zlen members) 2). 
        pose proof (Z.mod_pos_bound (zlen members) 2). lia. }
    assert (Hok1 : process_ok V ((rv_term request, id) :: L) id (Up n1)).
    { destruct Hok as [P1 P2 P3 P4]. assert (Ht1 : term_ n1 = rv_term request) by (change (term_ n1) with (ballot n1).1; by rewrite F5).
      split; [by rewrite F7|by rewrite F6|by rewrite F6|]. intros n2 [= <-].
      split_and!; [|rewrite F5; exact Hcov|intros _; rewrite Ht1; by left].
      destruct Hn as [B1 B2]. split; [change (term_ n1) with (ballot n1).1; by rewrite F5|by rewrite F6]. }
    apply inv_drop_campaign, inv_set_process; [done|]. eapply process_ok_step; [apply Hi|exact Hok1|done].
Qed.

(** *** Crashes and restarts *)

Lemma process_ok_down V L id p o s' :
  process_ok V L id p -> o = (match p with Up n => options_ n | Down o _ => o end) -> bs_inv s' ->
  (forall t v, bs_ballot s' t v -> bs_ballot (match p with Up n => storage_ n | Down _ s => s end) t v) ->
  process_ok V L id (Down o s').
Proof. intros [P1 P2 P3 P4] -> Hs Hb. split; [done|done| |done]. intros t a t' v' Hv Hbal. eapply P3; [done|]. by apply Hb. Qed.

Lemma inv_boot V L id machine c c' : cluster_inv V L c -> boot id machine c = Some c' -> cluster_inv V L c'.
Proof.
  intros Hi Hb. unfold boot in Hb. destruct (cl_processes c !! id) as [[|o s]|] eqn:Ep; [done| |done].
  pose proof (ci_process _ _ _ Hi _ _ Ep) as Hok. destruct (new_node o s machine) as [[r s'] m'] eqn:E.
  destruct (new_node_ballot o s machine r s' m' (po_storage _ _ _ _ Hok) E) as (N1 & N2 & N3).
  destruct r as [n|e]; injection Hb as <-; (apply inv_set_process; [done|]).
  - destruct (N3 n eq_refl) as (<- & O1 & O2 & O3 & O4). destruct Hok as [P1 P2 P3 P4]. split.
    + by rewrite O4.
    + done.
    + intros t a t' v' Hv Hbal. eapply P3; [done|]. by apply N2.
    + intros n1 [= <-]. split_and!; [done| |by rewrite O3]. intros t a Hv. destruct (ballot n) as [t0 v0]. by eapply P3.
  - by eapply process_ok_down.
Qed.

Lemma inv_step V L c c' :
  cluster_inv V L c -> step c c' -> exists V' L', V ⊆ V' /\ L ⊆ L' /\ cluster_inv V' L' c'.
Proof.
  intros Hi Hst. destruct Hst as [a c c' Hp|id machine c c' Hb|id n s' c Ep Hr|id o s s' c Ep Hr].
  - destruct (quiet_action a) eqn:Eq; [exists V, L; split_and!; [done..|by eapply inv_quiet_action]|].
    destruct a; try done.
    + destruct (inv_start_election _ _ _ _ _ Hi Hp) as (V' & ? & ? & _). by exists V', L.
    + destruct (inv_deliver_vote _ _ _ _ _ _ Hi Hp) as (V' & ? & ?). by exists V', L.
    + exists V, L. split_and!; [done..|by eapply inv_collect_vote].
    + simpl in Hp. destruct (cl_campaigns c !! id) as [[request votes [|peer rest]]|] eqn:Ec; [|done..]. unfold section in Hp.
      destruct (cl_processes c !! id) as [[n|]|] eqn:Ep; [|done..]. destruct (finish_election _ _ n) as [r n'] eqn:E. injection Hp as <-.
      destruct (inv_finish_election _ _ _ _ _ _ _ _ _ Hi Ec Ep E) as [[_ ?]|(_ & _ & ?)]; [by exists V, L|].
      exists V, ((rv_term request, id) :: L). split_and!; [done|apply subset_cons|done].
  - exists V, L. split_and!; [done..|by eapply inv_boot].
  - exists V, L. split_and!; [done..|]. pose proof (ci_process _ _ _ Hi _ _ Ep) as Hok.
    destruct (bs_restart_law _ _ (po_storage _ _ _ _ Hok) Hr) as [R1 R2].
    apply inv_drop_campaign, inv_set_process; [done|]. by eapply process_ok_down.
  - exists V, L. split_and!; [done..|]. pose proof (ci_process _ _ _ Hi _ _ Ep) as Hok.
    destruct (bs_restart_law _ _ (po_storage _ _ _ _ Hok) Hr) as [R1 R2].
    apply inv_set_process; [done|]. by eapply process_ok_down.
Qed.

Lemma inv_steps V L c c' :
  cluster_inv V L c -> steps c c' -> exists V' L', V ⊆ V' /\ L ⊆ L' /\ cluster_inv V' L' c'.
Proof.
  intros Hi Hst. revert V L Hi. induction Hst as [c|c c1 c' H1' _ IH]; intros V L Hi; [by exists V, L|].
  destruct (inv_step _ _ _ _ Hi H1') as (V1 & L1 & HV & HL & Hi1). destruct (IH _ _ Hi1) as (V2 & L2 & HV2 & HL2 & Hi2).
  exists V2, L2. split_and!; [by etrans..|done].
Qed.
End safety.
