(* ===== verification/RaftSafety.v ===== *)
(** * Leaders of a cluster, and a run of one

    Election safety for the clusters of [RaftCluster], and a run of three
    nodes of src/raft/node.cpp, down to the bytes of their files. *)

From S2P Require Import Prelude Posix FileSystem Store RaftTypes RaftStorage RaftNode RaftElection RaftCluster.

(** ** Definitions *)

(** A cluster about to start: every member is down, with whatever its disk
    holds. *)
Definition initial {S M} `{BallotLaws S} (members : list NodeId) (c : Cluster S M) : Prop :=
  c = mkCluster (cl_processes c) ∅ [] [] [] [] [] [] /\
  forall id p, cl_processes c !! id = Some p -> exists o s, p = Down o s /\ configured members id o /\ bs_inv s.

Definition leads {S M} (c : Cluster S M) (id : NodeId) (t : Z) : Prop :=
  exists n, cl_processes c !! id = Some (Up n) /\ role_ n = Leader /\ term_ n = t.

Section runs.
Context {S M : Type} `{BallotLaws S} `{StateMachine M}.

(** A step chosen by looking at the cluster. *)
Inductive Move :=
| Start (id : NodeId)
| Act (choose : Cluster S M -> option Action).

Definition move (machine : M) (m : Move) (c : Cluster S M) : option (Cluster S M) :=
  match m with
  | Start id => boot id machine c
  | Act choose => a ← choose c; perform a c
  end.

Fixpoint play (machine : M) (moves : list Move) (c : Cluster S M) : option (Cluster S M) :=
  match moves with
  | [] => Some c
  | m :: rest => c' ← move machine m c; play machine rest c'
  end.

Lemma play_steps machine moves c c' : play machine moves c = Some c' -> steps c c'.
Proof.
  revert c. induction moves as [|m moves IH]; intros c E; simpl in E; [by simplify_eq|].
  destruct (move machine m c) as [c1|] eqn:E1; [|done]. eapply rtc_l; [|by apply IH]. destruct m as [id|choose]; simpl in E1.
  - by eapply step_boot.
  - destruct (choose c) as [a|]; [|done]. by eapply step_perform.
Qed.
End runs.
Arguments Move : clear implicits.

(** *** Three nodes

    The state machine of the runs keeps the entries it has applied. *)

Definition Recorder : Type := list LogEntry.

#[export] Instance Recorder_machine : StateMachine Recorder := {|
  fsm_recover := fun _ entries => sput entries;
  fsm_apply := fun e => smodify (fun m => m ++ [e]);
  fsm_create_snapshot := mret [];
  fsm_install_snapshot := fun _ => sput [];
  fsm_flush := mret tt
|}.

Definition n1 : NodeId := bytes_of "n1".
Definition n2 : NodeId := bytes_of "n2".
Definition n3 : NodeId := bytes_of "n3".
Definition peer (id : NodeId) : Peer := mkPeer id (bytes_of "host").
Definition demo_node (id a b : NodeId) : Process RaftStorage Recorder :=
  Down (mkNodeOptions id [peer a; peer b] 300 600 75 200 128 0) (demo_storage []).

Definition demo_cluster : Cluster RaftStorage Recorder :=
  mkCluster (<[n1 := demo_node n1 n2 n3]> (<[n2 := demo_node n2 n1 n3]> (<[n3 := demo_node n3 n1 n2]> ∅))) ∅ [] [] [] [] [] [].

Abbreviation DemoMove := (Move RaftStorage Recorder).

(** [id] campaigns and is given the vote of [voter], its other peer is not
    reached.  The answer of each peer is collected in the order of the list. *)
Definition elect (id voter : NodeId) : list DemoMove :=
  let collect (c : Cluster RaftStorage Recorder) :=
    ca ← cl_campaigns c !! id;
    p ← head (ca_peers ca);
    Some (CollectVote id (if bool_decide (p_id p = voter) then (fun x => x.2) <$> head (cl_vote_replies c) else None)) in
  [ Act (fun _ => Some (StartElection id));
    Act (fun c => r ← head (cl_vote_requests c); Some (DeliverVote voter r));
    Act collect; Act collect;
    Act (fun _ => Some (FinishElection id)) ].

(** [id] sends to [to], which answers; the answer arrives. *)
Definition replicate (id to : NodeId) (heartbeat_only : bool) : list DemoMove :=
  [ Act (fun _ => Some (Replicate id (peer to) heartbeat_only));
    Act (fun c => r ← head (cl_append_requests c); Some (DeliverAppend to r));
    Act (fun c => x ← head (cl_append_replies c); Some (AppendAnswered id (peer to) x.1.2 (Some x.2))) ].

Definition demo_put (value : string) : Command := mkCommand Put (bytes_of "x") (bytes_of value).
Definition put (id : NodeId) (value : string) : list DemoMove := [ Act (fun _ => Some (Submit id (demo_put value))) ].

(** Node 3 leads in term 1 and appends a command that it does not get to
    send.  Node 1 loses in term 1, wins in term 2, and commits another command with
    node 2. *)
Definition demo_moves : list DemoMove :=
  [Start n1; Start n2; Start n3] ++ elect n3 n2 ++ put n3 "1" ++
  elect n1 n2 ++ elect n1 n2 ++ put n1 "2" ++ replicate n1 n2 false ++ [Act (fun _ => Some (FinishReplication n1 2))].

(** What a node has come to. *)
Definition view (id : NodeId) (c : Cluster RaftStorage Recorder) : option (Role * Z * Recorder) :=
  match cl_processes c !! id with
  | Some (Up n) => Some (role_ n, term_ n, state_machine_ n)
  | _ => None
  end.

(** ** Election safety *)

Section theorem.
Context {S M : Type} `{BallotLaws S} `{StateMachine M}.

Lemma initial_inv members (c : Cluster S M) : initial members c -> cluster_inv members [] [] c.
Proof.
  intros [-> Hp]. split; simpl; try (intros; by (repeat match goal with X : _ ∈ [] |- _ => apply not_elem_of_nil in X end)).
  intros id p Hl. destruct (Hp id p Hl) as (o & s & -> & Hc & Hs). split; [done|done| |done]. intros t a t' v' Hv. by apply not_elem_of_nil in Hv.
Qed.

(** C3: at most one leader per term.  However the sections of the nodes
    interleave, whatever messages are lost, delayed, repeated or reordered,
    whichever system calls fail, and however often processes crash and
    restart from what their disks then hold: two nodes that lead in the same
    term, at the same moment or at different ones, are the same node. *)
Theorem election_safety members (c0 c1 c2 : Cluster S M) id1 id2 t :
  NoDup members -> zlen members <= u64_max -> initial members c0 ->
  steps c0 c1 -> steps c1 c2 -> leads c1 id1 t -> leads c2 id2 t -> id1 = id2.
Proof.
  intros Hnd Hsz Hinit S1 S2 (n1 & P1 & R1 & T1) (n2 & P2 & R2 & T2).
  destruct (inv_steps members Hnd Hsz [] [] c0 c1 (initial_inv _ _ Hinit) S1) as (V1 & L1 & _ & _ & I1).
  destruct (inv_steps members Hnd Hsz V1 L1 c1 c2 I1 S2) as (V2 & L2 & _ & HL & I2).
  destruct (po_node _ _ _ _ _ (ci_process _ _ _ _ I1 _ _ P1) n1 eq_refl) as (_ & _ & G1).
  destruct (po_node _ _ _ _ _ (ci_process _ _ _ _ I2 _ _ P2) n2 eq_refl) as (_ & _ & G2).
  apply (leader_unique members V2 L2 c2 t); [done|apply HL; rewrite <- T1; auto|rewrite <- T2; auto].
Qed.
End theorem.

(** ** The run *)

Lemma load_files_hard_state directory files p :
  load_files directory files = Ok p -> is_Ok (stored_hard_state (files !! hard_state_path directory)) = true.
Proof. unfold load_files, stored_hard_state. by destruct (files !! hard_state_path directory) as [bs|]; [destruct (read_hard_state bs)|]. Qed.

Lemma demo_initial : initial [n1; n2; n3] demo_cluster.
Proof.
  assert (Hs : ballot_inv (demo_storage [])).
  { destruct (demo_storage_inv []) as [Hw Hl]. split; [done|]. intros files [p Hp]%Hl. by eapply load_files_hard_state. }
  split; [reflexivity|]. intros id p Hp. unfold demo_cluster in Hp. cbn [cl_processes] in Hp.
  assert (Hnode : forall id a b, id <> [] -> [id; a; b] ≡ₚ [n1; n2; n3] ->
            exists o s, demo_node id a b = Down o s /\ configured [n1; n2; n3] id o /\ ballot_inv s).
  { intros x a b Hx Hp'. do 2 eexists. split; [reflexivity|]. by split. }
  repeat (apply lookup_insert_Some in Hp as [[<- <-]|[_ Hp]]; [apply Hnode; [done|]|]).
  - done.
  - apply perm_swap.
  - symmetry. apply (Permutation_app_comm [n1; n2] [n3]).
  - by rewrite lookup_empty in Hp.
Qed.

(** What the run comes to when node 3 has won, when node 1 has committed its
    command, and when node 1 has then written to node 3. *)
Lemma demo_first : (view n3 <$> play [] (take 9 demo_moves) demo_cluster) = Some (Some (Leader, 1, [])).
Proof. vm_compute. reflexivity. Qed.

Lemma demo_second :
  ((fun c => (view n1 c, view n3 c)) <$> play [] demo_moves demo_cluster) =
  Some (Some (Leader, 2, [mkLogEntry 1 2 noop; mkLogEntry 2 2 (demo_put "2")]), Some (Leader, 1, [])).
Proof. vm_compute. reflexivity. Qed.

Lemma demo_third :
  ((fun c => (view n1 c, view n3 c)) <$> play [] (demo_moves ++ replicate n1 n3 true) demo_cluster) =
  Some (Some (Leader, 2, [mkLogEntry 1 2 noop; mkLogEntry 2 2 (demo_put "2")]),
        Some (Follower, 2, [mkLogEntry 1 1 noop; mkLogEntry 2 1 (demo_put "1")])).
Proof. vm_compute. reflexivity. Qed.

Lemma view_up id c r t m : view id c = Some (r, t, m) ->
  exists n, cl_processes c !! id = Some (Up n) /\ role_ n = r /\ term_ n = t /\ state_machine_ n = m.
Proof. unfold view. destruct (cl_processes c !! id) as [[n|]|]; [|done..]. intros [= <- <- <-]. by exists n. Qed.

Lemma view_leads id c t m : view id c = Some (Leader, t, m) -> leads c id t.
Proof. intros (n & ? & ? & ? & _)%view_up. by exists n. Qed.

Lemma play_app {S M} `{BallotLaws S} `{StateMachine M} (machine : M) l1 l2 (c : Cluster S M) :
  play machine (l1 ++ l2) c = (play machine l1 c ≫= play machine l2).
Proof. revert c. induction l1 as [|m l1 IH]; intros c; [done|]. simpl. by destruct (move machine m c) as [c1|]; [apply IH|]. Qed.

Lemma election_safety_witness :
  exists c1 c2, steps demo_cluster c1 /\ steps c1 c2 /\ leads c1 n3 1 /\ leads c2 n1 2 /\ leads c2 n3 1 /\ ~ leads c2 n2 1.
Proof.
  pose proof demo_first as H1. pose proof demo_second as H2.
  rewrite <- (take_drop 9 demo_moves), play_app in H2.
  destruct (play [] (take 9 demo_moves) demo_cluster) as [c1|] eqn:E1; [|discriminate]. change (Some (view n3 c1) = Some (Some (Leader, 1, []))) in H1.
  change (((fun c => (view n1 c, view n3 c)) <$> play [] (drop 9 demo_moves) c1) =
          Some (Some (Leader, 2, [mkLogEntry 1 2 noop; mkLogEntry 2 2 (demo_put "2")]), Some (Leader, 1, []))) in H2.
  destruct (play [] (drop 9 demo_moves) c1) as [c2|] eqn:E2; [|discriminate]. injection H1 as H1. injection H2 as H2 H3.
  apply play_steps in E1, E2. apply view_leads in H1, H2, H3. exists c1, c2. split_and!; [done..|].
  intros H4.
  assert (Heq : n3 = n2); [|discriminate].
  apply (election_safety [n1; n2; n3] demo_cluster c1 c2 n3 n2 1); [|vm_compute; discriminate|apply demo_initial|done..].
  apply (bool_decide_unpack (NoDup [n1; n2; n3])). vm_compute. exact I.
Defined.

(** C30: applied entries can differ.  A node that accepts a request whose
    previous entry it has advances its commit index to the smaller of the
    leader's and of the index of its own last entry, also when that entry
    comes from an earlier leader and was not in the request.  There are three
    nodes started on empty disks, and a run without crashes or failed system
    calls, after which the leader and a follower have both applied an entry
    with index 2 to their state machines, with different commands. *)
Theorem state_machine_safety_fails :
  initial [n1; n2; n3] demo_cluster /\
  exists c leader follower, steps demo_cluster c /\
    cl_processes c !! n1 = Some (Up leader) /\ role_ leader = Leader /\
    cl_processes c !! n3 = Some (Up follower) /\ role_ follower = Follower /\ term_ follower = term_ leader /\
    mkLogEntry 2 2 (demo_put "2") ∈ state_machine_ leader /\
    mkLogEntry 2 1 (demo_put "1") ∈ state_machine_ follower.
Proof.
  split; [apply demo_initial|]. pose proof demo_third as H3.
  destruct (play [] (demo_moves ++ replicate n1 n3 true) demo_cluster) as [c|] eqn:E; [|discriminate].
  apply play_steps in E.
  change (Some (view n1 c, view n3 c) =
     Some (Some (Leader, 2, [mkLogEntry 1 2 noop; mkLogEntry 2 2 (demo_put "2")]),
        Some (Follower, 2, [mkLogEntry 1 1 noop; mkLogEntry 2 1 (demo_put "1")]))) in H3.
  injection H3 as (x & Px & Rx & Tx & Mx)%view_up (y & Py & Ry & Ty & My)%view_up.
  exists c, x, y. rewrite Tx, Ty, Mx, My. split_and!; [done..| |]; by right; left.
Qed.
