(* ===== verification/RaftLoops.v ===== *)
(** * The member functions of a Raft node

    The functions of src/raft/node.cpp that take and release [mutex_] several
    times and call other nodes in between: [replicate_peer], [replicate_all],
    [begin_election], [submit], [confirm_leadership] and the ticker.  Each is a
    program whose instructions are sections of [mutex_] and calls of the
    transport.  Between two instructions, and during a call, other threads and
    other nodes make steps of [RaftCluster]; a program itself makes no others. *)

From S2P Require Import Prelude FileSystem Store RaftTypes RaftStorage RaftNode RaftElection RaftCluster RaftSafety.

(** ** Programs *)

Section programs.
Context {S M : Type} `{Storage S} `{StateMachine M}.
Abbreviation Node := (RaftNode S M).

(** [Campaigning] holds [campaign_mutex_] for the length of its body; [Note]
    keeps the local variables of [begin_election] where [RaftCluster] has them,
    and [Announce] puts the request for votes, which is the same for all peers,
    on its way; a section that throws goes on with its handler. *)
Inductive prog (A : Type) : Type :=
| Ret (a : A)
| Raise (e : exn)
| Locked {B : Type} (code : stm Node B) (k : B -> prog A) (thrown : exn -> prog A)
| Campaigning {B : Type} (body : prog B) (k : B -> prog A)
| Note (ca : option Campaign) (k : prog A)
| Announce (request : RequestVoteRequest) (k : prog A)
| AskVote (peer : Peer) (request : RequestVoteRequest) (k : option RequestVoteResponse -> prog A)
| SendAppend (peer : Peer) (request : AppendEntriesRequest) (k : option AppendEntriesResponse -> prog A)
| SendInstall (peer : Peer) (request : InstallSnapshotRequest) (k : option InstallSnapshotResponse -> prog A).
#[global] Arguments Ret {A}.
#[global] Arguments Raise {A}.
#[global] Arguments Locked {A B}.
#[global] Arguments Campaigning {A B}.
#[global] Arguments Note {A}.
#[global] Arguments Announce {A}.
#[global] Arguments AskVote {A}.
#[global] Arguments SendAppend {A}.
#[global] Arguments SendInstall {A}.

Fixpoint bind {A B} (p : prog A) (f : A -> prog B) : prog B :=
  match p with
  | Ret a => f a
  | Raise e => Raise e
  | Locked code k thrown => Locked code (fun b => bind (k b) f) (fun e => bind (thrown e) f)
  | Campaigning body k => Campaigning body (fun b => bind (k b) f)
  | Note ca k => Note ca (bind k f)
  | Announce request k => Announce request (bind k f)
  | AskVote peer request k => AskVote peer request (fun x => bind (k x) f)
  | SendAppend peer request k => SendAppend peer request (fun x => bind (k x) f)
  | SendInstall peer request k => SendInstall peer request (fun x => bind (k x) f)
  end.

(** A section of the function, whose exceptions leave it. *)
Definition locked {A} (code : stm Node A) : prog A := Locked code Ret Raise.

(** *** Replication *)

Definition kReplicationAttempts : nat := 256.

Fixpoint replicate_attempts (attempts : nat) (peer : Peer) (heartbeat_only : bool) : prog bool :=
  match attempts with
  | O => Ret false
  | Datatypes.S attempts =>
      bind (locked (prepare_replication peer heartbeat_only)) (fun prepared =>
        match prepared with
        | NotTheLeader => Ret false
        | TryAgain => replicate_attempts attempts peer heartbeat_only
        | SendSnapshot request =>
            SendInstall peer request (fun response => locked (on_snapshot_response peer (is_term request) response))
        | SendEntries request =>
            SendAppend peer request (fun response =>
              bind (locked (on_append_response peer (ae_term request) response)) (fun answer =>
                match answer with
                | Some replicated => Ret replicated
                | None => replicate_attempts attempts peer heartbeat_only
                end))
        end)
  end.

Definition replicate_peer (peer : Peer) (heartbeat_only : bool) : prog bool :=
  replicate_attempts kReplicationAttempts peer heartbeat_only.

(** The number of nodes that have it, this one included. *)
Fixpoint replicate_to (peers : list Peer) (heartbeat_only : bool) (successful_nodes : Z) : prog Z :=
  match peers with
  | [] => Ret successful_nodes
  | peer :: rest =>
      bind (replicate_peer peer heartbeat_only) (fun replicated =>
        replicate_to rest heartbeat_only (if replicated : bool then u64 (successful_nodes + 1) else successful_nodes))
  end.

Definition replicate_all (heartbeat_only : bool) : prog bool :=
  bind (locked (n ← sget; mret (start_replication n, options_ n, quorum_size n))) (fun '(leads, options, quorum) =>
    match leads with
    | None => Ret false
    | Some request_term =>
        bind (replicate_to (no_peers options) heartbeat_only 1) (fun successful_nodes =>
          bind (locked (finish_replication request_term)) (fun '(current_leader, commit_advanced) =>
            bind (if commit_advanced : bool then bind (replicate_to (no_peers options) true 0) (fun _ => Ret tt) else Ret tt) (fun _ =>
              Ret (current_leader && (quorum <=? successful_nodes)))))
    end).

(** *** Elections *)

(** The end of a campaign drops its local variables. *)
Definition campaign_section {A} (code : stm Node A) : prog A := Locked code Ret (fun e => Note None (Raise e)).

Fixpoint ask_peers (request : RequestVoteRequest) (votes quorum : Z) (peers : list Peer) : prog unit :=
  match peers with
  | [] =>
      bind (campaign_section (finish_election (rv_term request) votes)) (fun won =>
        Note None (if (won : bool) && (1 <? quorum) then bind (replicate_all false) (fun _ => Ret tt) else Ret tt))
  | peer :: rest =>
      bind (locked (count VoteRequestsSent)) (fun _ =>
        AskVote peer request (fun response =>
          match response with
          | None => Note (Some (mkCampaign request votes rest)) (ask_peers request votes quorum rest)
          | Some x =>
              bind (campaign_section (on_vote_response (rv_term request) votes x)) (fun answer =>
                match answer with
                | None => Note None (Ret tt)
                | Some votes' => Note (Some (mkCampaign request votes' rest)) (ask_peers request votes' quorum rest)
                end)
          end))
  end.

Definition begin_election : prog unit :=
  Campaigning
    (bind (locked (n ← sget; r ← start_election; mret (r, no_peers (options_ n), quorum_size n))) (fun '(r, peers, quorum) =>
       match r with
       | None => Ret tt
       | Some request => Announce request (Note (Some (mkCampaign request 1 peers)) (ask_peers request 1 quorum peers))
       end)) Ret.

Definition trigger_election : prog unit := begin_election.

Definition trigger_replication : prog unit := bind (replicate_all false) (fun _ => Ret tt).

(** *** Clients *)

(** [while (now < deadline)]: the clock is read before the deadline [turns]
    times. *)
Fixpoint submit_rounds (turns : nat) (entry : LogEntry) : prog SubmitResult :=
  match turns with
  | O => locked (n ← sget; mret (submit_timeout entry n))
  | Datatypes.S turns =>
      bind (replicate_all false) (fun _ =>
        bind (locked (n ← sget; mret (submit_check entry n))) (fun answer =>
          match answer with
          | Some result => Ret result
          | None => submit_rounds turns entry
          end))
  end.

Definition submit (turns : nat) (command : Command) : prog SubmitResult :=
  bind (locked (submit_append command)) (fun r =>
    match r with
    | inl result => Ret result
    | inr entry => submit_rounds turns entry
    end).

Fixpoint confirm_leadership (turns : nat) : prog bool :=
  match turns with
  | O => Ret false
  | Datatypes.S turns =>
      bind (replicate_all false) (fun contacted_quorum =>
        bind (locked (n ← sget; mret (confirm_check contacted_quorum n))) (fun answer =>
          match answer with
          | Some result => Ret result
          | None => confirm_leadership turns
          end))
  end.

(** *** The ticker *)

(** A turn of [ticker_loop]; [due] says that the deadline of the node's role
    has passed: the one for the next heartbeat, or for the next election. *)
Definition ticker_turn (due : bool) : prog unit :=
  bind (locked (n ← sget; mret (is_leader n))) (fun leads =>
    if due then if leads : bool then bind (replicate_all true) (fun _ => Ret tt) else begin_election else Ret tt).

(** The turns until a stop is requested. *)
Fixpoint ticker_loop (turns : list bool) : prog unit :=
  match turns with
  | [] => Ret tt
  | due :: turns => bind (ticker_turn due) (fun _ => ticker_loop turns)
  end.
End programs.
Arguments prog S M A : clear implicits.

(** ** Runs *)

#[export] Instance Peer_eq_dec : EqDecision Peer.
Proof. solve_decision. Defined.
#[export] Instance Campaign_eq_dec : EqDecision Campaign.
Proof. solve_decision. Defined.

Section runs.
Context {S M : Type} `{BallotLaws S} `{StateMachine M}.
Context (id : NodeId).
Abbreviation Net := (Cluster S M).

Definition alive (c : Net) : Prop := exists n, cl_processes c !! id = Some (Up n).

(** A step of another thread or node: the node runs on, and no other thread
    campaigns while this one holds [campaign_mutex_]. *)
Definition elsewhere (mine : bool) (c c' : Net) : Prop :=
  step c c' /\ alive c' /\ (mine = true -> cl_campaigns c' !! id = cl_campaigns c !! id).

(** [p] runs from [c] to [c'] and ends with [r]; [mine] says that the thread
    holds [campaign_mutex_].  As in [RaftCluster], the term counter has not run
    out. *)
Fixpoint runs {A : Type} (mine : bool) (p : prog S M A) (c : Net) (r : result A) (c' : Net) : Prop :=
  match p with
  | Ret a => r = Ok a /\ c' = c
  | Raise e => r = Throw e /\ c' = c
  | Locked code k thrown =>
      exists c1 n, rtc (elsewhere mine) c c1 /\ cl_processes c1 !! id = Some (Up n) /\ term_ n < u64_max /\
        match code n with
        | (Ok b, n') => runs mine (k b) (set_process id (Up n') c1) r c'
        | (Throw e, n') => runs mine (thrown e) (set_process id (Up n') c1) r c'
        end
  | Campaigning body k =>
      exists c1 r1 c2, rtc (elsewhere mine) c c1 /\ cl_campaigns c1 !! id = None /\ runs true body c1 r1 c2 /\
        match r1 with Ok b => runs mine (k b) c2 r c' | Throw e => r = Throw e /\ c' = c2 end
  | Note ca k => runs mine k (set_campaign id ca c) r c'
  | Announce request k => runs mine k (post_vote_request request c) r c'
  | AskVote peer request k =>
      exists c1 response, rtc (elsewhere mine) c c1 /\
        match response with Some x => (p_id peer, request, x) ∈ cl_vote_replies c1 | None => True end /\
        runs mine (k response) c1 r c'
  | SendAppend peer request k =>
      exists c1 response, rtc (elsewhere mine) (post_append_request request c) c1 /\
        match response with Some x => (p_id peer, request, x) ∈ cl_append_replies c1 /\ wide (ar_term x) = true | None => True end /\
        runs mine (k response) c1 r c'
  | SendInstall peer request k =>
      exists c1 response, rtc (elsewhere mine) (post_snapshot_request request c) c1 /\
        match response with Some x => (p_id peer, request, x) ∈ cl_snapshot_replies c1 /\ wide (ir_term x) = true | None => True end /\
        runs mine (k response) c1 r c'
  end.

(** *** Runs computed

    The steps of others before an instruction, and whether a call is
    answered. *)
Record Event := mkEvent {
  ev_moves : list (Move S M);
  ev_answered : bool
}.

Definition undisturbed (mine : bool) (c c' : Net) : bool :=
  match cl_processes c' !! id with Some (Up _) => true | _ => false end &&
  (negb mine || bool_decide (cl_campaigns c' !! id = cl_campaigns c !! id)).

Fixpoint wander (machine : M) (mine : bool) (moves : list (Move S M)) (c : Net) : option Net :=
  match moves with
  | [] => Some c
  | m :: rest => c1 ← move machine m c; if undisturbed mine c c1 then wander machine mine rest c1 else None
  end.

Definition reply_of {Q X} `{EqDecision Q} (peer : NodeId) (request : Q) (replies : list (NodeId * Q * X)) : option X :=
  snd <$> find (fun x => bool_decide (x.1 = (peer, request))) replies.

(** The run that [es] describes. *)
Fixpoint drive {A : Type} (machine : M) (mine : bool) (p : prog S M A) (es : list Event) (c : Net) : option (result A * Net * list Event) :=
  let next := match es with [] => mkEvent [] false | e :: _ => e end in
  let later := tail es in
  match p with
  | Ret a => Some (Ok a, c, es)
  | Raise e => Some (Throw e, c, es)
  | Locked code k thrown =>
      c1 ← wander machine mine (ev_moves next) c;
      match cl_processes c1 !! id with
      | Some (Up n) =>
          if term_ n <? u64_max then
            match code n with
            | (Ok b, n') => drive machine mine (k b) later (set_process id (Up n') c1)
            | (Throw e, n') => drive machine mine (thrown e) later (set_process id (Up n') c1)
            end
          else None
      | _ => None
      end
  | Campaigning body k =>
      c1 ← wander machine mine (ev_moves next) c;
      match cl_campaigns c1 !! id with
      | None =>
          match drive machine true body later c1 with
          | Some (Ok b, c2, es') => drive machine mine (k b) es' c2
          | Some (Throw e, c2, es') => Some (Throw e, c2, es')
          | None => None
          end
      | Some _ => None
      end
  | Note ca k => drive machine mine k es (set_campaign id ca c)
  | Announce request k => drive machine mine k es (post_vote_request request c)
  | AskVote peer request k =>
      c1 ← wander machine mine (ev_moves next) c;
      drive machine mine (k (if ev_answered next then reply_of (p_id peer) request (cl_vote_replies c1) else None)) later c1
  | SendAppend peer request k =>
      c1 ← wander machine mine (ev_moves next) (post_append_request request c);
      let x := if ev_answered next then reply_of (p_id peer) request (cl_append_replies c1) else None in
      if match x with Some x => wide (ar_term x) | None => true end then drive machine mine (k x) later c1 else None
  | SendInstall peer request k =>
      c1 ← wander machine mine (ev_moves next) (post_snapshot_request request c);
      let x := if ev_answered next then reply_of (p_id peer) request (cl_snapshot_replies c1) else None in
      if match x with Some x => wide (ir_term x) | None => true end then drive machine mine (k x) later c1 else None
  end.

Lemma wander_runs machine mine moves c c' : wander machine mine moves c = Some c' -> rtc (elsewhere mine) c c'.
Proof.
  revert c. induction moves as [|m moves IH]; intros c E; cbn [wander] in E; [by injection E as <-|].
  destruct (move machine m c) as [c1|] eqn:E1; [|done]. cbn in E. destruct (undisturbed mine c c1) eqn:Eu; [|done].
  apply andb_true_iff in Eu as [Ea Ec]. eapply rtc_l; [|by apply IH]. split_and!.
  - destruct m as [i|choose]; cbn in E1; [by eapply step_boot|]. destruct (choose c) as [a|]; [|done]. by eapply step_perform.
  - unfold alive. destruct (cl_processes c1 !! id) as [[n|]|]; [by exists n|done..].
  - intros ->. cbn in Ec. by apply bool_decide_eq_true in Ec.
Qed.

Lemma reply_of_in {Q X} `{EqDecision Q} (peer : NodeId) (request : Q) (replies : list (NodeId * Q * X)) x :
  reply_of peer request replies = Some x -> (peer, request, x) ∈ replies.
Proof.
  unfold reply_of. destruct (find _ replies) as [[[i q] y]|] eqn:E; [|done]. intros [= <-]. apply find_some in E as [Hin Hb].
  apply bool_decide_eq_true in Hb. cbn in Hb. injection Hb as <- <-. by apply list_elem_of_In.
Qed.

Lemma drive_runs {A} machine mine (p : prog S M A) es c r c' es' :
  drive machine mine p es c = Some (r, c', es') -> runs mine p c r c'.
Proof.
  revert mine es c r c' es'. induction p as [A a|A e|A B code k IHk thrown IHt|A B body IHb k IH|A ca k IH|A q k IH|A peer q k IH|A peer q k IH|A peer q k IH];
    intros mine es c r c' es' E; cbn [drive runs] in *; try (destruct (wander _ _ _ _) as [c1|] eqn:Ew; [|done]; apply wander_runs in Ew; cbn in E).
  - by injection E as <- <- _.
  - by injection E as <- <- _.
  - destruct (cl_processes c1 !! id) as [[n|]|] eqn:En; [|done..]. destruct (term_ n <? u64_max) eqn:Et; [|done]. zbool.
    exists c1, n. split_and!; [done..|]. destruct (code n) as [[b|e] n']; eauto.
  - destruct (cl_campaigns c1 !! id) eqn:Ec; [done|]. destruct (drive _ _ body _ _) as [[[r1 c2] es1]|] eqn:Eb; [|done]. apply IHb in Eb.
    exists c1, r1, c2. split_and!; [done..|]. destruct r1 as [b|e]; [by eapply IH|by injection E as <- <- _].
  - by eapply IH.
  - by eapply IH.
  - eexists c1, _. split_and!; [done| |by eapply IH]. destruct (ev_answered _); [|done].
    destruct (reply_of _ _ _) as [x|] eqn:Ex; [by apply reply_of_in|done].
  - destruct (if ev_answered _ then _ else _) as [x|] eqn:Ex.
    + destruct (wide _) eqn:Ed; [|done]. exists c1, (Some x). split_and!; [done| |done|by eapply IH].
      destruct (ev_answered _); [by apply reply_of_in|done].
    + exists c1, None. split_and!; [done..|by eapply IH].
  - destruct (if ev_answered _ then _ else _) as [x|] eqn:Ex.
    + destruct (wide _) eqn:Ed; [|done]. exists c1, (Some x). split_and!; [done| |done|by eapply IH].
      destruct (ev_answered _); [by apply reply_of_in|done].
    + exists c1, None. split_and!; [done..|by eapply IH].
Qed.
End runs.

(** ** Lemmas *)

#[local] Opaque kReplicationAttempts.

Section lemmas.
Context {S M : Type} `{BallotLaws S} `{StateMachine M}.
Context (members : list NodeId) (Hmembers : NoDup members) (Hsize : zlen members <= u64_max).
Context (id : NodeId).
Abbreviation Net := (Cluster S M).
Abbreviation Node := (RaftNode S M).

Definition cluster_ok (c : Net) : Prop := exists V L, cluster_inv members V L c.

(** Steps of the cluster while the node runs. *)
Definition onward : Net -> Net -> Prop := rtc (fun c c' => step c c' /\ alive id c').

Lemma onward_steps c c' : onward c c' -> steps c c'.
Proof. induction 1 as [c|c c1 c' [Hs _] _ IH]; [done|]. by eapply rtc_l. Qed.

Lemma ok_steps c c' : cluster_ok c -> steps c c' -> cluster_ok c'.
Proof. intros (V & L & Hi) Hs. destruct (inv_steps members Hmembers Hsize _ _ _ _ Hi Hs) as (V' & L' & _ & _ & Hi'). by exists V', L'. Qed.

Lemma ok_onward c c' : cluster_ok c -> onward c c' -> cluster_ok c'.
Proof. intros Hok Hs%onward_steps. by eapply ok_steps. Qed.

Lemma elsewhere_onward mine c c' : rtc (elsewhere id mine) c c' -> onward c c'.
Proof. induction 1 as [c|c c1 c' (Hs & Ha & _) _ IH]; [done|]. by eapply rtc_l. Qed.

Lemma elsewhere_campaign c c' : rtc (elsewhere id true) c c' -> cl_campaigns c' !! id = cl_campaigns c !! id.
Proof. induction 1 as [c|c c1 c' (_ & _ & Hc) _ IH]; [done|]. by rewrite IH, Hc. Qed.

Lemma onward_alive c c' : alive id c -> onward c c' -> alive id c'.
Proof. intros Ha Hs. induction Hs as [c|c c1 c' [_ Ha1] _ IH]; auto. Qed.

(** A step of the cluster that leaves the node running. *)
Lemma onward_step c c' n : step c c' -> cl_processes c' !! id = Some (Up n) -> onward c c'.
Proof. intros Hs Hn. apply rtc_once. split; [done|by exists n]. Qed.

Lemma runs_bind {A B} mine (p : prog S M A) (f : A -> prog S M B) c r c' :
  runs id mine (bind p f) c r c' ->
  exists r1 c1, runs id mine p c r1 c1 /\ match r1 with Ok a => runs id mine (f a) c1 r c' | Throw e => r = Throw e /\ c' = c1 end.
Proof.
  revert B f c r c'. induction p as [A a|A e|A B' code k IHk thrown IHt|A B' body _ k IH|A ca k IH|A q k IH|A peer q k IH|A peer q k IH|A peer q k IH]; intros B f c r c' Hr; cbn [bind runs] in *.
  - by exists (Ok a), c.
  - destruct Hr as [-> ->]. by exists (Throw e), c.
  - destruct Hr as (c1 & n & H1' & H2' & H3' & Hr). destruct (code n) as [[b|e] n'] eqn:E.
    + apply IHk in Hr as (r1 & c2 & Hr1 & Hr2). exists r1, c2. split; [|done]. exists c1, n. by rewrite E.
    + apply IHt in Hr as (r1 & c2 & Hr1 & Hr2). exists r1, c2. split; [|done]. exists c1, n. by rewrite E.
  - destruct Hr as (c1 & r1 & c2 & H1' & H2' & H3' & Hr). destruct r1 as [b|e].
    + apply IH in Hr as (r2 & c3 & Hr2 & Hr3). exists r2, c3. split; [|done]. by exists c1, (Ok b), c2.
    + destruct Hr as [-> ->]. exists (Throw e), c2. split; [|done]. by exists c1, (Throw e), c2.
  - by apply IH.
  - by apply IH.
  - destruct Hr as (c1 & x & H1' & H2' & Hr). apply IH in Hr as (r1 & c2 & Hr1 & Hr2). exists r1, c2. split; [|done]. by exists c1, x.
  - destruct Hr as (c1 & x & H1' & H2' & Hr). apply IH in Hr as (r1 & c2 & Hr1 & Hr2). exists r1, c2. split; [|done]. by exists c1, x.
  - destruct Hr as (c1 & x & H1' & H2' & Hr). apply IH in Hr as (r1 & c2 & Hr1 & Hr2). exists r1, c2. split; [|done]. by exists c1, x.
Qed.

Lemma runs_locked_inv {A} mine (code : stm Node A) c r c' :
  runs id mine (locked code) c r c' ->
  exists c1 n n', rtc (elsewhere id mine) c c1 /\ cl_processes c1 !! id = Some (Up n) /\ code n = (r, n') /\ c' = set_process id (Up n') c1 /\
    term_ n < u64_max.
Proof.
  cbn [locked runs]. intros (c1 & n & H1' & H2' & H3' & Hr). destruct (code n) as [[b|e] n'] eqn:E; destruct Hr as [-> ->]; by exists c1, n, n'.
Qed.

Lemma set_process_same c (n : Node) : cl_processes c !! id = Some (Up n) -> set_process id (Up n) c = c.
Proof. intros Hn. unfold set_process. rewrite insert_id by done. by destruct c. Qed.

Lemma runs_read {A} mine (f : Node -> A) c r c' :
  runs id mine (locked (n ← sget; mret (f n))) c r c' ->
  exists n, r = Ok (f n) /\ rtc (elsewhere id mine) c c' /\ cl_processes c' !! id = Some (Up n).
Proof.
  intros (c1 & n & n' & H1' & H2' & E & -> & _)%runs_locked_inv. unfold mbind, stm_bind, sget, mret, stm_ret in E. injection E as <- <-.
  exists n. by rewrite set_process_same.
Qed.

(** A section that is an action of the cluster, and nothing else happens. *)
Lemma onward_section {A} (a : Action) (code : stm Node A) c n r n' :
  perform a c = section id code (fun _ c' => c') c -> cl_processes c !! id = Some (Up n) -> code n = (r, n') ->
  onward c (set_process id (Up n') c).
Proof.
  intros Ha Hn E. eapply onward_step; [|apply lookup_insert_eq]. apply (step_perform a). rewrite Ha. unfold section. by rewrite Hn, E.
Qed.

(** *** Messages stay *)

Record grows (c c' : Net) : Prop := {
  gr_vote_replies : cl_vote_replies c ⊆ cl_vote_replies c';
  gr_append_requests : cl_append_requests c ⊆ cl_append_requests c';
  gr_append_replies : cl_append_replies c ⊆ cl_append_replies c';
  gr_snapshot_requests : cl_snapshot_requests c ⊆ cl_snapshot_requests c';
  gr_snapshot_replies : cl_snapshot_replies c ⊆ cl_snapshot_replies c'
}.

Lemma section_grows {A} i (code : stm Node A) k c c' :
  (forall r x, grows x (k r x)) -> section i code k c = Some c' -> grows c c'.
Proof.
  intros Hk Hs. unfold section in Hs. destruct (cl_processes c !! i) as [[n|]|]; [|done..]. destruct (code n) as [r n'].
  injection Hs as <-. destruct (Hk r (set_process i (Up n') c)). by split.
Qed.

Lemma step_grows c c' : step c c' -> grows c c'.
Proof.
  assert (Hr : forall x, grows x x) by (intros x; by split).
  intros [a c0 c1 Hp|i m c0 c1 Hb|i n s' c0 Hn Hx|i o s s' c0 Hn Hx].
  - destruct a; cbn [perform] in Hp; repeat match goal with
    | Hp : (match ?x with _ => _ end) = Some _ |- _ => destruct x; try done
    | Hp : (if ?x then _ else _) = Some _ |- _ => destruct x; try done
    end; (eapply section_grows; [|exact Hp]); intros r x; cbv beta; repeat case_match; try apply Hr; (split; cbn; try apply subset_cons; try by set_solver).
  - unfold boot in Hb. destruct (cl_processes c0 !! i) as [[|o s]|]; [done| |done]. destruct (new_node o s m) as [[[n|e] s'] m']; by injection Hb as <-.
  - by split.
  - by split.
Qed.

Lemma onward_grows c c' : onward c c' -> grows c c'.
Proof.
  induction 1 as [c|c c1 c' [Hs _] _ [I1 I2 I3 I4 I5]]; [split; done|]. destruct (step_grows _ _ Hs) as [S1 S2 S3 S4 S5]. split; by etrans.
Qed.

(** *** The term only grows *)

Definition node_term (c : Net) : Z := match cl_processes c !! id with Some (Up n) => term_ n | _ => 0 end.

Lemma node_term_up c (n : Node) : cl_processes c !! id = Some (Up n) -> node_term c = term_ n.
Proof. unfold node_term. by intros ->. Qed.

Lemma ballot_ok_in c i (n : Node) : cluster_ok c -> cl_processes c !! i = Some (Up n) -> ballot_ok n.
Proof. intros (V & L & Hi) Hn. by destruct (po_node _ _ _ _ _ (ci_process _ _ _ _ Hi _ _ Hn) n eq_refl) as (Hb & _). Qed.

Lemma ballot_le_term (n n' : Node) : ballot_le (ballot n) (ballot n') -> term_ n <= term_ n'.
Proof. unfold ballot_le, ballot. cbn. lia. Qed.

Lemma section_term {A} i (code : stm Node A) k c c' :
  (forall r x, cl_processes (k r x) = cl_processes x) ->
  (forall n r n', cl_processes c !! i = Some (Up n) -> code n = (r, n') -> term_ n <= term_ n') ->
  section i code k c = Some c' -> node_term c <= node_term c'.
Proof.
  intros Hk Hc Hs. unfold section in Hs. destruct (cl_processes c !! i) as [[n|]|] eqn:En; [|done..]. destruct (code n) as [r n'] eqn:E.
  injection Hs as <-. unfold node_term. rewrite Hk. cbn. destruct (decide (i = id)) as [<-|Hne].
  - rewrite lookup_insert_eq, En. by eapply Hc.
  - by rewrite lookup_insert_ne by done.
Qed.

Lemma ballots_term {A} (code : stm Node A) c i :
  cluster_ok c -> ballots code -> forall n r n', cl_processes c !! i = Some (Up n) -> code n = (r, n') -> term_ n <= term_ n'.
Proof. intros Hok Hb n r n' Hn E. apply ballot_le_term, (Hb n r n'); [by eapply ballot_ok_in|done]. Qed.

Lemma finish_election_term t votes (n n' : Node) r : ballot_ok n -> finish_election t votes n = (r, n') -> term_ n <= term_ n'.
Proof.
  intros Hn E. destruct (finish_election_ballot _ _ _ _ _ Hn E) as [->|(_ & _ & _ & n1 & _ & Hs & Hb & _)]; [done|].
  apply ballot_le_term. rewrite <- Hb. apply Hs.
Qed.

Lemma perform_term a c c' : cluster_ok c -> perform a c = Some c' -> node_term c <= node_term c'.
Proof.
  intros Hok Hp. pose proof Hok as (V & L & Hi). destruct a as [i|i q|i|i x|i|i peer hb|i q|i peer q x|i q|i peer q x|i t|i command|i]; cbn [perform] in Hp.
  - destruct (cl_processes c !! i) as [[n|]|] eqn:En; [|done..]. destruct (cl_campaigns c !! i); [done|].
    destruct (term_ n <? u64_max) eqn:Et; [|done]. zbool. eapply section_term; [|intros n1 r n' Hn1 E|exact Hp]; [intros r x; cbv beta; by repeat case_match|].
    rewrite En in Hn1. injection Hn1 as <-. apply ballot_le_term. eapply start_election_ballot; [by eapply ballot_ok_in|lia|done].
  - case_bool_decide as Hq; [|done]. eapply section_term; [|intros n1 r n' Hn1 E|exact Hp]; [intros r x; cbv beta; by repeat case_match|].
    apply ballot_le_term. eapply request_vote; [by eapply ballot_ok_in|by apply (ci_request _ _ _ _ Hi)|done].
  - eapply section_term; [done|eapply ballots_term; [done|apply ballots_count]|exact Hp].
  - destruct (cl_campaigns c !! i) as [[q v [|peer rest]]|]; [done| |done]. destruct (match x with Some _ => _ | None => true end) eqn:Ex; [|done].
    eapply section_term; [|eapply ballots_term; [done|]|exact Hp]; [intros r y; cbv beta; by repeat case_match|]. apply ballots_collect. intros y ->.
    apply bool_decide_eq_true in Ex. exact (proj1 (ci_reply _ _ _ _ Hi _ _ _ Ex)).
  - destruct (cl_campaigns c !! i) as [[q v [|peer rest]]|]; [|done..]. eapply section_term; [|intros n1 r n' Hn1 E|exact Hp]; [done|].
    eapply finish_election_term; [by eapply ballot_ok_in|done].
  - eapply section_term; [|eapply ballots_term; [done|apply ballots_prepare]|exact Hp]. intros r x; cbv beta; by repeat case_match.
  - destruct (bool_decide _ && wide _) eqn:E; [|done]. apply andb_true_iff in E as [_ Hw%wide_u64].
    eapply section_term; [|eapply ballots_term; [done|by apply ballots_append_entries]|exact Hp]. intros r x; cbv beta; by repeat case_match.
  - destruct (_ && _) eqn:E; [|done]. apply andb_true_iff in E as [_ Hw]. eapply section_term; [done|eapply ballots_term; [done|]|exact Hp].
    apply ballots_append_response. intros y ->. apply andb_true_iff in Hw as [_ Hw]. by apply wide_u64.
  - destruct (bool_decide _ && wide _) eqn:E; [|done]. apply andb_true_iff in E as [_ Hw%wide_u64].
    eapply section_term; [|eapply ballots_term; [done|by apply ballots_install_snapshot]|exact Hp]. intros r x; cbv beta; by repeat case_match.
  - destruct (_ && _) eqn:E; [|done]. apply andb_true_iff in E as [_ Hw]. eapply section_term; [done|eapply ballots_term; [done|]|exact Hp].
    apply ballots_snapshot_response. intros y ->. apply andb_true_iff in Hw as [_ Hw]. by apply wide_u64.
  - eapply section_term; [done|eapply ballots_term; [done|apply ballots_finish_replication]|exact Hp].
  - eapply section_term; [done|eapply ballots_term; [done|apply ballots_submit]|exact Hp].
  - eapply section_term; [done|eapply ballots_term; [done|apply ballots_trigger_snapshot]|exact Hp].
Qed.

(** A node that is up stays up in a step only by sections of it. *)
Lemma step_term c c' : cluster_ok c -> step c c' -> alive id c' -> node_term c <= node_term c'.
Proof.
  intros Hok Hs [n' Hn']. assert (Hpos : forall c n, cluster_ok c -> cl_processes c !! id = Some (Up n) -> 0 <= term_ n).
  { intros c0 n Hok0 Hn. apply (ballot_ok_in _ _ _ Hok0) in Hn as [Hu _]. unfold is_u64 in Hu. lia. }
  pose proof (ok_steps _ _ Hok (rtc_once _ _ Hs)) as Hok'. pose proof (Hpos _ _ Hok' Hn') as Hn0.
  destruct Hs as [a c c' Hp|i m c c' Hb|i n s' c Hn Hx|i o s s' c Hn Hx]; [by eapply perform_term|..].
  - unfold node_term at 2. rewrite Hn'. unfold boot in Hb. unfold node_term. destruct (cl_processes c !! i) as [[n0|o s]|] eqn:Ei; [done| |done].
    destruct (decide (i = id)) as [->|Hne]; [by rewrite Ei|]. destruct (new_node o s m) as [[[n|e] s'] m']; injection Hb as <-;
      cbn in Hn'; rewrite lookup_insert_ne in Hn' by done; by rewrite Hn'.
  - cbn in Hn'. unfold node_term. cbn. destruct (decide (i = id)) as [->|Hne]; [by rewrite lookup_insert_eq in Hn'|].
    by rewrite lookup_insert_ne by done.
  - cbn in Hn'. unfold node_term. cbn. destruct (decide (i = id)) as [->|Hne]; [by rewrite lookup_insert_eq in Hn'|].
    by rewrite lookup_insert_ne by done.
Qed.

Lemma onward_term c c' : cluster_ok c -> onward c c' -> node_term c <= node_term c'.
Proof.
  intros Hok Hs. induction Hs as [c|c c1 c' [Hs Ha] _ IH]; [lia|]. pose proof (step_term _ _ Hok Hs Ha).
  pose proof (IH (ok_steps _ _ Hok (rtc_once _ _ Hs))). lia.
Qed.

(** *** Replication *)

(** [peer] has answered a request of this node in term [t] with success. *)
Definition replicated (t : Z) (peer : Peer) (c : Net) : Prop :=
  (exists q x, (p_id peer, q, x) ∈ cl_append_replies c /\ ae_leader_id q = id /\ ae_term q = t /\ ar_success x = true) \/
  (exists q x, (p_id peer, q, x) ∈ cl_snapshot_replies c /\ is_leader_id q = id /\ is_term q = t /\ ir_success x = true).

Lemma replicated_onward t peer c c' : replicated t peer c -> onward c c' -> replicated t peer c'.
Proof. intros [(q & x & Hx)|(q & x & Hx)] [G0 G1 G2 G3 G4]%onward_grows; [left|right]; exists q, x; destruct Hx as [Hx Hrest]; (split; [auto|exact Hrest]). Qed.

(** ... between [c] and [c']. *)
Definition answered (c : Net) (peer : Peer) (c' : Net) : Prop := exists t, node_term c <= t <= node_term c' /\ replicated t peer c'.

Lemma answered_before c0 c peer c' : cluster_ok c0 -> onward c0 c -> answered c peer c' -> answered c0 peer c'.
Proof. intros Hok Hs (t & Ht & Hr). pose proof (onward_term _ _ Hok Hs). exists t. split; [lia|done]. Qed.

Lemma answered_after c peer c' c'' : cluster_ok c' -> answered c peer c' -> onward c' c'' -> answered c peer c''.
Proof. intros Hok (t & Ht & Hr) Hs. pose proof (onward_term _ _ Hok Hs). exists t. split; [lia|by eapply replicated_onward]. Qed.

Lemma request_of_leader peer hb (n n' : Node) p :
  prepare_replication peer hb n = (Ok p, n') ->
  match p with
  | SendSnapshot q => is_leader_id q = no_node_id (options_ n) /\ is_term q = term_ n
  | SendEntries q => ae_leader_id q = no_node_id (options_ n) /\ ae_term q = term_ n
  | _ => True
  end.
Proof.
  assert (He : forall next (m m' : Node) q, options_ m = options_ n -> term_ m = term_ n -> prepare_entries peer hb next m = (Ok q, m') ->
    match q with SendSnapshot _ => False | SendEntries q => ae_leader_id q = no_node_id (options_ n) /\ ae_term q = term_ n | _ => True end).
  { intros next m m' q Ho Ht Hp. unfold prepare_entries, mbind, stm_bind, sget, smodify, count, mret, stm_ret in Hp.
    destruct (term_at_locked _ m); injection Hp as <- _; [|done]. cbn. by rewrite Ho. }
  unfold prepare_replication, mbind, stm_bind, sget, smodify, mret, stm_ret. intros Hp. destruct (negb _); [by injection Hp as <- _|].
  match goal with H : context [snapshot_ ?m] |- _ => destruct (snapshot_ m) as [s|] end.
  - destruct (_ <=? _); [by injection Hp as <- _|]. apply He in Hp; [|done..]. by destruct p.
  - apply He in Hp; [|done..]. by destruct p.
Qed.

(** The answer section that reports success had a success to report. *)
Lemma append_answer_true peer t response (n n' : Node) :
  on_append_response peer t response n = (Ok (Some true), n') -> exists x, response = Some x /\ ar_success x = true /\ term_ n' = t.
Proof.
  unfold on_append_response, count, mbind, stm_bind, sget, smodify, mret, stm_ret. destruct response as [x|]; [|done].
  intros Hp. exists x. split; [done|]. destruct (_ <? _); [by destruct (become_follower_locked _ _ _) as [[] ?]|].
  destruct (_ || _) eqn:Er; [done|]. apply orb_false_iff in Er as [_ Et%negb_false_iff]. zbool. destruct (ar_success x); [|done].
  by injection Hp as <-.
Qed.

Lemma snapshot_answer_true peer t response (n n' : Node) :
  on_snapshot_response peer t response n = (Ok true, n') -> exists x, response = Some x /\ ir_success x = true /\ term_ n' = t.
Proof.
  unfold on_snapshot_response, count, mbind, stm_bind, sget, smodify, mret, stm_ret. destruct response as [x|]; [|done].
  intros Hp. exists x. split; [done|]. destruct (_ <? _); [by destruct (become_follower_locked _ _ _) as [[] ?]|].
  destruct (_ || _) eqn:Er; [done|]. apply orb_false_iff in Er as [_ Et%negb_false_iff]. zbool. destruct (ir_success x); [|done].
  by injection Hp as <-.
Qed.

Lemma named c (n : Node) : cluster_ok c -> cl_processes c !! id = Some (Up n) -> configured members id (options_ n).
Proof. intros (V & L & Hi) Hn. exact (po_configured _ _ _ _ _ (ci_process _ _ _ _ Hi _ _ Hn)). Qed.

Lemma answer_append mine peer q response c c' r :
  q ∈ cl_append_requests c -> ae_leader_id q = id ->
  match response with Some x => (p_id peer, q, x) ∈ cl_append_replies c /\ wide (ar_term x) = true | None => True end ->
  runs id mine (locked (on_append_response peer (ae_term q) response)) c r c' ->
  onward c c' /\ (r = Ok (Some true) -> replicated (ae_term q) peer c' /\ node_term c' = ae_term q).
Proof.
  intros Hq Hl Hx (c1 & n & n' & He & Hn & E & -> & _)%runs_locked_inv. pose proof (elsewhere_onward _ _ _ He) as Hs.
  destruct (onward_grows _ _ Hs) as [G0 G1 G2 G3 G4]. assert (Hst : onward c (set_process id (Up n') c1)).
  { etrans; [exact Hs|]. eapply (onward_section (AppendAnswered id peer q response)); [|exact Hn|exact E]. cbn [perform].
    rewrite !bool_decide_true by auto. cbn [andb]. destruct response as [x|]; [|done]. destruct Hx as [Hx ->].
    by rewrite bool_decide_true by auto. }
  split; [done|]. intros ->. apply append_answer_true in E as (x & -> & Hs' & Ht). split.
  - left. exists q, x. split_and!; [|done..]. cbn. apply G2, Hx.
  - by rewrite (node_term_up _ n') by apply lookup_insert_eq.
Qed.

Lemma answer_snapshot mine peer q response c c' r :
  q ∈ cl_snapshot_requests c -> is_leader_id q = id ->
  match response with Some x => (p_id peer, q, x) ∈ cl_snapshot_replies c /\ wide (ir_term x) = true | None => True end ->
  runs id mine (locked (on_snapshot_response peer (is_term q) response)) c r c' ->
  onward c c' /\ (r = Ok true -> replicated (is_term q) peer c' /\ node_term c' = is_term q).
Proof.
  intros Hq Hl Hx (c1 & n & n' & He & Hn & E & -> & _)%runs_locked_inv. pose proof (elsewhere_onward _ _ _ He) as Hs.
  destruct (onward_grows _ _ Hs) as [G0 G1 G2 G3 G4]. assert (Hst : onward c (set_process id (Up n') c1)).
  { etrans; [exact Hs|]. eapply (onward_section (SnapshotAnswered id peer q response)); [|exact Hn|exact E]. cbn [perform].
    rewrite !bool_decide_true by auto. cbn [andb]. destruct response as [x|]; [|done]. destruct Hx as [Hx ->].
    by rewrite bool_decide_true by auto. }
  split; [done|]. intros ->. apply snapshot_answer_true in E as (x & -> & Hs' & Ht). split.
  - right. exists q, x. split_and!; [|done..]. cbn. apply G4, Hx.
  - by rewrite (node_term_up _ n') by apply lookup_insert_eq.
Qed.

(** The section that makes the request, and what is then on its way. *)
Lemma prepare_follow mine peer hb c r c' :
  cluster_ok c -> runs id mine (locked (prepare_replication peer hb)) c r c' ->
  onward c (match r with Ok (SendEntries q) => post_append_request q c' | Ok (SendSnapshot q) => post_snapshot_request q c' | _ => c' end) /\
  match r with
  | Ok (SendSnapshot q) => is_leader_id q = id /\ node_term c <= is_term q
  | Ok (SendEntries q) => ae_leader_id q = id /\ node_term c <= ae_term q
  | _ => True
  end.
Proof.
  intros Hok (c0 & n & n' & He & Hn & E & -> & _)%runs_locked_inv. pose proof (elsewhere_onward _ _ _ He) as Hs0.
  destruct (named _ _ (ok_onward _ _ Hok Hs0) Hn) as [Hname _]. pose proof (onward_term _ _ Hok Hs0) as Ht. rewrite (node_term_up _ _ Hn) in Ht. split.
  - etrans; [exact Hs0|]. eapply (onward_step _ _ n').
    + apply (step_perform (Replicate id peer hb)). cbn [perform]. unfold section. by rewrite Hn, E.
    + destruct r as [[| |q|q]|e]; apply lookup_insert_eq.
  - destruct r as [p|e]; [|done]. apply request_of_leader in E. destruct p; try done; destruct E; split; [congruence|lia|congruence|lia].
Qed.

Lemma replicate_attempts_follow mine attempts peer hb c r c' :
  cluster_ok c -> runs id mine (replicate_attempts attempts peer hb) c r c' -> onward c c' /\ (r = Ok true -> answered c peer c').
Proof.
  revert c r c'. induction attempts as [|attempts IH]; intros c r c' Hok Hr; [by destruct Hr as [-> ->]|].
  cbn [replicate_attempts] in Hr. apply runs_bind in Hr as (r1 & c1 & H1' & Hr). destruct (prepare_follow _ _ _ _ _ _ Hok H1') as [Hp Hq].
  pose proof (ok_onward _ _ Hok Hp) as Hok1. destruct r1 as [[| |q|q]|e].
  - by destruct Hr as [-> ->].
  - destruct (IH _ _ _ Hok1 Hr) as [Hs Hrep]. split; [by etrans|]. intros Hb. by eapply answered_before, Hrep.
  - cbn [runs] in Hr. destruct Hr as (c2 & response & He2%elsewhere_onward & Hx & Hr). destruct Hq as [Hl Ht].
    assert (Hin : q ∈ cl_snapshot_requests c2) by (apply (gr_snapshot_requests _ _ (onward_grows _ _ He2)); by left).
    destruct (answer_snapshot mine peer q response c2 c' r Hin Hl Hx Hr) as [Hs Hrep]. split; [by repeat (etrans; [eassumption|])|].
    intros Hb. destruct (Hrep Hb) as [Hrep' Hn]. exists (is_term q). split; [lia|done].
  - cbn [runs] in Hr. destruct Hr as (c2 & response & He2%elsewhere_onward & Hx & Hr). destruct Hq as [Hl Ht].
    assert (Hin : q ∈ cl_append_requests c2) by (apply (gr_append_requests _ _ (onward_grows _ _ He2)); by left).
    apply runs_bind in Hr as (r3 & c3 & Ha & Hr).
    destruct (answer_append mine peer q response c2 c3 r3 Hin Hl Hx Ha) as [Hs Hrep].
    assert (Hs3 : onward c c3) by by repeat (etrans; [eassumption|]). destruct r3 as [[b|]|e].
    + destruct Hr as [-> ->]. split; [done|]. intros [= ->]. destruct (Hrep eq_refl) as [Hrep' Hn]. exists (ae_term q). split; [lia|done].
    + destruct (IH _ _ _ (ok_onward _ _ Hok Hs3) Hr) as [Hs4 Hrep4]. split; [by etrans|]. intros Hb. by eapply answered_before, Hrep4.
    + by destruct Hr as [-> ->].
  - by destruct Hr as [-> ->].
Qed.

Lemma replicate_peer_follow mine peer hb c r c' :
  cluster_ok c -> runs id mine (replicate_peer peer hb) c r c' -> onward c c' /\ (r = Ok true -> answered c peer c').
Proof. exact (replicate_attempts_follow mine kReplicationAttempts peer hb c r c'). Qed.

Lemma replicate_to_follow mine peers hb n c r c' :
  cluster_ok c -> 0 <= n -> n + zlen peers <= u64_max -> runs id mine (replicate_to peers hb n) c r c' ->
  onward c c' /\ forall m, r = Ok m -> exists ps, sublist ps peers /\ Forall (fun p => answered c p c') ps /\ m = n + zlen ps.
Proof.
  revert n c. induction peers as [|peer rest IH]; intros n c Hok Hn Hb Hr; cbn [replicate_to runs] in Hr.
  { destruct Hr as [-> ->]. split; [done|]. intros m [= <-]. exists []. split_and!; [done|constructor|rewrite zlen_nil; lia]. }
  apply runs_bind in Hr as (r1 & c1 & H1' & Hr). rewrite zlen_cons in Hb. pose proof (zlen_nonneg rest).
  destruct (replicate_peer_follow _ _ _ _ _ _ Hok H1') as [Hs Hrep]. destruct r1 as [b|e]; [|by destruct Hr as [-> ->]].
  pose proof (ok_onward _ _ Hok Hs) as Hok1. assert (Hu : u64 (n + 1) = n + 1) by (apply u64_small; lia). rewrite Hu in Hr.
  destruct (IH (if b then n + 1 else n) _ Hok1 ltac:(destruct b; lia) ltac:(destruct b; lia) Hr) as [Hs1 Hm]. split; [by etrans|].
  intros m Em. destruct (Hm m Em) as (ps & P1 & P2 & P3).
  assert (P2' : Forall (fun p => answered c p c') ps) by (eapply Forall_impl; [exact P2|]; intros p Hp; by eapply answered_before).
  destruct b.
  - exists (peer :: ps). split_and!; [by constructor| |rewrite zlen_cons; lia]. constructor; [|done]. eapply answered_after; [done|by apply Hrep|done].
  - exists ps. split_and!; [by constructor|done|done].
Qed.

(** A majority of the members, this node included, has answered requests of
    this node in term [t] with success. *)
Definition contacted (t : Z) (c : Net) : Prop :=
  exists ps, NoDup (id :: map p_id ps) /\ (forall p, p ∈ ps -> p_id p ∈ members) /\ Forall (fun p => replicated t p c) ps /\
    zlen members < 2 * (1 + zlen ps).

Lemma contacted_intro t c (n : Node) ps :
  configured members id (options_ n) -> sublist ps (no_peers (options_ n)) -> Forall (fun p => replicated t p c) ps ->
  quorum_size n <= 1 + zlen ps -> contacted t c.
Proof.
  intros (_ & _ & Hp) Hs Hf Hq. exists ps. split_and!; [| |done|].
  - assert (Hnd : NoDup (id :: map p_id (no_peers (options_ n)))) by by rewrite Hp.
    assert (Hsub : sublist (id :: map p_id ps) (id :: map p_id (no_peers (options_ n)))) by (constructor; by apply (fmap_sublist p_id)).
    by eapply sublist_NoDup.
  - intros p Hin. rewrite <- Hp. right. apply list_elem_of_In, in_map, list_elem_of_In. by eapply elem_of_sublist.
  - apply Permutation_length in Hp. cbn [length] in Hp. rewrite length_map in Hp. unfold quorum_size in Hq.
    pose proof (Z.div_mod (zlen (no_peers (options_ n)) + 1) 2 ltac:(lia)). pose proof (Z.mod_pos_bound (zlen (no_peers (options_ n)) + 1) 2 ltac:(lia)).
    assert (zlen members = zlen (no_peers (options_ n)) + 1) by (unfold zlen; lia). lia.
Qed.

Lemma contacted_onward t c c' : contacted t c -> onward c c' -> contacted t c'.
Proof.
  intros (ps & H1' & H2' & H3' & H4') Hs. exists ps. split_and!; try done. eapply Forall_impl; [exact H3'|]. intros p Hp. exact (replicated_onward t p c c' Hp Hs).
Qed.

Lemma peers_bound c (n : Node) : cluster_ok c -> cl_processes c !! id = Some (Up n) -> 1 + zlen (no_peers (options_ n)) <= u64_max.
Proof.
  intros Hok Hn. destruct (named _ _ Hok Hn) as (_ & _ & Hp%Permutation_length). cbn [length] in Hp. rewrite length_map in Hp. unfold zlen in *. lia.
Qed.

Lemma finish_current t (n n' : Node) advanced : finish_replication t n = (Ok (true, advanced), n') -> term_ n = t.
Proof.
  unfold finish_replication, mbind, stm_bind, sget, mret, stm_ret. destruct (bool_decide _ && _) eqn:E; [|done].
  intros _. apply andb_true_iff in E as [_ E]. by zbool.
Qed.

(** What [replicate_all] returning [true] means. *)
Definition quorum_answered (c c' : Net) : Prop := exists t, node_term c <= t <= node_term c' /\ contacted t c'.

Lemma replicate_all_follow mine hb c r c' :
  cluster_ok c -> runs id mine (replicate_all hb) c r c' -> onward c c' /\ (r = Ok true -> quorum_answered c c').
Proof.
  intros Hok Hr. unfold replicate_all in Hr. apply runs_bind in Hr as (r1 & c1 & H1' & Hr).
  apply runs_read in H1' as (n & -> & Hs1%elsewhere_onward & Hn). pose proof (ok_onward _ _ Hok Hs1) as Hok1.
  pose proof (peers_bound _ _ Hok1 Hn) as Hb. pose proof (zlen_nonneg (no_peers (options_ n))).
  unfold start_replication in Hr. case_bool_decide; [|by destruct Hr as [-> ->]].
  apply runs_bind in Hr as (r2 & c2 & H2' & Hr).
  destruct (replicate_to_follow mine (no_peers (options_ n)) hb 1 _ _ _ Hok1 ltac:(lia) Hb H2') as [Hs2 Hm]. pose proof (ok_onward _ _ Hok1 Hs2) as Hok2.
  assert (Hs2' : onward c c2) by by etrans. destruct r2 as [m|e]; [|by destruct Hr as [-> ->]].
  apply runs_bind in Hr as (r3 & c3 & H3' & Hr). apply runs_locked_inv in H3' as (c0 & n0 & n' & He3%elsewhere_onward & Hn3 & E3 & -> & _).
  assert (Hs3 : onward c2 (set_process id (Up n') c0)).
  { etrans; [exact He3|]. eapply (onward_section (FinishReplication id (term_ n))); [done|exact Hn3|exact E3]. }
  assert (Hs3' : onward c (set_process id (Up n') c0)) by by etrans. destruct r3 as [[leads advanced]|e]; [|by destruct Hr as [-> ->]].
  apply runs_bind in Hr as (r4 & c4 & H4' & Hr). pose proof (ok_onward _ _ Hok Hs3') as Hok3.
  assert (Hs4 : onward (set_process id (Up n') c0) c4).
  { destruct advanced; [|by destruct H4' as [_ ->]]. apply runs_bind in H4' as (r5 & c5 & H5' & H4').
    destruct (replicate_to_follow mine (no_peers (options_ n)) true 0 _ _ _ Hok3 ltac:(lia) ltac:(lia) H5') as [Hs5 _].
    destruct r5; by destruct H4' as [_ ->]. }
  destruct r4 as [[]|e]; destruct Hr as [-> ->]; (split; [by etrans|]); [|done]. intros [= Hq%andb_true_iff]. destruct Hq as [-> Hq%Z.leb_le].
  apply finish_current in E3. destruct (Hm m eq_refl) as (ps & P1 & P2 & ->).
  pose proof (onward_term _ _ Hok Hs1). pose proof (onward_term _ _ Hok2 He3). pose proof (onward_term _ _ Hok2 Hs3). pose proof (onward_term _ _ Hok3 Hs4).
  pose proof (onward_term _ _ Hok1 Hs2) as Ht12. rewrite (node_term_up _ _ Hn), (node_term_up _ _ Hn3) in *. exists (term_ n). split; [lia|].
  eapply contacted_onward; [|exact Hs4]. eapply contacted_onward; [|exact Hs3].
  eapply contacted_intro; [exact (named _ _ Hok1 Hn)|exact P1| |lia]. eapply Forall_impl; [exact P2|]. intros p (t & Ht & Hrep).
  rewrite (node_term_up _ _ Hn) in Ht. by replace (term_ n) with t by lia.
Qed.

(** *** Elections *)

(** A program that has nothing to do with campaigns. *)
Fixpoint calm {A} (p : prog S M A) : Prop :=
  match p with
  | Ret _ | Raise _ => True
  | Locked _ k thrown => (forall b, calm (k b)) /\ (forall e, calm (thrown e))
  | Campaigning _ _ | Note _ _ => False
  | Announce _ k => calm k
  | AskVote _ _ k => forall x, calm (k x)
  | SendAppend _ _ k => forall x, calm (k x)
  | SendInstall _ _ k => forall x, calm (k x)
  end.

Lemma calm_bind {A B} (p : prog S M A) (f : A -> prog S M B) : calm p -> (forall a, calm (f a)) -> calm (bind p f).
Proof.
  revert B f. induction p as [A a|A e|A B' code k IHk thrown IHt|A B' body _ k IH|A ca k IH|A q k IH|A peer q k IH|A peer q k IH|A peer q k IH];
    intros B f Hp Hf; cbn [bind calm] in *; [apply Hf|done|destruct Hp; split; auto|done|done|auto..].
Qed.

Lemma calm_locked {A} (code : stm Node A) : calm (locked code).
Proof. by split. Qed.

Lemma calm_attempts attempts peer hb : calm (replicate_attempts attempts peer hb).
Proof.
  induction attempts as [|attempts IH]; [done|]. cbn [replicate_attempts]. apply calm_bind; [apply calm_locked|]. intros [| |q|q]; [done|done| |].
  - intros x. apply calm_locked.
  - intros x. apply calm_bind; [apply calm_locked|]. by intros [b|].
Qed.

Lemma calm_replicate_to peers hb m : calm (replicate_to peers hb m).
Proof.
  revert m. induction peers as [|peer rest IH]; intros m; [done|]. cbn [replicate_to]. apply calm_bind; [apply calm_attempts|]. intros b. apply IH.
Qed.

Lemma calm_replicate_all hb : calm (replicate_all hb).
Proof.
  apply calm_bind; [apply calm_locked|]. intros [[[t|] o] q]; [|done]. apply calm_bind; [apply calm_replicate_to|]. intros m.
  apply calm_bind; [apply calm_locked|]. intros [leads advanced]. apply calm_bind; [|done].
  destruct advanced; [|done]. apply calm_bind; [apply calm_replicate_to|done].
Qed.

Lemma runs_calm {A} (p : prog S M A) c r c' : calm p -> runs id true p c r c' -> cl_campaigns c' !! id = cl_campaigns c !! id.
Proof.
  revert c r c'. induction p as [A a|A e|A B' code k IHk thrown IHt|A B' body _ k IH|A ca k IH|A q k IH|A peer q k IH|A peer q k IH|A peer q k IH];
    intros c r c' Hp Hr; cbn [calm runs] in *.
  - by destruct Hr as [_ ->].
  - by destruct Hr as [_ ->].
  - destruct Hr as (c1 & n & <-%elsewhere_campaign & _ & _ & Hr). destruct Hp as [Hk Ht]. destruct (code n) as [[b|e] n']; [by apply IHk in Hr|by apply IHt in Hr].
  - done.
  - done.
  - by apply IH in Hr.
  - destruct Hr as (c1 & x & <-%elsewhere_campaign & _ & Hr). by eapply IH.
  - destruct Hr as (c1 & x & Hc%elsewhere_campaign & _ & Hr). cbn in Hc. rewrite <- Hc. by eapply IH.
  - destruct Hr as (c1 & x & Hc%elsewhere_campaign & _ & Hr). cbn in Hc. rewrite <- Hc. by eapply IH.
Qed.

Lemma campaign_section_inv {A} (code : stm Node A) c r c' :
  runs id true (campaign_section code) c r c' ->
  exists c1 n n', rtc (elsewhere id true) c c1 /\ cl_processes c1 !! id = Some (Up n) /\ code n = (r, n') /\
    c' = match r with Ok _ => set_process id (Up n') c1 | Throw _ => set_campaign id None (set_process id (Up n') c1) end.
Proof.
  cbn [campaign_section runs]. intros (c1 & n & H1' & H2' & H3' & Hr). destruct (code n) as [[b|e] n'] eqn:E; destruct Hr as [-> ->]; by exists c1, n, n'.
Qed.

Lemma no_campaign (c : Net) : cl_campaigns (set_campaign id None c) !! id = None.
Proof. apply lookup_delete_eq. Qed.

(** The campaign is over and its local variables are gone. *)
Abbreviation campaign_over c c' := (onward c c' /\ cl_campaigns c' !! id = None).

Lemma finish_follow request votes quorum c r c' :
  cluster_ok c -> cl_campaigns c !! id = Some (mkCampaign request votes []) ->
  runs id true (ask_peers request votes quorum []) c r c' -> campaign_over c c'.
Proof.
  intros Hok Hc Hr. cbn [ask_peers] in Hr. apply runs_bind in Hr as (r1 & c1 & H1' & Hr).
  apply campaign_section_inv in H1' as (c0 & n & n' & He & Hn & E & ->).
  assert (Hs : onward c (set_campaign id None (set_process id (Up n') c0))).
  { etrans; [by eapply elsewhere_onward|]. eapply (onward_step _ _ n'); [|apply lookup_insert_eq]. apply (step_perform (FinishElection id)). cbn [perform].
    rewrite (elsewhere_campaign _ _ He), Hc. unfold section. by rewrite Hn, E. }
  destruct r1 as [won|e]; [|destruct Hr as [-> ->]; split; [done|apply no_campaign]]. cbn [runs] in Hr.
  destruct (won && (1 <? quorum)); [|destruct Hr as [_ ->]; split; [done|apply no_campaign]].
  apply runs_bind in Hr as (r2 & c2 & H2' & Hr). destruct (replicate_all_follow _ _ _ _ _ (ok_onward _ _ Hok Hs) H2') as [Hs2 _].
  apply runs_calm in H2'; [|apply calm_replicate_all]. rewrite no_campaign in H2'. assert (c' = c2) as -> by (destruct r2; by destruct Hr).
  split; [by etrans|done].
Qed.

Lemma ask_peers_follow peers request votes quorum c r c' :
  cluster_ok c -> cl_campaigns c !! id = Some (mkCampaign request votes peers) ->
  runs id true (ask_peers request votes quorum peers) c r c' -> campaign_over c c'.
Proof.
  revert votes c. induction peers as [|peer rest IH]; intros votes c Hok Hc Hr; [by eapply finish_follow|].
  cbn [ask_peers] in Hr. apply runs_bind in Hr as (r1 & c1 & H1' & Hr). apply runs_locked_inv in H1' as (c0 & n & n' & He & Hn & E & -> & _).
  assert (Hs : onward c (set_process id (Up n') c0)).
  { etrans; [by eapply elsewhere_onward|]. eapply (onward_section (CountVoteRequest id)); [done|exact Hn|exact E]. }
  assert (r1 = Ok tt) as -> by (by injection E). cbn [runs] in Hr. destruct Hr as (c2 & response & He2 & Hx & Hr).
  assert (Hs2 : onward c c2) by (etrans; [exact Hs|by eapply elsewhere_onward]). pose proof (ok_onward _ _ Hok Hs2) as Hok2.
  assert (Hc2 : cl_campaigns c2 !! id = Some (mkCampaign request votes (peer :: rest))).
  { rewrite (elsewhere_campaign _ _ He2). cbn. by rewrite (elsewhere_campaign _ _ He). }
  (* one peer's answer *)
  assert (Hstep : forall r2 n2 n2' c3, onward c2 c3 -> cl_campaigns c3 !! id = cl_campaigns c2 !! id ->
    cl_processes c3 !! id = Some (Up n2) -> collect_vote request votes response n2 = (r2, n2') ->
    onward c (match r2 with Ok (Some v) => set_campaign id (Some (mkCampaign request v rest)) (set_process id (Up n2') c3)
              | _ => set_campaign id None (set_process id (Up n2') c3) end)).
  { intros r2 n2 n2' c3 Hs3 Hc3 Hn2 E2. pose proof (gr_vote_replies _ _ (onward_grows _ _ Hs3)) as Hg. etrans; [exact Hs2|]. etrans; [exact Hs3|].
    eapply (onward_step _ _ n2'); [|by destruct r2 as [[v|]|]; apply lookup_insert_eq]. apply (step_perform (CollectVote id response)). cbn [perform].
    rewrite Hc3, Hc2. destruct response as [x|]; [rewrite bool_decide_true by auto|]; unfold section; by rewrite Hn2, E2. }
  assert (Hnext : forall votes' c4, onward c (set_campaign id (Some (mkCampaign request votes' rest)) c4) ->
    runs id true (ask_peers request votes' quorum rest) (set_campaign id (Some (mkCampaign request votes' rest)) c4) r c' -> campaign_over c c').
  { intros votes' c4 Hs4 Hr4. eapply IH in Hr4 as [Hs5 Ho]; [|exact (ok_onward _ _ Hok Hs4)|apply lookup_insert_eq]. split; [by etrans|done]. }
  destruct response as [x|].
  - apply runs_bind in Hr as (r3 & c3 & H3' & Hr). apply campaign_section_inv in H3' as (c4 & n4 & n4' & He4 & Hn4 & E4 & ->).
    assert (Hs4 := Hstep r3 n4 n4' c4 (elsewhere_onward _ _ _ He4) (elsewhere_campaign _ _ He4) Hn4 E4).
    destruct r3 as [[v|]|e]; cbn [runs] in Hr; [by eapply Hnext|destruct Hr as [-> ->]; split; [done|apply no_campaign]..].
  - assert (Ha : alive id (set_process id (Up n') c0)) by (exists n'; apply lookup_insert_eq).
    destruct (onward_alive _ _ Ha (elsewhere_onward _ _ _ He2)) as [n2 Hn2].
    assert (Hs4 := Hstep (Ok (Some votes)) n2 n2 c2 (rtc_refl _ _) eq_refl Hn2 eq_refl). cbv beta iota in Hs4.
    rewrite (set_process_same _ _ Hn2) in Hs4. by eapply Hnext.
Qed.

Lemma begin_election_follow mine c r c' :
  cluster_ok c -> runs id mine begin_election c r c' -> campaign_over c c'.
Proof.
  intros Hok Hr. cbn [begin_election runs] in Hr. destruct Hr as (c1 & r1 & c2 & Hs1%elsewhere_onward & Hc1 & Hr & Hk).
  assert (c' = c2) as -> by (destruct r1; by destruct Hk). clear Hk. pose proof (ok_onward _ _ Hok Hs1) as Hok1.
  apply runs_bind in Hr as (r2 & c3 & H2' & Hr). apply runs_locked_inv in H2' as (c4 & n & n' & He & Hn & E & -> & Ht).
  rewrite <- (elsewhere_campaign _ _ He) in Hc1. pose proof (elsewhere_onward _ _ _ He) as Hs4.
  unfold mbind, stm_bind, sget, mret, stm_ret in E. destruct (start_election n) as [rs ns] eqn:Es.
  assert (Hst : onward c4 (match rs with
                           | Ok (Some request) => set_campaign id (Some (mkCampaign request 1 (no_peers (options_ n)))) (post_vote_request request (set_process id (Up ns) c4))
                           | _ => set_process id (Up ns) c4 end)).
  { eapply (onward_step _ _ ns); [|by destruct rs as [[]|]; apply lookup_insert_eq]. apply (step_perform (StartElection id)). cbn [perform].
    rewrite Hn, Hc1. apply Z.ltb_lt in Ht. rewrite Ht. unfold section. by rewrite Hn, Es. }
  assert (Hst' : onward c _) by (etrans; [exact Hs1|]; etrans; [exact Hs4|exact Hst]). clear Hst.
  destruct rs as [[request|]|e]; injection E as <- <-; cbn [runs] in Hr.
  - eapply ask_peers_follow in Hr as [Hs5 Ho]; [|exact (ok_onward _ _ Hok Hst')|apply lookup_insert_eq]. split; [by etrans|done].
  - by destruct Hr as [_ ->].
  - by destruct Hr as [_ ->].
Qed.

(** *** Clients and the ticker *)

Lemma submit_rounds_follow mine turns entry c r c' : cluster_ok c -> runs id mine (submit_rounds turns entry) c r c' -> onward c c'.
Proof.
  revert c. induction turns as [|turns IH]; intros c Hok Hr; cbn [submit_rounds] in Hr.
  { apply runs_read in Hr as (n & _ & Hs & _). by eapply elsewhere_onward. }
  apply runs_bind in Hr as (r1 & c1 & H1' & Hr). destruct (replicate_all_follow _ _ _ _ _ Hok H1') as [Hs1 _].
  destruct r1 as [b|e]; [|by destruct Hr as [_ ->]]. apply runs_bind in Hr as (r2 & c2 & H2' & Hr).
  apply runs_read in H2' as (n & -> & Hs2%elsewhere_onward & Hn). assert (Hs12 : onward c c2) by by etrans.
  destruct (submit_check entry n); [by destruct Hr as [_ ->]|]. etrans; [exact Hs12|]. eapply IH; [by eapply ok_onward|done].
Qed.

Lemma submit_follow mine turns command c r c' : cluster_ok c -> runs id mine (submit turns command) c r c' -> onward c c'.
Proof.
  intros Hok Hr. apply runs_bind in Hr as (r1 & c1 & H1' & Hr). apply runs_locked_inv in H1' as (c0 & n & n' & He%elsewhere_onward & Hn & E & -> & _).
  assert (Hs : onward c (set_process id (Up n') c0)).
  { etrans; [exact He|]. eapply (onward_section (Submit id command)); [done|exact Hn|exact E]. }
  destruct r1 as [[x|entry]|e]; [by destruct Hr as [_ ->]| |by destruct Hr as [_ ->]]. etrans; [exact Hs|].
  eapply submit_rounds_follow; [by eapply ok_onward|done].
Qed.

(** A leader whose commit index is in its own term. *)
Definition leads_committed (c : Net) : Prop :=
  exists n, cl_processes c !! id = Some (Up n) /\ role_ n = Leader /\ term_at_locked (commit_index (hard_state_ n)) n = Some (term_ n).

Lemma quorum_before c0 c c' : cluster_ok c0 -> onward c0 c -> quorum_answered c c' -> quorum_answered c0 c'.
Proof. intros Hok Hs (t & Ht & Hc). pose proof (onward_term _ _ Hok Hs). exists t. split; [lia|done]. Qed.

Lemma quorum_after c c' c'' : cluster_ok c' -> quorum_answered c c' -> onward c' c'' -> quorum_answered c c''.
Proof. intros Hok (t & Ht & Hc) Hs. pose proof (onward_term _ _ Hok Hs). exists t. split; [lia|by eapply contacted_onward]. Qed.

Lemma confirm_follow mine turns c r c' :
  cluster_ok c -> runs id mine (confirm_leadership turns) c r c' ->
  onward c c' /\ (r = Ok true -> quorum_answered c c' /\ leads_committed c').
Proof.
  revert c. induction turns as [|turns IH]; intros c Hok Hr; cbn [confirm_leadership] in Hr; [by destruct Hr as [-> ->]|].
  apply runs_bind in Hr as (r1 & c1 & H1' & Hr). destruct (replicate_all_follow _ _ _ _ _ Hok H1') as [Hs1 Hq].
  destruct r1 as [b|e]; [|by destruct Hr as [-> ->]]. apply runs_bind in Hr as (r2 & c2 & H2' & Hr).
  apply runs_read in H2' as (n & -> & Hs2%elsewhere_onward & Hn). assert (Hs12 : onward c c2) by by etrans.
  destruct (confirm_check b n) as [x|] eqn:Ec.
  - destruct Hr as [-> ->]. split; [done|]. intros [= ->]. unfold confirm_check in Ec. case_bool_decide as Hl; [|done].
    destruct b; [|done]. cbn [negb andb] in Ec. case_bool_decide as Hct; [|done]. split; [|by exists n].
    exact (quorum_after c c1 c2 (ok_onward _ _ Hok Hs1) (Hq eq_refl) Hs2).
  - eapply IH in Hr as [Hs3 Hr]; [|exact (ok_onward _ _ Hok Hs12)]. split; [by etrans|]. intros Hx. destruct (Hr Hx). split; [exact (quorum_before c c2 c' Hok Hs12 ltac:(assumption))|done].
Qed.

Lemma ticker_follow mine turns c r c' : cluster_ok c -> runs id mine (ticker_loop turns) c r c' -> onward c c'.
Proof.
  revert c. induction turns as [|due turns IH]; intros c Hok Hr; cbn [ticker_loop] in Hr; [by destruct Hr as [_ ->]|].
  apply runs_bind in Hr as (r1 & c1 & H1' & Hr). assert (Hs : onward c c1).
  { apply runs_bind in H1' as (r2 & c2 & H2' & H1'). apply runs_read in H2' as (n & -> & Hs2%elsewhere_onward & Hn).
    pose proof (ok_onward _ _ Hok Hs2) as Hok2. etrans; [exact Hs2|]. destruct due; [|by destruct H1' as [_ ->]]. destruct (is_leader n).
    - apply runs_bind in H1' as (r3 & c3 & H3' & H1'). assert (c1 = c3) as -> by (destruct r3; by destruct H1').
      by eapply replicate_all_follow.
    - by eapply begin_election_follow. }
  destruct r1 as [[]|e]; [|by destruct Hr as [_ ->]]. etrans; [exact Hs|]. eapply IH; [by eapply ok_onward|done].
Qed.
End lemmas.

(** ** The functions of a node in the cluster *)

(** C5: the functions of a node are runs of the cluster.  In a cluster that
    any number of steps has made of members started from their disks, whatever
    other threads, other nodes and the network do in between: a run of
    [replicate_all], of [begin_election], of [submit], of [confirm_leadership]
    or of the ticker is a sequence of steps of the cluster, so that what is
    proved of these holds of the node.  When [replicate_all] returns [true], a
    majority of the members has answered requests that the node made in one
    term, not older than its term at the call, with success; when
    [confirm_leadership] does, the node moreover leads and has committed an
    entry of its term.  A campaign ends with its local variables gone. *)
Theorem node_functions_follow_cluster {S M : Type} `{BallotLaws S} `{StateMachine M} (members : list NodeId) (id : NodeId) (c0 c : Cluster S M) :
  NoDup members -> zlen members <= u64_max -> initial members c0 -> steps c0 c ->
  (forall heartbeat_only r c', runs id false (replicate_all heartbeat_only) c r c' ->
     steps c c' /\ (r = Ok true -> quorum_answered members id c c')) /\
  (forall r c', runs id false begin_election c r c' -> steps c c' /\ cl_campaigns c' !! id = None) /\
  (forall turns command r c', runs id false (submit turns command) c r c' -> steps c c') /\
  (forall turns r c', runs id false (confirm_leadership turns) c r c' ->
     steps c c' /\ (r = Ok true -> quorum_answered members id c c' /\ leads_committed id c')) /\
  (forall turns r c', runs id false (ticker_loop turns) c r c' -> steps c c').
Proof.
  intros Hnd Hsz Hinit Hs. assert (Hok : cluster_ok members c).
  { eapply ok_steps; [done..| |exact Hs]. exists [], []. by apply initial_inv. }
  split_and!.
  - intros hb r c' Hr. destruct (replicate_all_follow members Hnd Hsz id _ _ _ _ _ Hok Hr) as [Ho Hq]. split; [by eapply onward_steps|done].
  - intros r c' Hr. destruct (begin_election_follow members Hnd Hsz id _ _ _ _ Hok Hr) as [Ho Hq]. split; [by eapply onward_steps|done].
  - intros turns command r c' Hr. eapply onward_steps, submit_follow; [done..|exact Hr].
  - intros turns r c' Hr. destruct (confirm_follow members Hnd Hsz id _ _ _ _ _ Hok Hr) as [Ho Hq]. split; [by eapply onward_steps|done].
  - intros turns r c' Hr. eapply onward_steps, ticker_follow; [done..|exact Hr].
Qed.

(** Three nodes are started; the deadline of node 1 passes, node 2 gives it its
    vote and takes its entry, node 3 is not reached.  Then a client asks
    whether node 1 leads. *)
Definition quiet : Event (S := RaftStorage) (M := Recorder) := mkEvent [] false.
Definition vote_from (voter : NodeId) : Event (S := RaftStorage) (M := Recorder) :=
  mkEvent [Act (fun c => r ← head (cl_vote_requests c); Some (DeliverVote voter r))] true.
Definition taken_by (to : NodeId) : Event (S := RaftStorage) (M := Recorder) :=
  mkEvent [Act (fun c => r ← head (cl_append_requests c); Some (DeliverAppend to r))] true.

(** One round of replication that reaches node 2 only; [again] when it has
    moved the commit index. *)
Definition demo_round (again : bool) : list Event :=
  let one := [quiet; taken_by n2; quiet; quiet; quiet; quiet] in
  [quiet] ++ one ++ [quiet] ++ (if again then one else []).
Definition demo_ticker : list Event :=
  [quiet; quiet; quiet; quiet; vote_from n2; quiet; quiet; quiet; quiet] ++ demo_round true.

Definition demo_tick : option (Cluster RaftStorage Recorder) :=
  c ← play [] [Start n1; Start n2; Start n3] demo_cluster;
  (fun x => x.1.2) <$> drive n1 [] false (ticker_loop [true]) demo_ticker c.
Definition demo_confirm : option (result bool * Cluster RaftStorage Recorder) :=
  c ← demo_tick; fst <$> drive n1 [] false (confirm_leadership 1) (demo_round false ++ [quiet]) c.

Lemma demo_confirms : (fst <$> demo_confirm) = Some (Ok true).
Proof. vm_compute. reflexivity. Qed.

Lemma node_functions_follow_cluster_witness :
  exists c c', steps demo_cluster c /\ runs n1 false (confirm_leadership 1) c (Ok true) c' /\
    steps c c' /\ quorum_answered [n1; n2; n3] n1 c c' /\ leads_committed n1 c'.
Proof.
  assert (Hnd : NoDup [n1; n2; n3]) by (apply (bool_decide_unpack (NoDup [n1; n2; n3])); vm_compute; exact I).
  assert (Hsz : zlen [n1; n2; n3] <= u64_max) by (vm_compute; discriminate).
  pose proof demo_confirms as E. unfold demo_confirm, demo_tick in E.
  destruct (play [] [Start n1; Start n2; Start n3] demo_cluster) as [c0|] eqn:E0; [|discriminate]. cbn [mbind option_bind] in E.
  destruct (drive n1 [] false (ticker_loop [true]) demo_ticker c0) as [[[r1 c] es1]|] eqn:E1; [|discriminate]. cbn [fmap option_fmap option_map fst snd mbind option_bind] in E.
  destruct (drive n1 [] false (confirm_leadership 1) _ c) as [[[r c'] es2]|] eqn:E2; [|discriminate]. cbn [fmap option_fmap option_map fst snd] in E.
  injection E as ->. apply play_steps in E0. apply drive_runs in E1, E2.
  destruct (node_functions_follow_cluster [n1; n2; n3] n1 demo_cluster c0 Hnd Hsz demo_initial E0) as (_ & _ & _ & _ & Ht).
  pose proof (Ht _ _ _ E1) as Hs. assert (Hs' : steps demo_cluster c) by (etrans; [exact E0|exact Hs]).
  destruct (node_functions_follow_cluster [n1; n2; n3] n1 demo_cluster c Hnd Hsz demo_initial Hs') as (_ & _ & _ & Hc & _).
  destruct (Hc _ _ _ E2) as [Hs2 Hq]. destruct (Hq eq_refl). exists c, c'. split_and!; assumption.
Defined.
