(* ===== verification/RaftLog.v ===== *)
(** * The logs of a cluster

    What the critical sections of src/raft/node.cpp do to the log of a node, in
    memory and on disk, and log matching: two logs that have an entry of the
    same index and term are the same up to it.  The runs considered are those
    in which no node makes snapshots ([snapshot_threshold_entries] is zero), so
    that a log starts with the entry of index 1. *)

From S2P Require Import Prelude Posix FileSystem Store RaftTypes RaftCodec RaftStorage RaftNode RaftElection RaftCluster RaftSafety Triples.

(** ** Chains of entries *)

(** Every entry ever appended by a leader, by index and term, with its command
    and the term of the entry before it. *)
Definition Appended : Type := gmap (Z * Z) (Command * Z).

(** [l] follows an entry of index [i] and term [p]. *)
Fixpoint chain (G : Appended) (i p : Z) (l : list LogEntry) : Prop :=
  match l with
  | [] => True
  | e :: rest => le_index e = i + 1 /\ G !! (le_index e, le_term e) = Some (le_command e, p) /\ chain G (i + 1) (le_term e) rest
  end.

Definition log_ok (G : Appended) (l : list LogEntry) : Prop := chain G 0 0 l.

(** The term of the last entry, [p] if there is none. *)
Definition last_term (p : Z) (l : list LogEntry) : Z := match last l with Some e => le_term e | None => p end.

Lemma last_term_cons p e l : last_term p (e :: l) = last_term (le_term e) l.
Proof. unfold last_term. destruct l as [|e' l]; [done|]. change (last (e :: e' :: l)) with (last (e' :: l)). by destruct (last (e' :: l)) eqn:E; [|apply last_None in E]. Qed.

Lemma chain_app G i p l1 l2 : chain G i p (l1 ++ l2) <-> chain G i p l1 /\ chain G (i + zlen l1) (last_term p l1) l2.
Proof.
  revert i p. induction l1 as [|e l1 IH]; intros i p; simpl.
  - unfold last_term, zlen. simpl. rewrite Z.add_0_r. split; [done|by intros [_ ?]].
  - rewrite IH, last_term_cons, zlen_cons, Z.add_assoc. tauto.
Qed.

Lemma chain_mono G G' i p l : G ⊆ G' -> chain G i p l -> chain G' i p l.
Proof.
  intros HG. revert i p. induction l as [|e l IH]; intros i p; simpl; [done|]. intros (H1 & H2 & H3).
  split_and!; [done|by eapply lookup_weaken|auto].
Qed.

Lemma chain_take G i p l k : chain G i p l -> chain G i p (take k l).
Proof. intros H. rewrite <- (take_drop k l) in H. by apply chain_app in H as [H _]. Qed.

Lemma chain_lookup G i p l k e :
  chain G i p l -> l !! k = Some e ->
  le_index e = i + Z.of_nat k + 1 /\ G !! (le_index e, le_term e) = Some (le_command e, last_term p (take k l)).
Proof.
  intros H Hk. rewrite <- (take_drop_middle l k e Hk) in H. apply chain_app in H as [_ (H1 & H2 & _)].
  assert (Hl : zlen (take k l) = Z.of_nat k) by (unfold zlen; rewrite length_take; apply lookup_lt_Some in Hk; lia).
  rewrite Hl in H1. done.
Qed.

Lemma last_take (l : list LogEntry) k e : l !! k = Some e -> last (take (S k) l) = Some e.
Proof. intros H. rewrite (take_S_r l k e H). apply last_snoc. Qed.

(** Two logs with an entry of the same index and term are the same up to it. *)
Lemma chains_agree G l1 l2 k : forall e1 e2,
  log_ok G l1 -> log_ok G l2 -> l1 !! k = Some e1 -> l2 !! k = Some e2 -> le_term e1 = le_term e2 -> take (S k) l1 = take (S k) l2.
Proof.
  induction k as [|k IH]; intros e1 e2 H1 H2 L1 L2 Ht;
    destruct (chain_lookup _ _ _ _ _ _ H1 L1) as [I1 G1], (chain_lookup _ _ _ _ _ _ H2 L2) as [I2 G2];
    rewrite (take_S_r l1 _ e1 L1), (take_S_r l2 _ e2 L2); rewrite I1, Ht in G1; rewrite I2 in G2; rewrite G1 in G2;
    assert (Heq : e1 = e2) by (destruct e1, e2; simpl in *; congruence); subst e2; [done|]. f_equal. injection G2 as Gp.
  destruct (lookup_lt_is_Some_2 l1 k) as [f1 F1]; [apply lookup_lt_Some in L1; lia|].
  destruct (lookup_lt_is_Some_2 l2 k) as [f2 F2]; [apply lookup_lt_Some in L2; lia|].
  eapply (IH f1 f2); try done. unfold last_term in Gp. by rewrite (last_take l1 k f1 F1), (last_take l2 k f2 F2) in Gp.
Qed.

Lemma chain_last G i p l e : chain G i p l -> last l = Some e -> le_index e = i + zlen l.
Proof.
  intros H He. rewrite last_lookup in He. destruct (chain_lookup _ _ _ _ _ _ H He) as [Hi _]. apply lookup_lt_Some in He. unfold zlen. lia.
Qed.

(** ** The log on disk *)

(** What the log of a node needs of its storage: the logs that a crash can
    leave. *)
Class LogLaws (S : Type) `{BallotLaws S} := {
  ls_inv : S -> Prop;
  ls_log : S -> list LogEntry -> Prop;
  ls_hard_law : forall h s r s', ls_inv s -> st_save_hard_state h s = (r, s') ->
    ls_inv s' /\ forall l, ls_log s' l -> ls_log s l;
  ls_log_law : forall l s r s', ls_inv s -> st_replace_log l s = (r, s') ->
    ls_inv s' /\ forall l', ls_log s' l' -> ls_log s l' \/ (log_fits l -> l' = l);
  ls_restart_law : forall s s', ls_inv s -> bs_restart s s' -> ls_inv s' /\ forall l, ls_log s' l -> ls_log s l;
  ls_load_law : forall s p, ls_inv s -> st_load s = Ok p -> ls_log s (pst_log p) /\ pst_snapshot p = None
}.

Section sections.
Context {S M : Type} `{LogLaws S} `{StateMachine M}.
Abbreviation Node := (RaftNode S M).

(** A node that makes no snapshots. *)
Record quiet (n : Node) : Prop := {
  q_snapshot : snapshot_ n = None;
  q_threshold : no_snapshot_threshold_entries (options_ n) = 0;
  q_storage : ls_inv (storage_ n)
}.

(** A section that does not change the log, and may write it to disk. *)
Record kept (n n' : Node) : Prop := {
  k_quiet : quiet n';
  k_log : log_ n' = log_ n;
  k_role : role_ n' = Leader -> role_ n = Leader;
  k_disk : forall l, ls_log (storage_ n') l -> ls_log (storage_ n) l \/ (log_fits (log_ n) -> l = log_ n)
}.

Lemma kept_refl n : quiet n -> kept n n.
Proof. intros Hn. split; auto. Qed.

Lemma kept_trans n1 n2 n3 : kept n1 n2 -> kept n2 n3 -> kept n1 n3.
Proof.
  intros [A1 A2 A3 A4] [B1 B2 B3 B4]. split; [done|by rewrite B2|auto|]. intros l [Hl|Hl]%B4; [auto|]. right. by rewrite A2 in Hl.
Qed.

Definition keeps_log {A} (c : stm Node A) : Prop := forall n r n', quiet n -> c n = (r, n') -> kept n n'.

Lemma kl_bind {A B} (c : stm Node A) (k : A -> stm Node B) : keeps_log c -> (forall a, keeps_log (k a)) -> keeps_log (c ≫= k).
Proof.
  intros Hc Hk n r n' Hn E. unfold mbind, stm_bind in E. destruct (c n) as [[a|e] n1] eqn:E1.
  - pose proof (Hc _ _ _ Hn E1) as S1. eapply kept_trans; [done|]. by eapply Hk; [apply S1|].
  - simplify_eq. by eapply Hc.
Qed.

Lemma kl_sget : keeps_log sget.
Proof. intros n r n' Hn [= <- <-]. by apply kept_refl. Qed.
Lemma kl_ret {A} (a : A) : keeps_log (mret a).
Proof. intros n r n' Hn [= <- <-]. by apply kept_refl. Qed.
Lemma kl_lift {A} (x : result A) : keeps_log (slift x).
Proof. intros n r n' Hn [= <- <-]. by apply kept_refl. Qed.
Lemma kl_throw {A} e : keeps_log (@sthrow Node A e).
Proof. intros n r n' Hn [= <- <-]. by apply kept_refl. Qed.

Lemma kl_modify (f : Node -> Node) :
  (forall n, log_ (f n) = log_ n /\ (role_ (f n) = Leader -> role_ n = Leader) /\ snapshot_ (f n) = snapshot_ n /\ storage_ (f n) = storage_ n /\
     no_snapshot_threshold_entries (options_ (f n)) = no_snapshot_threshold_entries (options_ n)) -> keeps_log (smodify f).
Proof.
  intros Hf n r n' [Q1 Q2 Q3] [= <- <-]. destruct (Hf n) as (F1 & F0 & F2 & F3 & F4).
  split; [split; [by rewrite F2|by rewrite F4|by rewrite F3]|done|done|rewrite F3; auto].
Qed.

Lemma kl_count which : keeps_log (count which).
Proof. by apply kl_modify. Qed.
Lemma kl_hard f : keeps_log (on_hard f).
Proof. by apply kl_modify. Qed.

Lemma kl_machine {A} (c : stm M A) : keeps_log (on_machine c).
Proof. intros n r n' [Q1 Q2 Q3] E. unfold on_machine in E. destruct (c (state_machine_ n)) as [r0 m]. simplify_eq. split; [by split|done|done|auto]. Qed.

Lemma kl_persist_hard : keeps_log persist_hard_state_locked.
Proof.
  intros n r n' [Q1 Q2 Q3] E. unfold persist_hard_state_locked, mbind, stm_bind, sget, on_storage in E.
  destruct (st_save_hard_state (hard_state_ n) (storage_ n)) as [r0 s'] eqn:E1. simplify_eq.
  destruct (ls_hard_law _ _ _ _ Q3 E1) as [Hi Hl]. split; [by split|done|done|auto].
Qed.

Lemma kl_persist_log : keeps_log persist_log_locked.
Proof.
  intros n r n' [Q1 Q2 Q3] E. unfold persist_log_locked, mbind, stm_bind, sget, on_storage in E.
  destruct (st_replace_log (log_ n) (storage_ n)) as [r0 s'] eqn:E1. simplify_eq.
  destruct (ls_log_law _ _ _ _ Q3 E1) as [Hi Hl]. split; [by split|done|done|auto].
Qed.

Lemma kl_maybe_snapshot : keeps_log maybe_create_snapshot_locked.
Proof.
  intros n r n' Hn E. unfold maybe_create_snapshot_locked, mbind, stm_bind, sget in E. rewrite (q_threshold _ Hn) in E.
  cbn in E. injection E as <- <-. by apply kept_refl.
Qed.

(** Follows the code, with [known] for the calls that have a lemma. *)
Ltac keeps_with known :=
  repeat first
    [ known | apply kl_ret | apply kl_sget | apply kl_lift | apply kl_throw | apply kl_count | apply kl_machine
    | apply kl_persist_log | apply kl_persist_hard | apply kl_hard | apply kl_maybe_snapshot | by apply kl_modify
    | apply kl_bind; [|intros ?]
    | break_match ].
Ltac keeps_tac := keeps_with fail.

Lemma kl_become_follower term leader : keeps_log (become_follower_locked term leader).
Proof. unfold become_follower_locked. keeps_tac. Qed.

Lemma kl_apply_loop turns : keeps_log (apply_loop turns).
Proof. induction turns as [|turns IH]; [apply kl_ret|]. cbn [apply_loop]. keeps_with ltac:(exact IH). Qed.

Lemma kl_apply_committed : keeps_log apply_committed_locked.
Proof. unfold apply_committed_locked. keeps_with ltac:(apply kl_apply_loop). Qed.

Lemma kl_commit_to c : keeps_log (commit_to c).
Proof. unfold commit_to. keeps_with ltac:(apply kl_apply_committed). Qed.

Lemma kl_request_vote request : keeps_log (handle_request_vote request).
Proof. unfold handle_request_vote. keeps_with ltac:(apply kl_become_follower). Qed.

Lemma kl_start_election : keeps_log start_election.
Proof. unfold start_election. keeps_tac. Qed.

Lemma kl_collect_vote request votes response : keeps_log (collect_vote request votes response).
Proof. unfold collect_vote, on_vote_response. keeps_with ltac:(apply kl_become_follower). Qed.

Lemma kl_prepare peer heartbeat_only : keeps_log (prepare_replication peer heartbeat_only).
Proof. unfold prepare_replication, prepare_entries. keeps_tac. Qed.

Lemma kl_snapshot_response peer t response : keeps_log (on_snapshot_response peer t response).
Proof. unfold on_snapshot_response. keeps_with ltac:(apply kl_become_follower). Qed.

Lemma kl_append_response peer t response : keeps_log (on_append_response peer t response).
Proof. unfold on_append_response. keeps_with ltac:(apply kl_become_follower). Qed.

Lemma kl_finish_replication t : keeps_log (finish_replication t).
Proof. unfold finish_replication, advance_commit_locked. keeps_with ltac:(apply kl_apply_committed). Qed.


(** *** Positions in a log without snapshot *)

Section positions.
Context (G : Appended).

Lemma quiet_last (n : Node) : quiet n -> log_ok G (log_ n) ->
  last_log_index_locked n = zlen (log_ n) /\ last_log_term_locked n = last_term 0 (log_ n).
Proof.
  intros Hn Hl. unfold last_log_index_locked, last_log_term_locked, snapshot_index, last_term. rewrite (q_snapshot _ Hn).
  destruct (last (log_ n)) as [e|] eqn:E; [split; [|done]; by apply (chain_last _ _ _ _ _ Hl)|]. by apply last_None in E as ->.
Qed.

Lemma term_at_some (n : Node) index t : quiet n -> log_ok G (log_ n) -> term_at_locked index n = Some t ->
  0 <= index <= zlen (log_ n) /\ last_term 0 (take (Z.to_nat index) (log_ n)) = t.
Proof.
  intros Hn Hl. destruct (quiet_last n Hn Hl) as [Hi _]. unfold term_at_locked, first_index. rewrite (q_snapshot _ Hn), Hi.
  pose proof (zlen_nonneg (log_ n)). destruct (index =? 0) eqn:E0; zbool; [intros [= <-]; subst; split; [lia|done]|].
  destruct ((index <? 1) || (zlen (log_ n) <? index)) eqn:E1; [done|]. apply orb_false_iff in E1 as [E1 E2]. zbool.
  intros Ht. apply fmap_Some in Ht as (e & He & ->). split; [lia|]. unfold last_term.
  replace (Z.to_nat index) with (Datatypes.S (Z.to_nat (index - 1))) by lia. by rewrite (last_take _ _ _ He).
Qed.

Lemma term_at_none (n : Node) index : quiet n -> log_ok G (log_ n) -> 1 <= index -> term_at_locked index n = None -> zlen (log_ n) < index.
Proof.
  intros Hn Hl Hpos. destruct (quiet_last n Hn Hl) as [Hi _]. unfold term_at_locked, first_index. rewrite (q_snapshot _ Hn), Hi.
  destruct (index =? 0) eqn:E0; zbool; [lia|]. destruct ((index <? 1) || (zlen (log_ n) <? index)) eqn:E1.
  - intros _. apply orb_true_iff in E1 as [E1|E1]; zbool; lia.
  - apply orb_false_iff in E1 as [E1 E2]. zbool. intros Ht. exfalso.
    destruct (lookup_lt_is_Some_2 (log_ n) (Z.to_nat (index - 1))) as [e He]; [unfold zlen in *; lia|]. by rewrite He in Ht.
Qed.

Lemma chain_from l index : log_ok G l -> 0 <= index <= zlen l ->
  chain G index (last_term 0 (take (Z.to_nat index) l)) (drop (Z.to_nat index) l).
Proof.
  intros Hl Hi. unfold log_ok in Hl. rewrite <- (take_drop (Z.to_nat index) l) in Hl. apply chain_app in Hl as [_ Hl].
  assert (Hz : zlen (take (Z.to_nat index) l) = index) by (unfold zlen in *; rewrite length_take; lia). by rewrite Hz in Hl.
Qed.

(** *** Entries that arrive *)

Lemma append_entries_ok entries : forall (n : Node) r n',
  quiet n -> log_ok G (log_ n) -> chain G (zlen (log_ n)) (last_term 0 (log_ n)) entries -> append_entries_locked entries n = (r, n') ->
  exists l, n' = set_log l n /\ log_ok G l.
Proof.
  induction entries as [|e es IH]; intros n r n' Hn Hl Hc E; simpl in E.
  - injection E as <- <-. exists (log_ n). split; [by destruct n|done].
  - unfold mbind, stm_bind, sget, slift, sput in E. destruct (throw_if _ _); [|injection E as <- <-; exists (log_ n); split; [by destruct n|done]].
    destruct Hc as (C1 & C2 & C3).
    assert (Hl1 : log_ok G (log_ n ++ [e])) by (apply chain_app; split; [done|]; by split_and!).
    destruct (IH (set_log (log_ n ++ [e]) n) r n') as (l & -> & Hl'); [by destruct Hn|done| |done|by exists l].
    simpl. rewrite zlen_app. unfold last_term. rewrite last_snoc. done.
Qed.

Lemma merge_ok entries : forall previous position p (n : Node) r n',
  quiet n -> log_ok G (log_ n) -> chain G (previous + position) p entries -> term_at_locked (previous + position) n = Some p ->
  merge_entries previous position entries n = (r, n') -> exists l, n' = set_log l n /\ log_ok G l.
Proof.
  induction entries as [|e es IH]; intros previous position p n r n' Hn Hl Hc Ht E; cbn [merge_entries] in E.
  { injection E as <- <-. exists (log_ n). split; [by destruct n|done]. }
  assert (Hsame : exists l, n = set_log l n /\ log_ok G l) by (exists (log_ n); split; [by destruct n|done]).
  unfold mbind at 1, stm_bind at 1, sget in E. cbv beta iota in E.
  destruct (negb (le_index e =? u64 (previous + position + 1))) eqn:Ei; [by injection E as <- <-|]. clear Ei.
  pose proof Hc as (C1 & C2 & C3). destruct (term_at_some n _ p Hn Hl Ht) as [Hpos Hp].
  destruct (le_index e <=? snapshot_index n) eqn:Es.
  { exfalso. unfold snapshot_index in Es. rewrite (q_snapshot _ Hn) in Es. zbool. lia. }
  (* the log once a conflicting entry is gone *)
  unfold mbind at 1, stm_bind at 1 in E.
  set (cut := match term_at_locked (le_index e) n with
              | Some existing => if negb (existing =? le_term e) then truncate_log_from_locked (le_index e) else mret tt
              | None => mret tt end) in E.
  assert (Hcut : (cut n = (Ok tt, n) /\ (forall t, term_at_locked (le_index e) n = Some t -> t = le_term e)) \/
                 (cut n = (Ok tt, set_log (take (Z.to_nat (previous + position)) (log_ n)) n) /\
                  exists t, term_at_locked (le_index e) n = Some t)).
  { unfold cut. destruct (term_at_locked (le_index e) n) as [t|] eqn:Et; [|left; by split].
    destruct (t =? le_term e) eqn:Ee; zbool; [left; split; [done|]; by intros ? [= <-]|]. right. split; [|by exists t]. simpl.
    destruct (term_at_some n _ _ Hn Hl Et) as [Hr _]. destruct (quiet_last n Hn Hl) as [Hi _].
    unfold truncate_log_from_locked, smodify, first_index. rewrite (q_snapshot _ Hn), Hi, C1. f_equal.
    destruct (previous + position + 1 <=? 1) eqn:E1; zbool.
    - by replace (Z.to_nat (previous + position)) with O by lia.
    - rewrite (proj2 (Z.ltb_ge _ _)) by lia. by replace (previous + position + 1 - 1) with (previous + position) by lia. }
  clearbody cut. destruct Hcut as [[Hcut Hmatch]|[Hcut [t Hsome]]]; rewrite Hcut in E; unfold mbind at 1, stm_bind at 1, sget in E; cbv beta iota in E.
  - destruct (term_at_locked (le_index e) n) as [t|] eqn:Et.
    + rewrite C1, <- Z.add_assoc in Et. rewrite (Hmatch t eq_refl) in Et. rewrite <- Z.add_assoc in C3. eapply IH; [done..|exact E].
    + assert (Hge : 1 <= le_index e) by lia. pose proof (term_at_none n _ Hn Hl Hge Et). assert (Hz : zlen (log_ n) = previous + position) by lia.
      unfold mbind, stm_bind in E. destruct (append_entries_locked (e :: es) n) as [r1 n1] eqn:Ea.
      apply append_entries_ok in Ea as (l & -> & Hl'); [|done|done|].
      * exists l. split; [|done]. by destruct r1 as [[]|]; injection E as <- <-.
      * rewrite <- Hz in Hp. replace (Z.to_nat (zlen (log_ n))) with (length (log_ n)) in Hp by (unfold zlen; lia).
        rewrite take_ge in Hp by done. by rewrite Hz, Hp.
  - set (n1 := set_log (take (Z.to_nat (previous + position)) (log_ n)) n) in *.
    assert (Hn1 : quiet n1) by by destruct Hn. assert (Hl1 : log_ok G (log_ n1)) by by apply chain_take.
    assert (Hz : zlen (log_ n1) = previous + position) by (unfold zlen in *; simpl; rewrite length_take; lia).
    assert (Et : term_at_locked (le_index e) n1 = None).
    { destruct (term_at_locked (le_index e) n1) as [t'|] eqn:Et; [|done]. destruct (term_at_some n1 _ _ Hn1 Hl1 Et) as [? _]. lia. }
    rewrite Et in E. unfold mbind, stm_bind in E. destruct (append_entries_locked (e :: es) n1) as [r1 n2] eqn:Ea.
    apply append_entries_ok in Ea as (l & -> & Hl'); [|done|done|].
    + exists l. split; [|done]. by destruct r1 as [[]|]; injection E as <- <-.
    + rewrite Hz. change (log_ n1) with (take (Z.to_nat (previous + position)) (log_ n)). by rewrite Hp.
Qed.

(** What a request to append leaves. *)
Record accepted (n n' : Node) : Prop := {
  a_quiet : quiet n';
  a_ok : log_ok G (log_ n');
  a_role : role_ n' = Leader -> role_ n = Leader /\ log_ n' = log_ n;
  a_disk : forall l, ls_log (storage_ n') l ->
    ls_log (storage_ n) l \/ (log_fits (log_ n) -> l = log_ n) \/ (log_fits (log_ n') -> l = log_ n')
}.

Lemma kept_accepted n n' : log_ok G (log_ n) -> kept n n' -> accepted n n'.
Proof.
  intros Hl [K1 K2 K3 K4]. split; [done|by rewrite K2|auto|]. intros l [?|?]%K4; [by left|right; by left].
Qed.

(** Entries are merged into the log of a follower between two parts that keep
    it. *)
Lemma merged_accepted n n1 l n' : log_ok G l -> kept n n1 -> role_ n1 <> Leader -> kept (set_log l n1) n' -> accepted n n'.
Proof.
  intros Hl [A1 A2 A3 A4] Hr [B1 B2 B3 B4]. simpl in *. split; [done|by rewrite B2| |].
  - intros HL%B3. done.
  - rewrite B2. intros l' [Hd|Hd]%B4; [|by right; right]. destruct (A4 l' Hd); [by left|right; by left].
Qed.

Lemma swp_keeps {A} (c : stm Node A) Q E (n : Node) :
  keeps_log c -> quiet n -> (forall a n', kept n n' -> Q a n') -> (forall n', kept n n' -> E n') -> swp c Q E n.
Proof. intros Hc Hn HQ HE. apply swp_run. intros [a|e] n' H'; [apply HQ|apply HE]; by eapply Hc. Qed.

(** Between two sections of the code that keep the log, with the state that is
    reached. *)
Lemma swp_kept_then {A B} (c : stm Node A) (k : A -> stm Node B) Q E (n : Node) :
  keeps_log c -> quiet n -> (forall n', kept n n' -> E n') -> (forall a n', kept n n' -> c n = (Ok a, n') -> swp (k a) Q E n') ->
  swp (c ≫= k) Q E n.
Proof.
  intros Hc Hn HE Hk. apply swp_bind, swp_run. intros [a|e] n' H'; pose proof (Hc _ _ _ Hn H'); auto.
Qed.

Lemma follower_first request (n n1 : Node) x :
  (if (term_ n <? ae_term request) || negb (bool_decide (role_ n = Follower))
   then become_follower_locked (ae_term request) (ae_leader_id request) else mret tt) n = (Ok x, n1) ->
  (ae_term request <? term_ n) = false -> role_ n1 = Follower.
Proof.
  intros E Ht. destruct ((term_ n <? ae_term request) || _) eqn:Eb.
  - unfold become_follower_locked, mbind, stm_bind, sget in E. rewrite Ht in E.
    unfold smodify, on_hard, persist_hard_state_locked, on_storage, mret, stm_ret, mbind, stm_bind, sget, smodify in E.
    destruct (term_ n <? ae_term request); cbn in E; destruct (st_save_hard_state _ _) as [r s]; by simplify_eq.
  - apply orb_false_iff in Eb as [_ Eb]. injection E as _ <-. apply negb_false_iff, bool_decide_eq_true in Eb. done.
Qed.

Lemma handle_append_ok request (n : Node) r n' :
  quiet n -> log_ok G (log_ n) -> 0 <= ae_previous_log_index request ->
  chain G (ae_previous_log_index request) (ae_previous_log_term request) (ae_entries request) ->
  handle_append_entries request n = (r, n') -> accepted n n'.
Proof.
  intros Hn Hl Hpos Hc Hrun.
  assert (Hw : swp (handle_append_entries request) (fun _ => accepted n) (accepted n) n).
  2: { apply (swp_elim _ _ _ _ r n' Hw) in Hrun. by destruct r. }
  clear Hrun. unfold handle_append_entries.
  apply swp_kept_then; [apply kl_count|done|by intros; apply kept_accepted|]. intros _ n1 K1 _. swp_step. swp_step.
  destruct (ae_term request <? term_ n1) eqn:Et; [swp_step; by apply kept_accepted|].
  assert (Hkeep : forall n2, kept n1 n2 -> accepted n n2) by (intros n2 K; apply kept_accepted; [done|]; by eapply kept_trans).
  apply swp_kept_then; [destruct (_ || _); [apply kl_become_follower|apply kl_ret]|apply K1|done|].
  intros x n2 K2 Hf. apply follower_first in Hf; [|done].
  apply swp_bind, swp_modify. swp_step. swp_step.
  set (n3 := set_leader (ae_leader_id request) n2).
  assert (K3 : kept n n3).
  { eapply kept_trans; [exact K1|]. eapply kept_trans; [exact K2|]. apply (kl_modify (set_leader (ae_leader_id request)) ltac:(done) n2 (Ok tt)); [apply K2|done]. }
  assert (Hl3 : log_ok G (log_ n3)) by (rewrite (k_log _ _ K3); done).
  assert (Hend : accepted n n3) by by apply kept_accepted.
  destruct (ae_previous_log_index request <? snapshot_index n3); [by swp_step|].
  destruct (term_at_locked (ae_previous_log_index request) n3) as [p|] eqn:Ep; [|by swp_step].
  destruct (negb (p =? ae_previous_log_term request)) eqn:Em; [by swp_step|]. zbool. subst p.
  apply swp_bind, swp_run. intros rm nm Hm.
  apply (merge_ok _ _ _ (ae_previous_log_term request)) in Hm as (l & -> & Hlm); [|apply K3|done|by rewrite Z.add_0_r..].
  assert (Hrest : forall n4, kept (set_log l n3) n4 -> accepted n n4).
  { intros n4 K4. eapply merged_accepted; [done|exact K3| |exact K4]. simpl. by rewrite Hf. }
  assert (Hq : quiet (set_log l n3)) by by destruct (k_quiet _ _ K3).
  destruct rm as [[changed|]|e]; [|swp_step; swp_step; swp_step; apply Hrest; by apply kept_refl|apply Hrest; by apply kept_refl].
  apply swp_keeps; [|done|by intros; apply Hrest|done].
  apply kl_bind; [destruct changed; [apply kl_persist_log|apply kl_ret]|intros _].
  apply kl_bind; [apply kl_sget|intros n4]. apply kl_bind; [destruct (_ <? _); [apply kl_commit_to|apply kl_ret]|intros _].
  apply kl_bind; [apply kl_sget|intros n5]. apply kl_ret.
Qed.

(** *** Requests that are made *)

Lemma prepared_request peer heartbeat_only (n : Node) n' request :
  quiet n -> log_ok G (log_ n) -> prepare_replication peer heartbeat_only n = (Ok (SendEntries request), n') ->
  0 <= ae_previous_log_index request /\ chain G (ae_previous_log_index request) (ae_previous_log_term request) (ae_entries request).
Proof.
  intros Hn Hl E. unfold prepare_replication, mbind, stm_bind, sget, smodify in E. cbn [negb] in E.
  destruct (bool_decide (role_ n = Leader)); cbn [negb] in E; [|done].
  set (n1 := set_next _ n) in E. assert (Hn1 : quiet n1) by by destruct Hn. assert (Hs : snapshot_ n1 = None) by apply Hn1. rewrite Hs in E.
  set (next := default 0 (next_index_ n1 !! p_id peer)) in E. unfold prepare_entries, mbind, stm_bind, sget in E.
  destruct (term_at_locked (if next =? 0 then 0 else next - 1) n1) as [p|] eqn:Et; [|by injection E]. injection E as <- _. simpl.
  destruct (term_at_some n1 _ _ Hn1 Hl Et) as [Hr Hp]. split; [lia|].
  destruct heartbeat_only; [done|]. unfold entries_from_locked. cbn [log_ set_metrics].
  destruct (quiet_last n1 Hn1 Hl) as [Hlast _]. change (last_log_index_locked _) with (last_log_index_locked n1). rewrite Hlast.
  unfold first_index. change (snapshot_ _) with (snapshot_ n1). rewrite Hs. destruct (zlen (log_ n1) <? next) eqn:E1; [done|].
  destruct (next <? 1) eqn:E2; [done|]. zbool. rewrite (proj2 (Z.eqb_neq next 0)) in * by lia.
  apply chain_take. rewrite <- Hp. apply chain_from; [done|lia].
Qed.
End positions.

(** *** Entries that are made *)

Definition next_entry (command : Command) (n : Node) : LogEntry := mkLogEntry (zlen (log_ n) + 1) (term_ n) command.

(** A leader that has appended an entry of its own, or nothing. *)
Definition appends (n n' : Node) : Prop :=
  kept n n' \/ exists command, role_ n = Leader /\ kept (set_log (log_ n ++ [next_entry command n]) n) n'.

Lemma local_then {A} G command (n : Node) (k : LogEntry -> stm Node A) r n' :
  quiet n -> log_ok G (log_ n) -> zlen (log_ n) < u64_max -> (forall e, keeps_log (k e)) ->
  (e ← append_local_entry_locked command; k e) n = (r, n') -> appends n n'.
Proof.
  intros Hn Hl Hroom Hk E. destruct (quiet_last G n Hn Hl) as [Hi _]. pose proof (zlen_nonneg (log_ n)).
  unfold append_local_entry_locked, mbind, stm_bind, sget, slift, sput, mret, stm_ret in E. rewrite Hi in E.
  destruct (throw_if _ _) as [u|e] eqn:Et; [|injection E as <- <-; left; by apply kept_refl].
  unfold throw_if in Et. destruct (negb (bool_decide (role_ n = Leader)) || _) eqn:Eb; [done|]. apply orb_false_iff in Eb as [Eb _].
  apply negb_false_iff, bool_decide_eq_true in Eb. right. exists command. split; [done|].
  rewrite u64_small in E by lia. eapply Hk; [|exact E]. by destruct Hn.
Qed.

Lemma submit_appends G command (n : Node) r n' :
  quiet n -> log_ok G (log_ n) -> zlen (log_ n) < u64_max -> submit_append command n = (r, n') -> appends n n'.
Proof.
  intros Hn Hl Hroom E. unfold submit_append in E. destruct (valid_client_command command); [|injection E as <- <-; left; by apply kept_refl].
  unfold mbind at 1, stm_bind at 1, sget in E. cbv beta iota in E.
  destruct (negb (bool_decide (role_ n = Leader))); [injection E as <- <-; left; by apply kept_refl|].
  eapply local_then; [done..| |exact E]. intros e. keeps_with ltac:(apply kl_commit_to).
Qed.

(** A candidate that becomes the leader. *)
Definition crowned (n n1 : Node) : Prop :=
  quiet n1 /\ log_ n1 = log_ n /\ storage_ n1 = storage_ n /\ term_ n1 = term_ n /\ role_ n1 = Leader.

Lemma finish_election_appends G t votes (n : Node) r n' :
  quiet n -> log_ok G (log_ n) -> zlen (log_ n) < u64_max -> finish_election t votes n = (r, n') ->
  n' = n \/ (term_ n = t /\ role_ n = Candidate /\ exists n1, become_leader_locked n = (Ok tt, n1) /\ crowned n n1 /\ appends n1 n').
Proof.
  intros Hn Hl Hroom E. unfold finish_election in E. unfold mbind at 1, stm_bind at 1, sget in E. cbv beta iota in E.
  destruct (bool_decide (role_ n = Candidate) && (term_ n =? t) && (quorum_size n <=? votes)) eqn:Ec; [|injection E as <- <-; by left].
  apply andb_true_iff in Ec as [[Ec1 Ec2]%andb_true_iff _]. apply bool_decide_eq_true in Ec1. zbool. right. split_and!; [done..|].
  unfold mbind at 1, stm_bind at 1 in E. destruct (become_leader_locked n) as [r1 n1] eqn:E1.
  assert (HB : r1 = Ok tt /\ crowned n n1) by (destruct Hn; injection E1 as <- <-; split; [done|]; split; [by split|done]). destruct HB as [-> HB].
  exists n1. split_and!; [done..|]. destruct HB as (B1 & B2 & _). eapply local_then; [done|by rewrite B2|by rewrite B2| |exact E].
  intros e. keeps_with ltac:(apply kl_commit_to).
Qed.

(** Without a snapshot none is sent. *)
Lemma no_snapshot_sent peer heartbeat_only (n : Node) q n' :
  quiet n -> prepare_replication peer heartbeat_only n <> (Ok (SendSnapshot q), n').
Proof.
  intros Hn E. unfold prepare_replication, prepare_entries, mbind, stm_bind, sget, smodify in E.
  destruct (negb (bool_decide (role_ n = Leader))); [done|]. cbn [snapshot_ set_next] in E. rewrite (q_snapshot _ Hn) in E.
  destruct (term_at_locked _ _); by injection E.
Qed.

(** *** A node that starts *)

Lemma new_node_log o s m r s' m' :
  ls_inv s -> no_snapshot_threshold_entries o = 0 -> new_node (S := S) (M := M) o s m = (r, s', m') ->
  ls_inv s' /\ (forall l, ls_log s' l -> ls_log s l) /\
  forall n, r = Ok n -> quiet n /\ storage_ n = s' /\ role_ n = Follower /\ ls_log s (log_ n).
Proof.
  intros Hs Ho E. unfold new_node in E. cbv zeta in E.
  match type of E with match ?b with _ => _ end = _ => destruct b as [node|e] eqn:Eb; [|injection E as <- <- <-; split_and!; [done|auto|done]] end.
  assert (HB : exists p, st_load s = Ok p /\ log_ node = pst_log p /\ snapshot_ node = pst_snapshot p /\ storage_ node = s /\ options_ node = o /\ role_ node = Follower).
  { inv_ok. exists x0. by split_and!. }
  destruct HB as (p & Hp & B1 & B2 & B3 & B4 & B5). destruct (ls_load_law _ _ Hs Hp) as [Hlog Hsnap].
  match type of E with match ?b with _ => _ end = _ => destruct b as [r0 node'] eqn:Er end. clear Eb.
  assert (K : quiet node' /\ log_ node' = log_ node /\ role_ node' = Follower /\ forall l, ls_log (storage_ node') l -> ls_log s l).
  { clear E. unfold mbind at 1, stm_bind at 1, on_machine in Er. destruct (fsm_recover _ _ _) as [[u|e] m1].
    - unfold mbind, stm_bind, on_hard, smodify, persist_hard_state_locked, mbind, stm_bind, sget, on_storage in Er. cbn in Er.
      rewrite B3 in Er. destruct (st_save_hard_state _ s) as [r1 s1] eqn:E1. destruct (ls_hard_law _ _ _ _ Hs E1) as [Hi Hl].
      injection Er as _ <-. split_and!; [|done..]. split; simpl; [by rewrite B2|by rewrite B4|done].
    - injection Er as _ <-. simpl. rewrite B3. split_and!; [|done..]. split; simpl; [by rewrite B2|by rewrite B4|by rewrite B3]. }
  destruct K as (K1 & K2 & K3 & K4).
  destruct r0 as [u|e]; injection E as <- <- <-; (split_and!; [apply K1|done|]); [|done].
  intros n [= <-]. split_and!; [apply K1|done|done|]. by rewrite K2, B1.
Qed.
End sections.

(** ** The logs that the storage keeps *)

(** The log in a file that may be missing. *)
Definition stored_log (c : option str) : result (list LogEntry) :=
  match c with Some bytes => read_log bytes | None => Ok [] end.

Definition log_inv (s : RaftStorage) : Prop :=
  fs_wf (rs_fs s) /\ forall files, crash_state (now (rs_fs s)) files -> files !! snapshot_path (rs_directory s) = None.
Definition storage_log (s : RaftStorage) (l : list LogEntry) : Prop :=
  exists files, crash_state (now (rs_fs s)) files /\ stored_log (files !! log_path (rs_directory s)) = Ok l.

(** A save leaves the other files as a crash could have left them before. *)
Lemma crash_other dir path q data f r f' files' :
  path ∈ [hard_state_path dir; log_path dir; snapshot_path dir] -> q ∈ [hard_state_path dir; log_path dir; snapshot_path dir] -> q <> path ->
  fs_wf f -> atomic_write path data f = (r, f') -> crash_state (now f') files' ->
  exists files, crash_state (now f) files /\ files' !! q = files !! q.
Proof.
  intros Hp Hq Hne Hw [(R1 & _) _]%raft_write_spec Hc.
  destruct (crash_derived _ _ _ _ _ _ Hw (temporary_ne path) R1 Hc) as (files & C1 & C2 & _). exists files. split; [done|].
  apply C2; [|done]. by eapply temporaries_distinct.
Qed.

Lemma log_inv_save path data s r s' :
  path ∈ [hard_state_path (rs_directory s); log_path (rs_directory s); snapshot_path (rs_directory s)] ->
  path <> snapshot_path (rs_directory s) -> log_inv s -> on_storage_fs (atomic_write path data) s = (r, s') -> log_inv s'.
Proof.
  intros Hp Hne [Hw Hs]. unfold on_storage_fs. destruct (atomic_write path data (rs_fs s)) as [r0 f'] eqn:E. intros [= -> <-].
  split; simpl.
  - apply raft_write_spec in E as [(_ & _ & Hw' & _) _]. auto.
  - intros files' Hc. eapply crash_other in Hc as (files & C & ->); [by apply Hs|exact Hp| |by apply not_eq_sym|done|done].
    rewrite !elem_of_cons. tauto.
Qed.

#[export] Program Instance RaftStorage_logs : LogLaws RaftStorage := {|
  ls_inv := log_inv;
  ls_log := storage_log
|}.
Next Obligation.
  intros h s r s' Hi H. change (st_save_hard_state h s) with (perform_save (SaveHardState h) s) in H. rewrite perform_save_eq in H.
  destruct (request_data (SaveHardState h)) as [data|e]; [|by simplify_eq].
  pose proof (request_path_known (rs_directory s) (SaveHardState h)) as Hp. simpl in Hp, H.
  split; [eapply log_inv_save; [exact Hp|apply paths_distinct|done|exact H]|]. unfold on_storage_fs in H.
  destruct (atomic_write _ _ (rs_fs s)) as [r0 f'] eqn:E. injection H as -> <-.
  intros l (files' & Hc & Hl). eapply (crash_other _ _ (log_path (rs_directory s))) in Hc as (files & C & Heq); [|exact Hp| |apply not_eq_sym, paths_distinct|apply Hi|exact E].
  - exists files. by rewrite <- Heq.
  - rewrite !elem_of_cons. tauto.
Qed.
Next Obligation.
  intros l s r s' Hi H. change (st_replace_log l s) with (perform_save (SaveLog l) s) in H. rewrite perform_save_eq in H. simpl in H.
  destruct (encode_log l) as [pl|e] eqn:E; [|simpl in H; simplify_eq; split; [done|by left]]. simpl in H.
  apply encode_log_iff in E as [Hs ->]. pose proof (request_path_known (rs_directory s) (SaveLog l)) as Hp. simpl in Hp.
  split; [eapply log_inv_save; [exact Hp|apply paths_distinct|done|exact H]|]. unfold on_storage_fs in H.
  destruct (atomic_write _ _ (rs_fs s)) as [r0 f'] eqn:E. injection H as -> <-. apply raft_write_spec in E as [(R1 & _) _].
  intros l' (files' & Hc & Hl). destruct (crash_derived _ _ _ _ _ _ (proj1 Hi) (temporary_ne _) R1 Hc) as (files & C1 & _ & [C3|C3]).
  - left. exists files. by rewrite <- C3.
  - right. intros Hf. simpl in Hl. rewrite C3 in Hl. simpl in Hl. rewrite read_log_print in Hl by done. by injection Hl.
Qed.
Next Obligation.
  intros s s' [Hw Hs] (files & script & Hc & ->). pose proof (restart_files files script) as Hu.
  unfold log_inv, storage_log. cbn [rs_fs rs_directory]. split; [split; [apply restart_wf|by intros ? ->%Hu; apply Hs]|].
  intros l (files2 & ->%Hu & Hl). eauto.
Qed.
Next Obligation.
  intros s p [Hw Hs] H. simpl in H. unfold load in H. apply load_files_ok in H as (_ & Hl & Hx).
  pose proof (contents_crash _ Hw) as Hc. split; [by exists (all_contents (rs_fs s))|]. rewrite (Hs _ Hc) in Hx. by injection Hx.
Qed.
