(* ===== verification/LogMatching.v ===== *)
(** * Log matching

    The logs of the nodes of a cluster of [RaftCluster], when no node makes
    snapshots: two logs, of running nodes or on disks, that have an entry of
    the same index and term are the same up to it. *)

From S2P Require Import Prelude Posix FileSystem Store RaftTypes RaftCodec RaftStorage RaftNode RaftElection RaftCluster RaftSafety RaftLog.


(** ** The logs of a cluster *)

(** The index of the next entry and the size of the log file fit in 64 bits. *)
Definition roomy {S M} (c : Cluster S M) : Prop :=
  forall id n, cl_processes c !! id = Some (Up n) -> zlen (log_ n) < u64_max /\ zlen (print_log (log_ n)) <= u64_max.

(** The steps of clusters whose nodes are not told to make snapshots. *)
Inductive plain_step {S M} `{BallotLaws S} `{StateMachine M} : Cluster S M -> Cluster S M -> Prop :=
| plain_perform a c c' : (forall id, a <> TriggerSnapshot id) -> roomy c -> roomy c' -> perform a c = Some c' -> plain_step c c'
| plain_boot id machine c c' : boot id machine c = Some c' -> plain_step c c'
| plain_crash id n s' c :
    cl_processes c !! id = Some (Up n) -> bs_restart (storage_ n) s' ->
    plain_step c (set_campaign id None (set_process id (Down (options_ n) s') c))
| plain_crash_down id o s s' c :
    cl_processes c !! id = Some (Down o s) -> bs_restart s s' -> plain_step c (set_process id (Down o s') c).

(** A cluster about to start for the first time. *)
Definition plain_initial {S M} `{LogLaws S} (members : list NodeId) (c : Cluster S M) : Prop :=
  initial members c /\
  forall id o s, cl_processes c !! id = Some (Down o s) ->
    no_snapshot_threshold_entries o = 0 /\ ls_inv s /\ forall l, ls_log s l -> l = [].

Section cluster.
Context {S M : Type} `{LogLaws S} `{StateMachine M}.
Context (members : list NodeId) (Hmembers : NoDup members) (Hsize : zlen members <= u64_max).
Abbreviation Node := (RaftNode S M).
Abbreviation Net := (Cluster S M).
Abbreviation Vote := (NodeId * Z * NodeId)%type.

(** A leader has voted for itself; a campaign is for a term in which the
    candidate has voted for itself and has not led. *)
Record elections (V : list Vote) (L : list (Z * NodeId)) (c : Net) : Prop := {
  el_leader : forall t id, (t, id) ∈ L -> (id, t, id) ∈ V;
  el_campaign : forall id ca, cl_campaigns c !! id = Some ca ->
    (id, rv_term (ca_request ca), id) ∈ V /\ ((rv_term (ca_request ca), id) ∉ L)
}.

Definition numbers_fit (L : list (Z * NodeId)) (G : Appended) : Prop :=
  forall i t x, G !! (i, t) = Some x -> is_u64 i /\ is_u64 t /\ exists id, (t, id) ∈ L.

Record node_ok (G : Appended) (n : Node) : Prop := {
  no_quiet : quiet n;
  no_log : log_ok G (log_ n);
  no_disk : forall l, ls_log (storage_ n) l -> log_ok G l
}.

(** A leader has every entry of its term. *)
Definition complete (G : Appended) (n : Node) : Prop :=
  role_ n = Leader -> forall i x, G !! (i, term_ n) = Some x -> i <= zlen (log_ n).

Definition request_ok (G : Appended) (r : AppendEntriesRequest) : Prop :=
  0 <= ae_previous_log_index r /\ chain G (ae_previous_log_index r) (ae_previous_log_term r) (ae_entries r).

Record logs_inv (L : list (Z * NodeId)) (G : Appended) (c : Net) : Prop := {
  lg_up : forall id n, cl_processes c !! id = Some (Up n) -> node_ok G n /\ complete G n;
  lg_down : forall id o s, cl_processes c !! id = Some (Down o s) ->
    no_snapshot_threshold_entries o = 0 /\ ls_inv s /\ forall l, ls_log s l -> log_ok G l;
  lg_requests : forall r, r ∈ cl_append_requests c -> request_ok G r;
  lg_snapshots : cl_snapshot_requests c = [];
  lg_numbers : numbers_fit L G
}.

Lemma chain_fits L G i p l : numbers_fit L G -> chain G i p l ->
  Forall (fun e => is_u64 (le_index e) /\ is_u64 (le_term e)) l /\ contiguous l = true.
Proof.
  intros HG. revert i p. induction l as [|e l IH]; intros i p; [done|]. intros (C1 & C2 & C3). destruct (IH _ _ C3) as [F1 F2].
  destruct (HG _ _ _ C2) as (U1 & U2 & _). split; [by constructor|]. destruct l as [|e' l]; [done|]. simpl in *.
  destruct C3 as (D1 & D2 & _). destruct (HG _ _ _ D2) as (U3 & _). apply andb_true_iff. split; [|done].
  apply Z.eqb_eq. rewrite D1, C1, u64_small; [done|]. unfold is_u64 in *. lia.
Qed.

Lemma log_fits_ok L G l : numbers_fit L G -> log_ok G l -> zlen (print_log l) <= u64_max -> log_fits l.
Proof. intros HG Hl Hs. destruct (chain_fits L G 0 0 l HG Hl) as [F1 F2]. by split_and!. Qed.

Lemma node_ok_mono G G' n : G ⊆ G' -> node_ok G n -> node_ok G' n.
Proof. intros HG [N1 N2 N3]. split; [done|by eapply chain_mono|]. intros l Hl. eapply chain_mono; [done|]. by apply N3. Qed.

(** A section that keeps the log. *)
Lemma node_ok_kept G n n' : node_ok G n -> log_fits (log_ n) -> kept n n' -> node_ok G n'.
Proof.
  intros [N1 N2 N3] Hf [K1 K2 K3 K4]. split; [done|by rewrite K2|]. intros l [Hl|Hl]%K4; [by apply N3|]. by rewrite (Hl Hf).
Qed.

(** A node makes a step, entries may be appended, requests sent. *)
Lemma logs_node L L' G G' c c' id n n' :
  logs_inv L G c -> cl_processes c !! id = Some (Up n) -> L ⊆ L' -> G ⊆ G' ->
  node_ok G' n' -> complete G' n' ->
  (forall id2 n2, id2 <> id -> cl_processes c !! id2 = Some (Up n2) -> role_ n2 = Leader ->
     forall i x, G' !! (i, term_ n2) = Some x -> G !! (i, term_ n2) = Some x) ->
  numbers_fit L' G' ->
  cl_processes c' = <[id := Up n']> (cl_processes c) -> cl_snapshot_requests c' = [] ->
  (forall r, r ∈ cl_append_requests c' -> r ∈ cl_append_requests c \/ request_ok G' r) ->
  logs_inv L' G' c'.
Proof.
  intros [I1 I2 I3 I4 I5] Hp HL HG Hn Hc Hothers Hfit Hproc Hsnap Hreq. split; [| | |done|done].
  - intros id2 n2. rewrite Hproc. intros [[<- [= <-]]|[Hne Hl]]%lookup_insert_Some; [done|]. destruct (I1 _ _ Hl) as [J1 J2].
    split; [by eapply node_ok_mono|]. intros Hr i x Hx. apply (J2 Hr i x). by eapply Hothers.
  - intros id2 o s. rewrite Hproc. intros [[<- [=]]|[Hne Hl]]%lookup_insert_Some. destruct (I2 _ _ _ Hl) as (J1 & J2 & J3).
    split_and!; [done..|]. intros l Hlog. eapply chain_mono; [done|]. by apply J3.
  - intros r [Hr|Hr]%Hreq; [|done]. destruct (I3 r Hr) as [R1 R2]. split; [done|by eapply chain_mono].
Qed.

Lemma up_fits L G c id n : logs_inv L G c -> roomy c -> cl_processes c !! id = Some (Up n) -> log_fits (log_ n).
Proof. intros I Hr Hp. destruct (lg_up _ _ _ I _ _ Hp) as [Hn _]. eapply log_fits_ok; [apply I|apply Hn|by eapply Hr]. Qed.

Lemma complete_kept G n n' : complete G n -> ballot_step n n' -> log_ n' = log_ n -> complete G n'.
Proof. intros Hc Hb Hl Hr. destruct (bst_leader _ _ Hb Hr) as [Hr0 Ht]. rewrite Ht, Hl. by apply Hc. Qed.

(** A section that keeps the log. *)
Lemma logs_section {A} L G id (code : stm Node A) k (c c' : Net) :
  logs_inv L G c -> roomy c -> keeps_log code -> section id code k c = Some c' ->
  (forall r n n', cl_processes c !! id = Some (Up n) -> code n = (r, n') -> ballot_step n n') ->
  (forall r n n', cl_processes c !! id = Some (Up n) -> code n = (r, n') ->
     cl_processes (k r (set_process id (Up n') c)) = <[id := Up n']> (cl_processes c) /\
     cl_snapshot_requests (k r (set_process id (Up n') c)) = [] /\
     forall q, q ∈ cl_append_requests (k r (set_process id (Up n') c)) -> q ∈ cl_append_requests c \/ request_ok G q) ->
  logs_inv L G c'.
Proof.
  intros I Hr Hk Hs Hb Hc. unfold section in Hs. destruct (cl_processes c !! id) as [[n|]|] eqn:Ep; [|done..].
  destruct (code n) as [r n'] eqn:E. injection Hs as <-. destruct (lg_up _ _ _ I _ _ Ep) as [Hn Hcomp].
  pose proof (Hk _ _ _ (no_quiet _ _ Hn) E) as K. destruct (Hc r n n' eq_refl E) as (C1 & C2 & C3).
  eapply logs_node; [done|exact Ep|done|done| | |done|apply I|done|done|done].
  - eapply node_ok_kept; [done|by eapply up_fits|done].
  - eapply complete_kept; [done|by eapply Hb|apply K].
Qed.

(** Nothing of the log is in what follows. *)
Lemma quiet_rest (x : Net) id n' (c : Net) G :
  cl_snapshot_requests c = [] -> cl_processes x = <[id := Up n']> (cl_processes c) -> cl_snapshot_requests x = cl_snapshot_requests c ->
  cl_append_requests x = cl_append_requests c ->
  cl_processes x = <[id := Up n']> (cl_processes c) /\ cl_snapshot_requests x = [] /\
  forall q, q ∈ cl_append_requests x -> q ∈ cl_append_requests c \/ request_ok G q.
Proof. intros H1' H2' H3' H4'. rewrite H3', H4'. split_and!; [done|done|by left]. Qed.

Definition keeping (a : Action) : bool :=
  match a with
  | StartElection _ | DeliverVote _ _ | CountVoteRequest _ | CollectVote _ _ | Replicate _ _ _ | AppendAnswered _ _ _ _ | FinishReplication _ _ => true
  | _ => false
  end.

Lemma logs_keeping V L G a (c c' : Net) :
  cluster_inv members V L c -> logs_inv L G c -> roomy c -> keeping a = true -> perform a c = Some c' -> logs_inv L G c'.
Proof.
  intros Hi I Hr Ha Hp. pose proof (lg_snapshots _ _ _ I) as Hsn.
  assert (Hok : forall id n, cl_processes c !! id = Some (Up n) -> ballot_ok n).
  { intros id n Hn. by destruct (po_node _ _ _ _ _ (ci_process _ _ _ _ Hi _ _ Hn) n eq_refl). }
  destruct a; try done; simpl in Hp.
  - destruct (cl_processes c !! id) as [[n|]|] eqn:Ep; [|done..]. destruct (cl_campaigns c !! id); [done|].
    destruct (term_ n <? u64_max) eqn:Et; [|done]. zbool. eapply logs_section; [done|done|apply kl_start_election|exact Hp| |].
    + intros r n0 n' Hn E. rewrite Ep in Hn. injection Hn as <-. by destruct (start_election_ballot n r n' (Hok _ _ Ep) Et E).
    + intros r n0 n' Hn E. by apply quiet_rest; [done|destruct r as [[]|]..].
  - case_bool_decide as Hin; [|done]. destruct (ci_request _ _ _ _ Hi _ Hin) as [Hu _].
    eapply logs_section; [done|done|apply kl_request_vote|exact Hp| |].
    + intros r n n' Hn E. by destruct (request_vote request n r n' (Hok _ _ Hn) Hu E).
    + intros r n n' Hn E. by apply quiet_rest; [done|destruct r..].
  - eapply logs_section; [done|done|apply kl_count|exact Hp| |].
    + intros r n n' Hn E. revert E. apply ballots_count. by eapply Hok.
    + intros r n n' Hn E. by apply quiet_rest.
  - destruct (cl_campaigns c !! id) as [[request votes [|peer rest]]|] eqn:Ec; [done| |done].
    destruct (match response with Some x => _ | None => true end) eqn:Er; [|done].
    eapply logs_section; [done|done|apply kl_collect_vote|exact Hp| |].
    + intros r n n' Hn E. revert E. apply ballots_collect; [|by eapply Hok]. intros x ->. apply bool_decide_eq_true in Er.
      by apply (ci_reply _ _ _ _ Hi) in Er as [? _].
    + intros r n n' Hn E. by apply quiet_rest; [done|destruct r as [[]|]..].
  - eapply logs_section; [done|done|apply kl_prepare|exact Hp| |].
    + intros r n n' Hn E. revert E. apply ballots_prepare. by eapply Hok.
    + intros r n n' Hn E. destruct (lg_up _ _ _ I _ _ Hn) as [[Nq Nl _] _].
      destruct r as [[| |q|q]|]; [by apply quiet_rest..| | |by apply quiet_rest].
      * by destruct (no_snapshot_sent _ _ _ _ _ Nq E).
      * simpl. split_and!; [done|done|]. intros q' [->|Hq]%elem_of_cons; [right|by left]. by eapply prepared_request.
  - destruct (_ && _) eqn:E; [|done]. apply andb_true_iff in E as [_ Hw].
    eapply logs_section; [done|done|apply kl_append_response|exact Hp| |].
    + intros r n n' Hn E. revert E. apply ballots_append_response; [|by eapply Hok]. intros x ->. apply andb_true_iff in Hw as [_ Hw]. by apply wide_u64.
    + intros r n n' Hn E. by apply quiet_rest.
  - eapply logs_section; [done|done|apply kl_finish_replication|exact Hp| |].
    + intros r n n' Hn E. revert E. apply ballots_finish_replication. by eapply Hok.
    + intros r n n' Hn E. by apply quiet_rest.
Qed.

(** *** Entries that arrive at a node *)

Lemma logs_deliver V L G id request (c c' : Net) :
  cluster_inv members V L c -> logs_inv L G c -> roomy c -> roomy c' -> perform (DeliverAppend id request) c = Some c' -> logs_inv L G c'.
Proof.
  intros Hi I Hr Hr' Hp. simpl in Hp. destruct (_ && _) eqn:Eg; [|done]. apply andb_true_iff in Eg as [Hin%bool_decide_eq_true Hw%wide_u64].
  unfold section in Hp. destruct (cl_processes c !! id) as [[n|]|] eqn:Ep; [|done..].
  destruct (handle_append_entries request n) as [r n'] eqn:E. injection Hp as Hc'.
  assert (Hproc : cl_processes c' = <[id := Up n']> (cl_processes c)) by (subst c'; by destruct r).
  destruct (lg_up _ _ _ I _ _ Ep) as [[N1 N2 N3] Hcomp]. destruct (lg_requests _ _ _ I _ Hin) as [R1 R2].
  destruct (handle_append_ok G request n r n' N1 N2 R1 R2 E) as [A1 A2 A3 A4].
  destruct (po_node _ _ _ _ _ (ci_process _ _ _ _ Hi _ _ Ep) n eq_refl) as [Hb _].
  pose proof (ballots_append_entries request Hw n r n' Hb E) as B.
  assert (Hf' : log_fits (log_ n')).
  { eapply log_fits_ok; [apply I|done|]. apply (Hr' id). rewrite Hproc. apply lookup_insert_eq. }
  eapply logs_node; [done|exact Ep|done|done| | |done|apply I|done| |].
  - split; [done|done|]. intros l [Hl|[Hl|Hl]]%A4; [by apply N3| |by rewrite Hl]. rewrite Hl; [done|]. by eapply up_fits.
  - intros HL. destruct (A3 HL) as [HL0 ->]. destruct (bst_leader _ _ B HL) as [_ ->]. by apply Hcomp.
  - subst c'. destruct r; apply I.
  - subst c'. intros q Hq. left. by destruct r.
Qed.

(** *** Entries that a leader makes *)

Lemma chain_snoc G l e : log_ok G l -> le_index e = zlen l + 1 ->
  log_ok (<[(le_index e, le_term e) := (le_command e, last_term 0 l)]> G) l ->
  log_ok (<[(le_index e, le_term e) := (le_command e, last_term 0 l)]> G) (l ++ [e]).
Proof. intros Hl He Hl'. apply chain_app. split; [done|]. simpl. split_and!; [lia|apply lookup_insert_eq|done]. Qed.

(** The node [id] has come to [x], and appends to its log if it leads. *)
Lemma logs_grow L L' G c c' id n x n' :
  logs_inv L G c -> cl_processes c !! id = Some (Up n) -> L ⊆ L' -> node_ok G x -> log_fits (log_ x) -> complete G x ->
  (role_ x = Leader -> (term_ x, id) ∈ L' /\ is_u64 (term_ x) /\ zlen (log_ x) < u64_max) ->
  (forall id2 n2, id2 <> id -> cl_processes c !! id2 = Some (Up n2) -> role_ n2 = Leader -> role_ x = Leader -> term_ n2 <> term_ x) ->
  appends x n' -> ballot_step x n' -> zlen (print_log (log_ n')) <= u64_max ->
  cl_processes c' = <[id := Up n']> (cl_processes c) -> cl_snapshot_requests c' = cl_snapshot_requests c ->
  cl_append_requests c' = cl_append_requests c ->
  exists G', G ⊆ G' /\ logs_inv L' G' c'.
Proof.
  intros I Ep HL [X1 X2 X3] Hf Hcomp Hlead Hothers Happ Hb Hbytes P1 P2 P3.
  assert (Hnum : numbers_fit L' G).
  { intros i t v Hv. destruct (lg_numbers _ _ _ I _ _ _ Hv) as (U1 & U2 & id' & U3). split_and!; [done..|]. exists id'. by apply HL. }
  assert (Hsn : cl_snapshot_requests c' = []) by (rewrite P2; apply I).
  destruct Happ as [K|(command & Hr & K)].
  - exists G. split; [done|]. eapply logs_node; [done|exact Ep|done|done| | |done|done|done|done|by rewrite P3; left].
    + by eapply node_ok_kept.
    + eapply complete_kept; [done|done|apply K].
  - destruct (Hlead Hr) as (HinL & Hu & Hroom). set (e := next_entry command x) in *. pose proof (zlen_nonneg (log_ x)).
    set (G' := <[(le_index e, le_term e) := (le_command e, last_term 0 (log_ x))]> G).
    assert (Hfresh : G !! (le_index e, le_term e) = None).
    { destruct (G !! _) as [v|] eqn:Ev; [|done]. apply (Hcomp Hr) in Ev. simpl in Ev. lia. }
    assert (HG : G ⊆ G') by by apply insert_subseteq.
    assert (Hlog : log_ok G' (log_ n')).
    { rewrite (k_log _ _ K). simpl. apply chain_snoc; [done|done|by eapply chain_mono]. }
    assert (Hnum' : numbers_fit L' G').
    { intros i t v [[[= <- <-] _]|[_ Hv]]%lookup_insert_Some; [|by eapply Hnum]. split_and!; [|done|by exists id].
      unfold is_u64. simpl. lia. }
    assert (Hf' : log_fits (log_ n')) by by eapply log_fits_ok.
    exists G'. split; [done|]. eapply logs_node; [done|exact Ep|done|done| | | |done|done|done|by rewrite P3; left].
    + split; [apply K|done|]. pose proof (k_log _ _ K) as Hkl. intros l [Hl|Hl]%(k_disk _ _ K).
      * eapply chain_mono; [done|]. by apply X3.
      * rewrite <- Hkl in Hl. by rewrite Hl.
    + intros HL'. destruct (bst_leader _ _ Hb HL') as [_ ->]. rewrite (k_log _ _ K). simpl. rewrite zlen_app. change (zlen [e]) with 1.
      intros i v [[[= <-] _]|[_ Hv%(Hcomp Hr)]]%lookup_insert_Some; [simpl|]; lia.
    + intros id2 n2 Hne Hn2 HL2 i v [[[= _ Ht] _]|[_ Hv]]%lookup_insert_Some; [|done]. by destruct (Hothers id2 n2 Hne Hn2 HL2 Hr).
Qed.

Lemma leader_in V L (c : Net) id (n : Node) : cluster_inv members V L c -> cl_processes c !! id = Some (Up n) ->
  ballot_ok n /\ (role_ n = Leader -> (term_ n, id) ∈ L).
Proof. intros Hi Ep. by destruct (po_node _ _ _ _ _ (ci_process _ _ _ _ Hi _ _ Ep) n eq_refl) as (? & _ & ?). Qed.

Lemma logs_submit V L G id command (c c' : Net) :
  cluster_inv members V L c -> logs_inv L G c -> roomy c -> roomy c' -> perform (Submit id command) c = Some c' ->
  exists G', G ⊆ G' /\ logs_inv L G' c'.
Proof.
  intros Hi I Hr Hr' Hp. simpl in Hp. unfold section in Hp. destruct (cl_processes c !! id) as [[n|]|] eqn:Ep; [|done..].
  destruct (submit_append command n) as [r n'] eqn:E. injection Hp as Hc'.
  destruct (lg_up _ _ _ I _ _ Ep) as [Hn Hcomp]. destruct (leader_in _ _ _ _ _ Hi Ep) as [Hb HL]. destruct (Hr _ _ Ep) as [Hroom _].
  eapply (logs_grow L L G c c' id n n n'); try done; [by eapply up_fits|..].
  - intros HL1. split_and!; [by apply HL|apply Hb|done].
  - intros id2 n2 Hne Hn2 HL2 HL1 Heq. apply Hne. destruct (leader_in _ _ _ _ _ Hi Hn2) as [_ HL3].
    eapply (leader_unique members V L c (term_ n)); [done|rewrite <- Heq; by apply HL3|by apply HL].
  - by eapply submit_appends; [apply Hn|apply Hn|..].
  - by eapply ballots_submit.
  - apply (Hr' id). subst c'. apply lookup_insert_eq.
  - by subst c'.
  - by subst c'.
  - by subst c'.
Qed.

(** *** Elections *)

Lemma elections_mono V V' L (c c' : Net) :
  elections V L c -> V ⊆ V' ->
  (forall id ca, cl_campaigns c' !! id = Some ca -> exists ca0, cl_campaigns c !! id = Some ca0 /\ ca_request ca0 = ca_request ca) ->
  elections V' L c'.
Proof.
  intros [E1 E2] HV Hc. split; [auto|]. intros id ca (ca0 & Hl & <-)%Hc. destruct (E2 _ _ Hl). auto.
Qed.

Lemma elections_same V L (c c' : Net) : elections V L c -> cl_campaigns c' = cl_campaigns c -> elections V L c'.
Proof. intros He Hc. eapply elections_mono; [done|done|]. rewrite Hc. eauto. Qed.

Lemma section_campaigns {A} id (code : stm Node A) k (c c' : Net) :
  section id code k c = Some c' -> (forall r x, cl_campaigns (k r x) = cl_campaigns x) -> cl_campaigns c' = cl_campaigns c.
Proof.
  unfold section. intros Hs Hk. destruct (cl_processes c !! id) as [[n|]|]; [|done..]. destruct (code n) as [r n']. injection Hs as <-.
  by rewrite Hk.
Qed.

Lemma campaigns_kept a (c c' : Net) :
  quiet_action a = true \/ (exists id request, a = DeliverVote id request) -> perform a c = Some c' -> cl_campaigns c' = cl_campaigns c.
Proof.
  intros Ha Hp. destruct a; simpl in *; try (by destruct Ha as [|(? & ? & ?)]);
    repeat match type of Hp with (if ?b then _ else _) = _ => destruct b; [|done] end;
    (eapply section_campaigns; [exact Hp|]); intros [x|] y; try done; by destruct x.
Qed.

Lemma elections_collect V L id response (c c' : Net) : elections V L c -> perform (CollectVote id response) c = Some c' -> elections V L c'.
Proof.
  intros He Hp. simpl in Hp. destruct (cl_campaigns c !! id) as [[request votes [|peer rest]]|] eqn:Ec; [done| |done].
  destruct (match response with Some x => _ | None => true end); [|done]. unfold section in Hp.
  destruct (cl_processes c !! id) as [[n|]|]; [|done..]. destruct (collect_vote _ _ _ n) as [r n']. injection Hp as <-.
  eapply elections_mono; [done|done|]. intros id' ca Hl.
  destruct r as [[v|]|]; simpl in Hl; [|apply lookup_delete_Some in Hl as [_ Hl]; eauto..].
  apply lookup_insert_Some in Hl as [[<- <-]|[_ Hl]]; eauto.
Qed.

Lemma elections_start V L id (c c' : Net) :
  cluster_inv members V L c -> elections V L c -> perform (StartElection id) c = Some c' ->
  exists V', V ⊆ V' /\ cluster_inv members V' L c' /\ elections V' L c'.
Proof.
  intros Hi [E1 E2] Hp. destruct (inv_start_election members Hmembers _ _ _ _ _ Hi Hp) as (V' & HV & Hi' & Hc).
  exists V'. split_and!; [done|done|]. split; [auto|]. intros id' ca [Hl|(-> & Hin & Hnew)]%Hc.
  - destruct (E2 _ _ Hl). auto.
  - split; [done|]. intros Hl%E1. by eapply Hnew.
Qed.

(** *** The first entry of a leader *)

Lemma logs_finish_election V L G id (c c' : Net) :
  cluster_inv members V L c -> elections V L c -> logs_inv L G c -> roomy c -> roomy c' -> perform (FinishElection id) c = Some c' ->
  exists L' G', G ⊆ G' /\ cluster_inv members V L' c' /\ elections V L' c' /\ logs_inv L' G' c'.
Proof.
  intros Hi He I Hr Hr' Hp. simpl in Hp. destruct (cl_campaigns c !! id) as [[request votes [|peer rest]]|] eqn:Ec; [|done..].
  unfold section in Hp. destruct (cl_processes c !! id) as [[n|]|] eqn:Ep; [|done..].
  destruct (finish_election _ _ n) as [r n'] eqn:E. injection Hp as Hc'.
  destruct (lg_up _ _ _ I _ _ Ep) as [Hn Hcomp]. destruct (leader_in _ _ _ _ _ Hi Ep) as [Hb _]. destruct (Hr _ _ Ep) as [Hroom _].
  destruct (el_campaign _ _ _ He _ _ Ec) as [Hself Hnew]. simpl in Hself, Hnew.
  assert (Hcamp : forall id' ca, cl_campaigns c' !! id' = Some ca -> id' <> id /\ cl_campaigns c !! id' = Some ca).
  { subst c'. simpl. intros id' ca [? ?]%lookup_delete_Some. by split. }
  assert (HP : cl_processes c' = <[id := Up n']> (cl_processes c)) by by subst c'.
  assert (HS : cl_snapshot_requests c' = cl_snapshot_requests c) by by subst c'.
  assert (HA : cl_append_requests c' = cl_append_requests c) by by subst c'.
  pose proof (inv_finish_election members Hmembers V L id request votes n r n' c Hi Ec Ep E) as HF. cbv zeta in HF. rewrite Hc' in HF. clear Hc'.
  assert (Hsame : forall L', L ⊆ L' -> n' = n -> logs_inv L' G c').
  { intros L' HL ->. eapply (logs_node L L' G G); [done|exact Ep|done|done|done|done|done| |done|rewrite HS; apply I|by rewrite HA; left].
    intros i t v (U1 & U2 & id' & U3)%(lg_numbers _ _ _ I). split_and!; [done..|]. exists id'. by apply HL. }
  destruct HF as [[Hn' Hi']|(T1 & T2 & Hi')].
  { exists L, G. split_and!; [done|done| |by apply Hsame]. eapply elections_mono; [done|done|]. intros id' ca [_ Hl]%Hcamp. eauto. }
  set (t := rv_term request) in *. set (L' := (t, id) :: L) in *. assert (HL' : L ⊆ L') by apply subset_cons.
  assert (He' : elections V L' c').
  { destruct He as [E1 E2]. split.
    - intros t1 id1 [[= -> ->]|Hl]%elem_of_cons; [done|by apply E1].
    - intros id1 ca [Hne Hl]%Hcamp. destruct (E2 _ _ Hl) as [D1 D2]. split; [done|]. intros [[= _ ->]|Hl']%elem_of_cons; [done|by apply D2]. }
  exists L'. enough (HG : exists G', G ⊆ G' /\ logs_inv L' G' c') by (destruct HG as (G' & ? & ?); by exists G').
  destruct (finish_election_ballot _ _ _ _ _ Hb E) as [Hn'|(_ & _ & _ & n1 & F3 & F4 & F5 & _)]; [exists G; split; [done|by apply Hsame]|].
  destruct (finish_election_appends G _ _ _ _ _ (no_quiet _ _ Hn) (no_log _ _ Hn) Hroom E)
    as [Hn'|(_ & _ & n1' & F3' & (Q1 & Q2 & Q3 & Q4 & Q5) & Q6)]; [exists G; split; [done|by apply Hsame]|].
  rewrite F3 in F3'. injection F3' as <-. rewrite T1 in Q4. assert (Hin : (t, id) ∈ L') by by left.
  assert (Hnone : forall i v, G !! (i, t) <> Some v).
  { intros i v (_ & _ & id' & Hl)%(lg_numbers _ _ _ I). apply Hnew.
    assert (id' = id) as -> by (eapply (leader_unique members V L' c' t); [done|by apply HL'|done]). done. }
  eapply (logs_grow L L' G c c' id n n1 n'); try done.
  - split; [done|rewrite Q2; apply Hn|rewrite Q3; apply Hn].
  - rewrite Q2. by eapply up_fits.
  - intros _ i v. rewrite Q4. by intros Hv%Hnone.
  - intros _. rewrite Q4, Q2. split_and!; [done| |done]. rewrite <- T1. apply Hb.
  - intros id2 n2 Hne Hn2 HL2 _ Heq. apply Hne. destruct (leader_in _ _ _ _ _ Hi Hn2) as [_ HL3].
    eapply (leader_unique members V L' c' t); [done|apply HL'; rewrite <- Q4, <- Heq; by apply HL3|done].
  - apply (Hr' id). rewrite HP. apply lookup_insert_eq.
Qed.

(** *** Crashes and restarts *)

(** The process [id] changes outside of the sections of a node. *)
Lemma logs_process L G c c' id p :
  logs_inv L G c ->
  match p with
  | Up n => node_ok G n /\ complete G n
  | Down o s => no_snapshot_threshold_entries o = 0 /\ ls_inv s /\ forall l, ls_log s l -> log_ok G l
  end ->
  cl_processes c' = <[id := p]> (cl_processes c) -> cl_snapshot_requests c' = cl_snapshot_requests c ->
  cl_append_requests c' = cl_append_requests c -> logs_inv L G c'.
Proof.
  intros [I1 I2 I3 I4 I5] Hp P1 P2 P3. split; rewrite ?P1, ?P2, ?P3; [..|done].
  - intros id2 n2 [[<- ->]|[_ Hl]]%lookup_insert_Some; [done|by eapply I1].
  - intros id2 o s [[<- ->]|[_ Hl]]%lookup_insert_Some; [done|by eapply I2].
  - done.
  - done.
Qed.

Lemma logs_boot L G id machine (c c' : Net) : logs_inv L G c -> boot id machine c = Some c' -> logs_inv L G c'.
Proof.
  intros I Hb. unfold boot in Hb. destruct (cl_processes c !! id) as [[|o s]|] eqn:Ep; [done| |done].
  destruct (lg_down _ _ _ I _ _ _ Ep) as (D1 & D2 & D3). destruct (new_node o s machine) as [[r s'] m'] eqn:E.
  destruct (new_node_log o s machine r s' m' D2 D1 E) as (N1 & N2 & N3).
  destruct r as [n|e]; injection Hb as <-; (eapply logs_process; [done| |done..]).
  - destruct (N3 n eq_refl) as (Q1 & Q2 & Q3 & Q4). split; [|by intros Hr; rewrite Hr in Q3]. split; [done|by apply D3|].
    intros l Hl. apply D3, N2. by rewrite <- Q2.
  - split_and!; [done..|]. auto.
Qed.

(** *** All steps *)

Record matching (V : list Vote) (L : list (Z * NodeId)) (G : Appended) (c : Net) : Prop := {
  ma_cluster : cluster_inv members V L c;
  ma_elections : elections V L c;
  ma_logs : logs_inv L G c
}.

Lemma matching_action V L G a (c c' : Net) :
  matching V L G c -> (forall id, a <> TriggerSnapshot id) -> roomy c -> roomy c' -> perform a c = Some c' ->
  exists V' L' G', G ⊆ G' /\ matching V' L' G' c'.
Proof.
  intros [Hi He I] Ha Hr Hr' Hp. pose proof (fun k => logs_keeping V L G a c c' Hi I Hr k Hp) as Hk.
  pose proof (fun q => inv_quiet_action members V L a c c' Hi q Hp) as Hq.
  pose proof (fun q => elections_same V L c c' He (campaigns_kept a c c' (or_introl q) Hp)) as Hc.
  destruct a; try (exists V, L, G; split; [done|]; split; [by apply Hq|by apply Hc|by apply Hk]).
  - destruct (elections_start _ _ _ _ _ Hi He Hp) as (V' & _ & Hi' & He'). exists V', L, G. split; [done|]. split; [done..|].
    by apply Hk.
  - destruct (inv_deliver_vote members _ _ _ _ _ _ Hi Hp) as (V' & HV & Hi'). exists V', L, G. split; [done|]. split; [done| |by apply Hk].
    eapply elections_mono; [done|done|]. rewrite (campaigns_kept _ _ _ (or_intror (ex_intro _ _ (ex_intro _ _ eq_refl))) Hp). eauto.
  - exists V, L, G. split; [done|]. split; [by eapply inv_collect_vote|by eapply elections_collect|by apply Hk].
  - destruct (logs_finish_election _ _ _ _ _ _ Hi He I Hr Hr' Hp) as (L' & G' & ? & ? & ? & ?). by exists V, L', G'.
  - exists V, L, G. split; [done|]. split; [by apply Hq|by apply Hc|by eapply logs_deliver].
  - simpl in Hp. rewrite (lg_snapshots _ _ _ I) in Hp. done.
  - simpl in Hp. rewrite (lg_snapshots _ _ _ I) in Hp. done.
  - destruct (logs_submit _ _ _ _ _ _ _ Hi I Hr Hr' Hp) as (G' & HG & I'). exists V, L, G'. split; [done|].
    split; [by apply Hq|by apply Hc|done].
  - by destruct (Ha id).
Qed.

Lemma matching_step V L G (c c' : Net) :
  matching V L G c -> plain_step c c' -> exists V' L' G', G ⊆ G' /\ matching V' L' G' c'.
Proof.
  intros Hm Hst. destruct Hst as [a c c' Ha R1 R2 Hp|id machine c c' Hb|id n s' c Ep Hr|id o s s' c Ep Hr].
  - by eapply matching_action.
  - destruct Hm as [Hi He I]. exists V, L, G. split; [done|]. split; [by eapply inv_boot| |by eapply logs_boot].
    eapply elections_same; [done|]. unfold boot in Hb. destruct (cl_processes c !! id) as [[|o s]|]; [done| |done].
    destruct (new_node o s machine) as [[[n|e] s'] m']; by injection Hb as <-.
  - destruct Hm as [Hi He I]. exists V, L, G. split; [done|]. pose proof (ci_process _ _ _ _ Hi _ _ Ep) as Hok.
    destruct (bs_restart_law _ _ (po_storage _ _ _ _ _ Hok) Hr) as [B1 B2]. destruct (lg_up _ _ _ I _ _ Ep) as [[N1 N2 N3] _].
    destruct (ls_restart_law _ _ (q_storage _ N1) Hr) as [L1 L2]. split.
    + apply inv_drop_campaign, inv_set_process; [done|]. by eapply process_ok_down.
    + eapply elections_mono; [done|done|]. simpl. intros id' ca [_ Hl]%lookup_delete_Some. eauto.
    + eapply logs_process; [done| |done..]. split_and!; [apply N1|done|auto].
  - destruct Hm as [Hi He I]. exists V, L, G. split; [done|]. pose proof (ci_process _ _ _ _ Hi _ _ Ep) as Hok.
    destruct (bs_restart_law _ _ (po_storage _ _ _ _ _ Hok) Hr) as [B1 B2]. destruct (lg_down _ _ _ I _ _ _ Ep) as (D1 & D2 & D3).
    destruct (ls_restart_law _ _ D2 Hr) as [L1 L2]. split; [|by eapply elections_same|].
    + apply inv_set_process; [done|]. by eapply process_ok_down.
    + eapply logs_process; [done| |done..]. split_and!; [done|done|auto].
Qed.

Lemma matching_steps V L G (c c' : Net) :
  matching V L G c -> rtc plain_step c c' -> exists V' L' G', G ⊆ G' /\ matching V' L' G' c'.
Proof.
  intros Hm Hst. revert V L G Hm. induction Hst as [c|c c1 c' H1' _ IH]; intros V L G Hm; [by exists V, L, G|].
  destruct (matching_step _ _ _ _ _ Hm H1') as (V1 & L1 & G1 & HG & Hm1). destruct (IH _ _ _ Hm1) as (V2 & L2 & G2 & HG2 & Hm2).
  exists V2, L2, G2. split; [by etrans|done].
Qed.

Lemma plain_initial_matching (c : Net) : plain_initial members c -> matching [] [] ∅ c.
Proof.
  intros [Hin Hd]. pose proof (initial_inv _ _ Hin) as Hi. destruct Hin as [Heq Hp]. split; [done| |].
  - split; [by intros t id Hl%not_elem_of_nil|]. intros id ca Hl. rewrite Heq in Hl. simpl in Hl. by rewrite lookup_empty in Hl.
  - split.
    + intros id n Hl. by destruct (Hp _ _ Hl) as (o & s & ? & _).
    + intros id o s (D1 & D2 & D3)%Hd. split_and!; [done..|]. by intros l ->%D3.
    + intros r Hr. rewrite Heq in Hr. simpl in Hr. by apply not_elem_of_nil in Hr.
    + by rewrite Heq.
    + intros i t x Hl. unfold Appended in Hl. by rewrite lookup_empty in Hl.
Qed.
End cluster.

(** A log that a running node has, or that a crash can leave to the process
    [id]. *)
Definition has_log {S M} `{LogLaws S} (c : Cluster S M) (id : NodeId) (l : list LogEntry) : Prop :=
  exists p, cl_processes c !! id = Some p /\
    match p with
    | Up n => l = log_ n \/ ls_log (storage_ n) l
    | Down _ s => ls_log s l
    end.

Section theorem.
Context {S M : Type} `{LogLaws S} `{StateMachine M}.

Lemma has_log_ok members V L G (c : Cluster S M) id l : matching members V L G c -> has_log c id l -> log_ok G l.
Proof.
  intros [_ _ I] ([n|o s] & Hp & Hl).
  - destruct (lg_up _ _ _ I _ _ Hp) as [[_ N2 N3] _]. destruct Hl as [->|Hl]; auto.
  - destruct (lg_down _ _ _ I _ _ _ Hp) as (_ & _ & D3). auto.
Qed.

(** C4: log matching.  In a cluster whose nodes make no snapshots, started on
    empty logs: however the sections of the nodes interleave, whatever
    messages are lost, delayed, repeated or reordered, whichever system calls
    fail and however often processes crash and restart, if a log of one node
    has an entry of the same index and term as a log of another node, at the
    same moment or at a later one, in memory or on disk, then the two logs are
    the same up to and including that entry, which both have at the position
    its index says. *)
Theorem log_matching members (c0 c1 c2 : Cluster S M) id1 id2 l1 l2 k1 k2 e1 e2 :
  NoDup members -> zlen members <= u64_max -> plain_initial members c0 ->
  rtc plain_step c0 c1 -> rtc plain_step c1 c2 -> has_log c1 id1 l1 -> has_log c2 id2 l2 ->
  l1 !! k1 = Some e1 -> l2 !! k2 = Some e2 -> le_index e1 = le_index e2 -> le_term e1 = le_term e2 ->
  le_index e1 = Z.of_nat k1 + 1 /\ k2 = k1 /\ take (Datatypes.S k1) l1 = take (Datatypes.S k1) l2.
Proof.
  intros Hnd Hsz Hinit S1 S2 H1' H2' K1 K2 Hindex Hterm.
  destruct (matching_steps members Hnd Hsz _ _ _ _ _ (plain_initial_matching _ _ Hinit) S1) as (V1 & L1 & G1 & _ & M1).
  destruct (matching_steps members Hnd Hsz _ _ _ _ _ M1 S2) as (V2 & L2 & G2 & HG & M2).
  assert (O1 : log_ok G2 l1) by (eapply chain_mono; [exact HG|]; by eapply has_log_ok).
  assert (O2 : log_ok G2 l2) by by eapply has_log_ok.
  destruct (chain_lookup _ _ _ _ _ _ O1 K1) as [I1 _], (chain_lookup _ _ _ _ _ _ O2 K2) as [I2 _].
  assert (k2 = k1) as -> by lia. split_and!; [lia|done|]. by eapply chains_agree.
Qed.
End theorem.

(** ** A run *)

Definition room {S M} (c : Cluster S M) : bool :=
  forallb (fun x => match x.2 with
                    | Up n => (zlen (log_ n) <? u64_max) && (zlen (print_log (log_ n)) <=? u64_max)
                    | Down _ _ => true
                    end) (map_to_list (cl_processes c)).

Lemma room_roomy {S M} (c : Cluster S M) : room c = true -> roomy c.
Proof.
  intros H id n Hl. unfold room in H. rewrite forallb_forall in H. specialize (H (id, Up n)). simpl in H.
  rewrite <- list_elem_of_In, elem_of_map_to_list in H. specialize (H Hl). apply andb_true_iff in H as [H1 H2]. zbool. done.
Qed.

Definition snapshots (a : Action) : bool := match a with TriggerSnapshot _ => true | _ => false end.

Section runs.
Context {S M : Type} `{LogLaws S} `{StateMachine M}.

(** A run of [RaftSafety] whose steps are those above. *)
Fixpoint plain_play (machine : M) (moves : list (Move S M)) (c : Cluster S M) : option (Cluster S M) :=
  match moves with
  | [] => Some c
  | m :: rest =>
      c' ← move machine m c;
      if match m with Start _ => true | Act choose => negb (default true (snapshots <$> choose c)) && room c && room c' end
      then plain_play machine rest c' else None
  end.

Lemma plain_play_steps machine moves c c' : plain_play machine moves c = Some c' -> rtc plain_step c c'.
Proof.
  revert c. induction moves as [|m moves IH]; intros c E; simpl in E; [by simplify_eq|].
  destruct (move machine m c) as [c1|] eqn:E1; [|done]. simpl in E. destruct (match m with Start _ => true | Act _ => _ end) eqn:Em; [|done].
  eapply rtc_l; [|by apply IH]. destruct m as [id|choose]; simpl in E1, Em; [by eapply plain_boot|].
  apply andb_true_iff in Em as [[Ea R1]%andb_true_iff R2]. destruct (choose c) as [a|]; [|done]. simpl in Ea.
  eapply plain_perform; [|by apply room_roomy..|exact E1]. by intros id ->.
Qed.

Lemma plain_play_app machine l1 l2 c : plain_play machine (l1 ++ l2) c = (plain_play machine l1 c ≫= plain_play machine l2).
Proof.
  revert c. induction l1 as [|m l1 IH]; intros c; [done|]. simpl. destruct (move machine m c) as [c1|]; [|done]. simpl.
  by destruct (match m with Start _ => true | Act _ => _ end); [apply IH|].
Qed.
End runs.

(** Node 1 leads and appends a command, then node 2 receives its log. *)
Definition matching_moves : list DemoMove := [Start n1; Start n2] ++ elect n1 n2 ++ put n1 "1".

Definition logs_of (c : Cluster RaftStorage Recorder) (id : NodeId) : option (list LogEntry) :=
  match cl_processes c !! id with Some (Up n) => Some (log_ n) | _ => None end.

Definition demo_log : list LogEntry := [mkLogEntry 1 1 noop; mkLogEntry 2 1 (demo_put "1")].

Lemma logs_of_has c id l : logs_of c id = Some l -> has_log c id l.
Proof. unfold logs_of, has_log. destruct (cl_processes c !! id) as [[n|]|]; [|done..]. intros [= <-]. exists (Up n). auto. Qed.

Lemma demo_plain_initial : plain_initial [n1; n2; n3] demo_cluster.
Proof.
  split; [apply demo_initial|]. intros id o s Hl. assert (Hs : s = demo_storage [] /\ no_snapshot_threshold_entries o = 0).
  { unfold demo_cluster in Hl. cbn [cl_processes] in Hl. repeat (apply lookup_insert_Some in Hl as [[_ Hl]|[_ Hl]]; [by injection Hl as <- <-|]).
    by rewrite lookup_empty in Hl. }
  destruct Hs as [-> Ho]. destruct (demo_storage_inv []) as [Hw _].
  assert (Hf : forall files, crash_state (now (rs_fs (demo_storage []))) files -> forall x, files !! x = None).
  { intros files (d & [->|Hd] & Hf) x; [|by apply not_elem_of_nil in Hd]. specialize (Hf x).
    replace (sn_dir (now (rs_fs (demo_storage []))) !! x) with (@None FileData) in Hf by (symmetry; apply lookup_empty).
    by destruct (files !! x). }
  split_and!; [done|split; [done|intros files Hc; by apply Hf]|]. intros l (files & Hc & Hl'). rewrite (Hf files Hc) in Hl'. by injection Hl'.
Qed.

Lemma demo_matching_first : ((fun c => logs_of c n1) <$> plain_play [] matching_moves demo_cluster) = Some (Some demo_log).
Proof. vm_compute. reflexivity. Qed.

Lemma demo_matching_second :
  ((fun c => logs_of c n2) <$> plain_play [] (matching_moves ++ replicate n1 n2 false) demo_cluster) = Some (Some demo_log).
Proof. vm_compute. reflexivity. Qed.

Lemma log_matching_witness :
  exists c1 c2 l1 l2 e, rtc plain_step demo_cluster c1 /\ rtc plain_step c1 c2 /\ has_log c1 n1 l1 /\ has_log c2 n2 l2 /\
    l1 !! 1%nat = Some e /\ l2 !! 1%nat = Some e /\ take 2 l1 = take 2 l2.
Proof.
  pose proof demo_matching_first as H1. pose proof demo_matching_second as H2. rewrite plain_play_app in H2.
  destruct (plain_play [] matching_moves demo_cluster) as [c1|] eqn:E1; [|discriminate].
  change (Some (logs_of c1 n1) = Some (Some demo_log)) in H1.
  change (((fun c => logs_of c n2) <$> plain_play [] (replicate n1 n2 false) c1) = Some (Some demo_log)) in H2.
  destruct (plain_play [] (replicate n1 n2 false) c1) as [c2|] eqn:E2; [|discriminate]. injection H1 as H1. injection H2 as H2.
  apply plain_play_steps in E1, E2. apply logs_of_has in H1, H2. set (e := mkLogEntry 2 1 (demo_put "1")).
  assert (Hnd : NoDup [n1; n2; n3]) by (apply (bool_decide_unpack (NoDup [n1; n2; n3])); vm_compute; exact I).
  assert (Hsz : zlen [n1; n2; n3] <= u64_max) by (vm_compute; discriminate).
  destruct (log_matching [n1; n2; n3] demo_cluster c1 c2 n1 n2 demo_log demo_log 1%nat 1%nat e e Hnd Hsz demo_plain_initial
    E1 E2 H1 H2 eq_refl eq_refl eq_refl eq_refl) as (_ & _ & Heq).
  exists c1, c2, demo_log, demo_log, e. by split_and!.
Defined.
