(* ===== verification/RaftTransport.v ===== *)
(** * The transports between Raft nodes

    include/nebulakv/raft/transport.hpp, src/raft/in_memory_transport.cpp and
    src/raft/fault_injecting_transport.cpp: the interface a node calls its
    peers through, the network that connects nodes of one process and can be
    partitioned, delayed and told to drop messages, and the wrapper that drops
    and delays at random.  Endpoints are objects the network keeps pointers
    to, so that the heap of endpoints is part of the state of a call.  A call
    is run as a whole; what other threads do while it sleeps is in the cluster
    model, which the calls are shown to follow. *)

From Stdlib Require Import QArith_base.
From S2P Require Import Prelude FileSystem Store RaftTypes RaftStorage RaftNode RaftElection RaftCluster RaftSafety.

(** ** Interfaces *)

Class RaftEndpoint (E : Type) := {
  ep_request_vote : RequestVoteRequest -> stm E RequestVoteResponse;
  ep_append_entries : AppendEntriesRequest -> stm E AppendEntriesResponse;
  ep_install_snapshot : InstallSnapshotRequest -> stm E InstallSnapshotResponse
}.

(** [T] is the transport with all a call can change; timeouts are in
    milliseconds. *)
Class RaftTransport (T : Type) := {
  tr_request_vote : Peer -> RequestVoteRequest -> Z -> stm T (option RequestVoteResponse);
  tr_append_entries : Peer -> AppendEntriesRequest -> Z -> stm T (option AppendEntriesResponse);
  tr_install_snapshot : Peer -> InstallSnapshotRequest -> Z -> stm T (option InstallSnapshotResponse)
}.

#[export] Instance RaftNode_endpoint {S M} `{Storage S} `{StateMachine M} : RaftEndpoint (RaftNode S M) := {|
  ep_request_vote := handle_request_vote;
  ep_append_entries := handle_append_entries;
  ep_install_snapshot := handle_install_snapshot
|}.

(** ** The network of one process *)

Definition pointer := nat.

Record InMemoryRaftNetwork := mkNetwork {
  endpoints_ : gmap NodeId pointer;
  partitions_ : gset (NodeId * NodeId);
  delay_ : Z;
  drops_remaining_ : Z
}.

Definition new_network : InMemoryRaftNetwork := mkNetwork ∅ ∅ 0 0.

(** [std::minmax]. *)
Definition link_key (first second : NodeId) : NodeId * NodeId :=
  if str_ltb second first then (second, first) else (first, second).

Definition register_endpoint (id : NodeId) (endpoint : pointer) : stm InMemoryRaftNetwork unit :=
  _ ← slift (throw_if (is_nil id) (InvalidArgument "in-memory Raft endpoint id must not be empty"));
  net ← sget;
  match endpoints_ net !! id with
  | Some _ => sthrow (InvalidArgument "duplicate in-memory Raft endpoint: ")
  | None => sput (mkNetwork (<[id := endpoint]> (endpoints_ net)) (partitions_ net) (delay_ net) (drops_remaining_ net))
  end.

Definition unregister_endpoint (id : NodeId) (net : InMemoryRaftNetwork) : InMemoryRaftNetwork :=
  mkNetwork (delete id (endpoints_ net)) (partitions_ net) (delay_ net) (drops_remaining_ net).

Definition partition (first second : NodeId) (net : InMemoryRaftNetwork) : InMemoryRaftNetwork :=
  mkNetwork (endpoints_ net) ({[link_key first second]} ∪ partitions_ net) (delay_ net) (drops_remaining_ net).
Definition heal (first second : NodeId) (net : InMemoryRaftNetwork) : InMemoryRaftNetwork :=
  mkNetwork (endpoints_ net) (partitions_ net ∖ {[link_key first second]}) (delay_ net) (drops_remaining_ net).
Definition heal_all (net : InMemoryRaftNetwork) : InMemoryRaftNetwork :=
  mkNetwork (endpoints_ net) ∅ (delay_ net) (drops_remaining_ net).

Definition set_delay (delay : Z) : stm InMemoryRaftNetwork unit :=
  _ ← slift (throw_if (delay <? 0) (InvalidArgument "network delay must not be negative"));
  smodify (fun net => mkNetwork (endpoints_ net) (partitions_ net) delay (drops_remaining_ net)).

Definition drop_next (message_count : Z) (net : InMemoryRaftNetwork) : InMemoryRaftNetwork :=
  mkNetwork (endpoints_ net) (partitions_ net) (delay_ net) message_count.

Definition should_deliver_locked (source destination : NodeId) (net : InMemoryRaftNetwork) : bool * InMemoryRaftNetwork :=
  if bool_decide (link_key source destination ∈ partitions_ net) then (false, net)
  else if negb (drops_remaining_ net =? 0) then
    (false, mkNetwork (endpoints_ net) (partitions_ net) (delay_ net) (u64 (drops_remaining_ net - 1)))
  else (true, net).

(** The network and the endpoints it points to. *)
Record World (E : Type) := mkWorld { w_network : InMemoryRaftNetwork; w_heap : gmap pointer E }.
Arguments mkWorld {E}.
Arguments w_network {E}.
Arguments w_heap {E}.

Section in_memory.
Context {E : Type} `{RaftEndpoint E}.

(** A member function of the object at [p]; none if there is no such object. *)
Definition on_endpoint {A} (p : pointer) (code : stm E A) : stm (World E) (option A) := fun w =>
  match w_heap w !! p with
  | Some e =>
      let '(r, e') := code e in
      let w' := mkWorld (w_network w) (<[p := e']> (w_heap w)) in
      match r with Ok a => (Ok (Some a), w') | Throw error => (Throw error, w') end
  | None => (Ok None, w)
  end.

(** The text the three calls share. *)
Definition network_call {Request Response} (handle : Request -> stm E Response) (source destination : NodeId)
    (request : Request) (timeout : Z) : stm (World E) (option Response) :=
  w ← sget;
  let '(deliver, net) := should_deliver_locked source destination (w_network w) in
  _ ← sput (mkWorld net (w_heap w));
  if negb deliver then mret None
  else
    match endpoints_ net !! destination with
    | None => mret None
    | Some endpoint =>
        if timeout <? delay_ net then mret None
        else on_endpoint endpoint (handle request)
    end.

Definition network_request_vote := network_call ep_request_vote.
Definition network_append_entries := network_call ep_append_entries.
Definition network_install_snapshot := network_call ep_install_snapshot.
End in_memory.

(** [InMemoryRaftTransport]: the source, and the network it refers to. *)
Record InMemoryRaftTransport (E : Type) := mkTransport { source_ : NodeId; network_ : World E }.
Arguments mkTransport {E}.
Arguments source_ {E}.
Arguments network_ {E}.

Definition new_transport {E} (source : NodeId) (network : World E) : result (InMemoryRaftTransport E) :=
  _ ← throw_if (is_nil source) (InvalidArgument "in-memory Raft transport source must not be empty");
  mret (mkTransport source network).

Definition through {E A} (code : NodeId -> stm (World E) A) : stm (InMemoryRaftTransport E) A := fun t =>
  let '(r, w) := code (source_ t) (network_ t) in (r, mkTransport (source_ t) w).

#[export] Instance InMemoryRaftTransport_transport {E} `{RaftEndpoint E} : RaftTransport (InMemoryRaftTransport E) := {|
  tr_request_vote peer request timeout := through (fun source => network_request_vote source (p_id peer) request timeout);
  tr_append_entries peer request timeout := through (fun source => network_append_entries source (p_id peer) request timeout);
  tr_install_snapshot peer request timeout := through (fun source => network_install_snapshot source (p_id peer) request timeout)
|}.

(** ** Injected faults *)

(** A probability is a double: what matters is how it compares with 0 and 1. *)
Inductive double :=
| Finite (q : Q)
| PositiveInfinity
| NegativeInfinity
| NotANumber.

Definition below_zero (d : double) : bool :=
  match d with Finite q => negb (Qle_bool 0 q) | NegativeInfinity => true | _ => false end.
Definition above_one (d : double) : bool :=
  match d with Finite q => negb (Qle_bool q 1) | PositiveInfinity => true | _ => false end.

Record FaultInjectionOptions := mkFaultInjectionOptions {
  drop_probability : double;
  fixed_delay : Z;
  random_seed : Z
}.

Definition validate_options (options : FaultInjectionOptions) : result unit :=
  _ ← throw_if (below_zero (drop_probability options) || above_one (drop_probability options))
        (InvalidArgument "drop probability must be between zero and one");
  throw_if (fixed_delay options <? 0) (InvalidArgument "fault injection delay must not be negative").

Record FaultInjectingTransport (T R : Type) := mkFaultInjecting {
  delegate_ : T;
  fi_options_ : FaultInjectionOptions;
  random_ : R
}.
Arguments mkFaultInjecting {T R}.
Arguments delegate_ {T R}.
Arguments fi_options_ {T R}.
Arguments random_ {T R}.

(** A random engine and the Bernoulli distribution on it. *)
Class RandomEngine (R : Type) := {
  seed : Z -> R;
  bernoulli : double -> R -> bool * R
}.

Section fault_injecting.
Context {T R : Type} `{RaftTransport T} `{RandomEngine R}.
Abbreviation Faulty := (FaultInjectingTransport T R).

Definition new_fault_injecting (delegate : T) (options : FaultInjectionOptions) : result Faulty :=
  _ ← validate_options options;
  mret (mkFaultInjecting delegate options (seed (random_seed options))).

Definition configure (options : FaultInjectionOptions) : stm Faulty unit :=
  _ ← slift (validate_options options);
  smodify (fun t => mkFaultInjecting (delegate_ t) options (seed (random_seed options))).

Definition injected_delay (t : Faulty) : Z := fixed_delay (fi_options_ t).

Definition should_drop : stm Faulty bool := fun t =>
  let '(drop, r) := bernoulli (drop_probability (fi_options_ t)) (random_ t) in
  (Ok drop, mkFaultInjecting (delegate_ t) (fi_options_ t) r).

Definition on_delegate {A} (code : stm T A) : stm Faulty A := fun t =>
  let '(r, d) := code (delegate_ t) in (r, mkFaultInjecting d (fi_options_ t) (random_ t)).

(** The text the three calls share. *)
Definition faulty_call {Request Response} (call : Peer -> Request -> Z -> stm T (option Response)) (peer : Peer)
    (request : Request) (timeout : Z) : stm Faulty (option Response) :=
  t ← sget;
  let delay := injected_delay t in
  drop ← should_drop;
  if drop || (timeout <? delay) then mret None
  else on_delegate (call peer request (timeout - delay)).
End fault_injecting.

#[export] Instance FaultInjectingTransport_transport {T R} `{RaftTransport T} `{RandomEngine R}
    : RaftTransport (FaultInjectingTransport T R) := {|
  tr_request_vote := faulty_call tr_request_vote;
  tr_append_entries := faulty_call tr_append_entries;
  tr_install_snapshot := faulty_call tr_install_snapshot
|}.

(** ** What a call does *)

Lemma link_key_sym a b : link_key a b = link_key b a.
Proof.
  unfold link_key, str_ltb. rewrite (str_compare_antisym a b). destruct (str_compare a b) eqn:Ec; simpl; try done.
  by apply str_compare_eq in Ec as ->.
Qed.

(** The same network as far as its endpoints go, and they are as they were. *)
Definition untouched {E} (w w' : World E) : Prop :=
  w_heap w' = w_heap w /\ endpoints_ (w_network w') = endpoints_ (w_network w) /\ partitions_ (w_network w') = partitions_ (w_network w).

Section calls.
Context {E : Type} `{RaftEndpoint E}.

Lemma deliver_network source destination net :
  let '(deliver, net') := should_deliver_locked source destination net in
  endpoints_ net' = endpoints_ net /\ partitions_ net' = partitions_ net /\ delay_ net' = delay_ net /\
  (deliver = true -> (link_key source destination ∉ partitions_ net) /\ net' = net).
Proof. unfold should_deliver_locked. case_bool_decide; [done|]. by destruct (negb _). Qed.

(** A call is lost, or it runs the handler of its destination once; on a link
    that is cut it is lost. *)
Lemma network_call_cases {Request Response} (handle : Request -> stm E Response) source destination request timeout w r w' :
  network_call handle source destination request timeout w = (r, w') ->
  (r = Ok None /\ untouched w w') \/
  ((link_key source destination ∉ partitions_ (w_network w)) /\
   exists p e r0 e', endpoints_ (w_network w) !! destination = Some p /\ w_heap w !! p = Some e /\
     handle request e = (r0, e') /\ r = Some <$> r0 /\ w' = mkWorld (w_network w) (<[p := e']> (w_heap w))).
Proof.
  unfold network_call, mbind, stm_bind, sget, sput, mret, stm_ret. pose proof (deliver_network source destination (w_network w)) as D.
  destruct (should_deliver_locked source destination (w_network w)) as [deliver net]. destruct D as (D1 & D2 & D3 & D4). intros Hc.
  destruct deliver; cbn [negb] in Hc; [|left; by simplify_eq]. destruct (D4 eq_refl) as [Hp ->].
  destruct (endpoints_ (w_network w) !! destination) as [p|] eqn:Ep; [|left; by simplify_eq].
  destruct (timeout <? delay_ (w_network w)); [left; by simplify_eq|]. unfold on_endpoint in Hc. cbn [w_heap w_network] in Hc.
  destruct (w_heap w !! p) as [e|] eqn:Eh; [|left; by simplify_eq]. right. split; [done|].
  destruct (handle request e) as [r0 e'] eqn:Eh'. exists p, e, r0, e'. destruct r0; by simplify_eq.
Qed.
End calls.

(** ** The transports follow the cluster model *)

Section cluster.
Context {S M R : Type} `{Storage S} `{StateMachine M} `{RandomEngine R}.
Abbreviation Node := (RaftNode S M).
Abbreviation Stack := (FaultInjectingTransport (InMemoryRaftTransport Node) R).

Definition world_of (t : Stack) : World Node := network_ (delegate_ t).

(** The endpoints are the running processes of the cluster. *)
Definition attached (w : World Node) (c : Cluster S M) : Prop :=
  (forall id p, endpoints_ (w_network w) !! id = Some p -> exists n, w_heap w !! p = Some n /\ cl_processes c !! id = Some (Up n)) /\
  (forall id id' p, endpoints_ (w_network w) !! id = Some p -> endpoints_ (w_network w) !! id' = Some p -> id = id').

(** What a call of the stack did: nothing, or the step [delivery] of the
    cluster, with the answer among those given. *)
Definition follows {A} (delivery : Action) (answered : A -> Cluster S M -> Prop) (c : Cluster S M) (t t' : Stack)
    (r : result (option A)) : Prop :=
  (r = Ok None /\ untouched (world_of t) (world_of t')) \/
  (exists c', perform delivery c = Some c' /\ attached (world_of t') c' /\ forall x, r = Ok (Some x) -> answered x c').

Lemma attached_untouched w w' c : attached w c -> untouched w w' -> attached w' c.
Proof. intros [A1 A2] (U1 & U2 & _). split; rewrite U2; [by rewrite U1|done]. Qed.

(** The handler of [destination] runs in the cluster as it does on the heap. *)
Lemma attached_delivers {Request Response} (handle : Request -> stm Node Response) w c destination p e r0 e' request
    (k : result Response -> Cluster S M -> Cluster S M) :
  attached w c -> endpoints_ (w_network w) !! destination = Some p -> w_heap w !! p = Some e -> handle request e = (r0, e') ->
  (forall r x, cl_processes (k r x) = cl_processes x) ->
  exists c', section destination (handle request) k c = Some c' /\ c' = k r0 (set_process destination (Up e') c) /\
    attached (mkWorld (w_network w) (<[p := e']> (w_heap w))) c'.
Proof.
  intros [A1 A2] Hp He Hh Hk. destruct (A1 _ _ Hp) as (n & Hn & Hc). rewrite He in Hn. injection Hn as <-.
  eexists. unfold section. rewrite Hc, Hh. split; [reflexivity|]. split; [done|]. split; cbn [w_network w_heap]; [|done].
  intros id q Hq. rewrite Hk. cbn [set_process cl_processes]. destruct (decide (q = p)) as [->|Hne].
  - rewrite (A2 _ _ _ Hq Hp). exists e'. by rewrite !lookup_insert_eq.
  - destruct (A1 _ _ Hq) as (n & Hn & Hc'). exists n. rewrite lookup_insert_ne by done. split; [done|].
    rewrite lookup_insert_ne; [done|]. intros ->. by rewrite Hp in Hq; simplify_eq.
Qed.

Lemma stack_call_cases {Request Response} (call : Peer -> Request -> Z -> stm (InMemoryRaftTransport Node) (option Response))
    (handle : Request -> stm Node Response) peer request timeout (t : Stack) r t' :
  (forall timeout, call peer request timeout = through (fun source => network_call handle source (p_id peer) request timeout)) ->
  faulty_call call peer request timeout t = (r, t') ->
  (r = Ok None /\ untouched (world_of t) (world_of t')) \/
  ((link_key (source_ (delegate_ t)) (p_id peer) ∉ partitions_ (w_network (world_of t))) /\
   exists p e r0 e', endpoints_ (w_network (world_of t)) !! p_id peer = Some p /\ w_heap (world_of t) !! p = Some e /\
     handle request e = (r0, e') /\ r = Some <$> r0 /\ world_of t' = mkWorld (w_network (world_of t)) (<[p := e']> (w_heap (world_of t)))).
Proof.
  intros Hcall Hc. unfold faulty_call, mbind, stm_bind, sget, should_drop, mret, stm_ret in Hc.
  destruct (bernoulli _ _) as [drop rnd]. destruct (drop || _); [left; by simplify_eq|]. rewrite Hcall in Hc.
  unfold on_delegate, through in Hc. cbn [delegate_] in Hc.
  destruct (network_call handle (source_ (delegate_ t)) (p_id peer) request _ (network_ (delegate_ t))) as [r1 w1] eqn:En.
  apply network_call_cases in En. simplify_eq. exact En.
Qed.

(** Whether the link from the source of the transport to the peer is cut. *)
Definition cut_off (t : Stack) (peer : Peer) : Prop :=
  exists a b, (link_key a b ∈ partitions_ (w_network (world_of t))) /\
    ((a = source_ (delegate_ t) /\ b = p_id peer) \/ (a = p_id peer /\ b = source_ (delegate_ t))).

(** A call of the stack whose handler is the step [delivery]. *)
Lemma stack_call_follows {Request Response} (call : Peer -> Request -> Z -> stm (InMemoryRaftTransport Node) (option Response))
    (handle : Request -> stm Node Response) peer request timeout (t : Stack) c delivery
    (post : Response -> Cluster S M -> Cluster S M) (answered : Response -> Cluster S M -> Prop) :
  (forall timeout, call peer request timeout = through (fun source => network_call handle source (p_id peer) request timeout)) ->
  attached (world_of t) c ->
  perform delivery c = section (p_id peer) (handle request) (fun r c' => match r with Ok x => post x c' | Throw _ => c' end) c ->
  (forall x c', cl_processes (post x c') = cl_processes c') -> (forall x c', answered x (post x c')) ->
  let '(r, t') := faulty_call call peer request timeout t in
  follows delivery answered c t t' r /\ (cut_off t peer -> r = Ok None /\ untouched (world_of t) (world_of t')).
Proof.
  intros Hcall Ha Hper Hpost Hans. destruct (faulty_call call peer request timeout t) as [r t'] eqn:Ec.
  apply (stack_call_cases call handle) in Ec as [Hlost|[Hcut (p & e & r0 & e' & Hp & He & Hh & -> & Hw)]]; [|split|done].
  - split; [by left|done].
  - right. destruct (attached_delivers handle (world_of t) c (p_id peer) p e r0 e' request
      (fun r c' => match r with Ok x => post x c' | Throw _ => c' end) Ha Hp He Hh) as (c' & Hs & -> & Hatt); [by intros [x|err] c'|].
    eexists. rewrite Hper, Hs, Hw. split; [reflexivity|]. split; [done|]. intros x Hx. destruct r0 as [y|err]; simplify_eq/=. apply Hans.
  - intros (a & b & Hab & Hor). destruct Hcut. destruct Hor as [[<- <-]|[-> ->]]; [done|]. by rewrite link_key_sym.
Qed.

(** C11: the transports are what the model of the cluster takes the network
    to be.  A vote request, a request to append or a snapshot, sent through
    fault injection over the network of one process, is lost, which leaves
    every endpoint as it was and answers nothing, or it is delivered once: the
    endpoints change by the one step of the cluster in which the addressed
    node handles that request, and an answer that arrives is the one given in
    that step.  Between two nodes whose link is cut, in either direction,
    every call is lost. *)
Theorem transports_follow_cluster (t : Stack) (c : Cluster S M) peer timeout :
  attached (world_of t) c ->
  (forall request, request ∈ cl_vote_requests c ->
     let '(r, t') := tr_request_vote peer request timeout t in
     follows (DeliverVote (p_id peer) request) (fun x c' => (p_id peer, request, x) ∈ cl_vote_replies c') c t t' r /\
     (cut_off t peer -> r = Ok None /\ untouched (world_of t) (world_of t'))) /\
  (forall request, request ∈ cl_append_requests c -> wide (ae_term request) = true ->
     let '(r, t') := tr_append_entries peer request timeout t in
     follows (DeliverAppend (p_id peer) request) (fun x c' => (p_id peer, request, x) ∈ cl_append_replies c') c t t' r /\
     (cut_off t peer -> r = Ok None /\ untouched (world_of t) (world_of t'))) /\
  (forall request, request ∈ cl_snapshot_requests c -> wide (is_term request) = true ->
     let '(r, t') := tr_install_snapshot peer request timeout t in
     follows (DeliverSnapshot (p_id peer) request) (fun x c' => (p_id peer, request, x) ∈ cl_snapshot_replies c') c t t' r /\
     (cut_off t peer -> r = Ok None /\ untouched (world_of t) (world_of t'))).
Proof.
  intros Ha. split_and!; intros request Hr; [|intros Hw..].
  - apply (stack_call_follows _ handle_request_vote _ _ _ _ _ _ (fun x => post_vote_reply (p_id peer, request, x))); try done.
    + simpl. by rewrite bool_decide_eq_true_2.
    + intros x c'. by left.
  - apply (stack_call_follows _ handle_append_entries _ _ _ _ _ _ (fun x => post_append_reply (p_id peer, request, x))); try done.
    + simpl. by rewrite bool_decide_eq_true_2, Hw.
    + intros x c'. by left.
  - apply (stack_call_follows _ handle_install_snapshot _ _ _ _ _ _ (fun x => post_snapshot_reply (p_id peer, request, x))); try done.
    + simpl. by rewrite bool_decide_eq_true_2, Hw.
    + intros x c'. by left.
Qed.
End cluster.

(** ** Witness *)

(** An engine that never drops. *)
#[local] Instance steady_engine : RandomEngine unit := {| seed := fun _ => tt; bernoulli := fun _ r => (false, r) |}.

(** Three nodes are up and node 1 asks for votes. *)
Definition demo_campaign : option (Cluster RaftStorage Recorder) :=
  play [] [Start n1; Start n2; Start n3; Act (fun _ => Some (StartElection n1))] demo_cluster.

Definition demo_stack (n : RaftNode RaftStorage Recorder) (cut : gset (NodeId * NodeId))
    : FaultInjectingTransport (InMemoryRaftTransport (RaftNode RaftStorage Recorder)) unit :=
  mkFaultInjecting (mkTransport n1 (mkWorld (mkNetwork {[n2 := 0%nat]} cut 0 0) {[0%nat := n]}))
    (mkFaultInjectionOptions (Finite 0) 5 1) tt.

Lemma demo_campaign_view :
  ((fun c => (view n2 c, length (cl_vote_requests c))) <$> demo_campaign) = Some (Some (Follower, 0, []), 1%nat).
Proof. vm_compute. reflexivity. Qed.

Lemma transports_follow_cluster_witness :
  exists c n request, attached (world_of (demo_stack n ∅)) c /\ request ∈ cl_vote_requests c /\
    (exists x t', tr_request_vote (peer n2) request 75 (demo_stack n {[link_key n2 n1]}) = (Ok x, t') /\ x = None).
Proof.
  pose proof demo_campaign_view as Hv. destruct demo_campaign as [c|]; [|discriminate]. injection Hv as Hn Hl.
  apply view_up in Hn as (n & Hn & _). destruct (cl_vote_requests c) as [|request rs] eqn:Er; [discriminate|].
  assert (Ha : forall cut, attached (world_of (demo_stack n cut)) c).
  { intros cut. split; cbn.
    - intros id p (<- & <-)%lookup_singleton_Some. exists n. by rewrite lookup_singleton_eq.
    - intros id id' p (<- & _)%lookup_singleton_Some (<- & _)%lookup_singleton_Some. done. }
  exists c, n, request. split; [apply Ha|]. assert (Hin : request ∈ cl_vote_requests c) by (rewrite Er; by left).
  split; [exact Hin|].
  destruct (transports_follow_cluster (demo_stack n {[link_key n2 n1]}) c (peer n2) 75 (Ha _)) as (Hvote & _ & _).
  specialize (Hvote request Hin). destruct (tr_request_vote _ _ _ _) as [r t']. destruct Hvote as [_ Hcut].
  destruct Hcut as [-> _]; [|by exists None, t']. exists n2, n1. split; [change (link_key n2 n1 ∈ ({[link_key n2 n1]} : gset (NodeId * NodeId))); by apply elem_of_singleton|]. right. by split.
Defined.
