(* ===== verification/RaftRpc.v ===== *)
(** * Raft over gRPC

    src/distributed/grpc_raft_transport.cpp and
    src/distributed/raft_grpc_service.cpp: the messages of
    proto/nebulakv/v1/key_value_service.proto, the transport that turns the
    calls of a node into them, and the service that hands them to the node of
    another process.  gRPC itself is the fate of each call: whether the request
    arrives, whether it is cancelled by then, and whether the answer comes
    back; a message that arrives is the message that was sent. *)

From S2P Require Import Prelude FileSystem Store RaftTypes RaftStorage RaftNode RaftElection RaftCluster RaftSafety RaftTransport.

(** ** Messages *)

(** An enumeration of proto3 is open: any number may arrive. *)
Definition PB_NOOP : Z := 0.
Definition PB_PUT : Z := 1.
Definition PB_DELETE : Z := 2.

Record RaftCommand := mkRaftCommand { pb_type : Z; pb_key : str; pb_value : str }.
Record RaftLogEntry := mkRaftLogEntry { pb_index : Z; pb_term : Z; pb_command : RaftCommand }.

(** The messages whose fields are those of include/nebulakv/raft/types.hpp are
    the types of it; a request to append has entries of its own. *)
Record PbAppendEntriesRequest := mkPbAppendRequest {
  pb_ae_term : Z;
  pb_ae_leader_id : str;
  pb_ae_previous_log_index : Z;
  pb_ae_previous_log_term : Z;
  pb_ae_entries : list RaftLogEntry;
  pb_ae_leader_commit : Z
}.

Definition fill_command (source : Command) : RaftCommand :=
  mkRaftCommand (match c_type source with Noop => PB_NOOP | Put => PB_PUT | Delete => PB_DELETE end) (c_key source) (c_value source).

Definition decode_command (command : RaftCommand) : result Command :=
  type ← (if pb_type command =? PB_NOOP then mret Noop
          else if pb_type command =? PB_PUT then mret Put
          else if pb_type command =? PB_DELETE then mret Delete
          else Throw (InvalidArgument "invalid replicated command type"));
  mret (mkCommand type (pb_key command) (pb_value command)).

Definition fill_append (request : AppendEntriesRequest) : PbAppendEntriesRequest :=
  mkPbAppendRequest (ae_term request) (ae_leader_id request) (ae_previous_log_index request) (ae_previous_log_term request)
    (map (fun e => mkRaftLogEntry (le_index e) (le_term e) (fill_command (le_command e))) (ae_entries request)) (ae_leader_commit request).

Fixpoint decode_entries (entries : list RaftLogEntry) : result (list LogEntry) :=
  match entries with
  | [] => mret []
  | e :: rest =>
      command ← decode_command (pb_command e);
      decoded ← decode_entries rest;
      mret (mkLogEntry (pb_index e) (pb_term e) command :: decoded)
  end.

Definition decode_append (request : PbAppendEntriesRequest) : result AppendEntriesRequest :=
  entries ← decode_entries (pb_ae_entries request);
  mret (mkAppendRequest (pb_ae_term request) (pb_ae_leader_id request) (pb_ae_previous_log_index request)
          (pb_ae_previous_log_term request) entries (pb_ae_leader_commit request)).

(** ** The service *)

Inductive RpcCode := RpcOk | RpcCancelled | RpcInvalidArgument | RpcUnknown | RpcUnavailable.

Section service.
Context {E : Type} `{RaftEndpoint E}.

(** A handler of [RaftServiceImpl]: the status, and the response when there is
    one. *)
Definition service_request_vote (cancelled : bool) (request : RequestVoteRequest) : stm E (RpcCode * option RequestVoteResponse) :=
  if cancelled then mret (RpcCancelled, None)
  else
    x ← ep_request_vote request;
    mret (RpcOk, Some x).

Definition service_append_entries (cancelled : bool) (request : PbAppendEntriesRequest) : stm E (RpcCode * option AppendEntriesResponse) :=
  if cancelled then mret (RpcCancelled, None)
  else
    match decode_append request with
    | Throw _ => mret (RpcInvalidArgument, None)
    | Ok decoded =>
        x ← ep_append_entries decoded;
        mret (RpcOk, Some x)
    end.

Definition service_install_snapshot (cancelled : bool) (request : InstallSnapshotRequest) : stm E (RpcCode * option InstallSnapshotResponse) :=
  if cancelled then mret (RpcCancelled, None)
  else
    x ← ep_install_snapshot request;
    mret (RpcOk, Some x).

End service.

(** ** The transport *)

(** The fate of a call.  A request over the limit of the channel, one that
    finds no server and one that is too late do not arrive. *)
Inductive Fate :=
| NotDelivered
| DeliveredTo (cancelled answer_arrives : bool).

(** [gt_stubs] has the address of each peer's channel; [gt_servers] are the
    servers that listen, by address, and [gt_fates] what becomes of the calls to
    come. *)
Record GrpcRaftTransport (E : Type) := mkGrpcTransport {
  gt_stubs : gmap NodeId str;
  gt_servers : gmap str E;
  gt_fates : list Fate
}.
Arguments mkGrpcTransport {E}.
Arguments gt_stubs {E}.
Arguments gt_servers {E}.
Arguments gt_fates {E}.

Definition int_max : Z := 2 ^ 31 - 1.

Definition checked_message_size (bytes : Z) : result Z :=
  _ ← throw_if ((bytes =? 0) || (int_max <? bytes)) (InvalidArgument "maximum gRPC message size is invalid");
  mret bytes.

(** [emplace] keeps the stub of a peer that is there already. *)
Fixpoint make_stubs (peers : list Peer) (stubs : gmap NodeId str) : gmap NodeId str :=
  match peers with
  | [] => stubs
  | p :: rest => make_stubs rest (match stubs !! p_id p with Some _ => stubs | None => <[p_id p := p_address p]> stubs end)
  end.

Section transport.
Context {E : Type} `{RaftEndpoint E}.
Abbreviation Transport := (GrpcRaftTransport E).

(** The constructor; the servers and the fates are the world it is made in. *)
Definition new_grpc_transport (peers : list Peer) (max_message_bytes : Z) (servers : gmap str E) (fates : list Fate) : result Transport :=
  _ ← checked_message_size max_message_bytes;
  mret (mkGrpcTransport (make_stubs peers ∅) servers fates).

Definition stub_for (peer : Peer) : stm Transport str :=
  t ← sget;
  match gt_stubs t !! p_id peer with
  | None => sthrow (InvalidArgument "unknown Raft peer: ")
  | Some address => mret address
  end.

(** A call of a stub.  An exception that leaves the handler is answered with
    UNKNOWN. *)
Definition stub_call {Request Response} (handler : bool -> Request -> stm E (RpcCode * option Response)) (address : str)
    (request : Request) : stm Transport (RpcCode * option Response) := fun t =>
  let fate := default NotDelivered (head (gt_fates t)) in
  let t1 := mkGrpcTransport (gt_stubs t) (gt_servers t) (tail (gt_fates t)) in
  match fate, gt_servers t !! address with
  | DeliveredTo cancelled answer_arrives, Some e =>
      let '(r, e') := handler cancelled request e in
      let t2 := mkGrpcTransport (gt_stubs t) (<[address := e']> (gt_servers t)) (tail (gt_fates t)) in
      (Ok (if answer_arrives then match r with Ok x => x | Throw _ => (RpcUnknown, None) end else (RpcUnavailable, None)), t2)
  | _, _ => (Ok (RpcUnavailable, None), t1)
  end.

(** The text the three calls share: a status that is not OK is no answer. *)
Definition grpc_call {Request Message Response} (fill : Request -> Message)
    (handler : bool -> Message -> stm E (RpcCode * option Response)) (peer : Peer) (request : Request) (timeout : Z)
    : stm Transport (option Response) :=
  address ← stub_for peer;
  x ← stub_call handler address (fill request);
  mret (match x.1 with RpcOk => x.2 | _ => None end).
End transport.

#[export] Instance GrpcRaftTransport_transport {E} `{RaftEndpoint E} : RaftTransport (GrpcRaftTransport E) := {|
  tr_request_vote := grpc_call id service_request_vote;
  tr_append_entries := grpc_call fill_append service_append_entries;
  tr_install_snapshot := grpc_call id service_install_snapshot
|}.

(** ** Messages arrive as they were sent *)

Lemma decode_fill_command c : decode_command (fill_command c) = Ok c.
Proof. by destruct c as [[] k v]. Qed.

Lemma decode_fill_append request : decode_append (fill_append request) = Ok request.
Proof.
  assert (H : forall es, decode_entries (map (fun e => mkRaftLogEntry (le_index e) (le_term e) (fill_command (le_command e))) es) = Ok es).
  { induction es as [|[i t c] es IH]; [done|]. cbn [map decode_entries pb_command]. rewrite decode_fill_command. cbn. by rewrite IH. }
  destruct request. unfold decode_append, fill_append. cbn. by rewrite H.
Qed.

(** A type that is none of the three is refused. *)
Lemma decode_unknown e entries : e ∈ entries -> pb_type (pb_command e) ∉ [PB_NOOP; PB_PUT; PB_DELETE] -> is_Ok (decode_entries entries) = false.
Proof.
  intros He Ht. induction entries as [|e0 rest IH]; [by apply not_elem_of_nil in He|]. apply elem_of_cons in He as [<-|He].
  - simpl. unfold decode_command. rewrite !not_elem_of_cons in Ht. destruct Ht as (H1 & H2 & H3 & _).
    by rewrite (proj2 (Z.eqb_neq _ _) H1), (proj2 (Z.eqb_neq _ _) H2), (proj2 (Z.eqb_neq _ _) H3).
  - simpl. destruct (decode_command _); [|done]. simpl. specialize (IH He). by destruct (decode_entries rest).
Qed.

(** ** The transport follows the cluster model *)

Section cluster.
Context {S M : Type} `{Storage S} `{StateMachine M}.
Abbreviation Node := (RaftNode S M).
Abbreviation Transport := (GrpcRaftTransport Node).

(** The servers the stubs reach are the running processes of the cluster, and
    no two peers have the same address. *)
Definition serving (t : Transport) (c : Cluster S M) : Prop :=
  (forall id address n, gt_stubs t !! id = Some address -> gt_servers t !! address = Some n -> cl_processes c !! id = Some (Up n)) /\
  (forall id id' address, gt_stubs t !! id = Some address -> gt_stubs t !! id' = Some address -> id = id').

(** What a call did: it threw for a peer that is not known; it was lost, and
    no server has changed; or the step [delivery] of the cluster was made, and
    an answer is one given in that step.  When request and answer arrive, the
    answer is returned. *)
Definition grpc_follows {A} (peer : Peer) (delivery : Action) (handle : stm Node A) (answered : A -> Cluster S M -> Prop)
    (c : Cluster S M) (t t' : Transport) (r : result (option A)) : Prop :=
  gt_stubs t' = gt_stubs t /\
  match gt_stubs t !! p_id peer with
  | None => r = Throw (InvalidArgument "unknown Raft peer: ") /\ t' = t
  | Some address =>
      ((r = Ok None /\ gt_servers t' = gt_servers t) \/
       (exists c', perform delivery c = Some c' /\ serving t' c' /\ forall x, r = Ok (Some x) -> answered x c')) /\
      (forall n x n', gt_servers t !! address = Some n -> head (gt_fates t) = Some (DeliveredTo false true) -> handle n = (Ok x, n') ->
         r = Ok (Some x))
  end.

Lemma grpc_call_follows {Request Message Response} (fill : Request -> Message) (handler : bool -> Message -> stm Node (RpcCode * option Response))
    (handle : Request -> stm Node Response) peer request timeout (t : Transport) c delivery
    (post : Response -> Cluster S M -> Cluster S M) (answered : Response -> Cluster S M -> Prop) :
  (forall n, handler true (fill request) n = (Ok (RpcCancelled, None), n)) ->
  (forall n, handler false (fill request) n = ((fun x => (RpcOk, Some x)) <$> (handle request n).1, (handle request n).2)) ->
  serving t c ->
  perform delivery c = section (p_id peer) (handle request) (fun r c' => match r with Ok x => post x c' | Throw _ => c' end) c ->
  (forall x c', cl_processes (post x c') = cl_processes c') -> (forall x c', answered x (post x c')) ->
  let '(r, t') := grpc_call fill handler peer request timeout t in grpc_follows peer delivery (handle request) answered c t t' r.
Proof.
  intros Hcancel Hrun [A1 A2] Hper Hpost Hans. unfold grpc_call, stub_for, mbind, stm_bind, sget, mret, stm_ret, grpc_follows.
  destruct (gt_stubs t !! p_id peer) as [address|] eqn:Es; [|done]. unfold stub_call.
  destruct (gt_fates t) as [|[|cancelled arrives] fates] eqn:Ef; cbn [head default tail id].
  1,2: split; [done|]; split; [by left|by intros n x n' _ [=]].
  destruct (gt_servers t !! address) as [n|] eqn:En; [|split; [done|]; split; [by left|done]].
  destruct cancelled.
  { rewrite Hcancel. split; [done|]. split; [|by intros ? ? ? _ [=]]. left. split; [by destruct arrives|]. simpl. by apply insert_id. }
  rewrite Hrun. destruct (handle request n) as [r0 n'] eqn:Eh. cbn [fst snd]. split; [done|]. split.
  - right. pose proof (A1 _ _ _ Es En) as Hc. exists (match r0 with Ok x => post x (set_process (p_id peer) (Up n') c) | Throw _ => set_process (p_id peer) (Up n') c end).
    rewrite Hper. unfold section. rewrite Hc, Eh. split; [done|]. split; [split; cbn [gt_stubs gt_servers]; [|done]|].
    + intros id a m Hi Hm. assert (Hpr : forall r1 : result Response, cl_processes (match r1 with Ok x => post x (set_process (p_id peer) (Up n') c) | Throw _ => set_process (p_id peer) (Up n') c end)
        = <[p_id peer := Up n']> (cl_processes c)) by (intros [x|]; [apply Hpost|done]). rewrite Hpr.
      destruct (decide (id = p_id peer)) as [->|Hne].
      * rewrite Es in Hi. injection Hi as <-. rewrite lookup_insert_eq in Hm. injection Hm as <-. by rewrite lookup_insert_eq.
      * rewrite lookup_insert_ne by done. assert (a <> address) by (intros ->; by apply Hne; eapply A2).
        rewrite lookup_insert_ne in Hm by done. by eapply A1.
    + intros x. destruct r0 as [y|], arrives; cbn; intros Hx; simplify_eq. apply Hans.
  - intros n0 x n0' Hn Hf Hh. injection Hn as <-. injection Hf as ->. rewrite Eh in Hh. by injection Hh as -> ->.
Qed.

Lemma service_runs {A} (code : stm Node A) (n : Node) :
  (x ← code; mret (RpcOk, Some x)) n = ((fun x => (RpcOk, Some x)) <$> (code n).1, (code n).2).
Proof. unfold mbind, stm_bind. by destruct (code n) as [[x|e] n']. Qed.

(** C12: Raft over gRPC is what the model of the cluster takes a network to be.
    A call to a peer that was not configured throws.  Any other call of the
    transport, whatever becomes of its messages, leaves the servers as they are
    and answers nothing, or makes the one step of the cluster in which the
    addressed node handles the request the caller made, commands and entries
    included, and answers nothing or the answer given in that step; when
    request and answer arrive it answers it.  A request with a command of an
    unknown type is refused before the node is reached. *)
Theorem grpc_transport_follows_cluster (t : Transport) (c : Cluster S M) peer timeout :
  serving t c ->
  (forall request, request ∈ cl_vote_requests c ->
     let '(r, t') := tr_request_vote peer request timeout t in
     grpc_follows peer (DeliverVote (p_id peer) request) (handle_request_vote request)
       (fun x c' => (p_id peer, request, x) ∈ cl_vote_replies c') c t t' r) /\
  (forall request, request ∈ cl_append_requests c -> wide (ae_term request) = true ->
     let '(r, t') := tr_append_entries peer request timeout t in
     grpc_follows peer (DeliverAppend (p_id peer) request) (handle_append_entries request)
       (fun x c' => (p_id peer, request, x) ∈ cl_append_replies c') c t t' r) /\
  (forall request, request ∈ cl_snapshot_requests c -> wide (is_term request) = true ->
     let '(r, t') := tr_install_snapshot peer request timeout t in
     grpc_follows peer (DeliverSnapshot (p_id peer) request) (handle_install_snapshot request)
       (fun x c' => (p_id peer, request, x) ∈ cl_snapshot_replies c') c t t' r) /\
  (forall message e (n : Node), e ∈ pb_ae_entries message -> pb_type (pb_command e) ∉ [PB_NOOP; PB_PUT; PB_DELETE] ->
     service_append_entries false message n = (Ok (RpcInvalidArgument, None), n)).
Proof.
  intros Ha. split_and!; [intros request Hr|intros request Hr Hw..|].
  - apply (grpc_call_follows _ _ handle_request_vote _ _ _ _ _ _ (fun x => post_vote_reply (p_id peer, request, x))); try done.
    + intros n. apply service_runs.
    + simpl. by rewrite bool_decide_eq_true_2.
    + intros x c'. by left.
  - apply (grpc_call_follows _ _ handle_append_entries _ _ _ _ _ _ (fun x => post_append_reply (p_id peer, request, x))); try done.
    + intros n. unfold service_append_entries. rewrite decode_fill_append. apply service_runs.
    + simpl. by rewrite bool_decide_eq_true_2, Hw.
    + intros x c'. by left.
  - apply (grpc_call_follows _ _ handle_install_snapshot _ _ _ _ _ _ (fun x => post_snapshot_reply (p_id peer, request, x))); try done.
    + intros n. apply service_runs.
    + simpl. by rewrite bool_decide_eq_true_2, Hw.
    + intros x c'. by left.
  - intros message e n He Ht. unfold service_append_entries, decode_append. pose proof (decode_unknown e _ He Ht) as Hd.
    by destruct (decode_entries (pb_ae_entries message)).
Qed.
End cluster.

(** ** Witness *)

Definition demo_transport (n : RaftNode RaftStorage Recorder) (fates : list Fate) : GrpcRaftTransport (RaftNode RaftStorage Recorder) :=
  mkGrpcTransport {[n2 := bytes_of "host:1"]} {[bytes_of "host:1" := n]} fates.

Lemma grpc_transport_follows_cluster_witness :
  exists c n request, serving (demo_transport n [DeliveredTo false true]) c /\ request ∈ cl_vote_requests c /\
    (forall x n', handle_request_vote request n = (Ok x, n') ->
       exists c' t', tr_request_vote (peer n2) request 75 (demo_transport n [DeliveredTo false true]) = (Ok (Some x), t') /\
         perform (DeliverVote n2 request) c = Some c' /\ (n2, request, x) ∈ cl_vote_replies c').
Proof.
  pose proof demo_campaign_view as Hv. destruct demo_campaign as [c|]; [|discriminate]. injection Hv as Hn Hl.
  apply view_up in Hn as (n & Hn & _). destruct (cl_vote_requests c) as [|request rs] eqn:Er; [discriminate|].
  assert (Ha : serving (demo_transport n [DeliveredTo false true]) c).
  { split; cbn.
    - intros id a m (<- & <-)%lookup_singleton_Some (_ & <-)%lookup_singleton_Some. exact Hn.
    - intros id id' a (<- & _)%lookup_singleton_Some (<- & _)%lookup_singleton_Some. done. }
  exists c, n, request. split; [exact Ha|]. assert (Hin : request ∈ cl_vote_requests c) by (rewrite Er; by left). split; [exact Hin|].
  intros x n' Hx. destruct (grpc_transport_follows_cluster (demo_transport n [DeliveredTo false true]) c (peer n2) 75 Ha) as (Hvote & _).
  specialize (Hvote request Hin). destruct (tr_request_vote _ _ _ _) as [r t']. destruct Hvote as [_ Hv].
  cbn [demo_transport gt_stubs peer p_id] in Hv. rewrite lookup_singleton_eq in Hv. destruct Hv as [Hcase Hans].
  assert (r = Ok (Some x)) as -> by (by eapply Hans; [apply lookup_singleton_eq|reflexivity|exact Hx]).
  destruct Hcase as [[[=] _]|(c' & Hp & _ & Hrep)]. exists c', t'. split_and!; [reflexivity|exact Hp|]. by apply Hrep.
Defined.
