(* ===== verification/Executor.v ===== *)
(** * The bounded executor

    include/nebulakv/network/bounded_executor.hpp and
    src/network/bounded_executor.cpp: a queue of at most [queue_capacity_]
    tasks and a fixed number of worker threads.  A step is one critical
    section of [mutex_], a notification of [task_available_], the end of a
    task, or one of the two updates of the atomic counters after it; the steps
    of the workers, of the submitters and of [shutdown] interleave in any
    order.  A worker that waits on [task_available_] is blocked until it is
    notified or wakes spuriously, and then tests the predicate again.  The
    events of a run record what became of each task. *)

From S2P Require Import Prelude.

(** ** Definitions *)

(** Where a worker is: about to test the predicate of its wait under the lock,
    blocked on [task_available_], running a task, between the two updates that
    follow it, or out of its loop. *)
Inductive Worker (T : Type) :=
| Waiting
| Blocked
| Running (task : T)
| Counting
| Exited.
Arguments Waiting {T}.
Arguments Blocked {T}.
Arguments Running {T}.
Arguments Counting {T}.
Arguments Exited {T}.

Record BoundedExecutor (T : Type) := mkExecutor {
  worker_count_ : Z;
  queue_capacity_ : Z;
  tasks_ : list T;
  workers_ : list (Worker T);
  accepting_ : bool;
  stopping_ : bool;
  drain_on_shutdown_ : bool;
  active_tasks_ : Z;
  submitted_tasks_ : Z;
  completed_tasks_ : Z;
  rejected_tasks_ : Z
}.
Arguments mkExecutor {T}.
Arguments worker_count_ {T}.
Arguments queue_capacity_ {T}.
Arguments tasks_ {T}.
Arguments workers_ {T}.
Arguments accepting_ {T}.
Arguments stopping_ {T}.
Arguments drain_on_shutdown_ {T}.
Arguments active_tasks_ {T}.
Arguments submitted_tasks_ {T}.
Arguments completed_tasks_ {T}.
Arguments rejected_tasks_ {T}.

Record ExecutorStatistics := mkExecutorStatistics {
  es_worker_count : Z;
  es_queue_capacity : Z;
  es_queued_tasks : Z;
  es_active_tasks : Z;
  es_submitted_tasks : Z;
  es_completed_tasks : Z;
  es_rejected_tasks : Z
}.

Section executor.
Context {T : Type}.
Abbreviation Executor := (BoundedExecutor T).

Definition set_worker (i : nat) (w : Worker T) (e : Executor) : Executor :=
  mkExecutor (worker_count_ e) (queue_capacity_ e) (tasks_ e) (<[i := w]> (workers_ e)) (accepting_ e) (stopping_ e)
    (drain_on_shutdown_ e) (active_tasks_ e) (submitted_tasks_ e) (completed_tasks_ e) (rejected_tasks_ e).
Definition set_tasks (l : list T) (e : Executor) : Executor :=
  mkExecutor (worker_count_ e) (queue_capacity_ e) l (workers_ e) (accepting_ e) (stopping_ e)
    (drain_on_shutdown_ e) (active_tasks_ e) (submitted_tasks_ e) (completed_tasks_ e) (rejected_tasks_ e).
Definition set_counters (active submitted completed rejected : Z) (e : Executor) : Executor :=
  mkExecutor (worker_count_ e) (queue_capacity_ e) (tasks_ e) (workers_ e) (accepting_ e) (stopping_ e)
    (drain_on_shutdown_ e) active submitted completed rejected.

(** The constructor. *)
Definition new_executor (worker_count queue_capacity : Z) : result Executor :=
  _ ← throw_if (worker_count =? 0) (InvalidArgument "worker count must be greater than zero");
  _ ← throw_if (queue_capacity =? 0) (InvalidArgument "queue capacity must be greater than zero");
  mret (mkExecutor worker_count queue_capacity [] (replicate (Z.to_nat worker_count) Waiting) true false true 0 0 0 0).

(** [try_submit]: whether the task was taken. *)
Definition try_submit (task : T) (e : Executor) : bool * Executor :=
  if negb (accepting_ e) || (queue_capacity_ e <=? zlen (tasks_ e)) then
    (false, set_counters (active_tasks_ e) (submitted_tasks_ e) (completed_tasks_ e) (u64 (rejected_tasks_ e + 1)) e)
  else
    (true, set_counters (active_tasks_ e) (u64 (submitted_tasks_ e + 1)) (completed_tasks_ e) (rejected_tasks_ e)
             (set_tasks (tasks_ e ++ [task]) e)).

(** The section of [shutdown]; [None] when another call has made it, and then
    this one returns at once. *)
Definition begin_shutdown (drain : bool) (e : Executor) : option Executor :=
  if stopping_ e then None
  else Some (mkExecutor (worker_count_ e) (queue_capacity_ e) (if drain then tasks_ e else []) (workers_ e) false true drain
               (active_tasks_ e) (submitted_tasks_ e) (completed_tasks_ e) (rejected_tasks_ e)).

(** [shutdown] joins the workers, and returns when all have ended. *)
Definition all_exited (e : Executor) : bool :=
  forallb (fun w => match w with Exited => true | _ => false end) (workers_ e).

(** The section of [worker_loop]: the worker blocks while there is nothing to
    do; [None] when the worker is elsewhere. *)
Definition take_task (i : nat) (e : Executor) : option Executor :=
  match workers_ e !! i with
  | Some Waiting =>
      if negb (stopping_ e || negb (is_nil (tasks_ e))) then Some (set_worker i Blocked e)
      else
        match tasks_ e with
        | [] => if stopping_ e then Some (set_worker i Exited e) else Some e
        | task :: rest =>
            if stopping_ e && negb (drain_on_shutdown_ e) then Some (set_worker i Exited e)
            else Some (set_worker i (Running task)
                         (set_counters (u64 (active_tasks_ e + 1)) (submitted_tasks_ e) (completed_tasks_ e) (rejected_tasks_ e)
                            (set_tasks rest e)))
        end
  | _ => None
  end.

(** A blocked worker wakes. *)
Definition wake (i : nat) (e : Executor) : option Executor :=
  match workers_ e !! i with
  | Some Blocked => Some (set_worker i Waiting e)
  | _ => None
  end.

(** [notify_all]: every blocked worker wakes. *)
Definition woken (w : Worker T) : Worker T := match w with Blocked => Waiting | _ => w end.
Definition notify_all (e : Executor) : Executor :=
  mkExecutor (worker_count_ e) (queue_capacity_ e) (tasks_ e) (map woken (workers_ e)) (accepting_ e) (stopping_ e)
    (drain_on_shutdown_ e) (active_tasks_ e) (submitted_tasks_ e) (completed_tasks_ e) (rejected_tasks_ e).

(** [task()] ends, and the two updates. *)
Definition finish_task (i : nat) (e : Executor) : option Executor :=
  match workers_ e !! i with
  | Some (Running _) =>
      Some (set_worker i Counting
              (set_counters (u64 (active_tasks_ e - 1)) (submitted_tasks_ e) (completed_tasks_ e) (rejected_tasks_ e) e))
  | _ => None
  end.
Definition count_task (i : nat) (e : Executor) : option Executor :=
  match workers_ e !! i with
  | Some Counting =>
      Some (set_worker i Waiting
              (set_counters (active_tasks_ e) (submitted_tasks_ e) (u64 (completed_tasks_ e + 1)) (rejected_tasks_ e) e))
  | _ => None
  end.

Definition statistics (e : Executor) : ExecutorStatistics :=
  mkExecutorStatistics (worker_count_ e) (queue_capacity_ e) (zlen (tasks_ e)) (active_tasks_ e) (submitted_tasks_ e)
    (completed_tasks_ e) (rejected_tasks_ e).

(** ** Runs *)

Inductive Event :=
| Accepted (task : T)
| Rejected (task : T)
| Started (task : T)
| Finished (task : T)
| Dropped (tasks : list T)
| Quiet.

(** What [take_task] means for the tasks. *)
Definition taken (i : nat) (e e' : Executor) : Event :=
  match workers_ e' !! i with Some (Running task) => Started task | _ => Quiet end.
Definition finished (i : nat) (e : Executor) : Event :=
  match workers_ e !! i with Some (Running task) => Finished task | _ => Quiet end.

Inductive worker_step : Executor -> Event -> Executor -> Prop :=
| step_take i e e' : take_task i e = Some e' -> worker_step e (taken i e e') e'
| step_finish i e e' : finish_task i e = Some e' -> worker_step e (finished i e) e'
| step_count i e e' : count_task i e = Some e' -> worker_step e Quiet e'.

(** The notifications that [try_submit] and [shutdown] make once they have
    left their sections.  [notify_one] wakes any one of the blocked workers,
    and does nothing when there is none. *)
Inductive Notification := NotifyOne | NotifyAll.

Inductive notified : Notification -> Executor -> Executor -> Prop :=
| notified_one i e e' : wake i e = Some e' -> notified NotifyOne e e'
| notified_none e : Blocked ∉ workers_ e -> notified NotifyOne e e
| notified_all e : notified NotifyAll e (notify_all e).

(** The executor, and the notifications that are still to be made. *)
Definition Situation : Type := Executor * list Notification.

(** The steps that need no new call: those of the workers, the notifications
    of the calls under way, and spurious wakeups. *)
Inductive inner_step : Situation -> Event -> Situation -> Prop :=
| inner_worker e ev e' calls : worker_step e ev e' -> inner_step (e, calls) ev (e', calls)
| inner_notify before call after e e' : notified call e e' -> inner_step (e, before ++ call :: after) Quiet (e', before ++ after).

Inductive executor_step : Situation -> Event -> Situation -> Prop :=
| step_submit task e calls :
    executor_step (e, calls) (if (try_submit task e).1 then Accepted task else Rejected task)
      ((try_submit task e).2, if (try_submit task e).1 then NotifyOne :: calls else calls)
| step_shutdown drain e e' calls : begin_shutdown drain e = Some e' ->
    executor_step (e, calls) (if drain then Quiet else Dropped (tasks_ e)) (e', NotifyAll :: calls)
| step_spurious i e e' calls : wake i e = Some e' -> executor_step (e, calls) Quiet (e', calls)
| step_inner s ev s' : inner_step s ev s' -> executor_step s ev s'.

(** A run from a new executor, and its events, the last one first. *)
Inductive executor_run (w q : Z) : list Event -> Situation -> Prop :=
| run_new e : new_executor w q = Ok e -> executor_run w q [] (e, [])
| run_step evs s ev s' : executor_run w q evs s -> executor_step s ev s' -> executor_run w q (ev :: evs) s'.

Definition accepted_by (ev : Event) : list T := match ev with Accepted t => [t] | _ => [] end.
Definition started_by (ev : Event) : list T := match ev with Started t => [t] | _ => [] end.
Definition finished_by (ev : Event) : list T := match ev with Finished t => [t] | _ => [] end.
Definition dropped_by (ev : Event) : list T := match ev with Dropped ts => ts | _ => [] end.
Definition rejected_by (ev : Event) : list T := match ev with Rejected t => [t] | _ => [] end.

(** The tasks of some kind of event, in the order they came. *)
Definition tasks_of (kind : Event -> list T) (evs : list Event) : list T := concat (map kind (reverse evs)).

Definition running (w : Worker T) : list T := match w with Running t => [t] | _ => [] end.
Definition counting (w : Worker T) : list unit := match w with Counting => [tt] | _ => [] end.
End executor.
Arguments Event : clear implicits.
Arguments Situation : clear implicits.


(** ** The invariant *)

Section invariant.
Context {T : Type}.
Abbreviation Executor := (BoundedExecutor T).
Implicit Types (e : Executor) (evs : list (Event T)).

Lemma tasks_of_cons kind (ev : Event T) evs : tasks_of kind (ev :: evs) = tasks_of kind evs ++ kind ev.
Proof. unfold tasks_of. rewrite reverse_cons, map_app, concat_app. simpl. by rewrite app_nil_r. Qed.

Lemma concat_set {A} (f : Worker T -> list A) ws i w w' :
  ws !! i = Some w ->
  exists rest, concat (map f ws) ≡ₚ f w ++ rest /\ concat (map f (<[i := w']> ws)) ≡ₚ f w' ++ rest.
Proof.
  intros Hi. exists (concat (map f (take i ws)) ++ concat (map f (drop (S i) ws))). split.
  - rewrite <- (take_drop_middle ws i w Hi) at 1. rewrite map_app, concat_app. cbn [map concat]. by rewrite Permutation_app_swap_app.
  - rewrite insert_take_drop by by eapply lookup_lt_Some. rewrite map_app, concat_app. cbn [map concat]. by rewrite Permutation_app_swap_app.
Qed.

(** The tasks that workers run. *)
Definition in_progress e : list T := concat (map running (workers_ e)).
Definition uncounted e : Z := zlen (concat (map counting (workers_ e))).

Record executor_inv (w q : Z) evs e : Prop := {
  ei_count : worker_count_ e = w /\ queue_capacity_ e = q /\ zlen (workers_ e) = w;
  ei_queue : zlen (tasks_ e) <= q;
  ei_accepting : accepting_ e = negb (stopping_ e);
  ei_fifo : tasks_of accepted_by evs = tasks_of started_by evs ++ tasks_of dropped_by evs ++ tasks_ e;
  ei_dropped : stopping_ e && negb (drain_on_shutdown_ e) = false -> tasks_of dropped_by evs = [];
  ei_cleared : stopping_ e && negb (drain_on_shutdown_ e) = true -> tasks_ e = [];
  ei_progress : tasks_of started_by evs ≡ₚ tasks_of finished_by evs ++ in_progress e;
  ei_active : active_tasks_ e = zlen (in_progress e);
  ei_submitted : submitted_tasks_ e = u64 (zlen (tasks_of accepted_by evs));
  ei_completed : completed_tasks_ e = u64 (zlen (tasks_of finished_by evs) - uncounted e);
  ei_rejected : rejected_tasks_ e = u64 (zlen (tasks_of rejected_by evs));
  ei_exited : Exited ∈ workers_ e -> stopping_ e = true /\ tasks_ e = []
}.

Lemma zlen_perm {A} (a b : list A) : a ≡ₚ b -> zlen a = zlen b.
Proof. intros H. unfold zlen. by rewrite H. Qed.

Lemma in_progress_bound e : zlen (in_progress e) <= zlen (workers_ e).
Proof.
  unfold in_progress. induction (workers_ e) as [|x ws IH]; [done|]. cbn [map concat]. rewrite zlen_app, zlen_cons.
  destruct x; unfold running, zlen in *; simpl; lia.
Qed.

Lemma inv_new w q e : 0 < w -> new_executor w q = Ok e -> 0 < q -> executor_inv w q [] e.
Proof.
  intros Hw H Hq. unfold new_executor in H. inv_ok. zbool. 
  assert (Hr : forall A (f : Worker T -> list A), f Waiting = [] -> concat (map f (replicate (Z.to_nat w) Waiting)) = []).
  { intros A f Hf. induction (Z.to_nat w) as [|n IH]; [done|]. cbn. by rewrite Hf. }
  split; unfold in_progress, uncounted; cbn [worker_count_ queue_capacity_ workers_ tasks_ stopping_ drain_on_shutdown_ accepting_ active_tasks_
    submitted_tasks_ completed_tasks_ rejected_tasks_]; rewrite ?Hr by done; try done.
  - split_and!; [done|done|]. unfold zlen. rewrite length_replicate. lia.
  - unfold zlen. simpl. lia.
  - intros Hin. apply elem_of_replicate in Hin as [? _]. done.
Qed.

Ltac events := rewrite ?tasks_of_cons; cbn [accepted_by started_by finished_by dropped_by rejected_by]; rewrite ?app_nil_r.
Ltac fields := cbn [worker_count_ queue_capacity_ workers_ tasks_ stopping_ drain_on_shutdown_ accepting_ active_tasks_
    submitted_tasks_ completed_tasks_ rejected_tasks_ set_worker set_tasks set_counters].

Lemma inv_submit w q evs e task :
  executor_inv w q evs e -> executor_inv w q ((if (try_submit task e).1 then Accepted task else Rejected task) :: evs) (try_submit task e).2.
Proof.
  intros [I1 I2 I3 I4 I5 I6 I7 I8 I9 I10 I11 I12]. destruct I1 as (C1 & C2 & C3). unfold try_submit. rewrite I3, C2.
  destruct (negb (negb (stopping_ e)) || (q <=? zlen (tasks_ e))) eqn:E; cbn [fst snd].
  - split; events; fields; try done. rewrite I11, u64_add_l, zlen_app. done.
  - apply orb_false_iff in E as [Es Eq]. rewrite negb_involutive in Es. zbool. split; events; fields; try done.
    + rewrite zlen_app. change (zlen [task]) with 1. lia.
    + by rewrite I4, <- !app_assoc.
    + by rewrite Es.
    + rewrite I9, u64_add_l, zlen_app. done.
    + intros H. destruct (I12 H). congruence.
Qed.

Lemma inv_shutdown w q evs e drain e' :
  executor_inv w q evs e -> begin_shutdown drain e = Some e' ->
  executor_inv w q ((if drain then Quiet else Dropped (tasks_ e)) :: evs) e'.
Proof.
  intros [I1 I2 I3 I4 I5 I6 I7 I8 I9 I10 I11 I12]. unfold begin_shutdown. destruct (stopping_ e) eqn:Es; [done|]. intros [= <-].
  specialize (I5 eq_refl). assert (Hx : Exited ∉ workers_ e) by (intros H; by destruct (I12 H)).
  destruct drain; split; events; fields; try done; simpl.
  - unfold zlen in *. simpl. destruct I1 as (_ & <- & _). pose proof (zlen_nonneg (tasks_ e)). unfold zlen in *. lia.
Qed.

(** A worker moves from [x] to [y], the tasks in progress and those to be
    counted with it. *)
Lemma worker_moves e i x y :
  workers_ e !! i = Some x ->
  exists rest n, in_progress e ≡ₚ running x ++ rest /\ concat (map running (<[i := y]> (workers_ e))) ≡ₚ running y ++ rest /\
    uncounted e = zlen (counting x) + n /\ zlen (concat (map counting (<[i := y]> (workers_ e)))) = zlen (counting y) + n /\
    zlen (<[i := y]> (workers_ e)) = zlen (workers_ e).
Proof.
  intros Hi. destruct (concat_set running (workers_ e) i x y Hi) as (r1 & R1 & R2).
  destruct (concat_set counting (workers_ e) i x y Hi) as (r2 & R3 & R4). exists r1, (zlen r2).
  unfold uncounted. rewrite (zlen_perm _ _ R3), (zlen_perm _ _ R4), !zlen_app. split_and!; try done. unfold zlen. by rewrite length_insert.
Qed.

Lemma still_exited e i y : y <> Exited -> Exited ∈ <[i := y]> (workers_ e) -> Exited ∈ workers_ e.
Proof.
  intros Hy Hx. apply list_elem_of_lookup in Hx as [j Hj]. apply list_lookup_insert_Some in Hj as [(-> & ? & _)|[_ Hj]]; [done|].
  by eapply list_elem_of_lookup_2.
Qed.

(** A worker that runs nothing and has nothing to count moves to another such
    place. *)
Definition idle (x : Worker T) : bool := match x with Waiting | Blocked | Exited => true | _ => false end.

Lemma inv_idle w q evs e i x y :
  executor_inv w q evs e -> workers_ e !! i = Some x -> idle x = true -> idle y = true ->
  (y = Exited -> stopping_ e = true /\ tasks_ e = []) -> executor_inv w q (Quiet :: evs) (set_worker i y e).
Proof.
  intros [I1 I2 I3 I4 I5 I6 I7 I8 I9 I10 I11 I12] Hi Hx Hy Hex.
  destruct (worker_moves e i x y Hi) as (rest & n & R1 & R2 & R3 & R4 & R5).
  assert (Hr : forall z : Worker T, idle z = true -> running z = [] /\ counting z = []) by by intros [].
  destruct (Hr x Hx) as [Ex1 Ex2], (Hr y Hy) as [Ey1 Ey2]. rewrite Ex1 in R1. rewrite Ex2 in R3. rewrite Ey1 in R2. rewrite Ey2 in R4.
  simpl in *. split; events; unfold in_progress, uncounted; fields; try done.
  - by rewrite R5.
  - by rewrite R2, <- R1.
  - rewrite I8. apply zlen_perm. by rewrite R2, <- R1.
  - by rewrite R4, I10, R3.
  - intros H. destruct y; try done; [apply I12; revert H; by apply still_exited..|by apply Hex].
Qed.

Lemma inv_quiet w q evs e : executor_inv w q evs e -> executor_inv w q (Quiet :: evs) e.
Proof. intros []. split; events; done. Qed.

Lemma inv_wake w q evs e i e' : executor_inv w q evs e -> wake i e = Some e' -> executor_inv w q (Quiet :: evs) e'.
Proof.
  intros I H. unfold wake in H. destruct (workers_ e !! i) as [[]|] eqn:Ei; try done. injection H as <-. by eapply inv_idle.
Qed.

Lemma inv_notify_all w q evs e : executor_inv w q evs e -> executor_inv w q (Quiet :: evs) (notify_all e).
Proof.
  intros [I1 I2 I3 I4 I5 I6 I7 I8 I9 I10 I11 I12].
  assert (Hr : forall A (f : Worker T -> list A), f Waiting = f Blocked -> concat (map f (map woken (workers_ e))) = concat (map f (workers_ e))).
  { intros A f Hf. rewrite map_map. f_equal. apply map_ext. by intros []. }
  split; events; unfold in_progress, uncounted, notify_all; fields; rewrite ?Hr by done; try done.
  - unfold zlen. by rewrite length_map.
  - intros H. apply I12. apply list_elem_of_fmap in H as (y & Hy & Hin). by destruct y.
Qed.

(** What the section of a worker does. *)
Lemma take_cases w q evs e i e' :
  executor_inv w q evs e -> take_task i e = Some e' -> workers_ e !! i = Some Waiting /\
  ((tasks_ e = [] /\ e' = set_worker i (if stopping_ e then Exited else Blocked) e) \/
   (exists task rest, tasks_ e = task :: rest /\ stopping_ e && negb (drain_on_shutdown_ e) = false /\
      e' = set_worker i (Running task) (set_counters (u64 (active_tasks_ e + 1)) (submitted_tasks_ e) (completed_tasks_ e)
             (rejected_tasks_ e) (set_tasks rest e)))).
Proof.
  intros I H. unfold take_task in H. destruct (workers_ e !! i) as [[]|] eqn:Ei; [|done..]. split; [done|].
  pose proof (ei_cleared _ _ _ _ I) as Hc. destruct (tasks_ e) as [|task rest] eqn:Et.
  - left. split; [done|]. destruct (stopping_ e); simpl in H; by injection H as <-.
  - right. exists task, rest. rewrite orb_true_r in H. simpl in H. destruct (stopping_ e && negb (drain_on_shutdown_ e)); [by specialize (Hc eq_refl)|].
    by injection H as <-.
Qed.

Lemma inv_take w q evs e i e' :
  w <= u64_max -> executor_inv w q evs e -> take_task i e = Some e' -> executor_inv w q (taken i e e' :: evs) e'.
Proof.
  intros Hw I H. apply (take_cases w q evs) in H as (Ei & Hcases); [|done].
  assert (Hi : forall y, <[i := y]> (workers_ e) !! i = Some y) by (intros y; apply list_lookup_insert_eq; by eapply lookup_lt_Some).
  destruct Hcases as [(Et & ->)|(task & rest & Et & Ed & ->)].
  - replace (taken i e _) with (@Quiet T); [|unfold taken; cbn [set_worker workers_]; rewrite Hi; by destruct (stopping_ e)].
    eapply inv_idle; [done|done|done|by destruct (stopping_ e)..].
  - destruct I as [I1 I2 I3 I4 I5 I6 I7 I8 I9 I10 I11 I12]. rewrite Et in *.
    specialize (I5 Ed). unfold taken. cbn [set_worker workers_ set_counters set_tasks]. rewrite Hi.
    destruct (worker_moves e i Waiting (Running task) Ei) as (rs & n & R1 & R2 & R3 & R4 & R5). cbn [running counting] in *.
    split; events; unfold in_progress, uncounted; fields; try done.
    + by rewrite R5.
    + rewrite zlen_cons in I2. lia.
    + rewrite I4, I5. simpl. by rewrite <- app_assoc.
    + by rewrite Ed.
    + rewrite I7, R2, R1. simpl. rewrite <- app_assoc. apply Permutation_app_head. symmetry. apply Permutation_cons_append.
    + rewrite I8, (zlen_perm _ _ R1), (zlen_perm _ _ R2). simpl. rewrite zlen_cons. rewrite u64_small; [lia|].
      pose proof (in_progress_bound (set_worker i (Running task) e)) as Hb. unfold in_progress in Hb. cbn [set_worker workers_] in Hb.
      rewrite (zlen_perm _ _ R2), R5 in Hb. simpl in Hb. rewrite zlen_cons in Hb. pose proof (zlen_nonneg rs). destruct I1 as (_ & _ & C3). lia.
    + by rewrite R4, I10, R3.
    + intros Hx. apply still_exited in Hx; [|done]. destruct (I12 Hx). done.
Qed.

Lemma inv_finish w q evs e i e' :
  w <= u64_max -> executor_inv w q evs e -> finish_task i e = Some e' -> executor_inv w q (finished i e :: evs) e'.
Proof.
  intros Hw [I1 I2 I3 I4 I5 I6 I7 I8 I9 I10 I11 I12] H. unfold finish_task in H. unfold finished.
  destruct (workers_ e !! i) as [[| |task| |]|] eqn:Ei; [done|done| |done..]. injection H as <-.
  destruct (worker_moves e i (Running task) Counting Ei) as (rs & n & R1 & R2 & R3 & R4 & R5). cbn [running counting] in *.
  pose proof (zlen_nonneg rs). pose proof (in_progress_bound e) as Hb. rewrite (zlen_perm _ _ R1), zlen_app in Hb. change (zlen [task]) with 1 in Hb.
  split; events; unfold in_progress, uncounted; fields; try done.
  - by rewrite R5.
  - by rewrite I7, R1, R2, <- app_assoc.
  - rewrite I8, (zlen_perm _ _ R1), (zlen_perm _ _ R2), zlen_app. change (zlen [task]) with 1. simpl. destruct I1 as (_ & _ & C3).
    rewrite u64_small; [lia|]. lia.
  - rewrite R4, I10, R3, zlen_app. change (zlen [task]) with 1. change (zlen [tt]) with 1. change (zlen (@nil unit)) with 0. f_equal. lia.
  - intros Hx. apply I12. revert Hx. by apply still_exited.
Qed.

Lemma inv_count w q evs e i e' :
  executor_inv w q evs e -> count_task i e = Some e' -> executor_inv w q (Quiet :: evs) e'.
Proof.
  intros [I1 I2 I3 I4 I5 I6 I7 I8 I9 I10 I11 I12] H. unfold count_task in H.
  destruct (workers_ e !! i) as [[| | | |]|] eqn:Ei; [done|done|done| |done..]. injection H as <-.
  destruct (worker_moves e i Counting Waiting Ei) as (rs & n & R1 & R2 & R3 & R4 & R5). cbn [running counting] in *.
  split; events; unfold in_progress, uncounted; fields; try done.
  - by rewrite R5.
  - by rewrite I7, R1, R2.
  - rewrite I8, (zlen_perm _ _ R1), (zlen_perm _ _ R2). done.
  - rewrite R4, I10, R3, u64_add_l. change (zlen [tt]) with 1. change (zlen (@nil unit)) with 0. f_equal. lia.
  - intros Hx. apply I12. revert Hx. by apply still_exited.
Qed.

(** *** Nobody sleeps through a notification *)

Definition awake (x : Worker T) : Prop := match x with Waiting | Running _ | Counting => True | _ => False end.

(** While the executor stops, a worker is blocked only until the
    notification of [shutdown]; and while there are tasks, a worker is awake or
    a [notify_one] is still to come. *)
Record wake_inv (s : Situation T) : Prop := {
  wi_stopping : stopping_ s.1 = true -> Blocked ∈ workers_ s.1 -> NotifyAll ∈ s.2;
  wi_tasks : tasks_ s.1 <> [] -> NotifyOne ∈ s.2 \/ exists x, x ∈ workers_ s.1 /\ awake x
}.

Lemma in_insert (ws : list (Worker T)) i x y : x ∈ <[i := y]> ws -> x = y \/ x ∈ ws.
Proof.
  intros Hx. apply list_elem_of_lookup in Hx as [j Hj].
  apply list_lookup_insert_Some in Hj as [(-> & <- & _)|[_ Hj]]; [by left|right]. by eapply list_elem_of_lookup_2.
Qed.

Lemma insert_in (ws : list (Worker T)) i x y : ws !! i = Some x -> y ∈ <[i := y]> ws.
Proof. intros H%lookup_lt_Some. eapply list_elem_of_lookup_2. by apply list_lookup_insert_eq. Qed.

(** A worker moves to a place where it is awake. *)
Lemma wake_awake e calls i x y e' :
  wake_inv (e, calls) -> workers_ e !! i = Some x -> awake y -> workers_ e' = <[i := y]> (workers_ e) -> stopping_ e' = stopping_ e ->
  wake_inv (e', calls).
Proof.
  intros [W1 W2] Hi Hy Hw Hs. split; simpl in *; rewrite Hw.
  - rewrite Hs. intros Hst [<-|Hb]%in_insert; [done|]. by apply W1.
  - intros _. right. exists y. split; [by eapply insert_in|done].
Qed.

(** A worker leaves a place, and there is no task. *)
Lemma wake_no_task e calls i y :
  wake_inv (e, calls) -> tasks_ e = [] -> (stopping_ e = true -> y <> Blocked) -> wake_inv (set_worker i y e, calls).
Proof.
  intros [W1 W2] Ht Hy. split; simpl in *; [|done]. intros Hs [Hb|Hb]%in_insert; [by destruct (Hy Hs)|]. by apply W1.
Qed.

Lemma wake_worker w q evs e ev e' calls :
  executor_inv w q evs e -> wake_inv (e, calls) -> worker_step e ev e' -> wake_inv (e', calls).
Proof.
  intros I HW Hs. destruct Hs as [i e e' H|i e e' H|i e e' H].
  - apply (take_cases w q evs) in H as (Ei & [(Et & ->)|(task & rest & Et & _ & ->)]); [| |done].
    + apply wake_no_task; [done|done|]. by intros ->.
    + by eapply wake_awake; [exact HW|exact Ei| |reflexivity|].
  - unfold finish_task in H. destruct (workers_ e !! i) as [[]|] eqn:Ei; try done. injection H as <-.
    by eapply wake_awake; [exact HW|exact Ei| |reflexivity|].
  - unfold count_task in H. destruct (workers_ e !! i) as [[]|] eqn:Ei; try done. injection H as <-.
    by eapply wake_awake; [exact HW|exact Ei| |reflexivity|].
Qed.

Lemma wake_woken e calls i e' : wake_inv (e, calls) -> wake i e = Some e' -> wake_inv (e', calls).
Proof.
  intros HW H. unfold wake in H. destruct (workers_ e !! i) as [[]|] eqn:Ei; try done. injection H as <-.
  by eapply wake_awake; [exact HW|exact Ei| |reflexivity|].
Qed.

(** When no worker is blocked and there are tasks, some worker is awake. *)
Lemma someone_awake w q evs e : 0 < w -> executor_inv w q evs e -> Blocked ∉ workers_ e -> tasks_ e <> [] -> exists x, x ∈ workers_ e /\ awake x.
Proof.
  intros Hw I Hb Ht. pose proof (ei_count _ _ _ _ I) as (_ & _ & C3). pose proof (ei_exited _ _ _ _ I) as Hex.
  destruct (workers_ e) as [|x ws]; [rewrite <- C3 in Hw; by compute in Hw|]. exists x. split; [by left|].
  destruct x; simpl; try done; [by destruct Hb; left|]. by destruct (Hex ltac:(by left)).
Qed.

Lemma wake_notified w q evs before call after e e' :
  0 < w -> executor_inv w q evs e -> wake_inv (e, before ++ call :: after) -> notified call e e' -> wake_inv (e', before ++ after).
Proof.
  intros Hw I HW Hn.
  assert (Hmem : forall c, c <> call -> c ∈ before ++ call :: after -> c ∈ before ++ after).
  { intros c Hc. rewrite !elem_of_app, elem_of_cons. intros [?|[?|?]]; [by left|done|by right]. }
  destruct Hn as [i e e' H|e H|e].
  - unfold wake in H. destruct (workers_ e !! i) as [[]|] eqn:Ei; try done. injection H as <-. destruct HW as [W1 _]. split; simpl in *.
    + intros Hs [?|Hb]%in_insert; [done|]. apply Hmem; [done|]. by apply W1.
    + intros _. right. exists Waiting. split; [by eapply insert_in|done].
  - destruct HW as [W1 _]. split; simpl in *; [intros _ Hb; done|]. intros Ht. right. by eapply someone_awake.
  - assert (Hb : Blocked ∉ map woken (workers_ e)).
    { intros (x & Hx & _)%list_elem_of_fmap. by destruct x. }
    split; simpl; [done|]. intros Ht. right.
    by apply (someone_awake w q (Quiet :: evs) (notify_all e)); [|apply inv_notify_all| |].
Qed.

Lemma run_inv w q evs s : is_u64 w -> is_u64 q -> executor_run w q evs s -> 0 < w /\ executor_inv w q evs s.1 /\ wake_inv s.
Proof.
  intros Hw Hq. unfold is_u64 in *. induction 1 as [e H|evs s ev s' _ (Hp & I & HW) Hs].
  - pose proof H as H'. unfold new_executor in H'. inv_ok. zbool. split_and!; [lia|apply inv_new; [lia|done|lia]|].
    split; simpl; [done|done].
  - split; [done|]. destruct Hs as [task e calls|drain e e' calls H|i e e' calls H|s ev s' Hs].
    + split; [by apply inv_submit|]. destruct HW as [W1 W2]. unfold try_submit. simpl in *.
      destruct (negb (accepting_ e) || _); simpl; split; simpl; try done; [|intros _; left; by left].
      intros Hst Hb. right. by apply W1.
    + split; [by apply inv_shutdown|]. destruct HW as [W1 W2]. unfold begin_shutdown in H. destruct (stopping_ e); [done|]. injection H as <-.
      split; simpl in *; [intros; by left|]. destruct drain; [|done]. intros Ht. destruct (W2 Ht) as [?|?]; [left; by right|by right].
    + split; [by eapply inv_wake|by eapply wake_woken].
    + destruct Hs as [e ev e' calls Hs|before call after e e' Hn].
      * split; [|by eapply wake_worker].
        destruct Hs as [i e e' H|i e e' H|i e e' H]; [apply inv_take; [lia|done..]|apply inv_finish; [lia|done..]|by eapply inv_count].
      * split; [|by eapply wake_notified]. destruct Hn as [i e e' H|e H|e]; [by eapply inv_wake|by eapply inv_quiet|by apply inv_notify_all].
Qed.

(** *** The end of a shutdown *)

Definition worker_work (x : Worker T) : nat :=
  match x with Waiting => 1 | Blocked => 2 | Running _ => 3 | Counting => 2 | Exited => 0 end.

(** A bound on what is still to be done once no more tasks are accepted. *)
Definition work_left (s : Situation T) : nat := 3 * length (tasks_ s.1) + sum_list (map worker_work (workers_ s.1)) + length s.2.

(** Any step but a call. *)
Definition own_step (s s' : Situation T) : Prop :=
  exists ev, inner_step s ev s' \/ exists i, wake i s.1 = Some s'.1 /\ s'.2 = s.2 /\ ev = Quiet.

Lemma own_run w q evs s s' : executor_run w q evs s -> own_step s s' -> exists ev, executor_run w q (ev :: evs) s'.
Proof.
  intros Hr (ev & [Hs|(i & Hi & Hc & ->)]); [exists ev; eapply run_step; [exact Hr|by apply step_inner]|].
  exists Quiet. eapply run_step; [exact Hr|]. destruct s, s'. simpl in *. subst. by eapply step_spurious.
Qed.

Lemma sum_set ws i (x y : Worker T) :
  ws !! i = Some x -> (sum_list (map worker_work (<[i := y]> ws)) + worker_work x = sum_list (map worker_work ws) + worker_work y)%nat.
Proof.
  revert i. induction ws as [|z ws IH]; intros [|i] Hi; [done|done|..]; simpl in *; [injection Hi as ->; lia|]. specialize (IH i Hi). lia.
Qed.

Lemma wake_work i e e' : wake i e = Some e' ->
  (sum_list (map worker_work (workers_ e')) < sum_list (map worker_work (workers_ e)))%nat /\ tasks_ e' = tasks_ e /\ stopping_ e' = stopping_ e.
Proof.
  intros H. unfold wake in H. destruct (workers_ e !! i) as [[]|] eqn:Ei; try done. injection H as <-. fields.
  pose proof (sum_set _ i _ Waiting Ei) as H1. cbn [worker_work] in H1. split_and!; [lia|done..].
Qed.

Lemma notify_all_work e : (sum_list (map worker_work (map woken (workers_ e))) <= sum_list (map worker_work (workers_ e)))%nat.
Proof. induction (workers_ e) as [|x ws IH]; simpl; [lia|]. destruct x; simpl; lia. Qed.

Lemma worker_step_work w q evs e ev e' :
  executor_inv w q evs e -> stopping_ e = true -> worker_step e ev e' ->
  (3 * length (tasks_ e') + sum_list (map worker_work (workers_ e')) < 3 * length (tasks_ e) + sum_list (map worker_work (workers_ e)))%nat /\
  stopping_ e' = true.
Proof.
  intros I Hst Hs. destruct Hs as [i e e' H|i e e' H|i e e' H].
  - apply (take_cases w q evs) in H as (Ei & [(Et & ->)|(task & rest & Et & _ & ->)]); [| |done]; fields; rewrite Et; (split; [|done]).
    + rewrite Hst. pose proof (sum_set _ i _ Exited Ei) as H1. cbn [worker_work] in H1. lia.
    + pose proof (sum_set _ i _ (Running task) Ei) as H1. cbn [worker_work] in H1. simpl length. lia.
  - unfold finish_task in H. destruct (workers_ e !! i) as [[]|] eqn:Ei; try done. injection H as <-. fields.
    pose proof (sum_set _ i _ Counting Ei) as H1. cbn [worker_work] in H1. split; [lia|done].
  - unfold count_task in H. destruct (workers_ e !! i) as [[]|] eqn:Ei; try done. injection H as <-. fields.
    pose proof (sum_set _ i _ Waiting Ei) as H1. cbn [worker_work] in H1. split; [lia|done].
Qed.

Lemma own_step_work w q evs s s' :
  executor_inv w q evs s.1 -> stopping_ s.1 = true -> own_step s s' -> (work_left s' < work_left s)%nat /\ stopping_ s'.1 = true.
Proof.
  intros I Hst (ev & [Hs|(i & Hi & Hc & ->)]); unfold work_left.
  - destruct Hs as [e ev e' calls Hs|before call after e e' Hn]; simpl in *.
    + destruct (worker_step_work _ _ _ _ _ _ I Hst Hs). split; [lia|done].
    + rewrite !length_app. simpl length. destruct Hn as [i e e' H|e H|e].
      * destruct (wake_work _ _ _ H) as (H1 & -> & ->). split; [lia|done].
      * split; [lia|done].
      * pose proof (notify_all_work e). unfold notify_all. fields. split; [lia|done].
  - destruct (wake_work _ _ _ Hi) as (H1 & -> & ->). rewrite Hc. split; [lia|done].
Qed.

Lemma own_steps_bounded w q n s s' : is_u64 w -> is_u64 q -> nsteps own_step n s s' ->
  forall evs, executor_run w q evs s -> stopping_ s.1 = true -> (n + work_left s' <= work_left s)%nat.
Proof.
  intros Hw Hq. induction 1 as [s|n s1 s2 s3 H1 _ IH]; intros evs Hr Hs; [lia|].
  destruct (run_inv _ _ _ _ Hw Hq Hr) as (_ & I & _). destruct (own_step_work _ _ _ _ _ I Hs H1) as [? Hs2].
  destruct (own_run _ _ _ _ _ Hr H1) as [ev Hr2]. specialize (IH _ Hr2 Hs2). lia.
Qed.

(** A worker that is awake can go on. *)
Lemma awake_steps e calls x : x ∈ workers_ e -> awake x -> exists ev s', inner_step (e, calls) ev s'.
Proof.
  intros Hx Ha. apply list_elem_of_lookup in Hx as [i Hi].
  assert (Ht : exists ev e', worker_step e ev e').
  { destruct x as [| |task| |]; try done.
    - destruct (take_task i e) as [e'|] eqn:E; [exists (taken i e e'), e'; by constructor|]. exfalso. unfold take_task in E.
      rewrite Hi in E. by destruct (stopping_ e), (tasks_ e), (drain_on_shutdown_ e).
    - exists (finished i e). eexists. apply step_finish. unfold finish_task. by rewrite Hi.
    - exists Quiet. eexists. eapply (step_count i). unfold count_task. by rewrite Hi. }
  destruct Ht as (ev & e' & Ht). exists ev, (e', calls). by constructor.
Qed.

Lemma blocked_or_not (ws : list (Worker T)) : (exists i, ws !! i = Some Blocked) \/ Blocked ∉ ws.
Proof.
  induction ws as [|x ws [[i Hi]|IH]]; [right; by apply not_elem_of_nil|left; by exists (S i)|].
  destruct x; try (right; apply not_elem_of_cons; by split). left. by exists 0%nat.
Qed.

Lemma notify_steps e calls call : call ∈ calls -> exists ev s', inner_step (e, calls) ev s'.
Proof.
  intros (before & after & ->)%list_elem_of_split. exists Quiet.
  assert (Hn : exists e', notified call e e'); [|destruct Hn as [e' Hn]; exists (e', before ++ after); by constructor].
  destruct call; [|eexists; constructor]. destruct (blocked_or_not (workers_ e)) as [[i Hi]|Hno]; [|exists e; by constructor].
  eexists. eapply (notified_one i). unfold wake. by rewrite Hi.
Qed.

Lemma someone_steps w q evs s :
  executor_inv w q evs s.1 -> wake_inv s -> tasks_ s.1 <> [] \/ stopping_ s.1 = true -> all_exited s.1 = false ->
  exists ev s', inner_step s ev s'.
Proof.
  intros I [W1 W2] Hbusy Hx. destruct s as [e calls]; simpl in *.
  destruct Hbusy as [Ht|Hs]; [destruct (W2 Ht) as [Hn|(x & Hin & Ha)]; [by eapply notify_steps|by eapply awake_steps]|].
  destruct (blocked_or_not (workers_ e)) as [[i Hi]|Hno].
  - eapply notify_steps, W1; [done|]. by eapply list_elem_of_lookup_2.
  - assert (Hex : exists x, x ∈ workers_ e /\ x <> Exited).
    { clear -Hx. unfold all_exited in Hx. induction (workers_ e) as [|x ws IH]; [done|]. simpl in Hx.
      destruct x; try (eexists; split; [by left|done]). destruct (IH Hx) as (x & Hin & Hn). exists x. split; [by right|done]. }
    destruct Hex as (x & Hin & Hn). eapply awake_steps; [done|]. by destruct x.
Qed.

Lemma all_exited_idle e : all_exited e = true -> in_progress e = [] /\ uncounted e = 0.
Proof.
  unfold all_exited, in_progress, uncounted. induction (workers_ e) as [|x ws IH]; [done|]. simpl.
  by destruct x.
Qed.

Lemma exited_no_task w q evs e :
  0 < w -> executor_inv w q evs e -> all_exited e = true -> stopping_ e = true /\ tasks_ e = [].
Proof.
  intros Hp I Hx. apply (ei_exited _ _ _ _ I). pose proof (ei_count _ _ _ _ I) as (_ & _ & C3). unfold all_exited in Hx.
  destruct (workers_ e) as [|x ws]; [rewrite <- C3 in Hp; by compute in Hp|]. simpl in Hx. destruct x; [done..|by left].
Qed.

(** *** Theorems *)

(** C33: every task that is submitted is accounted for, whatever the order of
    the steps of submitters, workers and [shutdown].  Tasks start in the order
    in which they were accepted, each once: the accepted tasks are those that
    have started, then those that a shutdown has dropped, then the queue.
    Those that have started have finished or are run by a worker.  The
    counters are the numbers of such tasks, modulo 2^64. *)
Theorem executor_accounts_for_tasks w q evs s :
  is_u64 w -> is_u64 q -> executor_run w q evs s ->
  tasks_of accepted_by evs = tasks_of started_by evs ++ tasks_of dropped_by evs ++ tasks_ s.1 /\
  tasks_of started_by evs ≡ₚ tasks_of finished_by evs ++ in_progress s.1 /\
  (stopping_ s.1 && negb (drain_on_shutdown_ s.1) = false -> tasks_of dropped_by evs = []) /\
  es_submitted_tasks (statistics s.1) = u64 (zlen (tasks_of accepted_by evs)) /\
  es_rejected_tasks (statistics s.1) = u64 (zlen (tasks_of rejected_by evs)) /\
  es_active_tasks (statistics s.1) = zlen (in_progress s.1) /\
  es_completed_tasks (statistics s.1) = u64 (zlen (tasks_of finished_by evs) - uncounted s.1).
Proof. intros Hw Hq Hr. destruct (run_inv _ _ _ _ Hw Hq Hr) as (_ & [I1 I2 I3 I4 I5 I6 I7 I8 I9 I10 I11 I12] & _). by split_and!. Qed.

(** C34: the executor is bounded.  The queue never holds more tasks than its
    capacity, there are never more tasks in progress than workers, and a task
    is turned away exactly when the queue is full or the executor is
    stopping. *)
Theorem executor_bounded w q evs s task :
  is_u64 w -> is_u64 q -> executor_run w q evs s ->
  0 <= es_queued_tasks (statistics s.1) <= q /\ 0 <= es_active_tasks (statistics s.1) <= w /\
  ((try_submit task s.1).1 = false <-> stopping_ s.1 = true \/ es_queued_tasks (statistics s.1) = q).
Proof.
  intros Hw Hq Hr. destruct (run_inv _ _ _ _ Hw Hq Hr) as (_ & [(C1 & C2 & C3) I2 I3 I4 I5 I6 I7 I8 I9 I10 I11 I12] & _).
  destruct s as [e calls]; simpl fst in *.
  cbn [statistics es_queued_tasks es_active_tasks]. pose proof (zlen_nonneg (tasks_ e)). pose proof (in_progress_bound e). rewrite I8.
  pose proof (zlen_nonneg (in_progress e)). split_and!; try lia. unfold try_submit. rewrite I3, C2, negb_involutive.
  destruct (stopping_ e || (q <=? zlen (tasks_ e))) eqn:E; cbn [fst].
  - split; [|done]. intros _. apply orb_true_iff in E as [E|E]; [by left|right]. zbool. lia.
  - apply orb_false_iff in E as [E1 E2]. zbool. split; [done|]. intros [?|?]; [congruence|lia].
Qed.

(** C32: the executor never sleeps on work, and [shutdown] returns.  As long as
    there is a task in the queue, or the executor is stopping and a worker has
    not left its loop, a worker or a notification under way can make a step,
    without a new call and without a spurious wakeup: no notification is lost.
    Once the executor is stopping, only a bounded number of steps is left, so
    all workers do leave their loops and [shutdown] joins them; and then every
    task that started has finished, and, if the shutdown drains, so has every
    accepted task. *)
Theorem shutdown_completes w q evs s :
  is_u64 w -> is_u64 q -> executor_run w q evs s ->
  (tasks_ s.1 <> [] \/ stopping_ s.1 = true /\ all_exited s.1 = false -> exists ev s', inner_step s ev s') /\
  (stopping_ s.1 = true -> forall n s', nsteps own_step n s s' -> (n <= work_left s)%nat) /\
  (all_exited s.1 = true -> tasks_of finished_by evs ≡ₚ tasks_of started_by evs /\ es_active_tasks (statistics s.1) = 0 /\
     (drain_on_shutdown_ s.1 = true -> tasks_of finished_by evs ≡ₚ tasks_of accepted_by evs)).
Proof.
  intros Hw Hq Hr. destruct (run_inv _ _ _ _ Hw Hq Hr) as (Hp & I & HW). split_and!.
  - intros Hbusy. apply (someone_steps w q evs); [done|done|destruct Hbusy as [?|[? _]]; [by left|by right]|]. destruct Hbusy as [Ht|[_ Hx]]; [|done].
    apply not_true_is_false. intros Hx. destruct (exited_no_task _ _ _ _ Hp I Hx). done.
  - intros Hs n s' H. pose proof (own_steps_bounded _ _ _ _ _ Hw Hq H _ Hr Hs). lia.
  - intros Hx. destruct (all_exited_idle _ Hx) as [Hi _], (exited_no_task _ _ _ _ Hp I Hx) as [Hs Ht].
    destruct I as [I1 I2 I3 I4 I5 I6 I7 I8 I9 I10 I11 I12].
    assert (Hf : tasks_of finished_by evs ≡ₚ tasks_of started_by evs) by by rewrite I7, Hi, app_nil_r.
    split_and!; [done|cbn [statistics es_active_tasks]; by rewrite I8, Hi|]. intros Hd.
    rewrite I4, I5, Ht, app_nil_r by by rewrite Hs, Hd. done.
Qed.
End invariant.

(** ** Witnesses *)

(** One worker and a queue of two. *)
Definition demo_executor : BoundedExecutor Z := mkExecutor 1 2 [] [Waiting] true false true 0 0 0 0.

(** A schedule, and what comes of it: the events, the last one first. *)
Inductive Choice :=
| Submit (task : Z)
| Shutdown (drain : bool)
| Take
| Finish
| Count
| Notify.

Definition move (c : Choice) (s : Situation Z) : option (Event Z * Situation Z) :=
  let '(e, calls) := s in
  match c with
  | Submit task =>
      let '(ok, e') := try_submit task e in
      Some (if ok then Accepted task else Rejected task, (e', if ok then NotifyOne :: calls else calls))
  | Shutdown drain => e' ← begin_shutdown drain e; Some (if drain then Quiet else Dropped (tasks_ e), (e', NotifyAll :: calls))
  | Take => e' ← take_task 0 e; Some (taken 0 e e', (e', calls))
  | Finish => e' ← finish_task 0 e; Some (finished 0 e, (e', calls))
  | Count => e' ← count_task 0 e; Some (Quiet, (e', calls))
  | Notify => match calls with NotifyOne :: rest => e' ← wake 0 e; Some (Quiet, (e', rest)) | _ => None end
  end.

Fixpoint play (cs : list Choice) (evs : list (Event Z)) (s : Situation Z) : option (list (Event Z) * Situation Z) :=
  match cs with
  | [] => Some (evs, s)
  | c :: rest => '(ev, s') ← move c s; play rest (ev :: evs) s'
  end.

Lemma move_step c s ev s' : move c s = Some (ev, s') -> executor_step s ev s'.
Proof.
  destruct s as [e calls]. destruct c as [task|drain| | | |]; simpl; intros H.
  - pose proof (step_submit task e calls) as Hs. destruct (try_submit task e) as [ok e']. by simplify_eq/=.
  - apply bind_Some in H as (e' & He & H). simplify_eq. by constructor.
  - apply bind_Some in H as (e' & He & H). simplify_eq. by apply step_inner, inner_worker, step_take.
  - apply bind_Some in H as (e' & He & H). simplify_eq. by apply step_inner, inner_worker, step_finish.
  - apply bind_Some in H as (e' & He & H). simplify_eq. by eapply step_inner, inner_worker, step_count.
  - destruct calls as [|[] rest]; try done. apply bind_Some in H as (e' & He & H). simplify_eq.
    by eapply step_inner, (inner_notify [] NotifyOne), notified_one.
Qed.

Lemma play_run w q cs : forall evs s evs' s', executor_run w q evs s -> play cs evs s = Some (evs', s') -> executor_run w q evs' s'.
Proof.
  induction cs as [|c cs IH]; simpl; intros evs s evs' s' Hr H; [by simplify_eq|].
  apply bind_Some in H as ([ev s1] & Hm & H). apply move_step in Hm. eapply IH; [|exact H]. by eapply run_step.
Qed.

(** The worker blocks, a task is submitted and notified, and while it runs two
    more are accepted and a fourth is turned away. *)
Lemma demo_busy :
  executor_run 1 2 [Rejected 10; Accepted 9; Accepted 8; Started 7; Quiet; Accepted 7; Quiet]
    (mkExecutor 1 2 [8; 9] [Running 7] true false true 1 3 0 1, [NotifyOne; NotifyOne]).
Proof.
  eapply (play_run 1 2 [Take; Submit 7; Notify; Take; Submit 8; Submit 9; Submit 10] []); [apply (run_new 1 2 demo_executor)|]; reflexivity.
Qed.

(** Then a shutdown drains the queue, and the worker leaves its loop. *)
Definition demo_drained : list (Event Z) :=
  [Quiet; Quiet; Finished 9; Started 9; Quiet; Finished 8; Started 8; Quiet; Finished 7; Quiet;
   Rejected 10; Accepted 9; Accepted 8; Started 7; Quiet; Accepted 7; Quiet].

Lemma demo_shutdown :
  executor_run 1 2 demo_drained (mkExecutor 1 2 [] [Exited] false true true 0 3 3 1, [NotifyAll; NotifyOne; NotifyOne]).
Proof.
  eapply (play_run 1 2 [Shutdown true; Finish; Count; Take; Finish; Count; Take; Finish; Count; Take]); [exact demo_busy|reflexivity].
Qed.

Lemma executor_accounts_for_tasks_witness :
  exists evs s, executor_run 1 2 evs s /\ tasks_of accepted_by evs = [7; 8; 9] /\ es_completed_tasks (statistics s.1) = 3.
Proof.
  eexists _, _. split; [exact demo_shutdown|]. split; [reflexivity|].
  destruct (executor_accounts_for_tasks 1 2 _ _ ltac:(done) ltac:(done) demo_shutdown) as (_ & _ & _ & _ & _ & _ & H). exact H.
Defined.

Lemma executor_bounded_witness :
  exists evs s, executor_run 1 2 evs s /\ es_queued_tasks (statistics s.1) = 2 /\ (try_submit 11 s.1).1 = false.
Proof.
  eexists _, _. split; [exact demo_busy|]. split; [reflexivity|].
  destruct (executor_bounded 1 2 _ _ 11 ltac:(done) ltac:(done) demo_busy) as (_ & _ & H). apply H. by right.
Defined.

Lemma shutdown_completes_witness :
  (exists ev s', inner_step (mkExecutor 1 2 [8; 9] [Running 7] true false true 1 3 0 1, [NotifyOne; NotifyOne]) ev s') /\
  tasks_of finished_by demo_drained ≡ₚ tasks_of accepted_by demo_drained.
Proof.
  destruct (shutdown_completes 1 2 _ _ ltac:(done) ltac:(done) demo_busy) as (H1 & _ & _).
  destruct (shutdown_completes 1 2 _ _ ltac:(done) ltac:(done) demo_shutdown) as (_ & _ & H2).
  split; [apply H1; by left|]. destruct (H2 eq_refl) as (_ & _ & H3). by apply H3.
Defined.
