(* ===== verification/RequestProcessor.v ===== *)
(** * The request processor

    src/network/request_processor.cpp and its header: the part of the server
    between the gRPC handlers and the store.  Every operation is [noexcept]:
    it answers with a value in which the exception of the store has become an
    error code.  [store_] is the store as it stands, and an operation returns
    it as it leaves it. *)

From S2P Require Import Prelude OrderedMap Codec Posix FileSystem Path Store MemTable MemTableSet.
From S2P Require Import WalFormat WalReader WalWriter Recovery BloomFilter BlockCache SstFormat SstWriter SstReader Manifest SstManager.
From S2P Require Import TableView OpenTables Compaction ManagerInv ManagerCost PersistentStore StoreInv StoreRefinement.
From S2P Require Import Executor.

(** ** Definitions *)

Inductive ApiErrorCode :=
| ApiNone
| ApiInvalidArgument
| ApiResourceExhausted
| ApiDeadlineExceeded
| ApiUnavailable
| ApiInternal.

#[export] Instance ApiErrorCode_eq_dec : EqDecision ApiErrorCode.
Proof. solve_decision. Defined.

Record ApiError := mkApiError { ae_code : ApiErrorCode; ae_message : string }.

(** [ApiError{}] and [operator bool]. *)
Definition no_error : ApiError := mkApiError ApiNone "".
Definition is_error (e : ApiError) : bool := negb (bool_decide (ae_code e = ApiNone)).

Record PutResult := mkPutResult { pr_success : bool; pr_sequence_number : Z; pr_error : ApiError }.
Record GetResult := mkGetResult { gr_found : bool; gr_value : str; gr_error : ApiError }.
Record DeleteResult := mkDeleteResult { dr_deleted : bool; dr_error : ApiError }.
Record BatchPutResult := mkBatchPutResult {
  br_success : bool;
  br_writes_applied : Z;
  br_last_sequence_number : Z;
  br_error : ApiError
}.
Record ServiceStatistics := mkServiceStatistics { ss_requests_total : Z; ss_failed_requests_total : Z }.

(** [cache_hit_ratio] is a double; here it is the fraction that the division
    rounds, 0/1 when nothing was looked up. *)
Record StatusSnapshot := mkStatusSnapshot {
  sn_ready : bool;
  sn_live_keys : Z;
  sn_last_sequence_number : Z;
  sn_level0_sstables : Z;
  sn_level1_sstables : Z;
  sn_cache_hits : Z;
  sn_cache_misses : Z;
  sn_cache_evictions : Z;
  sn_cache_hit_ratio : Z * Z;
  sn_compactions_completed : Z;
  sn_queued_requests : Z;
  sn_active_requests : Z;
  sn_rejected_requests : Z;
  sn_requests_total : Z;
  sn_failed_requests_total : Z
}.

Record RequestProcessorOptions := mkRequestProcessorOptions { max_batch_entries : Z; max_batch_bytes : Z }.
Definition default_request_processor_options : RequestProcessorOptions := mkRequestProcessorOptions 1024 (8 * 1024 * 1024).

Definition map_exception (error : exn) : ApiError :=
  match error with
  | InvalidArgument _ | LengthError _ => mkApiError ApiInvalidArgument (what error)
  | _ => mkApiError ApiInternal (what error)
  end.

(** The constructor checks the options. *)
Definition new_request_processor (options : RequestProcessorOptions) : result RequestProcessorOptions :=
  _ ← throw_if (max_batch_entries options =? 0) (InvalidArgument "maximum batch entries must be greater than zero");
  _ ← throw_if (max_batch_bytes options =? 0) (InvalidArgument "maximum batch bytes must be greater than zero");
  mret options.

(** Calls of the store the processor makes. *)
Definition ps_last_sequence_number (s : PersistentKeyValueStore) : Z := last_sequence_number_ (memtables_ s).
Definition ps_level0_sstable_count (s : PersistentKeyValueStore) : Z := level_table_count Level0 (sstables_ s).
Definition ps_level1_sstable_count (s : PersistentKeyValueStore) : Z := level_table_count Level1 (sstables_ s).

Definition rp_put (key value : str) (s : PersistentKeyValueStore) : PutResult * PersistentKeyValueStore :=
  match ps_put key value s with
  | (Ok _, s') => (mkPutResult true (ps_last_sequence_number s') no_error, s')
  | (Throw error, s') => (mkPutResult false (ps_last_sequence_number s') (map_exception error), s')
  end.

Definition rp_get (key : str) (s : PersistentKeyValueStore) : GetResult * PersistentKeyValueStore :=
  match ps_get key s with
  | (Ok None, s') => (mkGetResult false [] no_error, s')
  | (Ok (Some value), s') => (mkGetResult true value no_error, s')
  | (Throw error, s') => (mkGetResult false [] (map_exception error), s')
  end.

Definition rp_remove (key : str) (s : PersistentKeyValueStore) : DeleteResult * PersistentKeyValueStore :=
  match ps_remove key s with
  | (Ok deleted, s') => (mkDeleteResult deleted no_error, s')
  | (Throw error, s') => (mkDeleteResult false (map_exception error), s')
  end.

(** The loop of [validate_batch]; an exception is one of the validation. *)
Fixpoint validate_entries (options : RequestProcessorOptions) (total_bytes : Z) (entries : list (str * str)) : result ApiError :=
  match entries with
  | [] => mret no_error
  | (key, value) :: rest =>
      _ ← validate_key key;
      _ ← validate_value value;
      if (u64_max - total_bytes <? zlen key) || (u64 (u64_max - total_bytes - zlen key) <? zlen value) then
        mret (mkApiError ApiInvalidArgument "batch byte size overflow")
      else
        let total_bytes := u64 (total_bytes + (zlen key + zlen value)) in
        if max_batch_bytes options <? total_bytes then
          mret (mkApiError ApiInvalidArgument "batch exceeds the maximum encoded payload size")
        else validate_entries options total_bytes rest
  end.

Definition validate_batch (options : RequestProcessorOptions) (entries : list (str * str)) : ApiError :=
  if is_nil entries then mkApiError ApiInvalidArgument "batch must contain at least one entry"
  else if max_batch_entries options <? zlen entries then
    mkApiError ApiInvalidArgument "batch exceeds the maximum number of entries"
  else
    match validate_entries options 0 entries with
    | Ok answer => answer
    | Throw error => map_exception error
    end.

Fixpoint put_entries (writes_applied : Z) (entries : list (str * str)) (s : PersistentKeyValueStore)
    : BatchPutResult * PersistentKeyValueStore :=
  match entries with
  | [] => (mkBatchPutResult true writes_applied (ps_last_sequence_number s) no_error, s)
  | (key, value) :: rest =>
      let '(answer, s') := rp_put key value s in
      if negb (pr_success answer) then
        (mkBatchPutResult false writes_applied (ps_last_sequence_number s') (pr_error answer), s')
      else put_entries (u32 (writes_applied + 1)) rest s'
  end.

Definition batch_put (options : RequestProcessorOptions) (entries : list (str * str)) (s : PersistentKeyValueStore)
    : BatchPutResult * PersistentKeyValueStore :=
  let validation_error := validate_batch options entries in
  if is_error validation_error then
    (mkBatchPutResult false 0 (ps_last_sequence_number s) validation_error, s)
  else put_entries 0 entries s.

(** The fraction of [hit_ratio]. *)
Definition hit_ratio (hits misses : Z) : Z * Z :=
  let total := u64 (hits + misses) in
  if total =? 0 then (0, 1) else (hits, total).

Definition processor_status (executor : ExecutorStatistics) (service : ServiceStatistics) (s : PersistentKeyValueStore) : StatusSnapshot :=
  let '(hits, misses, evictions) :=
    match rs_cache (sm_rs (sstables_ s)) with Some c => (hits_ c, misses_ c, evictions_ c) | None => (0, 0, 0) end in
  mkStatusSnapshot true (ps_size s) (ps_last_sequence_number s) (ps_level0_sstable_count s) (ps_level1_sstable_count s)
    hits misses evictions (hit_ratio hits misses) (cs_runs (sm_statistics (sstables_ s)))
    (es_queued_tasks executor) (es_active_tasks executor) (es_rejected_tasks executor)
    (ss_requests_total service) (ss_failed_requests_total service).

Definition api_error_name (code : ApiErrorCode) : string :=
  match code with
  | ApiNone => "NONE"
  | ApiInvalidArgument => "INVALID_ARGUMENT"
  | ApiResourceExhausted => "RESOURCE_EXHAUSTED"
  | ApiDeadlineExceeded => "DEADLINE_EXCEEDED"
  | ApiUnavailable => "UNAVAILABLE"
  | ApiInternal => "INTERNAL"
  end.

(** ** What the limits mean *)

Definition payload (entries : list (str * str)) : Z := foldr (fun e n => zlen e.1 + zlen e.2 + n) 0 entries.
Definition valid_entry (e : str * str) : Prop := valid_key e.1 /\ valid_value e.2.

(** The reference: what a batch has to satisfy. *)
Definition acceptable (options : RequestProcessorOptions) (entries : list (str * str)) : Prop :=
  0 < zlen entries <= max_batch_entries options /\ Forall valid_entry entries /\ payload entries <= max_batch_bytes options.

Lemma payload_nonneg entries : 0 <= payload entries.
Proof.
  induction entries as [|[k v] l IH]; [done|]. change (0 <= zlen k + zlen v + payload l).
  pose proof (zlen_nonneg k). pose proof (zlen_nonneg v). lia.
Qed.

Lemma validate_entry key value :
  (exists e, (validate_key key ≫= fun _ => validate_value value) = Throw e /\ ae_code (map_exception e) = ApiInvalidArgument /\
     ~ valid_entry (key, value)) \/
  (validate_key key = Ok tt /\ validate_value value = Ok tt /\ valid_entry (key, value)).
Proof.
  unfold valid_entry. simpl. destruct (validate_key key) as [[]|e] eqn:Ek.
  - destruct (validate_value value) as [[]|e] eqn:Ev; [right; split_and!; eauto with nebula|]. left. exists e. split; [done|]. split.
    + unfold validate_value, throw_if in Ev. by case_match; simplify_eq.
    + intros [_ Hv]. by rewrite validate_value_ok in Ev.
  - left. exists e. split; [done|]. split.
    + unfold validate_key, throw_if, mbind, result_bind in Ek. repeat (case_match; simplify_eq/=; try done).
    + intros [Hk _]. by rewrite validate_key_ok in Ek.
Qed.

Lemma validate_entries_ok options entries : forall total,
  0 <= total -> total + payload entries <= max_batch_bytes options -> max_batch_bytes options <= u64_max -> Forall valid_entry entries ->
  validate_entries options total entries = Ok no_error.
Proof.
  induction entries as [|[key value] rest IH]; intros total Ht Hp Hm Hv; [done|]. inversion_clear Hv as [|? ? He Hr].
  change (payload ((key, value) :: rest)) with (zlen key + zlen value + payload rest) in Hp.
  destruct (validate_entry key value) as [(? & _ & _ & ?)|(Ek & Ev & _)]; [done|]. cbn [validate_entries]. rewrite Ek, Ev. unfold mbind, result_bind.
  pose proof (zlen_nonneg key). pose proof (zlen_nonneg value). pose proof (payload_nonneg rest).
  rewrite !u64_small by lia. rewrite (proj2 (Z.ltb_ge _ _)) by lia. rewrite (proj2 (Z.ltb_ge _ _)) by lia. cbn [orb].
  rewrite (proj2 (Z.ltb_ge _ _)) by lia. apply IH; [lia|lia|done|done].
Qed.

(** The code of the answer. *)
Definition answer_of (r : result ApiError) : ApiError := match r with Ok answer => answer | Throw error => map_exception error end.

Lemma validate_entries_rejects options entries : forall total,
  0 <= total <= max_batch_bytes options -> max_batch_bytes options <= u64_max ->
  ~ (total + payload entries <= max_batch_bytes options /\ Forall valid_entry entries) ->
  ae_code (answer_of (validate_entries options total entries)) = ApiInvalidArgument.
Proof.
  induction entries as [|[key value] rest IH]; intros total Ht Hm Hno; [destruct Hno; simpl; split; [lia|done]|].
  change (payload ((key, value) :: rest)) with (zlen key + zlen value + payload rest) in Hno.
  cbn [validate_entries]. destruct (validate_entry key value) as [(e & E & Hc & _)|(Ek & Ev & He)].
  - unfold mbind, result_bind in *. destruct (validate_key key); [|by simplify_eq]. destruct (validate_value value); by simplify_eq.
  - rewrite Ek, Ev. unfold mbind, result_bind. pose proof (zlen_nonneg key). pose proof (zlen_nonneg value).
    destruct ((u64_max - total <? zlen key) || _) eqn:Eo; [done|]. apply orb_false_iff in Eo as [E1 E2]. zbool.
    rewrite u64_small in E2 by lia. rewrite u64_small by lia.
    destruct (max_batch_bytes options <? total + (zlen key + zlen value)) eqn:Eb; [done|]. zbool. apply IH; [lia|done|].
    intros [Hp Hr]. apply Hno. split; [lia|by constructor].
Qed.

Lemma batch_limits options entries :
  is_u64 (max_batch_bytes options) ->
  (acceptable options entries -> validate_batch options entries = no_error) /\
  (~ acceptable options entries -> ae_code (validate_batch options entries) = ApiInvalidArgument).
Proof.
  unfold is_u64. intros Hm. unfold validate_batch, acceptable.
  destruct entries as [|e rest]; [split; [intros [[? _] _]; unfold zlen in *; simpl in *; lia|done]|].
  set (entries := e :: rest). assert (He : 0 < zlen entries) by (subst entries; rewrite zlen_cons; pose proof (zlen_nonneg rest); lia).
  change (is_nil entries) with false. cbv iota. clearbody entries.
  destruct (max_batch_entries options <? zlen entries) eqn:En; zbool; split.
  - intros ((_ & ?) & _). lia.
  - done.
  - intros (_ & Hv & Hp). by rewrite validate_entries_ok by (done || lia).
  - intros Hno. apply (validate_entries_rejects options entries 0); [lia|lia|]. intros [? ?]. apply Hno. split_and!; [lia|lia|done|lia].
Qed.

(** ** What a batch does *)

Definition written (m : gmap str str) (entries : list (str * str)) : gmap str str := foldl (fun m e => <[e.1 := e.2]> m) m entries.

Lemma u32_add_l a b : u32 (u32 a + b) = u32 (a + b).
Proof. unfold u32. apply Zplus_mod_idemp_l. Qed.
Lemma u32_idem z : u32 (u32 z) = u32 z.
Proof. unfold u32. apply Z.mod_mod. done. Qed.

(** A batch that has written [j] of its entries, and maybe one more. *)
Record batch_outcome (n : Z) (entries : list (str * str)) (s : PersistentKeyValueStore) (res : BatchPutResult) (s' : PersistentKeyValueStore) : Prop := {
  bo_inv : store_inv s';
  bo_sequence : br_last_sequence_number res = ps_last_sequence_number s';
  bo_writes : exists j : nat, br_writes_applied res = u32 (n + Z.of_nat j) /\
    ((br_success res = true /\ br_error res = no_error /\ j = length entries /\
      view_abs (ps_view s') = written (view_abs (ps_view s)) entries) \/
     (br_success res = false /\ is_error (br_error res) = true /\ (j < length entries)%nat /\
      (view_abs (ps_view s') = written (view_abs (ps_view s)) (take j entries) \/
       view_abs (ps_view s') = written (view_abs (ps_view s)) (take (S j) entries))));
  bo_quiet : quiet_store s -> zlen entries <= spare (ps_view s) -> br_success res = true
}.

Lemma map_exception_error e : is_error (map_exception e) = true.
Proof. by destruct e. Qed.

Lemma put_entries_spec entries : forall n s res s',
  store_inv s -> zlen entries <= capacity (ps_view s) -> Forall valid_entry entries -> n = u32 n ->
  put_entries n entries s = (res, s') -> batch_outcome n entries s res s'.
Proof.
  induction entries as [|[key value] rest IH]; intros n s res s' Hs Hc Hv Hn H; cbn [put_entries] in H.
  - simplify_eq/=. split; [done|done| |done]. exists 0%nat. split; [by rewrite Z.add_0_r|]. left. done.
  - inversion_clear Hv as [|? ? [Hk Hval] Hr]. rewrite zlen_cons in Hc. pose proof (zlen_nonneg rest).
    unfold rp_put in H. destruct (ps_put key value s) as [r s1] eqn:Ep.
    destruct (ps_put_spec key value s r s1 Hs Hk Hval ltac:(lia) Ep) as [W1 W2 W3 _ W5].
    destruct r as [u|e]; cbn [pr_success negb pr_error] in H.
    + destruct W2 as [W2|[? _]]; [|done].
      destruct (IH _ _ _ _ W1 ltac:(lia) Hr (eq_sym (u32_idem _)) H) as [B1 B2 (j & B3 & B4) B5].
      split; [done|done| |].
      * exists (S j). split; [rewrite B3, u32_add_l; f_equal; lia|]. rewrite W2 in B4.
        destruct B4 as [(? & ? & -> & ?)|(? & ? & ? & ?)]; [left|right]; split_and!; try done. simpl. lia.
      * rewrite zlen_cons. intros Hq Hsp. destruct (W5 Hq ltac:(lia)) as (_ & Hq1 & Hsp1). apply B5; [done|lia].
    + simplify_eq. split; [done|done| |].
      * exists 0%nat. split; [by rewrite Z.add_0_r|]. right. split_and!; [done|apply map_exception_error|simpl; lia|].
        destruct W2 as [W2|[_ W2]]; [by right|by left].
      * rewrite zlen_cons. intros Hq Hsp. by destruct (W5 Hq ltac:(lia)).
Qed.

(** ** Theorems *)

(** C35: [validate_batch] with its running total and its tests against
    overflow decides exactly what it documents: a batch is accepted when it
    has between one and [max_batch_entries] entries, each with a valid key and
    a valid value, and the sum of all sizes, as an integer, is at most
    [max_batch_bytes]; any other batch is answered INVALID_ARGUMENT, and never
    an internal error. *)
Theorem batch_limits_exact options entries :
  is_u64 (max_batch_bytes options) ->
  (acceptable options entries -> validate_batch options entries = no_error) /\
  (~ acceptable options entries -> ae_code (validate_batch options entries) = ApiInvalidArgument).
Proof. apply batch_limits. Qed.

(** A batch is written in order, entry by entry, whatever the system
    calls return.  A batch outside the limits is refused as a whole: the store
    is not touched.  One within them answers success when all entries are
    written; otherwise it stopped at an entry: the contents are those after
    the [writes_applied] entries before it, or after that entry as well (when
    the flush or the compaction that followed the write failed).  Without
    failures of system calls it succeeds. *)
Theorem batch_put_writes_prefix options entries s res s' :
  is_u64 (max_batch_bytes options) -> store_inv s -> zlen entries <= capacity (ps_view s) ->
  batch_put options entries s = (res, s') ->
  (~ acceptable options entries -> s' = s /\ br_success res = false /\ br_writes_applied res = 0 /\
     ae_code (br_error res) = ApiInvalidArgument) /\
  (acceptable options entries -> batch_outcome 0 entries s res s').
Proof.
  intros Hm Hs Hc H. destruct (batch_limits options entries Hm) as [L1 L2]. unfold batch_put in H. split.
  - intros Hno%L2. unfold is_error in H. rewrite Hno in H. simpl in H. by simplify_eq/=.
  - intros Ha. rewrite (L1 Ha) in H. change (is_error no_error) with false in H. cbv iota in H.
    destruct Ha as (_ & Hv & _). by apply put_entries_spec.
Qed.

(** ** Witnesses *)

Definition demo_entries : list (str * str) := [(bytes_of "a", bytes_of "1"); (bytes_of "b", bytes_of "22")].

Lemma demo_acceptable : acceptable (mkRequestProcessorOptions 2 5) demo_entries.
Proof. split; [vm_compute; split; [done|discriminate]|]. split; [|vm_compute; discriminate]. repeat constructor; vm_compute; discriminate. Qed.

Lemma batch_limits_exact_witness :
  validate_batch (mkRequestProcessorOptions 2 5) demo_entries = no_error /\
  ae_code (validate_batch (mkRequestProcessorOptions 2 4) demo_entries) = ApiInvalidArgument.
Proof.
  split.
  - apply (batch_limits_exact (mkRequestProcessorOptions 2 5) demo_entries); [done|exact demo_acceptable].
  - apply (batch_limits_exact (mkRequestProcessorOptions 2 4) demo_entries); [done|]. intros (_ & _ & H). by vm_compute in H.
Defined.

Lemma demo_room : zlen demo_entries <= capacity (ps_view demo_store) /\ zlen demo_entries <= spare (ps_view demo_store).
Proof.
  pose proof (proj2 demo_capacity). pose proof (spare_capacity (ps_view demo_store)). change (zlen demo_entries) with 2. lia.
Qed.

Lemma batch_put_writes_prefix_witness :
  exists res s', batch_put (mkRequestProcessorOptions 2 5) demo_entries demo_store = (res, s') /\ br_success res = true.
Proof.
  assert (Hu : is_u64 5) by done.
  destruct (batch_put (mkRequestProcessorOptions 2 5) demo_entries demo_store) as [res s'] eqn:E. exists res, s'. split; [exact eq_refl|].
  destruct (batch_put_writes_prefix (mkRequestProcessorOptions 2 5) demo_entries demo_store res s' Hu demo_store_inv (proj1 demo_room) E) as [_ H].
  exact (bo_quiet _ _ _ _ _ (H demo_acceptable) demo_store_quiet (proj2 demo_room)).
Defined.
