(* ===== verification/GrpcService.v ===== *)
(** * The key-value service

    src/network/grpc_service.cpp: the handlers of the single-node server, over
    the request processor and the bounded executor.  A handler counts the
    request, turns it away or submits a task, waits for its result until the
    deadline, and answers; the task runs on a worker, one visit to the store
    at a time, and goes on when its caller has given up.  Calls, workers and
    tasks interleave in any order.  Of gRPC the handlers use the size of the
    encoded message, the deadline and the messages; the first two are
    arguments of the steps. *)

From S2P Require Import Prelude Store MemTableSet SstManager PersistentStore StoreInv StoreRefinement Executor RequestProcessor.

(** ** Messages *)

Inductive StatusCode :=
| OK
| INVALID_ARGUMENT
| RESOURCE_EXHAUSTED
| DEADLINE_EXCEEDED
| UNAVAILABLE
| INTERNAL
| FAILED_PRECONDITION
| UNKNOWN.

#[export] Instance StatusCode_eq_dec : EqDecision StatusCode.
Proof. solve_decision. Defined.

Record Status := mkStatus { st_code : StatusCode; st_message : string }.
Definition ok_status : Status := mkStatus OK "".

Record ErrorDetail := mkErrorDetail { ed_code : string; ed_message : string; ed_leader_id : str; ed_leader_address : str }.
Definition no_detail : ErrorDetail := mkErrorDetail "" "" [] [].

Inductive Request :=
| PutRequest (key value : str)
| GetRequest (key : str)
| DeleteRequest (key : str)
| BatchPutRequest (entries : list (str * str)).

(** The response with the fields that were set; the others have their default. *)
Inductive Response :=
| PutResponse (success : bool) (sequence_number : Z) (error : ErrorDetail)
| GetResponse (found : bool) (value : str) (error : ErrorDetail)
| DeleteResponse (deleted : bool) (error : ErrorDetail)
| BatchPutResponse (success : bool) (writes_applied last_sequence_number : Z) (error : ErrorDetail)
| StatusResponse (snapshot : StatusSnapshot)
| NoResponse.

(** What a task returns. *)
Inductive Outcome :=
| PutOutcome (result : PutResult)
| GetOutcome (result : GetResult)
| DeleteOutcome (result : DeleteResult)
| BatchOutcome (result : BatchPutResult).

Record GrpcServiceOptions := mkGrpcServiceOptions { max_request_bytes : Z }.

Definition fill_error (error : ApiError) : ErrorDetail :=
  if negb (is_error error) then no_detail else mkErrorDetail (api_error_name (ae_code error)) (ae_message error) [] [].

Definition queue_full_status : Status := mkStatus RESOURCE_EXHAUSTED "server request queue is full".
Definition deadline_status : Status := mkStatus DEADLINE_EXCEEDED "request deadline expired before completion".
Definition too_large_status : Status := mkStatus RESOURCE_EXHAUSTED "request exceeds the configured maximum size".

Definition new_grpc_service (options : GrpcServiceOptions) : result GrpcServiceOptions :=
  _ ← throw_if (max_request_bytes options =? 0) (InvalidArgument "maximum request size must be greater than zero");
  mret options.

Definition request_too_large (options : GrpcServiceOptions) (encoded_size : Z) : bool := max_request_bytes options <? encoded_size.

Definition status_from_error (error : ApiError) : Status :=
  match ae_code error with
  | ApiNone => ok_status
  | ApiInvalidArgument => mkStatus INVALID_ARGUMENT (ae_message error)
  | ApiResourceExhausted => mkStatus RESOURCE_EXHAUSTED (ae_message error)
  | ApiDeadlineExceeded => mkStatus DEADLINE_EXCEEDED (ae_message error)
  | ApiUnavailable => mkStatus UNAVAILABLE (ae_message error)
  | ApiInternal => mkStatus INTERNAL (ae_message error)
  end.

(** ** Tasks *)

Abbreviation KVStore := PersistentKeyValueStore.

Definition expired_error : ApiError := mkApiError ApiDeadlineExceeded "request expired while waiting for a worker".

(** The answer of a task whose deadline has passed when it starts. *)
Definition expired (request : Request) : Outcome :=
  match request with
  | PutRequest _ _ => PutOutcome (mkPutResult false 0 expired_error)
  | GetRequest _ => GetOutcome (mkGetResult false [] expired_error)
  | DeleteRequest _ => DeleteOutcome (mkDeleteResult false expired_error)
  | BatchPutRequest _ => BatchOutcome (mkBatchPutResult false 0 0 expired_error)
  end.

(** How far a task has come. *)
Inductive Progress :=
| Queued
| InCall
| Wrote (r : result unit)
| InBatch (writes_applied : Z) (rest : list (str * str))
| BatchEnd (success : bool) (writes_applied : Z) (error : ApiError)
| Returned (o : Outcome).

(** The task looks at the clock. *)
Definition start_task (late : bool) (request : Request) (p : Progress) : option Progress :=
  match p with
  | Queued => Some (if late then Returned (expired request) else InCall)
  | _ => None
  end.

Definition error_of (r : result unit) : ApiError := match r with Ok _ => no_error | Throw e => map_exception e end.

(** The next visit of the task to the store: a call of it, or the reading of
    its last sequence number at the end of a put or of a batch. *)
Definition visit_store (options : RequestProcessorOptions) (request : Request) (p : Progress) (s : KVStore) : option (Progress * KVStore) :=
  match p with
  | InCall =>
      match request with
      | PutRequest key value => let '(r, s') := ps_put key value s in Some (Wrote r, s')
      | GetRequest key => let '(res, s') := rp_get key s in Some (Returned (GetOutcome res), s')
      | DeleteRequest key => let '(res, s') := rp_remove key s in Some (Returned (DeleteOutcome res), s')
      | BatchPutRequest entries =>
          let validation_error := validate_batch options entries in
          Some (if is_error validation_error then BatchEnd false 0 validation_error else InBatch 0 entries, s)
      end
  | Wrote r => Some (Returned (PutOutcome (mkPutResult (is_Ok r) (ps_last_sequence_number s) (error_of r))), s)
  | InBatch writes_applied [] => Some (BatchEnd true writes_applied no_error, s)
  | InBatch writes_applied ((key, value) :: rest) =>
      match ps_put key value s with
      | (Ok _, s') => Some (InBatch (u32 (writes_applied + 1)) rest, s')
      | (Throw e, s') => Some (BatchEnd false writes_applied (map_exception e), s')
      end
  | BatchEnd success writes_applied error =>
      Some (Returned (BatchOutcome (mkBatchPutResult success writes_applied (ps_last_sequence_number s) error)), s)
  | Queued | Returned _ => None
  end.

(** What the handler makes of the result. *)
Definition put_reply (result : PutResult) : Status * Response :=
  (if is_error (pr_error result) then status_from_error (pr_error result) else ok_status,
   PutResponse (pr_success result) (pr_sequence_number result) (fill_error (pr_error result))).
Definition get_reply (result : GetResult) : Status * Response :=
  (if is_error (gr_error result) then status_from_error (gr_error result) else ok_status,
   GetResponse (gr_found result) (if gr_found result then gr_value result else []) (fill_error (gr_error result))).
Definition delete_reply (result : DeleteResult) : Status * Response :=
  (if is_error (dr_error result) then status_from_error (dr_error result) else ok_status,
   DeleteResponse (dr_deleted result) (fill_error (dr_error result))).
Definition batch_put_reply (result : BatchPutResult) : Status * Response :=
  (if is_error (br_error result) then status_from_error (br_error result) else ok_status,
   BatchPutResponse (br_success result) (br_writes_applied result) (br_last_sequence_number result) (fill_error (br_error result))).
Definition reply_of (o : Outcome) : Status * Response :=
  match o with
  | PutOutcome result => put_reply result
  | GetOutcome result => get_reply result
  | DeleteOutcome result => delete_reply result
  | BatchOutcome result => batch_put_reply result
  end.

(** ** The service *)

(** A call: its request, none for [Status], its task, and the answer once it is
    given. *)
Record Call := mkCall { c_request : option Request; c_progress : Progress; c_answer : option (Status * Response) }.

(** [sv_moments] records the visits to the store, the last one first: whose
    task it was, and the store before and after. *)
Record Service := mkService {
  sv_executor : Situation nat;
  sv_store : KVStore;
  sv_calls : gmap nat Call;
  sv_requests_total : Z;
  sv_failed_requests_total : Z;
  sv_moments : list (nat * KVStore * KVStore)
}.

Definition set_executor (x : Situation nat) (v : Service) : Service :=
  mkService x (sv_store v) (sv_calls v) (sv_requests_total v) (sv_failed_requests_total v) (sv_moments v).
Definition set_call (id : nat) (c : Call) (v : Service) : Service :=
  mkService (sv_executor v) (sv_store v) (<[id := c]> (sv_calls v)) (sv_requests_total v) (sv_failed_requests_total v) (sv_moments v).
Definition count_request (v : Service) : Service :=
  mkService (sv_executor v) (sv_store v) (sv_calls v) (u64 (sv_requests_total v + 1)) (sv_failed_requests_total v) (sv_moments v).
Definition record_failure (v : Service) : Service :=
  mkService (sv_executor v) (sv_store v) (sv_calls v) (sv_requests_total v) (u64 (sv_failed_requests_total v + 1)) (sv_moments v).
Definition visited (id : nat) (s' : KVStore) (v : Service) : Service :=
  mkService (sv_executor v) s' (sv_calls v) (sv_requests_total v) (sv_failed_requests_total v) ((id, sv_store v, s') :: sv_moments v).

(** The failure is counted and the handler returns. *)
Definition fail_call (id : nat) (c : Call) (status : Status) (response : Response) (v : Service) : Service :=
  set_call id (mkCall (c_request c) (c_progress c) (Some (status, response))) (record_failure v).

(** The handlers of [Put], [Get], [Delete] and [BatchPut] up to their wait. *)
Definition begin_handler (options : GrpcServiceOptions) (id : nat) (request : Request) (encoded_size : Z) (deadline_expired : bool)
    (v : Service) : Service :=
  let v := count_request v in
  let c := mkCall (Some request) Queued None in
  if request_too_large options encoded_size then fail_call id c too_large_status NoResponse v
  else if deadline_expired then fail_call id c deadline_status NoResponse v
  else
    let '(accepted, e) := try_submit id (sv_executor v).1 in
    let v := set_executor (e, if accepted then NotifyOne :: (sv_executor v).2 else (sv_executor v).2) v in
    if accepted then set_call id c v else fail_call id c queue_full_status NoResponse v.

(** [wait_until] ends: with the result or without. *)
Definition end_handler (id : nat) (ready : bool) (v : Service) : option Service :=
  match sv_calls v !! id with
  | Some (mkCall request p None) =>
      let c := mkCall request p None in
      if negb ready then Some (fail_call id c deadline_status NoResponse v)
      else
        match p with
        | Returned o =>
            let '(status, response) := reply_of o in
            if bool_decide (st_code status = OK) then Some (set_call id (mkCall request p (Some (status, response))) v)
            else Some (fail_call id c status response v)
        | _ => None
        end
  | _ => None
  end.

Definition service_statistics (v : Service) : ServiceStatistics := mkServiceStatistics (sv_requests_total v) (sv_failed_requests_total v).

(** [Status]: refused after the deadline, and otherwise the processor's
    snapshot. *)
Definition status_handler (id : nat) (deadline_expired : bool) (v : Service) : Service :=
  let v := count_request v in
  let c := mkCall None Queued None in
  if deadline_expired then fail_call id c deadline_status NoResponse v
  else
    let snapshot := processor_status (statistics (sv_executor v).1) (service_statistics v) (sv_store v) in
    set_call id (mkCall None Queued (Some (ok_status, StatusResponse snapshot))) v.

(** [id] is run by a worker. *)
Definition is_running (id : nat) (v : Service) : Prop := Running id ∈ workers_ (sv_executor v).1.

Section steps.
Context (options : GrpcServiceOptions) (limits : RequestProcessorOptions).

(** [task()] has ended when its result is there. *)
Definition may_finish (ev : Event nat) (v : Service) : Prop :=
  match ev with
  | Finished id => exists request o a, sv_calls v !! id = Some (mkCall request (Returned o) a)
  | _ => True
  end.

Inductive service_step : Service -> Service -> Prop :=
| sstep_begin id request encoded_size deadline_expired v :
    sv_calls v !! id = None -> service_step v (begin_handler options id request encoded_size deadline_expired v)
| sstep_status id deadline_expired v : sv_calls v !! id = None -> service_step v (status_handler id deadline_expired v)
| sstep_end id ready v v' : end_handler id ready v = Some v' -> service_step v v'
| sstep_executor ev x v : inner_step (sv_executor v) ev x -> may_finish ev v -> service_step v (set_executor x v)
| sstep_spurious i e v : wake i (sv_executor v).1 = Some e -> service_step v (set_executor (e, (sv_executor v).2) v)
| sstep_shutdown e v : begin_shutdown true (sv_executor v).1 = Some e ->
    service_step v (set_executor (e, NotifyAll :: (sv_executor v).2) v)
| sstep_start id late request p a p' v :
    is_running id v -> sv_calls v !! id = Some (mkCall (Some request) p a) -> start_task late request p = Some p' ->
    service_step v (set_call id (mkCall (Some request) p' a) v)
| sstep_visit id request p a p' s' v :
    is_running id v -> sv_calls v !! id = Some (mkCall (Some request) p a) -> visit_store limits request p (sv_store v) = Some (p', s') ->
    service_step v (visited id s' (set_call id (mkCall (Some request) p' a) v)).

(** A server that has started on the store [s]. *)
Definition initial_service (e : BoundedExecutor nat) (s : KVStore) : Service := mkService (e, []) s ∅ 0 0 [].
End steps.

(** ** What a task does *)

Section tasks.
Context (limits : RequestProcessorOptions).

(** A task and its visits to the store, whatever happened to the store in
    between. *)
Inductive task_run (request : Request) : list (KVStore * KVStore) -> Progress -> Prop :=
| run_queued : task_run request [] Queued
| run_start late evs p p' : task_run request evs p -> start_task late request p = Some p' -> task_run request evs p'
| run_visit evs p s p' s' : task_run request evs p -> visit_store limits request p s = Some (p', s') -> task_run request (evs ++ [(s, s')]) p'.

Definition stored (e : str * str) (m : KVStore * KVStore) : Prop := ps_put e.1 e.2 m.1 = (Ok tt, m.2).

(** What an answer OK says of the visits. *)
Definition effect (request : Request) (evs : list (KVStore * KVStore)) (response : Response) : Prop :=
  match request with
  | PutRequest key value => exists s s' s1, evs = [(s, s'); (s1, s1)] /\ ps_put key value s = (Ok tt, s') /\
      response = PutResponse true (ps_last_sequence_number s1) no_detail
  | GetRequest key => exists s s' found, evs = [(s, s')] /\ ps_get key s = (Ok found, s') /\
      response = GetResponse (bool_decide (is_Some found)) (default [] found) no_detail
  | DeleteRequest key => exists s s' deleted, evs = [(s, s')] /\ ps_remove key s = (Ok deleted, s') /\
      response = DeleteResponse deleted no_detail
  | BatchPutRequest entries => exists s0 puts s1 s2, evs = (s0, s0) :: puts ++ [(s1, s1); (s2, s2)] /\ Forall2 stored entries puts /\
      validate_batch limits entries = no_error /\
      response = BatchPutResponse true (u32 (zlen entries)) (ps_last_sequence_number s2) no_detail
  end.

(** An error the processor can answer. *)
Definition proper (e : ApiError) : Prop := ae_code e <> ApiNone /\ ae_code e <> ApiResourceExhausted.

Definition returned_spec (request : Request) (evs : list (KVStore * KVStore)) (o : Outcome) : Prop :=
  st_code (reply_of o).1 <> RESOURCE_EXHAUSTED /\ (st_code (reply_of o).1 = OK -> effect request evs (reply_of o).2).

Definition progress_spec (request : Request) (evs : list (KVStore * KVStore)) (p : Progress) : Prop :=
  match p with
  | Queued | InCall => evs = []
  | Wrote r => exists key value s s', request = PutRequest key value /\ evs = [(s, s')] /\ ps_put key value s = (r, s')
  | InBatch n rest => exists s0 written puts, request = BatchPutRequest (written ++ rest) /\ evs = (s0, s0) :: puts /\
      Forall2 stored written puts /\ n = u32 (zlen written) /\ validate_batch limits (written ++ rest) = no_error
  | BatchEnd true n err => exists s0 entries puts s1, request = BatchPutRequest entries /\ evs = (s0, s0) :: puts ++ [(s1, s1)] /\
      Forall2 stored entries puts /\ n = u32 (zlen entries) /\ validate_batch limits entries = no_error /\ err = no_error
  | BatchEnd false n err => proper err /\ exists entries, request = BatchPutRequest entries
  | Returned o => returned_spec request evs o
  end.

Lemma map_exception_proper e : proper (map_exception e).
Proof. by destruct e. Qed.

Lemma proper_status e : proper e -> is_error e = true /\ st_code (status_from_error e) <> RESOURCE_EXHAUSTED /\ st_code (status_from_error e) <> OK.
Proof. destruct e as [[] msg]; intros [? ?]; done. Qed.

Lemma validate_entries_proper entries : forall total, 
  match validate_entries limits total entries with Ok e => e = no_error \/ proper e | Throw _ => True end.
Proof.
  induction entries as [|[k v] rest IH]; intros total; [by left|]. cbn [validate_entries]. unfold mbind, result_bind.
  destruct (validate_key k); [|done]. destruct (validate_value v); [|done]. destruct (_ || _); [by right|]. destruct (_ <? _); [by right|]. apply IH.
Qed.

Lemma validate_batch_proper entries : validate_batch limits entries = no_error \/ proper (validate_batch limits entries).
Proof.
  unfold validate_batch. destruct (is_nil entries); [by right|]. destruct (_ <? _); [by right|].
  pose proof (validate_entries_proper entries 0) as H. destruct (validate_entries limits 0 entries); [done|]. right. apply map_exception_proper.
Qed.

Lemma expired_spec request evs : returned_spec request evs (expired request).
Proof. destruct request; by split. Qed.

Lemma visit_in_call request s p' s' : visit_store limits request InCall s = Some (p', s') -> progress_spec request [(s, s')] p'.
Proof.
  destruct request as [key value|key|key|entries]; simpl; intros H.
  - destruct (ps_put key value s) as [r s1] eqn:E. simplify_eq. by exists key, value, s, s'.
  - unfold rp_get in H. destruct (ps_get key s) as [[[value|]|e] s1] eqn:E; simplify_eq; unfold progress_spec, returned_spec; simpl.
    + split; [done|]. intros _. by exists s, s', (Some value).
    + split; [done|]. intros _. by exists s, s', None.
    + destruct (proper_status _ (map_exception_proper e)) as (-> & ? & ?). by split.
  - unfold rp_remove in H. destruct (ps_remove key s) as [[deleted|e] s1] eqn:E; simplify_eq; unfold progress_spec, returned_spec; simpl.
    + split; [done|]. intros _. by exists s, s', deleted.
    + destruct (proper_status _ (map_exception_proper e)) as (-> & ? & ?). by split.
  - destruct (validate_batch_proper entries) as [Hv|Hv].
    + rewrite Hv in H. simplify_eq/=. exists s', [], []. by split_and!.
    + destruct (proper_status _ Hv) as (He & _). rewrite He in H. simplify_eq/=. split; [done|]. by exists entries.
Qed.

Lemma task_run_spec request evs p : task_run request evs p -> progress_spec request evs p.
Proof.
  induction 1 as [|late evs p p' _ IH H|evs p s p' s' _ IH H]; [done|..].
  - destruct p; try done. simpl in H. simplify_eq. simpl in IH. subst. destruct late; [apply expired_spec|done].
  - destruct p as [| |r|n rest|[] n err|o]; try done; simpl in IH.
    + subst. by apply visit_in_call.
    + destruct IH as (key & value & s0 & s1 & -> & -> & Hp). simpl in H. simplify_eq. unfold progress_spec, returned_spec. simpl.
      destruct r as [[]|e]; simpl; [split; [done|]; intros _; by exists s0, s1, s'|].
      destruct (proper_status _ (map_exception_proper e)) as (-> & ? & ?). by split.
    + destruct IH as (s0 & written & puts & -> & -> & Hf & -> & Hv). destruct rest as [|[key value] rest]; simpl in H.
      * simplify_eq. rewrite app_nil_r in *. by exists s0, written, puts, s'.
      * destruct (ps_put key value s) as [[[]|e] s1] eqn:E; simplify_eq.
        -- exists s0, (written ++ [(key, value)]), (puts ++ [(s, s')]). rewrite <- !app_assoc. split_and!; try done.
           ++ apply Forall2_app; [done|]. by repeat constructor.
           ++ rewrite u32_add_l, zlen_app. done.
        -- split; [apply map_exception_proper|]. by eexists.
    + destruct IH as (s0 & entries & puts & s1 & -> & -> & Hf & -> & Hv & ->). simpl in H. simplify_eq. split; [done|]. intros _.
      exists s0, puts, s1, s'. split_and!; try done. simpl. by rewrite <- app_assoc.
    + destruct IH as (Hp & entries & ->). simpl in H. simplify_eq. unfold progress_spec, returned_spec. cbn.
      destruct (proper_status _ Hp) as (-> & ? & ?). by split.
Qed.
End tasks.

(** ** The invariant of the service *)

Section invariant.
Context (options : GrpcServiceOptions) (limits : RequestProcessorOptions) (s0 : KVStore).
Abbreviation Moment := (nat * KVStore * KVStore)%type.

(** The visits follow each other: each starts with what the one before left. *)
Fixpoint chained (ms : list Moment) (s : KVStore) : Prop :=
  match ms with
  | [] => s = s0
  | (_, before, after) :: rest => s = after /\ chained rest before
  end.

(** The visits of one task, in their order. *)
Definition moments_of (id : nat) (ms : list Moment) : list (KVStore * KVStore) :=
  map (fun m => (m.1.2, m.2)) (filter (fun m => m.1.1 = id) (reverse ms)).

Lemma moments_of_cons id x ms :
  moments_of id (x :: ms) = moments_of id ms ++ (if decide (x.1.1 = id) then [(x.1.2, x.2)] else []).
Proof.
  unfold moments_of. rewrite reverse_cons, filter_app, map_app. f_equal. rewrite filter_cons. by destruct (decide (x.1.1 = id)).
Qed.

(** The executor has the task [id]. *)
Definition held (id : nat) (e : BoundedExecutor nat) : Prop := id ∈ tasks_ e \/ Running id ∈ workers_ e.

Lemma held_worker e ev e' id : worker_step e ev e' -> held id e' -> held id e.
Proof.
  intros Hs. assert (Hin : forall i w l, Running id ∈ <[i := w]> l -> Running id = w \/ Running id ∈ l) by (intros i w l; apply in_insert).
  destruct Hs as [i e e' H|i e e' H|i e e' H].
  - unfold take_task in H. destruct (workers_ e !! i) as [[]|] eqn:Ei; try done.
    assert (Hidle : forall w, idle w = true -> held id (set_worker i w e) -> held id e).
    { intros w Hw [Ht|Hr]; [by left|right]. apply Hin in Hr as [Hr|Hr]; [by subst w|done]. }
    destruct (negb _); [injection H as <-; by apply Hidle|].
    destruct (tasks_ e) as [|task rest] eqn:Et.
    + destruct (stopping_ e); injection H as <-; [by apply Hidle|done].
    + destruct (_ && _); injection H as <-; [by apply Hidle|]. unfold held. simpl. rewrite Et. intros [Ht|Hr]; [left; by right|].
      apply Hin in Hr as [[= ->]|Hr]; [left; by left|by right].
  - unfold finish_task in H. destruct (workers_ e !! i) as [[]|] eqn:Ei; try done. injection H as <-.
    intros [Ht|Hr]; [by left|]. apply Hin in Hr as [Hr|Hr]; [done|by right].
  - unfold count_task in H. destruct (workers_ e !! i) as [[]|] eqn:Ei; try done. injection H as <-.
    intros [Ht|Hr]; [by left|]. apply Hin in Hr as [Hr|Hr]; [done|by right].
Qed.

Lemma held_wake i e e' id : wake i e = Some e' -> held id e' -> held id e.
Proof.
  unfold wake. intros H. destruct (workers_ e !! i) as [[]|] eqn:Ei; try done. injection H as <-.
  intros [Ht|Hr]; [by left|]. apply in_insert in Hr as [Hr|Hr]; [done|by right].
Qed.

Lemma held_inner x ev x' id : inner_step x ev x' -> held id x'.1 -> held id x.1.
Proof.
  intros Hs. destruct Hs as [e ev e' calls Hs|before call after e e' Hn]; [by eapply held_worker|].
  destruct Hn as [i e e' H|e H|e]; [by eapply held_wake|done|]. intros [Ht|Hr]; [by left|right]. simpl in *.
  apply list_elem_of_fmap in Hr as (w & Hw & Hin). destruct w; simpl in Hw; by simplify_eq.
Qed.

Lemma held_submit id task e : held id (try_submit task e).2 -> held id e \/ (id = task /\ (try_submit task e).1 = true).
Proof.
  unfold try_submit. destruct (_ || _); simpl; [by left|]. intros [Ht|Hr]; [|left; by right].
  simpl in Ht. apply elem_of_app in Ht as [Ht|Ht]; [left; by left|]. apply list_elem_of_singleton in Ht. by right.
Qed.

Definition refused (c : Call) : Prop := exists st r, c_answer c = Some (st, r) /\ st_code st = RESOURCE_EXHAUSTED.
Definition failed (c : Call) : bool := match c_answer c with Some (st, _) => negb (bool_decide (st_code st = OK)) | None => false end.
Definition failures (calls : gmap nat Call) : gmap nat Call := filter (fun x => failed x.2 = true) calls.

Record call_inv (v : Service) (id : nat) (c : Call) : Prop := {
  cv_task : match c_request c with
            | Some request => task_run limits request (moments_of id (sv_moments v)) (c_progress c)
            | None => moments_of id (sv_moments v) = [] /\ c_progress c = Queued
            end;
  cv_ok : forall st r, c_answer c = Some (st, r) -> st_code st = OK ->
          c_request c = None \/ exists o, c_progress c = Returned o /\ reply_of o = (st, r);
  cv_refused : refused c -> moments_of id (sv_moments v) = []
}.

Record service_inv (v : Service) : Prop := {
  sv_chained : chained (sv_moments v) (sv_store v);
  sv_call : forall id c, sv_calls v !! id = Some c -> call_inv v id c;
  sv_unknown : forall id, sv_calls v !! id = None -> moments_of id (sv_moments v) = [];
  sv_held : forall id, held id (sv_executor v).1 -> exists c, sv_calls v !! id = Some c /\ ~ refused c;
  sv_total : sv_requests_total v = u64 (Z.of_nat (size (sv_calls v)));
  sv_failed : sv_failed_requests_total v = u64 (Z.of_nat (size (failures (sv_calls v))))
}.

Lemma failures_insert calls id c :
  (forall c0, calls !! id = Some c0 -> failed c0 = false) ->
  Z.of_nat (size (failures (<[id := c]> calls))) = Z.of_nat (size (failures calls)) + (if failed c then 1 else 0).
Proof.
  intros Hold. unfold failures. assert (Hn : filter (fun x => failed x.2 = true) calls !! id = None).
  { apply map_lookup_filter_None. destruct (calls !! id) as [c0|] eqn:E; [right|by left]. intros c1 [= <-]. simpl. by rewrite (Hold c0). }
  destruct (failed c) eqn:Ef.
  - rewrite map_filter_insert_True by done. rewrite map_size_insert_None by done. lia.
  - rewrite map_filter_insert_False by (simpl; congruence). rewrite map_filter_delete, delete_id by done. lia.
Qed.

(** Everything but a visit to the store: a call is new or changes, and the
    executor moves. *)
Lemma inv_update v id c x total failures' :
  service_inv v -> (forall c0, sv_calls v !! id = Some c0 -> failed c0 = false) -> call_inv v id c ->
  (forall id', held id' x.1 -> held id' (sv_executor v).1 \/ id' = id) -> (held id x.1 -> ~ refused c) ->
  total = u64 (Z.of_nat (size (<[id := c]> (sv_calls v)))) ->
  failures' = u64 (sv_failed_requests_total v + (if failed c then 1 else 0)) ->
  service_inv (mkService x (sv_store v) (<[id := c]> (sv_calls v)) total failures' (sv_moments v)).
Proof.
  intros [I1 I2 I3 I4 I5 I6] Hold Hc Hheld Href Ht Hf. split; simpl; try done.
  - intros id' c' Hl. apply lookup_insert_Some in Hl as [[<- <-]|[_ Hl]]; [by destruct Hc|]. by destruct (I2 id' c' Hl).
  - intros id' Hl. apply lookup_insert_None in Hl as [Hl _]. by apply I3.
  - intros id' Hh. destruct (decide (id' = id)) as [->|Hne]; [exists c; by rewrite lookup_insert_eq; auto|].
    rewrite lookup_insert_ne by done. apply I4. by destruct (Hheld id' Hh).
  - rewrite Hf, I6, u64_add_l, failures_insert by done. done.
Qed.

Lemma inv_executor v x : service_inv v -> (forall id, held id x.1 -> held id (sv_executor v).1) -> service_inv (set_executor x v).
Proof. intros [I1 I2 I3 I4 I5 I6] Hh. split; simpl; try done. - intros id c H. by destruct (I2 id c H). - intros id H. by apply I4, Hh. Qed.

(** A call that is new has not been to the store. *)
Lemma new_call_inv v id request answer :
  service_inv v -> sv_calls v !! id = None ->
  (forall st r, answer = Some (st, r) -> st_code st = OK -> request = None) -> call_inv v id (mkCall request Queued answer).
Proof.
  intros I Hn Hok. pose proof (sv_unknown _ I id Hn) as Hm. split; simpl; rewrite ?Hm; [destruct request; [constructor|done]| |done].
  intros st r Ha Hst. left. by eapply Hok.
Qed.

Lemma size_new v id c : sv_calls v !! id = None -> Z.of_nat (size (<[id := c]> (sv_calls v))) = Z.of_nat (size (sv_calls v)) + 1.
Proof. intros H. rewrite map_size_insert_None by done. lia. Qed.

Lemma inv_begin v id request encoded_size deadline_expired :
  service_inv v -> sv_calls v !! id = None -> service_inv (begin_handler options id request encoded_size deadline_expired v).
Proof.
  intros I Hn. pose proof (sv_total _ I) as Ht. unfold begin_handler, fail_call, set_call, record_failure, count_request, set_executor. simpl.
  assert (Hfresh : forall x c failures', call_inv v id c -> failures' = u64 (sv_failed_requests_total v + (if failed c then 1 else 0)) ->
    (forall id', held id' x.1 -> held id' (sv_executor v).1 \/ id' = id) -> (held id x.1 -> ~ refused c) ->
    service_inv (mkService x (sv_store v) (<[id := c]> (sv_calls v)) (u64 (sv_requests_total v + 1)) failures' (sv_moments v))).
  { intros x c failures' Hc Hf Hh Hr. apply inv_update; try done; [by intros c0; rewrite Hn|]. by rewrite Ht, u64_add_l, size_new. }
  assert (Hnot : ~ held id (sv_executor v).1) by (intros Hh; destruct (sv_held _ I id Hh) as (c & Hc & _); congruence).
  destruct (request_too_large options encoded_size); [|destruct deadline_expired].
  - apply Hfresh; [by apply new_call_inv; [..|intros ? ? [= <- _]]|done|by left|done].
  - apply Hfresh; [by apply new_call_inv; [..|intros ? ? [= <- _]]|done|by left|done].
  - pose proof (fun id' => held_submit id' id (sv_executor v).1) as Hs. destruct (try_submit id (sv_executor v).1) as [accepted e].
    simpl in Hs. destruct accepted; simpl.
    + apply Hfresh; [by apply new_call_inv|simpl; rewrite Z.add_0_r, (sv_failed _ I); by rewrite u64_idem| |].
      * intros id' Hh. destruct (Hs id' Hh) as [?|[-> _]]; [by left|by right].
      * intros _ (st & r & Ha & _). done.
    + apply Hfresh; [by apply new_call_inv; [..|intros ? ? [= <- _]]|done| |].
      * intros id' Hh. destruct (Hs id' Hh) as [?|[_ ?]]; [by left|done].
      * intros Hh. destruct (Hs id Hh) as [?|[_ ?]]; done.
Qed.

Lemma inv_status v id deadline_expired :
  service_inv v -> sv_calls v !! id = None -> service_inv (status_handler id deadline_expired v).
Proof.
  intros I Hn. pose proof (sv_total _ I) as Ht.
  assert (Hnot : ~ held id (sv_executor v).1) by (intros Hh; destruct (sv_held _ I id Hh) as (c & Hc & _); congruence).
  assert (Hold : forall c0, sv_calls v !! id = Some c0 -> failed c0 = false) by (intros c0; by rewrite Hn).
  unfold status_handler, fail_call, set_call, record_failure, count_request. simpl.
  destruct deadline_expired; apply inv_update; simpl; try done; try (by left); rewrite ?size_new, ?Ht, ?u64_add_l by done; try done.
  - by apply new_call_inv; [..|intros ? ? [= <- _]].
  - by apply new_call_inv.
  - by rewrite Z.add_0_r, (sv_failed _ I), u64_idem.
Qed.

(** The answer of a task is not a refusal, and when it is OK the store has
    been visited as it says. *)
Lemma returned_call v id request o a :
  service_inv v -> sv_calls v !! id = Some (mkCall request (Returned o) a) ->
  exists q, request = Some q /\ returned_spec limits q (moments_of id (sv_moments v)) o.
Proof.
  intros I Hc. pose proof (cv_task _ _ _ (sv_call _ I _ _ Hc)) as Ht. simpl in Ht. destruct request as [q|]; [|by destruct Ht].
  exists q. split; [done|]. by apply task_run_spec in Ht.
Qed.

Lemma inv_end v id ready v' : service_inv v -> end_handler id ready v = Some v' -> service_inv v'.
Proof.
  intros I H. unfold end_handler in H. destruct (sv_calls v !! id) as [[request p [a|]]|] eqn:Ec; try done.
  pose proof (sv_call _ I _ _ Ec) as [Ht _ _]. simpl in Ht.
  assert (Hstep : forall st r, st_code st <> RESOURCE_EXHAUSTED -> (st_code st = OK -> exists o, p = Returned o /\ reply_of o = (st, r)) ->
    service_inv (mkService (sv_executor v) (sv_store v) (<[id := mkCall request p (Some (st, r))]> (sv_calls v)) (sv_requests_total v)
      (if bool_decide (st_code st = OK) then sv_failed_requests_total v else u64 (sv_failed_requests_total v + 1)) (sv_moments v))).
  { intros st r Hne Hok.
    assert (Href : ~ refused (mkCall request p (Some (st, r)))) by (intros (st' & r' & [= <- <-] & ?); done).
    apply inv_update; try done.
    - intros c0. rewrite Ec. by intros [= <-].
    - split; [done|simpl|done]. intros st' r' [= <- <-] Hc. right. auto.
    - by left.
    - rewrite map_size_insert_Some by (by rewrite Ec). apply (sv_total _ I).
    - unfold failed. simpl. case_bool_decide; [|done]. by rewrite Z.add_0_r, (sv_failed _ I), u64_idem. }
  destruct ready; simpl in H.
  - destruct p as [| | | | |o]; try done. destruct (reply_of o) as [st r] eqn:Er.
    destruct (returned_call v id request o None I Ec) as (q & -> & Hs). unfold returned_spec in Hs. rewrite Er in Hs. destruct Hs as [Hne _].
    specialize (Hstep st r Hne ltac:(eauto)). case_bool_decide; by simplify_eq.
  - simplify_eq. apply (Hstep deadline_status NoResponse); [done|]. by intros.
Qed.

(** A call whose task is run has not been refused. *)
Lemma running_call v id request p a :
  service_inv v -> is_running id v -> sv_calls v !! id = Some (mkCall (Some request) p a) ->
  task_run limits request (moments_of id (sv_moments v)) p /\ ~ refused (mkCall (Some request) p a) /\
  (forall st r, a = Some (st, r) -> st_code st = OK -> exists o, p = Returned o /\ reply_of o = (st, r)).
Proof.
  intros I Hr Hc. destruct (sv_call _ I _ _ Hc) as [Ht Hok _]. split; [done|]. split.
  - destruct (sv_held _ I id ltac:(by right)) as (c & Hc' & Hn). by rewrite Hc in Hc'; simplify_eq.
  - intros st r Ha Hst. by destruct (Hok st r Ha Hst).
Qed.

Lemma failures_same calls id c c' : calls !! id = Some c -> failed c' = failed c -> size (failures (<[id := c']> calls)) = size (failures calls).
Proof.
  intros Hc Hf. destruct (failed c) eqn:E.
  - unfold failures. rewrite map_filter_insert_True by done. rewrite map_size_insert_Some; [done|].
    exists c. by apply map_lookup_filter_Some.
  - apply Nat2Z.inj. rewrite failures_insert, Hf; [lia|]. intros c0. by rewrite Hc; intros [= <-].
Qed.

(** A running task goes on, with or without a visit. *)
Lemma inv_progress v id request p a p' ms s :
  service_inv v -> is_running id v -> sv_calls v !! id = Some (mkCall (Some request) p a) -> (forall o, p <> Returned o) ->
  chained ms s -> task_run limits request (moments_of id ms) p' ->
  (forall id', id' <> id -> moments_of id' ms = moments_of id' (sv_moments v)) ->
  service_inv (mkService (sv_executor v) s (<[id := mkCall (Some request) p' a]> (sv_calls v)) (sv_requests_total v)
    (sv_failed_requests_total v) ms).
Proof.
  intros I Hr Hc Hp Hch Htask Hother. destruct (running_call _ _ _ _ _ I Hr Hc) as (_ & Hn & Hok). destruct I as [I1 I2 I3 I4 I5 I6].
  split; simpl; try done.
  - intros id' c' [[<- <-]|[Hne Hl]]%lookup_insert_Some.
    + split; simpl; [done| |by intros ?; destruct Hn]. intros st r Ha Hst. destruct (Hok st r Ha Hst) as (o & -> & _). by destruct (Hp o).
    + destruct (I2 id' c' Hl) as [C1 C2 C3]. rewrite <- (Hother id') in C1, C3 by done. by split.
  - intros id' [Hl Hne]%lookup_insert_None. rewrite (Hother id') by done. by apply I3.
  - intros id' Hh. destruct (decide (id' = id)) as [->|Hne]; [eexists; rewrite lookup_insert_eq; by split|].
    rewrite lookup_insert_ne by done. by apply I4.
  - rewrite map_size_insert_Some by (by rewrite Hc). done.
  - by rewrite (failures_same _ _ (mkCall (Some request) p a)).
Qed.

Lemma inv_start v id late request p a p' :
  service_inv v -> is_running id v -> sv_calls v !! id = Some (mkCall (Some request) p a) -> start_task late request p = Some p' ->
  service_inv (set_call id (mkCall (Some request) p' a) v).
Proof.
  intros I Hr Hc Hs. destruct (running_call _ _ _ _ _ I Hr Hc) as (Ht & _). unfold set_call.
  eapply inv_progress; [done|done|exact Hc|by intros o ->|apply I|by eapply run_start|done].
Qed.

Lemma inv_visit v id request p a p' s' :
  service_inv v -> is_running id v -> sv_calls v !! id = Some (mkCall (Some request) p a) ->
  visit_store limits request p (sv_store v) = Some (p', s') -> service_inv (visited id s' (set_call id (mkCall (Some request) p' a) v)).
Proof.
  intros I Hr Hc Hs. destruct (running_call _ _ _ _ _ I Hr Hc) as (Ht & _). unfold visited, set_call. simpl.
  eapply inv_progress; [done|done|exact Hc|by intros o ->|split; [done|apply I]| |].
  - rewrite moments_of_cons, decide_True by done. by eapply run_visit.
  - intros id' Hne. rewrite moments_of_cons, decide_False by (simpl; congruence). apply app_nil_r.
Qed.

Lemma inv_service_step v v' : service_inv v -> service_step options limits v v' -> service_inv v'.
Proof.
  intros I Hs. destruct Hs as [id request n d v Hn|id d v Hn|id ready v v' H|ev x v H _|i e v H|e v H|id late request p a p' v Hr Hc H
    |id request p a p' s' v Hr Hc H].
  - by apply inv_begin.
  - by apply inv_status.
  - by eapply inv_end.
  - apply inv_executor; [done|]. intros id. by eapply held_inner.
  - apply inv_executor; [done|]. intros id. by eapply held_wake.
  - apply inv_executor; [done|]. intros id. unfold begin_shutdown in H. destruct (stopping_ _); [done|]. injection H as <-. done.
  - by eapply inv_start.
  - by eapply inv_visit.
Qed.

Lemma inv_initial w q e : new_executor w q = Ok e -> service_inv (initial_service e s0).
Proof.
  intros H. unfold new_executor in H. inv_ok. split; simpl; try done.
  intros id [Ht|Hr]; [by apply not_elem_of_nil in Ht|]. by apply elem_of_replicate in Hr as [? _].
Qed.

Lemma inv_reachable w q e v : new_executor w q = Ok e -> rtc (service_step options limits) (initial_service e s0) v -> service_inv v.
Proof.
  intros Hn%inv_initial Hr. revert Hn. generalize dependent (initial_service e s0). intros v0 Hr. induction Hr as [v|v v1 v2 Hs _ IH]; [done|].
  intros I. apply IH. by eapply inv_service_step.
Qed.
End invariant.
(** ** Theorem *)

(** C16: the service is linearizable in its visits to the store.  Whatever the
    interleaving of handlers, workers and tasks, with deadlines passing at any
    moment and the server shutting down: the visits of all tasks to the store
    follow one another, from the store the server started with to the one it
    has.  A call that has not begun has made no visit.  A call answered OK has
    by then made exactly the visits of its request, on the stores of those
    moments: one put, one get or one removal that returned what is answered,
    or the puts of all the entries of a batch within the limits, in order.  A
    call answered RESOURCE_EXHAUSTED makes none, ever.  The two counters are
    the numbers of calls and of those answered with an error, modulo 2^64. *)
Theorem service_linearizable options limits s0 w q e v :
  new_executor w q = Ok e -> rtc (service_step options limits) (initial_service e s0) v ->
  chained s0 (sv_moments v) (sv_store v) /\
  (forall id, sv_calls v !! id = None -> moments_of id (sv_moments v) = []) /\
  (forall id request p st response, sv_calls v !! id = Some (mkCall (Some request) p (Some (st, response))) ->
     (st_code st = OK -> effect limits request (moments_of id (sv_moments v)) response) /\
     (st_code st = RESOURCE_EXHAUSTED -> moments_of id (sv_moments v) = [])) /\
  service_statistics v = mkServiceStatistics (u64 (Z.of_nat (size (sv_calls v)))) (u64 (Z.of_nat (size (failures (sv_calls v))))).
Proof.
  intros Hn Hr. pose proof (inv_reachable options limits s0 w q e v Hn Hr) as I. split_and!.
  - apply I.
  - apply I.
  - intros id request p st response Hc. destruct (sv_call _ _ _ I _ _ Hc) as [Ht Hok Href]. simpl in *. split.
    + intros Hst. destruct (Hok st response eq_refl Hst) as [?|(o & -> & Ho)]; [done|].
      apply task_run_spec in Ht as [_ Heff]. rewrite Ho in Heff. by apply Heff.
    + intros Hst. apply Href. by exists st, response.
  - unfold service_statistics. by rewrite (sv_total _ _ _ I), (sv_failed _ _ _ I).
Qed.

(** *** A task that is not interrupted *)

Fixpoint visits (limits : RequestProcessorOptions) (request : Request) (n : nat) (p : Progress) (s : KVStore) : Progress * KVStore :=
  match n with
  | O => (p, s)
  | S n => match visit_store limits request p s with Some (p', s') => visits limits request n p' s' | None => (p, s) end
  end.

Lemma visits_batch limits request entries : forall n s,
  visits limits request (length entries + 2) (InBatch n entries) s
  = (Returned (BatchOutcome (put_entries n entries s).1), (put_entries n entries s).2).
Proof.
  induction entries as [|[key value] rest IH]; intros n s; [done|]. simpl. unfold rp_put.
  destruct (ps_put key value s) as [[u|e] s1]; simpl; [apply IH|]. rewrite Nat.add_comm. done.
Qed.

(** The visits of a task, when no other task comes in between, are the call of
    the request processor. *)
Lemma uninterrupted_task limits request s :
  exists n, visits limits request n InCall s =
    match request with
    | PutRequest key value => (Returned (PutOutcome (rp_put key value s).1), (rp_put key value s).2)
    | GetRequest key => (Returned (GetOutcome (rp_get key s).1), (rp_get key s).2)
    | DeleteRequest key => (Returned (DeleteOutcome (rp_remove key s).1), (rp_remove key s).2)
    | BatchPutRequest entries => (Returned (BatchOutcome (batch_put limits entries s).1), (batch_put limits entries s).2)
    end.
Proof.
  destruct request as [key value|key|key|entries].
  - exists 2%nat. simpl. unfold rp_put. by destruct (ps_put key value s) as [[]].
  - exists 1%nat. simpl. by destruct (rp_get key s).
  - exists 1%nat. simpl. by destruct (rp_remove key s).
  - exists (S (length entries + 2)). simpl. unfold batch_put. destruct (is_error (validate_batch limits entries)); [|apply visits_batch].
    rewrite Nat.add_comm. done.
Qed.

(** ** Witness *)

Definition demo_server : BoundedExecutor nat := mkExecutor 1 2 [] [Waiting] true false true 0 0 0 0.
Definition demo_limits : RequestProcessorOptions := default_request_processor_options.

Lemma visit_put limits key value s r s' : ps_put key value s = (r, s') -> visit_store limits (PutRequest key value) InCall s = Some (Wrote r, s').
Proof. unfold visit_store. by intros ->. Qed.

(** One request, from its arrival to its answer. *)
Lemma demo_served key value s s' :
  ps_put key value s = (Ok tt, s') ->
  exists v p response, rtc (service_step (mkGrpcServiceOptions 100) demo_limits) (initial_service demo_server s) v /\
    sv_calls v !! 0%nat = Some (mkCall (Some (PutRequest key value)) p (Some (ok_status, response))).
Proof.
  intros Hp. eexists _, _, _. split.
  - eapply rtc_l; [apply (sstep_begin _ _ 0 (PutRequest key value) 60 false); reflexivity|]. cbn.
    eapply rtc_l; [eapply sstep_executor; [apply inner_worker; eapply (step_take 0); reflexivity|done]|]. cbn.
    eapply rtc_l; [eapply (sstep_start _ _ 0 false); [by left|reflexivity|reflexivity]|]. cbn.
    eapply rtc_l; [eapply (sstep_visit _ _ 0); [by left|reflexivity|apply visit_put, Hp]|]. cbn.
    eapply rtc_l; [eapply (sstep_visit _ _ 0); [by left|reflexivity|reflexivity]|]. cbn.
    eapply rtc_l; [eapply (sstep_end _ _ 0 true); reflexivity|]. apply rtc_refl.
  - reflexivity.
Qed.

Lemma demo_first_put : exists s', ps_put (bytes_of "a") demo_value demo_store = (Ok tt, s').
Proof.
  assert (Hi : kv_inv demo_store) by exact (conj demo_store_inv demo_store_quiet). pose proof (proj2 demo_capacity) as Hb.
  destruct (kv_put_ok demo_store (bytes_of "a") demo_value Hi (proj1 demo_valid) (proj2 demo_valid)) as (s' & Hp & _); [|by exists s'].
  exact (Z.lt_le_trans 0 1000 _ eq_refl Hb).
Qed.

Lemma service_linearizable_witness :
  exists v response, rtc (service_step (mkGrpcServiceOptions 100) demo_limits) (initial_service demo_server demo_store) v /\
    effect demo_limits (PutRequest (bytes_of "a") demo_value) (moments_of 0 (sv_moments v)) response.
Proof.
  destruct demo_first_put as [s' Hp].
  destruct (demo_served _ _ _ _ Hp) as (v & p & response & Hr & Hc). exists v, response. split; [exact Hr|].
  destruct (service_linearizable (mkGrpcServiceOptions 100) demo_limits demo_store 1 2 demo_server v eq_refl Hr) as (_ & _ & H & _).
  exact (proj1 (H _ _ _ _ _ Hc) eq_refl).
Defined.
