(* ===== verification/GrpcServer.v ===== *)
(** * The single-node server

    src/network/grpc_server.cpp: the server around the service of
    [GrpcService], from its constructor to the end of [finish_shutdown], and
    the client of src/network/grpc_client.cpp.  A
    step is a call of the server, a step of the service, or a stage of
    [finish_shutdown].  When gRPC hands a call to the service, and when
    [Server::Wait] returns, are parameters; [GrpcContract] says what gRPC
    documents of them. *)

From S2P Require Import Prelude Posix FileSystem Store MemTableSet WalWriter Recovery SstManager PersistentStore StoreInv StoreRefinement StoreDisk StoreOpen StoreRestart Executor RequestProcessor GrpcService.

(** ** Definitions *)

Record GrpcServerOptions := mkGrpcServerOptions {
  gso_listen_address : str;
  gso_worker_threads : Z;
  gso_request_queue_capacity : Z;
  gso_max_message_bytes : Z;
  gso_max_batch_entries : Z;
  gso_max_batch_bytes : Z;
  gso_checkpoint_on_shutdown : bool
}.

Definition server_message_size (bytes : Z) : result Z :=
  _ ← throw_if ((bytes =? 0) || (2 ^ 31 - 1 <? bytes)) (InvalidArgument "maximum message size must fit in a positive signed integer");
  mret bytes.

(** Where the call of [finish_shutdown] that goes on has come. *)
Inductive Closing :=
| Stopping
| Joining
| Storing
| Closed (r : result unit).

(** [gs_server] says that [server_] is set; [gs_waited] that [Server::Wait] has
    returned. *)
Record GrpcServer := mkGrpcServer {
  gs_options : GrpcServerOptions;
  gs_service : Service;
  gs_server : bool;
  gs_bound_port : Z;
  gs_started : bool;
  gs_shutdown_requested : bool;
  gs_shutdown_finished : bool;
  gs_waited : bool;
  gs_closing : option Closing
}.

Definition set_service (v : Service) (g : GrpcServer) : GrpcServer :=
  mkGrpcServer (gs_options g) v (gs_server g) (gs_bound_port g) (gs_started g) (gs_shutdown_requested g) (gs_shutdown_finished g)
    (gs_waited g) (gs_closing g).
Definition set_closing (x : Closing) (g : GrpcServer) : GrpcServer :=
  mkGrpcServer (gs_options g) (gs_service g) (gs_server g) (gs_bound_port g) (gs_started g) (gs_shutdown_requested g) (gs_shutdown_finished g)
    (gs_waited g) (Some x).

(** The constructor. *)
Definition new_grpc_server (options : GrpcServerOptions) (store : KVStore) : result GrpcServer :=
  e ← new_executor (gso_worker_threads options) (gso_request_queue_capacity options);
  _ ← new_request_processor (mkRequestProcessorOptions (gso_max_batch_entries options) (gso_max_batch_bytes options));
  _ ← new_grpc_service (mkGrpcServiceOptions (gso_max_message_bytes options));
  _ ← throw_if (is_nil (gso_listen_address options)) (InvalidArgument "listen address must not be empty");
  _ ← server_message_size (gso_max_message_bytes options);
  mret (mkGrpcServer options (initial_service e store) false 0 false false false false None).

(** [built] is what [BuildAndStart] makes: nothing, or a server with its port. *)
Definition gs_start (built : option Z) : stm GrpcServer unit :=
  g ← sget;
  _ ← slift (throw_if (gs_started g) (LogicError "gRPC server has already been started"));
  _ ← slift (server_message_size (gso_max_message_bytes (gs_options g)));
  _ ← smodify (fun g => mkGrpcServer (gs_options g) (gs_service g) (bool_decide (is_Some built)) (default 0 built) (gs_started g)
                         (gs_shutdown_requested g) (gs_shutdown_finished g) (gs_waited g) (gs_closing g));
  _ ← slift (throw_if (match built with Some port => port =? 0 | None => true end) (RuntimeError "failed to bind the gRPC server"));
  smodify (fun g => mkGrpcServer (gs_options g) (gs_service g) (gs_server g) (gs_bound_port g) true
                      (gs_shutdown_requested g) (gs_shutdown_finished g) (gs_waited g) (gs_closing g)).

(** The section of [wait] before [Server::Wait]. *)
Definition gs_wait_check (g : GrpcServer) : result unit :=
  throw_if (negb (gs_started g) || negb (gs_server g)) (LogicError "gRPC server is not running").

Definition gs_request_shutdown : stm GrpcServer unit :=
  smodify (fun g =>
    if negb (gs_server g) || gs_shutdown_requested g then g
    else mkGrpcServer (gs_options g) (gs_service g) (gs_server g) (gs_bound_port g) (gs_started g) true (gs_shutdown_finished g)
           (gs_waited g) (gs_closing g)).

(** The section of the destructor. *)
Definition gs_requires_shutdown (g : GrpcServer) : bool := gs_server g && negb (gs_shutdown_finished g).

(** [Server::Wait] has returned: the section of [finish_shutdown]. *)
Definition finish_section (g : GrpcServer) : GrpcServer :=
  mkGrpcServer (gs_options g) (gs_service g) (gs_server g) (gs_bound_port g) (gs_started g) (gs_shutdown_requested g) true true
    (if gs_shutdown_finished g then gs_closing g else Some Stopping).

(** The last part of [finish_shutdown]. *)
Definition close_store (options : GrpcServerOptions) : stm KVStore unit :=
  if gso_checkpoint_on_shutdown options then ps_checkpoint else ps_flush.

Definition store_closed (r : result unit) (s : KVStore) (g : GrpcServer) : GrpcServer :=
  let v := gs_service g in
  set_closing (Closed r) (set_service (mkService (sv_executor v) s (sv_calls v) (sv_requests_total v) (sv_failed_requests_total v) (sv_moments v)) g).

Definition gs_service_statistics (g : GrpcServer) : ServiceStatistics := service_statistics (gs_service g).
Definition gs_executor_statistics (g : GrpcServer) : ExecutorStatistics := statistics (sv_executor (gs_service g)).1.

(** ** Steps *)

Section steps.
Context (serving drained : GrpcServer -> Prop).

(** A step of the service; calls begin while gRPC serves, and nothing but
    [finish_shutdown] stops the executor. *)
Definition at_work (g : GrpcServer) (v : Service) : Prop :=
  service_step (mkGrpcServiceOptions (gso_max_message_bytes (gs_options g)))
    (mkRequestProcessorOptions (gso_max_batch_entries (gs_options g)) (gso_max_batch_bytes (gs_options g))) (gs_service g) v /\
  (forall id, sv_calls (gs_service g) !! id = None -> is_Some (sv_calls v !! id) -> serving g) /\
  stopping_ (sv_executor v).1 = stopping_ (sv_executor (gs_service g)).1.

Inductive server_step : GrpcServer -> GrpcServer -> Prop :=
| gstep_start built g r g' : gs_start built g = (r, g') -> server_step g g'
| gstep_service v g : at_work g v -> server_step g (set_service v g)
| gstep_request g r g' : gs_request_shutdown g = (r, g') -> server_step g g'
| gstep_wait g : gs_wait_check g = Ok tt -> drained g -> server_step g (finish_section g)
| gstep_destroy g : gs_requires_shutdown g = true -> drained g -> server_step g (finish_section g)
| gstep_stop e g :
    gs_closing g = Some Stopping -> begin_shutdown true (sv_executor (gs_service g)).1 = Some e ->
    server_step g (set_closing Joining (set_service (set_executor (e, NotifyAll :: (sv_executor (gs_service g)).2) (gs_service g)) g))
| gstep_join g : gs_closing g = Some Joining -> all_exited (sv_executor (gs_service g)).1 = true -> server_step g (set_closing Storing g)
| gstep_store r s g : gs_closing g = Some Storing -> close_store (gs_options g) (sv_store (gs_service g)) = (r, s) -> server_step g (store_closed r s g).
End steps.

(** What gRPC documents: calls come while there is a server, and none after
    [Wait] has returned; [Wait] returns once a shutdown was asked for and every
    handler has returned. *)
Record GrpcContract (serving drained : GrpcServer -> Prop) : Prop := {
  gc_serving : forall g, serving g -> gs_server g = true /\ gs_waited g = false;
  gc_drained : forall g, drained g ->
    gs_shutdown_requested g = true /\ forall id c, sv_calls (gs_service g) !! id = Some c -> is_Some (c_answer c)
}.

(** ** The client

    src/network/grpc_client.cpp.  The stub of an address is a parameter: what
    a request with a deadline is answered, and what becomes of the world. *)

Record GrpcClientOptions := mkGrpcClientOptions {
  gco_address : str;
  gco_timeout : Z;
  gco_max_message_bytes : Z
}.

Definition new_grpc_client (o : GrpcClientOptions) : result GrpcClientOptions :=
  _ ← throw_if (is_nil (gco_address o)) (InvalidArgument "server address must not be empty");
  _ ← throw_if (gco_timeout o <=? 0) (InvalidArgument "request timeout must be positive");
  _ ← server_message_size (gco_max_message_bytes o);
  mret o.

Section client.
Context {W : Type}.
Context (stub : str -> Request -> Z -> W -> (Status * Response) * W).
Context (status_stub : str -> Z -> W -> (Status * Response) * W).

Definition call_deadline (o : GrpcClientOptions) (now : Z) : Z := now + gco_timeout o.

Definition grpc_client_put (o : GrpcClientOptions) (now : Z) (key value : str) : W -> (Status * Response) * W :=
  stub (gco_address o) (PutRequest key value) (call_deadline o now).
Definition grpc_client_get (o : GrpcClientOptions) (now : Z) (key : str) : W -> (Status * Response) * W :=
  stub (gco_address o) (GetRequest key) (call_deadline o now).
Definition grpc_client_remove (o : GrpcClientOptions) (now : Z) (key : str) : W -> (Status * Response) * W :=
  stub (gco_address o) (DeleteRequest key) (call_deadline o now).

(** [request.add_entries()] in the order of the entries. *)
Definition grpc_client_batch_put (o : GrpcClientOptions) (now : Z) (entries : list (str * str)) : W -> (Status * Response) * W :=
  stub (gco_address o) (BatchPutRequest entries) (call_deadline o now).
Definition grpc_client_status (o : GrpcClientOptions) (now : Z) : W -> (Status * Response) * W :=
  status_stub (gco_address o) (call_deadline o now).
End client.

(** ** The service while it drains *)

(** The executor of a service makes the steps of an executor. *)
Lemma service_executor_step options limits v v' :
  service_step options limits v v' ->
  sv_executor v' = sv_executor v \/ exists ev, executor_step (sv_executor v) ev (sv_executor v').
Proof.
  intros Hs. destruct Hs as [id request n d v Hn|id d v Hn|id ready v v' E|ev x v E _|i e v E|e v E|id late request p a p' v Hr Hc E
    |id request p a p' s' v Hr Hc E].
  - unfold begin_handler. destruct (request_too_large _ _); [by left|]. destruct d; [by left|]. right.
    destruct (sv_executor v) as [e calls] eqn:Ee. cbn [count_request sv_executor]. rewrite Ee. cbn [fst snd].
    pose proof (step_submit id e calls) as Hst. destruct (try_submit id e) as [[] e']; eexists; exact Hst.
  - left. unfold status_handler. by destruct d.
  - left. unfold end_handler in E. destruct (sv_calls v !! id) as [[request p [a|]]|]; try done. destruct ready; cbn [negb] in E; [|by injection E as <-].
    destruct p; try done. destruct (reply_of o) as [st r]. case_bool_decide; by injection E as <-.
  - right. exists ev. by apply step_inner.
  - right. destruct (sv_executor v) as [e0 calls] eqn:Ee. eexists. cbn [set_executor sv_executor]. by eapply step_spurious.
  - right. destruct (sv_executor v) as [e0 calls] eqn:Ee. eexists. cbn [set_executor sv_executor]. by eapply (step_shutdown true).
  - by left.
  - by left.
Qed.

Lemma service_executor_run options limits w q e s v :
  new_executor w q = Ok e -> rtc (service_step options limits) (initial_service e s) v -> exists evs, executor_run w q evs (sv_executor v).
Proof.
  intros He Hr. assert (H0 : exists evs, executor_run w q evs (sv_executor (initial_service e s))) by (exists []; by apply run_new).
  revert H0. generalize dependent (initial_service e s). intros v0 Hr. induction Hr as [v|v v1 v2 Hs _ IH]; [done|].
  intros [evs Hrun]. apply IH. destruct (service_executor_step _ _ _ _ Hs) as [->|[ev Hst]]; [by exists evs|]. exists (ev :: evs). by eapply run_step.
Qed.

Lemma all_exited_elem {T} (e : BoundedExecutor T) : all_exited e = true <-> forall x, x ∈ workers_ e -> x = Exited.
Proof.
  unfold all_exited. rewrite forallb_forall. split.
  - intros H x Hx%list_elem_of_In. specialize (H x Hx). by destruct x.
  - intros H x Hx%list_elem_of_In. by rewrite (H x Hx).
Qed.

(** Workers that have left their loops stay out. *)
Lemma exited_stays {T} (s : Situation T) ev s' : executor_step s ev s' -> all_exited s.1 = true -> all_exited s'.1 = true.
Proof.
  intros Hs Hx. destruct Hs as [task e calls|drain e e' calls E|i e e' calls E|s ev s' Hi].
  - unfold try_submit. by destruct (_ || _).
  - unfold begin_shutdown in E. destruct (stopping_ e); [done|]. by injection E as <-.
  - unfold wake in E. destruct (workers_ e !! i) as [[]|] eqn:Ei; try done. apply list_elem_of_lookup_2 in Ei.
    by apply all_exited_elem with (x := Blocked) in Hx.
  - rewrite all_exited_elem in Hx. assert (Hno : forall i e (w : Worker T), s.1 = e -> workers_ e !! i = Some w -> w = Exited).
    { intros i e w <- Hw%list_elem_of_lookup_2. auto. }
    destruct Hi as [e ev e' calls Hw|before call after e e' Hn]; cbn [fst] in *.
    + destruct Hw as [i e e' E|i e e' E|i e e' E].
      * unfold take_task in E. destruct (workers_ e !! i) as [w|] eqn:Ei; [|done]. by rewrite (Hno i e w eq_refl Ei) in E.
      * unfold finish_task in E. destruct (workers_ e !! i) as [w|] eqn:Ei; [|done]. by rewrite (Hno i e w eq_refl Ei) in E.
      * unfold count_task in E. destruct (workers_ e !! i) as [w|] eqn:Ei; [|done]. by rewrite (Hno i e w eq_refl Ei) in E.
    + destruct Hn as [i e e' E|e Hb|e].
      * unfold wake in E. destruct (workers_ e !! i) as [w|] eqn:Ei; [|done]. by rewrite (Hno i e w eq_refl Ei) in E.
      * by apply all_exited_elem.
      * apply all_exited_elem. cbn [notify_all workers_]. intros x (w & -> & Hw)%list_elem_of_fmap. by rewrite (Hx w Hw).
Qed.

(** *** No accepted request is left behind *)

(** A task is dropped by the executor only when it has finished. *)
Lemma held_on x ev x' id : inner_step x ev x' -> held id x.1 -> held id x'.1 \/ ev = Finished id.
Proof.
  assert (Hset : forall (e : BoundedExecutor nat) i w w', workers_ e !! i = Some w -> Running id ∈ workers_ e ->
    Running id = w \/ Running id ∈ <[i := w']> (workers_ e)).
  { intros e i w w' Hi [j Hj]%list_elem_of_lookup. destruct (decide (i = j)) as [->|Hne]; [left; congruence|right].
    apply (list_elem_of_lookup_2 _ j). by rewrite list_lookup_insert_ne. }
  intros Hs Hh. destruct Hs as [e ev e' calls Hw|before call after e e' Hn]; cbn [fst] in *.
  - destruct Hw as [i e e' E|i e e' E|i e e' E].
    + left. unfold take_task in E. destruct (workers_ e !! i) as [[]|] eqn:Ei; try done.
      assert (Hidle : forall w, held id (set_worker i w e)).
      { intros w. destruct Hh as [Ht|Hr]; [by left|right]. cbn. by destruct (Hset e i Waiting w Ei Hr). }
      destruct (negb _); [injection E as <-; apply Hidle|]. destruct (tasks_ e) as [|task rest] eqn:Et.
      * destruct (stopping_ e); injection E as <-; [apply Hidle|done].
      * destruct (_ && _); injection E as <-; [apply Hidle|]. unfold held in *. cbn. rewrite Et in Hh. destruct Hh as [[->|Ht]%elem_of_cons|Hr].
        -- right. eapply insert_in. exact Ei.
        -- by left.
        -- right. by destruct (Hset e i Waiting (Running task) Ei Hr).
    + unfold finish_task in E. destruct (workers_ e !! i) as [[]|] eqn:Ei; try done. injection E as <-. unfold finished. rewrite Ei.
      destruct Hh as [Ht|Hr]; [left; by left|]. destruct (Hset e i _ Counting Ei Hr) as [[= ->]|Hr']; [by right|left; by right].
    + left. unfold count_task in E. destruct (workers_ e !! i) as [[]|] eqn:Ei; try done. injection E as <-.
      destruct Hh as [Ht|Hr]; [by left|right]. cbn. by destruct (Hset e i Counting Waiting Ei Hr).
  - left. destruct Hn as [i e e' E|e Hb|e]; [|done|].
    + unfold wake in E. destruct (workers_ e !! i) as [[]|] eqn:Ei; try done. injection E as <-.
      destruct Hh as [Ht|Hr]; [by left|right]. cbn. by destruct (Hset e i Blocked Waiting Ei Hr).
    + destruct Hh as [Ht|Hr]; [by left|right]. cbn. apply list_elem_of_fmap. by exists (Running id).
Qed.

(** The task of a call has ended, or the executor has it, or the call was
    turned away with an answer. *)
Definition in_hand (v : Service) (id : nat) (c : Call) : Prop :=
  c_request c = None \/ (exists o, c_progress c = Returned o) \/ held id (sv_executor v).1 \/ (c_progress c = Queued /\ is_Some (c_answer c)).

Definition all_in_hand (v : Service) : Prop := forall id c, sv_calls v !! id = Some c -> in_hand v id c.

Lemma in_hand_held v v' id c :
  (held id (sv_executor v).1 -> held id (sv_executor v').1) -> in_hand v id c -> in_hand v' id c.
Proof. unfold in_hand. tauto. Qed.

Lemma in_hand_step options limits v v' : all_in_hand v -> service_step options limits v v' -> all_in_hand v'.
Proof.
  intros Ha Hs. destruct Hs as [id request n d v Hn|id d v Hn|id ready v v' E|ev x v E Hf|i e v E|e v E|id late request p a p' v Hr Hc E
    |id request p a p' s' v Hr Hc E]; intros id' c' Hl.
  - unfold begin_handler in *. destruct (request_too_large _ _); [|destruct d].
    + cbn in Hl. apply lookup_insert_Some in Hl as [[<- <-]|[_ Hl]]; [right; right; right; by split|]. by apply Ha.
    + cbn in Hl. apply lookup_insert_Some in Hl as [[<- <-]|[_ Hl]]; [right; right; right; by split|]. by apply Ha.
    + cbn [count_request sv_executor] in *. assert (Hk : held id' (sv_executor v).1 -> held id' (try_submit id (sv_executor v).1).2).
      { unfold try_submit. destruct (_ || _); [done|]. intros [Ht|Hr]; [left; cbn; by apply elem_of_app; left|by right]. }
      assert (Hnew : (try_submit id (sv_executor v).1).1 = true -> held id (try_submit id (sv_executor v).1).2).
      { unfold try_submit. destruct (_ || _); [done|]. intros _. left. cbn. apply elem_of_app. right. by apply list_elem_of_singleton. }
      destruct (try_submit id (sv_executor v).1) as [[] e']; cbn in Hl, Hk, Hnew;
        (apply lookup_insert_Some in Hl as [[<- <-]|[_ Hl]]; [|eapply in_hand_held; [exact Hk|by apply Ha]]).
      * right. right. left. by apply Hnew.
      * right; right; right; by split.
  - unfold status_handler in *. destruct d; cbn in Hl; (apply lookup_insert_Some in Hl as [[<- <-]|[_ Hl]]; [by left|by apply Ha]).
  - unfold end_handler in E. destruct (sv_calls v !! id) as [[request p [a|]]|] eqn:Ec; try done.
    assert (Hupd : forall st, in_hand v id (mkCall request p (Some st))).
    { intros st. destruct (Ha id _ Ec) as [Hq|[Hq|[Hq|[Hq _]]]]; cbn in Hq; [by left|right; by left|right; right; by left|]. right; right; right. by split. }
    destruct ready; cbn [negb] in E.
    + destruct p as [| | | | |o]; try done. destruct (reply_of o) as [st r]. case_bool_decide; injection E as <-; cbn in Hl;
        (apply lookup_insert_Some in Hl as [[<- <-]|[_ Hl]]; [apply Hupd|by apply Ha]).
    + injection E as <-. cbn in Hl. apply lookup_insert_Some in Hl as [[<- <-]|[_ Hl]]; [apply Hupd|by apply Ha].
  - cbn in Hl. destruct (Ha id' c' Hl) as [?|[?|[Hh|?]]]; [by left|right; by left| |right; right; by right].
    destruct (held_on _ _ _ _ E Hh) as [Hh'| ->]; [right; right; by left|]. destruct Hf as (request & o & a & Hc). rewrite Hl in Hc. injection Hc as ->.
    right. left. by exists o.
  - eapply in_hand_held; [|by apply Ha]. cbn. intros Hh. assert (Hi : inner_step ((sv_executor v).1, [NotifyOne]) Quiet (e, [])).
    { apply (inner_notify [] NotifyOne []). by eapply notified_one. }
    by destruct (held_on _ _ _ id' Hi Hh).
  - eapply in_hand_held; [|by apply Ha]. cbn. unfold begin_shutdown in E. destruct (stopping_ _); [done|]. by injection E as <-.
  - cbn in Hl. apply lookup_insert_Some in Hl as [[<- <-]|[_ Hl]]; [right; right; left; by right|by apply Ha].
  - cbn in Hl. apply lookup_insert_Some in Hl as [[<- <-]|[_ Hl]]; [right; right; left; by right|by apply Ha].
Qed.

Lemma in_hand_reachable options limits e s v : rtc (service_step options limits) (initial_service e s) v -> all_in_hand v.
Proof.
  intros Hr. assert (H0 : all_in_hand (initial_service e s)) by (intros id c Hl; cbn in Hl; by rewrite lookup_empty in Hl).
  revert H0. generalize dependent (initial_service e s). intros v0 Hr. induction Hr as [v|v v1 v2 Hs _ IH]; [done|].
  intros H0. apply IH. by eapply in_hand_step.
Qed.

(** *** The store under the service *)

(** A visit is a call of the store, or looks at it only. *)
Lemma visit_is_call limits request p s p' s' :
  visit_store limits request p s = Some (p', s') -> exists ops, s' = (kv_execs ops s).2 /\ zlen ops <= 1.
Proof.
  assert (Hnone : forall x : KVStore, exists ops, x = (kv_execs ops x).2 /\ zlen ops <= 1) by (intros x; exists []; by split).
  assert (Hone : forall (x x' : KVStore) op, x' = (kv_exec op x).2 -> exists ops, x' = (kv_execs ops x).2 /\ zlen ops <= 1).
  { intros x x' op ->. exists [op]. split; [|done]. cbn [kv_execs]. by destruct (kv_exec op x). }
  assert (Hput : forall key value r x x', ps_put key value x = (r, x') -> exists ops, x' = (kv_execs ops x).2 /\ zlen ops <= 1).
  { intros key value r x x' E. apply (Hone x x' (KPut key value)). cbn. by rewrite E. }
  intros E. destruct p as [| |r|n rest|b n err|o]; cbn [visit_store] in E; try done.
  - destruct request as [key value|key|key|entries].
    + destruct (ps_put key value s) as [r s1] eqn:Ep. injection E as <- <-. by eapply Hput.
    + unfold rp_get in E. apply (Hone s s' (KGet key)). cbn. destruct (ps_get key s) as [[[v|]|e] s1]; by injection E as <- <-.
    + unfold rp_remove in E. apply (Hone s s' (KRemove key)). cbn. destruct (ps_remove key s) as [[v|e] s1]; by injection E as <- <-.
    + injection E as <- <-. apply Hnone.
  - injection E as <- <-. apply Hnone.
  - destruct rest as [|[key value] rest]; [injection E as <- <-; apply Hnone|].
    destruct (ps_put key value s) as [[u|e] s1] eqn:Ep; injection E as <- <-; by eapply Hput.
  - injection E as <- <-. apply Hnone.
Qed.

Lemma kv_execs_app (ops1 ops2 : list kv_op) (s : KVStore) : (kv_execs (ops1 ++ ops2) s).2 = (kv_execs ops2 (kv_execs ops1 s).2).2.
Proof.
  revert s. induction ops1 as [|op ops1 IH]; intros s; [done|]. cbn [app kv_execs]. destruct (kv_exec op s) as [a s1].
  specialize (IH s1). destruct (kv_execs (ops1 ++ ops2) s1) as [l1 t1], (kv_execs ops1 s1) as [l2 t2]. exact IH.
Qed.

(** The store of a service is what calls of it, in some order, have made. *)
Lemma service_calls options limits e s v :
  rtc (service_step options limits) (initial_service e s) v ->
  exists ops, sv_store v = (kv_execs ops s).2 /\ zlen ops <= zlen (sv_moments v).
Proof.
  intros Hr. assert (H0 : exists ops, sv_store (initial_service e s) = (kv_execs ops s).2 /\ zlen ops <= zlen (sv_moments (initial_service e s)))
    by (exists []; by split).
  revert H0. generalize dependent (initial_service e s). intros v0 Hr. induction Hr as [v|v v1 v2 Hs _ IH]; [done|].
  intros (ops & Hv & Hl). apply IH. clear IH.
  destruct Hs as [id request n d v Hn|id d v Hn|id ready v v' E|ev x v E _|i x v E|x v E|id late request p a p' v Hr Hc E|id request p a p' s' v Hr Hc E].
  - exists ops. unfold begin_handler. destruct (request_too_large _ _); [done|]. destruct d; [done|].
    by destruct (try_submit _ _) as [[] e'].
  - exists ops. unfold status_handler. by destruct d.
  - exists ops. unfold end_handler in E. destruct (sv_calls v !! id) as [[request p [a|]]|]; try done. destruct ready; cbn [negb] in E; [|by injection E as <-].
    destruct p; try done. destruct (reply_of o) as [st r]. case_bool_decide; by injection E as <-.
  - by exists ops.
  - by exists ops.
  - by exists ops.
  - by exists ops.
  - destruct (visit_is_call _ _ _ _ _ _ E) as (ops' & -> & Hl'). exists (ops ++ ops'). cbn [visited set_call sv_store sv_moments].
    rewrite kv_execs_app, <- Hv, zlen_app, zlen_cons. split; [done|lia].
Qed.

(** ** Closing *)

Lemma flush_clean w w' : WalWriter.flush w = (Ok tt, w') -> dirty_ w' = false.
Proof.
  unfold WalWriter.flush, throw_if_background_flush_failed_locked, flush_locked. unfold mbind, stm_bind, sget, mret, stm_ret, smodify, sthrow.
  destruct (background_flush_error_ w); [done|]. destruct (dirty_ w) eqn:Ed; cbn [negb]; [|by intros [= <-]].
  destruct (on_file sync_file w) as [[[]|] w1]; [|done]. by intros [= <-].
Qed.

Lemma reset_clean w w' : WalWriter.reset w = (Ok tt, w') -> dirty_ w' = false.
Proof.
  unfold WalWriter.reset. unfold mbind, stm_bind, smodify. intros E.
  repeat match type of E with context [match ?x with _ => _ end] => destruct x as [[?|?] ?]; [|done] end. by injection E as <-.
Qed.

(** A store in service closes: everything is durable, whatever the mode of its
    log. *)
Lemma close_in_service options s r s' :
  in_service s -> 0 < spare (ps_view s) -> close_store options s = (r, s') ->
  r = Ok tt /\ in_service s' /\ view_abs (ps_view s') = view_abs (ps_view s) /\ 0 <= spare (ps_view s') /\ dirty_ (ps_wal s') = false.
Proof.
  intros Hi Hsp E. destruct (in_service_quiet s Hi) as [Hs Hq]. pose proof (spare_capacity (ps_view s)) as Hcap. unfold close_store in E.
  destruct (gso_checkpoint_on_shutdown options).
  - destruct (ps_checkpoint_spec s r s' Hs ltac:(lia) E) as (_ & C2 & _ & _ & _ & C6). destruct (C6 Hq Hsp) as (-> & _ & C7).
    split_and!; [done|by eapply in_service_checkpoint|done|lia|]. unfold ps_checkpoint in E. unfold mbind, stm_bind in E.
    repeat match type of E with context [match ?x with _ => _ end] => destruct x as [[?|?] ?]; [|done] end.
    unfold on_wal in E. destruct (WalWriter.reset _) as [r w] eqn:Er. injection E as -> <-. by eapply reset_clean.
  - unfold ps_flush in E. destruct (log_step_settled s r s' Hs E) as (_ & Hv & Hr & Hlog). destruct (Hr Hq) as [-> Hq'].
    assert (Ht : sstables_ s' = sstables_ s) by (by eapply on_wal_tables). rewrite !Hv.
    split_and!; [done| |done|lia|].
    + destruct Hi as [H1 [rs H2] H3 H4]. destruct (Hlog rs H2) as [_ Hl]. split; [|by exists rs|apply Hq'|by rewrite Ht].
      unfold on_wal in E. destruct (WalWriter.flush (ps_wal s)) as [r0 w]. injection E as -> <-. by eapply store_inv_view.
    + unfold on_wal in E. destruct (WalWriter.flush (ps_wal s)) as [r0 w] eqn:Ef. injection E as -> <-. by eapply flush_clean.
Qed.

(** What a loss of power can leave of a store between two calls. *)
Inductive power_lost (s : KVStore) : Disk -> Prop :=
| power_lost_intro files file script :
    crash_state (mkSnapshot (fs_dir (sm_fs (sstables_ s))) (fs_old (sm_fs (sstables_ s)))) files ->
    crash_image (ps_wal s) file -> calm script = true ->
    power_lost s (mkDisk (rebooted files) (Some (mkWalOnDisk file script true None))).

(** [s] opens again with the contents [m]. *)
Definition reopens (s : KVStore) (m : gmap str str) : Prop :=
  forall disk o reads writes, power_lost s disk -> opens_well o reads writes ->
    resolve_sstable_directory o = so_directory (sm_options (sstables_ s)) -> manifest_fits (sstables_ s) -> log_fits s ->
    exists s' disk', new_store o disk reads writes = (Ok s', disk', []) /\ view_abs (ps_view s') = m /\
      forall key, valid_key key -> (ps_get key s').1 = Ok (m !! key).

Lemma closed_reopens s : in_service s -> 0 <= spare (ps_view s) -> dirty_ (ps_wal s) = false -> reopens s (view_abs (ps_view s)).
Proof.
  intros Hi Hsp Hd disk o reads writes [files file script H1 H2 H3] Ho Hdir Hm Hl.
  destruct (new_store_restarts s _ o reads writes Hi Hsp (stopped_machine _ _ _ _ (or_intror Hd) H1 H2 H3) Ho Hdir Hm Hl)
    as (s' & disk' & E & Hi' & Ha). exists s', disk'. split_and!; [done..|].
  intros key Hk. destruct (ps_get_ok key s' (StoreDisk.sv_store _ Hi') Hk) as (s2 & E2 & _). by rewrite E2, Ha.
Qed.

(** ** The server *)

Section server.
Context (serving drained : GrpcServer -> Prop) (Hgrpc : GrpcContract serving drained).
Context (options : GrpcServerOptions) (s0 : KVStore) (e0 : BoundedExecutor nat).
Abbreviation service_options := (mkGrpcServiceOptions (gso_max_message_bytes options)).
Abbreviation limits := (mkRequestProcessorOptions (gso_max_batch_entries options) (gso_max_batch_bytes options)).

Definition all_answered (v : Service) : Prop := forall id c, sv_calls v !! id = Some c -> is_Some (c_answer c).

(** While the store is not closed. *)
Record open_inv (g : GrpcServer) : Prop := {
  oi_options : gs_options g = options;
  oi_run : rtc (service_step service_options limits) (initial_service e0 s0) (gs_service g);
  oi_waited : gs_waited g = true -> all_answered (gs_service g);
  oi_closing : is_Some (gs_closing g) -> gs_waited g = true;
  oi_joined : gs_closing g = Some Storing -> all_exited (sv_executor (gs_service g)).1 = true
}.

Definition server_inv (g : GrpcServer) : Prop :=
  (is_Some (gs_closing g) -> gs_shutdown_finished g = true) /\ ((exists r, gs_closing g = Some (Closed r)) \/ open_inv g).

(** Answers stay, and without new calls all calls stay answered. *)
Lemma answered_step v v' :
  service_step service_options limits v v' -> all_answered v -> (forall id, sv_calls v !! id = None -> ~ is_Some (sv_calls v' !! id)) ->
  all_answered v'.
Proof.
  intros Hs Ha Hnew. destruct Hs as [id request n d v Hn|id d v Hn|id ready v v' E|ev x v E Hf|i e v E|e v E|id late request p a p' v Hr Hc E
    |id request p a p' s' v Hr Hc E].
  - destruct (Hnew id Hn). unfold begin_handler. destruct (request_too_large _ _); [|destruct d]; [cbn; by rewrite lookup_insert_eq..|].
    destruct (try_submit _ _) as [[] e']; cbn; by rewrite lookup_insert_eq.
  - destruct (Hnew id Hn). unfold status_handler. destruct d; cbn; by rewrite lookup_insert_eq.
  - unfold end_handler in E. destruct (sv_calls v !! id) as [[request p [a|]]|] eqn:Ec; try done. by destruct (Ha id _ Ec).
  - exact Ha.
  - exact Ha.
  - exact Ha.
  - intros id' c' Hl. cbn in Hl. apply lookup_insert_Some in Hl as [[<- <-]|[_ Hl]]; [exact (Ha _ _ Hc)|by eapply Ha].
  - intros id' c' Hl. cbn in Hl. apply lookup_insert_Some in Hl as [[<- <-]|[_ Hl]]; [exact (Ha _ _ Hc)|by eapply Ha].
Qed.

Lemma exited_service v v' :
  service_step service_options limits v v' -> all_exited (sv_executor v).1 = true -> all_exited (sv_executor v').1 = true.
Proof. intros Hs Hx. destruct (service_executor_step _ _ _ _ Hs) as [->|[ev Hst]]; [done|by eapply exited_stays]. Qed.

Lemma finish_inv g : open_inv g -> drained g -> open_inv (finish_section g).
Proof.
  intros [I1 I2 I3 I4 I5] Hd. destruct (gc_drained _ _ Hgrpc g Hd) as [_ Ha]. split; cbn; [done|done|done|done|].
  by destruct (gs_shutdown_finished g).
Qed.

(** A step that leaves the service and the stages of [finish_shutdown] alone. *)
Lemma inv_flags g g' :
  open_inv g -> gs_options g' = gs_options g -> gs_service g' = gs_service g -> gs_waited g' = gs_waited g -> gs_closing g' = gs_closing g ->
  open_inv g'.
Proof. intros [I1 I2 I3 I4 I5] H1 H2 H3 H4. split; rewrite ?H1, ?H2, ?H3, ?H4; done. Qed.

Lemma start_flags built g r g' :
  gs_start built g = (r, g') ->
  gs_options g' = gs_options g /\ gs_service g' = gs_service g /\ gs_waited g' = gs_waited g /\ gs_closing g' = gs_closing g /\
  gs_shutdown_finished g' = gs_shutdown_finished g.
Proof.
  unfold gs_start, mbind, stm_bind, sget, slift, smodify, mret, stm_ret. intros E.
  repeat match type of E with context [match ?x with _ => _ end] => destruct x end; by injection E as _ <-.
Qed.

Lemma request_flags g r g' :
  gs_request_shutdown g = (r, g') ->
  gs_options g' = gs_options g /\ gs_service g' = gs_service g /\ gs_waited g' = gs_waited g /\ gs_closing g' = gs_closing g /\
  gs_shutdown_finished g' = gs_shutdown_finished g.
Proof. intros E. injection E as _ <-. by destruct (_ || _). Qed.

Lemma service_inv_step g v : open_inv g -> at_work serving g v -> open_inv (set_service v g).
Proof.
  intros [I1 I2 I3 I4 I5] (Hs & Hnew & _). rewrite I1 in Hs. split; cbn; [done|by eapply rtc_r| |done|].
  - intros Hw. eapply answered_step; [exact Hs|by apply I3|]. intros id Hn Hsome. destruct (gc_serving _ _ Hgrpc g (Hnew id Hn Hsome)). congruence.
  - intros Hc. eapply exited_service; [exact Hs|by apply I5].
Qed.

Lemma stop_inv g e :
  open_inv g -> gs_closing g = Some Stopping -> begin_shutdown true (sv_executor (gs_service g)).1 = Some e ->
  open_inv (set_closing Joining (set_service (set_executor (e, NotifyAll :: (sv_executor (gs_service g)).2) (gs_service g)) g)).
Proof.
  intros [I1 I2 I3 I4 I5] Hc E. split; cbn; [done| | |intros _; by apply I4|done].
  - eapply rtc_r; [exact I2|]. by apply sstep_shutdown.
  - exact I3.
Qed.

Lemma server_step_inv g g' : server_inv g -> server_step serving drained g g' -> server_inv g'.
Proof.
  intros [Hf I] Hs. destruct Hs as [built g r g' E|v g Hw|g r g' E|g E Hd|g E Hd|e g E1 E2|g E1 E2|r s g E1 E2].
  - destruct (start_flags _ _ _ _ E) as (F1 & F2 & F3 & F4 & F5). split; [by rewrite F4, F5|]. rewrite F4. destruct I as [I|I]; [by left|right].
    by eapply inv_flags.
  - split; [exact Hf|]. destruct I as [I|I]; [by left|right]. by apply service_inv_step.
  - destruct (request_flags _ _ _ E) as (F1 & F2 & F3 & F4 & F5). split; [by rewrite F4, F5|]. rewrite F4. destruct I as [I|I]; [by left|right].
    by eapply inv_flags.
  - split; [done|]. destruct I as [[r Hr]|I]; [|right; by apply finish_inv]. left. exists r. cbn. rewrite Hr in Hf. by rewrite Hf.
  - split; [done|]. destruct I as [[r Hr]|I]; [|right; by apply finish_inv]. left. exists r. cbn. rewrite Hr in Hf. by rewrite Hf.
  - split; [intros _; cbn; apply Hf; by rewrite E1|]. destruct I as [[r Hr]|I]; [congruence|right]. by apply stop_inv.
  - split; [intros _; cbn; apply Hf; by rewrite E1|]. destruct I as [[r Hr]|[I1 I2 I3 I4 I5]]; [congruence|right]. split; cbn; [done..| |done].
    intros _. apply I4. by rewrite E1.
  - split; [intros _; cbn; apply Hf; by rewrite E1|]. left. by exists r.
Qed.

Lemma server_reachable g0 g :
  g0 = mkGrpcServer options (initial_service e0 s0) false 0 false false false false None ->
  rtc (server_step serving drained) g0 g -> server_inv g.
Proof.
  intros -> Hr. assert (H0 : server_inv (mkGrpcServer options (initial_service e0 s0) false 0 false false false false None)).
  { split; [by intros [? [=]]|]. right. split; cbn; [done|done|done|by intros [? [=]]|done]. }
  revert H0. generalize dependent (mkGrpcServer options (initial_service e0 s0) false 0 false false false false None). intros g1 Hr.
  induction Hr as [g|g g1' g2 Hs _ IH]; [done|]. intros H0. apply IH. by eapply server_step_inv.
Qed.
End server.

Lemma new_grpc_server_inv options s0 g0 :
  new_grpc_server options s0 = Ok g0 ->
  exists e0, new_executor (gso_worker_threads options) (gso_request_queue_capacity options) = Ok e0 /\
    g0 = mkGrpcServer options (initial_service e0 s0) false 0 false false false false None.
Proof.
  unfold new_grpc_server, mbind, result_bind. intros E.
  repeat match type of E with context [match ?x with _ => _ end] => destruct x as [?|?] eqn:?; [|done] end. injection E as <-. eauto.
Qed.

Lemma shutdown_closes serving drained options s0 g0 g r s :
  GrpcContract serving drained -> is_u64 (gso_worker_threads options) -> is_u64 (gso_request_queue_capacity options) ->
  new_grpc_server options s0 = Ok g0 -> rtc (server_step serving drained) g0 g -> gs_closing g = Some Storing ->
  in_service s0 -> zlen (sv_moments (gs_service g)) < spare (ps_view s0) ->
  close_store options (sv_store (gs_service g)) = (r, s) ->
  let v := gs_service g in
  (forall id c, sv_calls v !! id = Some c -> is_Some (c_answer c) /\
     (c_request c = None \/ (exists o, c_progress c = Returned o) \/ moments_of id (sv_moments v) = [])) /\
  all_exited (sv_executor v).1 = true /\ tasks_ (sv_executor v).1 = [] /\
  r = Ok tt /\ exists ops, sv_store v = (kv_execs ops s0).2 /\
    let m := (spec_execs ops (view_abs (ps_view s0))).2 in view_abs (ps_view s) = m /\ reopens s m.
Proof.
  intros Hg Hw Hq (e0 & He & ->)%new_grpc_server_inv Hr Hc Hi Hsp Hcl v.
  destruct (server_reachable serving drained Hg options s0 e0 _ g eq_refl Hr) as [_ [[r0 Hcl']|[I1 I2 I3 I4 I5]]]; [congruence|].
  assert (Hwait : gs_waited g = true) by (apply I4; by rewrite Hc). specialize (I5 Hc). specialize (I3 Hwait). fold v in I2, I3, I5.
  destruct (service_executor_run _ _ _ _ _ _ _ He I2) as [evs Hrun]. destruct (run_inv _ _ _ _ Hw Hq Hrun) as (Hp & Hinv & _).
  destruct (exited_no_task _ _ _ _ Hp Hinv I5) as [_ Htasks].
  destruct (service_calls _ _ _ _ _ I2) as (ops & Hst & Hlen). destruct (execs_in_service ops s0 Hi ltac:(fold v in Hsp; lia)) as (Hi1 & _ & Ha & Hs1).
  rewrite <- Hst in *. destruct (close_in_service options _ r s Hi1 ltac:(fold v in Hsp; lia) Hcl) as (-> & Hi2 & Hv & Hs2 & Hd).
  split_and!; try done.
  - intros id c Hid. split; [by eapply I3|]. destruct (in_hand_reachable _ _ _ _ _ I2 id c Hid) as [?|[?|[Hh|[Hqd _]]]]; [by left|right; by left| |].
    + exfalso. destruct Hh as [Ht|Hrn]; [rewrite Htasks in Ht; by apply not_elem_of_nil in Ht|]. by apply all_exited_elem with (x := Running id) in I5.
    + right. right. pose proof (inv_reachable _ _ s0 _ _ _ _ He I2) as Hsi. pose proof (cv_task _ _ _ _ (sv_call _ _ _ Hsi id c Hid)) as Ht.
      destruct (c_request c) as [q|]; [|by destruct Ht]. apply task_run_spec in Ht. by rewrite Hqd in Ht.
  - exists ops. split; [done|]. rewrite <- Ha, <- Hv. split; [done|]. by apply closed_reopens.
Qed.


(** ** Witness *)

(** The weakest behaviour of gRPC that its documentation allows. *)
Definition demo_serving (g : GrpcServer) : Prop := gs_server g = true /\ gs_waited g = false.
Definition demo_drained (g : GrpcServer) : Prop := gs_shutdown_requested g = true /\ all_answered (gs_service g).

Lemma demo_contract : GrpcContract demo_serving demo_drained.
Proof. by split. Qed.

Definition demo_server_options : GrpcServerOptions := mkGrpcServerOptions (bytes_of "h:1") 1 2 100 1024 1024 true.

Lemma demo_work g v :
  service_step (mkGrpcServiceOptions (gso_max_message_bytes (gs_options g)))
    (mkRequestProcessorOptions (gso_max_batch_entries (gs_options g)) (gso_max_batch_bytes (gs_options g))) (gs_service g) v ->
  demo_serving g \/ sv_calls v = sv_calls (gs_service g) -> stopping_ (sv_executor v).1 = stopping_ (sv_executor (gs_service g)).1 ->
  server_step demo_serving demo_drained g (set_service v g).
Proof.
  intros Hs Hc Hst. apply gstep_service. split_and!; [done| |done]. intros id Hn Hx. destruct Hc as [Hc|Hc]; [done|].
  rewrite Hc, Hn in Hx. by destruct Hx.
Qed.

(** One put, from the start of the server to its end. *)
Lemma demo_shutdown_run key value s s' :
  ps_put key value s = (Ok tt, s') ->
  exists g0 g, new_grpc_server demo_server_options s = Ok g0 /\ rtc (server_step demo_serving demo_drained) g0 g /\ gs_closing g = Some Storing /\
    zlen (sv_moments (gs_service g)) = 2.
Proof.
  intros Hp. eexists _, _. split; [reflexivity|]. split; [|split].
  - eapply rtc_l; [eapply (gstep_start _ _ (Some 7)); reflexivity|]. cbn.
    eapply rtc_l; [eapply demo_work; [apply (sstep_begin _ _ 0 (PutRequest key value) 60 false); reflexivity|by left|reflexivity]|]. cbn.
    eapply rtc_l; [eapply demo_work; [eapply sstep_executor; [apply inner_worker; eapply (step_take 0); reflexivity|done]|by left|reflexivity]|]. cbn.
    eapply rtc_l; [eapply demo_work; [eapply (sstep_start _ _ 0 false); [by left|reflexivity|reflexivity]|by left|reflexivity]|]. cbn.
    eapply rtc_l; [eapply demo_work; [eapply (sstep_visit _ _ 0); [by left|reflexivity|apply visit_put, Hp]|by left|reflexivity]|]. cbn.
    eapply rtc_l; [eapply demo_work; [eapply (sstep_visit _ _ 0); [by left|reflexivity|reflexivity]|by left|reflexivity]|]. cbn.
    eapply rtc_l; [eapply demo_work; [eapply (sstep_end _ _ 0 true); reflexivity|by left|reflexivity]|]. cbn.
    eapply rtc_l; [eapply gstep_request; reflexivity|]. cbn.
    eapply rtc_l; [eapply gstep_wait; [reflexivity|]|].
    { split; [reflexivity|]. intros id c Hl. cbn in Hl. apply lookup_insert_Some in Hl as [[_ <-]|[Hne Hl]]; [by eexists|]. exfalso.
      do 3 (apply lookup_insert_Some in Hl as [[? _]|[_ Hl]]; [done|]).
      change ((<[0%nat := mkCall (Some (PutRequest key value)) Queued None]> ∅ : gmap nat Call) !! id = Some c) in Hl.
      apply lookup_insert_Some in Hl as [[? _]|[_ Hl]]; [done|]. by rewrite lookup_empty in Hl. }
    cbn.
    eapply rtc_l; [eapply gstep_stop; reflexivity|]. cbn.
    eapply rtc_l; [eapply demo_work; [eapply sstep_executor; [apply inner_worker; eapply (step_finish 0); reflexivity|]|by right|reflexivity]|].
    { cbn. by eexists _, _, _. }
    cbn.
    eapply rtc_l; [eapply demo_work; [eapply sstep_executor; [apply inner_worker; eapply (step_count 0); reflexivity|done]|by right|reflexivity]|]. cbn.
    eapply rtc_l; [eapply demo_work; [eapply sstep_executor; [apply inner_worker; eapply (step_take 0); reflexivity|done]|by right|reflexivity]|]. cbn.
    eapply rtc_l; [eapply gstep_join; reflexivity|]. apply rtc_refl.
  - reflexivity.
  - reflexivity.
Qed.

