(* ===== verification/Observability.v ===== *)
(** * Metrics and log lines

    src/observability/metrics.cpp and src/observability/json_logger.cpp: the
    registry of counters, gauges and histograms with its text form, and the
    logger that writes one JSON object per line.  The arithmetic of doubles and
    the way a stream prints them are a parameter ([Double]); the time of a log
    line is an argument. *)

From S2P Require Import Prelude OrderedMap Path.

(** ** Metrics *)

Class Double (F : Type) := {
  d_zero : F;
  d_add : F -> F -> F;
  d_sub : F -> F -> F;
  d_mul : F -> F -> F;
  d_of_Z : Z -> F;
  d_floor : F -> Z;
  d_ceil : F -> Z;
  d_ltb : F -> F -> bool;
  d_show : F -> str
}.

Record Histogram (F : Type) := mkHistogram { h_count : Z; h_sum : F; h_samples : list F }.
Arguments mkHistogram {F}.
Arguments h_count {F}.
Arguments h_sum {F}.
Arguments h_samples {F}.

Record MetricsRegistry (F : Type) := mkRegistry {
  counters_ : list (str * Z);
  gauges_ : list (str * F);
  histograms_ : list (str * Histogram F)
}.
Arguments mkRegistry {F}.
Arguments counters_ {F}.
Arguments gauges_ {F}.
Arguments histograms_ {F}.

Definition kMaximumSamples : Z := 10000.

Section metrics.
Context {F : Type} `{Double F}.
Abbreviation Registry := (MetricsRegistry F).

Definition new_registry : Registry := mkRegistry [] [] [].

Definition increment (name : str) (amount : Z) (m : Registry) : Registry :=
  mkRegistry (om_insert name (u64 (default 0 (om_find name (counters_ m)) + amount)) (counters_ m)) (gauges_ m) (histograms_ m).

Definition set_gauge (name : str) (value : F) (m : Registry) : Registry :=
  mkRegistry (counters_ m) (om_insert name value (gauges_ m)) (histograms_ m).

Definition new_histogram : Histogram F := mkHistogram 0 d_zero [].

Definition observe_value (value : F) (h : Histogram F) : Histogram F :=
  let count := u64 (h_count h + 1) in
  mkHistogram count (d_add (h_sum h) value)
    (if zlen (h_samples h) <? kMaximumSamples then h_samples h ++ [value]
     else <[Z.to_nat (count mod kMaximumSamples) := value]> (h_samples h)).

Definition observe (name : str) (value : F) (m : Registry) : Registry :=
  mkRegistry (counters_ m) (gauges_ m)
    (om_insert name (observe_value value (default new_histogram (om_find name (histograms_ m)))) (histograms_ m)).

Definition counter (name : str) (m : Registry) : Z := default 0 (om_find name (counters_ m)).
Definition gauge (name : str) (m : Registry) : F := default d_zero (om_find name (gauges_ m)).

Definition quantile (values : list F) (q : F) : F :=
  if is_nil values then d_zero
  else
    let sorted := sort_by d_ltb values in
    let position := d_mul q (d_of_Z (zlen values - 1)) in
    let lower := d_floor position in
    let upper := d_ceil position in
    let at_ (i : Z) := default d_zero (sorted !! Z.to_nat i) in
    if lower =? upper then at_ lower
    else d_add (at_ lower) (d_mul (d_sub (at_ upper) (at_ lower)) (d_sub position (d_of_Z lower))).

Definition newline : byte := x0a.

Definition render_line (name value : str) : str := name ++ bytes_of " " ++ value ++ [newline].

(** The three quantiles are given as the doubles nearest to them. *)
Definition render_prometheus (half ninety_five ninety_nine : F) (m : Registry) : str :=
  concat (map (fun kv => render_line kv.1 (digits 20 kv.2)) (counters_ m)) ++
  concat (map (fun kv => render_line kv.1 (d_show kv.2)) (gauges_ m)) ++
  concat (map (fun kv =>
    render_line (kv.1 ++ bytes_of "_count") (digits 20 (h_count kv.2)) ++
    render_line (kv.1 ++ bytes_of "_sum") (d_show (h_sum kv.2)) ++
    render_line (kv.1 ++ bytes_of "{quantile=" ++ [x22] ++ bytes_of "0.5" ++ [x22] ++ bytes_of "}") (d_show (quantile (h_samples kv.2) half)) ++
    render_line (kv.1 ++ bytes_of "{quantile=" ++ [x22] ++ bytes_of "0.95" ++ [x22] ++ bytes_of "}") (d_show (quantile (h_samples kv.2) ninety_five)) ++
    render_line (kv.1 ++ bytes_of "{quantile=" ++ [x22] ++ bytes_of "0.99" ++ [x22] ++ bytes_of "}") (d_show (quantile (h_samples kv.2) ninety_nine)))
    (histograms_ m)).
End metrics.

(** ** Log lines *)

Definition quote : byte := x22.
Definition backslash : byte := x5c.

Definition escape_char (character : byte) : str :=
  if bool_decide (character = backslash) then [backslash; backslash]
  else if bool_decide (character = quote) then [backslash; quote]
  else if bool_decide (character = x0a) then [backslash; x6e]
  else if bool_decide (character = x0d) then [backslash; x72]
  else if bool_decide (character = x09) then [backslash; x74]
  else [character].

Definition escape (value : str) : str := concat (map escape_char value).

Definition json_member (key value : str) : str := [quote] ++ key ++ [quote; x3a; quote] ++ value ++ [quote].

Definition json_field (kv : str * str) : str := [x2c] ++ json_member (escape kv.1) (escape kv.2).

(** What [log] writes; the fields are in the order of the map. *)
Definition log_line (timestamp level event : str) (fields : list (str * str)) : str :=
  [x7b] ++ json_member (bytes_of "timestamp") timestamp ++ [x2c] ++
  json_member (bytes_of "level") (escape level) ++ [x2c] ++
  json_member (bytes_of "event") (escape event) ++
  concat (map json_field fields) ++
  [x7d; newline].

Definition log (timestamp level event : str) (fields : list (str * str)) (output : str) : str :=
  output ++ log_line timestamp level event fields.

(** ** Samples *)

(** The values observed are in the vector at the place of their turn; from the
    first that no longer fits on, each replaces the one at the place
    [count % 10000]. *)
Section samples.
Context {F : Type} `{Double F}.

Definition observe_all (values : list F) : Histogram F := foldl (fun h v => observe_value v h) new_histogram values.

(** The turn of the value in place [j] after [n] observations. *)
Definition turn_of (n j : Z) : Z := let last := n - (n - j) mod kMaximumSamples in if kMaximumSamples <? last then last - 1 else j.

Lemma turn_of_new n : 0 <= n -> kMaximumSamples <= n ->
  turn_of (n + 1) ((n + 1) mod kMaximumSamples) = n.
Proof.
  intros Hn Hk. unfold turn_of. rewrite Zminus_mod_idemp_r, Z.sub_diag. change (0 mod kMaximumSamples) with 0. rewrite Z.sub_0_r.
  rewrite (proj2 (Z.ltb_lt _ _)) by lia. lia.
Qed.

Lemma turn_of_old n j : 0 <= j < kMaximumSamples -> kMaximumSamples <= n -> j <> (n + 1) mod kMaximumSamples -> turn_of (n + 1) j = turn_of n j.
Proof.
  intros Hj Hn Hne. unfold turn_of, kMaximumSamples in *.
  assert (Heq : (n + 1 - j) mod 10000 = (n - j) mod 10000 + 1).
  { replace (n + 1 - j) with ((n - j) + 1) by lia. rewrite <- Zplus_mod_idemp_l. apply Z.mod_small.
    pose proof (Z.mod_pos_bound (n - j) 10000 ltac:(lia)). split; [lia|].
    destruct (decide ((n - j) mod 10000 = 9999)) as [E|]; [|lia]. exfalso. apply Hne.
    pose proof (Z.div_mod (n - j) 10000 ltac:(lia)). rewrite E in *.
    replace (n + 1) with (j + (((n - j) / 10000 + 1) * 10000)) by lia. rewrite Z_mod_plus_full. symmetry. by apply Z.mod_small. }
  rewrite Heq. replace (n + 1 - ((n - j) mod 10000 + 1)) with (n - (n - j) mod 10000) by lia. done.
Qed.

(** After [n] observations the vector holds at most 10000 of them, and in place
    [j] the last whose number is [j] modulo 10000, or the one of the first
    round. *)
Lemma samples_at (values : list F) :
  zlen values <= u64_max ->
  h_count (observe_all values) = zlen values /\
  zlen (h_samples (observe_all values)) = Z.min (zlen values) kMaximumSamples /\
  forall j, 0 <= j < Z.min (zlen values) kMaximumSamples ->
    h_samples (observe_all values) !! Z.to_nat j = values !! Z.to_nat (if zlen values <=? kMaximumSamples then j else turn_of (zlen values) j).
Proof.
  induction values as [|x values IH] using rev_ind; [intros _; split_and!; [done|done|]; intros j; unfold zlen; simpl; lia|].
  unfold observe_all in *. rewrite foldl_app, zlen_app. cbn [foldl]. change (zlen [x]) with 1. intros Hmax. pose proof (zlen_nonneg values) as Hn.
  destruct (IH ltac:(lia)) as (I1 & I2 & I3). set (h := foldl _ _ values) in *. unfold observe_value. cbn [h_count h_samples].
  rewrite I1, I2, u64_small by lia. assert (HK : kMaximumSamples = 10000) by done.
  destruct (Z.min (zlen values) kMaximumSamples <? kMaximumSamples) eqn:E; zbool.
  - assert (Hs : zlen values < kMaximumSamples) by lia. rewrite Z.min_l in I2, I3 by lia. split_and!; [done| |].
    { rewrite zlen_app, I2. change (zlen [x]) with 1. lia. }
    intros j Hj. rewrite (proj2 (Z.leb_le (zlen values) _)) in I3 by lia. rewrite (proj2 (Z.leb_le (zlen values + 1) _)) by lia.
    destruct (decide (j = zlen values)) as [->|Hne].
    + rewrite !lookup_app_r by (unfold zlen in *; lia). f_equal. unfold zlen in *. lia.
    + rewrite !lookup_app_l by (unfold zlen in *; lia). apply I3. lia.
  - assert (Hs : kMaximumSamples <= zlen values) by lia. rewrite Z.min_r in I2, I3 by lia. split_and!; [done| |].
    { unfold zlen in *. rewrite length_insert. lia. }
    rewrite Z.min_r by lia. intros j Hj. rewrite (proj2 (Z.leb_gt (zlen values + 1) _)) by lia. set (m := (zlen values + 1) mod kMaximumSamples).
    assert (Hm : 0 <= m < kMaximumSamples) by (apply Z.mod_pos_bound; lia). destruct (decide (j = m)) as [->|Hne].
    + rewrite list_lookup_insert_eq by (unfold zlen in *; lia). unfold m. rewrite turn_of_new by lia.
      rewrite lookup_app_r by (unfold zlen; lia). unfold zlen. by rewrite Nat2Z.id, Nat.sub_diag.
    + rewrite list_lookup_insert_ne by lia. rewrite I3 by done. rewrite turn_of_old by (done || lia).
      assert (Hlt : 0 <= turn_of (zlen values) j < zlen values /\ (zlen values = kMaximumSamples -> turn_of (zlen values) j = j)).
      { unfold turn_of. pose proof (Z.mod_pos_bound (zlen values - j) kMaximumSamples ltac:(lia)).
        destruct (kMaximumSamples <? _) eqn:E1; zbool; lia. }
      destruct Hlt as [Hlt Heq]. rewrite lookup_app_l by (unfold zlen in *; lia).
      destruct (zlen values <=? kMaximumSamples) eqn:E1; zbool; [|done]. rewrite Heq by lia. done.
Qed.
End samples.

(** ** Reading a log line *)

(** JSON as RFC 8259 has it, as far as objects of strings go; the escape with
    four hexadecimal digits is left out. *)
Definition unescape (e : byte) : option byte :=
  match e with
  | x22 | x5c | x2f => Some e
  | x62 => Some x08
  | x66 => Some x0c
  | x6e => Some x0a
  | x72 => Some x0d
  | x74 => Some x09
  | _ => None
  end.

(** A string up to its closing quote, and what follows it. *)
Fixpoint json_chars (s : str) : option (str * str) :=
  match s with
  | [] => None
  | c :: s' =>
      if bool_decide (c = quote) then Some ([], s')
      else if bool_decide (c = backslash) then
        match s' with
        | e :: s'' => x ← unescape e; y ← json_chars s''; Some (x :: y.1, y.2)
        | [] => None
        end
      else if b2z c <? 32 then None
      else y ← json_chars s'; Some (c :: y.1, y.2)
  end.

Definition expect (c : byte) (s : str) : option str :=
  match s with x :: s' => if bool_decide (x = c) then Some s' else None | [] => None end.

Definition json_string (s : str) : option (str * str) := s' ← expect quote s; json_chars s'.

Definition read_member (s : str) : option (str * str * str) :=
  k ← json_string s;
  s1 ← expect x3a k.2;
  v ← json_string s1;
  Some (k.1, v.1, v.2).

Fixpoint read_members (fuel : nat) (s : str) : option (list (str * str) * str) :=
  match fuel with
  | O => None
  | S fuel =>
      m ← read_member s;
      match m.2 with
      | x2c :: s' => y ← read_members fuel s'; Some (m.1 :: y.1, y.2)
      | x7d :: s' => Some ([m.1], s')
      | _ => None
      end
  end.

(** One object on a line of its own. *)
Definition read_line (s : str) : option (list (str * str)) :=
  s1 ← expect x7b s;
  y ← read_members (length s) s1;
  if bool_decide (y.2 = [newline]) then Some y.1 else None.

(** *** Texts that can be logged *)

Definition plain_char (c : byte) : bool := (32 <=? b2z c) || bool_decide (c ∈ [x0a; x0d; x09]).
Definition plain (s : str) : bool := forallb plain_char s.

(** A text that needs no escape. *)
Definition clean (s : str) : bool := forallb (fun c => (32 <=? b2z c) && negb (bool_decide (c = quote)) && negb (bool_decide (c = backslash))) s.

Lemma read_escape_char c s :
  json_chars (escape_char c ++ s) = if plain_char c then (y ← json_chars s; Some (c :: y.1, y.2)) else None.
Proof. by destruct c. Qed.

Lemma read_escape value s : json_chars (escape value ++ quote :: s) = if plain value then Some (value, s) else None.
Proof.
  induction value as [|c value IH]; [done|]. unfold escape. cbn [map concat]. rewrite <- app_assoc, read_escape_char. fold (escape value).
  cbn [plain forallb]. fold (plain value). destruct (plain_char c); [|done]. rewrite IH. by destruct (plain value).
Qed.

Lemma read_clean value s : clean value = true -> json_chars (value ++ quote :: s) = Some (value, s).
Proof.
  induction value as [|c value IH]; [done|]. cbn [clean forallb]. fold (clean value). rewrite !andb_true_iff, !negb_true_iff.
  intros [[[H1 H2] H3] H4]. cbn [app json_chars]. rewrite H2, H3. zbool. rewrite (proj2 (Z.ltb_ge _ _)) by lia. by rewrite (IH H4).
Qed.

Lemma read_member_text key value k s :
  json_chars (key ++ quote :: x3a :: quote :: value ++ quote :: s) = Some (k, x3a :: quote :: value ++ quote :: s) ->
  read_member (json_member key value ++ s) = (y ← json_chars (value ++ quote :: s); Some (k, y.1, y.2)).
Proof.
  intros Hk. unfold read_member, json_member, json_string.
  replace (([quote] ++ key ++ [quote; x3a; quote] ++ value ++ [quote]) ++ s) with (quote :: key ++ quote :: x3a :: quote :: value ++ quote :: s)
    by (simpl; by rewrite <- !app_assoc; simpl; rewrite <- !app_assoc).
  cbn [expect]. rewrite bool_decide_eq_true_2 by done. cbn [mbind option_bind]. rewrite Hk. done.
Qed.

Lemma read_field key value s :
  read_member (json_member (escape key) (escape value) ++ s) = if plain key && plain value then Some (key, value, s) else None.
Proof.
  destruct (plain key) eqn:Ek; cbn [andb].
  - rewrite (read_member_text _ _ key s) by (rewrite read_escape, Ek; done). rewrite read_escape. by destruct (plain value).
  - unfold read_member, json_member, json_string. rewrite <- !app_assoc. cbn [app expect]. rewrite bool_decide_eq_true_2 by done.
    cbn [mbind option_bind]. by rewrite read_escape, Ek.
Qed.

Lemma read_fields fields : forall fuel m mk, (length fields < fuel)%nat ->
  (forall s, read_member (m ++ s) = Some (mk, s)) ->
  read_members fuel (m ++ concat (map json_field fields) ++ [x7d; newline]) =
  if forallb (fun kv => plain kv.1 && plain kv.2) fields then Some (mk :: fields, [newline]) else None.
Proof.
  induction fields as [|[k v] fields IH]; intros fuel m mk Hf Hm; (destruct fuel as [|fuel]; [simpl in Hf; lia|]); cbn [read_members]; rewrite Hm.
  - done.
  - cbn [map concat]. unfold json_field at 1. cbn [app mbind option_bind snd fst forallb]. cbn [length] in Hf. rewrite <- app_assoc.
    destruct (plain k && plain v) eqn:E; cbn [andb].
    + rewrite (IH fuel (json_member (escape k) (escape v)) (k, v)); [|lia|intros s; by rewrite read_field, E].
      by destruct (forallb _ fields).
    + destruct fuel as [|fuel]; [lia|]. cbn [read_members]. by rewrite read_field, E.
Qed.

Lemma line_length (fields : list (str * str)) : (length fields <= length (concat (map json_field fields)))%nat.
Proof. induction fields as [|kv fields IH]; [done|]. cbn [map concat length]. rewrite length_app. unfold json_field at 1. simpl. lia. Qed.

(** A log line can be read back.  What [log] writes is one line with one
    JSON object on it, whose members are the timestamp, the level, the event
    and the fields in order, with the texts they were given, whatever quotes,
    backslashes, line ends and tabs are in them; unless one of the texts has
    another control character, and then the line is not JSON. *)
Theorem log_line_read timestamp level event fields :
  clean timestamp = true ->
  read_line (log_line timestamp level event fields) =
    if plain level && plain event && forallb (fun kv => plain kv.1 && plain kv.2) fields
    then Some ((bytes_of "timestamp", timestamp) :: (bytes_of "level", level) :: (bytes_of "event", event) :: fields)
    else None.
Proof.
  intros Ht. unfold read_line. set (line := log_line timestamp level event fields).
  assert (Hfuel : (length fields + 2 < length line)%nat).
  { unfold line, log_line. rewrite !length_app. pose proof (line_length fields). simpl. lia. }
  assert (Hlen : exists fuel, length line = S (S fuel) /\ (length fields < fuel)%nat) by (exists (length line - 2)%nat; lia).
  destruct Hlen as (fuel & -> & Hf). unfold line, log_line. cbn [app expect]. rewrite bool_decide_eq_true_2 by done. cbn [mbind option_bind].
  cbn [read_members]. rewrite (read_member_text _ _ (bytes_of "timestamp")) by (by apply (read_clean (bytes_of "timestamp"))).
  rewrite read_clean by done. cbn [mbind option_bind fst snd].
  rewrite (read_member_text _ _ (bytes_of "level")) by (by apply (read_clean (bytes_of "level"))). rewrite read_escape.
  destruct (plain level); [|done]. cbn [mbind option_bind fst snd andb].
  destruct (plain event) eqn:Ee; cbn [andb].
  - rewrite (read_fields fields fuel _ (bytes_of "event", event)); [by destruct (forallb _ fields)|done|]. intros s.
    rewrite (read_member_text _ _ (bytes_of "event")) by (by apply (read_clean (bytes_of "event"))). by rewrite read_escape, Ee.
  - destruct fuel as [|fuel]; [lia|]. cbn [read_members].
    rewrite (read_member_text _ _ (bytes_of "event")) by (by apply (read_clean (bytes_of "event"))). by rewrite read_escape, Ee.
Qed.

(** ** Witness *)

Lemma log_line_read_witness :
  read_line (log_line (bytes_of "2026-01-01T00:00:00Z") (bytes_of "info") (bytes_of "client_redirect") [(bytes_of "node_id", [x22; x5c; x0a])]) =
    Some [(bytes_of "timestamp", bytes_of "2026-01-01T00:00:00Z"); (bytes_of "level", bytes_of "info");
          (bytes_of "event", bytes_of "client_redirect"); (bytes_of "node_id", [x22; x5c; x0a])] /\
  read_line (log_line (bytes_of "2026-01-01T00:00:00Z") (bytes_of "info") (bytes_of "client_redirect") [(bytes_of "node_id", [x01])]) = None.
Proof.
  assert (Ht : clean (bytes_of "2026-01-01T00:00:00Z") = true) by reflexivity. split.
  - rewrite (log_line_read _ (bytes_of "info") (bytes_of "client_redirect") [(bytes_of "node_id", [x22; x5c; x0a])] Ht). reflexivity.
  - rewrite (log_line_read _ (bytes_of "info") (bytes_of "client_redirect") [(bytes_of "node_id", [x01])] Ht). reflexivity.
Defined.
