(* ===== verification/ClusterService.v ===== *)
(** * The clustered key-value service

    src/distributed/cluster_service.cpp: the handlers of a member of the
    cluster, over its Raft node, its state machine and the bounded executor.
    A handler counts the request, turns it away or submits a task, waits for
    it until the deadline, and answers; a task submits commands to the node
    and reads the state machine.  Every look of a handler or of a task at the
    node is a step of its own, and the steps of handlers, tasks, workers and of
    the whole cluster interleave in any order.  The rounds of replication that
    [submit] and [confirm_leadership] make are among the steps of the cluster;
    whether a round reached a quorum is an argument. *)

From S2P Require Import Prelude OrderedMap Store RaftTypes RaftStorage RaftNode RaftElection RaftCluster RequestProcessor Executor GrpcService Observability.

(** ** Requests *)

Record ClusterServiceOptions := mkClusterServiceOptions {
  co_advertised_address : str;
  co_max_request_bytes : Z;
  co_max_batch_entries : Z;
  co_max_batch_bytes : Z
}.

Definition new_cluster_service (o : ClusterServiceOptions) : result ClusterServiceOptions :=
  _ ← throw_if (is_nil (co_advertised_address o)) (InvalidArgument "advertised cluster address must not be empty");
  _ ← throw_if ((co_max_request_bytes o =? 0) || (co_max_batch_entries o =? 0) || (co_max_batch_bytes o =? 0))
        (InvalidArgument "cluster service limits must be positive");
  mret o.

(** The name under which a request is counted. *)
Definition operation (request : Request) : str :=
  match request with
  | PutRequest _ _ => bytes_of "put"
  | GetRequest _ => bytes_of "get"
  | DeleteRequest _ => bytes_of "delete"
  | BatchPutRequest _ => bytes_of "batch_put"
  end.

(** The loop of [BatchPut] over the entries, with the bytes counted so far. *)
Fixpoint check_batch (max_batch_bytes total_bytes : Z) (entries : list (str * str)) : result unit :=
  match entries with
  | [] => mret tt
  | (key, value) :: rest =>
      _ ← validate_key key;
      _ ← validate_value value;
      _ ← throw_if ((u64_max - total_bytes <? zlen key) || (u64_max - total_bytes - zlen key <? zlen value))
            (LengthError "batch byte size overflow");
      let total_bytes := total_bytes + (zlen key + zlen value) in
      _ ← throw_if (max_batch_bytes <? total_bytes) (LengthError "batch exceeds maximum payload bytes");
      check_batch max_batch_bytes total_bytes rest
  end.

(** What a handler finds wrong with the message itself. *)
Definition check_request (o : ClusterServiceOptions) (encoded_size : Z) (request : Request) : option Status :=
  if co_max_request_bytes o <? encoded_size then Some too_large_status
  else
    match request with
    | PutRequest _ _ => None
    | GetRequest key | DeleteRequest key =>
        match validate_key key with Throw e => Some (mkStatus INVALID_ARGUMENT (what e)) | Ok _ => None end
    | BatchPutRequest entries =>
        if (zlen entries <=? 0) || (co_max_batch_entries o <? zlen entries) then
          Some (mkStatus INVALID_ARGUMENT "batch entry count is outside the configured range")
        else match check_batch (co_max_batch_bytes o) 0 entries with Throw e => Some (mkStatus INVALID_ARGUMENT (what e)) | Ok _ => None end
    end.

(** ** Tasks *)

(** [SubmitResult{}] *)
Definition no_submit : SubmitResult := mkSubmitResult Unavailable 0 0 [] "".
Definition committed (r : SubmitResult) : bool := match sr_status r with Committed => true | _ => false end.

(** What a task returns; [Threw] when an exception leaves it. *)
Inductive TaskResult :=
| PutDone (r : SubmitResult)
| ReadDone (value : option str) (error : string) (quorum_confirmed : bool)
| DeleteDone (submit : SubmitResult) (existed : bool) (error : string) (quorum_confirmed : bool)
| BatchDone (results : list SubmitResult)
| Threw (e : exn).

(** Where a task is: in the loop of [confirm_leadership], about to read the
    state machine, about to append in [submit], in its loop, or at its end.
    A deletion keeps whether the key was there, a batch the results so far and
    the entries to come. *)
Inductive Stage :=
| Confirming
| Reading
| Submitting (existed : bool) (results : list SubmitResult) (command : Command) (rest : list (str * str))
| Awaiting (existed : bool) (results : list SubmitResult) (entry : LogEntry) (rest : list (str * str))
| TaskOver (r : TaskResult).

Definition put_command (kv : str * str) : Command := mkCommand Put kv.1 kv.2.
Definition delete_command (key : str) : Command := mkCommand Delete key [].

Definition first_stage (request : Request) : Stage :=
  match request with
  | PutRequest key value => Submitting false [] (put_command (key, value)) []
  | GetRequest _ | DeleteRequest _ => Confirming
  | BatchPutRequest [] => TaskOver (BatchDone [])
  | BatchPutRequest (kv :: rest) => Submitting false [] (put_command kv) rest
  end.

(** [confirm_leadership] returned false. *)
Definition unconfirmed (request : Request) : Stage :=
  TaskOver (match request with DeleteRequest _ => DeleteDone no_submit false "" false | _ => ReadDone None "" false end).

(** [submit] returned. *)
Definition submitted (request : Request) (existed : bool) (results : list SubmitResult) (rest : list (str * str)) (r : SubmitResult) : Stage :=
  match request with
  | DeleteRequest _ => TaskOver (DeleteDone r existed "" true)
  | BatchPutRequest _ =>
      let results := results ++ [r] in
      match rest with
      | kv :: rest => if committed r then Submitting existed results (put_command kv) rest else TaskOver (BatchDone results)
      | [] => TaskOver (BatchDone results)
      end
  | _ => TaskOver (PutDone r)
  end.

(** [submit] threw; a deletion catches it. *)
Definition submit_threw (request : Request) (existed : bool) (e : exn) : Stage :=
  TaskOver (match request with DeleteRequest _ => DeleteDone no_submit existed (what e) true | _ => Threw e end).

Section tasks.
Context {S M : Type} `{Storage S} `{StateMachine M} `{ReadableMachine M}.
Abbreviation Node := (RaftNode S M).

(** The next look of a task at the node: [late] when the deadline has passed,
    [contacted_quorum] what the last round of replication returned. *)
Definition task_step (request : Request) (late contacted_quorum : bool) (stage : Stage) (n : Node) : option (Stage * Node) :=
  match stage with
  | Confirming =>
      Some (if late then unconfirmed request
            else match confirm_check contacted_quorum n with
                 | Some true => Reading
                 | Some false => unconfirmed request
                 | None => Confirming
                 end, n)
  | Reading =>
      match request with
      | GetRequest key =>
          Some (TaskOver (match sm_get key (state_machine_ n) with
                          | Ok value => ReadDone value "" true
                          | Throw e => ReadDone None (what e) true
                          end), n)
      | DeleteRequest key =>
          Some (match sm_get key (state_machine_ n) with
                | Ok value => Submitting (bool_decide (is_Some value)) [] (delete_command key) []
                | Throw e => TaskOver (DeleteDone no_submit false (what e) true)
                end, n)
      | _ => None
      end
  | Submitting existed results command rest =>
      match submit_append command n with
      | (Ok (inl r), n') => Some (submitted request existed results rest r, n')
      | (Ok (inr entry), n') => Some (Awaiting existed results entry rest, n')
      | (Throw e, n') => Some (submit_threw request existed e, n')
      end
  | Awaiting existed results entry rest =>
      Some (if late then submitted request existed results rest (submit_timeout entry n)
            else match submit_check entry n with
                 | Some r => submitted request existed results rest r
                 | None => stage
                 end, n)
  | TaskOver _ => None
  end.
End tasks.

(** ** Handlers *)

(** The message of a response is filled in place. *)
Definition with_error (detail : ErrorDetail) (response : Response) : Response :=
  match response with
  | PutResponse a b _ => PutResponse a b detail
  | GetResponse a b _ => GetResponse a b detail
  | DeleteResponse a _ => DeleteResponse a detail
  | BatchPutResponse a b c _ => BatchPutResponse a b c detail
  | _ => response
  end.

Definition empty_response (request : Request) : Response :=
  match request with
  | PutRequest _ _ => PutResponse false 0 no_detail
  | GetRequest _ => GetResponse false [] no_detail
  | DeleteRequest _ => DeleteResponse false no_detail
  | BatchPutRequest _ => BatchPutResponse false 0 0 no_detail
  end.

Definition Metadata : Type := list (str * str).

(** Where a handler is: about to ask whether the node leads, waiting for its
    task, asking again after an unconfirmed read, in [not_leader] before each
    of its two looks at the node, about to refresh the metrics, or at its end.
    [settling] says whether [not_leader] was called for the result of
    [submit]. *)
Inductive Handler :=
| Asking
| Waiting
| AskingAgain
| Redirecting (settling : bool) (response : Response)
| Locating (settling : bool) (response : Response) (seen : NodeStatus)
| Refreshing (status : Status) (response : Response) (metadata : Metadata)
| Answered (status : Status) (response : Response) (metadata : Metadata).

Record Call := mkCall { c_request : Request; c_stage : Stage; c_handler : Handler }.

Record ClusterServiceStatistics := mkClusterServiceStatistics {
  css_requests_total : Z;
  css_failed_requests_total : Z;
  css_redirects_total : Z
}.

(** [sv_submitter] is the task that holds [submit_mutex_] of the node. *)
Record Service (F : Type) := mkService {
  sv_executor : Situation nat;
  sv_calls : gmap nat Call;
  sv_submitter : option nat;
  sv_requests_total : Z;
  sv_failed_requests_total : Z;
  sv_redirects_total : Z;
  sv_metrics : MetricsRegistry F;
  sv_log : str
}.
Arguments mkService {F}.
Arguments sv_executor {F}.
Arguments sv_calls {F}.
Arguments sv_submitter {F}.
Arguments sv_requests_total {F}.
Arguments sv_failed_requests_total {F}.
Arguments sv_redirects_total {F}.
Arguments sv_metrics {F}.
Arguments sv_log {F}.

Section service.
Context {F : Type} `{Double F}.
Abbreviation Service := (Service F).

Definition set_executor (x : Situation nat) (v : Service) : Service :=
  mkService x (sv_calls v) (sv_submitter v) (sv_requests_total v) (sv_failed_requests_total v) (sv_redirects_total v) (sv_metrics v) (sv_log v).
Definition set_call (id : nat) (c : Call) (v : Service) : Service :=
  mkService (sv_executor v) (<[id := c]> (sv_calls v)) (sv_submitter v) (sv_requests_total v) (sv_failed_requests_total v)
    (sv_redirects_total v) (sv_metrics v) (sv_log v).
Definition set_submitter (s : option nat) (v : Service) : Service :=
  mkService (sv_executor v) (sv_calls v) s (sv_requests_total v) (sv_failed_requests_total v) (sv_redirects_total v) (sv_metrics v) (sv_log v).
Definition on_metrics (f : MetricsRegistry F -> MetricsRegistry F) (v : Service) : Service :=
  mkService (sv_executor v) (sv_calls v) (sv_submitter v) (sv_requests_total v) (sv_failed_requests_total v) (sv_redirects_total v)
    (f (sv_metrics v)) (sv_log v).
Definition on_log (f : str -> str) (v : Service) : Service :=
  mkService (sv_executor v) (sv_calls v) (sv_submitter v) (sv_requests_total v) (sv_failed_requests_total v) (sv_redirects_total v)
    (sv_metrics v) (f (sv_log v)).

Definition record_request (name : str) (v : Service) : Service :=
  on_metrics (fun m => increment (bytes_of "nebulakv_" ++ name ++ bytes_of "_requests_total") 1 (increment (bytes_of "nebulakv_requests_total") 1 m))
    (mkService (sv_executor v) (sv_calls v) (sv_submitter v) (u64 (sv_requests_total v + 1)) (sv_failed_requests_total v)
       (sv_redirects_total v) (sv_metrics v) (sv_log v)).

Definition record_failure (name : str) (v : Service) : Service :=
  on_metrics (fun m => increment (bytes_of "nebulakv_" ++ name ++ bytes_of "_failures_total") 1
                         (increment (bytes_of "nebulakv_request_failures_total") 1 m))
    (mkService (sv_executor v) (sv_calls v) (sv_submitter v) (sv_requests_total v) (u64 (sv_failed_requests_total v + 1))
       (sv_redirects_total v) (sv_metrics v) (sv_log v)).

Definition record_latency (name : str) (seconds : F) (v : Service) : Service :=
  on_metrics (fun m => observe (bytes_of "nebulakv_" ++ name ++ bytes_of "_latency_seconds") seconds
                         (observe (bytes_of "nebulakv_request_latency_seconds") seconds m)) v.

Definition role_number (r : Role) : Z := match r with Follower => 0 | Candidate => 1 | Leader => 2 end.

Definition refresh_raft_metrics (s : NodeStatus) (v : Service) : Service :=
  on_metrics (fun m =>
    foldl (fun m g => set_gauge (bytes_of g.1) (d_of_Z g.2) m) m
      [ ("nebulakv_raft_term"%string, ns_term s);
        ("nebulakv_raft_role"%string, role_number (ns_role s));
        ("nebulakv_raft_commit_index"%string, ns_commit_index s);
        ("nebulakv_raft_last_applied"%string, ns_last_applied s);
        ("nebulakv_raft_replication_lag"%string, u64 (ns_last_log_index s - ns_commit_index s));
        ("nebulakv_raft_elections_total"%string, elections_started (ns_metrics s));
        ("nebulakv_raft_replication_failures_total"%string, replication_failures (ns_metrics s));
        ("nebulakv_snapshot_created_total"%string, snapshots_created (ns_metrics s));
        ("nebulakv_snapshot_installed_total"%string, snapshots_installed (ns_metrics s)) ]) v.

(** The failure is counted and the handler returns. *)
Definition fail_call (id : nat) (c : Call) (status : Status) (response : Response) (v : Service) : Service :=
  set_call id (mkCall (c_request c) (c_stage c) (Answered status response [])) (record_failure (operation (c_request c)) v).

(** The handler submits its task. *)
Definition submit_task (id : nat) (c : Call) (v : Service) : Service :=
  let '(accepted, e) := try_submit id (sv_executor v).1 in
  let v := set_executor (e, if accepted then NotifyOne :: (sv_executor v).2 else (sv_executor v).2) v in
  if accepted then set_call id (mkCall (c_request c) (c_stage c) Waiting) v
  else fail_call id c queue_full_status (empty_response (c_request c)) v.

(** A handler up to its first look at the node. *)
Definition begin_handler (o : ClusterServiceOptions) (id : nat) (request : Request) (encoded_size : Z) (deadline_expired : bool)
    (v : Service) : Service :=
  let v := record_request (operation request) v in
  let c := mkCall request (first_stage request) Asking in
  match check_request o encoded_size request with
  | Some status => fail_call id c status (empty_response request) v
  | None =>
      match request with
      | PutRequest _ _ => if deadline_expired then fail_call id c deadline_status (empty_response request) v else submit_task id c v
      | BatchPutRequest _ => submit_task id c v
      | GetRequest _ | DeleteRequest _ => set_call id c v
      end
  end.

(** [is_leader] has answered [leads]: [Get] and [Delete] go on or redirect. *)
Definition ask_leader (id : nat) (deadline_expired : bool) (seconds : F) (leads : bool) (v : Service) : option Service :=
  match sv_calls v !! id with
  | Some (mkCall request stage Asking) =>
      let c := mkCall request stage Asking in
      Some (if negb leads then
              set_call id (mkCall request stage (Redirecting false (empty_response request)))
                (record_latency (operation request) seconds (record_failure (operation request) v))
            else if deadline_expired then fail_call id c deadline_status (empty_response request) v
            else submit_task id c v)
  | _ => None
  end.

Definition unconfirmed_message : string := "leader could not confirm a current-term quorum".

(** The second question, when leadership was not confirmed. *)
Definition ask_again (id : nat) (leads : bool) (v : Service) : option Service :=
  match sv_calls v !! id with
  | Some (mkCall request stage AskingAgain) =>
      Some (set_call id (mkCall request stage
        (if negb leads then Redirecting false (empty_response request)
         else Answered (mkStatus UNAVAILABLE unconfirmed_message)
                (with_error (mkErrorDetail "UNAVAILABLE" unconfirmed_message [] []) (empty_response request)) [])) v)
  | _ => None
  end.

(** The end of the handlers that submit: the latency is recorded, the metrics
    are refreshed. *)
Definition conclude (id : nat) (c : Call) (status : Status) (response : Response) (metadata : Metadata) (seconds : F) (v : Service) : Service :=
  let name := operation (c_request c) in
  let v := if bool_decide (st_code status = OK) then v else record_failure name v in
  set_call id (mkCall (c_request c) (c_stage c) (Refreshing status response metadata)) (record_latency name seconds v).

(** [submit_status] and what follows it. *)
Definition settle (id : nat) (c : Call) (r : SubmitResult) (response : Response) (seconds : F) (v : Service) : Service :=
  let error (code : StatusCode) (name : string) :=
    conclude id c (mkStatus code (sr_message r)) (with_error (mkErrorDetail name (sr_message r) [] []) response) [] seconds v in
  match sr_status r with
  | Committed => conclude id c ok_status response [] seconds v
  | NotLeader => set_call id (mkCall (c_request c) (c_stage c) (Redirecting true response)) v
  | Timeout => error DEADLINE_EXCEEDED "DEADLINE_EXCEEDED"%string
  | Unavailable => error UNAVAILABLE "UNAVAILABLE"%string
  | InvalidCommand => error INVALID_ARGUMENT "INVALID_ARGUMENT"%string
  end.

(** How many results are committed before the first that is not, and the index
    of the last of them. *)
Fixpoint count_applied (applied last_index : Z) (results : list SubmitResult) : Z * Z :=
  match results with
  | [] => (applied, last_index)
  | r :: rest => if committed r then count_applied (u32 (applied + 1)) (sr_log_index r) rest else (applied, last_index)
  end.

(** [wait_until] ends: with the result of the task or without. *)
Definition end_wait (id : nat) (ready : bool) (seconds : F) (v : Service) : option Service :=
  match sv_calls v !! id with
  | Some (mkCall request stage Waiting) =>
      let c := mkCall request stage Waiting in
      let unconfirmed_call := set_call id (mkCall request stage AskingAgain)
                                (record_latency (operation request) seconds (record_failure (operation request) v)) in
      let internal (error : string) :=
        fail_call id c (mkStatus INTERNAL error) (with_error (mkErrorDetail "INTERNAL" error [] []) (empty_response request)) v in
      if negb ready then Some (fail_call id c deadline_status (empty_response request) v)
      else
        match stage with
        | TaskOver (PutDone r) => Some (settle id c r (PutResponse (committed r) (sr_log_index r) no_detail) seconds v)
        | TaskOver (ReadDone value error quorum_confirmed) =>
            Some (if negb quorum_confirmed then unconfirmed_call
                  else if negb (bool_decide (error = ""%string)) then internal error
                  else conclude id c ok_status (GetResponse (bool_decide (is_Some value)) (default [] value) no_detail) [] seconds v)
        | TaskOver (DeleteDone r existed error quorum_confirmed) =>
            Some (if negb quorum_confirmed then unconfirmed_call
                  else if negb (bool_decide (error = ""%string)) then internal error
                  else settle id c r (DeleteResponse (committed r && existed) no_detail) seconds v)
        | TaskOver (BatchDone results) =>
            let size := match request with BatchPutRequest entries => u32 (zlen entries) | _ => 0 end in
            let '(applied, last_index) := count_applied 0 0 results in
            let success := applied =? size in
            let response := BatchPutResponse success applied last_index no_detail in
            Some (if success then conclude id c ok_status response [] seconds v
                  else settle id c (default no_submit (last results)) response seconds v)
        | TaskOver (Threw e) =>
            (* the exception leaves the handler *)
            Some (set_call id (mkCall request stage (Answered (mkStatus UNKNOWN "") (empty_response request) [])) v)
        | _ => None
        end
  | _ => None
  end.

(** [not_leader]: its first look at the node is [status]... *)
Definition look_status (id : nat) (s : NodeStatus) (v : Service) : option Service :=
  match sv_calls v !! id with
  | Some (mkCall request stage (Redirecting settling response)) => Some (set_call id (mkCall request stage (Locating settling response s)) v)
  | _ => None
  end.

Definition redirect_status : Status := mkStatus FAILED_PRECONDITION "request was sent to a follower".

(** ... its second [leader_address]. *)
Definition look_address (o : ClusterServiceOptions) (id : nat) (address : option str) (timestamp : str) (seconds : F) (v : Service) : option Service :=
  match sv_calls v !! id with
  | Some (mkCall request stage (Locating settling response s)) =>
      let leader_address := if str_eqb (ns_leader_id s) (ns_node_id s) then co_advertised_address o else default [] address in
      let response := with_error (mkErrorDetail "NOT_LEADER" "request must be sent to the current Raft leader" (ns_leader_id s) leader_address) response in
      let metadata := (if is_nil (ns_leader_id s) then [] else [(bytes_of "nebulakv-leader-id", ns_leader_id s)]) ++
                      (if is_nil leader_address then [] else [(bytes_of "nebulakv-leader-address", leader_address)]) in
      let v := on_log (log timestamp (bytes_of "info") (bytes_of "client_redirect")
                         [(bytes_of "leader_address", leader_address); (bytes_of "leader_id", ns_leader_id s); (bytes_of "node_id", ns_node_id s)])
                 (on_metrics (increment (bytes_of "nebulakv_redirects_total") 1)
                   (mkService (sv_executor v) (sv_calls v) (sv_submitter v) (sv_requests_total v) (sv_failed_requests_total v)
                      (u64 (sv_redirects_total v + 1)) (sv_metrics v) (sv_log v))) in
      Some (if settling then conclude id (mkCall request stage Waiting) redirect_status response metadata seconds v
            else set_call id (mkCall request stage (Answered redirect_status response metadata)) v)
  | _ => None
  end.

(** [refresh_raft_metrics], and the handler returns. *)
Definition refresh (id : nat) (s : NodeStatus) (v : Service) : option Service :=
  match sv_calls v !! id with
  | Some (mkCall request stage (Refreshing status response metadata)) =>
      Some (set_call id (mkCall request stage (Answered status response metadata)) (refresh_raft_metrics s v))
  | _ => None
  end.

Definition service_statistics (v : Service) : ClusterServiceStatistics :=
  mkClusterServiceStatistics (sv_requests_total v) (sv_failed_requests_total v) (sv_redirects_total v).
End service.

(** *** Status *)

(** As in [StatusSnapshot], the ratio is the fraction that the division
    rounds. *)
Record StateMachineStatistics := mkStateMachineStatistics {
  sms_last_sequence_number : Z;
  sms_level0_sstables : Z;
  sms_level1_sstables : Z;
  sms_cache_hits : Z;
  sms_cache_misses : Z;
  sms_cache_evictions : Z;
  sms_cache_hit_ratio : Z * Z;
  sms_compactions_completed : Z
}.

(** The fields of the response: the snapshot of the store, and of the node. *)
Record ClusterStatus := mkClusterStatus {
  cst_snapshot : StatusSnapshot;
  cst_node_id : str;
  cst_raft_role : string;
  cst_raft_term : Z;
  cst_leader_id : str;
  cst_leader_address : str;
  cst_commit_index : Z;
  cst_last_applied : Z;
  cst_last_log_index : Z;
  cst_snapshot_index : Z;
  cst_elections : Z;
  cst_replication_failures : Z;
  cst_snapshots_created : Z;
  cst_snapshots_installed : Z
}.

(** What [Status] answers, from what its queries returned. *)
Definition cluster_status (o : ClusterServiceOptions) (node : NodeStatus) (state : StateMachineStatistics) (executor : ExecutorStatistics)
    (service : ClusterServiceStatistics) (live_keys : Z) (address : option str) : ClusterStatus :=
  mkClusterStatus
    (mkStatusSnapshot true live_keys (sms_last_sequence_number state) (sms_level0_sstables state) (sms_level1_sstables state)
       (sms_cache_hits state) (sms_cache_misses state) (sms_cache_evictions state) (sms_cache_hit_ratio state)
       (sms_compactions_completed state) (es_queued_tasks executor) (es_active_tasks executor) (es_rejected_tasks executor)
       (css_requests_total service) (css_failed_requests_total service))
    (ns_node_id node) (role_name (ns_role node)) (ns_term node) (ns_leader_id node)
    (if str_eqb (ns_leader_id node) (ns_node_id node) then co_advertised_address o else default [] address)
    (ns_commit_index node) (ns_last_applied node) (ns_last_log_index node) (ns_snapshot_index node)
    (elections_started (ns_metrics node)) (replication_failures (ns_metrics node)) (snapshots_created (ns_metrics node))
    (snapshots_installed (ns_metrics node)).

(** [Status] changes the counters and the metrics only. *)
Definition status_handler {F} `{Double F} (deadline_expired : bool) (s : NodeStatus) (v : Service F) : Status * Service F :=
  let v := record_request (bytes_of "status") v in
  if deadline_expired then (deadline_status, record_failure (bytes_of "status") v)
  else (ok_status, refresh_raft_metrics s v).

(** ** A member of the cluster *)

(** The cluster, the service of one member, and the looks of its tasks at the
    node, the last one first: whose task it was, and the node before and
    after. *)
Record System (S M F : Type) := mkSystem {
  sy_cluster : Cluster S M;
  sy_service : Service F;
  sy_looks : list (nat * (RaftNode S M * RaftNode S M))
}.
Arguments mkSystem {S M F}.
Arguments sy_cluster {S M F}.
Arguments sy_service {S M F}.
Arguments sy_looks {S M F}.

Section system.
Context {S M F : Type} `{BallotLaws S} `{StateMachine M} `{ReadableMachine M} `{Double F}.
Context (options : ClusterServiceOptions) (me : NodeId).
Abbreviation System := (System S M F).
Abbreviation Node := (RaftNode S M).

Definition set_service (v : Service F) (y : System) : System := mkSystem (sy_cluster y) v (sy_looks y).
Definition set_cluster (c : Cluster S M) (y : System) : System := mkSystem c (sy_service y) (sy_looks y).

(** The task [id] looks at the node. *)
Definition looked (id : nat) (n n' : Node) (v : Service F) (y : System) : System :=
  mkSystem (set_process me (Up n') (sy_cluster y)) v ((id, (n, n')) :: sy_looks y).

Definition node_of (y : System) : option Node := match cl_processes (sy_cluster y) !! me with Some (Up n) => Some n | _ => None end.

(** [submit_mutex_] is taken before a command is appended, unless the command
    is malformed, and held to the end of [submit]. *)
Definition may_submit (stage : Stage) (v : Service F) : bool :=
  match stage with
  | Submitting _ _ command _ => bool_decide (sv_submitter v = None) || negb (is_Ok (valid_client_command command))
  | _ => true
  end.
Definition next_submitter (id : nat) (stage stage' : Stage) (s : option nat) : option nat :=
  match stage, stage' with
  | Submitting _ _ _ _, Awaiting _ _ _ _ => Some id
  | Awaiting _ _ _ _, Awaiting _ _ _ _ => s
  | Awaiting _ _ _ _, _ => None
  | _, _ => s
  end.

(** A worker runs the task. *)
Definition runs (id : nat) (e : BoundedExecutor nat) : bool :=
  existsb (fun w => match w with Running task => Nat.eqb task id | _ => false end) (workers_ e).

(** The look of a task that a worker runs. *)
Definition task_look (id : nat) (late contacted_quorum : bool) (y : System) : option System :=
  match sv_calls (sy_service y) !! id, node_of y with
  | Some (mkCall request stage handler), Some n =>
      if runs id (sv_executor (sy_service y)).1 && may_submit stage (sy_service y) then
        match task_step request late contacted_quorum stage n with
        | Some (stage', n') =>
            Some (looked id n n'
                    (set_submitter (next_submitter id stage stage' (sv_submitter (sy_service y)))
                       (set_call id (mkCall request stage' handler) (sy_service y))) y)
        | None => None
        end
      else None
  | _, _ => None
  end.

(** The result of a task is there when the worker goes on. *)
Definition result_there (ev : Event nat) (v : Service F) : Prop :=
  match ev with
  | Executor.Finished id => exists request r handler, sv_calls v !! id = Some (mkCall request (TaskOver r) handler)
  | _ => True
  end.

(** A repeated field has at most [INT_MAX] elements. *)
Definition is_message (request : Request) : Prop :=
  match request with BatchPutRequest entries => zlen entries < 2 ^ 31 | _ => True end.

Inductive system_step : System -> System -> Prop :=
| sys_begin id request encoded_size deadline_expired y :
    sv_calls (sy_service y) !! id = None -> is_message request ->
    system_step y (set_service (begin_handler options id request encoded_size deadline_expired (sy_service y)) y)
| sys_status deadline_expired n y :
    node_of y = Some n -> system_step y (set_service (status_handler deadline_expired (status n) (sy_service y)).2 y)
| sys_ask id deadline_expired seconds n v y :
    node_of y = Some n -> ask_leader id deadline_expired seconds (is_leader n) (sy_service y) = Some v -> system_step y (set_service v y)
| sys_ask_again id n v y :
    node_of y = Some n -> ask_again id (is_leader n) (sy_service y) = Some v -> system_step y (set_service v y)
| sys_end_wait id ready seconds v y : end_wait id ready seconds (sy_service y) = Some v -> system_step y (set_service v y)
| sys_look_status id n v y :
    node_of y = Some n -> look_status id (status n) (sy_service y) = Some v -> system_step y (set_service v y)
| sys_look_address id timestamp seconds n v y :
    node_of y = Some n -> look_address options id (leader_address n) timestamp seconds (sy_service y) = Some v ->
    system_step y (set_service v y)
| sys_refresh id n v y : node_of y = Some n -> refresh id (status n) (sy_service y) = Some v -> system_step y (set_service v y)
| sys_task id late contacted_quorum y y' : task_look id late contacted_quorum y = Some y' -> system_step y y'
| sys_executor ev x y : inner_step (sv_executor (sy_service y)) ev x -> result_there ev (sy_service y) ->
    system_step y (set_service (set_executor x (sy_service y)) y)
| sys_spurious i e y : wake i (sv_executor (sy_service y)).1 = Some e ->
    system_step y (set_service (set_executor (e, (sv_executor (sy_service y)).2) (sy_service y)) y)
| sys_shutdown e y : begin_shutdown true (sv_executor (sy_service y)).1 = Some e ->
    system_step y (set_service (set_executor (e, NotifyAll :: (sv_executor (sy_service y)).2) (sy_service y)) y)
| sys_perform a c y : perform a (sy_cluster y) = Some c -> system_step y (set_cluster c y)
| sys_boot id machine c y : id <> me -> boot id machine (sy_cluster y) = Some c -> system_step y (set_cluster c y)
| sys_crash id n s' y :
    id <> me -> cl_processes (sy_cluster y) !! id = Some (Up n) -> bs_restart (storage_ n) s' ->
    system_step y (set_cluster (set_campaign id None (set_process id (Down (options_ n) s') (sy_cluster y))) y)
| sys_crash_down id o s s' y :
    id <> me -> cl_processes (sy_cluster y) !! id = Some (Down o s) -> bs_restart s s' ->
    system_step y (set_cluster (set_process id (Down o s') (sy_cluster y)) y).

(** A member that has started. *)
Definition initial_system (e : BoundedExecutor nat) (c : Cluster S M) : System :=
  mkSystem c (mkService (e, []) ∅ None 0 0 0 new_registry []) [].
End system.

(** ** What an answer says *)

Section answers.
Context {S M : Type} `{Storage S} `{StateMachine M} `{ReadableMachine M}.
Abbreviation Node := (RaftNode S M).
Abbreviation Looks := (list (Node * Node)).

Definition no_change (x : Node * Node) : Prop := x.2 = x.1.

(** The looks of one [submit] that returned Committed: the command was
    appended to the log of the node, which led, as the entry with the index
    [index], and in the last look the node's commit index had reached it. *)
Definition submit_looks (command : Command) (index : Z) (looks : Looks) : Prop :=
  exists n n' r, role_ n = Leader /\ submit_append command n = (Ok r, n') /\
    match r with
    | inl result => looks = [(n, n')] /\ committed result = true /\ index = sr_log_index result
    | inr entry => exists waits m, looks = (n, n') :: waits ++ [(m, m)] /\ Forall no_change waits /\
        le_index entry <= commit_index (hard_state_ m) /\ index = le_index entry
    end.

(** The looks of a [confirm_leadership] that returned true, and of the read
    after it. *)
Definition read_looks (key : str) (value : option str) (looks : Looks) : Prop :=
  exists rounds n m, looks = rounds ++ [(n, n); (m, m)] /\ Forall no_change rounds /\ confirm_check true n = Some true /\
    sm_get key (state_machine_ m) = Ok value.

(** What an answer OK says of the looks of the task. *)
Definition answer_spec (request : Request) (response : Response) (looks : Looks) : Prop :=
  match request with
  | PutRequest key value => exists index, submit_looks (put_command (key, value)) index looks /\ response = PutResponse true index no_detail
  | GetRequest key => exists value, read_looks key value looks /\
      response = GetResponse (bool_decide (is_Some value)) (default [] value) no_detail
  | DeleteRequest key => exists value index looks1 looks2, looks = looks1 ++ looks2 /\ read_looks key value looks1 /\
      submit_looks (delete_command key) index looks2 /\ response = DeleteResponse (bool_decide (is_Some value)) no_detail
  | BatchPutRequest entries => exists indices parts, looks = concat parts /\
      Forall3 (fun kv index part => submit_looks (put_command kv) index part) entries indices parts /\
      response = BatchPutResponse true (u32 (zlen entries)) (default 0 (last indices)) no_detail
  end.
End answers.
