(* ===== verification/ClusterAnswers.v ===== *)
(** * The answers of the clustered service

    What the answers of src/distributed/cluster_service.cpp say about the Raft
    node, in every interleaving, and what they do not say: a run in which a
    write is acknowledged and lost. *)

From S2P Require Import Prelude OrderedMap Path Posix FileSystem Store RaftTypes RaftStorage RaftNode RaftElection RaftCluster RequestProcessor Executor GrpcService Observability ClusterService RaftSafety.

(** ** What a task does *)

Section tasks.
Context {S M : Type} `{Storage S} `{StateMachine M} `{ReadableMachine M}.
Abbreviation Node := (RaftNode S M).
Abbreviation Looks := (list (Node * Node)).

(** A task and its looks at the node, whatever happened to the node in
    between. *)
Inductive task_run (request : Request) : Looks -> Stage -> Prop :=
| run_first : task_run request [] (first_stage request)
| run_look looks stage late contacted_quorum n stage' n' :
    task_run request looks stage -> task_step request late contacted_quorum stage n = Some (stage', n') ->
    task_run request (looks ++ [(n, n')]) stage'.

Lemma submit_append_leader command (n : Node) r n' :
  submit_append command n = (Ok r, n') -> (forall x, r = inl x -> committed x = true) -> role_ n = Leader.
Proof.
  unfold submit_append. destruct (valid_client_command command); [|intros [= <- <-] Hr; by specialize (Hr _ eq_refl)].
  unfold mbind at 1, stm_bind at 1, sget. cbv beta iota. destruct (bool_decide (role_ n = Leader)) eqn:E; [by intros; apply bool_decide_eq_true in E|].
  cbn [negb]. intros [= <- <-] Hr. by specialize (Hr _ eq_refl).
Qed.

Lemma submit_check_committed entry (n : Node) r :
  submit_check entry n = Some r -> committed r = true -> le_index entry <= commit_index (hard_state_ n) /\ sr_log_index r = le_index entry.
Proof. unfold submit_check. destruct (_ <=? _) eqn:E; [intros [= <-] _; zbool; by split|]. by destruct (_ || _); [intros [= <-]|]. Qed.

(** The looks before the command of a stage is appended. *)
Definition before_submit (request : Request) (existed : bool) (results : list SubmitResult) (command : Command) (rest : list (str * str))
    (looks : Looks) : Prop :=
  match request with
  | PutRequest key value => looks = [] /\ command = put_command (key, value)
  | GetRequest _ => False
  | DeleteRequest key => command = delete_command key /\ exists value, read_looks key value looks /\ existed = bool_decide (is_Some value)
  | BatchPutRequest entries => exists done kv parts, entries = done ++ kv :: rest /\ command = put_command kv /\ looks = concat parts /\
      Forall (fun r => committed r = true) results /\
      Forall3 (fun kv index part => submit_looks (put_command kv) index part) done (map sr_log_index results) parts
  end.

Definition reads (request : Request) : Prop := match request with GetRequest _ | DeleteRequest _ => True | _ => False end.

Definition result_spec (request : Request) (r : TaskResult) (looks : Looks) : Prop :=
  match r with
  | PutDone r => exists key value, request = PutRequest key value /\
      (committed r = true -> submit_looks (put_command (key, value)) (sr_log_index r) looks)
  | ReadDone value error quorum_confirmed => exists key, request = GetRequest key /\
      (quorum_confirmed = true -> error = ""%string -> read_looks key value looks)
  | DeleteDone r existed error quorum_confirmed => exists key, request = DeleteRequest key /\
      (committed r = true -> exists value looks1 looks2, looks = looks1 ++ looks2 /\ read_looks key value looks1 /\
         existed = bool_decide (is_Some value) /\ submit_looks (delete_command key) (sr_log_index r) looks2)
  | BatchDone results => exists entries, request = BatchPutRequest entries /\ (length results <= length entries)%nat /\
      (forall r, last results = Some r -> committed r = true -> Forall (fun r => committed r = true) results) /\
      (Forall (fun r => committed r = true) results -> exists parts, looks = concat parts /\
         Forall3 (fun kv index part => submit_looks (put_command kv) index part) entries (map sr_log_index results) parts)
  | Threw _ => True
  end.

Definition stage_spec (request : Request) (stage : Stage) (looks : Looks) : Prop :=
  match stage with
  | Confirming => reads request /\ Forall no_change looks
  | Reading => reads request /\ exists rounds n, looks = rounds ++ [(n, n)] /\ Forall no_change rounds /\ confirm_check true n = Some true
  | Submitting existed results command rest => before_submit request existed results command rest looks
  | Awaiting existed results entry rest => exists looks0 command n n' waits, looks = looks0 ++ (n, n') :: waits /\
      before_submit request existed results command rest looks0 /\ submit_append command n = (Ok (inr entry), n') /\ Forall no_change waits
  | TaskOver r => result_spec request r looks
  end.

(** A [submit] of the task ends. *)
Lemma submitted_spec request existed results command rest r looks looks' :
  before_submit request existed results command rest looks -> (committed r = true -> submit_looks command (sr_log_index r) looks') ->
  stage_spec request (submitted request existed results rest r) (looks ++ looks').
Proof.
  intros Hb Hr. destruct request as [key value|key|key|entries]; cbn [before_submit submitted] in *.
  - destruct Hb as [-> ->]. exists key, value. split; [done|]. by intros ?%Hr.
  - done.
  - destruct Hb as (-> & value & Hv & ->). exists key. split; [done|]. intros Hc. exists value, looks, looks'. split_and!; [done..|by apply Hr].
  - destruct Hb as (dn & kv & parts & -> & -> & -> & Hall & H3).
    assert (Hlen : length results = length dn) by (apply Forall3_length_lm in H3; by rewrite length_map in H3).
    assert (Hnext : committed r = true -> Forall (fun r => committed r = true) (results ++ [r]) /\
      Forall3 (fun kv index part => submit_looks (put_command kv) index part) (dn ++ [kv]) (map sr_log_index (results ++ [r])) (parts ++ [looks'])).
    { intros Hc. split; [by apply Forall_app_2; [|constructor]|]. rewrite map_app. apply Forall3_app; [done|]. constructor; [by apply Hr|constructor]. }
    assert (Hlast : forall r', last (results ++ [r]) = Some r' -> committed r' = true -> Forall (fun r => committed r = true) (results ++ [r])).
    { intros r'. rewrite last_snoc. intros [= <-] Hc. by apply Hnext. }
    assert (Hcat : concat parts ++ looks' = concat (parts ++ [looks'])) by (rewrite concat_app; simpl; by rewrite app_nil_r).
    destruct rest as [|kv2 rest]; [|destruct (committed r) eqn:Ec].
    + exists (dn ++ [kv]). split_and!; [done|rewrite !length_app; simpl; lia|done|]. intros [_ Hc]%Forall_app. inversion Hc; subst.
      exists (parts ++ [looks']). split; [done|]. by apply Hnext.
    + exists (dn ++ [kv]), kv2, (parts ++ [looks']). rewrite <- app_assoc. split_and!; [done..|by apply Hnext|by apply Hnext].
    + exists (dn ++ kv :: kv2 :: rest). split_and!; [done|rewrite !length_app; simpl; lia|exact Hlast|]. intros [_ Hc]%Forall_app. inversion Hc. congruence.
Qed.

Lemma task_looks_spec request looks stage : task_run request looks stage -> stage_spec request stage looks.
Proof.
  induction 1 as [|looks stage late contacted n stage' n' Hrun IH Hstep].
  - destruct request as [key value|key|key|[|kv entries]]; cbn; [done|by split; [|constructor]..| |].
    + exists []. split_and!; [done..|by intros|]. intros _. exists []. split; [done|constructor].
    + exists [], kv, []. split_and!; [done..|constructor].
  - destruct stage as [| |existed results command rest|existed results entry rest|r]; cbn [task_step] in Hstep.
    + destruct IH as [Hreads Hl]. injection Hstep as <- <-.
      assert (Hun : stage_spec request (unconfirmed request) (looks ++ [(n, n)])) by (destruct request as [| |key|]; try done; by exists key).
      destruct late; [done|]. destruct (confirm_check contacted n) as [[]|] eqn:Ec; [|done|].
      * cbn. split; [done|]. exists looks, n. split_and!; [done..|]. destruct contacted; [done|].
        unfold confirm_check in Ec. by destruct (negb _).
      * cbn. split; [done|]. by apply Forall_app_2; [|constructor].
    + destruct IH as (Hreads & rounds & m & -> & Hl & Hc).
      assert (Hr : forall key value, sm_get key (state_machine_ n) = Ok value -> read_looks key value ((rounds ++ [(m, m)]) ++ [(n, n)])).
      { intros key value Hv. exists rounds, m, n. split_and!; [by rewrite <- app_assoc|done..]. }
      destruct request as [|key|key|]; try done; injection Hstep as <- <-.
      * destruct (sm_get key (state_machine_ n)) as [value|e] eqn:Eg; exists key; (split; [done|]); [by intros; apply Hr|].
        intros _ He. by apply sm_get_message in Eg.
      * destruct (sm_get key (state_machine_ n)) as [value|e] eqn:Eg; [|by exists key]. cbn. split; [done|]. exists value. split; [by apply Hr|done].
    + destruct (submit_append command n) as [[[r|entry]|e] n1] eqn:Es; injection Hstep as <- <-.
      * eapply submitted_spec; [exact IH|]. intros Hc. exists n, n1, (inl r). split_and!; [|done|done..].
        by eapply submit_append_leader; [exact Es|intros x [= <-]].
      * exists looks, command, n, n1, []. by split_and!.
      * destruct request as [| |key|]; try done. by exists key.
    + destruct IH as (looks0 & command & m & m' & waits & -> & Hb & Hs & Hw).
      assert (Hsub : forall r, (committed r = true -> le_index entry <= commit_index (hard_state_ n) /\ sr_log_index r = le_index entry) ->
        stage_spec request (submitted request existed results rest r) ((looks0 ++ (m, m') :: waits) ++ [(n, n)])).
      { intros r Hr. rewrite <- app_assoc. eapply submitted_spec; [exact Hb|]. intros Hc. destruct (Hr Hc) as [H1' H2'].
        exists m, m', (inr entry). split_and!; [|done|exists waits, n; by split_and!]. by eapply submit_append_leader; [exact Hs|]. }
      injection Hstep as <- <-. destruct late; [by apply Hsub|]. destruct (submit_check entry n) as [r|] eqn:Ec.
      * apply Hsub. by apply submit_check_committed.
      * exists looks0, command, m, m', (waits ++ [(n, n)]). split_and!; [by rewrite <- app_assoc|done..|]. by apply Forall_app_2; [|constructor].
    + done.
Qed.
End tasks.

(** ** Counters *)

Section counters.
Context {F : Type} `{Double F}.

Definition counted_names : list str := [bytes_of "put"; bytes_of "get"; bytes_of "delete"; bytes_of "batch_put"; bytes_of "status"].

(** The counters of the metrics are those of [statistics]. *)
Definition metrics_agree (v : Service F) : Prop :=
  service_statistics v = mkClusterServiceStatistics
    (counter (bytes_of "nebulakv_requests_total") (sv_metrics v))
    (counter (bytes_of "nebulakv_request_failures_total") (sv_metrics v))
    (counter (bytes_of "nebulakv_redirects_total") (sv_metrics v)).

Lemma counter_increment name name' amount (m : MetricsRegistry F) :
  counter name (increment name' amount m) = if str_eqb name name' then u64 (counter name' m + amount) else counter name m.
Proof. unfold counter, increment. cbn [counters_]. rewrite om_find_insert. by destruct (str_eqb name name'). Qed.

Lemma operation_counted request : operation request ∈ counted_names.
Proof. destruct request; apply (bool_decide_unpack _); vm_compute; exact I. Qed.

(** The names of the totals are not among those of single operations. *)
Lemma total_names name suffix total :
  name ∈ counted_names -> suffix ∈ [bytes_of "_requests_total"; bytes_of "_failures_total"] ->
  total ∈ [bytes_of "nebulakv_requests_total"; bytes_of "nebulakv_request_failures_total"; bytes_of "nebulakv_redirects_total"] ->
  str_eqb total (bytes_of "nebulakv_" ++ name ++ suffix) = false.
Proof.
  intros Hn Hs Ht.
  assert (Hall : forallb (fun n => forallb (fun x => forallb (fun t => negb (str_eqb t (bytes_of "nebulakv_" ++ n ++ x)))
      [bytes_of "nebulakv_requests_total"; bytes_of "nebulakv_request_failures_total"; bytes_of "nebulakv_redirects_total"])
      [bytes_of "_requests_total"; bytes_of "_failures_total"]) counted_names = true) by reflexivity.
  rewrite forallb_forall in Hall. specialize (Hall _ (proj1 (list_elem_of_In _ _) Hn)). cbv beta in Hall.
  rewrite forallb_forall in Hall. specialize (Hall _ (proj1 (list_elem_of_In _ _) Hs)). cbv beta in Hall.
  rewrite forallb_forall in Hall. specialize (Hall _ (proj1 (list_elem_of_In _ _) Ht)). by apply negb_true_iff in Hall.
Qed.

Lemma agree_request name (v : Service F) : name ∈ counted_names -> metrics_agree v -> metrics_agree (record_request name v).
Proof.
  intros Hn Hv. unfold metrics_agree, service_statistics, record_request, on_metrics in *. injection Hv as H1 H2 H3.
  cbn [sv_metrics sv_requests_total sv_failed_requests_total sv_redirects_total]. rewrite !counter_increment.
  rewrite !total_names by (done || (rewrite !elem_of_cons; tauto)). rewrite H1, H2, H3. reflexivity.
Qed.
Lemma agree_failure name (v : Service F) : name ∈ counted_names -> metrics_agree v -> metrics_agree (record_failure name v).
Proof.
  intros Hn Hv. unfold metrics_agree, service_statistics, record_failure, on_metrics in *. injection Hv as H1 H2 H3.
  cbn [sv_metrics sv_requests_total sv_failed_requests_total sv_redirects_total]. rewrite !counter_increment.
  rewrite !total_names by (done || (rewrite !elem_of_cons; tauto)). rewrite H1, H2, H3. reflexivity.
Qed.
End counters.

(** ** The invariant *)

Section invariant.
Context {S M F : Type} `{BallotLaws S} `{StateMachine M} `{ReadableMachine M} `{Double F}.
Context (options : ClusterServiceOptions) (me : NodeId).
Abbreviation Node := (RaftNode S M).
Abbreviation Looks := (list (Node * Node)).
Abbreviation Sys := (System S M F).

(** The looks of one task, the first one first. *)
Fixpoint looks_of (id : nat) (l : list (nat * (Node * Node))) : Looks :=
  match l with
  | [] => []
  | (i, x) :: rest => looks_of id rest ++ (if Nat.eqb i id then [x] else [])
  end.

Definition replies_ok (request : Request) (stage : Stage) (handler : Handler) (looks : Looks) : Prop :=
  match handler with
  | Refreshing status response _ | Answered status response _ =>
      st_code status = OK -> answer_spec request response looks /\ exists r, stage = TaskOver r
  | _ => True
  end.

Record call_inv (looks : Looks) (c : Call) : Prop := {
  ca_task : task_run (c_request c) looks (c_stage c);
  ca_message : is_message (c_request c);
  ca_reply : replies_ok (c_request c) (c_stage c) (c_handler c) looks
}.

Record system_inv (y : Sys) : Prop := {
  si_call : forall id c, sv_calls (sy_service y) !! id = Some c -> call_inv (looks_of id (sy_looks y)) c;
  si_none : forall id, sv_calls (sy_service y) !! id = None -> looks_of id (sy_looks y) = [];
  si_metrics : metrics_agree (sy_service y)
}.

(** A handler goes on: its call changes, and counters do. *)
Definition moves (id : nat) (c' : Call) (v v' : Service F) : Prop :=
  sv_calls v' = <[id := c']> (sv_calls v) /\ (metrics_agree v -> metrics_agree v').

Lemma inv_moves y id c' v' :
  system_inv y -> moves id c' (sy_service y) v' -> call_inv (looks_of id (sy_looks y)) c' -> system_inv (set_service v' y).
Proof.
  intros [I1 I2 I3] [Hc Hm] Hi. split; cbn.
  - intros id' c. rewrite Hc. intros [[<- <-]|[_ Hl]]%lookup_insert_Some; [done|by apply I1].
  - intros id'. rewrite Hc. intros [? _]%lookup_insert_None. by apply I2.
  - by apply Hm.
Qed.

Lemma moves_fail id c status response v :
  moves id (mkCall (c_request c) (c_stage c) (Answered status response [])) v (fail_call id c status response v).
Proof. split; [done|]. intros Hv. apply (agree_failure (operation (c_request c))); [apply operation_counted|done]. Qed.

Lemma moves_submit id c v : exists h, moves id (mkCall (c_request c) (c_stage c) h) v (submit_task id c v) /\
  (h = Waiting \/ exists response, h = Answered queue_full_status response []).
Proof.
  unfold submit_task. destruct (try_submit id (sv_executor v).1) as [[] e].
  - exists Waiting. split; [done|by left].
  - eexists. split; [|right; by eexists]. apply (moves_fail id c queue_full_status (empty_response (c_request c)) (set_executor _ v)).
Qed.

Lemma moves_conclude id c status response metadata seconds v :
  moves id (mkCall (c_request c) (c_stage c) (Refreshing status response metadata)) v (conclude id c status response metadata seconds v).
Proof.
  unfold conclude. case_bool_decide; (split; [done|]); intros Hv; [done|].
  apply (agree_failure (operation (c_request c))); [apply operation_counted|done].
Qed.

(** [submit_status] answers OK for a command that was committed only. *)
Lemma moves_settle id c r response seconds v : exists h, moves id (mkCall (c_request c) (c_stage c) h) v (settle id c r response seconds v) /\
  forall looks, (committed r = true -> answer_spec (c_request c) response looks /\ exists x, c_stage c = TaskOver x) ->
    replies_ok (c_request c) (c_stage c) h looks.
Proof.
  unfold settle. destruct (sr_status r) eqn:Er.
  - eexists. split; [apply moves_conclude|]. intros looks Hc _. apply Hc. unfold committed. by rewrite Er.
  - exists (Redirecting true response). by split.
  - eexists. split; [apply moves_conclude|]. by intros looks _ [=].
  - eexists. split; [apply moves_conclude|]. by intros looks _ [=].
  - eexists. split; [apply moves_conclude|]. by intros looks _ [=].
Qed.

Lemma count_applied_all results : forall applied last_index, Forall (fun r => committed r = true) results -> 0 <= applied ->
  applied + zlen results < 2 ^ 32 ->
  count_applied applied last_index results = (applied + zlen results, default last_index (last (map sr_log_index results))).
Proof.
  induction results as [|r results IH]; intros applied last_index Hall Hpos Hlt; cbn [count_applied].
  - f_equal. unfold zlen. simpl. lia.
  - inversion Hall as [|? ? Hr Hall']; subst. rewrite Hr. rewrite zlen_cons in Hlt. pose proof (zlen_nonneg results).
    unfold u32. rewrite Z.mod_small by lia. rewrite IH by (done || lia). rewrite zlen_cons. f_equal; [lia|].
    cbn [map]. destruct results as [|r2 results]; [done|]. cbn [map].
    change (last (sr_log_index r :: sr_log_index r2 :: map sr_log_index results)) with (last (sr_log_index r2 :: map sr_log_index results)).
    destruct (last (sr_log_index r2 :: map sr_log_index results)) eqn:El; [done|]. by apply last_None in El.
Qed.

Lemma count_applied_some results : forall applied last_index, ~ Forall (fun r => committed r = true) results -> 0 <= applied ->
  applied + zlen results < 2 ^ 32 -> (count_applied applied last_index results).1 < applied + zlen results.
Proof.
  induction results as [|r results IH]; intros applied last_index Hall Hpos Hlt; cbn [count_applied]; [by destruct Hall|].
  rewrite zlen_cons in *. pose proof (zlen_nonneg results). destruct (committed r) eqn:Er; [|simpl; lia].
  unfold u32. rewrite Z.mod_small by lia.
  assert (Hn : ~ Forall (fun r => committed r = true) results) by (intros ?; apply Hall; by constructor).
  specialize (IH (applied + 1) (sr_log_index r) Hn ltac:(lia) ltac:(lia)). lia.
Qed.

(** The handler of a call goes on. *)
Lemma inv_handler y id request stage h h' v' :
  system_inv y -> sv_calls (sy_service y) !! id = Some (mkCall request stage h) -> moves id (mkCall request stage h') (sy_service y) v' ->
  replies_ok request stage h' (looks_of id (sy_looks y)) -> system_inv (set_service v' y).
Proof. intros I Hc Hm Hr. eapply inv_moves; [done|exact Hm|]. destruct (si_call _ I _ _ Hc) as [C1 C2 C3]. by split. Qed.

Lemma sys_inv_begin y id request encoded_size deadline_expired :
  system_inv y -> sv_calls (sy_service y) !! id = None -> is_message request ->
  system_inv (set_service (begin_handler options id request encoded_size deadline_expired (sy_service y)) y).
Proof.
  intros I Hn Hmsg. assert (Hinv : forall h, replies_ok request (first_stage request) h [] ->
    call_inv (looks_of id (sy_looks y)) (mkCall request (first_stage request) h)).
  { intros h Hh. rewrite (si_none _ I id Hn). split; [constructor|done|done]. }
  set (v := record_request (operation request) (sy_service y)).
  assert (Hv : metrics_agree (sy_service y) -> metrics_agree v) by (apply agree_request, operation_counted).
  assert (Hmoves : forall h v', moves id (mkCall request (first_stage request) h) v v' -> replies_ok request (first_stage request) h [] ->
    system_inv (set_service v' y)).
  { intros h v' [M1 M2] Hh. eapply inv_moves; [done| |by apply Hinv]. split; [done|auto]. }
  set (c := mkCall request (first_stage request) Asking).
  assert (Hfail : forall status response, st_code status <> OK -> system_inv (set_service (fail_call id c status response v) y)).
  { intros status response Hst. eapply Hmoves; [apply (moves_fail id c)|]. by intros ?. }
  assert (Hsubmit : system_inv (set_service (submit_task id c v) y)).
  { destruct (moves_submit id c v) as (h & Hm & Hh). eapply Hmoves; [exact Hm|]. by destruct Hh as [->|(response & ->)]. }
  unfold begin_handler. fold v. fold c. destruct (check_request options encoded_size request) as [status|] eqn:Ec.
  - apply Hfail. unfold check_request in Ec. destruct (_ <? _); [by simplify_eq|].
    destruct request as [|key|key|entries]; [done| | |].
    + destruct (validate_key key); by simplify_eq.
    + destruct (validate_key key); by simplify_eq.
    + destruct (_ || _); [by simplify_eq|]. destruct (check_batch _ _ _); by simplify_eq.
  - destruct request; [destruct deadline_expired; [by apply Hfail|done]|by eapply Hmoves|by eapply Hmoves|done].
Qed.

Lemma inv_ask y id deadline_expired seconds leads v :
  system_inv y -> ask_leader id deadline_expired seconds leads (sy_service y) = Some v -> system_inv (set_service v y).
Proof.
  intros I Ha. unfold ask_leader in Ha. destruct (sv_calls (sy_service y) !! id) as [[request stage []]|] eqn:Ec; try done.
  injection Ha as <-. set (c := mkCall request stage Asking). destruct leads; cbn [negb].
  - destruct deadline_expired.
    + eapply inv_handler; [done|exact Ec|apply (moves_fail id c)|done].
    + destruct (moves_submit id c (sy_service y)) as (h & Hm & Hh). eapply inv_handler; [done|exact Ec|exact Hm|].
      by destruct Hh as [->|(response & ->)].
  - eapply (inv_handler y id request stage _ (Redirecting false (empty_response request))); [done|exact Ec| |exact Logic.I]. split; [done|]. intros Hv.
    apply (agree_failure (operation request)); [apply operation_counted|done].
Qed.

Lemma inv_ask_again y id leads v : system_inv y -> ask_again id leads (sy_service y) = Some v -> system_inv (set_service v y).
Proof.
  intros I Ha. unfold ask_again in Ha. destruct (sv_calls (sy_service y) !! id) as [[request stage []]|] eqn:Ec; try done.
  injection Ha as <-. eapply inv_handler; [done|exact Ec|split; [done|auto]|]. by destruct leads.
Qed.

Lemma batch_answer request results looks stage :
  is_message request -> result_spec request (BatchDone results) looks -> stage = TaskOver (BatchDone results) ->
  let size := match request with BatchPutRequest entries => u32 (zlen entries) | _ => 0 end in
  let '(applied, last_index) := count_applied 0 0 results in
  applied = size -> answer_spec request (BatchPutResponse true applied last_index no_detail) looks.
Proof.
  intros Hmsg (entries & -> & Hle & _ & Hall) Hst. cbn in Hmsg. cbv zeta. unfold u32 at 1. pose proof (zlen_nonneg entries).
  rewrite Z.mod_small by lia. assert (Hlen : zlen results <= zlen entries) by (unfold zlen; lia). pose proof (zlen_nonneg results).
  destruct (decide (Forall (fun r => committed r = true) results)) as [Hc|Hc].
  - destruct (Hall Hc) as (parts & -> & H3'). pose proof (Forall3_length_lm _ _ _ _ H3') as Hl. rewrite length_map in Hl.
    rewrite count_applied_all by (done || lia). intros Heq. exists (map sr_log_index results), parts. split_and!; [done..|].
    f_equal. unfold u32. rewrite Z.mod_small by lia. lia.
  - pose proof (count_applied_some results 0 0 Hc ltac:(lia) ltac:(lia)) as Hlt. destruct (count_applied 0 0 results) as [applied last_index].
    simpl in Hlt. lia.
Qed.

Lemma inv_end_wait y id ready seconds v : system_inv y -> end_wait id ready seconds (sy_service y) = Some v -> system_inv (set_service v y).
Proof.
  intros I Ha. unfold end_wait in Ha. destruct (sv_calls (sy_service y) !! id) as [[request stage []]|] eqn:Ec; try done.
  destruct (si_call _ I _ _ Ec) as [C1 C2 _]. cbn [c_request c_stage] in C1, C2. pose proof (task_looks_spec _ _ _ C1) as Hs.
  set (c := mkCall request stage Waiting) in Ha. set (looks := looks_of id (sy_looks y)) in *.
  assert (Hfail : forall status response, st_code status <> OK -> system_inv (set_service (fail_call id c status response (sy_service y)) y)).
  { intros status response Hst. eapply inv_handler; [done|exact Ec|apply (moves_fail id c)|]. by intros ?. }
  assert (Hconclude : forall response, answer_spec request response looks -> (exists r, stage = TaskOver r) ->
    system_inv (set_service (conclude id c ok_status response [] seconds (sy_service y)) y)).
  { intros response Hans Hover. eapply inv_handler; [done|exact Ec|apply (moves_conclude id c)|]. by intros _. }
  assert (Hsettle : forall r response, (committed r = true -> answer_spec request response looks) -> (exists x, stage = TaskOver x) ->
    system_inv (set_service (settle id c r response seconds (sy_service y)) y)).
  { intros r response Hans Hover. destruct (moves_settle id c r response seconds (sy_service y)) as (h & Hm & Hh).
    eapply inv_handler; [done|exact Ec|exact Hm|]. apply Hh. intros Hc. split; [by apply Hans|done]. }
  assert (Hagain : system_inv (set_service (set_call id (mkCall request stage AskingAgain)
    (record_latency (operation request) seconds (record_failure (operation request) (sy_service y)))) y)).
  { eapply (inv_handler y id request stage _ AskingAgain); [done|exact Ec| |exact Logic.I]. split; [done|]. intros Hv.
    apply (agree_failure (operation request)); [apply operation_counted|done]. }
  destruct ready; cbn [negb] in Ha; [|injection Ha as <-; by apply Hfail].
  destruct stage as [| | | |[r|value error confirmed|r existed error confirmed|results|e]]; try done; cbn [stage_spec result_spec] in Hs.
  - destruct Hs as (key & value & -> & Hr). injection Ha as <-. apply Hsettle; [|by eexists]. intros Hc. exists (sr_log_index r).
    split; [by apply Hr|]. by rewrite Hc.
  - destruct Hs as (key & -> & Hr). injection Ha as <-. destruct confirmed; cbn [negb]; [|done]. case_bool_decide as He; cbn [negb]; [|by apply Hfail].
    apply Hconclude; [|by eexists]. exists value. split; [by apply Hr|done].
  - destruct Hs as (key & -> & Hr). injection Ha as <-. destruct confirmed; cbn [negb]; [|done]. case_bool_decide as He; cbn [negb]; [|by apply Hfail].
    apply Hsettle; [|by eexists]. intros Hc. destruct (Hr Hc) as (value & l1 & l2 & -> & R1 & -> & R2).
    exists value, (sr_log_index r), l1, l2. split_and!; [done..|]. by rewrite Hc.
  - pose proof (batch_answer _ _ _ _ C2 Hs eq_refl) as Hb. cbv zeta in Hb.
    destruct Hs as (entries & -> & Hle & Hlast & Hall). destruct (count_applied 0 0 results) as [applied last_index] eqn:En. injection Ha as <-.
    destruct (applied =? u32 (zlen entries)) eqn:Es; zbool.
    + apply Hconclude; [by apply Hb|by eexists].
    + apply Hsettle; [|by eexists]. intros Hc. exfalso. apply Es. destruct (last results) as [r|] eqn:El; [|done].
      specialize (Hlast r eq_refl Hc). destruct (Hall Hlast) as (parts & _ & H3'). pose proof (Forall3_length_lm _ _ _ _ H3') as Hl.
      rewrite length_map in Hl. cbn in C2. pose proof (zlen_nonneg results).
      assert (Hz : zlen results = zlen entries) by (unfold zlen; lia). rewrite count_applied_all in En by (done || lia).
      injection En as <- _. unfold u32. rewrite Z.mod_small by lia. lia.
  - injection Ha as <-. eapply inv_handler; [done|exact Ec|split; [done|auto]|done].
Qed.

Lemma inv_look_status y id s v : system_inv y -> look_status id s (sy_service y) = Some v -> system_inv (set_service v y).
Proof.
  intros I Ha. unfold look_status in Ha. destruct (sv_calls (sy_service y) !! id) as [[request stage []]|] eqn:Ec; try done.
  injection Ha as <-. eapply inv_handler; [done|exact Ec|split; [done|auto]|done].
Qed.

Lemma inv_look_address y id address timestamp seconds v :
  system_inv y -> look_address options id address timestamp seconds (sy_service y) = Some v -> system_inv (set_service v y).
Proof.
  intros I Ha. unfold look_address in Ha. destruct (sv_calls (sy_service y) !! id) as [[request stage []]|] eqn:Ec; try done.
  injection Ha as <-. set (text := log _ _ _ _).
  set (v1 := on_log text (on_metrics _ _)).
  assert (Hv : metrics_agree (sy_service y) -> metrics_agree v1).
  { intros Hm. unfold metrics_agree, service_statistics, v1, on_log, on_metrics in *. injection Hm as M1 M2 M3.
    cbn [sv_metrics sv_requests_total sv_failed_requests_total sv_redirects_total]. rewrite !counter_increment, M1, M2, M3. reflexivity. }
  destruct settling.
  - match goal with |- system_inv (set_service (conclude ?i ?c ?st ?r ?md ?sec ?w) _) => destruct (moves_conclude i c st r md sec w) as [M1 M2] end.
    eapply inv_handler; [done|exact Ec|split; [exact M1|auto]|]. by intros ?.
  - eapply inv_handler; [done|exact Ec|split; [done|exact Hv]|]. by intros ?.
Qed.

Lemma inv_refresh y id s v : system_inv y -> refresh id s (sy_service y) = Some v -> system_inv (set_service v y).
Proof.
  intros I Ha. unfold refresh in Ha. destruct (sv_calls (sy_service y) !! id) as [[request stage []]|] eqn:Ec; try done.
  injection Ha as <-. destruct (si_call _ I _ _ Ec) as [_ _ C3]. cbn in C3.
  eapply inv_handler; [done|exact Ec|split; [done|auto]|]. exact C3.
Qed.

Lemma sys_inv_status y deadline_expired s : system_inv y -> system_inv (set_service (status_handler deadline_expired s (sy_service y)).2 y).
Proof.
  intros [I1 I2 I3]. assert (Hc : bytes_of "status" ∈ counted_names) by (apply (bool_decide_unpack _); vm_compute; exact Logic.I).
  unfold status_handler. split; destruct deadline_expired; try done; cbn [fst snd set_service sy_service].
  - by apply agree_failure, agree_request.
  - by apply (agree_request (bytes_of "status") (sy_service y)).
Qed.

Lemma sys_inv_executor y x : system_inv y -> system_inv (set_service (set_executor x (sy_service y)) y).
Proof. by intros [I1 I2 I3]. Qed.

Lemma inv_cluster y c : system_inv y -> system_inv (set_cluster c y).
Proof. by intros [I1 I2 I3]. Qed.

Lemma inv_task y id late contacted_quorum y' : system_inv y -> task_look me id late contacted_quorum y = Some y' -> system_inv y'.
Proof.
  intros I Ha. unfold task_look in Ha. destruct (sv_calls (sy_service y) !! id) as [[request stage h]|] eqn:Ec; [|done].
  destruct (node_of me y) as [n|]; [|done]. destruct (_ && _); [|done].
  destruct (task_step request late contacted_quorum stage n) as [[stage' n']|] eqn:Et; [|done]. injection Ha as <-.
  destruct I as [I1 I2 I3]. split; cbn [sy_service sy_looks looked set_submitter set_call sv_calls].
  - intros id' c [[<- <-]|[Hne Hl]]%lookup_insert_Some; cbn [looks_of].
    + rewrite Nat.eqb_refl. destruct (I1 _ _ Ec) as [C1 C2 C3]. cbn [c_request c_stage c_handler] in *. split; cbn [c_request c_stage c_handler].
      * by eapply run_look.
      * done.
      * destruct h; try done; (intros Hst; destruct (C3 Hst) as [_ [r ->]]; done).
    + rewrite (proj2 (Nat.eqb_neq id id') Hne), app_nil_r. by apply I1.
  - intros id' [Hl Hne]%lookup_insert_None. cbn [looks_of]. rewrite (proj2 (Nat.eqb_neq id id') Hne), app_nil_r. by apply I2.
  - done.
Qed.

Lemma inv_system_step y y' : system_inv y -> system_step options me y y' -> system_inv y'.
Proof.
  intros I Hs. destruct Hs.
  - by apply sys_inv_begin.
  - by apply sys_inv_status.
  - by eapply inv_ask.
  - by eapply inv_ask_again.
  - by eapply inv_end_wait.
  - by eapply inv_look_status.
  - by eapply inv_look_address.
  - by eapply inv_refresh.
  - by eapply inv_task.
  - by apply sys_inv_executor.
  - by apply sys_inv_executor.
  - by apply sys_inv_executor.
  - by apply inv_cluster.
  - by apply inv_cluster.
  - by apply inv_cluster.
  - by apply inv_cluster.
Qed.

Lemma inv_system e c y : rtc (system_step options me) (initial_system e c) y -> system_inv y.
Proof.
  intros Hr. assert (I : system_inv (initial_system e c : Sys)) by (split; [by intros id x Hx|done|done]).
  revert I. generalize dependent (initial_system e c : Sys). intros y0 Hr. induction Hr as [y|y y1 y2 Hs _ IH]; [done|].
  intros I. apply IH. by eapply inv_system_step.
Qed.

End invariant.

(** ** A write that is acknowledged and lost *)

(** The entries applied, read as a map. *)
Definition recorded (key : str) (m : Recorder) : option str :=
  foldl (fun found e => if str_eqb (c_key (le_command e)) key then
                          match c_type (le_command e) with Put => Some (c_value (le_command e)) | Delete => None | Noop => found end
                        else found) None m.

#[export] Program Instance Recorder_readable : ReadableMachine Recorder := {|
  sm_get := fun key m => Ok (recorded key m);
  sm_size := fun m => zlen m
|}.
Next Obligation. done. Qed.

(** Seconds are counted whole. *)
#[local] Instance whole_seconds : Double Z := {|
  d_zero := 0; d_add := Z.add; d_sub := Z.sub; d_mul := Z.mul; d_of_Z := id; d_floor := id; d_ceil := id; d_ltb := Z.ltb; d_show := digits 20
|}.

Abbreviation DemoSystem := (System RaftStorage Recorder Z).

Definition demo_options : ClusterServiceOptions := mkClusterServiceOptions (bytes_of "host:1") 1000 10 1000.

(** Node 1 leads in term 1... *)
Definition leader_moves : list DemoMove := [Start n1; Start n2; Start n3] ++ elect n1 n2.
(** ... node 2 is elected in term 2 by node 3, commits a command of its own
    with it, and then brings node 1 up to date. *)
Definition takeover_moves : list DemoMove :=
  elect n2 n3 ++ put n2 "2" ++ replicate n2 n3 false ++ [Act (fun _ => Some (FinishReplication n2 2))] ++ replicate n2 n1 false.

Definition up_node (id : NodeId) (c : Cluster RaftStorage Recorder) : option (RaftNode RaftStorage Recorder) :=
  match cl_processes c !! id with Some (Up n) => Some n | _ => None end.

(** All nodes run, and none has the command in its log or on its disk. *)
Definition without (command : Command) (n : RaftNode RaftStorage Recorder) : bool :=
  let missing l := forallb (fun e => negb (bool_decide (le_command e = command))) l in
  missing (log_ n) && match st_load (storage_ n) with Ok p => missing (pst_log p) | Throw _ => false end.
Definition nowhere (command : Command) (c : Cluster RaftStorage Recorder) : bool :=
  forallb (fun p => match p.2 with Up n => without command n | Down _ _ => false end) (map_to_list (cl_processes c)).

(** The command is appended by node 1 before the takeover, and looked at
    after it. *)
Definition demo_lost : option (Z * SubmitResult * bool * bool) :=
  c1 ← play [] leader_moves demo_cluster;
  n ← up_node n1 c1;
  match submit_append (demo_put "1") n with
  | (Ok (inr entry), n') =>
      c2 ← play [] takeover_moves (set_process n1 (Up n') c1);
      m ← up_node n1 c2;
      r ← submit_check entry m;
      Some (le_index entry, r, nowhere (demo_put "1") c2, forallb (fun id => bool_decide (is_Some (up_node id c2))) [n1; n2; n3])
  | _ => None
  end.

Lemma demo_lost_value : demo_lost = Some (2, mkSubmitResult Committed 2 1 n1 "", true, true).
Proof. vm_compute. reflexivity. Qed.

Definition acts (m : DemoMove) : bool := match m with Start _ => false | Act _ => true end.

(** The cluster moves on under the service. *)
Lemma play_system moves : forall (y : DemoSystem) c',
  forallb acts moves = true -> play [] moves (sy_cluster y) = Some c' ->
  rtc (system_step demo_options n1) y (set_cluster c' y).
Proof.
  induction moves as [|m moves IH]; intros y c' Ha Hp; cbn [play] in Hp.
  - injection Hp as <-. destruct y. apply rtc_refl.
  - apply bind_Some in Hp as (c1 & Hm & Hp). cbn [forallb] in Ha. apply andb_true_iff in Ha as [Ha Hrest]. destruct m as [|choose]; [done|].
    cbn [move] in Hm. apply bind_Some in Hm as (a & _ & Hm). eapply rtc_l; [by eapply sys_perform|].
    specialize (IH (set_cluster c1 y) c' Hrest Hp). exact IH.
Qed.

Definition demo_request : Request := PutRequest (bytes_of "x") (bytes_of "1").

Lemma up_node_process id c n : up_node id c = Some n -> cl_processes c !! id = Some (Up n).
Proof. unfold up_node. destruct (cl_processes c !! id) as [[m|]|]; [|done..]. by intros [= <-]. Qed.

Lemma task_look_eq id late contacted_quorum (y : DemoSystem) request stage handler n stage' n' :
  sv_calls (sy_service y) !! id = Some (mkCall request stage handler) -> cl_processes (sy_cluster y) !! n1 = Some (Up n) ->
  runs id (sv_executor (sy_service y)).1 && may_submit stage (sy_service y) = true ->
  task_step request late contacted_quorum stage n = Some (stage', n') ->
  task_look n1 id late contacted_quorum y =
    Some (looked n1 id n n' (set_submitter (next_submitter id stage stage' (sv_submitter (sy_service y)))
                               (set_call id (mkCall request stage' handler) (sy_service y))) y).
Proof. intros Hc Hn Hr Hs. unfold task_look, node_of. by rewrite Hc, Hn, Hr, Hs. Qed.

Lemma submit_step request late contacted_quorum existed results command rest (n : RaftNode RaftStorage Recorder) entry n' :
  submit_append command n = (Ok (inr entry), n') ->
  task_step request late contacted_quorum (Submitting existed results command rest) n = Some (Awaiting existed results entry rest, n').
Proof. intros E. cbn [task_step]. by rewrite E. Qed.

Lemma await_step request contacted_quorum existed results entry rest (n : RaftNode RaftStorage Recorder) r :
  submit_check entry n = Some r ->
  task_step request false contacted_quorum (Awaiting existed results entry rest) n = Some (submitted request existed results rest r, n).
Proof. intros E. cbn [task_step]. by rewrite E. Qed.

(** The request arrives and a worker takes its task. *)
Lemma demo_arrives c1 : exists y : DemoSystem, rtc (system_step demo_options n1) (initial_system demo_server c1) y /\ sy_cluster y = c1 /\
  sv_calls (sy_service y) !! 0%nat = Some (mkCall demo_request (first_stage demo_request) Waiting) /\
  runs 0 (sv_executor (sy_service y)).1 = true /\ sv_submitter (sy_service y) = None.
Proof.
  eexists. split; [|split_and!].
  - eapply rtc_l; [apply (sys_begin _ _ 0 demo_request 60 false); [reflexivity|exact I]|].
    eapply rtc_l; [eapply sys_executor; [apply inner_worker; eapply (step_take 0); reflexivity|exact I]|]. apply rtc_refl.
  - reflexivity.
  - reflexivity.
  - reflexivity.
  - reflexivity.
Qed.

(** A committed put is answered. *)
Lemma put_answered (y : DemoSystem) id key value r n :
  sv_calls (sy_service y) !! id = Some (mkCall (PutRequest key value) (TaskOver (PutDone r)) Waiting) -> sr_status r = Committed ->
  cl_processes (sy_cluster y) !! n1 = Some (Up n) ->
  exists y', rtc (system_step demo_options n1) y y' /\ sy_cluster y' = sy_cluster y /\
    sv_calls (sy_service y') !! id =
      Some (mkCall (PutRequest key value) (TaskOver (PutDone r)) (Answered ok_status (PutResponse true (sr_log_index r) no_detail) [])).
Proof.
  intros Hc Hr Hn. assert (Hcom : committed r = true) by (unfold committed; by rewrite Hr).
  set (c := mkCall (PutRequest key value) (TaskOver (PutDone r)) Waiting).
  set (v1 := conclude id c ok_status (PutResponse true (sr_log_index r) no_detail) [] 1 (sy_service y)).
  assert (E1 : end_wait id true 1 (sy_service y) = Some v1) by (unfold end_wait; rewrite Hc; cbn [negb]; unfold settle; by rewrite Hr, Hcom).
  destruct (moves_conclude id c ok_status (PutResponse true (sr_log_index r) no_detail) [] 1 (sy_service y)) as [Hv1 _]. fold v1 in Hv1.
  assert (Hl : sv_calls v1 !! id = Some (mkCall (PutRequest key value) (TaskOver (PutDone r)) (Refreshing ok_status (PutResponse true (sr_log_index r) no_detail) [])))
    by (rewrite Hv1; apply lookup_insert_eq).
  clearbody v1. eexists. split; [|split].
  - eapply rtc_l; [eapply (sys_end_wait _ _ id true 1); exact E1|].
    eapply rtc_l; [eapply (sys_refresh _ _ id n)|apply rtc_refl].
    + unfold node_of. cbn [sy_cluster set_service]. by rewrite Hn.
    + unfold refresh. cbn [sy_service set_service]. rewrite Hl. reflexivity.
  - reflexivity.
  - cbn [sy_service set_service set_call sv_calls]. apply lookup_insert_eq.
Qed.

(** The request, from its arrival to its answer, with the takeover in
    between. *)
Lemma demo_acknowledged :
  exists c1 (y : DemoSystem) stage, steps demo_cluster c1 /\ rtc (system_step demo_options n1) (initial_system demo_server c1) y /\
    sv_calls (sy_service y) !! 0%nat = Some (mkCall demo_request stage (Answered ok_status (PutResponse true 2 no_detail) [])) /\
    nowhere (demo_put "1") (sy_cluster y) = true /\ forallb (fun id => bool_decide (is_Some (up_node id (sy_cluster y)))) [n1; n2; n3] = true.
Proof.
  pose proof demo_lost_value as H. unfold demo_lost in H. apply bind_Some in H as (c1 & E1 & H). apply bind_Some in H as (n & E2 & H).
  destruct (submit_append (demo_put "1") n) as [[[r|entry]|e] n'] eqn:E3; [discriminate| |discriminate].
  apply bind_Some in H as (c2 & E4 & H). apply bind_Some in H as (m & E5 & H). apply bind_Some in H as (r & E6 & H).
  injection H as Hi Hr Hn Hu. apply play_steps in E1. apply up_node_process in E2, E5. exists c1.
  destruct (demo_arrives c1) as (y1 & R1 & C1 & S1 & W1 & M1). rewrite <- C1 in E2.
  assert (Hw : runs 0 (sv_executor (sy_service y1)).1 && may_submit (first_stage demo_request) (sy_service y1) = true).
  { rewrite W1. cbn [andb]. unfold may_submit, first_stage, demo_request. by rewrite M1. }
  pose proof (task_look_eq 0 false true y1 _ _ _ _ _ _ S1 E2 Hw (submit_step demo_request false true false [] _ [] n entry n' E3)) as T1.
  match type of T1 with _ = Some ?x => set (y2 := x) in T1 end.
  assert (S2 : sv_calls (sy_service y2) !! 0%nat = Some (mkCall demo_request (Awaiting false [] entry []) Waiting)) by apply lookup_insert_eq.
  assert (W2 : runs 0 (sv_executor (sy_service y2)).1 && true = true) by (rewrite andb_true_r; exact W1).
  assert (C2 : sy_cluster y2 = set_process n1 (Up n') c1) by (rewrite <- C1; reflexivity). clearbody y2. rewrite <- C2 in E4.
  pose proof (play_system takeover_moves y2 c2 eq_refl E4) as R2.
  pose proof (task_look_eq 0 false true (set_cluster c2 y2) _ _ _ _ _ _ S2 E5 W2 (await_step demo_request true false [] entry [] m r E6)) as T2.
  match type of T2 with _ = Some ?x => set (y3 := x) in T2 end.
  assert (S3 : sv_calls (sy_service y3) !! 0%nat = Some (mkCall demo_request (TaskOver (PutDone r)) Waiting)) by apply lookup_insert_eq.
  assert (C3 : sy_cluster y3 = c2) by (unfold y3, looked; cbn [sy_cluster]; destruct c2; unfold set_process; cbn in *; by rewrite insert_id).
  clearbody y3. rewrite <- C3 in E5. destruct (put_answered y3 0 _ _ r m S3 ltac:(by rewrite Hr) E5) as (y4 & R4 & C4 & S4).
  exists y4, (TaskOver (PutDone r)). rewrite C4, C3. split_and!; [done| |by rewrite S4, Hr|done|done].
  etrans; [exact R1|]. eapply rtc_l; [by eapply sys_task|]. etrans; [exact R2|]. eapply rtc_l; [by eapply sys_task|]. exact R4.
Qed.

(** C31: an acknowledged write can be lost.  [submit] looks at the commit index
    before it looks at the role and the term, so that an entry of a new leader
    that is committed at the index of its own is taken for it.  There is a run
    of three nodes, without crashes and failed system calls, in which the
    leader's service answers a put with success, while every node runs and
    none has the command in its log or on its disk. *)
Theorem acknowledged_write_lost :
  initial [n1; n2; n3] demo_cluster /\
  exists c1 (y : DemoSystem) stage, steps demo_cluster c1 /\ rtc (system_step demo_options n1) (initial_system demo_server c1) y /\
    sv_calls (sy_service y) !! 0%nat =
      Some (mkCall (PutRequest (bytes_of "x") (bytes_of "1")) stage (Answered ok_status (PutResponse true 2 no_detail) [])) /\
    forall id, id ∈ [n1; n2; n3] -> exists n p, cl_processes (sy_cluster y) !! id = Some (Up n) /\ st_load (storage_ n) = Ok p /\
      forall e, e ∈ log_ n ++ pst_log p -> le_command e <> put_command (bytes_of "x", bytes_of "1").
Proof.
  split; [apply demo_initial|]. destruct demo_acknowledged as (c1 & y & stage & Hs & Hr & Hc & Hn & Hu).
  exists c1, y, stage. split_and!; [done..|]. intros id Hid. rewrite forallb_forall in Hu. specialize (Hu id (proj1 (list_elem_of_In _ _) Hid)).
  apply bool_decide_eq_true in Hu as [n Hup%up_node_process]. unfold nowhere in Hn. rewrite forallb_forall in Hn.
  specialize (Hn (id, Up n)). rewrite <- list_elem_of_In, elem_of_map_to_list in Hn. specialize (Hn Hup). cbn in Hn. unfold without in Hn.
  apply andb_true_iff in Hn as [Hl Hd]. destruct (st_load (storage_ n)) as [p|] eqn:Ep; [|done]. exists n, p. split_and!; [done..|].
  intros e [He|He]%elem_of_app Heq.
  - rewrite forallb_forall in Hl. specialize (Hl e (proj1 (list_elem_of_In _ _) He)). by apply negb_true_iff, bool_decide_eq_false in Hl.
  - rewrite forallb_forall in Hd. specialize (Hd e (proj1 (list_elem_of_In _ _) He)). by apply negb_true_iff, bool_decide_eq_false in Hd.
Qed.

(** ** Witness *)

