(* ===== verification/ClusterClient.v ===== *)
(** * The client of a cluster

    include/nebulakv/distributed/cluster_client.hpp and
    src/distributed/cluster_client.cpp: a client that sends a request to the
    member it takes for the leader and follows the redirects of the answers.
    The servers and gRPC are a parameter: what the call of a stub with a given
    address answers, and what happens to the state of the world in it, the
    current address of the client included, which other threads may change. *)

From S2P Require Import Prelude OrderedMap Store GrpcService Observability ClusterService.

(** ** Definitions *)

Record ClusterClientOptions := mkClusterClientOptions {
  cc_seed_addresses : list str;
  cc_timeout : Z;
  cc_max_message_bytes : Z;
  cc_max_redirects : Z
}.

Record ClusterClient := mkClusterClient { cl_options_ : ClusterClientOptions; current_address_ : str }.

Definition checked_client_message_size (bytes : Z) : result Z :=
  _ ← throw_if ((bytes =? 0) || (2 ^ 31 - 1 <? bytes)) (InvalidArgument "maximum client message size is invalid");
  mret bytes.

Definition new_cluster_client (o : ClusterClientOptions) : result ClusterClient :=
  _ ← throw_if (is_nil (cc_seed_addresses o)) (InvalidArgument "at least one cluster seed address is required");
  _ ← throw_if (existsb is_nil (cc_seed_addresses o)) (InvalidArgument "cluster seed address must not be empty");
  _ ← throw_if (cc_timeout o <=? 0) (InvalidArgument "cluster client timeout must be positive");
  _ ← checked_client_message_size (cc_max_message_bytes o);
  mret (mkClusterClient o (default [] (head (cc_seed_addresses o)))).

(** The trailing metadata is a multimap; [find] returns an element with the
    key. *)
Fixpoint find_metadata (key : str) (metadata : Metadata) : option str :=
  match metadata with
  | [] => None
  | (k, v) :: rest => if str_eqb k key then Some v else find_metadata key rest
  end.

Definition leader_from_metadata (metadata : Metadata) : str := default [] (find_metadata (bytes_of "nebulakv-leader-address") metadata).

(** The client and the rest of the world. *)
Record World (W : Type) := mkWorld { w_client : ClusterClient; w_rest : W }.
Arguments mkWorld {W}.
Arguments w_client {W}.
Arguments w_rest {W}.

Section client.
Context {W R : Type}.
(** The call of a stub with an address; the response is cleared before it. *)
Context (invocation : str -> World W -> (Status * R * Metadata) * World W).

Definition set_current (address : str) (w : World W) : World W :=
  mkWorld (mkClusterClient (cl_options_ (w_client w)) address) (w_rest w).

(** The loop of [invoke_with_redirect]: [turns] more attempts are allowed;
    [last] is the answer so far. *)
Fixpoint redirect_loop (turns : nat) (last : Status * R) (w : World W) : (Status * R) * World W :=
  match turns with
  | O => (last, w)
  | S turns =>
      let address := current_address_ (w_client w) in
      let '(status, response, metadata, w) := invocation address w in
      if bool_decide (st_code status <> FAILED_PRECONDITION) then ((status, response), w)
      else
        let leader := leader_from_metadata metadata in
        if is_nil leader || str_eqb leader address then ((status, response), w)
        else redirect_loop turns (status, response) (set_current leader w)
  end.

Definition no_endpoint : Status := mkStatus UNAVAILABLE "no cluster endpoint was attempted".

(** [attempt <= max_redirects] allows one attempt more than there are
    redirects. *)
Definition invoke_with_redirect (response : R) (w : World W) : (Status * R) * World W :=
  redirect_loop (S (Z.to_nat (cc_max_redirects (cl_options_ (w_client w))))) (no_endpoint, response) w.
End client.

Definition current_address (c : ClusterClient) : str := current_address_ c.

(** ** The calls *)

Section calls.
Context {W : Type}.
(** A request sent to an address. *)
Context (rpc : Request -> str -> World W -> (Status * Response * Metadata) * World W).

Definition client_put (key value : str) : World W -> (Status * Response) * World W :=
  invoke_with_redirect (rpc (PutRequest key value)) (empty_response (PutRequest key value)).
Definition client_get (key : str) : World W -> (Status * Response) * World W :=
  invoke_with_redirect (rpc (GetRequest key)) (empty_response (GetRequest key)).
Definition client_remove (key : str) : World W -> (Status * Response) * World W :=
  invoke_with_redirect (rpc (DeleteRequest key)) (empty_response (DeleteRequest key)).
Definition client_batch_put (entries : list (str * str)) : World W -> (Status * Response) * World W :=
  invoke_with_redirect (rpc (BatchPutRequest entries)) (empty_response (BatchPutRequest entries)).
End calls.

(** ** Redirects *)

(** What [not_leader] of the service sends is what the client reads. *)
Lemma redirect_metadata_read leader_id leader_address :
  leader_from_metadata
    ((if is_nil leader_id then [] else [(bytes_of "nebulakv-leader-id", leader_id)]) ++
     (if is_nil leader_address then [] else [(bytes_of "nebulakv-leader-address", leader_address)])) = leader_address.
Proof. unfold leader_from_metadata. by destruct leader_id, leader_address. Qed.

Section redirects.
Context {W R : Type}.
Context (invocation : str -> World W -> (Status * R * Metadata) * World W).

(** The attempts of the loop: the address asked, and what it answered. *)
Fixpoint attempts (turns : nat) (w : World W) : list (str * (Status * R * Metadata)) :=
  match turns with
  | O => []
  | S turns =>
      let address := current_address_ (w_client w) in
      let '(status, response, metadata, w) := invocation address w in
      (address, (status, response, metadata)) ::
      (if bool_decide (st_code status <> FAILED_PRECONDITION) then []
       else
         let leader := leader_from_metadata metadata in
         if is_nil leader || str_eqb leader address then [] else attempts turns (set_current leader w))
  end.

(** An answer that is followed by another attempt. *)
Definition followed (x : str * (Status * R * Metadata)) : Prop :=
  st_code x.2.1.1 = FAILED_PRECONDITION /\ leader_from_metadata x.2.2 <> [] /\ leader_from_metadata x.2.2 <> x.1.

Lemma loop_attempts turns : forall sofar w,
  (length (attempts turns w) <= turns)%nat /\
  (turns <> O -> attempts turns w <> []) /\
  (redirect_loop invocation turns sofar w).1 = default sofar ((fun x => x.2.1) <$> last (attempts turns w)) /\
  Forall followed (removelast (attempts turns w)).
Proof.
  induction turns as [|turns IH]; intros lst w; [by split_and!|]. cbn [attempts redirect_loop].
  destruct (invocation (current_address_ (w_client w)) w) as [[[status response] metadata] w1].
  case_bool_decide as Hst; [split_and!; [simpl; lia|done|done|by constructor]|].
  destruct (is_nil (leader_from_metadata metadata) || str_eqb (leader_from_metadata metadata) (current_address_ (w_client w))) eqn:El;
    [split_and!; [simpl; lia|done|done|by constructor]|].
  destruct (IH (status, response) (set_current (leader_from_metadata metadata) w1)) as (I1 & I2 & I3 & I4).
  set (rest := attempts turns _) in *. split_and!; [simpl; lia|done| |].
  - rewrite I3. destruct rest as [|x rest]; [done|]. change (last (_ :: x :: rest)) with (last (x :: rest)).
    destruct (last (x :: rest)) eqn:E; [done|]. by apply last_None in E.
  - destruct rest as [|x rest]; [by constructor|]. change (removelast (?y :: x :: rest)) with (y :: removelast (x :: rest)).
    constructor; [|done]. apply orb_false_iff in El as [El1 El2]. split_and!; [by destruct (decide (st_code status = FAILED_PRECONDITION)); [|destruct Hst]| |].
    + cbn [fst snd]. intros E. by rewrite E in El1.
    + cbn [fst snd]. by apply str_eqb_neq.
Qed.

(** *** A cluster whose members agree on the leader *)

(** Where the members send the client: [None] at the leader. *)
Context (next : str -> option str).

(** [next] is what the servers answer; asking them does not change it, and no
    other thread uses the client. *)
Hypothesis Hfollower : forall address b w, next address = Some b -> exists response metadata w1,
  invocation address w = ((redirect_status, response, metadata), w1) /\ leader_from_metadata metadata = b /\ w_client w1 = w_client w.
Hypothesis Hleader : forall address w, next address = None -> exists status response metadata w1,
  invocation address w = ((status, response, metadata), w1) /\ st_code status <> FAILED_PRECONDITION /\ w_client w1 = w_client w.
Hypothesis Hnext : forall address b, next address = Some b -> b <> [] /\ b <> address.

(** [k] redirects lead from one address to another. *)
Inductive leads_to : nat -> str -> str -> Prop :=
| leads_here a : leads_to 0 a a
| leads_on k a b c : next a = Some b -> leads_to k b c -> leads_to (S k) a c.

Lemma loop_leads k a l : leads_to k a l -> next l = None -> forall turns sofar w,
  (k < turns)%nat -> current_address_ (w_client w) = a ->
  exists w0 status response metadata w1, invocation l w0 = ((status, response, metadata), w1) /\ st_code status <> FAILED_PRECONDITION /\
    redirect_loop invocation turns sofar w = ((status, response), w1) /\ current_address_ (w_client w1) = l.
Proof.
  induction 1 as [a|k a b l Hab Hl IH]; intros Hend turns sofar w Hk Ha; (destruct turns as [|turns]; [lia|]); cbn [redirect_loop]; rewrite Ha.
  - destruct (Hleader a w Hend) as (status & response & metadata & w1 & E & Hst & Hc). exists w, status, response, metadata, w1.
    rewrite E. rewrite bool_decide_eq_true_2 by done. split_and!; [done..|by rewrite Hc].
  - destruct (Hfollower a b w Hab) as (response & metadata & w1 & E & Hm & Hc). destruct (Hnext a b Hab) as [Hb1 Hb2]. rewrite E.
    rewrite bool_decide_eq_false_2 by (intros Hne; by apply Hne). rewrite Hm.
    assert (is_nil b || str_eqb b a = false) as -> by (apply orb_false_iff; split; [by destruct b|by apply str_eqb_neq]).
    apply (IH Hend turns (redirect_status, response) (set_current b w1)); [lia|done].
Qed.
End redirects.

(** C19: the client ends, and finds the leader.  A call makes at least one
    attempt and at most one more than there are redirects allowed, whatever
    the servers answer and whatever other threads do to the client; it
    returns what the last member it asked answered, and it asked another one
    only when a member had sent it on to a different address.  When following
    the members' redirects from the current address leads to the leader within
    the redirects allowed, the call returns what the leader answered, and
    the next call starts there. *)
Theorem client_follows_redirects {W R} (invocation : str -> World W -> (Status * R * Metadata) * World W) (response : R) (w : World W) :
  let turns := S (Z.to_nat (cc_max_redirects (cl_options_ (w_client w)))) in
  (exists before address status answer metadata, attempts invocation turns w = before ++ [(address, (status, answer, metadata))] /\
     (length before <= Z.to_nat (cc_max_redirects (cl_options_ (w_client w))))%nat /\ Forall followed before /\
     (invoke_with_redirect invocation response w).1 = (status, answer)) /\
  (forall next k leader,
     (forall address b w0, next address = Some b -> exists r metadata w1, invocation address w0 = ((redirect_status, r, metadata), w1) /\
        leader_from_metadata metadata = b /\ w_client w1 = w_client w0) ->
     (forall address w0, next address = None -> exists status r metadata w1, invocation address w0 = ((status, r, metadata), w1) /\
        st_code status <> FAILED_PRECONDITION /\ w_client w1 = w_client w0) ->
     (forall address b, next address = Some b -> b <> [] /\ b <> address) ->
     leads_to next k (current_address_ (w_client w)) leader -> next leader = None ->
     Z.of_nat k <= cc_max_redirects (cl_options_ (w_client w)) ->
     exists w0 status r metadata w1, invocation leader w0 = ((status, r, metadata), w1) /\ st_code status <> FAILED_PRECONDITION /\
       invoke_with_redirect invocation response w = ((status, r), w1) /\ current_address (w_client w1) = leader).
Proof.
  intros turns. split.
  - destruct (loop_attempts invocation turns (no_endpoint, response) w) as (A1 & A2 & A3 & A4).
    destruct (attempts invocation turns w) as [|x l _] eqn:E using rev_ind; [by destruct A2|]. destruct x as [address [[status answer] metadata]].
    exists l, address, status, answer, metadata. rewrite removelast_last in A4. rewrite last_snoc in A3. rewrite length_app in A1. simpl in A1.
    split_and!; [done|unfold turns in A1; lia|done|exact A3].
  - intros next k leader Hf Hl Hn Hk Hend Hle. unfold invoke_with_redirect.
    by apply (loop_leads invocation next Hf Hl Hn k (current_address_ (w_client w)) leader Hk Hend); [lia|].
Qed.

(** ** Witness *)

(** Three members, of which the third leads; the first has an old view. *)
Definition demo_next (address : str) : option str :=
  if str_eqb address (bytes_of "a") then Some (bytes_of "b") else if str_eqb address (bytes_of "b") then Some (bytes_of "c") else None.

Definition demo_invocation (address : str) (w : World Z) : (Status * Z * Metadata) * World Z :=
  match demo_next address with
  | Some b => ((redirect_status, 0, [(bytes_of "nebulakv-leader-address", b)]), w)
  | None => ((ok_status, w_rest w, []), w)
  end.

Definition demo_client : World Z := mkWorld (mkClusterClient (mkClusterClientOptions [bytes_of "a"] 2000 1024 3) (bytes_of "a")) 7.

Lemma client_follows_redirects_witness :
  exists status r w1, invoke_with_redirect demo_invocation 0 demo_client = ((status, r), w1) /\ st_code status <> FAILED_PRECONDITION /\
    current_address (w_client w1) = bytes_of "c".
Proof.
  destruct (client_follows_redirects demo_invocation 0 demo_client) as [_ H].
  destruct (H demo_next 2%nat (bytes_of "c")) as (w0 & status & r & metadata & w1 & _ & Hst & Hr & Hc); [| | | |reflexivity|vm_compute; discriminate|by exists status, r, w1].
  - intros address b w0 Hb. exists 0, [(bytes_of "nebulakv-leader-address", b)], w0. unfold demo_invocation. rewrite Hb. by split_and!.
  - intros address w0 Hb. exists ok_status, (w_rest w0), [], w0. unfold demo_invocation. rewrite Hb. by split_and!.
  - intros address b. unfold demo_next. destruct (str_eqb address (bytes_of "a")) eqn:E1; [|destruct (str_eqb address (bytes_of "b")) eqn:E2; [|done]]; intros [= <-].
    + split; [done|]. intros <-. discriminate.
    + split; [done|]. intros <-. discriminate.
  - eapply leads_on; [reflexivity|]. eapply leads_on; [reflexivity|]. constructor.
Defined.
