(* ===== verification/CommandLine.v ===== *)
(** * Command lines

    What the four programs (server/main.cpp, cluster/main.cpp,
    client/main.cpp, tools/workload_main.cpp) share: integers read with
    [std::from_chars], options with their values, and the loop over [argv].
    The programs themselves are in [Programs]. *)

From S2P Require Import Prelude Path Store RaftTypes.

(** ** Numbers *)

(** The integer types options are read into. *)
Record IntegerType := mkIntegerType { it_signed : bool; it_min : Z; it_max : Z }.

Definition uint16_type : IntegerType := mkIntegerType false 0 u16_max.
Definition uint64_type : IntegerType := mkIntegerType false 0 u64_max.
Definition int64_type : IntegerType := mkIntegerType true (- 2 ^ 63) (2 ^ 63 - 1).

Definition has_type (t : IntegerType) (v : Z) : Prop := it_min t <= v <= it_max t.

Definition is_digit (c : byte) : bool := (48 <=? b2z c) && (b2z c <? 58).

Fixpoint span_digits (s : str) : str * str :=
  match s with
  | [] => ([], [])
  | c :: rest => if is_digit c then let '(ds, tail) := span_digits rest in (c :: ds, tail) else ([], s)
  end.

(** [std::from_chars] in base 10: the longest match of an optional minus sign
    (for signed types) and digits; what is left of the text; a match whose
    value the type does not have is out of range. *)
Inductive Conversion :=
| Converted (value : Z) (rest : str)
| OutOfRange (rest : str)
| NoConversion.

Definition minus_sign : byte := x2d.

Definition from_chars (t : IntegerType) (text : str) : Conversion :=
  let '(negative, body) :=
    match text with
    | c :: rest => if it_signed t && bool_decide (c = minus_sign) then (true, rest) else (false, text)
    | [] => (false, text)
    end in
  let '(ds, rest) := span_digits body in
  if is_nil ds then NoConversion
  else
    let v := if negative : bool then - dec_val ds else dec_val ds in
    if (it_min t <=? v) && (v <=? it_max t) then Converted v rest else OutOfRange rest.

(** A message with the option in it. *)
Definition string_of (s : str) : string := String.string_of_list_byte s.
Definition option_error (option : str) (message : string) : exn := InvalidArgument (String.append (string_of option) message).

Definition parse_integer (t : IntegerType) (text option : str) : result Z :=
  match from_chars t text with
  | Converted v [] => Ok v
  | _ => Throw (option_error option " requires an integer")
  end.

(** [std::strtod] on a whole string: the value, how many characters it took,
    and whether it set [errno]. *)
Class Strtod (F : Type) := strtod : str -> F * Z * bool.

(** The two versions of [parse_double]: cluster/main.cpp looks at [errno],
    tools/workload_main.cpp does not. *)
Definition parse_double {F} `{Strtod F} (check_errno : bool) (text option : str) : result F :=
  let '(value, taken, failed) := strtod text in
  if (check_errno && failed) || negb (taken =? zlen text) then Throw (option_error option " requires a number")
  else Ok value.

(** ** Other values *)

Definition parse_durability (value : str) : result DurabilityMode :=
  if str_eqb value (bytes_of "sync") then Ok Sync
  else if str_eqb value (bytes_of "batch") then Ok Batch
  else if str_eqb value (bytes_of "none") then Ok NoSync
  else Throw (InvalidArgument "durability must be sync, batch, or none").

Definition equals_sign : byte := x3d.

(** [value.find('=')] and the two [substr]. *)
Fixpoint split_at (c : byte) (s : str) : option (str * str) :=
  match s with
  | [] => None
  | b :: rest =>
      if bool_decide (b = c) then Some ([], rest)
      else match split_at c rest with Some (l, r) => Some (b :: l, r) | None => None end
  end.

Definition parse_peer (value : str) : result Peer :=
  match split_at equals_sign value with
  | Some (id, address) =>
      if is_nil id || is_nil address then Throw (InvalidArgument "peer must use id=host:port format")
      else Ok (mkPeer id address)
  | None => Throw (InvalidArgument "peer must use id=host:port format")
  end.

(** ** The loop over [argv] *)

(** A flag, or an option whose value comes next ([require_value]). *)
Inductive Handler (A : Type) :=
| Flag (f : A -> A)
| Valued (f : str -> str -> A -> result A).
Arguments Flag {A}.
Arguments Valued {A}.

(** [arguments.field = value], [arguments.field = parse(value)]. *)
Definition assign {A V} (set : V -> A -> A) (parse : str -> str -> result V) : Handler A :=
  Valued (fun option value a => v ← parse option value; mret (set v a)).
Definition plain_value (option value : str) : result str := Ok value.
Definition integer_value (t : IntegerType) (option value : str) : result Z := parse_integer t value option.

(** The chain of comparisons with the names of options. *)
Fixpoint find_handler {A} (table : list (string * Handler A)) (arg : str) : option (Handler A) :=
  match table with
  | [] => None
  | (name, h) :: rest => if str_eqb arg (bytes_of name) then Some h else find_handler rest arg
  end.

(** [usage] prints the help and exits. *)
Inductive Parsed (A : Type) :=
| ShowsUsage
| Parses (r : result A).
Arguments ShowsUsage {A}.
Arguments Parses {A}.

(** [require_value] at the end of [argv]. *)
Definition missing_value (option : str) : exn := option_error option " requires a value".

Definition is_help (option : str) : bool := str_eqb option (bytes_of "--help") || str_eqb option (bytes_of "-h").

Section loop.
Context {A : Type} (table : list (string * Handler A)) (stops : str -> bool).

(** The arguments from [index] on; the loop of client/main.cpp breaks at the
    first argument that is not an option, and what is left is its command. *)
Fixpoint parse_options (a : A) (args : list str) : Parsed (A * list str) :=
  match args with
  | [] => Parses (Ok (a, []))
  | option :: rest =>
      if is_help option then ShowsUsage
      else if stops option then Parses (Ok (a, args))
      else
        match find_handler table option with
        | None => Parses (Throw (InvalidArgument (String.append "unknown option: " (string_of option))))
        | Some (Flag f) => parse_options (f a) rest
        | Some (Valued f) =>
            match rest with
            | [] => Parses (Throw (missing_value option))
            | value :: rest' =>
                match f option value a with
                | Throw e => Parses (Throw e)
                | Ok a' => parse_options a' rest'
                end
            end
        end
  end.
End loop.

Definition finish {A B} (f : A -> result B) (p : Parsed A) : Parsed B :=
  match p with ShowsUsage => ShowsUsage | Parses r => Parses (a ← r; f a) end.

(** ** Numbers are read exactly *)

Lemma span_digits_spec s : s = (span_digits s).1 ++ (span_digits s).2 /\ forallb is_digit (span_digits s).1 = true.
Proof.
  induction s as [|c s [IH1 IH2]]; [done|]. cbn [span_digits]. destruct (is_digit c) eqn:E; [|done].
  destruct (span_digits s) as [ds tail]. cbn [fst snd app forallb] in *. rewrite E, IH2. by rewrite <- IH1.
Qed.

Lemma span_digits_all ds : forallb is_digit ds = true -> span_digits ds = (ds, []).
Proof.
  induction ds as [|c ds IH]; [done|]. cbn [forallb span_digits]. intros [H1 H2]%andb_true_iff. by rewrite H1, IH.
Qed.

Lemma minus_not_digit : is_digit minus_sign = false.
Proof. done. Qed.

(** The texts of a number. *)
Definition numeral (t : IntegerType) (v : Z) (text : str) : Prop :=
  exists negative ds, text = (if negative : bool then minus_sign :: ds else ds) /\ (negative = true -> it_signed t = true) /\
    ds <> [] /\ forallb is_digit ds = true /\ v = (if negative then - dec_val ds else dec_val ds).

Lemma from_chars_numeral t v text :
  numeral t v text -> from_chars t text = if (it_min t <=? v) && (v <=? it_max t) then Converted v [] else OutOfRange [].
Proof.
  intros (negative & ds & -> & Hs & Hne & Hd & ->). unfold from_chars. destruct negative.
  - rewrite (Hs eq_refl), bool_decide_true by done. cbn [andb]. rewrite (span_digits_all ds Hd). by destruct ds.
  - assert (Hf : match ds with c :: rest => if it_signed t && bool_decide (c = minus_sign) then (true, rest) else (false, ds) | [] => (false, ds) end = (false, ds)).
    { destruct ds as [|c ds']; [done|]. cbn [forallb] in Hd. apply andb_true_iff in Hd as [Hc _].
      rewrite (bool_decide_false (c = minus_sign)) by (intros ->; by rewrite minus_not_digit in Hc). by rewrite andb_false_r. }
    rewrite Hf, (span_digits_all ds Hd). by destruct ds.
Qed.

Lemma parse_integer_iff t text option v :
  parse_integer t text option = Ok v <-> numeral t v text /\ has_type t v.
Proof.
  unfold parse_integer, has_type. split.
  - destruct (from_chars t text) as [w [|]| |] eqn:E; try done. intros [= ->]. unfold from_chars in E.
    assert (Hsplit : exists negative body, text = (if negative : bool then minus_sign :: body else body) /\ (negative = true -> it_signed t = true) /\
      match text with c :: rest => if it_signed t && bool_decide (c = minus_sign) then (true, rest) else (false, text) | [] => (false, text) end = (negative, body)).
    { destruct text as [|c rest]; [by exists false, []|]. destruct (it_signed t); [|by exists false, (c :: rest)].
      destruct (bool_decide (c = minus_sign)) eqn:Ec; [|by exists false, (c :: rest)]. apply bool_decide_eq_true in Ec as ->. by exists true, rest. }
    destruct Hsplit as (negative & body & Ht & Hs & Hm). rewrite Hm in E. destruct (span_digits_spec body) as [H1 H2].
    destruct (span_digits body) as [ds rest]. cbn [fst snd] in *. destruct (is_nil ds) eqn:En; [done|]. apply is_nil_false in En.
    destruct ((it_min t <=? _) && (_ <=? it_max t)) eqn:Er; [|done]. injection E as <- ->. rewrite app_nil_r in H1. subst body.
    split; [|zbool; lia]. by exists negative, ds.
  - intros [Hn Hr]. rewrite (from_chars_numeral _ _ _ Hn).
    assert ((it_min t <=? v) && (v <=? it_max t) = true) as -> by (apply andb_true_iff; lia). done.
Qed.

(** [std::to_string] *)
Definition show_integer (v : Z) : str := if v <? 0 then minus_sign :: digits 20 (- v) else digits 20 v.

Lemma digits_are_digits fuel n : forallb is_digit (digits fuel n) = true.
Proof.
  revert n. induction fuel as [|fuel IH]; intros n; [done|]. cbn [digits]. rewrite forallb_app.
  assert (Hd : is_digit (z2b (48 + n mod 10)) = true).
  { unfold is_digit. pose proof (Z.mod_pos_bound n 10 ltac:(lia)). rewrite b2z_z2b, Z.mod_small by lia. apply andb_true_iff. lia. }
  cbn [forallb]. rewrite Hd, andb_true_r. by destruct (n <? 10).
Qed.

Lemma digits_ne fuel n : digits (S fuel) n <> [].
Proof. cbn [digits]. intros H%app_eq_nil. by destruct H. Qed.

Lemma show_numeral t v :
  - 10 ^ 20 < v < 10 ^ 20 -> (v < 0 -> it_signed t = true) -> numeral t v (show_integer v).
Proof.
  intros Hr Hs. unfold show_integer. destruct (v <? 0) eqn:E; zbool.
  - exists true, (digits 20 (- v)). split_and!; [done|by intros _; apply Hs|apply digits_ne|apply digits_are_digits|].
    rewrite dec_val_digits; [lia|]. change (Z.of_nat 20) with 20. lia.
  - exists false, (digits 20 v). split_and!; [done|done|apply digits_ne|apply digits_are_digits|].
    rewrite dec_val_digits; [lia|]. change (Z.of_nat 20) with 20. lia.
Qed.

Lemma parse_shown t v option :
  t ∈ [uint16_type; uint64_type; int64_type] -> has_type t v -> parse_integer t (show_integer v) option = Ok v.
Proof.
  intros Ht Hv. apply parse_integer_iff. split; [|done].
  apply show_numeral; unfold has_type in Hv;
    repeat (apply elem_of_cons in Ht as [->|Ht]; [simpl in *; unfold u16_max, u64_max in *; try lia; done|]); by apply not_elem_of_nil in Ht.
Qed.

(** ** Other values *)

Definition show_durability (m : DurabilityMode) : str :=
  bytes_of match m with Sync => "sync" | Batch => "batch" | NoSync => "none" end.

Lemma parse_shown_durability m : parse_durability (show_durability m) = Ok m.
Proof. by destruct m. Qed.

Lemma split_at_spec c s l r : split_at c s = Some (l, r) <-> s = l ++ c :: r /\ c ∉ l.
Proof.
  revert l. induction s as [|b s IH]; intros l; cbn [split_at].
  - split; [done|]. intros [H _]. by destruct l.
  - destruct (bool_decide (b = c)) eqn:Eb.
    + apply bool_decide_eq_true in Eb as ->. split; [intros [= <- <-]; split; [done|apply not_elem_of_nil]|].
      intros [H Hn]. destruct l as [|x l]; [by injection H as ->|]. injection H as -> _. by apply not_elem_of_cons in Hn as [? _].
    + apply bool_decide_eq_false in Eb. split.
      * destruct (split_at c s) as [[l' r']|]; [|done]. intros [= <- <-]. destruct (proj1 (IH l')) as [-> Hn]; [done|].
        split; [done|]. by apply not_elem_of_cons.
      * intros [H Hn]. destruct l as [|x l]; [by injection H as -> _|]. injection H as -> ->. apply not_elem_of_cons in Hn as [_ Hn].
        by rewrite (proj2 (IH l)).
Qed.

Definition peer_ok (p : Peer) : Prop := p_id p <> [] /\ (equals_sign ∉ p_id p) /\ p_address p <> [].
Definition show_peer (p : Peer) : str := p_id p ++ equals_sign :: p_address p.

Lemma parse_peer_iff value p : parse_peer value = Ok p <-> value = show_peer p /\ peer_ok p.
Proof.
  unfold parse_peer, show_peer, peer_ok. split.
  - destruct (split_at equals_sign value) as [[id address]|] eqn:E; [|done]. apply split_at_spec in E as [-> Hn].
    destruct (is_nil id) eqn:E1; [done|]. destruct (is_nil address) eqn:E2; [done|]. intros [= <-].
    apply is_nil_false in E1, E2. done.
  - intros (-> & H1 & H2 & H3). rewrite (proj2 (split_at_spec _ _ (p_id p) (p_address p))) by done.
    apply is_nil_false in H1, H3. rewrite H1, H3. by destruct p.
Qed.

(** ** The loop *)

Section loop_lemmas.
Context {A : Type} (table : list (string * Handler A)) (stops : str -> bool).

Definition known (name : str) : Prop := is_help name = false /\ stops name = false.

Lemma parse_valued name value rest f a a' :
  known name -> find_handler table name = Some (Valued f) -> f name value a = Ok a' ->
  parse_options table stops a (name :: value :: rest) = parse_options table stops a' rest.
Proof. intros [H1 H2] Hf E. cbn [parse_options]. by rewrite H1, H2, Hf, E. Qed.

Lemma parse_flag name rest f a :
  known name -> find_handler table name = Some (Flag f) ->
  parse_options table stops a (name :: rest) = parse_options table stops (f a) rest.
Proof. intros [H1 H2] Hf. cbn [parse_options]. by rewrite H1, H2, Hf. Qed.

(** What every option keeps. *)
Definition handler_keeps (P : A -> Prop) (h : Handler A) : Prop :=
  match h with
  | Flag f => forall a, P a -> P (f a)
  | Valued f => forall option value a a', P a -> f option value a = Ok a' -> P a'
  end.

Lemma find_handler_elem arg h : find_handler table arg = Some h -> exists name, (name, h) ∈ table.
Proof.
  induction table as [|[name x] l IH]; [done|]. cbn [find_handler]. destruct (str_eqb _ _).
  - intros [= ->]. exists name. by left.
  - intros H. destruct (IH H) as [n Hn]. exists n. by right.
Qed.

Lemma parse_options_keeps (P : A -> Prop) a args a' rest :
  Forall (fun e => handler_keeps P e.2) table -> P a -> parse_options table stops a args = Parses (Ok (a', rest)) -> P a'.
Proof.
  intros Ht. rewrite Forall_forall in Ht. revert a. remember (length args) as n eqn:En. revert args En.
  induction n as [n IH] using lt_wf_ind. intros args -> a Ha H. destruct args as [|option args]; cbn [parse_options] in H; [by injection H as <- <-|].
  destruct (is_help option); [done|]. destruct (stops option); [by injection H as <- <-|].
  destruct (find_handler table option) as [h|] eqn:Ef; [|done]. destruct (find_handler_elem _ _ Ef) as [name Hin]. specialize (Ht _ Hin).
  destruct h as [f|f]; cbn [snd handler_keeps] in Ht.
  - eapply (IH (length args)); [simpl; lia|done|by apply Ht|exact H].
  - destruct args as [|value args]; [done|]. destruct (f option value a) as [a1|] eqn:E1; [|done].
    eapply (IH (length args)); [simpl; lia|done|by eapply Ht|exact H].
Qed.
End loop_lemmas.

Lemma assign_keeps {A V} (P : A -> Prop) (Q : V -> Prop) (set : V -> A -> A) parse :
  (forall option value v, parse option value = Ok v -> Q v) -> (forall v a, Q v -> P a -> P (set v a)) ->
  handler_keeps P (assign set parse).
Proof.
  intros H1 H2 option value a a' Ha E. unfold mbind, result_bind, mret, result_ret in E. destruct (parse option value) as [v|] eqn:Ev; [|done].
  injection E as <-. apply H2; [by eapply H1|done].
Qed.

Lemma integer_value_typed t option value v : integer_value t option value = Ok v -> has_type t v.
Proof. unfold integer_value. intros H%parse_integer_iff. apply H. Qed.
