(* ===== verification/Programs.v ===== *)
(** * The programs' arguments

    The [Arguments] of server/main.cpp, cluster/main.cpp, client/main.cpp and
    tools/workload_main.cpp, their defaults, [parse_arguments], and what the
    parsers promise: whatever they return has the types of its fields, and
    every setting can be given on a command line. *)

From S2P Require Import Prelude Path Store RaftTypes Observability CommandLine.

(** ** The single server *)

Record ServerArguments := mkServerArguments {
  sa_host : str;
  sa_port : Z;
  sa_data_directory : str;
  sa_workers : Z;
  sa_queue_capacity : Z;
  sa_max_message_bytes : Z;
  sa_max_batch_entries : Z;
  sa_max_batch_bytes : Z;
  sa_durability : DurabilityMode;
  sa_checkpoint_on_shutdown : bool
}.

Definition set_sa_host (v : str) (a : ServerArguments) : ServerArguments :=
  mkServerArguments v (sa_port a) (sa_data_directory a) (sa_workers a) (sa_queue_capacity a) (sa_max_message_bytes a) (sa_max_batch_entries a) (sa_max_batch_bytes a) (sa_durability a) (sa_checkpoint_on_shutdown a).
Definition set_sa_port (v : Z) (a : ServerArguments) : ServerArguments :=
  mkServerArguments (sa_host a) v (sa_data_directory a) (sa_workers a) (sa_queue_capacity a) (sa_max_message_bytes a) (sa_max_batch_entries a) (sa_max_batch_bytes a) (sa_durability a) (sa_checkpoint_on_shutdown a).
Definition set_sa_data_directory (v : str) (a : ServerArguments) : ServerArguments :=
  mkServerArguments (sa_host a) (sa_port a) v (sa_workers a) (sa_queue_capacity a) (sa_max_message_bytes a) (sa_max_batch_entries a) (sa_max_batch_bytes a) (sa_durability a) (sa_checkpoint_on_shutdown a).
Definition set_sa_workers (v : Z) (a : ServerArguments) : ServerArguments :=
  mkServerArguments (sa_host a) (sa_port a) (sa_data_directory a) v (sa_queue_capacity a) (sa_max_message_bytes a) (sa_max_batch_entries a) (sa_max_batch_bytes a) (sa_durability a) (sa_checkpoint_on_shutdown a).
Definition set_sa_queue_capacity (v : Z) (a : ServerArguments) : ServerArguments :=
  mkServerArguments (sa_host a) (sa_port a) (sa_data_directory a) (sa_workers a) v (sa_max_message_bytes a) (sa_max_batch_entries a) (sa_max_batch_bytes a) (sa_durability a) (sa_checkpoint_on_shutdown a).
Definition set_sa_max_message_bytes (v : Z) (a : ServerArguments) : ServerArguments :=
  mkServerArguments (sa_host a) (sa_port a) (sa_data_directory a) (sa_workers a) (sa_queue_capacity a) v (sa_max_batch_entries a) (sa_max_batch_bytes a) (sa_durability a) (sa_checkpoint_on_shutdown a).
Definition set_sa_max_batch_entries (v : Z) (a : ServerArguments) : ServerArguments :=
  mkServerArguments (sa_host a) (sa_port a) (sa_data_directory a) (sa_workers a) (sa_queue_capacity a) (sa_max_message_bytes a) v (sa_max_batch_bytes a) (sa_durability a) (sa_checkpoint_on_shutdown a).
Definition set_sa_max_batch_bytes (v : Z) (a : ServerArguments) : ServerArguments :=
  mkServerArguments (sa_host a) (sa_port a) (sa_data_directory a) (sa_workers a) (sa_queue_capacity a) (sa_max_message_bytes a) (sa_max_batch_entries a) v (sa_durability a) (sa_checkpoint_on_shutdown a).
Definition set_sa_durability (v : DurabilityMode) (a : ServerArguments) : ServerArguments :=
  mkServerArguments (sa_host a) (sa_port a) (sa_data_directory a) (sa_workers a) (sa_queue_capacity a) (sa_max_message_bytes a) (sa_max_batch_entries a) (sa_max_batch_bytes a) v (sa_checkpoint_on_shutdown a).
Definition set_sa_checkpoint_on_shutdown (v : bool) (a : ServerArguments) : ServerArguments :=
  mkServerArguments (sa_host a) (sa_port a) (sa_data_directory a) (sa_workers a) (sa_queue_capacity a) (sa_max_message_bytes a) (sa_max_batch_entries a) (sa_max_batch_bytes a) (sa_durability a) v.

Definition default_server_arguments : ServerArguments :=
  mkServerArguments (bytes_of "0.0.0.0") 5001 (bytes_of "data/server") 8 1024 (8 * 1024 * 1024) 1024 (8 * 1024 * 1024) Sync false.

Definition durability_value (option value : str) : result DurabilityMode := parse_durability value.

Definition server_options_table : list (string * Handler ServerArguments) := [
  ("--host", assign set_sa_host plain_value);
  ("--port", assign set_sa_port (integer_value uint16_type));
  ("--data-dir", assign set_sa_data_directory plain_value);
  ("--workers", assign set_sa_workers (integer_value uint64_type));
  ("--queue-capacity", assign set_sa_queue_capacity (integer_value uint64_type));
  ("--max-message-bytes", assign set_sa_max_message_bytes (integer_value uint64_type));
  ("--max-batch-entries", assign set_sa_max_batch_entries (integer_value uint64_type));
  ("--max-batch-bytes", assign set_sa_max_batch_bytes (integer_value uint64_type));
  ("--durability", assign set_sa_durability durability_value);
  ("--checkpoint-on-shutdown", Flag (set_sa_checkpoint_on_shutdown true))
]%string.

(** [args] are the elements of [argv] after the name of the program. *)
Definition parse_server_arguments (args : list str) : Parsed ServerArguments :=
  finish (fun x => mret x.1) (parse_options server_options_table (fun _ => false) default_server_arguments args).

(** ** A node of a cluster *)

Record NodeArguments (F : Type) := mkNodeArguments {
  na_node_id : str;
  na_listen_address : str;
  na_advertised_address : str;
  na_peers : list Peer;
  na_data_directory : str;
  na_workers : Z;
  na_queue_capacity : Z;
  na_max_message_bytes : Z;
  na_metrics_port : Z;
  na_metrics_host : str;
  na_election_min : Z;
  na_election_max : Z;
  na_heartbeat : Z;
  na_rpc_timeout : Z;
  na_snapshot_threshold : Z;
  na_durability : DurabilityMode;
  na_drop_probability : F;
  na_fault_delay : Z
}.
Arguments mkNodeArguments {F}.
Arguments na_node_id {F}.
Arguments na_listen_address {F}.
Arguments na_advertised_address {F}.
Arguments na_peers {F}.
Arguments na_data_directory {F}.
Arguments na_workers {F}.
Arguments na_queue_capacity {F}.
Arguments na_max_message_bytes {F}.
Arguments na_metrics_port {F}.
Arguments na_metrics_host {F}.
Arguments na_election_min {F}.
Arguments na_election_max {F}.
Arguments na_heartbeat {F}.
Arguments na_rpc_timeout {F}.
Arguments na_snapshot_threshold {F}.
Arguments na_durability {F}.
Arguments na_drop_probability {F}.
Arguments na_fault_delay {F}.

Definition set_na_node_id {F} (v : str) (a : NodeArguments F) : NodeArguments F :=
  mkNodeArguments v (na_listen_address a) (na_advertised_address a) (na_peers a) (na_data_directory a) (na_workers a) (na_queue_capacity a) (na_max_message_bytes a) (na_metrics_port a) (na_metrics_host a) (na_election_min a) (na_election_max a) (na_heartbeat a) (na_rpc_timeout a) (na_snapshot_threshold a) (na_durability a) (na_drop_probability a) (na_fault_delay a).
Definition set_na_listen_address {F} (v : str) (a : NodeArguments F) : NodeArguments F :=
  mkNodeArguments (na_node_id a) v (na_advertised_address a) (na_peers a) (na_data_directory a) (na_workers a) (na_queue_capacity a) (na_max_message_bytes a) (na_metrics_port a) (na_metrics_host a) (na_election_min a) (na_election_max a) (na_heartbeat a) (na_rpc_timeout a) (na_snapshot_threshold a) (na_durability a) (na_drop_probability a) (na_fault_delay a).
Definition set_na_advertised_address {F} (v : str) (a : NodeArguments F) : NodeArguments F :=
  mkNodeArguments (na_node_id a) (na_listen_address a) v (na_peers a) (na_data_directory a) (na_workers a) (na_queue_capacity a) (na_max_message_bytes a) (na_metrics_port a) (na_metrics_host a) (na_election_min a) (na_election_max a) (na_heartbeat a) (na_rpc_timeout a) (na_snapshot_threshold a) (na_durability a) (na_drop_probability a) (na_fault_delay a).
Definition set_na_peers {F} (v : list Peer) (a : NodeArguments F) : NodeArguments F :=
  mkNodeArguments (na_node_id a) (na_listen_address a) (na_advertised_address a) v (na_data_directory a) (na_workers a) (na_queue_capacity a) (na_max_message_bytes a) (na_metrics_port a) (na_metrics_host a) (na_election_min a) (na_election_max a) (na_heartbeat a) (na_rpc_timeout a) (na_snapshot_threshold a) (na_durability a) (na_drop_probability a) (na_fault_delay a).
Definition set_na_data_directory {F} (v : str) (a : NodeArguments F) : NodeArguments F :=
  mkNodeArguments (na_node_id a) (na_listen_address a) (na_advertised_address a) (na_peers a) v (na_workers a) (na_queue_capacity a) (na_max_message_bytes a) (na_metrics_port a) (na_metrics_host a) (na_election_min a) (na_election_max a) (na_heartbeat a) (na_rpc_timeout a) (na_snapshot_threshold a) (na_durability a) (na_drop_probability a) (na_fault_delay a).
Definition set_na_workers {F} (v : Z) (a : NodeArguments F) : NodeArguments F :=
  mkNodeArguments (na_node_id a) (na_listen_address a) (na_advertised_address a) (na_peers a) (na_data_directory a) v (na_queue_capacity a) (na_max_message_bytes a) (na_metrics_port a) (na_metrics_host a) (na_election_min a) (na_election_max a) (na_heartbeat a) (na_rpc_timeout a) (na_snapshot_threshold a) (na_durability a) (na_drop_probability a) (na_fault_delay a).
Definition set_na_queue_capacity {F} (v : Z) (a : NodeArguments F) : NodeArguments F :=
  mkNodeArguments (na_node_id a) (na_listen_address a) (na_advertised_address a) (na_peers a) (na_data_directory a) (na_workers a) v (na_max_message_bytes a) (na_metrics_port a) (na_metrics_host a) (na_election_min a) (na_election_max a) (na_heartbeat a) (na_rpc_timeout a) (na_snapshot_threshold a) (na_durability a) (na_drop_probability a) (na_fault_delay a).
Definition set_na_max_message_bytes {F} (v : Z) (a : NodeArguments F) : NodeArguments F :=
  mkNodeArguments (na_node_id a) (na_listen_address a) (na_advertised_address a) (na_peers a) (na_data_directory a) (na_workers a) (na_queue_capacity a) v (na_metrics_port a) (na_metrics_host a) (na_election_min a) (na_election_max a) (na_heartbeat a) (na_rpc_timeout a) (na_snapshot_threshold a) (na_durability a) (na_drop_probability a) (na_fault_delay a).
Definition set_na_metrics_port {F} (v : Z) (a : NodeArguments F) : NodeArguments F :=
  mkNodeArguments (na_node_id a) (na_listen_address a) (na_advertised_address a) (na_peers a) (na_data_directory a) (na_workers a) (na_queue_capacity a) (na_max_message_bytes a) v (na_metrics_host a) (na_election_min a) (na_election_max a) (na_heartbeat a) (na_rpc_timeout a) (na_snapshot_threshold a) (na_durability a) (na_drop_probability a) (na_fault_delay a).
Definition set_na_metrics_host {F} (v : str) (a : NodeArguments F) : NodeArguments F :=
  mkNodeArguments (na_node_id a) (na_listen_address a) (na_advertised_address a) (na_peers a) (na_data_directory a) (na_workers a) (na_queue_capacity a) (na_max_message_bytes a) (na_metrics_port a) v (na_election_min a) (na_election_max a) (na_heartbeat a) (na_rpc_timeout a) (na_snapshot_threshold a) (na_durability a) (na_drop_probability a) (na_fault_delay a).
Definition set_na_election_min {F} (v : Z) (a : NodeArguments F) : NodeArguments F :=
  mkNodeArguments (na_node_id a) (na_listen_address a) (na_advertised_address a) (na_peers a) (na_data_directory a) (na_workers a) (na_queue_capacity a) (na_max_message_bytes a) (na_metrics_port a) (na_metrics_host a) v (na_election_max a) (na_heartbeat a) (na_rpc_timeout a) (na_snapshot_threshold a) (na_durability a) (na_drop_probability a) (na_fault_delay a).
Definition set_na_election_max {F} (v : Z) (a : NodeArguments F) : NodeArguments F :=
  mkNodeArguments (na_node_id a) (na_listen_address a) (na_advertised_address a) (na_peers a) (na_data_directory a) (na_workers a) (na_queue_capacity a) (na_max_message_bytes a) (na_metrics_port a) (na_metrics_host a) (na_election_min a) v (na_heartbeat a) (na_rpc_timeout a) (na_snapshot_threshold a) (na_durability a) (na_drop_probability a) (na_fault_delay a).
Definition set_na_heartbeat {F} (v : Z) (a : NodeArguments F) : NodeArguments F :=
  mkNodeArguments (na_node_id a) (na_listen_address a) (na_advertised_address a) (na_peers a) (na_data_directory a) (na_workers a) (na_queue_capacity a) (na_max_message_bytes a) (na_metrics_port a) (na_metrics_host a) (na_election_min a) (na_election_max a) v (na_rpc_timeout a) (na_snapshot_threshold a) (na_durability a) (na_drop_probability a) (na_fault_delay a).
Definition set_na_rpc_timeout {F} (v : Z) (a : NodeArguments F) : NodeArguments F :=
  mkNodeArguments (na_node_id a) (na_listen_address a) (na_advertised_address a) (na_peers a) (na_data_directory a) (na_workers a) (na_queue_capacity a) (na_max_message_bytes a) (na_metrics_port a) (na_metrics_host a) (na_election_min a) (na_election_max a) (na_heartbeat a) v (na_snapshot_threshold a) (na_durability a) (na_drop_probability a) (na_fault_delay a).
Definition set_na_snapshot_threshold {F} (v : Z) (a : NodeArguments F) : NodeArguments F :=
  mkNodeArguments (na_node_id a) (na_listen_address a) (na_advertised_address a) (na_peers a) (na_data_directory a) (na_workers a) (na_queue_capacity a) (na_max_message_bytes a) (na_metrics_port a) (na_metrics_host a) (na_election_min a) (na_election_max a) (na_heartbeat a) (na_rpc_timeout a) v (na_durability a) (na_drop_probability a) (na_fault_delay a).
Definition set_na_durability {F} (v : DurabilityMode) (a : NodeArguments F) : NodeArguments F :=
  mkNodeArguments (na_node_id a) (na_listen_address a) (na_advertised_address a) (na_peers a) (na_data_directory a) (na_workers a) (na_queue_capacity a) (na_max_message_bytes a) (na_metrics_port a) (na_metrics_host a) (na_election_min a) (na_election_max a) (na_heartbeat a) (na_rpc_timeout a) (na_snapshot_threshold a) v (na_drop_probability a) (na_fault_delay a).
Definition set_na_drop_probability {F} (v : F) (a : NodeArguments F) : NodeArguments F :=
  mkNodeArguments (na_node_id a) (na_listen_address a) (na_advertised_address a) (na_peers a) (na_data_directory a) (na_workers a) (na_queue_capacity a) (na_max_message_bytes a) (na_metrics_port a) (na_metrics_host a) (na_election_min a) (na_election_max a) (na_heartbeat a) (na_rpc_timeout a) (na_snapshot_threshold a) (na_durability a) v (na_fault_delay a).
Definition set_na_fault_delay {F} (v : Z) (a : NodeArguments F) : NodeArguments F :=
  mkNodeArguments (na_node_id a) (na_listen_address a) (na_advertised_address a) (na_peers a) (na_data_directory a) (na_workers a) (na_queue_capacity a) (na_max_message_bytes a) (na_metrics_port a) (na_metrics_host a) (na_election_min a) (na_election_max a) (na_heartbeat a) (na_rpc_timeout a) (na_snapshot_threshold a) (na_durability a) (na_drop_probability a) v.

Section node.
Context {F : Type} `{Double F} `{Strtod F}.

Definition default_node_arguments : NodeArguments F :=
  mkNodeArguments [] (bytes_of "0.0.0.0:5001") (bytes_of "127.0.0.1:5001") [] (bytes_of "data/node-1") 8 1024 (64 * 1024 * 1024)
    9100 (bytes_of "0.0.0.0") 300 600 75 200 10000 Sync d_zero 0.

Definition push_peer (p : Peer) (a : NodeArguments F) : NodeArguments F := set_na_peers (na_peers a ++ [p]) a.
Definition peer_value (option value : str) : result Peer := parse_peer value.
Definition double_value (check_errno : bool) (option value : str) : result F := parse_double check_errno value option.

Definition node_options_table : list (string * Handler (NodeArguments F)) := [
  ("--node-id", assign set_na_node_id plain_value);
  ("--listen", assign set_na_listen_address plain_value);
  ("--advertise", assign set_na_advertised_address plain_value);
  ("--peer", assign push_peer peer_value);
  ("--data-dir", assign set_na_data_directory plain_value);
  ("--workers", assign set_na_workers (integer_value uint64_type));
  ("--queue-capacity", assign set_na_queue_capacity (integer_value uint64_type));
  ("--max-message-bytes", assign set_na_max_message_bytes (integer_value uint64_type));
  ("--metrics-host", assign set_na_metrics_host plain_value);
  ("--metrics-port", assign set_na_metrics_port (integer_value uint16_type));
  ("--election-min-ms", assign set_na_election_min (integer_value int64_type));
  ("--election-max-ms", assign set_na_election_max (integer_value int64_type));
  ("--heartbeat-ms", assign set_na_heartbeat (integer_value int64_type));
  ("--rpc-timeout-ms", assign set_na_rpc_timeout (integer_value int64_type));
  ("--snapshot-threshold", assign set_na_snapshot_threshold (integer_value uint64_type));
  ("--durability", assign set_na_durability durability_value);
  ("--fault-drop-probability", assign set_na_drop_probability (double_value true));
  ("--fault-delay-ms", assign set_na_fault_delay (integer_value int64_type))
]%string.

Definition parse_node_arguments (args : list str) : Parsed (NodeArguments F) :=
  finish (fun x => _ ← throw_if (is_nil (na_node_id x.1)) (InvalidArgument "--node-id is required"); mret x.1)
    (parse_options node_options_table (fun _ => false) default_node_arguments args).
End node.

(** ** The client *)

Record ClientArguments := mkClientArguments {
  ca_host : str;
  ca_port : Z;
  ca_timeout : Z;
  ca_max_message_bytes : Z;
  ca_command : list str
}.

Definition set_ca_host (v : str) (a : ClientArguments) : ClientArguments :=
  mkClientArguments v (ca_port a) (ca_timeout a) (ca_max_message_bytes a) (ca_command a).
Definition set_ca_port (v : Z) (a : ClientArguments) : ClientArguments :=
  mkClientArguments (ca_host a) v (ca_timeout a) (ca_max_message_bytes a) (ca_command a).
Definition set_ca_timeout (v : Z) (a : ClientArguments) : ClientArguments :=
  mkClientArguments (ca_host a) (ca_port a) v (ca_max_message_bytes a) (ca_command a).
Definition set_ca_max_message_bytes (v : Z) (a : ClientArguments) : ClientArguments :=
  mkClientArguments (ca_host a) (ca_port a) (ca_timeout a) v (ca_command a).
Definition set_ca_command (v : list str) (a : ClientArguments) : ClientArguments :=
  mkClientArguments (ca_host a) (ca_port a) (ca_timeout a) (ca_max_message_bytes a) v.

Definition default_client_arguments : ClientArguments := mkClientArguments (bytes_of "127.0.0.1") 5001 2000 (8 * 1024 * 1024) [].

Definition client_options_table : list (string * Handler ClientArguments) := [
  ("--host", assign set_ca_host plain_value);
  ("--port", assign set_ca_port (integer_value uint16_type));
  ("--timeout-ms", assign set_ca_timeout (integer_value int64_type));
  ("--max-message-bytes", assign set_ca_max_message_bytes (integer_value uint64_type))
]%string.

(** [!option.starts_with("--")] *)
Definition not_an_option (option : str) : bool := negb (starts_with (bytes_of "--") option).

Definition parse_client_arguments (args : list str) : Parsed ClientArguments :=
  finish (fun x => _ ← throw_if (is_nil x.2) (InvalidArgument "a command is required"); mret (set_ca_command x.2 x.1))
    (parse_options client_options_table not_an_option default_client_arguments args).

(** ** The workload *)

Record WorkloadArguments (F : Type) := mkWorkloadArguments {
  wa_host : str;
  wa_port : Z;
  wa_duration : Z;
  wa_clients : Z;
  wa_keyspace : Z;
  wa_value_bytes : Z;
  wa_read_ratio : F;
  wa_timeout : Z
}.
Arguments mkWorkloadArguments {F}.
Arguments wa_host {F}.
Arguments wa_port {F}.
Arguments wa_duration {F}.
Arguments wa_clients {F}.
Arguments wa_keyspace {F}.
Arguments wa_value_bytes {F}.
Arguments wa_read_ratio {F}.
Arguments wa_timeout {F}.

Definition set_wa_host {F} (v : str) (a : WorkloadArguments F) : WorkloadArguments F :=
  mkWorkloadArguments v (wa_port a) (wa_duration a) (wa_clients a) (wa_keyspace a) (wa_value_bytes a) (wa_read_ratio a) (wa_timeout a).
Definition set_wa_port {F} (v : Z) (a : WorkloadArguments F) : WorkloadArguments F :=
  mkWorkloadArguments (wa_host a) v (wa_duration a) (wa_clients a) (wa_keyspace a) (wa_value_bytes a) (wa_read_ratio a) (wa_timeout a).
Definition set_wa_duration {F} (v : Z) (a : WorkloadArguments F) : WorkloadArguments F :=
  mkWorkloadArguments (wa_host a) (wa_port a) v (wa_clients a) (wa_keyspace a) (wa_value_bytes a) (wa_read_ratio a) (wa_timeout a).
Definition set_wa_clients {F} (v : Z) (a : WorkloadArguments F) : WorkloadArguments F :=
  mkWorkloadArguments (wa_host a) (wa_port a) (wa_duration a) v (wa_keyspace a) (wa_value_bytes a) (wa_read_ratio a) (wa_timeout a).
Definition set_wa_keyspace {F} (v : Z) (a : WorkloadArguments F) : WorkloadArguments F :=
  mkWorkloadArguments (wa_host a) (wa_port a) (wa_duration a) (wa_clients a) v (wa_value_bytes a) (wa_read_ratio a) (wa_timeout a).
Definition set_wa_value_bytes {F} (v : Z) (a : WorkloadArguments F) : WorkloadArguments F :=
  mkWorkloadArguments (wa_host a) (wa_port a) (wa_duration a) (wa_clients a) (wa_keyspace a) v (wa_read_ratio a) (wa_timeout a).
Definition set_wa_read_ratio {F} (v : F) (a : WorkloadArguments F) : WorkloadArguments F :=
  mkWorkloadArguments (wa_host a) (wa_port a) (wa_duration a) (wa_clients a) (wa_keyspace a) (wa_value_bytes a) v (wa_timeout a).
Definition set_wa_timeout {F} (v : Z) (a : WorkloadArguments F) : WorkloadArguments F :=
  mkWorkloadArguments (wa_host a) (wa_port a) (wa_duration a) (wa_clients a) (wa_keyspace a) (wa_value_bytes a) (wa_read_ratio a) v.

Section workload.
Context {F : Type} `{Double F} `{Strtod F}.
(** The literals 0.8 and 1.0. *)
Context (point_eight one : F).

Definition default_workload_arguments : WorkloadArguments F :=
  mkWorkloadArguments (bytes_of "127.0.0.1") 5001 10 8 10000 256 point_eight 2000.

Definition workload_options_table : list (string * Handler (WorkloadArguments F)) := [
  ("--host", assign set_wa_host plain_value);
  ("--port", assign set_wa_port (integer_value uint16_type));
  ("--duration-seconds", assign set_wa_duration (integer_value int64_type));
  ("--clients", assign set_wa_clients (integer_value uint64_type));
  ("--keyspace", assign set_wa_keyspace (integer_value uint64_type));
  ("--value-bytes", assign set_wa_value_bytes (integer_value uint64_type));
  ("--read-ratio", assign set_wa_read_ratio (double_value false));
  ("--timeout-ms", assign set_wa_timeout (integer_value int64_type))
]%string.

Definition workload_out_of_range (a : WorkloadArguments F) : bool :=
  (wa_duration a <=? 0) || (wa_clients a =? 0) || (wa_keyspace a =? 0) || (wa_value_bytes a =? 0) ||
  d_ltb (wa_read_ratio a) d_zero || d_ltb one (wa_read_ratio a) || (wa_timeout a <=? 0).

Definition parse_workload_arguments (args : list str) : Parsed (WorkloadArguments F) :=
  finish (fun x => _ ← throw_if (workload_out_of_range x.1) (InvalidArgument "workload options are outside valid ranges"); mret x.1)
    (parse_options workload_options_table (fun _ => false) default_workload_arguments args).
End workload.

(** ** What the parsers return *)

Record server_typed (a : ServerArguments) : Prop := {
  st_port : has_type uint16_type (sa_port a);
  st_workers : has_type uint64_type (sa_workers a);
  st_queue_capacity : has_type uint64_type (sa_queue_capacity a);
  st_max_message_bytes : has_type uint64_type (sa_max_message_bytes a);
  st_max_batch_entries : has_type uint64_type (sa_max_batch_entries a);
  st_max_batch_bytes : has_type uint64_type (sa_max_batch_bytes a)
}.

Record node_typed {F} (a : NodeArguments F) : Prop := {
  nt_peers : Forall peer_ok (na_peers a);
  nt_workers : has_type uint64_type (na_workers a);
  nt_queue_capacity : has_type uint64_type (na_queue_capacity a);
  nt_max_message_bytes : has_type uint64_type (na_max_message_bytes a);
  nt_metrics_port : has_type uint16_type (na_metrics_port a);
  nt_election_min : has_type int64_type (na_election_min a);
  nt_election_max : has_type int64_type (na_election_max a);
  nt_heartbeat : has_type int64_type (na_heartbeat a);
  nt_rpc_timeout : has_type int64_type (na_rpc_timeout a);
  nt_snapshot_threshold : has_type uint64_type (na_snapshot_threshold a);
  nt_fault_delay : has_type int64_type (na_fault_delay a)
}.

Record client_typed (a : ClientArguments) : Prop := {
  ct_port : has_type uint16_type (ca_port a);
  ct_timeout : has_type int64_type (ca_timeout a);
  ct_max_message_bytes : has_type uint64_type (ca_max_message_bytes a)
}.

Record workload_typed {F} (a : WorkloadArguments F) : Prop := {
  wt_port : has_type uint16_type (wa_port a);
  wt_duration : has_type int64_type (wa_duration a);
  wt_clients : has_type uint64_type (wa_clients a);
  wt_keyspace : has_type uint64_type (wa_keyspace a);
  wt_value_bytes : has_type uint64_type (wa_value_bytes a);
  wt_timeout : has_type int64_type (wa_timeout a)
}.

Lemma finish_ok {A B} (f : A -> result B) p b : finish f p = Parses (Ok b) -> exists a, p = Parses (Ok a) /\ f a = Ok b.
Proof. destruct p as [|[a|e]]; cbn; try done. intros [= H]. by exists a. Qed.

(** Every option of a table keeps what is typed. *)
Ltac table_keeps :=
  repeat first [apply Forall_nil; exact I | apply Forall_cons; split]; cbn [snd];
  match goal with
  | |- handler_keeps _ (Flag _) => intros ? []; split; done
  | |- handler_keeps ?P (assign ?set (integer_value ?t)) =>
      apply (assign_keeps P (has_type t)); [intros ???; apply integer_value_typed|intros ?? ? []; split; done]
  | |- handler_keeps ?P (assign ?set _) => apply (assign_keeps P (fun _ => True)); [done|intros ?? _ []; split; done]
  | |- _ => idtac
  end.

Lemma default_types : has_type uint16_type 5001 /\ has_type uint16_type 9100 /\
  Forall (has_type uint64_type) [8; 256; 1024; 10000; 8 * 1024 * 1024; 64 * 1024 * 1024] /\
  Forall (has_type int64_type) [0; 10; 75; 200; 300; 600; 2000].
Proof. unfold has_type. repeat first [split|constructor]; by vm_compute. Qed.

Lemma server_table_keeps : Forall (fun e => handler_keeps server_typed e.2) server_options_table.
Proof. unfold server_options_table. table_keeps. Qed.

Lemma server_defaults_typed : server_typed default_server_arguments.
Proof. split; by vm_compute. Qed.

Lemma client_table_keeps : Forall (fun e => handler_keeps client_typed e.2) client_options_table.
Proof. unfold client_options_table. table_keeps. Qed.

Lemma client_defaults_typed : client_typed default_client_arguments.
Proof. split; by vm_compute. Qed.

Section typed.
Context {F : Type} `{Double F} `{Strtod F} (point_eight one : F).

Lemma node_table_keeps : Forall (fun e => handler_keeps node_typed e.2) (node_options_table (F := F)).
Proof.
  unfold node_options_table. table_keeps. intros option value a a' Ha E. unfold mbind, result_bind, mret, result_ret, peer_value in E.
  destruct (parse_peer value) as [p|] eqn:Ep; [|done]. injection E as <-. apply parse_peer_iff in Ep as [_ Hp]. destruct Ha. split; try done.
  cbn. by apply Forall_app_2; [|constructor].
Qed.

Lemma node_defaults_typed : node_typed (F := F) default_node_arguments.
Proof. split; [by constructor|by vm_compute..]. Qed.

Lemma workload_table_keeps : Forall (fun e => handler_keeps workload_typed e.2) (workload_options_table (F := F)).
Proof. unfold workload_options_table. table_keeps. Qed.

Lemma workload_defaults_typed : workload_typed (default_workload_arguments point_eight).
Proof. split; by vm_compute. Qed.
End typed.


(** ** Every setting can be given *)

Definition server_command_line (a : ServerArguments) : list str :=
  [bytes_of "--host"; sa_host a; bytes_of "--port"; show_integer (sa_port a); bytes_of "--data-dir"; sa_data_directory a;
   bytes_of "--workers"; show_integer (sa_workers a); bytes_of "--queue-capacity"; show_integer (sa_queue_capacity a);
   bytes_of "--max-message-bytes"; show_integer (sa_max_message_bytes a);
   bytes_of "--max-batch-entries"; show_integer (sa_max_batch_entries a);
   bytes_of "--max-batch-bytes"; show_integer (sa_max_batch_bytes a); bytes_of "--durability"; show_durability (sa_durability a)] ++
  (if sa_checkpoint_on_shutdown a then [bytes_of "--checkpoint-on-shutdown"] else []).

(** [text] spells the probability. *)
Definition node_command_line {F} (text : str) (a : NodeArguments F) : list str :=
  [bytes_of "--node-id"; na_node_id a; bytes_of "--listen"; na_listen_address a; bytes_of "--advertise"; na_advertised_address a] ++
  concat (map (fun p => [bytes_of "--peer"; show_peer p]) (na_peers a)) ++
  [bytes_of "--data-dir"; na_data_directory a; bytes_of "--workers"; show_integer (na_workers a);
   bytes_of "--queue-capacity"; show_integer (na_queue_capacity a); bytes_of "--max-message-bytes"; show_integer (na_max_message_bytes a);
   bytes_of "--metrics-host"; na_metrics_host a; bytes_of "--metrics-port"; show_integer (na_metrics_port a);
   bytes_of "--election-min-ms"; show_integer (na_election_min a); bytes_of "--election-max-ms"; show_integer (na_election_max a);
   bytes_of "--heartbeat-ms"; show_integer (na_heartbeat a); bytes_of "--rpc-timeout-ms"; show_integer (na_rpc_timeout a);
   bytes_of "--snapshot-threshold"; show_integer (na_snapshot_threshold a); bytes_of "--durability"; show_durability (na_durability a);
   bytes_of "--fault-drop-probability"; text; bytes_of "--fault-delay-ms"; show_integer (na_fault_delay a)].

Definition client_command_line (a : ClientArguments) : list str :=
  [bytes_of "--host"; ca_host a; bytes_of "--port"; show_integer (ca_port a); bytes_of "--timeout-ms"; show_integer (ca_timeout a);
   bytes_of "--max-message-bytes"; show_integer (ca_max_message_bytes a)] ++ ca_command a.

Definition workload_command_line {F} (text : str) (a : WorkloadArguments F) : list str :=
  [bytes_of "--host"; wa_host a; bytes_of "--port"; show_integer (wa_port a); bytes_of "--duration-seconds"; show_integer (wa_duration a);
   bytes_of "--clients"; show_integer (wa_clients a); bytes_of "--keyspace"; show_integer (wa_keyspace a);
   bytes_of "--value-bytes"; show_integer (wa_value_bytes a); bytes_of "--read-ratio"; text; bytes_of "--timeout-ms"; show_integer (wa_timeout a)].

(** One value of a command line. *)
Lemma parse_assigned {A V} (table : list (string * Handler A)) stops name value rest (set : V -> A -> A) parse a v :
  known stops name -> find_handler table name = Some (assign set parse) -> parse name value = Ok v ->
  parse_options table stops a (name :: value :: rest) = parse_options table stops (set v a) rest.
Proof. intros Hk Hf E. eapply parse_valued; [done|exact Hf|]. unfold mbind, result_bind. by rewrite E. Qed.

Lemma in_integer_types t : t ∈ [uint16_type; uint64_type; int64_type] -> forall option v, has_type t v -> integer_value t option (show_integer v) = Ok v.
Proof. intros Ht option v Hv. by apply parse_shown. Qed.

Ltac parse_next :=
  first [ erewrite (parse_assigned (V := str)); [|done|reflexivity|reflexivity]
        | erewrite (parse_assigned (V := Z)); [|done|reflexivity|apply in_integer_types; [by set_unfold; auto|eassumption]]
        | erewrite (parse_assigned (V := DurabilityMode)); [|done|reflexivity|apply parse_shown_durability] ].

Lemma server_roundtrip a : server_typed a -> parse_server_arguments (server_command_line a) = Parses (Ok a).
Proof.
  intros []. unfold parse_server_arguments, server_command_line. cbn [app]. repeat parse_next.
  destruct a as [? ? ? ? ? ? ? ? ? []]; cbn [sa_checkpoint_on_shutdown]; [erewrite parse_flag by done|]; done.
Qed.

Section roundtrips.
Context {F : Type} `{Double F} `{Strtod F} (point_eight one : F).

Lemma parse_peers ps a rest :
  Forall peer_ok ps ->
  parse_options (node_options_table (F := F)) (fun _ => false) a (concat (map (fun p => [bytes_of "--peer"; show_peer p]) ps) ++ rest) =
  parse_options node_options_table (fun _ => false) (set_na_peers (na_peers a ++ ps) a) rest.
Proof.
  intros Hps. revert a. induction Hps as [|p ps Hp _ IH]; intros a; [rewrite app_nil_r; by destruct a|].
  cbn [map concat app]. erewrite (parse_assigned (V := Peer)); [|done|reflexivity|by apply parse_peer_iff]. rewrite IH.
  unfold push_peer. cbn. by rewrite <- app_assoc.
Qed.

Lemma double_spelled (check : bool) option text (v : F) e :
  strtod text = (v, zlen text, e) -> check && e = false -> double_value check option text = Ok v.
Proof. intros Hs He. unfold double_value, parse_double. by rewrite Hs, He, Z.eqb_refl. Qed.

Lemma node_roundtrip (a : NodeArguments F) text :
  node_typed a -> na_node_id a <> [] -> strtod text = (na_drop_probability a, zlen text, false) ->
  parse_node_arguments (node_command_line text a) = Parses (Ok a).
Proof.
  intros [] Hid Hs. unfold parse_node_arguments, node_command_line. cbn [app]. do 3 parse_next. rewrite parse_peers by done. do 12 parse_next.
  erewrite (parse_assigned (V := F)); [|done|reflexivity|by eapply double_spelled].
  parse_next. cbn [parse_options finish]. unfold mbind, result_bind. cbn. apply is_nil_false in Hid. rewrite Hid. by destruct a.
Qed.

Lemma client_roundtrip a :
  client_typed a -> (exists c rest, ca_command a = c :: rest /\ not_an_option c = true /\ is_help c = false) ->
  parse_client_arguments (client_command_line a) = Parses (Ok a).
Proof.
  intros [] (c & rest & Hc & Hn & Hh). unfold parse_client_arguments, client_command_line. cbn [app]. do 4 parse_next.
  rewrite Hc. cbn [parse_options]. rewrite Hh, Hn. cbn. destruct a. by cbn in Hc; subst.
Qed.

Lemma workload_roundtrip (a : WorkloadArguments F) text :
  workload_typed a -> workload_out_of_range one a = false -> (strtod text).1 = (wa_read_ratio a, zlen text) ->
  parse_workload_arguments point_eight one (workload_command_line text a) = Parses (Ok a).
Proof.
  intros [] Hr Hs. unfold parse_workload_arguments, workload_command_line. do 6 parse_next.
  destruct (strtod text) as [[v n] e] eqn:Es. injection Hs as -> ->.
  erewrite (parse_assigned (V := F)); [|done|reflexivity|by eapply double_spelled].
  parse_next. cbn [parse_options finish]. unfold mbind, result_bind. cbn [fst]. destruct a. cbn. unfold workload_out_of_range in *. cbn in *. by rewrite Hr.
Qed.
End roundtrips.

(** C36: every configuration can be written on a command line. For each of the
    four programs, the options that spell the fields of well-typed arguments,
    in any type and range the program accepts, are parsed to exactly these
    arguments: no option sets another's field, no number is cut. *)
Theorem command_lines_roundtrip {F} `{Double F} `{Strtod F} (point_eight one : F) text :
  (forall a, server_typed a -> parse_server_arguments (server_command_line a) = Parses (Ok a)) /\
  (forall a : NodeArguments F, node_typed a -> na_node_id a <> [] -> strtod text = (na_drop_probability a, zlen text, false) ->
     parse_node_arguments (node_command_line text a) = Parses (Ok a)) /\
  (forall a c rest, client_typed a -> ca_command a = c :: rest -> not_an_option c = true -> is_help c = false ->
     parse_client_arguments (client_command_line a) = Parses (Ok a)) /\
  (forall a, workload_typed a -> workload_out_of_range one a = false -> (strtod text).1 = (wa_read_ratio a, zlen text) ->
     parse_workload_arguments point_eight one (workload_command_line text a) = Parses (Ok a)).
Proof.
  split_and!.
  - apply server_roundtrip.
  - intros a. apply node_roundtrip.
  - intros a c rest Ht Hc Hn Hh. apply client_roundtrip; [done|]. by exists c, rest.
  - intros a. apply workload_roundtrip.
Qed.

(** ** Witnesses *)

(** Doubles counted in thousandths; a text spells their number. *)
#[local] Instance thousandths : Double Z := {|
  d_zero := 0; d_add := Z.add; d_sub := Z.sub; d_mul := fun a b => a * b / 1000; d_of_Z := fun n => 1000 * n;
  d_floor := fun x => x / 1000; d_ceil := fun x => (x + 999) / 1000; d_ltb := Z.ltb; d_show := show_integer
|}.
#[local] Instance spelled_thousandths : Strtod Z := fun text =>
  match from_chars int64_type text with
  | Converted v rest => (v, zlen text - zlen rest, false)
  | OutOfRange rest => (0, zlen text - zlen rest, true)
  | NoConversion => (0, 0, false)
  end.

Definition demo_server_arguments : ServerArguments :=
  mkServerArguments (bytes_of "::1") 65535 (bytes_of "d") 1 (2 ^ 64 - 1) 0 7 8 NoSync true.
Definition demo_node_arguments : NodeArguments Z :=
  mkNodeArguments (bytes_of "n1") (bytes_of "--help") (bytes_of "a:1") [mkPeer (bytes_of "n2") (bytes_of "b=c"); mkPeer (bytes_of "n3") (bytes_of "c:1")]
    (bytes_of "d") 1 2 3 0 (bytes_of "h") (- 2 ^ 63) (2 ^ 63 - 1) 75 (- 1) 0 Batch 250 10.


Lemma command_lines_roundtrip_witness :
  parse_server_arguments (server_command_line demo_server_arguments) = Parses (Ok demo_server_arguments) /\
  parse_node_arguments (node_command_line (bytes_of "250") demo_node_arguments) = Parses (Ok demo_node_arguments).
Proof.
  destruct (command_lines_roundtrip 800 1000 (bytes_of "250")) as (H1 & H2 & _). split.
  - apply H1. split; vm_compute; split; discriminate.
  - apply H2; [|discriminate|reflexivity]. split; try (vm_compute; split; discriminate).
    repeat constructor; try discriminate; apply not_elem_of_cons; (split; [discriminate|]); apply not_elem_of_cons; (split; [discriminate|apply not_elem_of_nil]).
Defined.
