(* ===== verification/ClientPrograms.v ===== *)
(** * The client programs

    The rest of client/main.cpp (one command, its output and the exit code)
    and of tools/workload_main.cpp (the requests of a worker, the counts and
    the report). Calls go through the cluster client of [ClusterClient]; what
    a server answers is a parameter, and so are the arithmetic of doubles, the
    clock and the random engine. *)

From S2P Require Import Prelude Path Store RequestProcessor GrpcService Observability ClusterService ClusterClient CommandLine Programs.

(** ** Usage *)

(** What a program leaves: the exit code, what it wrote, and the world. *)
Record Ended (W : Type) := mkEnded { en_code : Z; en_out : str; en_err : str; en_world : W }.
Arguments mkEnded {W}.
Arguments en_code {W}.
Arguments en_out {W}.
Arguments en_err {W}.
Arguments en_world {W}.

Definition text_lines (lines : list string) : str := concat (map (fun l => bytes_of l ++ [newline]) lines).

(** [usage] writes to the output when the exit code is 0. *)
Definition usage {W} (text : string -> list string) (program : string) (exit_code : Z) (w : W) : Ended W :=
  if exit_code =? 0 then mkEnded exit_code (text_lines (text program)) [] w else mkEnded exit_code [] (text_lines (text program)) w.

Definition client_usage (program : string) : list string := [
  String.append "Usage: " (String.append program " [options] <command> [arguments]");
  "Options:";
  "  --host <address>             default: 127.0.0.1";
  "  --port <port>                default: 5001";
  "  --timeout-ms <milliseconds>  default: 2000";
  "  --max-message-bytes <bytes>  default: 8388608";
  "Commands:";
  "  put <key> <value>";
  "  get <key>";
  "  delete <key>";
  "  batch-put <key> <value> [<key> <value> ...]";
  "  status"
]%string.

Definition workload_usage (program : string) : list string := [
  String.append "Usage: " (String.append program " [options]");
  "  --host <address>            default: 127.0.0.1";
  "  --port <port>               default: 5001";
  "  --duration-seconds <count>  default: 10";
  "  --clients <count>           default: 8";
  "  --keyspace <count>          default: 10000";
  "  --value-bytes <count>       default: 256";
  "  --read-ratio <0..1>         default: 0.8";
  "  --timeout-ms <count>        default: 2000"
]%string.

Definition server_usage (program : string) : list string := [
  String.append "Usage: " (String.append program " [options]");
  "  --host <address>                 default: 0.0.0.0";
  "  --port <port>                    default: 5001";
  "  --data-dir <path>                default: data/server";
  "  --workers <count>                default: 8";
  "  --queue-capacity <count>         default: 1024";
  "  --max-message-bytes <bytes>      default: 8388608";
  "  --max-batch-entries <count>      default: 1024";
  "  --max-batch-bytes <bytes>        default: 8388608";
  "  --durability <sync|batch|none>   default: sync";
  "  --checkpoint-on-shutdown"
]%string.

Definition node_usage (program : string) : list string := [
  String.append "Usage: " (String.append program " --node-id <id> [options]");
  "  --listen <host:port>              default: 0.0.0.0:5001";
  "  --advertise <host:port>           default: 127.0.0.1:5001";
  "  --peer <id=host:port>             repeat for every other node";
  "  --data-dir <path>                 default: data/node-1";
  "  --workers <count>                 default: 8";
  "  --queue-capacity <count>          default: 1024";
  "  --metrics-host <address>          default: 0.0.0.0";
  "  --metrics-port <port>             default: 9100";
  "  --election-min-ms <milliseconds>  default: 300";
  "  --election-max-ms <milliseconds>  default: 600";
  "  --heartbeat-ms <milliseconds>     default: 75";
  "  --rpc-timeout-ms <milliseconds>   default: 200";
  "  --snapshot-threshold <entries>    default: 10000";
  "  --durability <sync|batch|none>    default: sync";
  "  --fault-drop-probability <0..1>   default: 0";
  "  --fault-delay-ms <milliseconds>   default: 0"
]%string.

(** ** The client *)

(** [static_cast<int>(status.error_code())] *)
Definition status_number (c : StatusCode) : Z :=
  match c with
  | OK => 0
  | UNKNOWN => 2
  | INVALID_ARGUMENT => 3
  | DEADLINE_EXCEEDED => 4
  | RESOURCE_EXHAUSTED => 8
  | FAILED_PRECONDITION => 9
  | INTERNAL => 13
  | UNAVAILABLE => 14
  end.

Definition field (name : string) (value : str) : str := bytes_of name ++ bytes_of "=" ++ value ++ [newline].
Definition show_bool (b : bool) : str := bytes_of (if b then "1" else "0").

(** The fields of a response that were not set have their defaults. *)
Definition response_success (r : Response) : bool :=
  match r with PutResponse s _ _ => s | BatchPutResponse s _ _ _ => s | _ => false end.
Definition response_sequence_number (r : Response) : Z :=
  match r with PutResponse _ n _ => n | BatchPutResponse _ _ n _ => n | _ => 0 end.
Definition response_found (r : Response) : bool := match r with GetResponse f _ _ => f | _ => false end.
Definition response_value (r : Response) : str := match r with GetResponse _ v _ => v | _ => [] end.
Definition response_deleted (r : Response) : bool := match r with DeleteResponse d _ => d | _ => false end.
Definition response_writes_applied (r : Response) : Z := match r with BatchPutResponse _ n _ _ => n | _ => 0 end.

Section client.
Context {W : Type}.
Context (rpc : Request -> str -> World W -> (Status * Response * Metadata) * World W).
Context (status_rpc : str -> World W -> (Status * ClusterStatus * Metadata) * World W).
(** A response nothing was set in, and the way a stream prints the ratio. *)
Context (empty_status : ClusterStatus) (show_ratio : Z * Z -> str).

(** [ClusterClient::status] *)
Definition client_status : World W -> (Status * ClusterStatus) * World W := invoke_with_redirect status_rpc empty_status.

Definition report_rpc_error (status : Status) (w : World W) : Ended W :=
  mkEnded 2 [] (field "rpc_error_code" (show_integer (status_number (st_code status))) ++
                field "rpc_error_message" (bytes_of (st_message status))) (w_rest w).

Definition is_ok (status : Status) : bool := bool_decide (st_code status = OK).

(** The pairs after [batch-put]; [command[index + 1U]] exists because their
    number is even. *)
Fixpoint pairs (args : list str) : list (str * str) :=
  match args with
  | key :: value :: rest => (key, value) :: pairs rest
  | _ => []
  end.

Definition put_command_line (args : list str) (w : World W) : result (Ended W) :=
  match args with
  | [key; value] =>
      let '((status, response), w) := client_put rpc key value w in
      if negb (is_ok status) then Ok (report_rpc_error status w)
      else Ok (mkEnded (if response_success response then 0 else 3)
                 (field "success" (show_bool (response_success response)) ++
                  field "sequence_number" (show_integer (response_sequence_number response))) [] (w_rest w))
  | _ => Throw (InvalidArgument "put requires a key and value")
  end.

Definition get_command_line (args : list str) (w : World W) : result (Ended W) :=
  match args with
  | [key] =>
      let '((status, response), w) := client_get rpc key w in
      if negb (is_ok status) then Ok (report_rpc_error status w)
      else Ok (mkEnded (if response_found response then 0 else 4)
                 (field "found" (show_bool (response_found response)) ++
                  (if response_found response then field "value" (response_value response) else [])) [] (w_rest w))
  | _ => Throw (InvalidArgument "get requires a key")
  end.

Definition delete_command_line (args : list str) (w : World W) : result (Ended W) :=
  match args with
  | [key] =>
      let '((status, response), w) := client_remove rpc key w in
      if negb (is_ok status) then Ok (report_rpc_error status w)
      else Ok (mkEnded (if response_deleted response then 0 else 4)
                 (field "deleted" (show_bool (response_deleted response))) [] (w_rest w))
  | _ => Throw (InvalidArgument "delete requires a key")
  end.

(** [command] has the name of the command in front of [args]. *)
Definition batch_put_command_line (args : list str) (w : World W) : result (Ended W) :=
  if (zlen args <? 2) || negb (zlen args mod 2 =? 0) then Throw (InvalidArgument "batch-put requires one or more key/value pairs")
  else
    let '((status, response), w) := client_batch_put rpc (pairs args) w in
    if negb (is_ok status) then Ok (report_rpc_error status w)
    else Ok (mkEnded (if response_success response then 0 else 3)
               (field "success" (show_bool (response_success response)) ++
                field "writes_applied" (show_integer (response_writes_applied response)) ++
                field "last_sequence_number" (show_integer (response_sequence_number response))) [] (w_rest w)).

Definition show_status (s : ClusterStatus) : str :=
  let n := cst_snapshot s in
  field "ready" (show_bool (sn_ready n)) ++
  field "live_keys" (show_integer (sn_live_keys n)) ++
  field "last_sequence_number" (show_integer (sn_last_sequence_number n)) ++
  field "level0_sstables" (show_integer (sn_level0_sstables n)) ++
  field "level1_sstables" (show_integer (sn_level1_sstables n)) ++
  field "cache_hit_ratio" (show_ratio (sn_cache_hit_ratio n)) ++
  field "queued_requests" (show_integer (sn_queued_requests n)) ++
  field "active_requests" (show_integer (sn_active_requests n)) ++
  field "rejected_requests" (show_integer (sn_rejected_requests n)) ++
  field "requests_total" (show_integer (sn_requests_total n)) ++
  field "failed_requests_total" (show_integer (sn_failed_requests_total n)) ++
  field "node_id" (cst_node_id s) ++
  field "raft_role" (bytes_of (cst_raft_role s)) ++
  field "raft_term" (show_integer (cst_raft_term s)) ++
  field "leader_id" (cst_leader_id s) ++
  field "leader_address" (cst_leader_address s) ++
  field "raft_commit_index" (show_integer (cst_commit_index s)) ++
  field "raft_last_applied" (show_integer (cst_last_applied s)) ++
  field "raft_last_log_index" (show_integer (cst_last_log_index s)) ++
  field "raft_snapshot_index" (show_integer (cst_snapshot_index s)) ++
  field "raft_elections_total" (show_integer (cst_elections s)) ++
  field "raft_replication_failures_total" (show_integer (cst_replication_failures s)) ++
  field "raft_snapshots_created_total" (show_integer (cst_snapshots_created s)) ++
  field "raft_snapshots_installed_total" (show_integer (cst_snapshots_installed s)).

Definition status_command_line (args : list str) (w : World W) : result (Ended W) :=
  match args with
  | [] =>
      let '((status, response), w) := client_status w in
      if negb (is_ok status) then Ok (report_rpc_error status w)
      else Ok (mkEnded (if sn_ready (cst_snapshot response) then 0 else 5) (show_status response) [] (w_rest w))
  | _ => Throw (InvalidArgument "status does not accept arguments")
  end.

Definition run_command (command : list str) (w : World W) : result (Ended W) :=
  let operation := default [] (head command) in
  let args := tail command in
  if str_eqb operation (bytes_of "put") then put_command_line args w
  else if str_eqb operation (bytes_of "get") then get_command_line args w
  else if str_eqb operation (bytes_of "delete") then delete_command_line args w
  else if str_eqb operation (bytes_of "batch-put") then batch_put_command_line args w
  else if str_eqb operation (bytes_of "status") then status_command_line args w
  else Throw (InvalidArgument (String.append "unknown command: " (string_of operation))).

(** [host:port] *)
Definition seed_address (host : str) (port : Z) : str := host ++ bytes_of ":" ++ show_integer port.

(** The default of [max_redirects] is 3. *)
Definition client_options (a : ClientArguments) : ClusterClientOptions :=
  mkClusterClientOptions [seed_address (ca_host a) (ca_port a)] (ca_timeout a) (ca_max_message_bytes a) 3.

Definition client_failed (e : exn) (w : W) : Ended W :=
  mkEnded 1 [] (bytes_of "NebulaKV client failed: " ++ bytes_of (what e) ++ [newline]) w.

Definition client_main (program : string) (args : list str) (w : W) : Ended W :=
  match parse_client_arguments args with
  | ShowsUsage => usage client_usage program 0 w
  | Parses r =>
      match a ← r; c ← new_cluster_client (client_options a); run_command (ca_command a) (mkWorld c w) with
      | Ok ended => ended
      | Throw e => client_failed e w
      end
  end.
End client.

(** ** The workload *)

Record WorkerResult (F : Type) := mkWorkerResult {
  wr_operations : Z;
  wr_errors : Z;
  wr_reads : Z;
  wr_writes : Z;
  wr_latency_microseconds : list F
}.
Arguments mkWorkerResult {F}.
Arguments wr_operations {F}.
Arguments wr_errors {F}.
Arguments wr_reads {F}.
Arguments wr_writes {F}.
Arguments wr_latency_microseconds {F}.

Definition no_result {F} : WorkerResult F := mkWorkerResult 0 0 0 0 [].
Definition kMaximumLatencies : Z := 1000000.

Definition workload_key (key_number : Z) : str := bytes_of "key-" ++ show_integer key_number.

(** [std::string value(value_bytes, 'x')] with another first character. *)
Definition workload_value (value_bytes key_number : Z) : str :=
  match replicate (Z.to_nat value_bytes) x78 with
  | [] => []
  | _ :: rest => z2b (97 + key_number mod 26) :: rest
  end.

Section workload.
Context {F : Type} `{Double F}.
Context {W : Type}.
Context (rpc : Request -> str -> World W -> (Status * Response * Metadata) * World W).

(** What the engine and the clock gave for one turn: the number of the key,
    whether to read, and the time the call took. *)
Record Turn := mkTurn { tu_key_number : Z; tu_reads : bool; tu_latency : F }.

Definition workload_call (value_bytes : Z) (t : Turn) (w : World W) : Status * World W :=
  if tu_reads t then let '((status, _), w) := client_get rpc (workload_key (tu_key_number t)) w in (status, w)
  else
    let '((status, _), w) := client_put rpc (workload_key (tu_key_number t)) (workload_value value_bytes (tu_key_number t)) w in (status, w).

Definition count_turn (t : Turn) (ok : bool) (r : WorkerResult F) : WorkerResult F :=
  mkWorkerResult (u64 (wr_operations r + 1)) (if ok then wr_errors r else u64 (wr_errors r + 1))
    (if tu_reads t then u64 (wr_reads r + 1) else wr_reads r) (if tu_reads t then wr_writes r else u64 (wr_writes r + 1))
    (if zlen (wr_latency_microseconds r) <? kMaximumLatencies then wr_latency_microseconds r ++ [tu_latency t]
     else wr_latency_microseconds r).

(** The turns a worker makes before the time is over. *)
Fixpoint work (value_bytes : Z) (turns : list Turn) (r : WorkerResult F) (w : World W) : WorkerResult F * World W :=
  match turns with
  | [] => (r, w)
  | t :: rest =>
      let '(status, w) := workload_call value_bytes t w in
      work value_bytes rest (count_turn t (is_ok status) r) w
  end.

(** The sums over the workers. *)
Definition total_results (results : list (WorkerResult F)) : WorkerResult F :=
  foldl (fun a r => mkWorkerResult (u64 (wr_operations a + wr_operations r)) (u64 (wr_errors a + wr_errors r))
    (u64 (wr_reads a + wr_reads r)) (u64 (wr_writes a + wr_writes r)) (wr_latency_microseconds a ++ wr_latency_microseconds r)) no_result results.

Definition percentile (sorted : list F) (q : F) : F :=
  if is_nil sorted then d_zero
  else
    let position := d_mul q (d_of_Z (zlen sorted - 1)) in
    let lower := d_floor position in
    let upper := d_ceil position in
    let at_ (i : Z) := default d_zero (sorted !! Z.to_nat i) in
    if lower =? upper then at_ lower
    else d_add (at_ lower) (d_mul (d_sub (at_ upper) (at_ lower)) (d_sub position (d_of_Z lower))).

(** The report. [p50], [p95] and [p99] are the literals 0.50, 0.95 and 0.99,
    [divide] the division of doubles. *)
Definition workload_report (p50 p95 p99 : F) (divide : F -> F -> F) (is_zero : F -> bool) (clients : Z) (elapsed_seconds : F)
    (results : list (WorkerResult F)) : str :=
  let t := total_results results in
  let latencies := sort_by d_ltb (wr_latency_microseconds t) in
  let throughput := if is_zero elapsed_seconds then d_zero else divide (d_of_Z (wr_operations t)) elapsed_seconds in
  let error_rate := if wr_operations t =? 0 then d_zero else divide (d_of_Z (wr_errors t)) (d_of_Z (wr_operations t)) in
  field "clients" (show_integer clients) ++
  field "duration_seconds" (d_show elapsed_seconds) ++
  field "operations" (show_integer (wr_operations t)) ++
  field "reads" (show_integer (wr_reads t)) ++
  field "writes" (show_integer (wr_writes t)) ++
  field "operations_per_second" (d_show throughput) ++
  field "error_rate" (d_show error_rate) ++
  field "p50_latency_us" (d_show (percentile latencies p50)) ++
  field "p95_latency_us" (d_show (percentile latencies p95)) ++
  field "p99_latency_us" (d_show (percentile latencies p99)) ++
  field "max_latency_us" (d_show (default d_zero (last latencies))).
End workload.

(** ** The usage texts *)

(** The option at the front of a line of a usage text. *)
Definition shown_option (line : string) : option str :=
  let l := bytes_of line in
  if starts_with (bytes_of "  --") l then Some (match split_at x20 (drop 2 l) with Some (name, _) => name | None => drop 2 l end) else None.

Definition option_names {A} (table : list (string * Handler A)) : list str := map (fun e => bytes_of e.1) table.

(** The lines show the options of the parsers, in order; that of a node
    leaves out [--max-message-bytes], and has [--node-id] in its first line. *)
Lemma usage_lists_options {F} `{Double F} `{Strtod F} program :
  omap shown_option (server_usage program) = option_names server_options_table /\
  omap shown_option (client_usage program) = option_names client_options_table /\
  omap shown_option (workload_usage program) = option_names (workload_options_table (F := F)) /\
  bytes_of "--node-id" :: omap shown_option (node_usage program) =
    filter (fun n => n <> bytes_of "--max-message-bytes") (option_names (node_options_table (F := F))).
Proof. by vm_compute. Qed.

(** ** The client's exit code *)

(** The request a command makes. *)
Inductive command_request : list str -> Request -> Prop :=
| cr_put key value : command_request [bytes_of "put"; key; value] (PutRequest key value)
| cr_get key : command_request [bytes_of "get"; key] (GetRequest key)
| cr_delete key : command_request [bytes_of "delete"; key] (DeleteRequest key)
| cr_batch_put entries : entries <> [] -> command_request (bytes_of "batch-put" :: concat (map (fun e => [e.1; e.2]) entries)) (BatchPutRequest entries).

(** The answer is what was asked for. *)
Definition affirmed (r : Response) : bool := response_success r || response_found r || response_deleted r.

Lemma pairs_concat entries : pairs (concat (map (fun e => [e.1; e.2]) entries)) = entries.
Proof. induction entries as [|[k v] es IH]; [done|]. cbn. by rewrite IH. Qed.

Lemma concat_pairs args : zlen args mod 2 = 0 -> concat (map (fun e => [e.1; e.2]) (pairs args)) = args.
Proof.
  remember (length args) as n eqn:En. revert args En. induction n as [n IH] using lt_wf_ind. intros args -> H.
  destruct args as [|k [|v args]]; [done| |].
  - by vm_compute in H.
  - cbn [pairs map concat app]. rewrite (IH (length args)); [done|simpl; lia|done|]. assert (E : zlen (k :: v :: args) = zlen args + 1 * 2) by (rewrite !zlen_cons; lia).
    rewrite E in H. by rewrite Z_mod_plus_full in H.
Qed.

Lemma pairs_length entries : zlen (concat (map (fun e : str * str => [e.1; e.2]) entries)) = 2 * zlen entries.
Proof. induction entries as [|e es IH]; [done|]. cbn [map concat app]. rewrite !zlen_cons, IH. lia. Qed.

(** A response of the method that was called. *)
Definition kind_ok (request : Request) (r : Response) : Prop :=
  match request with
  | PutRequest _ _ => response_found r = false /\ response_deleted r = false
  | GetRequest _ => response_success r = false /\ response_deleted r = false
  | DeleteRequest _ => response_success r = false /\ response_found r = false
  | BatchPutRequest _ => response_found r = false /\ response_deleted r = false
  end.

Section exit_code.
Context {W : Type}.
Context (rpc : Request -> str -> World W -> (Status * Response * Metadata) * World W).
Context (status_rpc : str -> World W -> (Status * ClusterStatus * Metadata) * World W).
Context (empty_status : ClusterStatus) (show_ratio : Z * Z -> str).
(** A stub fills in the response of the method it calls. *)
Hypothesis rpc_kind : forall request address w, kind_ok request (rpc request address w).1.1.2.

Lemma loop_kind request turns last w : kind_ok request last.2 -> kind_ok request (redirect_loop (rpc request) turns last w).1.2.
Proof.
  revert last w. induction turns as [|n IH]; intros last w Hl; [done|]. cbn [redirect_loop].
  pose proof (rpc_kind request (current_address_ (w_client w)) w) as Hk. destruct (rpc request _ w) as [[[status r] m] w1]. cbn in Hk.
  destruct (bool_decide _); [done|]. destruct (_ || _); [done|]. by apply IH.
Qed.

Lemma invoke_kind request w : kind_ok request (invoke_with_redirect (rpc request) (empty_response request) w).1.2.
Proof. apply loop_kind. by destruct request. Qed.

(** How a command ends once its call was answered. *)
Definition concluded (status : Status) (affirmed : bool) (otherwise : Z) (out : str) (w : World W) : Ended W :=
  if negb (is_ok status) then report_rpc_error status w else mkEnded (if affirmed then 0 else otherwise) out [] (w_rest w).

Lemma concluded_spec status b n out w :
  n ∈ [3; 4] -> let e := concluded status b n out w in
  en_world e = w_rest w /\ en_code e ∈ [0; 2; 3; 4] /\ (en_code e = 2 <-> st_code status <> OK) /\
  (en_code e = 0 <-> st_code status = OK /\ b = true).
Proof.
  intros Hn. unfold concluded, is_ok. destruct (bool_decide (st_code status = OK)) eqn:Eo; cbn [negb].
  - apply bool_decide_eq_true in Eo. rewrite Eo. assert (n = 3 \/ n = 4) as Hn' by (rewrite !elem_of_cons, elem_of_nil in Hn; tauto).
    destruct b; cbn; rewrite !elem_of_cons; (split; [done|split; [tauto|split; (split; intros Hx; first [done|exfalso; lia|naive_solver])]]).
  - apply bool_decide_eq_false in Eo. cbn. rewrite !elem_of_cons. split; [done|split; [tauto|split; (split; intros Hx; first [done|naive_solver])]].
Qed.

Lemma run_command_request command request w :
  command_request command request ->
  let '((status, response), w') := invoke_with_redirect (rpc request) (empty_response request) w in
  exists e, run_command rpc status_rpc empty_status show_ratio command w = Ok e /\ en_world e = w_rest w' /\
    en_code e ∈ [0; 2; 3; 4] /\ (en_code e = 2 <-> st_code status <> OK) /\ (en_code e = 0 <-> st_code status = OK /\ affirmed response = true).
Proof.
  intros Hc. pose proof (invoke_kind request w) as Hk. destruct (invoke_with_redirect _ _ w) as [[status r] w'] eqn:E. cbn in Hk.
  enough (H : exists n out, n ∈ [3; 4] /\ run_command rpc status_rpc empty_status show_ratio command w =
    Ok (concluded status (affirmed r) n out w')).
  { destruct H as (n & out & Hn & ->). eexists. split; [done|]. by apply concluded_spec. }
  unfold affirmed, concluded. destruct Hc as [key value|key|key|entries Hne]; destruct Hk as [K1 K2]; rewrite K1, K2, ?orb_false_r, ?orb_false_l.
  - exists 3. eexists. split; [rewrite !elem_of_cons; tauto|]. unfold run_command, put_command_line, client_put. cbn [head tail default]. rewrite E.
    by destruct (is_ok status).
  - exists 4. eexists. split; [rewrite !elem_of_cons; tauto|]. unfold run_command, get_command_line, client_get. cbn [head tail default]. rewrite E.
    by destruct (is_ok status).
  - exists 4. eexists. split; [rewrite !elem_of_cons; tauto|]. unfold run_command, delete_command_line, client_remove. cbn [head tail default]. rewrite E.
    by destruct (is_ok status).
  - exists 3. eexists. split; [rewrite !elem_of_cons; tauto|].
    unfold run_command, batch_put_command_line, client_batch_put. cbn [head tail default]. rewrite pairs_length, pairs_concat, E.
    assert (Hz : 0 < zlen entries) by (destruct entries; [done|]; rewrite zlen_cons; pose proof (zlen_nonneg entries); lia).
    rewrite (proj2 (Z.ltb_ge (2 * zlen entries) 2)) by lia. rewrite Z.mul_comm, Z_mod_mult. by destruct (is_ok status).
Qed.

Lemma run_command_code command w e : run_command rpc status_rpc empty_status show_ratio command w = Ok e -> en_code e <> 1.
Proof.
  unfold run_command, put_command_line, get_command_line, delete_command_line, batch_put_command_line, status_command_line, report_rpc_error.
  intros H. repeat match goal with
  | H : Ok _ = Ok _ |- _ => injection H as <-
  | H : Throw _ = Ok _ |- _ => discriminate H
  | H : context [let '(_, _) := ?c in _] |- _ => destruct c
  | H : context [match ?c with _ => _ end] |- _ => destruct c
  end; cbn; by repeat case_match.
Qed.

(** A command that is none of the programs' is refused before any call. *)
Lemma run_command_throws command w e :
  run_command rpc status_rpc empty_status show_ratio command w = Throw e -> forall request, ~ command_request command request.
Proof.
  intros H request Hc. pose proof (run_command_request command request w Hc) as Hr.
  destruct (invoke_with_redirect _ _ w) as [[status r] w']. destruct Hr as (e' & E & _). congruence.
Qed.
End exit_code.

(** C40: the exit code of the client tells what happened. A command that spells
    a request makes exactly that request, redirects included, and the code is
    0 when it was answered OK and affirmed (written, found, deleted), 2 when
    the call failed, 3 or 4 otherwise; every other end of the program without
    a call (a bad option, a bad command, a client that cannot be made) has code 1
    and leaves the world as it was. *)
Theorem client_exit_code {W} rpc status_rpc empty_status show_ratio program args (w : W) :
  (forall request address w, kind_ok request (rpc request address w).1.1.2) ->
  let e := client_main rpc status_rpc empty_status show_ratio program args w in
  (forall a c request, parse_client_arguments args = Parses (Ok a) -> new_cluster_client (client_options a) = Ok c ->
     command_request (ca_command a) request ->
     let '((status, response), w') := invoke_with_redirect (rpc request) (empty_response request) (mkWorld c w) in
     en_world e = w_rest w' /\ en_code e ∈ [0; 2; 3; 4] /\ (en_code e = 2 <-> st_code status <> OK) /\
     (en_code e = 0 <-> st_code status = OK /\ affirmed response = true)) /\
  (en_code e = 1 -> en_world e = w /\ en_out e = [] /\
     forall a c request, parse_client_arguments args = Parses (Ok a) -> new_cluster_client (client_options a) = Ok c ->
       ~ command_request (ca_command a) request).
Proof.
  intros Hk e. split.
  - intros a c request Ha Hc Hr. pose proof (run_command_request rpc status_rpc empty_status show_ratio Hk _ _ (mkWorld c w) Hr) as H.
    destruct (invoke_with_redirect _ _ _) as [[status r] w']. destruct H as (e' & E & H). subst e. unfold client_main. rewrite Ha.
    unfold mbind, result_bind. by rewrite Hc, E.
  - subst e. unfold client_main. destruct (parse_client_arguments args) as [|[a|e]]; [done| |intros _; by split_and!].
    unfold mbind, result_bind. destruct (new_cluster_client _) as [c|e] eqn:Ec.
    2:{ intros _. split_and!; [done..|]. intros a' c' request [= <-] Hc'. congruence. }
    destruct (run_command _ _ _ _ _ _) as [e|e] eqn:Er.
    + intros He. by apply run_command_code in Er.
    + intros _. split_and!; [done..|]. intros a' c' request [= <-] Hc'. rewrite Ec in Hc'. injection Hc' as <-. by eapply run_command_throws.
Qed.

(** *** Witness *)

(** A cluster of one member that stores one pair. *)
Definition demo_rpc (request : Request) (address : str) (w : World (option (str * str)))
    : (Status * Response * Metadata) * World (option (str * str)) :=
  match request with
  | PutRequest key value => ((ok_status, PutResponse true 1 no_detail, []), mkWorld (w_client w) (Some (key, value)))
  | GetRequest key =>
      ((ok_status, match w_rest w with
                   | Some (k, v) => if str_eqb k key then GetResponse true v no_detail else GetResponse false [] no_detail
                   | None => GetResponse false [] no_detail
                   end, []), w)
  | DeleteRequest _ => ((mkStatus INTERNAL "no", NoResponse, []), w)
  | BatchPutRequest _ => ((mkStatus INTERNAL "no", NoResponse, []), w)
  end.
Definition demo_status : ClusterStatus :=
  mkClusterStatus (mkStatusSnapshot true 0 0 0 0 0 0 0 (0, 1) 0 0 0 0 0 0) [] "leader" 1 [] [] 0 0 0 0 0 0 0 0.

Lemma client_exit_code_witness :
  let e := client_main demo_rpc (fun _ w => ((ok_status, demo_status, []), w)) demo_status (fun _ => bytes_of "0") "nebulakv-client"
             (map bytes_of ["--port"; "7000"; "put"; "a"; "1"]%string) None in
  en_code e = 0 /\ en_world e = Some (bytes_of "a", bytes_of "1") /\
  en_code (client_main demo_rpc (fun _ w => ((ok_status, demo_status, []), w)) demo_status (fun _ => bytes_of "0") "nebulakv-client"
             (map bytes_of ["get"; "b"]%string) (en_world e)) = 4.
Proof.
  assert (Hk : forall request address w, kind_ok request (demo_rpc request address w).1.1.2).
  { intros [| | |] address w; simpl; try done. destruct (w_rest w) as [[k v]|]; [|done]. by destruct (str_eqb k key). }
  intros e.
  destruct (client_exit_code demo_rpc (fun _ w => ((ok_status, demo_status, []), w)) demo_status (fun _ => bytes_of "0") "nebulakv-client"
             (map bytes_of ["--port"; "7000"; "put"; "a"; "1"]%string) None Hk) as [H _].
  fold e in H.
  destruct (parse_client_arguments (map bytes_of ["--port"; "7000"; "put"; "a"; "1"]%string)) as [|[a|]] eqn:Ea; [discriminate| |discriminate].
  injection Ea as <-.
  specialize (H _ _ (PutRequest (bytes_of "a") (bytes_of "1")) eq_refl eq_refl (cr_put _ _)). cbn in H. destruct H as (H1 & _ & _ & H2).
  split; [apply H2; by split|]. split; [exact H1|]. rewrite H1. vm_compute. reflexivity.
Defined.

(** ** The counts of a workload *)

Section counts.
Context {F : Type} `{Double F} {W : Type}.
Context (rpc : Request -> str -> World W -> (Status * Response * Metadata) * World W).

(** Every operation was a read or a write; no more latencies are kept than
    there were operations, nor than the limit. *)
Record balanced (n limit : Z) (r : WorkerResult F) : Prop := {
  ba_operations : wr_operations r = u64 n;
  ba_kinds : u64 (wr_reads r + wr_writes r) = u64 n;
  ba_errors : exists failed, 0 <= failed <= n /\ wr_errors r = u64 failed;
  ba_latencies : zlen (wr_latency_microseconds r) <= Z.min n limit
}.

Lemma count_turn_balanced n t ok r :
  0 <= n -> balanced n kMaximumLatencies r -> balanced (n + 1) kMaximumLatencies (count_turn t ok r).
Proof.
  intros Hn [H1 H2 (failed & H3 & H4) H5]. split; cbn [count_turn wr_operations wr_errors wr_reads wr_writes wr_latency_microseconds].
  - by rewrite H1, u64_add_l.
  - destruct (tu_reads t).
    + rewrite u64_add_l. replace (wr_reads r + 1 + wr_writes r) with (wr_reads r + wr_writes r + 1) by lia. by rewrite <- u64_add_l, H2, u64_add_l.
    + rewrite (Z.add_comm (wr_reads r)), u64_add_l. replace (wr_writes r + 1 + wr_reads r) with (wr_reads r + wr_writes r + 1) by lia.
      by rewrite <- u64_add_l, H2, u64_add_l.
  - destruct ok; [exists failed; split; [lia|done]|]. exists (failed + 1). split; [lia|]. by rewrite H4, u64_add_l.
  - destruct (zlen (wr_latency_microseconds r) <? kMaximumLatencies) eqn:E; zbool; [rewrite zlen_app, zlen_cons, zlen_nil|]; lia.
Qed.

Lemma work_balanced value_bytes turns n r w :
  0 <= n -> balanced n kMaximumLatencies r -> balanced (n + zlen turns) kMaximumLatencies (work rpc value_bytes turns r w).1.
Proof.
  revert n r w. induction turns as [|t turns IH]; intros n r w Hn Hr; [by rewrite zlen_nil, Z.add_0_r|]. cbn [work].
  destruct (workload_call rpc value_bytes t w) as [status w1]. rewrite zlen_cons.
  replace (n + (1 + zlen turns)) with (n + 1 + zlen turns) by lia.
  apply IH; [lia|]. by apply count_turn_balanced.
Qed.

Lemma total_balanced ns results :
  Forall2 (fun n r => 0 <= n /\ balanced n kMaximumLatencies r) ns results ->
  balanced (foldr Z.add 0 ns) (zlen results * kMaximumLatencies) (total_results results).
Proof.
  intros Hf. unfold total_results.
  enough (G : forall m k a, 0 <= m -> 0 <= k -> balanced m (k * kMaximumLatencies) a ->
    balanced (m + foldr Z.add 0 ns) ((k + zlen results) * kMaximumLatencies)
      (foldl (fun a r => mkWorkerResult (u64 (wr_operations a + wr_operations r)) (u64 (wr_errors a + wr_errors r))
        (u64 (wr_reads a + wr_reads r)) (u64 (wr_writes a + wr_writes r)) (wr_latency_microseconds a ++ wr_latency_microseconds r)) a results)).
  { apply (G 0 0 no_result); [lia..|]. split; try done. exists 0. split; [lia|done]. }
  induction Hf as [|n r ns results [Hn [B1 B2 (f2 & B3 & B4) B5]] _ IH]; intros m k a Hm Hk [A1 A2 (f1 & A3 & A4) A5]; cbn [foldl foldr].
  { change (zlen (@nil (WorkerResult F))) with 0. rewrite (Z.add_0_r m), (Z.add_0_r k). constructor; [done|done|by exists f1|done]. }
  rewrite zlen_cons. replace (m + (n + foldr Z.add 0 ns)) with (m + n + foldr Z.add 0 ns) by lia.
  replace (k + (1 + zlen results)) with (k + 1 + zlen results) by lia.
  apply IH; [lia|lia|]. split; cbn [wr_operations wr_errors wr_reads wr_writes wr_latency_microseconds].
  - rewrite A1, B1, u64_add_l, Z.add_comm, u64_add_l. f_equal. lia.
  - rewrite u64_add_l, Z.add_comm, u64_add_l.
    replace (wr_writes a + wr_writes r + (wr_reads a + wr_reads r)) with (wr_reads a + wr_writes a + (wr_reads r + wr_writes r)) by lia.
    rewrite <- u64_add_l, A2, u64_add_l, Z.add_comm, <- u64_add_l, B2, u64_add_l. f_equal. lia.
  - exists (f1 + f2). split; [lia|]. rewrite A4, B4, u64_add_l, Z.add_comm, u64_add_l. f_equal. lia.
  - rewrite zlen_app. unfold kMaximumLatencies in *. lia.
Qed.

(** The counts of the report: the workers' turns, reads and writes together,
    and no more errors than turns. *)
Theorem workload_counts value_bytes (turns : list (list Turn)) (ws : list (World W)) :
  length ws = length turns ->
  balanced (foldr Z.add 0 (map zlen turns)) (zlen turns * kMaximumLatencies)
    (total_results (zip_with (fun t w => (work rpc value_bytes t no_result w).1) turns ws)).
Proof.
  intros Hl. assert (Hz : zlen turns = zlen (zip_with (fun t w => (work rpc value_bytes t no_result w).1) turns ws)).
  { unfold zlen. rewrite length_zip_with. lia. }
  rewrite Hz. apply total_balanced. clear Hz. revert ws Hl. induction turns as [|t turns IH]; intros [|w ws] Hl; try done.
  cbn [map zip_with]. constructor; [|apply IH; by injection Hl]. split; [apply zlen_nonneg|].
  apply (work_balanced value_bytes t 0 no_result w); [lia|]. split; try done. exists 0. split; [lia|done].
Qed.
End counts.

(** The value a workload writes has the size that was asked for. *)
Lemma workload_value_size value_bytes key_number : 0 <= value_bytes -> zlen (workload_value value_bytes key_number) = value_bytes.
Proof.
  intros Hv. unfold workload_value. destruct (replicate _ _) as [|c rest] eqn:E.
  - apply (f_equal length) in E. rewrite length_replicate in E. simpl in E. unfold zlen. simpl. lia.
  - apply (f_equal length) in E. rewrite length_replicate in E. simpl in E. unfold zlen. simpl. lia.
Qed.
