(* ===== verification/MetricsHttp.v ===== *)
(** * The HTTP server of the metrics

    src/observability/metrics_http_server.cpp: one thread that listens, takes
    one connection at a time, reads once, answers and closes.  The outcomes of
    the system calls are arguments of the steps; the bytes a client sends come
    in a step of their own, since [recv] waits for them. *)

From S2P Require Import Prelude Posix Path CommandLine.

(** ** Definitions *)

(** [send_all]: what has been sent when it returns. *)
Fixpoint send_loop (script : list io_event) (response sent : str) : str :=
  match response with
  | [] => sent
  | _ =>
      match script with
      | [] => sent ++ response
      | Interrupted :: s => send_loop s response sent
      | Failed _ :: s => sent
      | Done k :: s => send_loop s (drop (Z.to_nat k) response) (sent ++ take (Z.to_nat k) response)
      end
  end.
Definition send_all (script : list io_event) (response : str) : str := send_loop script response [].

Definition crlf : str := [x0d; x0a].
Definition kRequestBytes : Z := 1024.
Definition metrics_target : str := bytes_of "GET /metrics ".

(** What one [recv] has got, [None] when it failed. *)
Definition is_metrics_request (received : option str) : bool :=
  match received with Some request => negb (is_nil request) && starts_with metrics_target request | None => false end.

Definition http_response (status body : str) : str :=
  bytes_of "HTTP/1.1 " ++ status ++ crlf ++ bytes_of "Content-Type: text/plain; version=0.0.4" ++ crlf ++
  bytes_of "Connection: close" ++ crlf ++ bytes_of "Content-Length: " ++ show_integer (zlen body) ++ crlf ++ crlf ++ body.

Definition not_found_body : str := bytes_of "not found" ++ [x0a].

(** The answer to a connection; [rendered] is what [renderer_] returns. *)
Definition answer_connection (received : option str) (rendered : str) : str :=
  if is_metrics_request received then http_response (bytes_of "200 OK") rendered
  else http_response (bytes_of "404 Not Found") not_found_body.

(** Where the thread is: before [listen], in [select] or [accept], in [recv],
    or at its end; none before [start] and after [stop] has joined it. *)
Inductive HttpThread :=
| Absent
| Opening
| Polling
| Receiving
| Ended.

#[export] Instance HttpThread_eq_dec : EqDecision HttpThread.
Proof. solve_decision. Defined.

Record MetricsHttpServer := mkMetricsHttpServer {
  mh_host : str;
  mh_requested_port : Z;
  mh_running : bool;
  mh_stop_requested : bool;
  mh_bound_port : Z;
  mh_listening : bool;
  mh_thread : HttpThread
}.

Definition new_metrics_server (host : str) (port : Z) (renderer_given : bool) : result MetricsHttpServer :=
  _ ← throw_if (is_nil host) (InvalidArgument "metrics host must not be empty");
  _ ← throw_if (negb renderer_given) (InvalidArgument "metrics renderer must be provided");
  mret (mkMetricsHttpServer host port false false 0 false Absent).

Definition set_thread (t : HttpThread) (m : MetricsHttpServer) : MetricsHttpServer :=
  mkMetricsHttpServer (mh_host m) (mh_requested_port m) (mh_running m) (mh_stop_requested m) (mh_bound_port m) (mh_listening m) t.

(** [start] up to the thread; [None] when the server runs already. *)
Definition mh_start (m : MetricsHttpServer) : option MetricsHttpServer :=
  if mh_running m then None
  else Some (mkMetricsHttpServer (mh_host m) (mh_requested_port m) true false (mh_bound_port m) (mh_listening m) Opening).

(** The first part of [run]: what [socket], [inet_pton], [bind] and [listen],
    and [getsockname] return. *)
Definition open_socket (has_socket has_address bound : bool) (name : option Z) (m : MetricsHttpServer) : MetricsHttpServer :=
  if has_socket && has_address && bound then
    mkMetricsHttpServer (mh_host m) (mh_requested_port m) (mh_running m) (mh_stop_requested m) (default (mh_bound_port m) name) true Polling
  else mkMetricsHttpServer (mh_host m) (mh_requested_port m) (mh_running m) (mh_stop_requested m) (mh_bound_port m) false Ended.

(** The end of [start], when the port has appeared or the time is over: [true]
    when the server is up, [false] when [stop] follows and [start] throws. *)
Definition mh_started (m : MetricsHttpServer) : bool := negb (mh_bound_port m =? 0).
Definition start_failed : exn := RuntimeError "metrics HTTP server failed to bind".

(** A turn of the loop: the test, [select] and [accept]. *)
Definition poll_turn (ready accepted : bool) (m : MetricsHttpServer) : MetricsHttpServer :=
  if mh_stop_requested m then
    mkMetricsHttpServer (mh_host m) (mh_requested_port m) (mh_running m) (mh_stop_requested m) (mh_bound_port m) false Ended
  else if ready && accepted then set_thread Receiving m
  else m.

(** The section of [stop] before the join; [None] when the server does not
    run. *)
Definition mh_stop (m : MetricsHttpServer) : option MetricsHttpServer :=
  if mh_running m then
    Some (mkMetricsHttpServer (mh_host m) (mh_requested_port m) false true (mh_bound_port m) (mh_listening m) (mh_thread m))
  else None.

(** [stop] joins the thread. *)
Definition mh_join (m : MetricsHttpServer) : option MetricsHttpServer :=
  match mh_thread m with
  | Ended => Some (mkMetricsHttpServer (mh_host m) (mh_requested_port m) (mh_running m) (mh_stop_requested m) 0 (mh_listening m) Absent)
  | _ => None
  end.

(** The steps of the thread that need no client, and those of its callers. *)
Inductive thread_step : MetricsHttpServer -> MetricsHttpServer -> Prop :=
| ts_open has_socket has_address bound name m : mh_thread m = Opening -> thread_step m (open_socket has_socket has_address bound name m)
| ts_poll ready accepted m : mh_thread m = Polling -> thread_step m (poll_turn ready accepted m).

Inductive http_step : MetricsHttpServer -> MetricsHttpServer -> Prop :=
| hs_thread m m' : thread_step m m' -> http_step m m'
| hs_start m m' : mh_thread m = Absent -> mh_start m = Some m' -> http_step m m'
| hs_stop m m' : mh_stop m = Some m' -> http_step m m'
| hs_join m m' : mh_join m = Some m' -> http_step m m'.

(** [recv] returns, and the connection is answered and closed. *)
Inductive http_received : MetricsHttpServer -> option str -> MetricsHttpServer -> Prop :=
| hr_receive received m :
    mh_thread m = Receiving -> (forall request, received = Some request -> zlen request <= kRequestBytes) ->
    http_received m received (set_thread Polling m).

(** ** A client that reads the answer *)

(** A line up to its CRLF. *)
Fixpoint http_line (s : str) : option (str * str) :=
  match s with
  | [] => None
  | c :: rest =>
      if bool_decide (c = x0d) then match rest with l :: rest' => if bool_decide (l = x0a) then Some ([], rest') else None | [] => None end
      else '(line, rest') ← http_line rest; Some (c :: line, rest')
  end.

(** The lines up to the empty one. *)
Fixpoint http_head (fuel : nat) (s : str) : option (list str * str) :=
  match fuel with
  | O => None
  | S fuel =>
      '(line, rest) ← http_line s;
      if is_nil line then Some ([], rest) else '(lines, rest') ← http_head fuel rest; Some (line :: lines, rest')
  end.

Definition content_length (lines : list str) : option Z :=
  line ← List.find (starts_with (bytes_of "Content-Length: ")) lines;
  match parse_integer uint64_type (drop 16 line) [] with Ok n => Some n | Throw _ => None end.

(** The status line and the body. *)
Definition read_response (s : str) : option (str * str) :=
  '(lines, rest) ← http_head (length s) s;
  n ← content_length lines;
  if zlen rest =? n then line ← head lines; Some (line, rest) else None.

(** ** Lemmas *)

Lemma send_loop_prefix script response sent : send_loop script response sent `prefix_of` sent ++ response.
Proof.
  revert response sent. induction script as [|ev script IH]; intros [|b response] sent; cbn [send_loop]; try (by rewrite app_nil_r); try done.
  destruct ev as [|e|k]; [apply IH|by apply prefix_app_r|]. etrans; [apply IH|]. by rewrite <- app_assoc, take_drop.
Qed.

(** Without an error everything is sent. *)
Lemma send_loop_all script response sent : forallb (fun ev => match ev with Failed _ => false | _ => true end) script = true ->
  send_loop script response sent = sent ++ response.
Proof.
  revert response sent. induction script as [|ev script IH]; intros [|b response] sent Hc; cbn [send_loop]; try (by rewrite app_nil_r); try done.
  cbn [forallb] in Hc. destruct ev as [|e|k]; [by apply IH|done|]. rewrite IH by done. by rewrite <- app_assoc, take_drop.
Qed.

Lemma http_line_app l s : x0d ∉ l -> http_line (l ++ crlf ++ s) = Some (l, s).
Proof.
  induction l as [|c l IH]; intros Hn; [done|]. apply not_elem_of_cons in Hn as [Hc Hn]. cbn [app http_line].
  rewrite bool_decide_false by done. by rewrite IH.
Qed.

Lemma http_head_line fuel l s : l <> [] -> x0d ∉ l ->
  http_head (S fuel) (l ++ crlf ++ s) = '(lines, rest) ← http_head fuel s; Some (l :: lines, rest).
Proof. intros Hl Hn. cbn [http_head]. rewrite http_line_app by done. cbn. by destruct l. Qed.

Lemma digits_no_cr fuel n : x0d ∉ digits fuel n.
Proof.
  intros Hin. pose proof (digits_are_digits fuel n) as H. rewrite forallb_forall in H. apply list_elem_of_In in Hin. by specialize (H _ Hin).
Qed.

(** A status without a CR, as the two of the source. *)
Lemma read_http_response status body :
  x0d ∉ status -> zlen body <= u64_max -> read_response (http_response status body) = Some (bytes_of "HTTP/1.1 " ++ status, body).
Proof.
  intros Hs Hb. set (l1 := bytes_of "HTTP/1.1 " ++ status). set (l2 := bytes_of "Content-Type: text/plain; version=0.0.4").
  set (l3 := bytes_of "Connection: close"). set (l4 := bytes_of "Content-Length: " ++ show_integer (zlen body)).
  assert (Hr : http_response status body = l1 ++ crlf ++ l2 ++ crlf ++ l3 ++ crlf ++ l4 ++ crlf ++ crlf ++ body)
    by (unfold http_response, l1, l2, l3, l4; by rewrite <- !app_assoc).
  pose proof (zlen_nonneg body) as Hb0.
  assert (Hl4 : x0d ∉ l4).
  { unfold l4, show_integer. rewrite (proj2 (Z.ltb_ge _ _)) by lia. intros [Hx|Hx]%elem_of_app; [|by eapply digits_no_cr].
    revert Hx. apply (bool_decide_unpack (x0d ∉ bytes_of "Content-Length: ")). by vm_compute. }
  assert (Hl1 : x0d ∉ l1).
  { unfold l1. intros [Hx|Hx]%elem_of_app; [|done]. revert Hx. apply (bool_decide_unpack (x0d ∉ bytes_of "HTTP/1.1 ")). by vm_compute. }
  assert (Hhead : http_head (length (http_response status body)) (http_response status body) = Some ([l1; l2; l3; l4], body)).
  { rewrite Hr. assert (Hlen : exists n, length (l1 ++ crlf ++ l2 ++ crlf ++ l3 ++ crlf ++ l4 ++ crlf ++ crlf ++ body) = S (S (S (S (S n))))).
    { exists (length (l1 ++ crlf ++ l2 ++ crlf ++ l3 ++ crlf ++ l4 ++ crlf ++ crlf ++ body) - 5)%nat. rewrite !length_app. unfold l2. cbn [length bytes_of]. 
      change (length (bytes_of "Content-Type: text/plain; version=0.0.4")) with 39%nat. lia. }
    destruct Hlen as [n ->]. rewrite http_head_line by (done || (by apply (bool_decide_unpack _); vm_compute)).
    rewrite http_head_line; [|done|apply (bool_decide_unpack (x0d ∉ l2)); by vm_compute].
    rewrite http_head_line; [|done|apply (bool_decide_unpack (x0d ∉ l3)); by vm_compute].
    by rewrite http_head_line. }
  unfold read_response. rewrite Hhead. cbn [mbind option_bind]. 
  assert (Hc : content_length [l1; l2; l3; l4] = Some (zlen body)).
  { unfold content_length. cbn [List.find].
    assert (starts_with (bytes_of "Content-Length: ") l1 = false) as -> by reflexivity.
    assert (starts_with (bytes_of "Content-Length: ") l2 = false) as -> by reflexivity.
    assert (starts_with (bytes_of "Content-Length: ") l3 = false) as -> by reflexivity.
    assert (starts_with (bytes_of "Content-Length: ") l4 = true) as -> by apply starts_with_app.
    cbn [mbind option_bind]. unfold l4. change 16%nat with (length (bytes_of "Content-Length: ")). rewrite drop_app_length.
    rewrite parse_shown; [done|by right; left|]. unfold has_type. cbn. unfold u64_max in *. lia. }
  rewrite Hc. cbn [mbind option_bind]. by rewrite Z.eqb_refl.
Qed.

(** *** Stopping *)

(** A client that has connected and sends nothing keeps the thread in [recv],
    whatever else happens. *)
Lemma silent_client m m' : mh_thread m = Receiving -> rtc http_step m m' -> mh_thread m' = Receiving /\ mh_join m' = None.
Proof.
  intros Ht Hs. induction Hs as [m|m m1 m' Hs _ IH]; [unfold mh_join; by rewrite Ht|]. apply IH. clear IH.
  destruct Hs as [m m1 [h a b n m2 H1|r a m2 H1]|m m1 H1 _|m m1 E|m m1 E]; try congruence.
  - unfold mh_stop in E. destruct (mh_running m); [|done]. by injection E as <-.
  - unfold mh_join in E. by rewrite Ht in E.
Qed.

(** Otherwise the next turn of the loop ends it. *)
Lemma polled_stop ready accepted m :
  mh_thread m = Polling -> mh_stop_requested m = true -> exists m', mh_join (poll_turn ready accepted m) = Some m' /\ mh_bound_port m' = 0.
Proof. intros _ Hs. unfold poll_turn. rewrite Hs. by eexists. Qed.
