(* ===== verification/Statistics.v ===== *)
(** * What the storage engine tells about itself

    The statistics and the accessors of src/block_cache.cpp,
    src/sstable_reader.cpp, src/sstable_manager.cpp,
    src/persistent_key_value_store.cpp and src/raft/state_machine.cpp, and the
    two calls that change nothing but them: clearing the cache of blocks and
    resetting the counters of reads. *)

From S2P Require Import Prelude OrderedMap Posix FileSystem Path Store BloomFilter BlockCache MemTableSet WalWriter Recovery SstFormat SstWriter SstReader Manifest TableView OpenTables SstManager ManagerInv ManagerCost PersistentStore StoreInv StoreRefinement RaftTypes RaftNode RaftMachine MachineStore Executor RequestProcessor ClusterService.

(** ** Definitions *)

Record BlockCacheStatistics := mkBlockCacheStatistics {
  bcs_capacity_bytes : Z;
  bcs_current_bytes : Z;
  bcs_entry_count : Z;
  bcs_hits : Z;
  bcs_misses : Z;
  bcs_evictions : Z
}.

Definition cache_statistics (c : BlockCache) : BlockCacheStatistics :=
  mkBlockCacheStatistics (capacity_bytes_ c) (current_bytes_ c) (entry_count c) (hits_ c) (misses_ c) (evictions_ c).

Definition cache_hit_ratio (b : BlockCacheStatistics) : Z * Z := RequestProcessor.hit_ratio (bcs_hits b) (bcs_misses b).

(** *** Of a reader *)

Record SSTableLookupStatistics := mkLookupStatistics { ls_bloom_checks : Z; ls_bloom_negatives : Z }.

(** The rate is left out. *)
Record BloomFilterStatistics := mkBloomFilterStatistics {
  bfs_bit_count : Z;
  bfs_hash_count : Z;
  bfs_inserted_keys : Z;
  bfs_memory_bytes : Z
}.

Definition filter_statistics (f : BloomFilter) : BloomFilterStatistics :=
  mkBloomFilterStatistics (bit_count_ f) (hash_count_ f) (inserted_keys_ f) (memory_bytes f).

Definition uses_bloom_filter (rd : SSTableReader) : bool := bool_decide (is_Some (bloom_filter_ rd)).
Definition bloom_filter_statistics (rd : SSTableReader) : option BloomFilterStatistics := filter_statistics <$> bloom_filter_ rd.
Definition lookup_statistics (st : RState) : SSTableLookupStatistics := mkLookupStatistics (bloom_checks_ st) (bloom_negatives_ st).
Definition reset_lookup_statistics (st : RState) : RState := mkRState (rs_script st) (rs_cache st) 0 0.

(** *** Of the manager *)

Definition table_count (s : SSTableManager) : Z := zlen (sm_readers s).
Definition sm_metadata (s : SSTableManager) : list SSTableMetadata := metadata_for (sm_readers s).
Definition active_manifest_path (s : SSTableManager) : str := active_manifest_path_ (sm_manifest s).
Definition block_cache_statistics (s : SSTableManager) : option BlockCacheStatistics := cache_statistics <$> rs_cache (sm_rs s).

Record BloomFilterAggregateStatistics := mkAggregate {
  ag_filter_count : Z;
  ag_inserted_keys : Z;
  ag_memory_bytes : Z;
  ag_checks : Z;
  ag_negative_results : Z
}.

(** [lookups] are the counters of the single readers; the model of the manager
    keeps one pair for them all. *)
Definition add_table (lookups : ManagedTable -> SSTableLookupStatistics) (a : BloomFilterAggregateStatistics) (t : ManagedTable)
    : BloomFilterAggregateStatistics :=
  let a1 := match bloom_filter_statistics (mg_reader t) with
            | Some f => mkAggregate (u64 (ag_filter_count a + 1)) (u64 (ag_inserted_keys a + bfs_inserted_keys f))
                          (u64 (ag_memory_bytes a + bfs_memory_bytes f)) (ag_checks a) (ag_negative_results a)
            | None => a
            end in
  mkAggregate (ag_filter_count a1) (ag_inserted_keys a1) (ag_memory_bytes a1) (u64 (ag_checks a1 + ls_bloom_checks (lookups t)))
    (u64 (ag_negative_results a1 + ls_bloom_negatives (lookups t))).

Definition aggregate_statistics (lookups : ManagedTable -> SSTableLookupStatistics) (s : SSTableManager) : BloomFilterAggregateStatistics :=
  foldl (add_table lookups) (mkAggregate 0 0 0 0 0) (sm_readers s).

Definition sm_reset_read_statistics (s : SSTableManager) : SSTableManager :=
  set_rs (reset_lookup_statistics (set_rs_cache (reset_statistics <$> rs_cache (sm_rs s)) (sm_rs s))) s.

(** *** Of the store *)

Definition ps_reset_read_statistics : stm PersistentKeyValueStore unit := on_sstables (smodify sm_reset_read_statistics).
Definition ps_immutable_memtable_count (s : PersistentKeyValueStore) : Z := immutable_table_count (memtables_ s).
Definition ps_active_memtable_memory_usage (s : PersistentKeyValueStore) : Z := active_memory_usage (memtables_ s).
Definition ps_sstable_count (s : PersistentKeyValueStore) : Z := table_count (sstables_ s).
Definition ps_sstable_metadata (s : PersistentKeyValueStore) : list SSTableMetadata := sm_metadata (sstables_ s).
Definition ps_block_cache_statistics (s : PersistentKeyValueStore) : option BlockCacheStatistics := block_cache_statistics (sstables_ s).
Definition ps_compaction_statistics (s : PersistentKeyValueStore) : CompactionStatistics := sm_statistics (sstables_ s).
Definition ps_durability_mode (s : PersistentKeyValueStore) : DurabilityMode := durability_mode_ (ps_wal s).

(** *** Of the state machine *)

Abbreviation Machine := (DurableKeyValueStateMachine StateDirectory PersistentKeyValueStore).

Definition no_statistics : StateMachineStatistics := mkStateMachineStatistics 0 0 0 0 0 0 (0, 1) 0.

(** The manager of a store always has a cache. *)
Definition machine_statistics (m : Machine) : StateMachineStatistics :=
  match dm_store m with
  | None => no_statistics
  | Some s =>
      let cache := default (mkBlockCacheStatistics 0 0 0 0 0 0) (ps_block_cache_statistics s) in
      mkStateMachineStatistics (ps_last_sequence_number s) (ps_level0_sstable_count s) (ps_level1_sstable_count s)
        (bcs_hits cache) (bcs_misses cache) (bcs_evictions cache) (cache_hit_ratio cache) (cs_runs (ps_compaction_statistics s))
  end.

Definition machine_storage : stm Machine PersistentKeyValueStore :=
  m ← sget;
  _ ← (match dm_store m with None => open_storage_locked | Some _ => mret tt end);
  m ← sget;
  slift (match dm_store m with Some s => Ok s | None => Throw (LogicError "no store is open") end).

Definition machine_storage_const (m : Machine) : result PersistentKeyValueStore :=
  match dm_store m with Some s => Ok s | None => Throw (LogicError "state machine has not been recovered") end.

(** ** Theorems *)

Lemma reset_good cat st : good_cat cat st -> good_cat cat (reset_lookup_statistics (set_rs_cache (reset_statistics <$> rs_cache st) st)).
Proof.
  intros [Hc Hg]. split; [done|]. cbn. destruct (rs_cache st) as [c|]; [|done]. destruct Hg as [Hi Hk].
  destruct (cache_step_spec c CReset Hi) as (H1 & H2 & _). cbn [cache_step lru_step] in *. split; [done|]. by rewrite H2.
Qed.

Lemma clear_good cat st : good_cat cat st -> good_cat cat (set_rs_cache (bc_clear <$> rs_cache st) st).
Proof.
  intros [Hc Hg]. split; [done|]. cbn. destruct (rs_cache st) as [c|]; [|done]. destruct Hg as [Hi _].
  destruct (cache_step_spec c CClear Hi) as (H1 & H2 & _). cbn [cache_step lru_step] in *.
  split; [done|]. intros kb Hkb. rewrite H2 in Hkb. by apply not_elem_of_nil in Hkb.
Qed.

(** Whatever else the readers find, the tables have their entries. *)
Lemma rs_invisible s cat st : view_inv (ps_view s) cat -> good_cat (map fst cat) st ->
  let v := mkView (memtables_ s) (set_rs st (sstables_ s)) in view_inv v cat /\ view_abs v = view_abs (ps_view s).
Proof.
  intros Hv Hg v. pose proof (vi_tables _ _ Hv) as Ht. pose proof (sm_inv_rs _ _ Ht st Hg) as Ht'.
  split; [by destruct Hv; split|]. apply map_eq. intros k. rewrite !view_abs_lookup, !view_map_lookup.
  change (v_sstables v) with (set_rs st (v_sstables (ps_view s))). by rewrite (disk_map_lookup _ _ k Ht'), (disk_map_lookup _ _ k Ht).
Qed.

(** Clearing the cache and resetting the counters are invisible: the store
    holds what it held, its log covers it as before, and what is reported
    afterwards is an empty cache, respectively zeros. *)
Theorem housekeeping_invisible s rs :
  store_inv s -> log_inv s rs ->
  exists s1 s2, ps_clear_block_cache s = (Ok tt, s1) /\ ps_reset_read_statistics s = (Ok tt, s2) /\
    (forall s', s' ∈ [s1; s2] -> store_inv s' /\ log_inv s' rs /\ view_abs (ps_view s') = view_abs (ps_view s)) /\
    (forall b, ps_block_cache_statistics s1 = Some b -> bcs_current_bytes b = 0 /\ bcs_entry_count b = 0) /\
    lookup_statistics (sm_rs (sstables_ s2)) = mkLookupStatistics 0 0 /\
    (forall b, ps_block_cache_statistics s2 = Some b -> bcs_hits b = 0 /\ bcs_misses b = 0 /\ bcs_evictions b = 0).
Proof.
  intros [[cat Hv] Hl] Hlog. assert (Hrs : forall st, good_cat (map fst cat) st ->
    let s' := set_view (mkView (memtables_ s) (set_rs st (sstables_ s))) s in store_inv s' /\ log_inv s' rs /\ view_abs (ps_view s') = view_abs (ps_view s)).
  { intros st Hg s'. destruct (rs_invisible s cat st Hv Hg) as [Hv' Ha]. change (view_abs (ps_view s') = view_abs (ps_view s)) in Ha.
    split_and!; [split; [by exists cat|by rewrite Ha]| |done].
    destruct Hlog as [L1 L2 L3 L4 L5 L6]. split; try done. intros k. specialize (L6 k). by rewrite Ha. }
  pose proof (sv_good _ _ (vi_tables _ _ Hv)) as Hg. do 2 eexists. split; [reflexivity|]. split; [reflexivity|]. split_and!.
  - intros s' [->|[->|Hc%elem_of_nil]%elem_of_cons]%elem_of_cons; [by apply Hrs, clear_good|by apply Hrs, reset_good|done].
  - intros b. unfold ps_block_cache_statistics, block_cache_statistics. cbn. destruct (rs_cache _) as [c|]; [|done]. by intros [= <-].
  - done.
  - intros b. unfold ps_block_cache_statistics, block_cache_statistics. cbn. destruct (rs_cache _) as [c|]; [|done]. by intros [= <-].
Qed.

(** What is reported of a store: the cache is within its capacity, and the
    tables of the two levels are all of them. *)
Theorem statistics_sound s b :
  store_inv s -> ps_block_cache_statistics s = Some b ->
  0 <= bcs_current_bytes b <= bcs_capacity_bytes b /\ ps_level0_sstable_count s + ps_level1_sstable_count s = ps_sstable_count s /\
  length (ps_sstable_metadata s) = Z.to_nat (ps_sstable_count s).
Proof.
  intros [[cat Hv] _] Hb. pose proof (sv_good _ _ (vi_tables _ _ Hv)) as [_ Hg].
  unfold ps_block_cache_statistics, block_cache_statistics in Hb. change (sstables_ s) with (v_sstables (ps_view s)) in Hb.
  destruct (rs_cache _) as [c|]; [|done]. injection Hb as <-. destruct Hg as [Hi _]. split_and!.
  - cbn. rewrite (bc_bytes _ Hi). apply charges_nonneg.
  - apply (bc_fits _ Hi).
  - unfold ps_level0_sstable_count, ps_level1_sstable_count, ps_sstable_count, table_count, level_table_count, zlen.
    induction (sm_readers (sstables_ s)) as [|t l IH]; [done|]. cbn [List.filter length]. unfold is_level in *. cbn [length].
    destruct t as [rd [|]]; cbn [mg_level];
      [rewrite (bool_decide_eq_true_2 (Level0 = Level0)), (bool_decide_eq_false_2 (Level0 = Level1)) by done|
       rewrite (bool_decide_eq_true_2 (Level1 = Level1)), (bool_decide_eq_false_2 (Level1 = Level0)) by done]; cbn [length]; lia.
  - unfold ps_sstable_metadata, sm_metadata, metadata_for, ps_sstable_count, table_count, zlen. rewrite length_map. lia.
Qed.

(** The single-node service and the state machine of a member report the same
    numbers of the same store. *)
Lemma reports_agree executor service m s :
  dm_store m = Some s ->
  let a := machine_statistics m in let b := processor_status executor service s in
  sms_last_sequence_number a = sn_last_sequence_number b /\ sms_level0_sstables a = sn_level0_sstables b /\
  sms_level1_sstables a = sn_level1_sstables b /\ sms_cache_hits a = sn_cache_hits b /\ sms_cache_misses a = sn_cache_misses b /\
  sms_cache_evictions a = sn_cache_evictions b /\ sms_cache_hit_ratio a = sn_cache_hit_ratio b /\
  sms_compactions_completed a = sn_compactions_completed b.
Proof.
  intros Hs a b. unfold a, machine_statistics. rewrite Hs. unfold b, processor_status, ps_block_cache_statistics, block_cache_statistics.
  by destruct (rs_cache _).
Qed.
