(* ===== verification/ClusterServer.v ===== *)
(** * A member of the cluster

    src/distributed/cluster_server.cpp: the server of a member around the
    service of [ClusterService], its Raft node and the HTTP server of the
    metrics, from its constructor to the end of [finish_shutdown], and the
    page of the metrics.  A step is a call of the server, a step of the
    service or of the cluster, a step of the HTTP server, or a stage of
    [finish_shutdown].  What gRPC builds, and when [Server::Wait] returns, are
    choices of the steps. *)

From S2P Require Import Prelude OrderedMap Posix Path Store RaftTypes RaftStorage RaftNode RaftElection RaftCluster Executor Observability CommandLine MetricsHttp GrpcService ClusterService RaftSafety ClusterAnswers.

(** ** The page *)

Section page.
Context {F : Type} `{Double F}.
(** The double nearest to a fraction. *)
Context (ratio : Z * Z -> F).

(** The gauges that [refresh_metrics] sets, from what its queries return. *)
Definition gauges_of (node : NodeStatus) (storage : StateMachineStatistics) (executor : ExecutorStatistics) (size : Z) : list (str * F) :=
  [ (bytes_of "nebulakv_live_keys", d_of_Z size);
    (bytes_of "nebulakv_raft_term", d_of_Z (ns_term node));
    (bytes_of "nebulakv_raft_role", d_of_Z (role_number (ns_role node)));
    (bytes_of "nebulakv_raft_commit_index", d_of_Z (ns_commit_index node));
    (bytes_of "nebulakv_raft_last_applied", d_of_Z (ns_last_applied node));
    (bytes_of "nebulakv_raft_replication_lag", d_of_Z (u64 (ns_last_log_index node - ns_commit_index node)));
    (bytes_of "nebulakv_cache_hit_ratio", ratio (sms_cache_hit_ratio storage));
    (bytes_of "nebulakv_cache_hits_total", d_of_Z (sms_cache_hits storage));
    (bytes_of "nebulakv_cache_misses_total", d_of_Z (sms_cache_misses storage));
    (bytes_of "nebulakv_compactions_total", d_of_Z (sms_compactions_completed storage));
    (bytes_of "nebulakv_request_queue_depth", d_of_Z (es_queued_tasks executor));
    (bytes_of "nebulakv_active_requests", d_of_Z (es_active_tasks executor)) ].

Definition refresh_metrics (node : NodeStatus) (storage : StateMachineStatistics) (executor : ExecutorStatistics) (size : Z)
    (m : MetricsRegistry F) : MetricsRegistry F :=
  foldl (fun m g => set_gauge g.1 g.2 m) m (gauges_of node storage executor size).

Definition metrics_text (half ninety_five ninety_nine : F) (node : NodeStatus) (storage : StateMachineStatistics)
    (executor : ExecutorStatistics) (size : Z) (m : MetricsRegistry F) : str :=
  render_prometheus half ninety_five ninety_nine (refresh_metrics node storage executor size m).
End page.

(** ** The server *)

Record ClusterServerOptions := mkClusterServerOptions {
  xo_listen_address : str;
  xo_advertised_address : str;
  xo_worker_threads : Z;
  xo_request_queue_capacity : Z;
  xo_max_message_bytes : Z;
  xo_max_batch_entries : Z;
  xo_max_batch_bytes : Z;
  xo_metrics_host : str;
  xo_metrics_port : Z
}.

Definition cluster_message_size (bytes : Z) : result Z :=
  _ ← throw_if ((bytes =? 0) || (2 ^ 31 - 1 <? bytes)) (InvalidArgument "maximum cluster message size is invalid");
  mret bytes.

Definition service_options (o : ClusterServerOptions) : ClusterServiceOptions :=
  mkClusterServiceOptions (xo_advertised_address o) (xo_max_message_bytes o) (xo_max_batch_entries o) (xo_max_batch_bytes o).

(** Where [finish_shutdown] is: in [RaftNode::stop] before the join of the
    ticker and before its flush, in [BoundedExecutor::shutdown] before its
    section and at the joins, in [MetricsHttpServer::stop] before its section
    and at the join, at the flush, at the log line, and at its end. *)
Inductive ClusterClosing :=
| StoppingNode
| JoiningTicker
| FlushingNode
| StoppingWorkers
| JoiningWorkers
| StoppingMetrics
| JoiningMetrics
| FlushingMachine
| LoggingStop
| ServerClosed (r : result unit).

Record ClusterServer (S M F : Type) := mkClusterServer {
  xs_options : ClusterServerOptions;
  xs_system : System S M F;
  xs_metrics_server : MetricsHttpServer;
  xs_server : bool;
  xs_bound_port : Z;
  xs_started : bool;
  xs_shutdown_requested : bool;
  xs_shutdown_finished : bool;
  xs_node_running : bool;
  xs_ticking : bool;
  xs_closing : option ClusterClosing
}.
Arguments mkClusterServer {S M F}.
Arguments xs_options {S M F}.
Arguments xs_system {S M F}.
Arguments xs_metrics_server {S M F}.
Arguments xs_server {S M F}.
Arguments xs_bound_port {S M F}.
Arguments xs_started {S M F}.
Arguments xs_shutdown_requested {S M F}.
Arguments xs_shutdown_finished {S M F}.
Arguments xs_node_running {S M F}.
Arguments xs_ticking {S M F}.
Arguments xs_closing {S M F}.

Section server.
Context {S M F : Type} `{BallotLaws S} `{StateMachine M} `{ReadableMachine M} `{Double F}.
Context (me : NodeId).
Abbreviation Server := (ClusterServer S M F).

Definition set_system (y : System S M F) (g : Server) : Server :=
  mkClusterServer (xs_options g) y (xs_metrics_server g) (xs_server g) (xs_bound_port g) (xs_started g) (xs_shutdown_requested g)
    (xs_shutdown_finished g) (xs_node_running g) (xs_ticking g) (xs_closing g).
Definition set_metrics_server (m : MetricsHttpServer) (g : Server) : Server :=
  mkClusterServer (xs_options g) (xs_system g) m (xs_server g) (xs_bound_port g) (xs_started g) (xs_shutdown_requested g)
    (xs_shutdown_finished g) (xs_node_running g) (xs_ticking g) (xs_closing g).
Definition set_built (server : bool) (port : Z) (g : Server) : Server :=
  mkClusterServer (xs_options g) (xs_system g) (xs_metrics_server g) server port (xs_started g) (xs_shutdown_requested g)
    (xs_shutdown_finished g) (xs_node_running g) (xs_ticking g) (xs_closing g).
Definition set_node (running ticking : bool) (g : Server) : Server :=
  mkClusterServer (xs_options g) (xs_system g) (xs_metrics_server g) (xs_server g) (xs_bound_port g) (xs_started g) (xs_shutdown_requested g)
    (xs_shutdown_finished g) running ticking (xs_closing g).
Definition set_started (g : Server) : Server :=
  mkClusterServer (xs_options g) (xs_system g) (xs_metrics_server g) (xs_server g) (xs_bound_port g) true (xs_shutdown_requested g)
    (xs_shutdown_finished g) (xs_node_running g) (xs_ticking g) (xs_closing g).
Definition set_closing (x : ClusterClosing) (g : Server) : Server :=
  mkClusterServer (xs_options g) (xs_system g) (xs_metrics_server g) (xs_server g) (xs_bound_port g) (xs_started g) (xs_shutdown_requested g)
    (xs_shutdown_finished g) (xs_node_running g) (xs_ticking g) (Some x).

Definition log_event (timestamp : str) (event : string) (fields : list (str * str)) (g : Server) : Server :=
  set_system (set_service (on_log (log timestamp (bytes_of "info") (bytes_of event) fields) (sy_service (xs_system g))) (xs_system g)) g.

(** The constructor, around the cluster the node is in. *)
Definition new_cluster_server (o : ClusterServerOptions) (c : Cluster S M) : result Server :=
  e ← new_executor (xo_worker_threads o) (xo_request_queue_capacity o);
  _ ← new_cluster_service (service_options o);
  m ← new_metrics_server (xo_metrics_host o) (xo_metrics_port o) true;
  _ ← throw_if (is_nil (xo_listen_address o) || is_nil (xo_advertised_address o))
        (InvalidArgument "cluster listen and advertised addresses are required");
  _ ← cluster_message_size (xo_max_message_bytes o);
  mret (mkClusterServer o (initial_system e c) m false 0 false false false false false None).

(** [MetricsHttpServer::start] with what its thread finds, to its end: [stop]
    follows when there is no port. *)
Definition metrics_start (has_socket has_address bound : bool) (name : option Z) (m : MetricsHttpServer) : result unit * MetricsHttpServer :=
  match mh_start m with
  | None => (Ok tt, m)
  | Some m1 =>
      let m2 := open_socket has_socket has_address bound name m1 in
      if mh_started m2 then (Ok tt, m2)
      else
        match mh_stop m2 with
        | None => (Throw start_failed, m2)
        | Some m3 =>
            let m4 := match mh_thread m3 with Polling => poll_turn false false m3 | _ => m3 end in
            (Throw start_failed, default m4 (mh_join m4))
        end
  end.

(** [RaftNode::start] *)
Definition node_start (g : Server) : Server := if xs_node_running g then g else set_node true true g.

Definition xs_start (built : option Z) (has_socket has_address bound : bool) (name : option Z) (timestamp : str) : stm Server unit :=
  g ← sget;
  _ ← slift (throw_if (xs_started g) (LogicError "cluster server has already been started"));
  _ ← slift (cluster_message_size (xo_max_message_bytes (xs_options g)));
  _ ← smodify (set_built (bool_decide (is_Some built)) (default 0 built));
  _ ← slift (throw_if (match built with Some port => port =? 0 | None => true end) (RuntimeError "failed to bind clustered gRPC server"));
  g ← sget;
  let '(r, m) := metrics_start has_socket has_address bound name (xs_metrics_server g) in
  _ ← smodify (set_metrics_server m);
  _ ← slift r;
  _ ← smodify node_start;
  _ ← smodify set_started;
  smodify (log_event timestamp "cluster_server_started"
    [(bytes_of "advertised_address", xo_advertised_address (xs_options g));
     (bytes_of "listen_address", xo_listen_address (xs_options g));
     (bytes_of "metrics_port", show_integer (mh_bound_port m))]).

Definition xs_wait_check (g : Server) : result unit :=
  throw_if (negb (xs_started g) || negb (xs_server g)) (LogicError "cluster server is not running").

Definition xs_request_shutdown : stm Server unit :=
  smodify (fun g =>
    if negb (xs_server g) || xs_shutdown_requested g then g
    else mkClusterServer (xs_options g) (xs_system g) (xs_metrics_server g) (xs_server g) (xs_bound_port g) (xs_started g) true
           (xs_shutdown_finished g) (xs_node_running g) (xs_ticking g) (xs_closing g)).

(** The section of the destructor. *)
Definition xs_requires_shutdown (g : Server) : bool := xs_server g && negb (xs_shutdown_finished g).

(** The section of [finish_shutdown]. *)
Definition xs_finish_section (g : Server) : Server :=
  mkClusterServer (xs_options g) (xs_system g) (xs_metrics_server g) (xs_server g) (xs_bound_port g) (xs_started g) (xs_shutdown_requested g)
    true (xs_node_running g) (xs_ticking g) (if xs_shutdown_finished g then xs_closing g else Some StoppingNode).

(** A flush of the state machine of the node; [next] follows when it returns. *)
Definition flush_machine (next : ClusterClosing) (g : Server) : option Server :=
  match cl_processes (sy_cluster (xs_system g)) !! me with
  | Some (Up n) =>
      let '(r, n') := stop n in
      let g' := set_system (set_cluster (set_process me (Up n') (sy_cluster (xs_system g))) (xs_system g)) g in
      Some (set_closing (match r with Ok _ => next | Throw e => ServerClosed (Throw e) end) g')
  | _ => None
  end.

(** The next stage of [finish_shutdown]; [None] where it has to wait. *)
Definition finish_stage (timestamp : str) (g : Server) : option Server :=
  match xs_closing g with
  | Some StoppingNode =>
      Some (if xs_node_running g then set_closing JoiningTicker (set_node false (xs_ticking g) g) else set_closing StoppingWorkers g)
  | Some JoiningTicker => if xs_ticking g then None else Some (set_closing FlushingNode g)
  | Some FlushingNode => flush_machine StoppingWorkers g
  | Some StoppingWorkers =>
      let v := sy_service (xs_system g) in
      match begin_shutdown true (sv_executor v).1 with
      | Some e =>
          Some (set_closing JoiningWorkers
                  (set_system (set_service (set_executor (e, NotifyAll :: (sv_executor v).2) v) (xs_system g)) g))
      | None => Some (set_closing StoppingMetrics g)
      end
  | Some JoiningWorkers => if all_exited (sv_executor (sy_service (xs_system g))).1 then Some (set_closing StoppingMetrics g) else None
  | Some StoppingMetrics =>
      match mh_stop (xs_metrics_server g) with
      | Some m => Some (set_closing JoiningMetrics (set_metrics_server m g))
      | None => Some (set_closing FlushingMachine g)
      end
  | Some JoiningMetrics =>
      match mh_join (xs_metrics_server g) with
      | Some m => Some (set_closing FlushingMachine (set_metrics_server m g))
      | None => None
      end
  | Some FlushingMachine => flush_machine LoggingStop g
  | Some LoggingStop =>
      Some (set_closing (ServerClosed (Ok tt))
              (log_event timestamp "cluster_server_stopped"
                 [(bytes_of "requests_total", show_integer (sv_requests_total (sy_service (xs_system g))))] g))
  | _ => None
  end.

(** The steps of the server in which no client of the HTTP server sends
    anything; [drained] says that [Server::Wait] returns, and the ticker ends
    once the node does not run. *)
Inductive cluster_server_step (drained : Server -> Prop) : Server -> Server -> Prop :=
| xstep_start built a b c name timestamp g r g' : xs_start built a b c name timestamp g = (r, g') -> cluster_server_step drained g g'
| xstep_system y g : system_step (service_options (xs_options g)) me (xs_system g) y -> cluster_server_step drained g (set_system y g)
| xstep_metrics m g : thread_step (xs_metrics_server g) m -> cluster_server_step drained g (set_metrics_server m g)
| xstep_ticker g : xs_node_running g = false -> cluster_server_step drained g (set_node (xs_node_running g) false g)
| xstep_request g r g' : xs_request_shutdown g = (r, g') -> cluster_server_step drained g g'
| xstep_wait g : xs_wait_check g = Ok tt -> drained g -> cluster_server_step drained g (xs_finish_section g)
| xstep_destroy g : xs_requires_shutdown g = true -> drained g -> cluster_server_step drained g (xs_finish_section g)
| xstep_finish timestamp g g' : finish_stage timestamp g = Some g' -> cluster_server_step drained g g'.

(** A client of the HTTP server sends something. *)
Definition client_sends (received : option str) (g g' : Server) : Prop :=
  exists m, http_received (xs_metrics_server g) received m /\ g' = set_metrics_server m g.

Definition xs_service_statistics (g : Server) : ClusterServiceStatistics := service_statistics (sy_service (xs_system g)).
Definition xs_executor_statistics (g : Server) : ExecutorStatistics := statistics (sv_executor (sy_service (xs_system g))).1.
Definition xs_metrics_port (g : Server) : Z := mh_bound_port (xs_metrics_server g).
End server.

(** ** What the page shows *)

Section page_lemmas.
Context {F : Type} `{Double F}.

Lemma set_gauges_find (l : list (str * F)) (m : MetricsRegistry F) k :
  NoDup (map fst l) ->
  om_find k (gauges_ (foldl (fun m g => set_gauge g.1 g.2 m) m l)) = match (list_to_map l : gmap str F) !! k with Some v => Some v | None => om_find k (gauges_ m) end.
Proof.
  revert m. induction l as [|[k0 v0] l IH]; intros m Hnd; [by rewrite list_to_map_nil, lookup_empty|]. cbn [map] in Hnd. apply NoDup_cons in Hnd as [Hn Hnd].
  cbn [foldl]. rewrite IH by done. rewrite list_to_map_cons. cbn [fst snd] in *. destruct (decide (k = k0)) as [->|Hne].
  - rewrite lookup_insert_eq. assert ((list_to_map l : gmap str F) !! k0 = None) as -> by (by apply not_elem_of_list_to_map).
    cbn. apply om_find_insert_eq.
  - rewrite lookup_insert_ne by done. destruct (_ !! k); [done|]. cbn. by apply om_find_insert_ne.
Qed.

Lemma set_gauges_rest (l : list (str * F)) (m : MetricsRegistry F) :
  counters_ (foldl (fun m g => set_gauge g.1 g.2 m) m l) = counters_ m /\ histograms_ (foldl (fun m g => set_gauge g.1 g.2 m) m l) = histograms_ m.
Proof. revert m. induction l as [|g l IH]; intros m; [done|]. exact (IH (set_gauge g.1 g.2 m)). Qed.

Lemma gauge_names ratio node storage executor size : NoDup (map fst (gauges_of ratio node storage executor size)).
Proof.
  change (map fst (gauges_of ratio node storage executor size)) with
    (map bytes_of ["nebulakv_live_keys"; "nebulakv_raft_term"; "nebulakv_raft_role"; "nebulakv_raft_commit_index"; "nebulakv_raft_last_applied";
      "nebulakv_raft_replication_lag"; "nebulakv_cache_hit_ratio"; "nebulakv_cache_hits_total"; "nebulakv_cache_misses_total";
      "nebulakv_compactions_total"; "nebulakv_request_queue_depth"; "nebulakv_active_requests"]%string).
  apply (bool_decide_unpack (NoDup _)). by vm_compute.
Qed.

End page_lemmas.

(** ** A client that keeps silent *)

Section silent.
Context {S M F : Type} `{BallotLaws S} `{StateMachine M} `{ReadableMachine M} `{Double F}.
Context (me : NodeId) (drained : ClusterServer S M F -> Prop).
Abbreviation Server := (ClusterServer S M F).

(** [finish_shutdown] has not come to the join of the HTTP server. *)
Definition before_metrics (x : option ClusterClosing) : bool :=
  match x with
  | None | Some (StoppingNode | JoiningTicker | FlushingNode | StoppingWorkers | JoiningWorkers | StoppingMetrics) => true
  | _ => false
  end.

Record stuck (g : Server) : Prop := {
  sk_started : xs_started g = true;
  sk_thread : mh_thread (xs_metrics_server g) = Receiving;
  sk_stage : (before_metrics (xs_closing g) = true /\ mh_running (xs_metrics_server g) = true /\ (is_Some (xs_closing g) -> xs_shutdown_finished g = true)) \/
             (xs_closing g = Some JoiningMetrics /\ xs_shutdown_finished g = true) \/
             (exists e, xs_closing g = Some (ServerClosed (Throw e)) /\ xs_shutdown_finished g = true)
}.

Lemma stuck_flush next g g' :
  stuck g -> before_metrics (xs_closing g) = true -> is_Some (xs_closing g) -> before_metrics (Some next) = true -> flush_machine me next g = Some g' -> stuck g'.
Proof.
  intros [K1 K2 K3] Hb Hsome Hn E. unfold flush_machine in E. destruct (cl_processes _ !! me) as [[n|]|]; [|done..]. destruct (stop n) as [r n'].
  injection E as <-. destruct K3 as [(_ & Hr & Hf)|[[Hc _]|(e & Hc & _)]]; [|by rewrite Hc in Hb..]. split; [done|done|]. cbn.
  destruct r as [u|e]; [left; by split_and!; auto|]. right. right. exists e. by auto.
Qed.

Lemma stuck_finish timestamp g g' : stuck g -> finish_stage me timestamp g = Some g' -> stuck g'.
Proof.
  intros Hk E. pose proof Hk as [K1 K2 K3]. unfold finish_stage in E. destruct (xs_closing g) as [x|] eqn:Ec; [|done].
  destruct K3 as [(Hb & Hr & Hf)|[[[= ->] Hf]|(e & [= ->] & Hf)]]; [|by unfold mh_join in E; rewrite K2 in E|done].
  specialize (Hf ltac:(eauto)). assert (Hstep : forall y (h : Server), xs_started h = true -> xs_metrics_server h = xs_metrics_server g ->
    xs_shutdown_finished h = true -> before_metrics (Some y) = true -> stuck (set_closing y h)).
  { intros y h H1' H2' H3' Hy. split; cbn; [done|by rewrite H2'|]. left. by rewrite H2'. }
  destruct x; try done.
  - injection E as <-. destruct (xs_node_running g); by apply Hstep.
  - destruct (xs_ticking g); [done|]. injection E as <-. by apply Hstep.
  - apply (stuck_flush StoppingWorkers g); [exact Hk|by rewrite Ec|by rewrite Ec|reflexivity|exact E].
  - destruct (begin_shutdown true _) as [e|]; injection E as <-; by apply Hstep.
  - destruct (all_exited _); [|done]. injection E as <-. by apply Hstep.
  - unfold mh_stop in E. rewrite Hr in E. injection E as <-. split; cbn; [done|done|]. right. left. done.
Qed.

Lemma stuck_step g g' : stuck g -> cluster_server_step me drained g g' -> stuck g'.
Proof.
  intros Hk Hs. pose proof Hk as [K1 K2 K3]. destruct Hs as [built a b c name timestamp g r g' E|y g Hy|m g Hm|g Hn|g r g' E|g _ _|g _ _|timestamp g g' E].
  - unfold xs_start, mbind, stm_bind, sget, slift, throw_if in E. rewrite K1 in E. by injection E as _ <-.
  - by split.
  - destruct Hm; congruence.
  - by split.
  - injection E as _ <-. destruct (_ || _); by split.
  - split; cbn; [done|done|]. destruct K3 as [(Hb & Hr & Hf)|[[Hc Hf]|(e & Hc & Hf)]].
    + left. destruct (xs_shutdown_finished g); by split_and!.
    + right. left. by rewrite Hf.
    + right. right. exists e. by rewrite Hf.
  - split; cbn; [done|done|]. destruct K3 as [(Hb & Hr & Hf)|[[Hc Hf]|(e & Hc & Hf)]].
    + left. destruct (xs_shutdown_finished g); by split_and!.
    + right. left. by rewrite Hf.
    + right. right. exists e. by rewrite Hf.
  - by eapply stuck_finish.
Qed.

(** C39: a silent client of the metrics port blocks the shutdown.  Once a
    client has connected to the HTTP server of a member and sends nothing, the
    thread stays in [recv]; whatever the server, its service, the node and the
    cluster do, a shutdown never gets past the join of that thread: the state
    machine is not flushed at its end and [wait] does not return. *)
Theorem silent_client_blocks_shutdown (g g' : Server) :
  xs_started g = true -> xs_closing g = None -> mh_running (xs_metrics_server g) = true -> mh_thread (xs_metrics_server g) = Receiving ->
  rtc (cluster_server_step me drained) g g' ->
  mh_thread (xs_metrics_server g') = Receiving /\
  xs_closing g' <> Some FlushingMachine /\ xs_closing g' <> Some LoggingStop /\ xs_closing g' <> Some (ServerClosed (Ok tt)).
Proof.
  intros H1' H2' H3' H4' Hs. assert (Hk : stuck g).
  { split; [done|done|]. left. rewrite H2'. split_and!; [done|done|]. by intros [? [=]]. }
  assert (Hk' : stuck g'). { clear -Hs Hk. induction Hs as [g|g g1 g' Hst _ IH]; [done|]. apply IH. by eapply stuck_step. }
  destruct Hk' as [_ K2 K3]. split; [done|]. destruct K3 as [(Hb & _)|[[-> _]|(e & -> & _)]]; [|done..].
  destruct (xs_closing g') as [[]|]; done.
Qed.
End silent.

(** ** Witnesses *)

#[local] Instance whole_numbers : Double Z := {|
  d_zero := 0; d_add := Z.add; d_sub := Z.sub; d_mul := Z.mul; d_of_Z := id; d_floor := id; d_ceil := id; d_ltb := Z.ltb; d_show := digits 20
|}.

Definition demo_node_status : NodeStatus := mkNodeStatus (bytes_of "n1") Leader 3 (bytes_of "n1") 7 7 9 1 0 2 no_metrics.
Definition demo_machine_statistics : StateMachineStatistics := mkStateMachineStatistics 7 1 0 3 1 0 (3, 4) 2.
Definition demo_executor_statistics : ExecutorStatistics := mkExecutorStatistics 1 2 1 1 5 3 0.
Definition demo_page : str :=
  metrics_text (fun r => r.1 / r.2) 0 1 1 demo_node_status demo_machine_statistics demo_executor_statistics 4 (increment (bytes_of "requests") 5 new_registry).


Definition demo_cluster_options : ClusterServerOptions :=
  mkClusterServerOptions (bytes_of "a:1") (bytes_of "a:1") 1 2 1000 10 1000 (bytes_of "0.0.0.0") 9100.

(** A member alone in its cluster, up. *)
Definition demo_members : Cluster RaftStorage Recorder :=
  mkCluster (<[n1 := demo_node n1 n2 n3]> ∅) ∅ [] [] [] [] [] [].
Abbreviation DemoServer := (ClusterServer RaftStorage Recorder Z).

(** The server starts, a client connects to the HTTP server, and the shutdown
    goes as far as it can. *)
Definition demo_up : option (Cluster RaftStorage Recorder) := boot n1 [] demo_members.
Definition demo_connected : option DemoServer :=
  c ← demo_up;
  match new_cluster_server demo_cluster_options c with
  | Ok g =>
      let g1 := (xs_start (Some 1) true true true (Some 9100) [] g).2 in
      Some (set_metrics_server (poll_turn true true (xs_metrics_server g1)) g1)
  | Throw _ => None
  end.

Definition demo_stage (g : DemoServer) : option DemoServer := finish_stage n1 [] g.
Definition demo_exit (g : DemoServer) : option DemoServer :=
  let v := sy_service (xs_system g) in
  e ← take_task 0 (sv_executor v).1;
  Some (set_system (set_service (set_executor (e, (sv_executor v).2) v) (xs_system g)) g).

Definition demo_ticker_ends (g : DemoServer) : option DemoServer :=
  if xs_node_running g then None else Some (set_node (xs_node_running g) false g).

Definition demo_closing : option DemoServer :=
  g ← demo_connected;
  g ← demo_stage (xs_finish_section (xs_request_shutdown g).2);
  g ← demo_ticker_ends g; g ← demo_stage g; g ← demo_stage g; g ← demo_stage g; g ← demo_exit g; g ← demo_stage g;
  demo_stage g.

Definition closing_name (g : DemoServer) : Z :=
  match xs_closing g with Some JoiningMetrics => 1 | Some _ => 2 | None => 0 end.

Lemma demo_closes :
  (g ← demo_connected; Some (xs_started g, closing_name g, mh_running (xs_metrics_server g), mh_thread (xs_metrics_server g),
                             is_Ok (xs_wait_check (xs_request_shutdown g).2))) = Some (true, 0, true, Receiving, true) /\
  closing_name <$> demo_closing = Some 1.
Proof. by vm_compute. Qed.

Abbreviation demo_steps := (rtc (cluster_server_step n1 (fun _ : DemoServer => True))).

Lemma demo_stage_step g g' : demo_stage g = Some g' -> demo_steps g g'.
Proof. intros E. apply rtc_once. by eapply xstep_finish. Qed.

Lemma demo_closing_steps g g' : demo_connected = Some g -> demo_closing = Some g' -> xs_wait_check (xs_request_shutdown g).2 = Ok tt -> demo_steps g g'.
Proof.
  intros Hg E Hw. unfold demo_closing in E. rewrite Hg in E. cbn [mbind option_bind] in E.
  destruct (demo_stage (xs_finish_section (xs_request_shutdown g).2)) as [g1|] eqn:E1; [|discriminate]. cbn [mbind option_bind] in E.
  destruct (demo_ticker_ends g1) as [g2|] eqn:E2; [|discriminate]. cbn [mbind option_bind] in E.
  destruct (demo_stage g2) as [g3|] eqn:E3; [|discriminate]. cbn [mbind option_bind] in E.
  destruct (demo_stage g3) as [g4|] eqn:E4; [|discriminate]. cbn [mbind option_bind] in E.
  destruct (demo_stage g4) as [g5|] eqn:E5; [|discriminate]. cbn [mbind option_bind] in E.
  destruct (demo_exit g5) as [g6|] eqn:E6; [|discriminate]. cbn [mbind option_bind] in E.
  destruct (demo_stage g6) as [g7|] eqn:E7; [|discriminate]. cbn [mbind option_bind] in E.
  eapply rtc_l; [eapply xstep_request; apply surjective_pairing|]. eapply rtc_l; [by apply xstep_wait|].
  etrans; [exact (demo_stage_step _ _ E1)|]. transitivity g2.
  { unfold demo_ticker_ends in E2. destruct (xs_node_running g1) eqn:En; [discriminate|]. injection E2 as <-. apply rtc_once.
    pose proof (xstep_ticker n1 (fun _ => True) g1 En) as Hst. rewrite En in Hst. exact Hst. }
  etrans; [exact (demo_stage_step _ _ E3)|]. etrans; [exact (demo_stage_step _ _ E4)|]. etrans; [exact (demo_stage_step _ _ E5)|]. transitivity g6.
  { unfold demo_exit in E6. destruct (take_task 0 _) as [e|] eqn:Et; [|discriminate]. cbn [mbind option_bind] in E6. injection E6 as <-. apply rtc_once.
    apply xstep_system. destruct (sv_executor (sy_service (xs_system g5))) as [e0 calls] eqn:Ee. eapply sys_executor.
    - rewrite Ee. apply inner_worker. by eapply step_take.
    - unfold taken, result_there. by destruct (workers_ e !! 0%nat) as [[]|]. }
  etrans; [exact (demo_stage_step _ _ E7)|]. exact (demo_stage_step _ _ E).
Qed.

Lemma silent_client_blocks_shutdown_witness :
  exists g g' : DemoServer, demo_connected = Some g /\ demo_steps g g' /\ closing_name g' = 1 /\
    forall g'', demo_steps g' g'' -> mh_thread (xs_metrics_server g'') = Receiving /\ xs_closing g'' <> Some (ServerClosed (Ok tt)).
Proof.
  destruct demo_closes as [H1 H2]. destruct demo_connected as [g|] eqn:Eg; [|discriminate H1]. cbn [mbind option_bind] in H1. injection H1 as A B C D E.
  destruct demo_closing as [g'|] eqn:Eg'; [|discriminate H2]. change (Some (closing_name g') = Some 1) in H2. injection H2 as H2.
  assert (Hw : xs_wait_check (xs_request_shutdown g).2 = Ok tt) by (destruct (xs_wait_check _) as [[]|]; [reflexivity|discriminate E]).
  assert (Hc : xs_closing g = None) by (unfold closing_name in B; destruct (xs_closing g) as [[]|]; [discriminate B..|reflexivity]).
  pose proof (demo_closing_steps g g' Eg Eg' Hw) as Hs. exists g, g'. split; [reflexivity|]. split; [exact Hs|]. split; [exact H2|].
  intros g'' Hs'. destruct (silent_client_blocks_shutdown n1 (fun _ => True) g g'' A Hc C D) as (H3 & _ & _ & H4); [|exact (conj H3 H4)].
  etrans; [exact Hs|exact Hs'].
Defined.
