(* ===== verification/ServerMain.v ===== *)
(** * The server programs

    The main functions of src/server/main.cpp and src/cluster/main.cpp: from
    the command line to the objects they make, the thread that waits for
    signals, and the ways they end.  What the kernel and gRPC answer are
    arguments; what happens between [start] and the end of [wait] is the run of
    the server in [GrpcServer] and [ClusterServer], an argument too. *)

From S2P Require Import Prelude Path Posix FileSystem Store WalWriter Recovery Manifest SstManager ManagerInv OpenTables PersistentStore StoreInv StoreRefinement StoreDisk StoreOpen StoreRestart Executor RequestProcessor GrpcService GrpcServer Observability CommandLine Programs RaftTypes RaftStorage RaftNode RaftMachine MachineStore RaftElection RaftCluster RaftRpc RaftTransport ClusterService MetricsHttp ClusterServer ClientPrograms.

(** ** Signals *)

Definition SIGINT : Z := 2.
Definition SIGTERM : Z := 15.
Definition EINTR : Z := 4.
Definition EAGAIN : Z := 11.

(** What [sigtimedwait] returns, and [errno]. *)
Inductive SignalTurn :=
| GoesOn
| RequestsShutdown (signal : option Z).

Definition signal_turn (received errno : Z) : SignalTurn :=
  if (received =? SIGINT) || (received =? SIGTERM) then RequestsShutdown (Some received)
  else if (received <? 0) && negb (errno =? EAGAIN) && negb (errno =? EINTR) then RequestsShutdown None
  else GoesOn.

(** The thread over the turns it makes before the server has stopped: whether
    it requests the shutdown, and for which signal. *)
Fixpoint signal_thread (turns : list (Z * Z)) : option (option Z) :=
  match turns with
  | [] => None
  | (received, errno) :: rest =>
      match signal_turn received errno with
      | RequestsShutdown signal => Some signal
      | GoesOn => signal_thread rest
      end
  end.

(** How a program ends: it exits, or [std::terminate] ends it. *)
Inductive ProgramEnd :=
| Exits (code : Z) (out err : str)
| Terminates (out : str).

(** ** The single-node server *)

(** A path is printed in quotes. *)
Definition quoted (path : str) : str :=
  [quote] ++ concat (map (fun c => if bool_decide (c = quote) || bool_decide (c = backslash) then [backslash; c] else [c]) path) ++ [quote].

Section server_program.
(** The rate of false positives is the double 0.01: it is accepted, and these
    are the sizes computed with it. *)
Context (ceil_bits : Z -> option Z) (rounded : Z -> Z -> Z).

Definition store_options_of (a : ServerArguments) : PersistentStoreOptions :=
  mkStoreOptions (path_join (sa_data_directory a) (bytes_of "nebulakv.wal")) (path_join (sa_data_directory a) (bytes_of "sstables"))
    (sa_durability a) 100 (64 * 1024 * 1024)
    (mkManagerOptions [] (32 * 1024) (64 * 1024 * 1024) true ceil_bits rounded 4 4) true true true.

Definition server_options_of (a : ServerArguments) : GrpcServerOptions :=
  mkGrpcServerOptions (sa_host a ++ bytes_of ":" ++ show_integer (sa_port a)) (sa_workers a) (sa_queue_capacity a) (sa_max_message_bytes a)
    (sa_max_batch_entries a) (sa_max_batch_bytes a) (sa_checkpoint_on_shutdown a).

Definition server_banner (a : ServerArguments) (port : Z) : str :=
  bytes_of "NebulaKV gRPC server" ++ [newline] ++
  field "listen_address" (sa_host a ++ bytes_of ":" ++ show_integer port) ++
  field "data_directory" (quoted (sa_data_directory a)) ++
  field "durability" (show_durability (sa_durability a)) ++
  field "worker_threads" (show_integer (sa_workers a)) ++
  field "queue_capacity" (show_integer (sa_queue_capacity a)) ++
  field "max_message_bytes" (show_integer (sa_max_message_bytes a)).

Definition signal_line (requested : option (option Z)) : str :=
  match requested with Some (Some signal) => field "shutdown_signal" (show_integer signal) | _ => [] end.

Definition server_farewell (g : GrpcServer) : str :=
  field "shutdown" (bytes_of "complete") ++
  field "requests_total" (show_integer (GrpcService.sv_requests_total (gs_service g))) ++
  field "failed_requests_total" (show_integer (GrpcService.sv_failed_requests_total (gs_service g))) ++
  field "rejected_requests" (show_integer (es_rejected_tasks (gs_executor_statistics g))).

Definition server_failed (e : exn) : ProgramEnd := Exits 1 [] (bytes_of "NebulaKV server failed: " ++ bytes_of (what e) ++ [newline]).

(** The part of [main] up to [start]. *)
Definition server_setup (args : result ServerArguments) (mkdirs : str -> result unit) (mask : Z) (disk : Disk) (reads writes : list io_event)
    (built : option Z) : result (ServerArguments * GrpcServer) :=
  a ← args;
  _ ← mkdirs (sa_data_directory a);
  _ ← throw_if (negb (mask =? 0)) (RuntimeError "failed to configure shutdown signal handling");
  s ← (new_store (store_options_of a) disk reads writes).1.1;
  g ← new_grpc_server (server_options_of a) s;
  let '(r, g') := gs_start built g in
  _ ← r;
  mret (a, g').

(** [serve] is what becomes of the server until [wait] returns or throws, with
    the turns of the signal thread.  An exception that leaves [wait] destroys
    the signal thread before it is joined. *)
Definition server_main (program : string) (args : list str) (mkdirs : str -> result unit) (mask : Z) (disk : Disk) (reads writes : list io_event)
    (built : option Z) (serve : GrpcServer -> result unit * GrpcServer * list (Z * Z)) : ProgramEnd :=
  match parse_server_arguments args with
  | ShowsUsage => Exits 0 (text_lines (server_usage program)) []
  | Parses r =>
      match server_setup r mkdirs mask disk reads writes built with
      | Throw e => server_failed e
      | Ok (a, g) =>
          let '(waited, g', turns) := serve g in
          let out := server_banner a (gs_bound_port g) ++ signal_line (signal_thread turns) in
          match waited with
          | Throw _ => Terminates out
          | Ok _ => Exits 0 (out ++ server_farewell g') []
          end
      end
  end.

(** *** What the options make *)

(** The sizes computed with the rate are those of a filter. *)
Definition sizes_work : Prop :=
  (forall n, 0 < n <= u32_max -> is_Some (ceil_bits n)) /\ (forall n bits, ceil_bits n = Some bits -> 0 < bits <= u64_max - 63) /\
  (forall n b, 1 <= rounded n b).

(** The store options of the program are within the limits of the store. *)
Lemma store_options_open a reads writes :
  sizes_work -> calm reads = true -> calm_write writes = true -> opens_well (store_options_of a) reads writes.
Proof.
  intros (H1 & H2 & H3) H4 H5. assert (Hd : po_sstable_directory (store_options_of a) <> []) by (by apply path_join_ne).
  assert (Hr : resolve_sstable_directory (store_options_of a) <> []).
  { unfold resolve_sstable_directory. by rewrite (proj2 (is_nil_false _) Hd). }
  assert (Hw : is_nil (po_wal_path (store_options_of a)) = false) by (by apply is_nil_false, path_join_ne).
  split; [|done|exact Hw|done..].
  split; cbn [with_directory store_options_of po_sstables so_rate_ok so_ceil_bits so_target_data_block_bytes so_directory so_level0_compaction_trigger
    so_level0_compaction_max_tables]; try done.
Qed.

(** *** From one start to the next *)

(** Started on an empty directory and shut down cleanly, the program started
    again with the same options after a loss of power has every key as the
    calls of the store left it. *)
Theorem server_program_restarts a f reads writes :
  sizes_work -> calm reads = true -> calm_write writes = true -> fs_script f = [] -> fs_dir f = ∅ ->
  is_u64 (sa_workers a) -> is_u64 (sa_queue_capacity a) ->
  exists s0 disk0, new_store (store_options_of a) (mkDisk f None) reads writes = (Ok s0, disk0, []) /\
    forall serving drained g0 g r s,
      GrpcContract serving drained -> new_grpc_server (server_options_of a) s0 = Ok g0 -> rtc (server_step serving drained) g0 g ->
      gs_closing g = Some Storing -> zlen (GrpcService.sv_moments (gs_service g)) < kMaximumManifestTables ->
      close_store (server_options_of a) (GrpcService.sv_store (gs_service g)) = (r, s) ->
      r = Ok tt /\ exists ops, GrpcService.sv_store (gs_service g) = (kv_execs ops s0).2 /\ reopens s (spec_execs ops ∅).2.
Proof.
  intros Hsz Hrd Hwr Hf Hd Hw Hq. destruct (new_store_empty _ f reads writes (store_options_open a reads writes Hsz Hrd Hwr) Hf Hd)
    as (s0 & disk0 & E & Hne). exists s0, disk0. split; [done|]. intros serving drained g0 g r s Hc Hn Hr Hcl Hm Hst.
  destruct (shutdown_closes serving drained (server_options_of a) s0 g0 g r s Hc Hw Hq Hn Hr Hcl (new_in_service s0 Hne)) as (_ & _ & _ & Hok & ops & H1 & H2);
    [by rewrite (ne_spare _ Hne)|done|]. split; [done|]. exists ops. split; [done|]. rewrite (ne_abs _ Hne) in H2. apply H2.
Qed.

(** *** The ways it ends *)

(** A failure of [wait], such as that of the last flush, ends the program
    through [std::terminate]; a failure before it is reported. *)
Lemma server_main_ends program args mkdirs mask disk reads writes built serve :
  match server_main program args mkdirs mask disk reads writes built serve with
  | Terminates _ => exists r a g e g' turns, parse_server_arguments args = Parses r /\
      server_setup r mkdirs mask disk reads writes built = Ok (a, g) /\ serve g = (Throw e, g', turns)
  | Exits code _ err => code = 0 /\ err = [] \/ code = 1 /\ exists r e, parse_server_arguments args = Parses r /\
      server_setup r mkdirs mask disk reads writes built = Throw e /\ err = bytes_of "NebulaKV server failed: " ++ bytes_of (what e) ++ [newline]
  end.
Proof.
  unfold server_main. destruct (parse_server_arguments args) as [|r] eqn:Ea; [by left|].
  destruct (server_setup r mkdirs mask disk reads writes built) as [[a g]|e] eqn:Es; [|right; split; [done|]; by exists r, e].
  destruct (serve g) as [[[u|e] g'] turns] eqn:Ew; [by left|]. by exists r, a, g, e, g', turns.
Qed.
End server_program.

(** ** A node of the cluster *)

Section node_program.
Context {F : Type} `{Double F} `{Strtod F}.
(** The double as the value that the transport compares, and the hash of the
    standard library. *)
Context (as_double : F -> double) (hash : str -> Z).
Context {R : Type} `{RandomEngine R}.

Definition node_options_of (a : NodeArguments F) : RaftNodeOptions :=
  mkNodeOptions (na_node_id a) (na_peers a) (na_election_min a) (na_election_max a) (na_heartbeat a) (na_rpc_timeout a) 128
    (na_snapshot_threshold a).

Definition machine_options_of (a : NodeArguments F) : DurableStateMachineOptions :=
  mkMachineOptions (na_data_directory a) (na_durability a) (64 * 1024 * 1024) (64 * 1024 * 1024).

Definition fault_options_of (a : NodeArguments F) : FaultInjectionOptions :=
  mkFaultInjectionOptions (as_double (na_drop_probability a)) (na_fault_delay a) (hash (na_node_id a)).

Definition cluster_options_of (a : NodeArguments F) : ClusterServerOptions :=
  mkClusterServerOptions (na_listen_address a) (na_advertised_address a) (na_workers a) (na_queue_capacity a) (na_max_message_bytes a)
    1024 (8 * 1024 * 1024) (na_metrics_host a) (na_metrics_port a).

Definition raft_directory (a : NodeArguments F) : str := path_join (na_data_directory a) (bytes_of "raft").

Abbreviation Machine := (DurableKeyValueStateMachine StateDirectory PersistentKeyValueStore).
Abbreviation Server := (ClusterServer RaftStorage Machine F).
Abbreviation Net := (Cluster RaftStorage Machine).

(** The part of [main] up to the server.  [state] is the directory of the
    state machine under the options the machine gives its store, [servers] and
    [fates] are the world of the transport, [others] the cluster the node
    comes into. *)
Definition node_setup {E} `{RaftEndpoint E} (args : result (NodeArguments F)) (mkdirs : str -> result unit) (mask : Z) (f : Fs)
    (state : PersistentStoreOptions -> StateDirectory) (sizes : (Z -> option Z) * (Z -> Z -> Z))
    (servers : gmap str E) (fates : list Fate) (others : Net) : result (NodeArguments F * Server) :=
  a ← args;
  _ ← mkdirs (na_data_directory a);
  _ ← throw_if (negb (mask =? 0)) (RuntimeError "failed to configure shutdown signals");
  storage ← (new_storage (raft_directory a) f).1;
  machine ← (new_machine (mo_directory (machine_options_of a)) (state (store_options sizes.1 sizes.2 (machine_options_of a)))).1;
  transport ← new_grpc_transport (na_peers a) (na_max_message_bytes a) servers fates;
  faulty ← (new_fault_injecting transport (fault_options_of a) : result (FaultInjectingTransport (GrpcRaftTransport E) R));
  node ← (new_node (node_options_of a) storage machine).1.1;
  g ← new_cluster_server (cluster_options_of a) (set_process (na_node_id a) (Up node) others);
  mret (a, g).

Definition server_log (g : Server) : str := sv_log (sy_service (xs_system g)).

Definition node_ready (timestamp : str) (a : NodeArguments F) (g : Server) : Server :=
  log_event timestamp "node_ready"
    [(bytes_of "advertised_address", na_advertised_address a);
     (bytes_of "data_directory", na_data_directory a);
     (bytes_of "listen_address", na_listen_address a);
     (bytes_of "node_id", na_node_id a);
     (bytes_of "peer_count", show_integer (zlen (na_peers a)))] g.

Definition node_failed (out : str) (e : exn) : ProgramEnd := Exits 1 out (bytes_of "NebulaKV node failed: " ++ bytes_of (what e) ++ [newline]).

(** [setup] is the result above, [start] the call of [start]; [destroy] is the
    run of the destructor, [serve] that of the server until [wait] returns or
    throws. *)
Definition node_main (program : string) (args : list str) (setup : result (NodeArguments F) -> result (NodeArguments F * Server))
    (start : stm Server unit) (timestamp : str) (destroy : Server -> Server) (serve : Server -> result unit * Server) : ProgramEnd :=
  match parse_node_arguments args with
  | ShowsUsage => Exits 0 (text_lines (node_usage program)) []
  | Parses r =>
      match setup r with
      | Throw e => node_failed [] e
      | Ok (a, g) =>
          match start g with
          | (Throw e, g') => node_failed (server_log (destroy g')) e
          | (Ok _, g') =>
              match serve (node_ready timestamp a g') with
              | (Throw _, g'') => Terminates (server_log g'')
              | (Ok _, g'') => Exits 0 (server_log (destroy g'')) []
              end
          end
      end
  end.

(** *** The configuration *)

(** The checks of a list have all passed. *)
Lemma mapM_ok {A} (check : A -> result unit) l u : mapM check l = Ok u -> Forall (fun x => check x = Ok tt) l.
Proof.
  revert u. induction l as [|x l IH]; intros u E; [constructor|]. cbn in E. destruct (check x) as [[]|] eqn:Ex; [|done].
  cbn in E. destruct (mapM check l) as [v|] eqn:El; [|done]. constructor; [done|]. by apply (IH v).
Qed.

(** What the node has checked of its options. *)
Lemma validated_members o : RaftNode.validate_options o = Ok tt ->
  no_node_id o <> [] /\ NoDup (no_node_id o :: map p_id (no_peers o)).
Proof.
  unfold RaftNode.validate_options, throw_if. intros Hv. destruct (is_nil (no_node_id o)) eqn:E1; [done|].
  repeat match goal with H : context [if ?b then _ else _] |- _ => first [is_var b; fail 1 | destruct b eqn:?; cbn in H; [done|]] end.
  destruct (mapM _ (no_peers o)) as [u|] eqn:Em; [|done]. apply mapM_ok in Em. cbn in Hv. destruct (bool_decide (NoDup _)) eqn:En; [|done].
  apply bool_decide_eq_true in En. split; [by apply is_nil_false|]. constructor; [|done]. intros (p & Hid & Hp)%list_elem_of_fmap.
  rewrite Forall_forall in Em. specialize (Em p Hp). rewrite <- Hid, str_eqb_refl in Em.
  by destruct (is_nil (no_node_id o) || is_nil (p_address p)).
Qed.

Lemma new_node_options {S M} `{Storage S} `{StateMachine M} o (s : S) (m : M) n s' m' :
  new_node o s m = (Ok n, s', m') -> RaftNode.validate_options o = Ok tt /\ options_ n = o.
Proof.
  intros E. unfold new_node in E. cbv zeta in E.
  match type of E with match ?b with _ => _ end = _ => destruct b as [node|e] eqn:Eb; [|done] end.
  assert (HB : RaftNode.validate_options o = Ok tt /\ options_ node = o).
  { destruct (RaftNode.validate_options o) as [[]|]; [|done]. cbn in Eb. split; [done|]. inv_ok. done. }
  destruct HB as [Hv Ho]. split; [done|]. set (start := _ ≫= _) in E.
  assert (HS : forall r0 n0, start node = (r0, n0) -> options_ n0 = options_ node).
  { intros r0 n0 E0. unfold start, mbind at 1, stm_bind at 1, on_machine in E0. destruct (fsm_recover _ _ _) as [[u|e] m1]; [|by injection E0 as _ <-].
    unfold persist_hard_state_locked, on_hard, mbind, stm_bind, smodify, sget, on_storage in E0. destruct (st_save_hard_state _ _). by injection E0 as _ <-. }
  destruct (start node) as [[u|e] n0]; [|done]. injection E as <- _ _. by rewrite (HS _ _ eq_refl).
Qed.

(** A node that comes up is a member of the cluster of its peers: its name and
    theirs are different, and it runs with the options of the command line. *)
Theorem node_setup_configured {E} `{RaftEndpoint E} (args : result (NodeArguments F)) (mkdirs : str -> result unit) (mask : Z) (f : Fs)
    (state : PersistentStoreOptions -> StateDirectory) (sizes : (Z -> option Z) * (Z -> Z -> Z)) (servers : gmap str E) fates others a g :
  node_setup args mkdirs mask f state sizes servers fates others = Ok (a, g) ->
  NoDup (na_node_id a :: map p_id (na_peers a)) /\
  exists node, cl_processes (sy_cluster (xs_system g)) !! na_node_id a = Some (Up node) /\
    configured (na_node_id a :: map p_id (na_peers a)) (na_node_id a) (options_ node) /\ options_ node = node_options_of a /\
    xs_options g = cluster_options_of a /\ xs_started g = false.
Proof.
  unfold node_setup. intros Hs. destruct args as [a0|]; [|done]. cbn in Hs. destruct (mkdirs _); [|done]. cbn in Hs.
  destruct (throw_if _ _); [|done]. cbn in Hs. destruct (new_storage _ f).1 as [storage|]; [|done]. cbn in Hs.
  destruct (new_machine _ _).1 as [machine|]; [|done]. cbn in Hs. destruct (new_grpc_transport _ _ _ _); [|done]. cbn in Hs.
  destruct (new_fault_injecting _ _); [|done]. cbn in Hs. destruct (new_node (node_options_of a0) storage machine) as [[r st] ma] eqn:En.
  destruct r as [node|]; [|done]. cbn in Hs. destruct (new_cluster_server _ _) as [g0|] eqn:Eg; [|done]. cbn in Hs. injection Hs as <- <-.
  destruct (new_node_options _ _ _ _ _ _ En) as [Hv Ho]. destruct (validated_members _ Hv) as [Hne Hnd]. split; [done|]. exists node.
  unfold new_cluster_server in Eg. inv_ok. cbn. rewrite lookup_insert_eq, Ho. by split_and!.
Qed.

(** *** The ways it ends *)

Lemma node_main_ends program args setup start timestamp destroy serve :
  match node_main program args setup start timestamp destroy serve with
  | Terminates _ => exists r a g e g1 g2, parse_node_arguments args = Parses r /\ setup r = Ok (a, g) /\ start g = (Ok tt, g1) /\
      serve (node_ready timestamp a g1) = (Throw e, g2)
  | Exits code _ err => code = 0 /\ err = [] \/ code = 1 /\ exists e, err = bytes_of "NebulaKV node failed: " ++ bytes_of (what e) ++ [newline]
  end.
Proof.
  unfold node_main. destruct (parse_node_arguments args) as [|r] eqn:Ea; [by left|].
  destruct (setup r) as [[a g]|e] eqn:Es; [|right; split; [done|]; by exists e].
  destruct (start g) as [[[]|e] g1] eqn:Et; [|right; split; [done|]; by exists e].
  destruct (serve _) as [[u|e] g2] eqn:Ew; [by left|]. by exists r, a, g, e, g1, g2.
Qed.
End node_program.
